(* ===== verification/_CoqProject ===== *)
-Q . S2P
Prelude.v
Bytes.v
SizedInts.v
Hashing.v
Merkle.v
ECDSA.v
Tx.v
TxValidator.v
Randomness.v
Block.v
P2PEncoding.v
Session.v
RdPoS.v
RoundWorker.v
SafeBase.v
SafeCell.v
SafeString.v
SafeMap.v
SafeVector.v
SafeArray.v
SafeUint.v
SafeInt.v
DexLibrary.v
Abi.v
Regex.v
JsonValue.v
DB.v
Hex.v
Event.v
Storage.v
EvmHost.v
EvmStore.v
ContractManager.v
ContractStore.v
ContractVars.v
ContractLogic.v
CodeSpec.v
ERC20.v
ERC20Store.v
DexPair.v
DexFactory.v
State.v
StateTx.v
NativeWrapper.v
DexRouter.v
ERC721.v
ERC721Calls.v
ERC721Store.v
ERC20Wrapper.v
ThrowTests.v
ContractClasses.v
StateBlock.v
P2PManager.v
NodeSync.v
Producer.v
P2PFlood.v
StateCalls.v
JsonRpcDecoding.v
JsonRpcEncoding.v
HttpParser.v
JsonRpcAnswers.v
HttpSession.v
