(* ===== verification/Prelude.v ===== *)
(** * OrbiterSDK: a verification library

    The program (src/) is a blockchain node: an EVM chain whose contracts may also be C++ classes.
    A [State] holds the accounts, the contracts, the consensus of random validators, the mempool and the
    storage of blocks, and processes one block after another.  This library models its deterministic
    core from the C++ source, one file per component, and proves what makes each component correct.

    ** Conventions

    Every fallible function returns [result A] ([Ok] or [Throw e]); stateful code is [M S A], a
    function from the state to a result and a state, so that an exception keeps the changes made before
    it, as in C++; [mtry] is a catch block.  The exception [Undefined] stands for undefined behaviour
    (out-of-bounds reads, null dereference, a mutex locked twice); no catch block handles it.  Bytes are
    [list Z] with the bounds where they matter ([bytes_ok]), integers are [Z] with their width written
    out: [ustore w] is the store to a checked w-bit integer, machine integers wrap with [mod].
    Unordered containers are [gmap]s; the order in which C++ iterates over one is the class [HashOrder].
    Code that is not under src/ is a class with its documented behaviour: [LibSecp256k1], [Keccak],
    [RocksDB], [EVMC] (the virtual machine), [BoostBits] and [BoostResidue] (boost::multiprecision: the
    bits of negative numbers and the value left by a failed operation), [ContractTypes] (the contract
    classes of the node), [Json] and [JsonText] (the text form of nlohmann::json), [Beast] (which responses end a connection).  Each has an executable instance in
    the witnesses ([toy_secp], [toy_hash], [ref_db], [toy_evm], [boost_ref], [residue_ref]).

    ** The files, from the bottom up, and the source each one models

    - [Prelude]: results, the state monad, loops, invariants of monadic code ([keeps]), list lemmas.
    - [Bytes], [SizedInts]: utils/utils.{h,cpp}, integers and big-endian bytes.  [Hex]: utils/hex.cpp.
    - [Hashing], [Merkle], [ECDSA]: utils/strings.{h,cpp}, utils/merkle.cpp, utils/ecdsa.cpp.
    - [Tx], [TxValidator]: utils/tx.cpp, the RLP of both kinds of transaction.
    - [Randomness]: utils/randomgen.{h,cpp}.  [Block]: utils/block.{h,cpp}.
    - [P2PEncoding]: net/p2p/encoding.{h,cpp}, the messages between nodes.  [Session]: net/p2p/session.cpp,
      their frames on the wire and the queue of a session.
    - [RdPoS]: core/rdpos.{h,cpp}: validators, their mempool, the validation of blocks.  [RoundWorker]: its
      worker thread, and a network of validators that run it, as a step relation.
    - [DB]: utils/db.{h,cpp} over RocksDB.  [Storage]: core/storage.{h,cpp}.
    - [SafeBase], [SafeCell], [SafeString], [SafeUint], [SafeInt], [SafeMap], [SafeVector], [SafeArray] (which has the
      tuples too): contract/variables/, the variables of the C++ contracts, with [commit] and [revert]; the interface is the class [SafeVariable].
    - [Abi]: contract/abi.{h,cpp}.  [Event]: contract/event.{h,cpp}.
    - [EvmHost]: core/evmhost.hpp and the precompiles of core/ecrecoverprecompile.cpp.  [EvmStore]: its
      destructor and constructor, the state in the database.
    - [ContractManager]: contract/contractmanager.{h,cpp}, contractcalllogger, dynamiccontract.h.  The
      function of a contract is a term of [code], a free monad over what a contract can do (use a
      variable, read its locals, send tokens, emit an event, call or create a contract); [exec] runs it.
      Theorems about the manager hold for every contract.  [ContractStore]: the database entries of
      contract/contract.h and of the manager, for any classes; [ContractClasses]: the token classes.
    - [ContractVars], [ERC20], [ERC20Store], [NativeWrapper]: contracts of contract/templates/, as [code],
      and what they promise: [token] is the abstract specification of an ERC20.  [ERC20Wrapper], with [vault] as its
      specification: erc20wrapper.cpp.  [ThrowTests]: throwtestA.cpp, throwtestB.cpp, throwtestC.cpp and testThrowVars.cpp.
    - [ContractLogic]: the statements of larger contracts and the rules to reason about them, as judgements
      on a run ([returns], [ends], [gives]).  [DexLibrary], [DexPair], [DexFactory], [DexRouter]: the exchange of
      contract/templates/dexv2/.  The library is a set of functions over checked integers; the pair, the factory
      and the router are [code] that calls the tokens, the wrapper and each other through the manager.
    - [CodeSpec]: the judgement [does], code against a step of a specification, and its rules.  [ERC721], [ERC721Calls],
      [ERC721Store]: contract/templates/erc721.cpp and erc721test.cpp; [nft] is the specification, with its invariant.
    - [State], [StateTx], [StateBlock], [StateCalls]: core/state.{h,cpp}; the definitions in the first,
      then transactions, blocks, and the views and the database.
    - [P2PManager]: net/p2p/managerbase.cpp, managernormal.cpp, managerdiscovery.cpp: what a node does with
      each message, on a state that holds the [State]; [P2PFlood]: flood control, blocks between nodes.
      [NodeSync]: net/p2p/discovery.cpp and the peers of the syncer.  [Producer]: the validator that makes
      the next block, core/blockchain.cpp.
    - [Regex], [JsonValue]: the regular expressions and the JSON values the node uses (libs/json.hpp).
      [JsonRpcDecoding], [JsonRpcEncoding]: net/http/jsonrpc/, what each method reads of a request and what it answers.
      [HttpParser]: net/http/httpparser.{h,cpp}, from the body of a request to the response; [JsonRpcAnswers]: what
      requests do to the node.  [HttpSession]: net/http/httpsession.cpp, the queue and the steps of a connection.

    Components meet through the classes: [ContractManager] is proved for any [PayableState] and any
    [SafeVariable]; [State] gives the first, [SafeCell] and [SafeMap] the second.

    ** What the theorems show

    - Codecs: what is serialised is parsed back (transactions, blocks, messages, events, ABI, integers), and where
      a parser accepts more or less than was written, exactly when.
    - Consensus: [validateBlock] against its specification, the bound of the validator mempool, the
      shuffle; in a network of honest validators of which none is stopped no seed is revealed before every commitment
      is made; a complete round ends in a valid block ([producer_appends]).
    - Network: a session delivers messages unchanged and in order, a node relays a broadcast once
      ([flood_once]) and takes over a valid block ([block_relayed]).
    - Storage: the invariant of the chain over every reachable state, lookups, and restarts (blocks,
      events, accounts, the EVM state, tokens).
    - Contracts: a call is atomic over variables, balances and events ([callContract_atomic]), no
      contract creates coins ([contract_code_conserves]), maps and integers of contracts refine theirs,
      an ERC20 refines its specification, and a NativeWrapper is always backed by coins.  The functions of an ERC721
      refine theirs ([nft_call_refines]) and transactions keep its books right ([nftTest_books_kept]).  An ERC20Wrapper can
      always pay what it has booked, but for the last unit ([wrapper_pays]), and forgets users at a restart ([wrapper_reloads]).
    - The exchange: a swap that returns never lowers the product of the reserves, whatever the tokens do
      ([swap_keeps_product]); the router's prices are the library's for the stored reserves and its limits are
      kept ([router_prices], [router_sells], [router_buys]); a direct swap that is paid for succeeds and pays
      ([router_swap_pays]).
    - The EVM: calls terminate, a revert restores the state, a commit keeps it.
    - State: the effect of a transaction on every balance and nonce on each branch ([evm_transaction_accounting]), types kept, blocks
      validated exactly as specified, accepted blocks appended, views undone.
    - JSON-RPC: a raw transaction reaches the mempool and the other nodes ([raw_transaction]), all other requests leave the
      node alone ([queries_keep_node]), numbers are read back ([quantity_roundtrip]), answers carry the identifier of the request;
      an HTTP session answers in order and never waits for nothing ([session_in_order]).
    - Where the code does not do what it means to, a theorem states what it does
      ([failed_contract_call_mints], [erased_key_lost], and the findings of the manifest).

    ** Bounds and fuel

    Nested EVM calls have 1024 levels of fuel, the depth at which the EVM refuses a call; with more the
    result is the same ([evm_terminates]).  [bytesRequired] has 33 iterations, one more than 32 bytes
    need.  RLP and ABI readers recurse on their input or on the type, the reader of a session on the bytes
    it holds.  The searches of the block producer have no bound in the code: with [minValidators] units of
    fuel they end when the round is complete, and for no fuel when it lacks a commitment ([producer_hangs]).
    Contract code is a finite term: a function that loops for ever has no term.

    ** Not modelled

    Sockets, Boost's reading and writing of HTTP messages and gRPC (asynchronous input and output), and the errors of a
    connection; the start and stop of threads; the log; the generation of ABI files;
    the contracts ERC721Mint and SimpleContract.  Mutexes are not values:
    operations are steps one after another, and locking a mutex twice is [Undefined].  Gas metering of
    the virtual machine is the class [EVMC]'s. *)

From Stdlib Require Export ZArith Lia Permutation.
From stdpp Require Export base tactics list gmap strings numbers option fin_maps.

#[global] Open Scope Z_scope.

(** ** Exceptions and results

    The C++ exceptions the sources throw. [DynamicException] is the project's own class
    (src/utils/dynamicexception.h); the others are the [std] classes. *)

Inductive exn : Type :=
| DynamicException (msg : string)
| RuntimeError (msg : string)
| OverflowError
| UnderflowError
| DomainError
| InvalidArgument
| OutOfRange
| RangeError
| LengthError
| FutureError (* a promise that is set a second time *)
| Undefined. (* undefined behaviour: a read past the end of a span or vector *)

#[export] Instance exn_eq_dec : EqDecision exn.
Proof. solve_decision. Defined.

Inductive result (A : Type) : Type :=
| Ok (a : A)
| Throw (e : exn).

Arguments Ok {A} a.
Arguments Throw {A} e.

#[export] Instance result_ret : MRet result := λ A a, Ok a.
#[export] Instance result_bind : MBind result := λ A B f m,
  match m with Ok a => f a | Throw e => Throw e end.
#[export] Instance result_fmap : FMap result := λ A B f m,
  match m with Ok a => Ok (f a) | Throw e => Throw e end.
#[export] Instance result_eq_dec {A} `{EqDecision A} : EqDecision (result A).
Proof. solve_decision. Defined.

(** [guard_throw b e] is the C++ idiom [if (b) throw e;]. *)
Definition throw_if (b : bool) (e : exn) : result unit :=
  if b then Throw e else Ok tt.

Definition is_ok {A} (r : result A) : bool :=
  match r with Ok _ => true | Throw _ => false end.

(** A fallible left fold: a C++ loop whose body may throw. *)
Fixpoint foldM {A B} (f : A → B → result A) (a : A) (l : list B) : result A :=
  match l with
  | [] => Ok a
  | x :: l => a' ← f a x; foldM f a' l
  end.

Fixpoint mapR {A B} (f : A → result B) (l : list A) : result (list B) :=
  match l with
  | [] => Ok []
  | x :: l => y ← f x; ys ← mapR f l; Ok (y :: ys)
  end.

(** ** Stateful code that may throw

    A C++ member function that throws keeps the writes it did before the throw,
    so the state is returned in both cases. *)

Definition M (S A : Type) : Type := S → result A * S.

Definition mret' {S A} (a : A) : M S A := λ s, (Ok a, s).
Definition mthrow {S A} (e : exn) : M S A := λ s, (Throw e, s).
Definition mbind' {S A B} (m : M S A) (f : A → M S B) : M S B := λ s,
  match m s with
  | (Ok a, s') => f a s'
  | (Throw e, s') => (Throw e, s')
  end.
Definition mget {S} : M S S := λ s, (Ok s, s).
Definition mput {S} (s' : S) : M S unit := λ _, (Ok tt, s').
Definition mmodify {S} (f : S → S) : M S unit := λ s, (Ok tt, f s).
Definition mgets {S A} (f : S → A) : M S A := λ s, (Ok (f s), s).
Definition mthrow_if {S} (b : bool) (e : exn) : M S unit :=
  if b then mthrow e else mret' tt.
Definition mlift {S A} (r : result A) : M S A := λ s, (r, s).

(** [try { m } catch (...) { h }]: the handler runs in the state the throw left. *)
Definition mcatch {S A} (m : M S A) (h : exn → M S A) : M S A := λ s,
  match m s with
  | (Ok a, s') => (Ok a, s')
  | (Throw e, s') => h e s'
  end.

Fixpoint mforeach {S A} (f : A → M S unit) (l : list A) : M S unit :=
  match l with
  | [] => mret' tt
  | x :: l => mbind' (f x) (λ _, mforeach f l)
  end.

(** [try { m } catch (const std::exception&) ...]: the handler sees the result; undefined behaviour is not
    caught. *)
Definition mtry {S A B} (m : M S A) (k : result A → M S B) : M S B := λ s,
  let '(r, s') := m s in
  match r with Throw Undefined => (Throw Undefined, s') | _ => k r s' end.

Declare Scope code_scope.
Delimit Scope code_scope with code.
Notation "x <-- m ;; k" := (mbind' m (λ x, k))
  (at level 100, m at next level, right associativity) : code_scope.
Notation "m ;;; k" := (mbind' m (λ _, k))
  (at level 100, right associativity) : code_scope.
#[global] Open Scope code_scope.

(** ** Tactics *)

(** Break the matches of a hypothesis [_ = Ok _] of the fallible code. *)
Ltac destruct_bind H :=
  match type of H with
  | context [match ?m with Ok _ => _ | Throw _ => _ end] =>
      let E := fresh "E" in destruct m eqn:E; simpl in H; try discriminate H
  end.

Ltac inv_ok :=
  repeat match goal with
  | H : Ok _ = Ok _ |- _ => injection H as H; subst
  | H : Throw _ = Ok _ |- _ => discriminate H
  | H : Ok _ = Throw _ |- _ => discriminate H
  | H : Throw _ = Throw _ |- _ => injection H as H; subst
  end.

Ltac inv_pair :=
  repeat match goal with
  | H : (_, _) = (_, _) |- _ => injection H as H; subst
  | p : _ * _ |- _ => destruct p
  end.

(** Turn boolean comparisons of [Z] in the context into propositions. *)
Ltac bool_to_Z :=
  repeat match goal with
  | H : (_ <? _) = true |- _ => apply Z.ltb_lt in H
  | H : (_ <? _) = false |- _ => apply Z.ltb_ge in H
  | H : (_ <=? _) = true |- _ => apply Z.leb_le in H
  | H : (_ <=? _) = false |- _ => apply Z.leb_gt in H
  | H : (_ =? _) = true |- _ => apply Z.eqb_eq in H
  | H : (_ =? _) = false |- _ => apply Z.eqb_neq in H
  | H : (_ >? _) = true |- _ => rewrite Z.gtb_ltb in H
  | H : (_ >? _) = false |- _ => rewrite Z.gtb_ltb in H
  | H : (_ >=? _) = true |- _ => rewrite Z.geb_leb in H
  | H : (_ >=? _) = false |- _ => rewrite Z.geb_leb in H
  | H : _ && _ = true |- _ => apply andb_true_iff in H; destruct H
  | H : _ || _ = false |- _ => apply orb_false_iff in H; destruct H
  | H : negb _ = true |- _ => apply negb_true_iff in H
  | H : negb _ = false |- _ => apply negb_false_iff in H
  end.

Ltac zcase :=
  match goal with
  | |- context [?a <? ?b] => destruct (Z.ltb_spec a b)
  | |- context [?a <=? ?b] => destruct (Z.leb_spec a b)
  | |- context [?a =? ?b] => destruct (Z.eqb_spec a b)
  end.

(** ** Lemmas on the fallible combinators *)

Lemma result_bind_ok {A B} (m : result A) (f : A → result B) b :
  (m ≫= f) = Ok b ↔ ∃ a, m = Ok a ∧ f a = Ok b.
Proof.
  destruct m as [a|e]; simpl; split.
  - intros H. by exists a.
  - intros (a' & ? & ?). by inv_ok.
  - discriminate.
  - intros (a' & ? & ?). discriminate.
Qed.

Lemma result_bind_Ok {A B} (a : A) (f : A → result B) : (Ok a ≫= f) = f a.
Proof. reflexivity. Qed.

Lemma Ok_inj {A} (a b : A) : Ok a = Ok b → a = b.
Proof. congruence. Qed.

Lemma throw_if_ok b e u : throw_if b e = Ok u ↔ b = false.
Proof. destruct b, u; simpl; naive_solver. Qed.

Lemma foldM_app {A B} (f : A → B → result A) l1 l2 a :
  foldM f a (l1 ++ l2) = (a' ← foldM f a l1; foldM f a' l2).
Proof.
  revert a. induction l1 as [|x l1 IH]; intros a; simpl; [done|].
  unfold mbind, result_bind. destruct (f a x); [apply IH|done].
Qed.

Lemma mapR_length {A B} (f : A → result B) l ys :
  mapR f l = Ok ys → length ys = length l.
Proof.
  revert ys. induction l as [|x l IH]; intros ys; simpl; [by intros [= <-]|].
  intros (y & Hy & H)%result_bind_ok. apply result_bind_ok in H as (ys' & H & ?).
  inv_ok. simpl. f_equal. by apply IH.
Qed.

(** An invariant of the state carried through a fallible loop. *)
Lemma foldM_invariant {A B} (P : A → Prop) (f : A → B → result A) l a a' :
  (∀ a x a', x ∈ l → P a → f a x = Ok a' → P a') →
  P a → foldM f a l = Ok a' → P a'.
Proof.
  revert a. induction l as [|x l IH]; intros a Hstep Ha; simpl.
  - by intros [= <-].
  - intros (a1 & H1 & H2)%result_bind_ok.
    eapply IH; [|eapply Hstep; [left|exact Ha|exact H1]|exact H2].
    intros b y b' Hy. apply Hstep. by right.
Qed.

Create HintDb code discriminated.
Create Rewrite HintDb code_rw.
#[export] Hint Rewrite @result_bind_ok : code_rw.

(** ** What stateful code keeps *)

(** [m] keeps [I], whatever it returns or throws. *)
Definition keeps {S A} (I : S → Prop) (m : M S A) : Prop := ∀ s, I s → I (m s).2.

Section keeps.
Context {S : Type} (I : S → Prop).

Lemma keeps_ret {A} (a : A) : keeps I (mret' a).
Proof. by intros s Hs. Qed.

Lemma keeps_throw {A} e : keeps I (mthrow (A := A) e).
Proof. by intros s Hs. Qed.

Lemma keeps_lift {A} (r : result A) : keeps I (mlift r).
Proof. by intros s Hs. Qed.

Lemma keeps_gets {A} (f : S → A) : keeps I (mgets f).
Proof. by intros s Hs. Qed.

Lemma keeps_get : keeps I mget.
Proof. by intros s Hs. Qed.

Lemma keeps_modify f : (∀ s, I s → I (f s)) → keeps I (mmodify f).
Proof. intros Hf s Hs. by apply Hf. Qed.

Lemma keeps_throw_if b e : keeps I (mthrow_if b e).
Proof. destruct b; [apply keeps_throw|apply keeps_ret]. Qed.

Lemma keeps_bind {A B} (m : M S A) (k : A → M S B) : keeps I m → (∀ a, keeps I (k a)) → keeps I (mbind' m k).
Proof.
  intros Hm Hk s Hs. unfold mbind'. specialize (Hm s Hs). destruct (m s) as [[a|e] s']; [by apply Hk|done].
Qed.

(** The continuation may use the value a computation lifts, or the state it is run in. *)
Lemma keeps_lift_bind {A B} (r : result A) (k : A → M S B) :
  (∀ a, r = Ok a → keeps I (k a)) → keeps I (mbind' (mlift r) k).
Proof. intros Hk s Hs. unfold mbind', mlift. destruct r as [a|e]; [by apply Hk|done]. Qed.

Lemma keeps_get_bind {B} (k : S → M S B) : (∀ s, I s → I (k s s).2) → keeps I (mbind' mget k).
Proof. intros Hk s Hs. by apply Hk. Qed.

Lemma keeps_mtry {A B} (m : M S A) (k : result A → M S B) :
  keeps I m → (∀ r, keeps I (k r)) → keeps I (mtry m k).
Proof.
  intros Hm Hk s Hs. unfold mtry. specialize (Hm s Hs). destruct (m s) as [r s'].
  destruct r as [a|[]]; try apply Hk; done.
Qed.

Lemma keeps_foreach {A} (f : A → M S unit) l : (∀ a, keeps I (f a)) → keeps I (mforeach f l).
Proof.
  intros Hf. induction l as [|a l IH]; cbn [mforeach]; [apply keeps_ret|]. apply keeps_bind; [done|]. by intros _.
Qed.
End keeps.

Create HintDb keeps discriminated.
#[export] Hint Resolve keeps_ret keeps_throw keeps_lift keeps_gets keeps_get keeps_modify keeps_throw_if keeps_bind
  keeps_mtry keeps_foreach : keeps.

(** Reads of a [std::span] or [std::vector]: out of range they are undefined behaviour. *)
Definition read_at {A} (l : list A) (i : nat) : result A :=
  match l !! i with Some x => Ok x | None => Throw Undefined end.

Definition subspan {A} (l : list A) (off len : nat) : result (list A) :=
  if decide (off + len ≤ length l)%nat then Ok (take len (drop off l)) else Throw Undefined.

(** Reading a buffer that continues with [x :: rest], or with [xs ++ rest], at an offset. *)
Lemma read_at_drop {A} (l : list A) i x rest : drop i l = x :: rest → read_at l i = Ok x.
Proof.
  intros Hd. unfold read_at. by rewrite <- (Nat.add_0_r i), <- lookup_drop, Hd.
Qed.

Lemma subspan_drop {A} (l : list A) i n xs rest :
  (i ≤ length l)%nat → drop i l = xs ++ rest → length xs = n → subspan l i n = Ok xs.
Proof.
  intros Hi Hd Hn. unfold subspan.
  assert (Hl : length (drop i l) = (n + length rest)%nat) by (rewrite Hd, length_app; lia).
  rewrite length_drop in Hl. case_decide as Hc.
  - rewrite Hd, take_app_le, take_ge by lia. done.
  - lia.
Qed.

Lemma drop_app_next {A} (l : list A) i xs rest :
  drop i l = xs ++ rest → drop (i + length xs) l = rest.
Proof. intros Hd. by rewrite <- drop_drop, Hd, drop_app_length. Qed.

(** [std::unordered_map::insert]: an existing entry stays. *)
Definition insert_new {K A} `{Countable K} (k : K) (a : A) (m : gmap K A) : gmap K A :=
  match m !! k with Some _ => m | None => <[k := a]> m end.

(** Inserting the entries of a map, in any order, gives the map. *)
Lemma foldl_insert_entries {K A} `{Countable K} (m : gmap K A) l :
  l ≡ₚ map_to_list m → foldl (λ t (p : K * A), <[p.1 := p.2]> t) ∅ l = m.
Proof.
  intros Hl. assert (Hnd : NoDup l.*1) by (rewrite Hl; apply NoDup_fst_map_to_list).
  rewrite <- (list_to_map_to_list m), <- (list_to_map_proper l) by done. clear Hl. rewrite <- (map_union_empty (list_to_map l)).
  generalize (∅ : gmap K A) as t. revert Hnd. induction l as [|[k x] l IH]; intros Hnd t; cbn [foldl].
  - by rewrite list_to_map_nil, map_empty_union.
  - apply NoDup_cons in Hnd as [Hk Hnd]. rewrite IH by done. cbn [list_to_map foldr fst snd].
    rewrite <- insert_union_l, <- insert_union_r; [done|]. by apply not_elem_of_list_to_map_1.
Qed.

(** Close a decidable goal by evaluating its decision procedure. *)
Ltac by_compute := refine (bool_decide_unpack _ _); vm_compute; exact I.
