(* ===== verification/Bytes.v ===== *)
(** * Bytes: machine integers and byte strings of src/utils/utils.{h,cpp}

    A byte is a [Z] in [0, 256); a byte string ([Bytes], [BytesArr<N>], [BytesArrView]) is a
    [list Z].  [ustore w] is the store of an arithmetic result into an unsigned integer of [w] bits:
    modulo [2^w] for the native widths (8, 16, 32, 64), and with an exception on overflow or on a
    negative value for the widths that are [boost::multiprecision] checked integers.
    [boost::multiprecision::export_bits] and [import_bits] are third-party code: they are the
    operations of the class [BoostBits], whose laws are their documented behaviour. *)

From S2P Require Import Prelude.

(** ** Unsigned integers of a given width *)

Definition native_width (w : Z) : bool :=
  (w =? 8) || (w =? 16) || (w =? 32) || (w =? 64).

Definition umax (w : Z) : Z := 2 ^ w - 1.

Definition in_uint (w z : Z) : Prop := 0 ≤ z < 2 ^ w.

#[export] Instance in_uint_dec w z : Decision (in_uint w z).
Proof. unfold in_uint. apply _. Defined.

(** The store of the exact value [z] into an unsigned integer of [w] bits. *)
Definition ustore (w z : Z) : result Z :=
  if native_width w then Ok (z mod 2 ^ w)
  else if z <? 0 then Throw RangeError
  else if z <=? umax w then Ok z
  else Throw OverflowError.

Lemma ustore_in w z : in_uint w z → ustore w z = Ok z.
Proof.
  intros [H1 H2]. unfold ustore, umax. case_match.
  - by rewrite Z.mod_small by lia.
  - destruct (Z.ltb_spec z 0); [lia|]. destruct (Z.leb_spec z (2 ^ w - 1)); [done|lia].
Qed.

Lemma ustore_range w z z' : 0 ≤ w → ustore w z = Ok z' → in_uint w z'.
Proof.
  intros Hw. unfold ustore, umax, in_uint. case_match.
  - intros [= <-]. apply Z.mod_pos_bound. lia.
  - destruct (Z.ltb_spec z 0); [done|]. destruct (Z.leb_spec z (2 ^ w - 1)); [|done].
    intros [= <-]. lia.
Qed.

(** For a checked width a store that succeeds is exact. *)
Lemma ustore_checked w z z' :
  native_width w = false → ustore w z = Ok z' → z' = z ∧ in_uint w z.
Proof.
  unfold ustore, umax, in_uint. intros ->.
  destruct (Z.ltb_spec z 0); [done|]. destruct (Z.leb_spec z (2 ^ w - 1)); [|done].
  intros [= <-]. split; [done|lia].
Qed.

(** ** Byte strings *)

Definition is_byte (b : Z) : Prop := 0 ≤ b < 256.
Definition bytes_ok (bs : list Z) : Prop := Forall is_byte bs.

#[export] Instance is_byte_dec b : Decision (is_byte b).
Proof. unfold is_byte. apply _. Defined.
#[export] Instance bytes_ok_dec bs : Decision (bytes_ok bs).
Proof. unfold bytes_ok. apply _. Defined.

(** The value of a big-endian byte string. *)
Definition be_decode (bs : list Z) : Z := foldl (λ acc b, acc * 256 + b) 0 bs.

(** The in-memory representation of an integer on a little-endian host, read and written. *)
Fixpoint le_bytes (n : nat) (i : Z) : list Z :=
  match n with
  | O => []
  | S n => Z.land i 255 :: le_bytes n (Z.shiftr i 8)
  end.

Fixpoint le_load (bs : list Z) : Z :=
  match bs with
  | [] => 0
  | b :: bs => Z.lor b (Z.shiftl (le_load bs) 8)
  end.

Definition be_encode (n : nat) (i : Z) : list Z := reverse (le_bytes n i).

(** [template <class T, class In> T fromBigEndian(const In& bytes)] for an unsigned [T] of [w] bits. *)
Definition fromBigEndian (w : Z) (bytes : list Z) : result Z :=
  foldM (λ ret i, ustore w (Z.lor (Z.shiftl ret 8) i)) 0 bytes.

(** [template <class T> unsigned bytesRequired(T i)]: the loop [for (; i != 0; ++ic, i >>= 8)].
    The fuel is the number of iterations; 33 covers every 256-bit value. *)
Fixpoint bytesRequired_loop (fuel : nat) (i ic : Z) : Z :=
  match fuel with
  | O => ic
  | S fuel => if i =? 0 then ic else bytesRequired_loop fuel (Z.shiftr i 8) (ic + 1)
  end.

Definition bytesRequired (i : Z) : Z := bytesRequired_loop 33 i 0.

(** [template <class T> Bytes uintToBytes(T i)]: the buffer has [bytesRequired(i)] cells and is
    filled from its end; [acc] is the part already written, so the loop stops when [i] is 0 or the
    iterator reaches the beginning. *)
Fixpoint uintToBytes_loop (cells : nat) (i : Z) (acc : list Z) : list Z :=
  match cells with
  | O => acc
  | S cells =>
      if i =? 0 then replicate (S cells) 0 ++ acc
      else uintToBytes_loop cells (Z.shiftr i 8) (Z.land i 255 :: acc)
  end.

Definition uintToBytes (i : Z) : list Z :=
  uintToBytes_loop (Z.to_nat (bytesRequired i)) i [].

(** *** Native conversions: [memcpy] and a byte reversal *)

Definition uint64ToBytes (i : Z) : list Z := reverse (le_bytes 8 i).
Definition uint32ToBytes (i : Z) : list Z := reverse (le_bytes 4 i).
Definition uint16ToBytes (i : Z) : list Z := reverse (le_bytes 2 i).
Definition uint8ToBytes (i : Z) : list Z := le_bytes 1 i.

(** [__builtin_bswap64] and its narrower variants. *)
Definition bswap (n : nat) (x : Z) : Z := le_load (reverse (le_bytes n x)).

Definition bad_size : exn := DynamicException "Invalid bytes size".

Definition bytesToUint64 (b : list Z) : result Z :=
  if decide (length b = 8%nat) then Ok (bswap 8 (le_load b)) else Throw bad_size.
Definition bytesToUint32 (b : list Z) : result Z :=
  if decide (length b = 4%nat) then Ok (bswap 4 (le_load b)) else Throw bad_size.
Definition bytesToUint16 (b : list Z) : result Z :=
  if decide (length b = 2%nat) then Ok (bswap 2 (le_load b)) else Throw bad_size.
Definition bytesToUint8 (b : list Z) : result Z :=
  if decide (length b = 1%nat) then Ok (b !!! 0%nat) else Throw bad_size.

(** ** Arithmetic of the representation *)

Lemma lor_shiftl8 b x : is_byte b → Z.lor b (Z.shiftl x 8) = b + 256 * x.
Proof.
  intros Hb.
  assert (Hl : Z.land b (Z.shiftl x 8) = 0).
  { apply Z.bits_inj'. intros n Hn. rewrite Z.land_spec, Z.bits_0.
    destruct (Z.lt_ge_cases n 8) as [Hlt|Hge].
    - rewrite Z.shiftl_spec_low by lia. by rewrite andb_false_r.
    - unfold is_byte in Hb. destruct (Z.eq_dec b 0) as [->|Hb0]; [by rewrite Z.bits_0|].
      rewrite (Z.bits_above_log2 b n); [done|lia|].
      apply Z.log2_lt_pow2; [lia|]. assert (2 ^ 8 ≤ 2 ^ n) by (apply Z.pow_le_mono_r; lia). lia. }
  rewrite <- Z.lxor_lor, <- Z.add_nocarry_lxor by done.
  rewrite Z.shiftl_mul_pow2 by lia. lia.
Qed.

Lemma land_255 i : Z.land i 255 = i mod 256.
Proof. change 255 with (Z.ones 8). by rewrite Z.land_ones by lia. Qed.

Lemma shiftr_8 i : Z.shiftr i 8 = i / 256.
Proof. by rewrite Z.shiftr_div_pow2 by lia. Qed.

Lemma mod256_byte i : is_byte (i mod 256).
Proof. unfold is_byte. apply Z.mod_pos_bound. lia. Qed.

#[export] Hint Resolve mod256_byte : code.

Lemma le_bytes_length n i : length (le_bytes n i) = n.
Proof. revert i. induction n; intros; simpl; auto. Qed.

Lemma be_encode_length n i : length (be_encode n i) = n.
Proof. unfold be_encode. by rewrite length_reverse, le_bytes_length. Qed.

Lemma le_bytes_ok n i : bytes_ok (le_bytes n i).
Proof.
  revert i. induction n; intros; simpl; constructor; [|apply IHn].
  rewrite land_255. apply mod256_byte.
Qed.

Lemma be_encode_ok n i : bytes_ok (be_encode n i).
Proof. apply Forall_reverse, le_bytes_ok. Qed.

#[export] Hint Resolve le_bytes_ok be_encode_ok : code.

Lemma be_decode_acc bs a :
  foldl (λ acc b, acc * 256 + b) a bs = a * 256 ^ Z.of_nat (length bs) + be_decode bs.
Proof.
  unfold be_decode. revert a. induction bs as [|b bs IH]; intros a.
  - simpl. lia.
  - cbn [foldl length]. rewrite IH, (IH (0 * 256 + b)).
    rewrite Nat2Z.inj_succ, Z.pow_succ_r by lia. lia.
Qed.

Lemma be_decode_app bs1 bs2 :
  be_decode (bs1 ++ bs2) = be_decode bs1 * 256 ^ Z.of_nat (length bs2) + be_decode bs2.
Proof. unfold be_decode at 1. rewrite foldl_app. apply be_decode_acc. Qed.

Lemma be_decode_cons b bs :
  be_decode (b :: bs) = b * 256 ^ Z.of_nat (length bs) + be_decode bs.
Proof.
  change (b :: bs) with ([b] ++ bs). rewrite be_decode_app. unfold be_decode at 1. simpl. lia.
Qed.

Lemma be_decode_bound bs : bytes_ok bs → 0 ≤ be_decode bs < 256 ^ Z.of_nat (length bs).
Proof.
  induction 1 as [|b bs Hb Hbs IH]; [unfold be_decode; simpl; lia|].
  rewrite be_decode_cons. cbn [length]. rewrite Nat2Z.inj_succ, Z.pow_succ_r by lia.
  unfold is_byte in Hb. nia.
Qed.

Lemma le_load_reverse bs : bytes_ok bs → le_load bs = be_decode (reverse bs).
Proof.
  induction 1 as [|b bs Hb Hbs IH]; [done|].
  rewrite reverse_cons, be_decode_app. cbn [le_load length].
  rewrite lor_shiftl8 by done. unfold be_decode at 2. simpl. rewrite IH. lia.
Qed.

Lemma le_load_le_bytes n i : le_load (le_bytes n i) = i mod 256 ^ Z.of_nat n.
Proof.
  revert i. induction n as [|n IH]; intros i.
  - simpl. by rewrite Z.mod_1_r.
  - cbn [le_bytes le_load]. rewrite land_255, shiftr_8.
    rewrite lor_shiftl8 by apply mod256_byte.
    rewrite IH, Nat2Z.inj_succ, Z.pow_succ_r by lia.
    rewrite (Z.rem_mul_r i 256) by lia. lia.
Qed.

Lemma be_decode_encode n i : be_decode (be_encode n i) = i mod 256 ^ Z.of_nat n.
Proof.
  unfold be_encode. rewrite <- le_load_reverse by apply le_bytes_ok.
  apply le_load_le_bytes.
Qed.

Lemma be_decode_inj bs1 bs2 :
  bytes_ok bs1 → bytes_ok bs2 → length bs1 = length bs2 →
  be_decode bs1 = be_decode bs2 → bs1 = bs2.
Proof.
  intros H1. revert bs2. induction H1 as [|b bs Hb Hbs IH]; intros [|c cs] H2 Hl Hd; try done.
  apply Forall_cons in H2 as [Hc Hcs]. injection Hl as Hl.
  rewrite !be_decode_cons, Hl in Hd.
  assert (Hb1 := be_decode_bound _ Hbs). assert (Hb2 := be_decode_bound _ Hcs).
  rewrite Hl in Hb1. set (p := 256 ^ Z.of_nat (length cs)) in *.
  assert (b = c) as -> by nia. f_equal. apply IH; auto. lia.
Qed.

Lemma be_encode_decode bs : bytes_ok bs → be_encode (length bs) (be_decode bs) = bs.
Proof.
  intros H. apply be_decode_inj; auto using be_encode_ok.
  - apply be_encode_length.
  - rewrite be_decode_encode, Z.mod_small; [done|]. by apply be_decode_bound.
Qed.

Lemma be_encode_decode_n n bs :
  bytes_ok bs → length bs = n → be_encode n (be_decode bs) = bs.
Proof. intros ? <-. by apply be_encode_decode. Qed.

Lemma pow256 n : 256 ^ Z.of_nat n = 2 ^ (8 * Z.of_nat n).
Proof. change 256 with (2 ^ 8). by rewrite <- Z.pow_mul_r by lia. Qed.

Lemma be_decode_replicate0 n : be_decode (replicate n 0) = 0.
Proof. induction n; [done|]. cbn [replicate]. rewrite be_decode_cons, IHn. lia. Qed.

Lemma bswap_le_load n bs : bytes_ok bs → length bs = n → bswap n (le_load bs) = be_decode bs.
Proof.
  intros H Hn. unfold bswap. fold (be_encode n (le_load bs)).
  assert (Hr : bytes_ok (reverse bs)) by (by apply Forall_reverse).
  rewrite (le_load_reverse bs) by done.
  rewrite <- Hn, <- (length_reverse bs), be_encode_decode by done.
  rewrite le_load_reverse by done. by rewrite reverse_involutive.
Qed.

(** ** Native conversions are inverse to each other *)

Lemma uint64ToBytes_encode i : uint64ToBytes i = be_encode 8 i.
Proof. done. Qed.

Lemma uint32ToBytes_encode i : uint32ToBytes i = be_encode 4 i.
Proof. done. Qed.

Lemma bytesToUint64_decode b :
  bytes_ok b → length b = 8%nat → bytesToUint64 b = Ok (be_decode b).
Proof. intros ??. unfold bytesToUint64. by rewrite decide_True, bswap_le_load by done. Qed.

Lemma bytesToUint32_decode b :
  bytes_ok b → length b = 4%nat → bytesToUint32 b = Ok (be_decode b).
Proof. intros ??. unfold bytesToUint32. by rewrite decide_True, bswap_le_load by done. Qed.

Lemma bytesToUint64_roundtrip i : in_uint 64 i → bytesToUint64 (uint64ToBytes i) = Ok i.
Proof.
  intros H. rewrite uint64ToBytes_encode, bytesToUint64_decode;
    auto using be_encode_ok, be_encode_length.
  by rewrite be_decode_encode, Z.mod_small.
Qed.

Lemma bytesToUint32_roundtrip i : in_uint 32 i → bytesToUint32 (uint32ToBytes i) = Ok i.
Proof.
  intros H. rewrite uint32ToBytes_encode, bytesToUint32_decode;
    auto using be_encode_ok, be_encode_length.
  by rewrite be_decode_encode, Z.mod_small.
Qed.

Lemma bytesToUint16_roundtrip i : in_uint 16 i → bytesToUint16 (uint16ToBytes i) = Ok i.
Proof.
  intros H. change (uint16ToBytes i) with (be_encode 2 i). unfold bytesToUint16.
  rewrite decide_True, bswap_le_load by auto using be_encode_ok, be_encode_length. by rewrite be_decode_encode, Z.mod_small.
Qed.

Lemma bytesToUint8_roundtrip i : in_uint 8 i → bytesToUint8 (uint8ToBytes i) = Ok i.
Proof. intros Hi. unfold bytesToUint8, uint8ToBytes, in_uint in *. cbn [le_bytes]. rewrite land_255, Z.mod_small by lia. done. Qed.

(** ** [bytesRequired] and [uintToBytes] *)

Lemma uint64_len x : length (uint64ToBytes x) = 8%nat.
Proof. rewrite uint64ToBytes_encode. apply be_encode_length. Qed.

(** Run one [subspan] of a decoder: [Hd] says what the buffer holds from the offset. *)
Ltac step_span Hd Hsize :=
  match type of Hd with
  | drop ?i ?l = ?xs ++ ?rest =>
      let n := lazymatch goal with |- context [subspan l i ?n] => n end in
      assert (Hlen : length xs = n) by (assumption || apply uint64_len);
      rewrite (subspan_drop l i n xs rest) by (assumption || (rewrite Hsize; lia));
      cbn [mbind result_bind];
      apply drop_app_next in Hd; rewrite Hlen in Hd; cbn [Nat.add] in Hd; clear Hlen
  end.

Lemma bytesRequired_loop_acc fuel i ic :
  bytesRequired_loop fuel i ic = ic + bytesRequired_loop fuel i 0.
Proof.
  revert i ic. induction fuel as [|fuel IH]; intros i ic; simpl; [lia|].
  destruct (i =? 0); [lia|]. rewrite IH, (IH _ 1). lia.
Qed.

(** Characterisation: the least number of bytes that holds [i]. *)
Lemma bytesRequired_loop_spec fuel i :
  0 ≤ i < 256 ^ Z.of_nat fuel →
  let n := bytesRequired_loop fuel i 0 in
  0 ≤ n ≤ Z.of_nat fuel ∧ i < 256 ^ n ∧ (0 < i → 256 ^ (n - 1) ≤ i) ∧ (i = 0 → n = 0).
Proof.
  revert i. induction fuel as [|fuel IH]; intros i Hi.
  - simpl in *. change (256 ^ 0) with 1 in *. repeat split; lia.
  - cbn [bytesRequired_loop]. destruct (Z.eqb_spec i 0) as [->|Hi0].
    + cbn. repeat split; lia.
    + rewrite bytesRequired_loop_acc, shiftr_8.
      rewrite Nat2Z.inj_succ, Z.pow_succ_r in Hi by lia.
      assert (Hd : 0 ≤ i / 256 < 256 ^ Z.of_nat fuel).
      { split; [apply Z.div_pos; lia|]. apply Z.div_lt_upper_bound; lia. }
      specialize (IH _ Hd) as (Hn & Hlt & Hge & Hz).
      set (n := bytesRequired_loop fuel (i / 256) 0) in *. simpl.
      assert (Hm := Z.mod_pos_bound i 256 ltac:(lia)).
      assert (Hdm := Z.div_mod i 256 ltac:(lia)).
      repeat split; try lia.
      * rewrite Z.pow_add_r by lia. lia.
      * intros _. replace (0 + 1 + n - 1) with n by lia.
        destruct (Z.eq_dec (i / 256) 0) as [Hz0|Hz0].
        -- rewrite (Hz Hz0). lia.
        -- assert (Hp : 256 ^ (n - 1) ≤ i / 256) by (apply Hge; lia).
           assert (n ≠ 0) by (intros ->; change (256 ^ 0) with 1 in Hlt; lia).
           replace n with (Z.succ (n - 1)) by lia. rewrite Z.pow_succ_r by lia. lia.
Qed.

Lemma bytesRequired_spec i :
  in_uint 256 i →
  0 ≤ bytesRequired i ≤ 32 ∧ i < 256 ^ bytesRequired i ∧
  (0 < i → 1 ≤ bytesRequired i ∧ 256 ^ (bytesRequired i - 1) ≤ i) ∧ (i = 0 → bytesRequired i = 0).
Proof.
  intros [H1 H2]. unfold bytesRequired.
  assert (H33 : 0 ≤ i < 256 ^ Z.of_nat 33).
  { split; [done|]. etrans; [exact H2|]. by vm_compute. }
  destruct (bytesRequired_loop_spec 33 i H33) as (Hn & Hlt & Hge & Hz).
  set (n := bytesRequired_loop 33 i 0) in *.
  assert (n ≤ 32).
  { destruct (Z.eq_dec i 0) as [->|]; [lia|].
    specialize (Hge ltac:(lia)). destruct (Z_le_gt_dec n 32); [done|exfalso].
    assert (256 ^ 32 ≤ 256 ^ (n - 1)) by (apply Z.pow_le_mono_r; lia).
    change (256 ^ 32) with (2 ^ 256) in *. lia. }
  split; [lia|]. split; [done|]. split; [|done]. intros Hpos.
  destruct (Z.eq_dec n 0) as [E|]; [|split; [lia|auto]].
  rewrite E in Hlt. change (256 ^ 0) with 1 in Hlt. lia.
Qed.

Lemma bytesRequired_nonneg i : 0 ≤ bytesRequired i.
Proof.
  unfold bytesRequired. generalize 33%nat. intros fuel. revert i.
  induction fuel as [|fuel IH]; intros i; simpl; [lia|].
  destruct (i =? 0); [lia|]. rewrite bytesRequired_loop_acc. specialize (IH (Z.shiftr i 8)). lia.
Qed.

Lemma bytesRequired_bound i n : in_uint 256 i → 0 ≤ n → i < 256 ^ n → bytesRequired i ≤ n.
Proof.
  intros Hi Hn Hlt. destruct (bytesRequired_spec i Hi) as (Hb & _ & Hge & Hz).
  destruct (Z.eq_dec i 0) as [->|]; [lia|].
  destruct (Hge ltac:(unfold in_uint in Hi; lia)) as [_ Hle].
  destruct (Z_le_gt_dec (bytesRequired i) n); [done|exfalso].
  assert (256 ^ n ≤ 256 ^ (bytesRequired i - 1)) by (apply Z.pow_le_mono_r; lia). lia.
Qed.

Lemma uintToBytes_loop_spec cells i acc :
  0 ≤ i → uintToBytes_loop cells i acc = be_encode cells i ++ acc.
Proof.
  revert i acc. induction cells as [|n IH]; intros i acc Hi; [done|].
  cbn [uintToBytes_loop]. unfold be_encode. cbn [le_bytes]. rewrite reverse_cons.
  destruct (Z.eqb_spec i 0) as [->|].
  - rewrite <- (app_assoc _ [_]). cbn [app].
    assert (H0 : ∀ m, reverse (le_bytes m 0) = replicate m 0).
    { intros m. apply be_decode_inj.
      - apply be_encode_ok.
      - apply Forall_replicate. split; lia.
      - by rewrite length_reverse, le_bytes_length, length_replicate.
      - change (reverse (le_bytes m 0)) with (be_encode m 0).
        by rewrite be_decode_encode, be_decode_replicate0, Zmod_0_l. }
    change (Z.shiftr 0 8) with 0. change (Z.land 0 255) with 0.
    rewrite H0, replicate_S_end, <- (app_assoc _ [0]). done.
  - rewrite IH by (apply Z.shiftr_nonneg; lia).
    by rewrite <- (app_assoc _ [_]).
Qed.

Lemma uintToBytes_encode i : 0 ≤ i → uintToBytes i = be_encode (Z.to_nat (bytesRequired i)) i.
Proof. intros. unfold uintToBytes. by rewrite uintToBytes_loop_spec, app_nil_r by done. Qed.

Lemma uintToBytes_length i :
  in_uint 256 i → Z.of_nat (length (uintToBytes i)) = bytesRequired i.
Proof.
  intros Hi. destruct (bytesRequired_spec i Hi) as [Hb _].
  rewrite uintToBytes_encode, be_encode_length by (destruct Hi; lia). lia.
Qed.

Lemma uintToBytes_ok i : 0 ≤ i → bytes_ok (uintToBytes i).
Proof. intros. rewrite uintToBytes_encode by done. apply be_encode_ok. Qed.

Lemma be_decode_uintToBytes i : in_uint 256 i → be_decode (uintToBytes i) = i.
Proof.
  intros Hi. destruct (bytesRequired_spec i Hi) as (Hb & Hlt & _).
  rewrite uintToBytes_encode, be_decode_encode by (destruct Hi; lia).
  rewrite Z2Nat.id by lia. apply Z.mod_small. destruct Hi; lia.
Qed.

(** ** [fromBigEndian] *)

Lemma fromBigEndian_snoc w bs b :
  fromBigEndian w (bs ++ [b]) =
  (r ← fromBigEndian w bs; ustore w (Z.lor (Z.shiftl r 8) b)).
Proof.
  unfold fromBigEndian. rewrite foldM_app. destruct (foldM _ 0 bs); [|done].
  simpl. unfold mbind, result_bind. by case_match.
Qed.

(** Exact on any input that fits the type, in particular on at most [w/8] bytes. *)
Lemma fromBigEndian_decode w bs :
  bytes_ok bs → be_decode bs < 2 ^ w → fromBigEndian w bs = Ok (be_decode bs).
Proof.
  induction bs as [|b bs IH] using rev_ind; intros Hok Hlt; [done|].
  apply Forall_app in Hok as [Hbs Hb]. apply Forall_inv in Hb.
  rewrite be_decode_app in *. change (256 ^ Z.of_nat (length [b])) with 256 in *.
  change (be_decode [b]) with (0 * 256 + b) in *.
  assert (Hbd := be_decode_bound _ Hbs). unfold is_byte in Hb.
  rewrite fromBigEndian_snoc, IH by (done || lia). simpl.
  rewrite Z.lor_comm, lor_shiftl8 by done.
  rewrite ustore_in; [f_equal; lia|]. unfold in_uint. lia.
Qed.

Lemma fromBigEndian_uintToBytes w i :
  in_uint 256 i → i < 2 ^ w → fromBigEndian w (uintToBytes i) = Ok i.
Proof.
  intros Hi Hw. rewrite fromBigEndian_decode; rewrite ?be_decode_uintToBytes; auto.
  apply uintToBytes_ok. by destruct Hi.
Qed.
