(* ===== verification/SizedInts.v ===== *)
(** * SizedInts: conversions of the boost integers (src/utils/utils.cpp)

    [uintNToBytes]/[bytesToUintN] for the widths that are [boost::multiprecision] integers and the
    signed 256-bit pair.  [BytesArr<N> ret;] leaves the array uninitialised, so its contents are an
    argument [stack] of the definitions; only [uint256ToBytes] fills the array with zeros first. *)

From S2P Require Import Prelude Bytes.

(** [export_bits(i, out, 8)] writes the bytes of [i], most significant first, without leading zeros
    (one zero byte for 0); [import_bits(ret, begin, end, 8)] reads them back. *)
Class BoostBits := {
  export_bits : Z → list Z;
  import_bits : list Z → Z;
  export_bits_ok i : 0 ≤ i → bytes_ok (export_bits i);
  export_bits_decode i : 0 ≤ i → be_decode (export_bits i) = i;
  export_bits_zero : export_bits 0 = [0];
  export_bits_head i : 0 < i → ∃ b bs, export_bits i = b :: bs ∧ 0 < b;
  import_bits_decode bs : bytes_ok bs → import_bits bs = be_decode bs
}.

Section sized.
Context `{BoostBits}.

(** [for (unsigned ii = 0; ii < tmp.size(); ii++) ret[N-1 - ii] = tmp[tmp.size() - ii - 1];] *)
Definition copy_tail (N : nat) (ret tmp : list Z) : list Z :=
  foldl (λ ret ii, <[(N - 1 - ii)%nat := tmp !!! (length tmp - ii - 1)%nat]> ret)
    ret (seq 0 (length tmp)).

(** The common body of [uint248ToBytes] ... [uint24ToBytes]: [ret] is not initialised. *)
Definition uintNToBytes (N : nat) (stack : list Z) (i : Z) : list Z :=
  copy_tail N stack (export_bits i).

Definition uint256ToBytes (i : Z) : list Z :=
  copy_tail 32 (replicate 32 0) (export_bits i).

Definition uint248ToBytes := uintNToBytes 31.
Definition uint240ToBytes := uintNToBytes 30.
Definition uint232ToBytes := uintNToBytes 29.
Definition uint224ToBytes := uintNToBytes 28.
Definition uint216ToBytes := uintNToBytes 27.
Definition uint208ToBytes := uintNToBytes 26.
Definition uint200ToBytes := uintNToBytes 25.
Definition uint192ToBytes := uintNToBytes 24.
Definition uint184ToBytes := uintNToBytes 23.
Definition uint176ToBytes := uintNToBytes 22.
Definition uint168ToBytes := uintNToBytes 21.
Definition uint160ToBytes := uintNToBytes 20.
Definition uint152ToBytes := uintNToBytes 19.
Definition uint144ToBytes := uintNToBytes 18.
Definition uint136ToBytes := uintNToBytes 17.
Definition uint128ToBytes := uintNToBytes 16.
Definition uint120ToBytes := uintNToBytes 15.
Definition uint112ToBytes := uintNToBytes 14.
Definition uint104ToBytes := uintNToBytes 13.
Definition uint96ToBytes := uintNToBytes 12.
Definition uint88ToBytes := uintNToBytes 11.
Definition uint80ToBytes := uintNToBytes 10.
Definition uint72ToBytes := uintNToBytes 9.
Definition uint56ToBytes := uintNToBytes 7.
Definition uint48ToBytes := uintNToBytes 6.
Definition uint40ToBytes := uintNToBytes 5.
Definition uint24ToBytes := uintNToBytes 3.

(** The common body of [bytesToUint256] ... [bytesToUint24]. *)
Definition bytesToUintN (N : nat) (b : list Z) : result Z :=
  if decide (length b = N) then Ok (import_bits b) else Throw bad_size.

Definition bytesToUint256 := bytesToUintN 32.
Definition bytesToUint248 := bytesToUintN 31.
Definition bytesToUint240 := bytesToUintN 30.
Definition bytesToUint232 := bytesToUintN 29.
Definition bytesToUint224 := bytesToUintN 28.
Definition bytesToUint216 := bytesToUintN 27.
Definition bytesToUint208 := bytesToUintN 26.
Definition bytesToUint200 := bytesToUintN 25.
Definition bytesToUint192 := bytesToUintN 24.
Definition bytesToUint184 := bytesToUintN 23.
Definition bytesToUint176 := bytesToUintN 22.
Definition bytesToUint168 := bytesToUintN 21.
Definition bytesToUint160 := bytesToUintN 20.
Definition bytesToUint152 := bytesToUintN 19.
Definition bytesToUint144 := bytesToUintN 18.
Definition bytesToUint136 := bytesToUintN 17.
Definition bytesToUint128 := bytesToUintN 16.
Definition bytesToUint120 := bytesToUintN 15.
Definition bytesToUint112 := bytesToUintN 14.
Definition bytesToUint104 := bytesToUintN 13.
Definition bytesToUint96 := bytesToUintN 12.
Definition bytesToUint88 := bytesToUintN 11.
Definition bytesToUint80 := bytesToUintN 10.
Definition bytesToUint72 := bytesToUintN 9.
Definition bytesToUint56 := bytesToUintN 7.
Definition bytesToUint48 := bytesToUintN 6.
Definition bytesToUint40 := bytesToUintN 5.
Definition bytesToUint24 := bytesToUintN 3.

(** [bytesToInt256]: for a set most significant bit, the borrow loop over [i = 31, 30, ...]
    subtracts [1 << (8 * (31 - i))] from the *integer* as long as the byte just read is 0. *)
Fixpoint int256_borrow (b : list Z) (k : nat) (i : nat) (ret : Z) : Z :=
  match k with
  | O => ret
  | S k =>
      let ret' := ret - Z.shiftl 1 (8 * (31 - Z.of_nat i)) in
      if b !!! i =? 0 then int256_borrow b k (i - 1) ret' else ret'
  end.

Definition bytesToInt256 (b : list Z) : result Z :=
  if decide (length b = 32%nat) then
    let ret := import_bits b in
    if Z.land (b !!! 0%nat) 128 =? 0 then Ok ret
    else
      let ret := int256_borrow b 32 31 ret in
      let ret := umax 256 - ret in (* ~ret on an unsigned 256-bit integer *)
      Ok (- ret)
  else Throw bad_size.

(** The increment loop [for (int j = 31; j >= 0; j--)] of [int256ToBytes]. *)
Fixpoint int256_increment (k j : nat) (ret : list Z) : list Z :=
  match k with
  | O => ret
  | S k =>
      if ret !!! j =? 255 then int256_increment k (j - 1) (<[j := 0]> ret)
      else <[j := ret !!! j + 1]> ret
  end.

Definition int256ToBytes (stack : list Z) (i : Z) : list Z :=
  if i <? 0 then
    let tempBytes := export_bits (- i) in
    let ret := foldl (λ ret j,
      <[(31 - j)%nat :=
          if (j <? length tempBytes)%nat
          then 255 - (tempBytes !!! (length tempBytes - j - 1)%nat)
          else 255]> ret) stack (seq 0 32) in
    int256_increment 32 31 ret
  else
    copy_tail 32 stack (export_bits i).

(** [padLeftBytes] and [padRightBytes]. *)
Definition padLeftBytes (bytes : list Z) (charAmount : nat) (sign : Z) : list Z :=
  let padding := (charAmount - length bytes)%nat in
  replicate padding sign ++ bytes.

Definition padRightBytes (bytes : list Z) (charAmount : nat) (sign : Z) : list Z :=
  let padding := (charAmount - length bytes)%nat in
  bytes ++ replicate padding sign.

(** ** Lemmas *)

Lemma copy_tail_length N ret tmp : length (copy_tail N ret tmp) = length ret.
Proof.
  unfold copy_tail. generalize (seq 0 (length tmp)) as l. intros l. revert ret.
  induction l as [|x l IH]; intros ret; [done|].
  cbn [foldl]. by rewrite IH, length_insert.
Qed.

Lemma copy_tail_prefix N (ret tmp : list Z) k :
  length ret = N → (length tmp ≤ N)%nat → (k ≤ length tmp)%nat →
  foldl (λ ret ii, <[(N - 1 - ii)%nat := tmp !!! (length tmp - ii - 1)%nat]> ret) ret (seq 0 k) =
  take (N - k) ret ++ drop (length tmp - k) tmp.
Proof.
  intros Hret Htmp. induction k as [|k IH]; intros Hk.
  - rewrite Nat.sub_0_r, Nat.sub_0_r, drop_all, app_nil_r. cbn. by rewrite take_ge by lia.
  - rewrite seq_S, foldl_app, IH by lia. cbn [foldl Nat.add].
    apply list_eq. intros j.
    rewrite (list_lookup_total_alt tmp).
    destruct (lookup_lt_is_Some_2 tmp (length tmp - k - 1)) as [x Hx]; [lia|].
    rewrite Hx. change (default inhabitant (Some x)) with x.
    destruct (decide (j = (N - 1 - k)%nat)) as [->|Hj].
    + rewrite list_lookup_insert_eq by (rewrite length_app, length_take, length_drop; lia).
      rewrite lookup_app_r; rewrite length_take; [|lia].
      rewrite lookup_drop. symmetry. rewrite <- Hx. f_equal. lia.
    + rewrite list_lookup_insert_ne by done.
      destruct (decide (j < N - S k)%nat).
      * rewrite !lookup_app_l by (rewrite length_take; lia). by rewrite !lookup_take_lt by lia.
      * rewrite !lookup_app_r by (rewrite length_take; lia).
        rewrite !lookup_drop, !length_take. f_equal. lia.
Qed.

Lemma copy_tail_spec N ret tmp :
  length ret = N → (length tmp ≤ N)%nat →
  copy_tail N ret tmp = take (N - length tmp) ret ++ tmp.
Proof.
  intros. unfold copy_tail. rewrite copy_tail_prefix by (done || lia).
  by rewrite Nat.sub_diag, drop_0.
Qed.

Lemma export_bits_length_bound i n :
  (0 < n)%nat → 0 ≤ i < 256 ^ Z.of_nat n → (length (export_bits i) ≤ n)%nat.
Proof.
  intros Hn Hi. destruct (Z.eq_dec i 0) as [->|].
  - rewrite export_bits_zero. simpl. lia.
  - destruct (export_bits_head i) as (b & bs & E & Hb); [lia|].
    assert (Hok := export_bits_ok i ltac:(lia)). rewrite E in Hok |- *.
    apply Forall_cons in Hok as [_ Hok]. assert (Hbd := be_decode_bound _ Hok).
    assert (Hd := export_bits_decode i ltac:(lia)). rewrite E, be_decode_cons in Hd.
    cbn [length]. destruct (decide (S (length bs) ≤ n)%nat); [done|exfalso].
    assert (256 ^ Z.of_nat n ≤ 256 ^ Z.of_nat (length bs)) by (apply Z.pow_le_mono_r; lia). nia.
Qed.

Lemma uintNToBytes_app N stack i :
  (0 < N)%nat → length stack = N → 0 ≤ i < 256 ^ Z.of_nat N →
  uintNToBytes N stack i = take (N - length (export_bits i)) stack ++ export_bits i.
Proof.
  intros. apply copy_tail_spec; [done|]. by apply export_bits_length_bound.
Qed.

Lemma uint256ToBytes_encode i : in_uint 256 i → uint256ToBytes i = be_encode 32 i.
Proof.
  intros Hi. unfold in_uint in Hi.
  assert (Hi' : 0 ≤ i < 256 ^ Z.of_nat 32) by (rewrite pow256; exact Hi).
  assert (Hl := export_bits_length_bound i 32 ltac:(lia) Hi').
  unfold uint256ToBytes. rewrite copy_tail_spec by (by rewrite ?length_replicate).
  rewrite take_replicate. apply be_decode_inj.
  - apply Forall_app. split; [apply Forall_replicate; split; lia|apply export_bits_ok; lia].
  - apply be_encode_ok.
  - rewrite length_app, length_replicate, be_encode_length. lia.
  - rewrite be_decode_app, be_decode_replicate0, export_bits_decode, be_decode_encode by lia.
    rewrite Z.mod_small by done. lia.
Qed.

Lemma bytesToUintN_decode N b :
  bytes_ok b → length b = N → bytesToUintN N b = Ok (be_decode b).
Proof. intros. unfold bytesToUintN. by rewrite decide_True, import_bits_decode by done. Qed.

Lemma uint256_bytes_roundtrip i : in_uint 256 i → bytesToUint256 (uint256ToBytes i) = Ok i.
Proof.
  intros Hi. rewrite uint256ToBytes_encode by done. unfold bytesToUint256.
  rewrite bytesToUintN_decode; auto using be_encode_ok, be_encode_length.
  rewrite be_decode_encode, pow256, Z.mod_small; done.
Qed.

Lemma uint256ToBytes_length i : length (uint256ToBytes i) = 32%nat.
Proof. unfold uint256ToBytes. by rewrite copy_tail_length, length_replicate. Qed.
End sized.

(** A concrete [BoostBits], used by the witnesses. *)
Definition export_bits_ref (i : Z) : list Z :=
  if i =? 0 then [0] else be_encode (Z.to_nat (Z.log2 i / 8 + 1)) i.

Lemma export_bits_ref_bound i : 0 < i →
  256 ^ (Z.log2 i / 8) ≤ i < 256 ^ (Z.log2 i / 8 + 1).
Proof.
  intros Hi. destruct (Z.log2_spec i Hi) as [H1 H2].
  assert (Hl := Z.log2_nonneg i).
  assert (Hd := Z.div_mod (Z.log2 i) 8 ltac:(lia)).
  assert (Hm := Z.mod_pos_bound (Z.log2 i) 8 ltac:(lia)).
  assert (Hq := Z.div_pos (Z.log2 i) 8 Hl ltac:(lia)).
  change 256 with (2 ^ 8). rewrite <- !Z.pow_mul_r by lia. split.
  - etrans; [|exact H1]. apply Z.pow_le_mono_r; lia.
  - eapply Z.lt_le_trans; [exact H2|]. apply Z.pow_le_mono_r; lia.
Qed.

Lemma be_encode_head n i : 256 ^ Z.of_nat n ≤ i < 256 ^ Z.of_nat (S n) →
  ∃ b bs, be_encode (S n) i = b :: bs ∧ 0 < b.
Proof.
  intros Hi. destruct (be_encode (S n) i) as [|b bs] eqn:E.
  { apply (f_equal length) in E. by rewrite be_encode_length in E. }
  exists b, bs. split; [done|].
  assert (Hok := be_encode_ok (S n) i). rewrite E in Hok. apply Forall_cons in Hok as [Hb Hok].
  assert (Hd := be_decode_encode (S n) i). rewrite E, be_decode_cons in Hd.
  assert (0 < 256 ^ Z.of_nat n) by (apply Z.pow_pos_nonneg; lia).
  rewrite Z.mod_small in Hd by lia.
  assert (Hbd := be_decode_bound _ Hok).
  apply (f_equal length) in E. rewrite be_encode_length in E. injection E as ->.
  unfold is_byte in Hb. nia.
Qed.

Program Definition boost_ref : BoostBits := {|
  export_bits := export_bits_ref; import_bits := be_decode
|}.
Next Obligation.
  intros i Hi. unfold export_bits_ref. case_match; [repeat constructor; lia|apply be_encode_ok].
Qed.
Next Obligation.
  intros i Hi. unfold export_bits_ref. destruct (Z.eqb_spec i 0) as [->|]; [done|].
  assert (Hb := export_bits_ref_bound i ltac:(lia)).
  assert (Hq := Z.div_pos (Z.log2 i) 8 (Z.log2_nonneg i) ltac:(lia)).
  rewrite be_decode_encode, Z2Nat.id, Z.mod_small; lia.
Qed.
Next Obligation. done. Qed.
Next Obligation.
  intros i Hi. unfold export_bits_ref. destruct (Z.eqb_spec i 0) as [->|]; [lia|].
  assert (Hb := export_bits_ref_bound i ltac:(lia)).
  assert (Hq := Z.div_pos (Z.log2 i) 8 (Z.log2_nonneg i) ltac:(lia)).
  rewrite Z2Nat.inj_add by lia. rewrite Nat.add_1_r. apply be_encode_head.
  rewrite Nat2Z.inj_succ, Z2Nat.id by lia. unfold Z.succ. lia.
Qed.
Next Obligation. done. Qed.

(** ** Signed integers: two's complement *)

(** The value a 256-bit two's complement string denotes. *)
Definition int256_of (u : Z) : Z := if u <? 2 ^ 255 then u else u - 2 ^ 256.

Lemma byte_msb b : is_byte b → Z.land b 128 = if b <? 128 then 0 else 128.
Proof.
  intros Hb.
  assert (Hall : Forall (λ b, Z.land b 128 = if b <? 128 then 0 else 128) (seqZ 0 256)).
  { apply Forall_forall. intros x Hx. apply (bool_decide_unpack _).
    assert (Hf : forallb (λ b, bool_decide (Z.land b 128 = if b <? 128 then 0 else 128))
                   (seqZ 0 256) = true) by by vm_compute.
    rewrite forallb_forall in Hf. specialize (Hf x). rewrite <- list_elem_of_In in Hf.
    apply Is_true_eq_left. by apply Hf. }
  rewrite Forall_forall in Hall. apply Hall. apply elem_of_seqZ. unfold is_byte in Hb. lia.
Qed.

Lemma be_decode_msb b bs n : bytes_ok (b :: bs) → length bs = n →
  (b <? 128) = (be_decode (b :: bs) <? 2 ^ (8 * Z.of_nat n + 7)).
Proof.
  intros Hok <-. apply Forall_cons in Hok as [Hb Hok].
  assert (Hbd := be_decode_bound _ Hok). rewrite be_decode_cons, pow256 in *.
  rewrite Z.pow_add_r by lia. change (2 ^ 7) with 128.
  set (p := 2 ^ (8 * Z.of_nat (length bs))) in *.
  destruct (Z.ltb_spec b 128), (Z.ltb_spec (b * p + be_decode bs) (p * 128)); nia.
Qed.

Lemma int256_borrow_le b k i ret : int256_borrow b k i ret ≤ ret.
Proof.
  revert i ret. induction k as [|k IH]; intros i ret; simpl; [lia|].
  assert (0 ≤ Z.shiftl 1 (8 * (31 - Z.of_nat i))) by (apply Z.shiftl_nonneg; lia).
  case_match; [|lia]. etrans; [apply IH|lia].
Qed.

Lemma int256_borrow_step b k i ret :
  int256_borrow b (S k) i ret =
    let ret' := ret - Z.shiftl 1 (8 * (31 - Z.of_nat i)) in
    if b !!! i =? 0 then int256_borrow b k (i - 1) ret' else ret'.
Proof. done. Qed.

Section int256.
Context `{BoostBits}.

Lemma bytesToInt256_positive b :
  bytes_ok b → length b = 32%nat → be_decode b < 2 ^ 255 → bytesToInt256 b = Ok (be_decode b).
Proof.
  intros Hok Hl Hlt. unfold bytesToInt256. rewrite decide_True by done.
  destruct b as [|b0 bs]; [done|]. injection Hl as Hl.
  assert (Hb0 : is_byte b0) by (by apply Forall_cons in Hok as [? _]).
  cbn [lookup_total list_lookup_total]. rewrite byte_msb by done.
  rewrite (be_decode_msb b0 bs 31) by done. change (8 * Z.of_nat 31 + 7) with 255.
  destruct (Z.ltb_spec (be_decode (b0 :: bs)) (2 ^ 255)); [|lia].
  cbn. by rewrite import_bits_decode.
Qed.

Lemma bytesToInt256_negative b :
  bytes_ok b → length b = 32%nat → 2 ^ 255 ≤ be_decode b →
  bytesToInt256 b = Ok (int256_borrow b 32 31 (be_decode b) - umax 256).
Proof.
  intros Hok Hl Hge. unfold bytesToInt256. rewrite decide_True by done.
  destruct b as [|b0 bs]; [done|]. injection Hl as Hl.
  assert (Hb0 : is_byte b0) by (by apply Forall_cons in Hok as [? _]).
  rewrite import_bits_decode by done.
  change ((b0 :: bs) !!! 0%nat) with b0. rewrite byte_msb by done.
  rewrite (be_decode_msb b0 bs 31) by done. change (8 * Z.of_nat 31 + 7) with 255.
  destruct (Z.ltb_spec (be_decode (b0 :: bs)) (2 ^ 255)); [lia|].
  change (128 =? 0) with false. cbv iota. f_equal. lia.
Qed.

Lemma bytesToInt256_exact b :
  bytes_ok b → length b = 32%nat → be_decode b < 2 ^ 255 ∨ b !!! 31%nat ≠ 0 →
  bytesToInt256 b = Ok (int256_of (be_decode b)).
Proof.
  intros Hok Hl Hb. unfold int256_of. destruct (Z.ltb_spec (be_decode b) (2 ^ 255)) as [Hlt|Hge].
  - by apply bytesToInt256_positive.
  - rewrite bytesToInt256_negative, int256_borrow_step by done. cbv zeta.
    change (Z.shiftl 1 (8 * (31 - Z.of_nat 31))) with 1.
    destruct (Z.eqb_spec (b !!! 31%nat) 0) as [E|E]; [destruct Hb; [lia|done]|].
    unfold umax. f_equal. lia.
Qed.

(** [bytesToInt256] decodes the two's complement of a 32-byte string exactly when the value is
    not negative or its last byte is not zero; every negative multiple of 256 is decoded wrong, as
    the borrow loop subtracts a second time from the integer. *)
Theorem bytesToInt256_correct_iff b :
  bytes_ok b → length b = 32%nat →
  bytesToInt256 b = Ok (int256_of (be_decode b)) ↔ (be_decode b < 2 ^ 255 ∨ b !!! 31%nat ≠ 0).
Proof.
  intros Hok Hl. split; [|by apply bytesToInt256_exact]. unfold int256_of.
  destruct (Z.ltb_spec (be_decode b) (2 ^ 255)) as [Hlt|Hge]; [by left|intros H0; right].
  rewrite bytesToInt256_negative, int256_borrow_step in H0 by done. cbv zeta in H0. intros E.
  rewrite E in H0. change (Z.shiftl 1 (8 * (31 - Z.of_nat 31))) with 1 in H0.
  change (31 - 1)%nat with 30%nat in H0. cbn [Z.eqb] in H0. apply Ok_inj in H0. unfold umax in H0.
  rewrite int256_borrow_step in H0. cbv zeta in H0.
  change (Z.shiftl 1 (8 * (31 - Z.of_nat 30))) with 256 in H0.
  assert (Hle := int256_borrow_le b 30 (30 - 1) (be_decode b - 1 - 256)).
  revert H0. case_match; lia.
Qed.

(** the sized conversions [uint248ToBytes] ... [uint24ToBytes] read back to the integer exactly
    when the uninitialised leading bytes of the array happen to be zero. *)
Theorem uintNToBytes_reads_back_iff N stack i :
  (0 < N)%nat → length stack = N → bytes_ok stack → 0 ≤ i < 256 ^ Z.of_nat N →
  bytesToUintN N (uintNToBytes N stack i) = Ok i ↔
  be_decode (take (N - length (export_bits i)) stack) = 0.
Proof.
  intros HN Hl Hok Hi.
  assert (Hlen := export_bits_length_bound i N HN Hi).
  assert (Hlen' : length (uintNToBytes N stack i) = N) by (unfold uintNToBytes; by rewrite copy_tail_length).
  rewrite uintNToBytes_app in * by done.
  rewrite bytesToUintN_decode; [|apply Forall_app; split|done].
  - rewrite be_decode_app, export_bits_decode by lia.
    assert (0 < 256 ^ Z.of_nat (length (export_bits i))) by (apply Z.pow_pos_nonneg; lia).
    split; [intros [= Hz]; nia|intros ->; f_equal; lia].
  - by apply Forall_take.
  - apply export_bits_ok. lia.
Qed.

(** [uint256ToBytes] and [bytesToUint256] are inverse to each other: every 256-bit integer is
    read back, and every 32-byte string is the encoding of the integer it decodes to. *)
Theorem uint256_bytes_inverse :
  (∀ i, in_uint 256 i → bytesToUint256 (uint256ToBytes i) = Ok i) ∧
  (∀ b, bytes_ok b → length b = 32%nat →
     ∃ i, bytesToUint256 b = Ok i ∧ in_uint 256 i ∧ uint256ToBytes i = b).
Proof.
  split; [apply uint256_bytes_roundtrip|]. intros b Hok Hl.
  assert (Hb := be_decode_bound _ Hok). rewrite Hl, pow256 in Hb.
  exists (be_decode b). unfold bytesToUint256. split; [by apply bytesToUintN_decode|].
  split; [exact Hb|]. rewrite uint256ToBytes_encode by exact Hb. by apply be_encode_decode_n.
Qed.
End int256.

Lemma bytesToInt256_correct_iff_witness :
  let b := replicate 31 255 ++ [0] in
  @bytesToInt256 boost_ref b = Ok (-512) ∧ int256_of (be_decode b) = -256 ∧
  (@bytesToInt256 boost_ref b = Ok (int256_of (be_decode b)) ↔ (be_decode b < 2 ^ 255 ∨ b !!! 31%nat ≠ 0)).
Proof.
  split; [by vm_compute|]. split; [by vm_compute|].
  apply (@bytesToInt256_correct_iff boost_ref); [|done].
  by_compute.
Defined.

Lemma uintNToBytes_reads_back_iff_witness :
  @uintNToBytes boost_ref 3 [171; 205; 239] 7 = [171; 205; 7] ∧
  (@bytesToUintN boost_ref 3 (@uintNToBytes boost_ref 3 [171; 205; 239] 7) = Ok 7 ↔
   be_decode (take (3 - length (@export_bits boost_ref 7)) [171; 205; 239]) = 0).
Proof.
  split; [by vm_compute|].
  apply (@uintNToBytes_reads_back_iff boost_ref); [lia|done| |by vm_compute].
  by_compute.
Defined.

Lemma uint256_bytes_inverse_witness :
  @bytesToUint256 boost_ref (@uint256ToBytes boost_ref 65537) = Ok 65537 ∧
  ∃ i, @bytesToUint256 boost_ref (replicate 32 7) = Ok i ∧ in_uint 256 i ∧
       @uint256ToBytes boost_ref i = replicate 32 7.
Proof.
  split.
  - apply (proj1 (@uint256_bytes_inverse boost_ref)). unfold in_uint. lia.
  - apply (proj2 (@uint256_bytes_inverse boost_ref)); [|done].
    by_compute.
Defined.
