(* ===== verification/Hashing.v ===== *)
(** * Hashing: the fixed-size byte strings and hash functions the components share

    [Hash], [Address], [Functor] and [Signature] (src/utils/strings.h) are byte strings of a fixed
    size with the lexicographic order of [std::array].  [Utils::sha3] calls [ethash_keccak256], a
    third-party function: it is the operation of the class [Keccak]. *)

From S2P Require Import Prelude Bytes.

(** [ethash_keccak256]: 32 bytes for any input. *)
Class Keccak := {
  ethash_keccak256 : list Z → list Z;
  keccak_length b : length (ethash_keccak256 b) = 32%nat;
  keccak_bytes b : bytes_ok (ethash_keccak256 b)
}.

(** [Hash Utils::sha3(const BytesArrView input)]. *)
Definition sha3 `{Keccak} (input : list Z) : list Z := ethash_keccak256 input.

(** [FixedBytes<N>()] fills the array with zeros. *)
Definition zero_bytes (n : nat) : list Z := replicate n 0.
Definition zero_hash : list Z := zero_bytes 32.
Definition zero_address : list Z := zero_bytes 20.

(** The size check of the [FixedBytes] constructors. *)
Definition FixedBytes_of (n : nat) (data : list Z) : result (list Z) :=
  if decide (length data = n) then Ok data else Throw InvalidArgument.

(** [FixedBytes::operator<]: the lexicographic order of [std::array<Byte, N>]. *)
Fixpoint bytes_ltb (a b : list Z) : bool :=
  match a, b with
  | [], [] => false
  | [], _ :: _ => true
  | _ :: _, [] => false
  | x :: a, y :: b => if x <? y then true else if y <? x then false else bytes_ltb a b
  end.

(** [std::min] and [std::max] on that order. *)
Definition std_min (a b : list Z) : list Z := if bytes_ltb b a then b else a.
Definition std_max (a b : list Z) : list Z := if bytes_ltb a b then b else a.

(** A pair of distinct inputs with the same hash. *)
Definition collision `{Keccak} : Prop :=
  ∃ x y : list Z, x ≠ y ∧ sha3 x = sha3 y.

Lemma bytes_ltb_irrefl a : bytes_ltb a a = false.
Proof. induction a as [|x a IH]; simpl; [done|]. by rewrite !Z.ltb_irrefl. Qed.

Lemma bytes_ltb_asym a b : bytes_ltb a b = true → bytes_ltb b a = false.
Proof.
  revert b. induction a as [|x a IH]; intros [|y b]; simpl; try done.
  destruct (Z.ltb_spec x y), (Z.ltb_spec y x); try done; try lia. auto.
Qed.

Lemma bytes_ltb_total a b : bytes_ltb a b = false → bytes_ltb b a = false → a = b.
Proof.
  revert b. induction a as [|x a IH]; intros [|y b]; simpl; try done.
  destruct (Z.ltb_spec x y), (Z.ltb_spec y x); try done; try lia.
  intros. f_equal; [lia|auto].
Qed.

Lemma bytes_ltb_trans a b c : bytes_ltb a b = true → bytes_ltb b c = true → bytes_ltb a c = true.
Proof.
  revert b c. induction a as [|x a IH]; intros [|y b] [|z c]; simpl; try done.
  destruct (Z.ltb_spec x y), (Z.ltb_spec y x), (Z.ltb_spec y z), (Z.ltb_spec z y),
    (Z.ltb_spec x z), (Z.ltb_spec z x); try done; try lia. eauto.
Qed.

Lemma std_min_comm a b : std_min a b = std_min b a.
Proof.
  unfold std_min. destruct (bytes_ltb b a) eqn:E1, (bytes_ltb a b) eqn:E2; try done.
  - by rewrite (bytes_ltb_asym _ _ E1) in E2.
  - by apply bytes_ltb_total.
Qed.

Lemma std_max_comm a b : std_max a b = std_max b a.
Proof.
  unfold std_max. destruct (bytes_ltb a b) eqn:E1, (bytes_ltb b a) eqn:E2; try done.
  - by rewrite (bytes_ltb_asym _ _ E1) in E2.
  - symmetry. by apply bytes_ltb_total.
Qed.

Lemma std_min_max a b : (std_min a b = a ∧ std_max a b = b) ∨ (std_min a b = b ∧ std_max a b = a).
Proof.
  unfold std_min, std_max. destruct (bytes_ltb b a) eqn:E1.
  - right. by rewrite (bytes_ltb_asym _ _ E1).
  - left. split; [done|]. destruct (bytes_ltb a b) eqn:E2; [done|]. by apply bytes_ltb_total.
Qed.

Lemma sha3_length `{Keccak} b : length (sha3 b) = 32%nat.
Proof. apply keccak_length. Qed.

Lemma sha3_ok `{Keccak} b : bytes_ok (sha3 b).
Proof. apply keccak_bytes. Qed.

#[export] Hint Resolve sha3_length sha3_ok : code.
#[export] Hint Rewrite @sha3_length : code_rw.

(** A concrete instance for witnesses: the length of the input and its value, in 32 bytes. *)
Definition toy_keccak (b : list Z) : list Z :=
  be_encode 4 (Z.of_nat (length b)) ++ be_encode 28 (be_decode b).

Program Definition toy_hash : Keccak := {| ethash_keccak256 := toy_keccak |}.
Next Obligation. intros b. unfold toy_keccak. by rewrite length_app, !be_encode_length. Qed.
Next Obligation. intros b. apply Forall_app. split; apply be_encode_ok. Qed.

(** The iteration order of a [std::unordered_map] ([SafeHash] chooses the buckets): every entry once, in an order the
    program does not fix. *)
Class HashOrder := {
  in_order : ∀ {K : Type} `{Countable K} {A : Type}, gmap K A → list (K * A);
  in_order_perm {K : Type} `{Countable K} {A} (m : gmap K A) : in_order m ≡ₚ map_to_list m
}.

Program Definition order_ref : HashOrder := {| in_order _ _ _ A m := map_to_list m |}.
Next Obligation. done. Qed.

Section in_order.
Context {HO : HashOrder} {K : Type} `{Countable K}.

Lemma in_order_elem {A} (m : gmap K A) k x : (k, x) ∈ in_order m ↔ m !! k = Some x.
Proof. rewrite in_order_perm. apply elem_of_map_to_list. Qed.

Lemma in_order_keys {A} (m : gmap K A) : NoDup (in_order m).*1.
Proof. rewrite in_order_perm. apply NoDup_fst_map_to_list. Qed.
End in_order.
