(* ===== verification/Merkle.v ===== *)
(** * Merkle: the Merkle tree of src/utils/merkle.{h,cpp}

    [newLayer] hashes sorted pairs and carries an odd last element over; [Merkle_of] is the
    constructor, [getProof] and [verify] the proof functions.  A read past the end of a
    [std::vector] is undefined behaviour: [getProof] returns [None] there. *)

From S2P Require Import Prelude Bytes Hashing.

Section merkle.
Context `{Keccak}.

(** [Utils::sha3] of the two hashes, the smaller first. *)
Definition hash_pair (a b : list Z) : list Z := sha3 (std_min a b ++ std_max a b).

Fixpoint newLayer (layer : list (list Z)) : list (list Z) :=
  match layer with
  | a :: b :: rest => hash_pair a b :: newLayer rest
  | [a] => [a]
  | [] => []
  end.

(** [while (tree_.back().size() > 1) tree_.emplace_back(newLayer(tree_.back()));]: the layers from
    [layer] up to the root. *)
Fixpoint merkle_layers (fuel : nat) (layer : list (list Z)) : list (list (list Z)) :=
  layer ::
  match fuel with
  | O => []
  | S fuel => if (1 <? length layer)%nat then merkle_layers fuel (newLayer layer) else []
  end.

(** [Merkle::Merkle(const std::vector<Hash>& leaves)]; the leaves are hashed again. The template
    constructor over transactions passes [tx.hash()] for each transaction. *)
Definition Merkle_of (leaves : list (list Z)) : list (list (list Z)) :=
  merkle_layers (length leaves) (map sha3 leaves).

Definition getRoot (tree : list (list (list Z))) : list Z :=
  match last tree with
  | Some (h :: _) => h
  | _ => zero_hash
  end.

Definition getLeaves (tree : list (list (list Z))) : list (list Z) := default [] (head tree).

Fixpoint getProof_loop (layers : list (list (list Z))) (pos : nat) : option (list (list Z)) :=
  match layers with
  | [] => Some []
  | layer :: rest =>
      if decide (length layer = 1%nat) then Some [] else
      let pos := if Nat.even pos then (pos + 1)%nat else (pos - 1)%nat in
      h ← layer !! pos;
      ret ← getProof_loop rest (pos / 2)%nat;
      Some (h :: ret)
  end.

(** [leafIndex > tree_.front().size() - 1]; the subtraction wraps for an empty tree. *)
Definition getProof (tree : list (list (list Z))) (leafIndex : nat) : option (list (list Z)) :=
  let size := length (getLeaves tree) in
  if (Z.of_nat size - 1) mod 2 ^ 64 <? Z.of_nat leafIndex then Some []
  else getProof_loop tree leafIndex.

Definition verify (proof : list (list Z)) (leaf root : list Z) : bool :=
  bool_decide (foldl hash_pair leaf proof = root).

(** ** Lemmas *)

Lemma hash_pair_comm a b : hash_pair a b = hash_pair b a.
Proof. unfold hash_pair. by rewrite std_min_comm, std_max_comm. Qed.

(** Induction on a layer two hashes at a time. *)
Lemma pair_ind (P : list (list Z) → Prop) :
  P [] → (∀ a, P [a]) → (∀ a b l, P l → P (a :: b :: l)) → ∀ l, P l.
Proof.
  intros H0 H1 H2 l. assert (P l ∧ ∀ a, P (a :: l)) as [? _]; [|done].
  induction l as [|b l [IH1 IH2]]; split; auto.
Qed.

Lemma newLayer_length l : length (newLayer l) = ((length l + 1) / 2)%nat.
Proof.
  induction l as [|a|a b l IH] using pair_ind; [done|done|].
  cbn [newLayer length]. rewrite IH.
  replace (S (S (length l)) + 1)%nat with (length l + 1 + 1 * 2)%nat by lia.
  rewrite Nat.div_add by lia. lia.
Qed.

Lemma newLayer_shrinks l : (1 < length l)%nat → (length (newLayer l) < length l)%nat.
Proof. intros Hl. rewrite newLayer_length. apply Nat.Div0.div_lt_upper_bound. lia. Qed.

(** A parent is the hash of a node with its sibling. *)
Lemma newLayer_lookup l i x y :
  l !! i = Some x → l !! (if Nat.even i then i + 1 else i - 1)%nat = Some y →
  newLayer l !! (i / 2)%nat = Some (hash_pair x y).
Proof.
  revert i. induction l as [|a|a b l IH] using pair_ind; intros i Hx Hy; [done| |].
  - destruct i as [|[|i]]; simpl in *; done.
  - destruct i as [|[|i]].
    + simpl in *. by simplify_eq.
    + simpl in *. simplify_eq. by rewrite hash_pair_comm.
    + replace (S (S i)) with (i + 1 * 2)%nat by lia. rewrite Nat.div_add by lia.
      replace (i / 2 + 1)%nat with (S (i / 2)) by lia. cbn [newLayer lookup list_lookup].
      apply IH; [done|]. cbn [Nat.even] in Hy. destruct (Nat.even i) eqn:E; [exact Hy|].
      destruct i as [|i]; [done|]. cbn in *. by rewrite Nat.sub_0_r in *.
Qed.

Lemma merkle_layers_head fuel layer : head (merkle_layers fuel layer) = Some layer.
Proof. by destruct fuel. Qed.

Lemma getLeaves_Merkle leaves : getLeaves (Merkle_of leaves) = map sha3 leaves.
Proof. unfold getLeaves, Merkle_of. by rewrite merkle_layers_head. Qed.

Lemma merkle_layers_ne fuel layer : merkle_layers fuel layer ≠ [].
Proof. by destruct fuel. Qed.

Lemma last_cons_ne {A} (x : A) l : l ≠ [] → last (x :: l) = last l.
Proof. by destruct l. Qed.

(** The loop ends with a layer of at most one hash when the fuel covers the layer. *)
Lemma merkle_layers_last fuel layer :
  (length layer ≤ fuel)%nat →
  ∃ top, last (merkle_layers fuel layer) = Some top ∧ (length top ≤ 1)%nat ∧
         (layer ≠ [] → length top = 1%nat).
Proof.
  revert layer. induction fuel as [|fuel IH]; intros layer Hl.
  - exists layer. split; [done|]. split; [lia|]. destruct layer; [done|simpl in Hl; lia].
  - cbn [merkle_layers]. destruct (Nat.ltb_spec 1 (length layer)) as [Hgt|Hle].
    + rewrite last_cons_ne by apply merkle_layers_ne.
      assert (Hs := newLayer_shrinks layer Hgt).
      destruct (IH (newLayer layer)) as (top & H1 & H2 & H3); [lia|].
      exists top. split; [done|]. split; [done|]. intros _. apply H3.
      intros E. apply (f_equal length) in E. rewrite newLayer_length in E.
      assert (Hq : (1 ≤ (length layer + 1) / 2)%nat) by (apply Nat.div_le_lower_bound; lia).
      rewrite E in Hq. cbn in Hq. lia.
    + exists layer. split; [done|]. split; [lia|]. intros. destruct layer; [done|simpl in *; lia].
Qed.

Lemma newLayer_sizes layer :
  Forall (λ h, length h = 32%nat) layer → Forall (λ h, length h = 32%nat) (newLayer layer).
Proof.
  induction layer as [|x|x y l IH] using pair_ind; intros Hl; [done|done|].
  apply Forall_cons in Hl as [_ Hl]. apply Forall_cons in Hl as [_ Hl].
  cbn [newLayer]. constructor; [apply sha3_length|by apply IH].
Qed.

Lemma getRoot_length leaves : length (getRoot (Merkle_of leaves)) = 32%nat.
Proof.
  assert (Hall : ∀ fuel layer top, Forall (λ h, length h = 32%nat) layer →
    last (merkle_layers fuel layer) = Some top → Forall (λ h, length h = 32%nat) top).
  { induction fuel as [|fuel IH]; intros layer top Hl; cbn [merkle_layers].
    - by intros [= <-].
    - destruct (1 <? length layer)%nat; [|by intros [= <-]].
      rewrite last_cons_ne by apply merkle_layers_ne. apply IH. by apply newLayer_sizes. }
  unfold getRoot, Merkle_of. destruct (last _) as [[|h top]|] eqn:E; [done| |done].
  apply Hall in E; [by apply Forall_inv in E|].
  apply Forall_map, Forall_true. intros x. apply sha3_length.
Qed.

Lemma sibling_parent i : ((if Nat.even i then i + 1 else i - 1) / 2 = i / 2)%nat.
Proof.
  destruct (Nat.even i) eqn:E.
  - apply Nat.even_spec in E as [k ->].
    replace (2 * k + 1)%nat with (1 + k * 2)%nat by lia.
    replace (2 * k)%nat with (0 + k * 2)%nat by lia. by rewrite !Nat.div_add by lia.
  - assert (Ho : Nat.odd i = true) by (by rewrite <- Nat.negb_even, E).
    apply Nat.odd_spec in Ho as [k ->].
    replace (2 * k + 1 - 1)%nat with (0 + k * 2)%nat by lia.
    replace (2 * k + 1)%nat with (1 + k * 2)%nat by lia. by rewrite !Nat.div_add by lia.
Qed.

Lemma merkle_proof_climbs fuel layer pos x proof :
  (length layer ≤ fuel)%nat → layer !! pos = Some x →
  getProof_loop (merkle_layers fuel layer) pos = Some proof →
  foldl hash_pair x proof = getRoot (merkle_layers fuel layer).
Proof.
  revert layer pos x proof. induction fuel as [|fuel IH]; intros layer pos x proof Hl Hx Hp.
  { destruct layer; [done|simpl in Hl; lia]. }
  cbn [merkle_layers getProof_loop] in Hp |- *.
  assert (Hpos := lookup_lt_Some _ _ _ Hx).
  destruct (decide (length layer = 1%nat)) as [E|E].
  - injection Hp as <-. rewrite E. cbn. destruct layer as [|y [|]]; [done| |done].
    destruct pos; [by injection Hx|done].
  - destruct (Nat.ltb_spec 1 (length layer)) as [Hgt|]; [|lia].
    apply bind_Some in Hp as (h & Hh & Hp). apply bind_Some in Hp as (ps & Hps & [= <-]).
    rewrite sibling_parent in Hps. cbn [foldl].
    assert (Hn := newLayer_lookup _ _ _ _ Hx Hh).
    assert (Hs := newLayer_shrinks layer Hgt).
    rewrite (IH (newLayer layer) (pos / 2)%nat (hash_pair x h) ps) by (done || lia).
    unfold getRoot. by rewrite (last_cons_ne layer) by apply merkle_layers_ne.
Qed.

(** ** Properties *)

(** completeness of the proofs: whenever [getProof] returns a proof for a leaf of the tree,
    [verify] accepts it against the root. *)
Theorem getProof_verifies leaves i leaf proof :
  Z.of_nat (length leaves) < 2 ^ 64 →
  map sha3 leaves !! i = Some leaf →
  getProof (Merkle_of leaves) i = Some proof →
  verify proof leaf (getRoot (Merkle_of leaves)) = true.
Proof.
  intros Hsz Hi. unfold getProof. rewrite getLeaves_Merkle.
  assert (Hlt := lookup_lt_Some _ _ _ Hi). rewrite length_map in Hlt |- *.
  rewrite Z.mod_small by lia.
  destruct (Z.ltb_spec (Z.of_nat (length leaves) - 1) (Z.of_nat i)); [lia|].
  intros Hp. unfold verify, Merkle_of in *. apply bool_decide_eq_true.
  eapply merkle_proof_climbs; [by rewrite length_map|exact Hi|exact Hp].
Qed.

(** The position of a node is inside its layer, and is not the last of an odd layer, all the way up. *)
Fixpoint paired_path (fuel len pos : nat) : Prop :=
  match fuel with
  | O => True
  | S fuel => len = 1%nat ∨
      ((pos < len)%nat ∧ (Nat.even pos = true → pos + 1 < len)%nat ∧
       paired_path fuel ((len + 1) / 2) (pos / 2))
  end.

Lemma getProof_loop_defined fuel layer pos :
  (pos < length layer ≤ fuel)%nat →
  is_Some (getProof_loop (merkle_layers fuel layer) pos) ↔ paired_path fuel (length layer) pos.
Proof.
  revert layer pos. induction fuel as [|fuel IH]; intros layer pos Hl; [lia|].
  cbn [merkle_layers getProof_loop paired_path].
  destruct (decide (length layer = 1%nat)) as [E|E]; [split; [by left|done]|].
  destruct (Nat.ltb_spec 1 (length layer)) as [Hgt|]; [|lia].
  assert (Hs := newLayer_shrinks layer Hgt).
  assert (Hp : (pos / 2 < length (newLayer layer))%nat).
  { rewrite newLayer_length. apply Nat.Div0.div_lt_upper_bound.
    assert (Hd := Nat.div_mod_eq (length layer + 1) 2).
    assert (Hm := Nat.mod_upper_bound (length layer + 1) 2). lia. }
  assert (HIH := IH (newLayer layer) (pos / 2)%nat ltac:(lia)).
  rewrite newLayer_length in HIH. rewrite sibling_parent, <- HIH.
  split.
  - intros [ps Hps]. right. apply bind_Some in Hps as (h & Hh & Hps).
    apply bind_Some in Hps as (ps' & Hps & _). apply lookup_lt_Some in Hh.
    split; [lia|]. split; [intros Ev; by rewrite Ev in Hh|by exists ps'].
  - intros [|(_ & Hev & [ps Hps])]; [done|].
    destruct (lookup_lt_is_Some_2 layer (if Nat.even pos then pos + 1 else pos - 1)%nat) as [h ->].
    { destruct (Nat.even pos); [auto|lia]. }
    cbn [mbind option_bind]. rewrite Hps. by eexists.
Qed.

(** [getProof] stays inside the layers (it reads no hash past the end of a vector) exactly when
    no node on the path of the leaf is the unpaired last node of its layer. *)
Theorem getProof_in_bounds_iff leaves i :
  (i < length leaves)%nat → Z.of_nat (length leaves) < 2 ^ 64 →
  is_Some (getProof (Merkle_of leaves) i) ↔ paired_path (length leaves) (length leaves) i.
Proof.
  intros Hi Hsz. unfold getProof. rewrite getLeaves_Merkle.
  rewrite length_map, Z.mod_small by lia.
  destruct (Z.ltb_spec (Z.of_nat (length leaves) - 1) (Z.of_nat i)); [lia|].
  unfold Merkle_of. rewrite <- (length_map sha3 leaves).
  rewrite getProof_loop_defined by (rewrite length_map; lia). by rewrite length_map.
Qed.

(** Two leaves that one proof ties to one root are equal, or they exhibit a hash collision. *)
Lemma hash_pair_inj a b h :
  length a = 32%nat → length b = 32%nat → length h = 32%nat →
  hash_pair a h = hash_pair b h → a = b ∨ collision.
Proof.
  intros Ha Hb Hh Heq. destruct (decide (a = b)) as [|Hne]; [by left|right].
  unfold hash_pair in Heq. eexists _, _. split; [|exact Heq].
  intros Happ. apply Hne.
  destruct (std_min_max a h) as [[E1 E2]|[E1 E2]], (std_min_max b h) as [[E3 E4]|[E3 E4]];
    rewrite E1, E2, E3, E4 in Happ; apply app_inj_1 in Happ as [??]; congruence.
Qed.

(** binding: if the same proof ties two 32-byte leaves to the same root then the leaves are
    equal, or two distinct byte strings with the same SHA3 hash have been found. *)
Theorem verify_binding proof l1 l2 root :
  Forall (λ h, length h = 32%nat) proof → length l1 = 32%nat → length l2 = 32%nat →
  verify proof l1 root = true → verify proof l2 root = true → l1 = l2 ∨ collision.
Proof.
  unfold verify. rewrite !bool_decide_eq_true. intros Hp. revert l1 l2.
  induction Hp as [|h proof Hh Hp IH]; intros l1 l2 H1 H2; cbn [foldl]; [intros -> ->; by left|].
  intros E1 E2.
  destruct (IH _ _ (sha3_length _) (sha3_length _) E1 E2) as [Heq|]; [|by right].
  by apply (hash_pair_inj l1 l2 h).
Qed.

(** the root does not fix the order of a pair of siblings: exchanging the first two leaves of
    any tree leaves the root unchanged, so a block header does not authenticate their order. *)
Theorem Merkle_root_swap a b rest :
  getRoot (Merkle_of (a :: b :: rest)) = getRoot (Merkle_of (b :: a :: rest)).
Proof.
  unfold Merkle_of. cbn [length map merkle_layers].
  unfold getRoot. rewrite !last_cons_ne by (cbn; by destruct (length rest)).
  cbn [Nat.ltb Nat.leb length newLayer]. by rewrite hash_pair_comm.
Qed.
End merkle.

Definition toy_leaves : list (list Z) := map (λ x, zero_bytes 31 ++ [x]) [1; 2; 3; 4; 5; 6].

Lemma getProof_verifies_witness :
  ∃ leaf proof, getProof (Merkle_of (H := toy_hash) toy_leaves) 2 = Some proof ∧ length proof = 3%nat ∧
    verify (H := toy_hash) proof leaf (getRoot (Merkle_of (H := toy_hash) toy_leaves)) = true.
Proof.
  eexists (sha3 (H := toy_hash) (zero_bytes 31 ++ [3])), _.
  split; [vm_compute; reflexivity|]. split; [reflexivity|].
  apply (@getProof_verifies toy_hash toy_leaves 2); [vm_compute; reflexivity|reflexivity|].
  vm_compute. reflexivity.
Defined.

Lemma getProof_in_bounds_iff_witness :
  getProof (Merkle_of (H := toy_hash) toy_leaves) 5 = None ∧
  (is_Some (getProof (Merkle_of (H := toy_hash) toy_leaves) 5) ↔ paired_path 6 6 5).
Proof.
  split; [vm_compute; reflexivity|].
  apply (@getProof_in_bounds_iff toy_hash toy_leaves 5); [cbn; lia|vm_compute; reflexivity].
Defined.

Lemma verify_binding_witness :
  let l := zero_bytes 31 ++ [9] in
  let root := hash_pair (H := toy_hash) l zero_hash in
  verify (H := toy_hash) [zero_hash] l root = true ∧ (l = l ∨ @collision toy_hash).
Proof.
  intros l root. split; [vm_compute; reflexivity|].
  apply (@verify_binding toy_hash [zero_hash] l l root).
  - constructor; [reflexivity|constructor].
  - reflexivity.
  - reflexivity.
  - vm_compute; reflexivity.
  - vm_compute; reflexivity.
Defined.
