(* ===== verification/ECDSA.v ===== *)
(** * ECDSA: the Secp256k1 wrappers of src/utils/ecdsa.{h,cpp}

    libsecp256k1 is third-party code: its calls are the operations of the class [LibSecp256k1].
    A key or signature the library refuses becomes the all-zero string, as in the sources. *)

From S2P Require Import Prelude Bytes SizedInts Hashing.

Definition ecConst : Z :=
  115792089237316195423570985008687907852837564279074904382605163141518161494337.

Class LibSecp256k1 := {
  (** [secp256k1_ecdsa_recover] on a compact signature, its recovery id and a message hash; the
      result is the uncompressed serialisation of the key. *)
  secp_recover : list Z → Z → list Z → option (list Z);
  secp_pubkey_create : list Z → option (list Z);
  (** [secp256k1_ecdsa_sign_recoverable]: the compact signature and its recovery id. *)
  secp_sign : list Z → list Z → option (list Z * Z);
  secp_pubkey_format k p : secp_pubkey_create k = Some p → length p = 65%nat ∧ p !! 0%nat = Some 4;
  secp_sign_format m k sig v :
    secp_sign m k = Some (sig, v) → length sig = 64%nat ∧ bytes_ok sig ∧ 0 ≤ v ≤ 3 ∧
    0 < be_decode (take 32 sig) < ecConst ∧ 0 < be_decode (drop 32 sig) < ecConst
}.

Definition UPubKey_zero : list Z := zero_bytes 65.

(** [FixedBytes::operator bool]. *)
Definition nonzero (b : list Z) : bool := existsb (λ x, negb (x =? 0)) b.

Section secp.
Context {LS : LibSecp256k1} {BB : BoostBits} {KC : Keccak}.

Definition recover (sig msg : list Z) : list Z :=
  let v := sig !!! 64%nat in
  if 3 <? v then UPubKey_zero
  else match secp_recover (take 64 sig) v msg with
       | Some serializedPubkey => serializedPubkey
       | None => UPubKey_zero
       end.

Definition makeSig (r s v : Z) : list Z := uint256ToBytes r ++ uint256ToBytes s ++ [v].

Definition verifySig (r s v : Z) : bool :=
  (v <=? 1) && (0 <? r) && (0 <? s) && (r <? ecConst) && (s <? ecConst).

Definition toUPub (key : list Z) : list Z := default UPubKey_zero (secp_pubkey_create key).

Definition toAddress (key : list Z) : list Z := drop 12 (sha3 (take 64 (drop 1 key))).

(** [sign]: the signature is put in its low-s form. *)
Definition sign (msg key : list Z) : list Z :=
  match secp_sign msg key with
  | None => zero_bytes 65
  | Some (sig, rawV) =>
      let r := be_decode (take 32 sig) in
      let s := be_decode (drop 32 sig) in
      if ecConst / 2 <? s then makeSig r (ecConst - s) (Z.lxor rawV 1)
      else makeSig r s rawV
  end.

(** [Signature::r], [s] and [v]. *)
Definition sig_r (sig : list Z) : Z := be_decode (take 32 sig).
Definition sig_s (sig : list Z) : Z := be_decode (take 32 (drop 32 sig)).
Definition sig_v (sig : list Z) : Z := sig !!! 64%nat.

Lemma makeSig_fields sig :
  bytes_ok sig → length sig = 65%nat → makeSig (sig_r sig) (sig_s sig) (sig_v sig) = sig.
Proof.
  intros Hok Hl. unfold makeSig, sig_r, sig_s, sig_v.
  assert (H1 : length (take 32 sig) = 32%nat) by (rewrite length_take; lia).
  assert (H2 : length (take 32 (drop 32 sig)) = 32%nat) by (rewrite length_take, length_drop; lia).
  assert (Hb1 : bytes_ok (take 32 sig)) by by apply Forall_take.
  assert (Hb2 : bytes_ok (take 32 (drop 32 sig))) by by apply Forall_take, Forall_drop.
  assert (B1 := be_decode_bound _ Hb1). assert (B2 := be_decode_bound _ Hb2).
  rewrite H1, pow256 in B1. rewrite H2, pow256 in B2.
  rewrite !uint256ToBytes_encode, !be_encode_decode_n by done.
  rewrite <- (take_drop 32 sig) at 4. f_equal.
  rewrite <- (take_drop 32 (drop 32 sig)) at 2. f_equal.
  rewrite drop_drop. change (32 + 32)%nat with 64%nat. destruct (lookup_lt_is_Some_2 sig 64) as [x Hx]; [lia|].
  rewrite (list_lookup_total_correct _ _ _ Hx). rewrite (drop_S _ _ _ Hx).
  f_equal. rewrite drop_ge; [done|lia].
Qed.

Lemma toAddress_length k : length (toAddress k) = 20%nat.
Proof. unfold toAddress. by rewrite length_drop, sha3_length. Qed.

Lemma toUPub_nonzero key p : secp_pubkey_create key = Some p → nonzero (toUPub key) = true.
Proof.
  intros Hk. unfold toUPub. rewrite Hk. destruct (secp_pubkey_format _ _ Hk) as [_ Hp]. cbn.
  unfold nonzero. apply existsb_exists. exists 4. split; [|done].
  apply list_elem_of_In. by eapply list_elem_of_lookup_2.
Qed.

Lemma sign_format msg key :
  bytes_ok (sign msg key) ∧ length (sign msg key) = 65%nat.
Proof.
  unfold sign. destruct (secp_sign msg key) as [[sig v]|] eqn:E.
  - destruct (secp_sign_format _ _ _ _ E) as (Hl & Hok & Hv & Hr & Hs).
    assert (Hn : ecConst < 2 ^ 256) by by vm_compute.
    set (r := be_decode (take 32 sig)) in *. set (s := be_decode (drop 32 sig)) in *.
    assert (Hm : ∀ s' v', in_uint 256 s' → is_byte v' →
      bytes_ok (makeSig r s' v') ∧ length (makeSig r s' v') = 65%nat).
    { intros s' v' Hs' Hv'. unfold makeSig.
      rewrite !uint256ToBytes_encode, !length_app, !be_encode_length by (done || (unfold in_uint; lia)).
      split; [|done]. apply Forall_app; split; [apply be_encode_ok|].
      apply Forall_app; split; [apply be_encode_ok|by constructor]. }
    unfold in_uint, is_byte in Hm. destruct (Z.ltb_spec (ecConst / 2) s); apply Hm; try lia.
    assert (v = 0 ∨ v = 1 ∨ v = 2 ∨ v = 3) as [->|[->|[->| ->]]] by lia;
      split; by vm_compute.
  - split; [|done]. apply Forall_replicate. split; lia.
Qed.

Lemma verifySig_bounds r s v :
  verifySig r s v = true → v ≤ 1 ∧ in_uint 256 r ∧ in_uint 256 s ∧ 0 < r ∧ 0 < s.
Proof.
  unfold verifySig, in_uint. intros Hv. bool_to_Z. assert (ecConst < 2 ^ 256) by by vm_compute. lia.
Qed.
End secp.

(** A concrete library for the witnesses: one key pair and one signature. *)
Definition toy_pubkey : list Z := 4 :: replicate 64 9.

Program Definition toy_secp : LibSecp256k1 := {|
  secp_recover sig v msg := Some toy_pubkey;
  secp_pubkey_create k := Some toy_pubkey;
  secp_sign m k := Some (be_encode 32 11 ++ be_encode 32 13, 1)
|}.
Next Obligation. intros k p [= <-]. done. Qed.
Next Obligation.
  intros m k sig v [= <- <-]. repeat split; try lia; try by vm_compute.
  by_compute.
Qed.
