(* ===== verification/Tx.v ===== *)
(** * Tx: block transactions and their RLP codec (src/utils/tx.{h,cpp}, class TxBlock)

    [rlpSerialize] and the parsing constructor follow the sources field by field; the parser keeps
    the index into the input, and a read past the end of the input is undefined behaviour. *)

From S2P Require Import Prelude Bytes SizedInts Hashing ECDSA.

Record TxBlock := mkTxBlock {
  to_ : list Z;
  from_ : list Z;
  data_ : list Z;
  chainId_ : Z;                (* uint64_t *)
  nonce_ : Z;                  (* uint256_t *)
  value_ : Z;
  maxPriorityFeePerGas_ : Z;
  maxFeePerGas_ : Z;
  gasLimit_ : Z;
  v_ : Z;                      (* uint8_t *)
  r_ : Z;
  s_ : Z;
  hash_ : list Z
}.

#[export] Instance TxBlock_eq_dec : EqDecision TxBlock.
Proof. solve_decision. Defined.

(** ** Serialisation *)

Definition byte_of (x : Z) : Z := x mod 256. (* the conversion to [char] *)

(** The code of an integer field: [0x80] for 0, the byte itself below [0x80], else a length byte
    and the big-endian bytes. *)
Definition rlp_uint (x : Z) : list Z :=
  if x =? 0 then [128]
  else if x <? 128 then [byte_of x]
  else byte_of (bytesRequired x + 128) :: uintToBytes x.

Definition rlp_uint_size (x : Z) : Z := if x <? 128 then 1 else 1 + bytesRequired x.

Definition rlp_data (data : list Z) : list Z :=
  let reqBytesData := Z.of_nat (length data) in
  if reqBytesData =? 0 then [128]
  else if reqBytesData <=? 55 then byte_of (reqBytesData + 128) :: data
  else byte_of (bytesRequired reqBytesData + 183) :: uintToBytes reqBytesData ++ data.

Definition rlp_data_size (data : list Z) : Z :=
  let reqBytesData := Z.of_nat (length data) in
  if reqBytesData =? 0 then 1
  else if reqBytesData <=? 55 then 1 + reqBytesData
  else 1 + bytesRequired reqBytesData + reqBytesData.

(** The list header: [0xc0 + size] up to 55, else [0xf7] plus the number of bytes of the size. *)
Definition rlp_list_header (total_size : Z) : list Z :=
  if total_size <=? 55 then [byte_of (total_size + 192)]
  else byte_of (bytesRequired total_size + 247) :: uintToBytes total_size.

Definition TxBlock_total_size (tx : TxBlock) (includeSig : bool) : Z :=
  rlp_uint_size (chainId_ tx) + rlp_uint_size (nonce_ tx)
  + rlp_uint_size (maxPriorityFeePerGas_ tx) + rlp_uint_size (maxFeePerGas_ tx)
  + rlp_uint_size (gasLimit_ tx)
  + (if decide (to_ tx = zero_address) then 1 else 1 + 20)
  + rlp_uint_size (value_ tx)
  + 1
  + rlp_data_size (data_ tx)
  + (if includeSig then 1 + (1 + bytesRequired (r_ tx)) + (1 + bytesRequired (s_ tx)) else 0).

Definition rlp_to (to : list Z) : list Z :=
  if decide (to = zero_address) then [128] else 148 :: to.

Definition rlp_v (v : Z) : list Z := if v =? 0 then [128] else [v].
Definition rlp_sig_part (x : Z) : list Z := byte_of (bytesRequired x + 128) :: uintToBytes x.

Definition TxBlock_payload (tx : TxBlock) (includeSig : bool) : list Z :=
  rlp_uint (chainId_ tx) ++ rlp_uint (nonce_ tx) ++ rlp_uint (maxPriorityFeePerGas_ tx)
  ++ rlp_uint (maxFeePerGas_ tx) ++ rlp_uint (gasLimit_ tx) ++ rlp_to (to_ tx)
  ++ rlp_uint (value_ tx) ++ rlp_data (data_ tx) ++ [192]
  ++ (if includeSig then rlp_v (v_ tx) ++ rlp_sig_part (r_ tx) ++ rlp_sig_part (s_ tx) else []).

Definition TxBlock_rlpSerialize (tx : TxBlock) (includeSig : bool) : list Z :=
  2 :: rlp_list_header (TxBlock_total_size tx includeSig) ++ TxBlock_payload tx includeSig.

(** ** Parsing *)

Definition tx_exn (msg : string) : exn := DynamicException msg.

(** An integer field: [length > 0x37] is refused with [msg]; [w] is the width of the type given to
    [fromBigEndian]. The result carries the index after the field. *)
Definition read_rlp_uint (w : Z) (msg : string) (txData : list Z) (index : nat) : result (Z * nat) :=
  b ← read_at txData index;
  let len := if 128 <=? b then b - 128 else 0 in
  if negb (len =? 0) then
    _ ← throw_if (55 <? len) (tx_exn msg);
    bs ← subspan txData (index + 1) (Z.to_nat len);
    x ← fromBigEndian w bs;
    Ok (x, (index + 1 + Z.to_nat len)%nat)
  else
    x ← (if b =? 128 then Ok 0 else bs ← subspan txData index 1; fromBigEndian w bs);
    Ok (x, (index + 1)%nat).

Definition read_rlp_to (txData : list Z) (index : nat) : result (list Z * nat) :=
  b ← read_at txData index;
  let toLength := (b - 128) mod 256 in
  _ ← throw_if (negb (toLength =? 20) && negb (toLength =? 0))
        (tx_exn "Receiver address (to) is not a 20 byte string (address)");
  if toLength =? 0 then Ok (zero_address, (index + 1)%nat)
  else bs ← subspan txData (index + 1) 20; Ok (bs, (index + 21)%nat).

Definition read_rlp_data (txData : list Z) (index : nat) : result (list Z * nat) :=
  b ← read_at txData index;
  if b <? 128 then bs ← subspan txData index 1; Ok (bs, (index + 1)%nat)
  else if b <? 183 then
    bs ← subspan txData (index + 1) (Z.to_nat (b - 128));
    Ok (bs, (index + 1 + Z.to_nat (b - 128))%nat)
  else if b <? 192 then
    let dataLengthSize := Z.to_nat (b - 183) in
    lbs ← subspan txData (index + 1) dataLengthSize;
    dataLength ← fromBigEndian 64 lbs;
    bs ← subspan txData (index + 1 + dataLengthSize) (Z.to_nat dataLength);
    Ok (bs, (index + 1 + dataLengthSize + Z.to_nat dataLength)%nat)
  else Throw (tx_exn "Data is too large").

Definition read_rlp_v (txData : list Z) (index : nat) : result (Z * nat) :=
  b ← read_at txData index;
  if b =? 128 then Ok (0, (index + 1)%nat)
  else
    bs ← subspan txData index 1;
    v ← fromBigEndian 8 bs;
    _ ← throw_if (1 <? v) (tx_exn "V is not 0 or 1");
    Ok (v, (index + 1)%nat).

Definition read_rlp_sig_part (max : Z) (msg : string) (txData : list Z) (index : nat) : result (Z * nat) :=
  b ← read_at txData index;
  let len := (b - 128) mod 256 in
  _ ← throw_if (max <? len) (tx_exn msg);
  bs ← subspan txData (index + 1) (Z.to_nat len);
  x ← fromBigEndian 256 bs;
  Ok (x, (index + 1 + Z.to_nat len)%nat).

(** The list header and its size sanity check; the result is the start of the list's payload. *)
Definition read_list_header (txData : list Z) : result nat :=
  h ← read_at txData 0;
  _ ← throw_if (h <? 247) (tx_exn "Tx is not a list");
  let listLengthSize := Z.to_nat (h - 247) in
  lbs ← subspan txData 1 listLengthSize;
  listLength ← fromBigEndian 64 lbs;
  let rest := (Z.of_nat (length txData) - Z.of_nat listLengthSize - 1) mod 2 ^ 64 in
  _ ← throw_if (listLength <? rest) (tx_exn "Tx RLP returns smaller size than reported");
  _ ← throw_if (rest <? listLength) (tx_exn "Tx RLP returns larger size than reported");
  Ok (1 + listLengthSize)%nat.

Definition TxBlock_header (bytes : list Z) : result (list Z * nat) :=
  txData ← subspan bytes 1 (length bytes - 1);
  b0 ← read_at bytes 0;
  _ ← throw_if (negb (b0 =? 2)) (tx_exn "Tx is not type 2");
  index ← read_list_header txData;
  Ok (txData, index).

Section TxBlock_codec.
Context {LS : LibSecp256k1} {BB : BoostBits} {KC : Keccak}.

Definition with_signature (tx : TxBlock) (v r s : Z) : TxBlock :=
  mkTxBlock (to_ tx) (from_ tx) (data_ tx) (chainId_ tx) (nonce_ tx) (value_ tx)
    (maxPriorityFeePerGas_ tx) (maxFeePerGas_ tx) (gasLimit_ tx) v r s (hash_ tx).

Definition with_from_hash (tx : TxBlock) (from hash : list Z) : TxBlock :=
  mkTxBlock (to_ tx) from (data_ tx) (chainId_ tx) (nonce_ tx) (value_ tx)
    (maxPriorityFeePerGas_ tx) (maxFeePerGas_ tx) (gasLimit_ tx) (v_ tx) (r_ tx) (s_ tx) hash.

(** [TxBlock::TxBlock(const BytesArrView bytes, const uint64_t&)]: the fields are read in order. *)
Definition TxBlock_fields (txData : list Z) (index : nat) : result TxBlock :=
  '(chainId, index) ← read_rlp_uint 64 "ChainId is too large" txData index;
  '(nonce, index) ← read_rlp_uint 64 "Nonce is too large" txData index;
  '(maxPriorityFeePerGas, index) ← read_rlp_uint 256 "MaxPriorityFeePerGas is too large" txData index;
  '(maxFeePerGas, index) ← read_rlp_uint 256 "MaxFeePerGas is too large" txData index;
  '(gasLimit, index) ← read_rlp_uint 64 "GasLimit is too large" txData index;
  '(to, index) ← read_rlp_to txData index;
  '(value, index) ← read_rlp_uint 256 "Value is not a small string" txData index;
  '(data, index) ← read_rlp_data txData index;
  a ← read_at txData index;
  _ ← throw_if (negb (a =? 192)) (tx_exn "Access list is not empty");
  '(v, index) ← read_rlp_v txData (index + 1);
  '(r, index) ← read_rlp_sig_part 32 "R is bigger than 32 bytes" txData index;
  '(s, index) ← read_rlp_sig_part 32 "S is bigger than 32 bytes" txData index;
  Ok (mkTxBlock to zero_address data chainId nonce value maxPriorityFeePerGas maxFeePerGas
        gasLimit v r s zero_hash).

(** The checks after the fields: the signature, the sender and the hash. *)
Definition TxBlock_finish (tx : TxBlock) : result TxBlock :=
  _ ← throw_if (negb (verifySig (r_ tx) (s_ tx) (v_ tx)))
        (tx_exn "Invalid tx signature - doesn't fit elliptic curve verification");
  let sig := makeSig (r_ tx) (s_ tx) (v_ tx) in
  let msgHash := sha3 (TxBlock_rlpSerialize tx false) in
  let key := recover sig msgHash in
  _ ← throw_if (negb (nonzero key)) (tx_exn "Invalid tx signature - cannot recover public key");
  Ok (with_from_hash tx (toAddress key) (sha3 (TxBlock_rlpSerialize tx true))).

Definition TxBlock_parse (bytes : list Z) : result TxBlock :=
  '(txData, index) ← TxBlock_header bytes;
  tx ← TxBlock_fields txData index;
  TxBlock_finish tx.

(** The signing constructor. *)
Definition TxBlock_new (to from data : list Z) (chainId nonce value maxPriorityFeePerGas
    maxFeePerGas gasLimit : Z) (privKey : list Z) : result TxBlock :=
  let tx0 := mkTxBlock to from data chainId nonce value maxPriorityFeePerGas maxFeePerGas
               gasLimit 0 0 0 zero_hash in
  let pubKey := toUPub privKey in
  let add := toAddress pubKey in
  _ ← throw_if (bool_decide (add ≠ from))
        (tx_exn "Private key does not match sender address (from)");
  let msgHash := sha3 (TxBlock_rlpSerialize tx0 false) in
  let sig := sign msgHash privKey in
  let tx := with_signature tx0 (sig_v sig) (sig_r sig) (sig_s sig) in
  _ ← throw_if (bool_decide (pubKey ≠ recover sig msgHash))
        (tx_exn "Invalid tx signature - derived key doesn't match public key");
  _ ← throw_if (negb (verifySig (r_ tx) (s_ tx) (v_ tx)))
        (tx_exn "Invalid tx signature - doesn't fit elliptic curve verification");
  Ok (with_from_hash tx from (sha3 (TxBlock_rlpSerialize tx true))).
End TxBlock_codec.

(** [ethCallInfo TxBlock::txToCallInfo() const]; a [Functor] or span left default is zero/empty. *)
Record ethCallInfo := mkCallInfo {
  ci_from : list Z; ci_to : list Z; ci_gasLimit : Z; ci_gasPrice : Z; ci_value : Z;
  ci_functor : list Z; ci_data : list Z; ci_fullData : list Z
}.

Definition txToCallInfo (tx : TxBlock) : ethCallInfo :=
  let data := data_ tx in
  mkCallInfo (from_ tx) (to_ tx) (gasLimit_ tx) (maxFeePerGas_ tx) (value_ tx)
    (if (4 <=? length data)%nat then take 4 data else zero_bytes 4)
    (if (4 <? length data)%nat then drop 4 data else [])
    data.

(** ** Each field is read back by its reader *)

Lemma rlp_code_small n k : 0 ≤ n → 0 ≤ k → n + k < 256 → byte_of (n + k) = n + k.
Proof. intros. apply Z.mod_small. lia. Qed.

Lemma drop_cons_in {A} (l : list A) i x rest : drop i l = x :: rest → (i < length l)%nat.
Proof.
  intros Hd. destruct (Nat.lt_ge_cases i (length l)); [done|]. by rewrite drop_ge in Hd.
Qed.

(** The reader [m] of the buffer [l] returns [x] and an index at which [rest] follows. *)
Definition reads {A} (m : result (A * nat)) (x : A) (l rest : list Z) : Prop :=
  ∃ j, m = Ok (x, j) ∧ drop j l = rest.

(** A length byte followed by the big-endian bytes of [x]. *)
Lemma read_rlp_string w l i x rest c :
  in_uint 256 x → x < 2 ^ w →
  drop i l = c :: uintToBytes x ++ rest →
  subspan l (i + 1) (Z.to_nat (bytesRequired x)) = Ok (uintToBytes x) ∧
  fromBigEndian w (uintToBytes x) = Ok x ∧
  drop (i + 1 + Z.to_nat (bytesRequired x)) l = rest.
Proof.
  intros Hx Hw Hd.
  assert (Hl := uintToBytes_length x Hx).
  assert (Hd1 : drop (i + 1) l = uintToBytes x ++ rest).
  { apply (drop_app_next l i [c]). by rewrite Hd. }
  split; [|split].
  - apply (subspan_drop l _ _ _ rest); [|done|lia]. apply drop_cons_in in Hd. lia.
  - by apply fromBigEndian_uintToBytes.
  - rewrite <- (drop_app_next _ _ _ _ Hd1). f_equal. lia.
Qed.

Lemma read_rlp_uint_spec w msg l i x rest :
  in_uint 256 x → 0 < w → x < 2 ^ w →
  drop i l = rlp_uint x ++ rest →
  reads (read_rlp_uint w msg l i) x l rest.
Proof.
  intros Hx Hw0 Hw Hd. unfold rlp_uint in Hd.
  destruct (bytesRequired_spec x Hx) as (Hb & _ & Hp & _). destruct Hx as [Hx0 Hx1].
  assert (Hlen : ∀ c r, drop i l = c :: r → (i + 1 ≤ length l)%nat ∧ drop (i + 1) l = r).
  { intros c r Hc. split; [apply drop_cons_in in Hc; lia|].
    by apply (drop_app_next l i [c]). }
  unfold read_rlp_uint.
  destruct (Z.eqb_spec x 0) as [->|Hz]; [|destruct (Z.ltb_spec x 128)]; cbn [app] in Hd;
    rewrite (read_at_drop _ _ _ _ Hd); cbn [mbind result_bind].
  - exists (i + 1)%nat. split; [done|]. by eapply Hlen.
  - exists (i + 1)%nat. assert (byte_of x = x) as E by (apply Z.mod_small; lia).
    rewrite E in *. destruct (Z.leb_spec 128 x); [lia|]. cbn [Z.eqb negb].
    destruct (Z.eqb_spec x 128); [lia|].
    rewrite (subspan_drop _ i 1 [x] rest) by (done || (apply drop_cons_in in Hd; lia)).
    cbn [mbind result_bind]. rewrite fromBigEndian_decode; [|by constructor; [split; lia|]|].
    + unfold be_decode. simpl. split; [done|]. by eapply Hlen.
    + unfold be_decode. simpl. lia.
  - destruct (Hp ltac:(lia)) as [Hp1 _].
    rewrite rlp_code_small in * by lia.
    destruct (Z.leb_spec 128 (bytesRequired x + 128)); [|lia].
    replace (bytesRequired x + 128 - 128) with (bytesRequired x) by lia.
    destruct (Z.eqb_spec (bytesRequired x) 0); [lia|]. cbn [negb].
    destruct (Z.ltb_spec 55 (bytesRequired x)); [lia|]. cbn [throw_if mbind result_bind].
    destruct (read_rlp_string w l i x rest _ (conj Hx0 Hx1) Hw Hd) as (Hs & Hf & Hr).
    rewrite Hs. cbn [mbind result_bind]. rewrite Hf. cbn [mbind result_bind].
    eexists. by split.
Qed.

Lemma read_rlp_to_spec l i to rest :
  length to = 20%nat →
  drop i l = rlp_to to ++ rest →
  reads (read_rlp_to l i) to l rest.
Proof.
  intros Hto Hd. unfold rlp_to in Hd. unfold read_rlp_to. case_decide as Hz; cbn [app] in Hd;
    rewrite (read_at_drop _ _ _ _ Hd); cbn [mbind result_bind].
  - exists (i + 1)%nat. rewrite Hz. split; [done|]. by apply (drop_app_next l i [128]).
  - assert (Hd1 : drop (i + 1) l = to ++ rest) by by apply (drop_app_next l i [148]).
    change (_ && _) with false. cbn [throw_if mbind result_bind].
    change ((148 - 128) mod 256 =? 0) with false. cbn iota.
    rewrite (subspan_drop _ _ _ to rest); [|apply drop_cons_in in Hd; lia|done|done].
    cbn [mbind result_bind]. eexists. split; [done|].
    rewrite <- (drop_app_next _ _ _ _ Hd1). f_equal. lia.
Qed.

Lemma read_rlp_v_spec l i v rest :
  0 ≤ v ≤ 1 → drop i l = rlp_v v ++ rest →
  read_rlp_v l i = Ok (v, (i + 1)%nat) ∧ drop (i + 1) l = rest.
Proof.
  intros Hv Hd. unfold rlp_v in Hd. unfold read_rlp_v.
  assert (v = 0 ∨ v = 1) as [-> | ->] by lia; cbn [Z.eqb app] in Hd;
    rewrite (read_at_drop _ _ _ _ Hd); cbn [mbind result_bind].
  - split; [done|]. by apply (drop_app_next l i [128]).
  - change (1 =? 128) with false. cbn iota.
    rewrite (subspan_drop _ i 1 [1] rest) by (done || (apply drop_cons_in in Hd; lia)).
    split; [done|]. by apply (drop_app_next l i [1]).
Qed.

Lemma read_rlp_sig_part_spec max msg l i x rest :
  32 ≤ max → in_uint 256 x → drop i l = rlp_sig_part x ++ rest →
  reads (read_rlp_sig_part max msg l i) x l rest.
Proof.
  intros Hmax Hx Hd. unfold rlp_sig_part in Hd. unfold read_rlp_sig_part.
  destruct (bytesRequired_spec x Hx) as (Hb & _).
  rewrite (rlp_code_small (bytesRequired x) 128) in Hd by lia. cbn [app] in Hd.
  rewrite (read_at_drop _ _ _ _ Hd). cbn [mbind result_bind].
  replace (bytesRequired x + 128 - 128) with (bytesRequired x) by lia.
  rewrite Z.mod_small by lia. destruct (Z.ltb_spec max (bytesRequired x)); [lia|].
  cbn [throw_if mbind result_bind].
  destruct (read_rlp_string 256 l i x rest _ Hx ltac:(destruct Hx; lia) Hd) as (Hs & Hf & Hr).
    rewrite Hs. cbn [mbind result_bind]. rewrite Hf. cbn [mbind result_bind].
  eexists. by split.
Qed.

(** The data field: every length but 55, whose code [0xb7] the parser takes for a long string. *)
Lemma read_rlp_data_spec l i data rest :
  Z.of_nat (length data) < 2 ^ 64 → length data ≠ 55%nat →
  drop i l = rlp_data data ++ rest →
  reads (read_rlp_data l i) data l rest.
Proof.
  intros Hn H55 Hd. unfold rlp_data in Hd. unfold read_rlp_data.
  set (n := Z.of_nat (length data)) in *.
  assert (Hu : in_uint 256 n) by (unfold in_uint; lia).
  destruct (bytesRequired_spec n Hu) as (Hb & _ & Hp & _).
  assert (Hb8 := bytesRequired_bound n 8 Hu ltac:(lia) ltac:(lia)).
  destruct (Z.eqb_spec n 0) as [Hz|Hz]; [|destruct (Z.leb_spec n 55)]; cbn [app] in Hd.
  - rewrite (read_at_drop _ _ _ _ Hd). cbn [mbind result_bind Z.ltb].
    destruct data; [|simpl in n; lia]. change (128 <? 128) with false. change (128 <? 183) with true.
    cbn iota. rewrite (subspan_drop _ _ _ [] rest).
    + eexists. split; [done|]. simpl. rewrite Nat.add_0_r. by apply (drop_app_next l i [128]).
    + apply drop_cons_in in Hd. lia.
    + by apply (drop_app_next l i [128]).
    + done.
  - rewrite (rlp_code_small n 128) in Hd by lia.
    rewrite (read_at_drop _ _ _ _ Hd). cbn [mbind result_bind].
    destruct (Z.ltb_spec (n + 128) 128); [lia|]. destruct (Z.ltb_spec (n + 128) 183); [|lia].
    replace (Z.to_nat (n + 128 - 128)) with (length data) by lia.
    assert (Hd1 : drop (i + 1) l = data ++ rest) by by apply (drop_app_next l i [n + 128]).
    rewrite (subspan_drop _ _ _ data rest); [|apply drop_cons_in in Hd; lia|done|done].
    eexists. split; [done|]. by apply drop_app_next.
  - destruct (Hp ltac:(lia)) as [Hp1 _].
    rewrite rlp_code_small in Hd by lia. rewrite <- app_assoc in Hd.
    rewrite (read_at_drop _ _ _ _ Hd). cbn [mbind result_bind].
    destruct (Z.ltb_spec (bytesRequired n + 183) 128); [lia|].
    destruct (Z.ltb_spec (bytesRequired n + 183) 183); [lia|].
    destruct (Z.ltb_spec (bytesRequired n + 183) 192); [|lia].
    replace (bytesRequired n + 183 - 183) with (bytesRequired n) by lia.
    destruct (read_rlp_string 64 l i n (data ++ rest) _ Hu Hn Hd) as (Hs & Hf & Hd2).
    rewrite Hs. cbn [mbind result_bind]. rewrite Hf.
    cbn [mbind result_bind]. replace (Z.to_nat n) with (length data) by lia.
    rewrite (subspan_drop _ _ _ data rest).
    + eexists. split; [done|]. by apply drop_app_next.
    + assert (Hl : length (drop (i + 1 + Z.to_nat (bytesRequired n)) l) = length (data ++ rest))
        by by rewrite Hd2.
      rewrite length_drop, length_app in Hl. destruct data; [done|simpl in Hl; lia].
    + done.
    + done.
Qed.

(** ** The size written in the list header is the payload's length *)

Lemma rlp_uint_length x : in_uint 256 x → Z.of_nat (length (rlp_uint x)) = rlp_uint_size x.
Proof.
  intros Hx. unfold rlp_uint, rlp_uint_size. assert (Hl := uintToBytes_length x Hx).
  destruct (Z.eqb_spec x 0) as [->|]; [done|]. destruct (x <? 128); cbn [length]; lia.
Qed.

Lemma rlp_data_length data :
  Z.of_nat (length data) < 2 ^ 64 → Z.of_nat (length (rlp_data data)) = rlp_data_size data.
Proof.
  intros Hn. unfold rlp_data, rlp_data_size. set (n := Z.of_nat (length data)) in *.
  assert (Hl := uintToBytes_length n ltac:(unfold in_uint; lia)).
  destruct (n =? 0); [done|]. destruct (n <=? 55); cbn [length]; rewrite ?length_app; lia.
Qed.

(** The integers of a transaction fit their C++ types and its byte strings are bytes. *)
Definition TxBlock_typed (tx : TxBlock) : Prop :=
  length (to_ tx) = 20%nat ∧ bytes_ok (to_ tx) ∧ length (from_ tx) = 20%nat ∧ bytes_ok (data_ tx) ∧
  in_uint 64 (chainId_ tx) ∧ in_uint 256 (nonce_ tx) ∧ in_uint 256 (value_ tx) ∧
  in_uint 256 (maxPriorityFeePerGas_ tx) ∧ in_uint 256 (maxFeePerGas_ tx) ∧
  in_uint 256 (gasLimit_ tx) ∧ in_uint 8 (v_ tx) ∧ in_uint 256 (r_ tx) ∧ in_uint 256 (s_ tx) ∧
  TxBlock_total_size tx true < 2 ^ 64.

#[export] Instance TxBlock_typed_dec tx : Decision (TxBlock_typed tx).
Proof. unfold TxBlock_typed. apply _. Defined.

Lemma in_uint_256_64 x : in_uint 64 x → in_uint 256 x.
Proof. unfold in_uint. lia. Qed.

Lemma rlp_uint_size_pos x : in_uint 256 x → 1 ≤ rlp_uint_size x.
Proof.
  intros Hx. destruct (bytesRequired_spec x Hx) as [Hb _].
  unfold rlp_uint_size. destruct (x <? 128); lia.
Qed.

Lemma TxBlock_data_short tx : TxBlock_typed tx → Z.of_nat (length (data_ tx)) < 2 ^ 64.
Proof.
  intros (_ & _ & _ & _ & Hc & Hn & Hv & Hp & Hf & Hg & _ & Hr & Hs & Ht).
  apply in_uint_256_64, rlp_uint_size_pos in Hc.
  apply rlp_uint_size_pos in Hn, Hv, Hp, Hf, Hg.
  destruct (bytesRequired_spec _ Hr) as [Hbr _]. destruct (bytesRequired_spec _ Hs) as [Hbs _].
  unfold TxBlock_total_size, rlp_data_size in Ht.
  destruct (Z.eqb_spec (Z.of_nat (length (data_ tx))) 0); [lia|].
  destruct (Z.leb_spec (Z.of_nat (length (data_ tx))) 55); [lia|].
  case_decide; destruct (Z.leb_spec (Z.of_nat (length (data_ tx))) (2 ^ 64 - 1)); try lia;
    assert (Hb := bytesRequired_nonneg (Z.of_nat (length (data_ tx)))); lia.
Qed.

Lemma TxBlock_payload_length tx :
  TxBlock_typed tx →
  Z.of_nat (length (TxBlock_payload tx true)) = TxBlock_total_size tx true.
Proof.
  intros Ht. assert (Hd := rlp_data_length _ (TxBlock_data_short _ Ht)).
  destruct Ht as (Hto & _ & _ & _ & Hc & Hn & Hv & Hp & Hf & Hg & _ & Hr & Hs & _).
  apply in_uint_256_64, rlp_uint_length in Hc.
  apply rlp_uint_length in Hn, Hv, Hp, Hf, Hg.
  apply uintToBytes_length in Hr, Hs.
  assert (Hrlp : Z.of_nat (length (rlp_to (to_ tx)))
    = if decide (to_ tx = zero_address) then 1 else 1 + 20).
  { unfold rlp_to. case_decide; [done|]. cbn [length]. lia. }
  assert (Hrv : length (rlp_v (v_ tx)) = 1%nat) by (unfold rlp_v; by destruct (v_ tx =? 0)).
  unfold TxBlock_payload, TxBlock_total_size, rlp_sig_part.
  rewrite !length_app. cbn [length]. rewrite !Nat2Z.inj_add, !Nat2Z.inj_succ.
  rewrite Hc, Hn, Hv, Hp, Hf, Hg, Hrlp, Hd, Hr, Hs, Hrv. change (Z.of_nat 1) with 1. lia.
Qed.

Lemma TxBlock_total_size_55 tx :
  TxBlock_typed tx → length (data_ tx) = 55%nat → 55 < TxBlock_total_size tx true.
Proof.
  intros (_ & _ & _ & _ & Hc & Hn & Hv & Hp & Hf & Hg & _ & Hr & Hs & Ht) H55.
  apply in_uint_256_64, rlp_uint_size_pos in Hc.
  apply rlp_uint_size_pos in Hn, Hv, Hp, Hf, Hg.
  destruct (bytesRequired_spec _ Hr) as [Hbr _]. destruct (bytesRequired_spec _ Hs) as [Hbs _].
  unfold TxBlock_total_size, rlp_data_size. rewrite H55.
  change (Z.of_nat 55 =? 0) with false. change (Z.of_nat 55 <=? 55) with true.
  case_decide; lia.
Qed.

(** The header of a payload of more than 55 bytes. *)
Lemma read_list_header_spec payload :
  let n := Z.of_nat (length payload) in
  55 < n < 2 ^ 64 →
  ∃ i, read_list_header (rlp_list_header n ++ payload) = Ok i
     ∧ drop i (rlp_list_header n ++ payload) = payload.
Proof.
  intros n Hn. unfold read_list_header.
  assert (Hu : in_uint 256 n) by (unfold in_uint; lia).
  destruct (bytesRequired_spec n Hu) as (Hb & _).
  assert (Hb8 := bytesRequired_bound n 8 Hu ltac:(lia) ltac:(lia)).
  assert (Hl := uintToBytes_length n Hu).
  assert (Hh : rlp_list_header n = bytesRequired n + 247 :: uintToBytes n).
  { unfold rlp_list_header. destruct (Z.leb_spec n 55); [lia|]. by rewrite rlp_code_small by lia. }
  set (txData := rlp_list_header n ++ payload).
  assert (Hlen : length txData = (1 + length (uintToBytes n) + length payload)%nat).
  { unfold txData. rewrite Hh, length_app. cbn [length]. lia. }
  assert (Hd0 : drop 0 txData = bytesRequired n + 247 :: uintToBytes n ++ payload).
  { unfold txData. by rewrite Hh. }
  rewrite (read_at_drop _ _ _ _ Hd0). cbn [mbind result_bind].
  destruct (Z.ltb_spec (bytesRequired n + 247) 247); [lia|]. cbn [throw_if mbind result_bind].
  replace (bytesRequired n + 247 - 247) with (bytesRequired n) by lia.
  destruct (read_rlp_string 64 txData 0 n payload _ Hu ltac:(lia) Hd0) as (Hs & Hf & Hd).
  simpl (0 + 1)%nat in *. rewrite Hs. cbn [mbind result_bind]. rewrite Hf.
  cbn [mbind result_bind]. rewrite Hlen.
  replace (Z.of_nat _ - _ - 1) with n by lia. rewrite Z.mod_small by lia.
  rewrite Z.ltb_irrefl. cbn [throw_if mbind result_bind]. eexists. split; [done|]. exact Hd.
Qed.

Lemma TxBlock_header_spec payload :
  let n := Z.of_nat (length payload) in
  55 < n < 2 ^ 64 →
  ∃ i, TxBlock_header (2 :: rlp_list_header n ++ payload)
       = Ok (rlp_list_header n ++ payload, i)
     ∧ drop i (rlp_list_header n ++ payload) = payload.
Proof.
  intros n Hn. destruct (read_list_header_spec payload Hn) as (i & Hi & Hd).
  exists i. split; [|done]. unfold TxBlock_header.
  rewrite (subspan_drop (2 :: _) 1 _ (rlp_list_header n ++ payload) []);
    [|cbn [length]; lia|by rewrite app_nil_r|cbn [length]; lia].
  cbn [mbind result_bind]. fold n in Hi. by rewrite Hi.
Qed.

(** What the parser needs beyond the types: it reads the nonce and the gas limit as [uint64_t], a
    list header of the long form, and a data field whose length is not 55. *)
Definition TxBlock_parseable (tx : TxBlock) : Prop :=
  in_uint 64 (nonce_ tx) ∧ in_uint 64 (gasLimit_ tx) ∧ length (data_ tx) ≠ 55%nat ∧
  55 < TxBlock_total_size tx true.

#[export] Instance TxBlock_parseable_dec tx : Decision (TxBlock_parseable tx).
Proof. unfold TxBlock_parseable. apply _. Defined.

Definition without_from_hash (tx : TxBlock) : TxBlock := with_from_hash tx zero_address zero_hash.

(** Run one reader of [TxBlock_fields]: [Hd] says what follows the index. *)
Ltac step_field lem Hd :=
  match goal with
  | |- mbind _ ?m = _ =>
      let j := fresh "j" in let Hj := fresh "Hj" in let Hd' := fresh "Hd'" in
      eassert (reads m _ _ _) as (j & Hj & Hd');
      [eapply lem; [..|exact Hd]; first [done|lia]
      |rewrite Hj; cbn [mbind result_bind]; clear Hj Hd; rename Hd' into Hd]
  end.

(** The fields before the data. *)
Ltac fields_up_to_value Hd :=
  unfold TxBlock_payload in Hd; unfold TxBlock_fields; unfold in_uint in *;
  do 5 step_field read_rlp_uint_spec Hd;
  step_field read_rlp_to_spec Hd;
  step_field read_rlp_uint_spec Hd.

Lemma TxBlock_fields_spec tx l i :
  TxBlock_typed tx → TxBlock_parseable tx → v_ tx ≤ 1 →
  drop i l = TxBlock_payload tx true →
  TxBlock_fields l i = Ok (without_from_hash tx).
Proof.
  intros Ht (Hn64 & Hg64 & H55 & _) Hv1 Hd.
  assert (Hds := TxBlock_data_short _ Ht).
  destruct Ht as (Hto & _ & _ & _ & Hc & Hn & Hv & Hp & Hf & Hg & Hv8 & Hr & Hs & _).
  assert (Hc256 := in_uint_256_64 _ Hc).
  fields_up_to_value Hd.
  step_field read_rlp_data_spec Hd.
  cbn [app] in Hd. rewrite (read_at_drop _ _ _ _ Hd). cbn [mbind result_bind].
  change (negb (192 =? 192)) with false. cbn [throw_if].
  apply (drop_app_next _ _ [192]) in Hd. cbn [length] in Hd.
  destruct (read_rlp_v_spec l _ _ _ (conj (proj1 Hv8) Hv1) Hd) as (Hj & Hd1). rewrite Hj.
  cbn [mbind result_bind]. clear Hd Hj. rename Hd1 into Hd.
  step_field read_rlp_sig_part_spec Hd.
  rewrite <- (app_nil_r (rlp_sig_part (s_ tx))) in Hd.
  step_field read_rlp_sig_part_spec Hd. done.
Qed.

(** A data field of 55 bytes is written with the code [0xb7], which the parser takes for a string
    whose length is written on 0 bytes. *)
Lemma read_rlp_data_55 l i data rest :
  length data = 55%nat → drop i l = rlp_data data ++ rest →
  reads (read_rlp_data l i) [] l (data ++ rest).
Proof.
  intros H55 Hd. unfold rlp_data in Hd. rewrite H55 in Hd. cbn [app] in Hd.
  change (byte_of (Z.of_nat 55 + 128)) with 183 in Hd.
  change (Z.of_nat 55 =? 0) with false in Hd. change (Z.of_nat 55 <=? 55) with true in Hd.
  cbn [app] in Hd. unfold read_rlp_data. rewrite (read_at_drop _ _ _ _ Hd).
  cbn [mbind result_bind]. change (183 <? 128) with false. change (183 <? 183) with false.
  change (183 <? 192) with true. cbn iota. change (Z.to_nat (183 - 183)) with 0%nat.
  assert (Hi := drop_cons_in _ _ _ _ Hd). assert (Hi' : (i + 1 ≤ length l)%nat) by lia.
  apply (drop_app_next _ _ [183]) in Hd. cbn [length] in Hd.
  rewrite (subspan_drop _ _ 0 [] (data ++ rest)) by (done || exact Hi').
  cbn [mbind result_bind]. change (fromBigEndian 64 []) with (Ok 0). cbn [mbind result_bind].
  rewrite !Nat.add_0_r. rewrite (subspan_drop _ _ 0 [] (data ++ rest)) by (done || exact Hi').
  exists (i + 1)%nat. split; [|done]. cbn. by rewrite ?Nat.add_0_r.
Qed.

Lemma TxBlock_fields_55 tx l i :
  TxBlock_typed tx → in_uint 64 (nonce_ tx) → in_uint 64 (gasLimit_ tx) →
  length (data_ tx) = 55%nat → data_ tx !! 0%nat ≠ Some 192 →
  drop i l = TxBlock_payload tx true →
  TxBlock_fields l i = Throw (tx_exn "Access list is not empty").
Proof.
  intros Ht Hn64 Hg64 H55 H0 Hd.
  destruct Ht as (Hto & _ & _ & _ & Hc & Hn & Hv & Hp & Hf & Hg & Hv8 & Hr & Hs & _).
  assert (Hc256 := in_uint_256_64 _ Hc).
  fields_up_to_value Hd.
  step_field read_rlp_data_55 Hd.
  destruct (data_ tx) as [|d ds]; [done|].
  rewrite (read_at_drop _ _ _ _ Hd). cbn [mbind result_bind].
  destruct (Z.eqb_spec d 192) as [->|]; [done|]. done.
Qed.

Lemma fromBigEndian_range w bs x : 0 ≤ w → fromBigEndian w bs = Ok x → in_uint w x.
Proof.
  intros Hw. unfold fromBigEndian. apply foldM_invariant.
  - intros a b a' _ _. by apply ustore_range.
  - unfold in_uint. assert (0 < 2 ^ w) by (by apply Z.pow_pos_nonneg). lia.
Qed.

Lemma read_rlp_uint_range w msg l i x j :
  0 ≤ w → read_rlp_uint w msg l i = Ok (x, j) → in_uint w x.
Proof.
  intros Hw. unfold read_rlp_uint. intros (b & _ & H)%result_bind_ok.
  destruct (negb _); [|destruct (b =? 128)].
  - apply result_bind_ok in H as (_ & _ & H). apply result_bind_ok in H as (bs & _ & H).
    apply result_bind_ok in H as (y & Hy & [= <- _]%Ok_inj). by eapply fromBigEndian_range.
  - apply result_bind_ok in H as (y & [= <-]%Ok_inj & [= <- _]%Ok_inj).
    unfold in_uint. assert (0 < 2 ^ w) by (by apply Z.pow_pos_nonneg). lia.
  - apply result_bind_ok in H as (y & Hy & [= <- _]%Ok_inj).
    apply result_bind_ok in Hy as (bs & _ & Hy). by eapply fromBigEndian_range.
Qed.

Lemma TxBlock_fields_range l i tx :
  TxBlock_fields l i = Ok tx →
  in_uint 64 (chainId_ tx) ∧ in_uint 64 (nonce_ tx) ∧ in_uint 64 (gasLimit_ tx).
Proof.
  unfold TxBlock_fields.
  intros ([c i1] & Hc & H)%result_bind_ok.
  apply result_bind_ok in H as ([n i2] & Hn & H).
  apply result_bind_ok in H as ([mp i3] & _ & H).
  apply result_bind_ok in H as ([mf i4] & _ & H).
  apply result_bind_ok in H as ([g i5] & Hg & H).
  apply read_rlp_uint_range in Hc, Hn, Hg; [|lia..].
  apply result_bind_ok in H as ([to i6] & _ & H).
  apply result_bind_ok in H as ([v i7] & _ & H).
  apply result_bind_ok in H as ([d i8] & _ & H).
  apply result_bind_ok in H as (a & _ & H). apply result_bind_ok in H as (_ & _ & H).
  apply result_bind_ok in H as ([sv i9] & _ & H).
  apply result_bind_ok in H as ([sr i10] & _ & H).
  apply result_bind_ok in H as ([ss i11] & _ & <-%Ok_inj). done.
Qed.

Section TxBlock_correctness.
Context {LS : LibSecp256k1} {BB : BoostBits} {KC : Keccak}.

(** The sender recovered from the signature of a transaction, and its hash. *)
Definition tx_key (tx : TxBlock) : list Z :=
  recover (makeSig (r_ tx) (s_ tx) (v_ tx)) (sha3 (TxBlock_rlpSerialize tx false)).

Definition TxBlock_signed (tx : TxBlock) : Prop :=
  verifySig (r_ tx) (s_ tx) (v_ tx) = true ∧ nonzero (tx_key tx) = true ∧
  from_ tx = toAddress (tx_key tx) ∧ hash_ tx = sha3 (TxBlock_rlpSerialize tx true).

#[export] Instance TxBlock_signed_dec tx : Decision (TxBlock_signed tx).
Proof. unfold TxBlock_signed. apply _. Defined.

Lemma TxBlock_finish_without tx :
  TxBlock_signed tx → TxBlock_finish (without_from_hash tx) = Ok tx.
Proof.
  intros (Hv & Hk & Hf & Hh). unfold TxBlock_finish.
  change (TxBlock_rlpSerialize (without_from_hash tx)) with (TxBlock_rlpSerialize tx).
  cbn [r_ s_ v_ without_from_hash with_from_hash].
  rewrite Hv. cbn [negb throw_if mbind result_bind]. fold (tx_key tx). rewrite Hk.
  cbn [negb throw_if mbind result_bind]. rewrite <- Hf, <- Hh. by destruct tx.
Qed.

Lemma TxBlock_finish_inv tx tx' :
  TxBlock_finish tx = Ok tx' →
  TxBlock_signed tx' ∧ chainId_ tx' = chainId_ tx ∧ nonce_ tx' = nonce_ tx ∧
  gasLimit_ tx' = gasLimit_ tx ∧ verifySig (r_ tx') (s_ tx') (v_ tx') = true.
Proof.
  unfold TxBlock_finish. intros H.
  apply result_bind_ok in H as (? & Hv & H). apply throw_if_ok, negb_false_iff in Hv.
  apply result_bind_ok in H as (? & Hk & H). apply throw_if_ok, negb_false_iff in Hk.
  apply Ok_inj in H as <-. done.
Qed.

Lemma parse_serialize_aux tx :
  TxBlock_typed tx → TxBlock_parseable tx → TxBlock_signed tx →
  TxBlock_parse (TxBlock_rlpSerialize tx true) = Ok tx.
Proof.
  intros Ht Hp Hs. unfold TxBlock_parse, TxBlock_rlpSerialize.
  assert (Hl := TxBlock_payload_length _ Ht). rewrite <- Hl.
  destruct (TxBlock_header_spec (TxBlock_payload tx true)) as (i & Hh & Hd).
  { destruct Hp as (_ & _ & _ & Hp). destruct Ht as (_&_&_&_&_&_&_&_&_&_&_&_&_&Ht). lia. }
  rewrite Hh. cbn [mbind result_bind].
  rewrite (TxBlock_fields_spec tx); [|done..| |done].
  - by apply TxBlock_finish_without.
  - destruct Hs as [Hv _]. apply verifySig_bounds in Hv. lia.
Qed.

(** the RLP form of a signed transaction parses back to the transaction itself, sender and hash
    included, for every content the parser can represent. *)
Theorem TxBlock_roundtrip tx :
  TxBlock_typed tx → TxBlock_parseable tx → TxBlock_signed tx →
  TxBlock_parse (TxBlock_rlpSerialize tx true) = Ok tx.
Proof. apply parse_serialize_aux. Qed.

(** C26: what the signing constructor builds, the parser accepts and reads back unchanged: the node
    that receives a locally signed transaction sees the same sender, hash and fields. The fields fit
    their types ([TxBlock_typed]); the nonce and the gas limit are below [2^64], the data is not of 55 bytes, and the RLP form
    has more than 55 bytes ([TxBlock_parseable]); without this the parser refuses it
    ([TxBlock_data55_refused]). *)
Theorem TxBlock_signed_parses to from data chainId nonce value mpf mf gasLimit privKey tx :
  TxBlock_new to from data chainId nonce value mpf mf gasLimit privKey = Ok tx →
  TxBlock_typed tx → TxBlock_parseable tx → is_Some (secp_pubkey_create privKey) →
  TxBlock_parse (TxBlock_rlpSerialize tx true) = Ok tx.
Proof.
  intros Hnew Ht Hp [pk Hk]. apply parse_serialize_aux; [done..|].
  unfold TxBlock_new in Hnew.
  apply result_bind_ok in Hnew as (? & Ha & Hnew). apply throw_if_ok, bool_decide_eq_false in Ha.
  apply result_bind_ok in Hnew as (? & Hr & Hnew). apply throw_if_ok, bool_decide_eq_false in Hr.
  apply result_bind_ok in Hnew as (? & Hv & Hnew). apply throw_if_ok, negb_false_iff in Hv.
  apply Ok_inj in Hnew as <-.
  apply dec_stable in Ha, Hr. 
  match goal with |- context [sign ?m _] => destruct (sign_format m privKey) as [Hok Hl] end.
  apply (makeSig_fields _ Hok) in Hl.
  match type of Hr with _ = recover _ ?m => set (msg := m) in * end.
  assert (Hkey : ∀ f h, tx_key (with_from_hash (with_signature
    (mkTxBlock to from data chainId nonce value mpf mf gasLimit 0 0 0 zero_hash)
    (sig_v (sign msg privKey)) (sig_r (sign msg privKey)) (sig_s (sign msg privKey))) f h)
    = toUPub privKey).
  { intros f h. unfold tx_key. cbn [r_ s_ v_ with_from_hash with_signature].
    rewrite Hl, Hr. reflexivity. }
  split; [exact Hv|]. rewrite !Hkey. split; [by eapply toUPub_nonzero|].
  split; [by symmetry|reflexivity].
Qed.

(** a transaction whose data is 55 bytes long is serialised to a string the parser refuses
    (unless the first data byte happens to be [0xc0]): the code [0xb7] is read as a long string. *)
Theorem TxBlock_data55_refused tx :
  TxBlock_typed tx → in_uint 64 (nonce_ tx) → in_uint 64 (gasLimit_ tx) →
  length (data_ tx) = 55%nat → data_ tx !! 0%nat ≠ Some 192 →
  TxBlock_parse (TxBlock_rlpSerialize tx true) = Throw (tx_exn "Access list is not empty").
Proof.
  intros Ht Hn Hg H55 H0. unfold TxBlock_parse, TxBlock_rlpSerialize.
  assert (Hl := TxBlock_payload_length _ Ht). rewrite <- Hl.
  destruct (TxBlock_header_spec (TxBlock_payload tx true)) as (i & Hh & Hd).
  { rewrite Hl. split; [by apply TxBlock_total_size_55|].
    by destruct Ht as (_&_&_&_&_&_&_&_&_&_&_&_&_&Ht). }
  rewrite Hh. cbn [mbind result_bind]. by rewrite (TxBlock_fields_55 tx).
Qed.

(** a transaction the parser returns carries a signature within the curve's bounds, the sender
    recovered from it over the unsigned form, and the hash of its own serialised form; the nonce
    and the gas limit it reports fit 64 bits. *)
Theorem TxBlock_parse_sound bytes tx :
  TxBlock_parse bytes = Ok tx →
  TxBlock_signed tx ∧ in_uint 64 (chainId_ tx) ∧ in_uint 64 (nonce_ tx) ∧
  in_uint 64 (gasLimit_ tx) ∧ v_ tx ≤ 1.
Proof.
  intros Hp. apply result_bind_ok in Hp as ([txData i] & _ & Hp).
  apply result_bind_ok in Hp as (tx' & Hf & Hp).
  apply TxBlock_finish_inv in Hp as (Hs & Hc & Hn & Hg & Hv).
  apply TxBlock_fields_range in Hf as (Hc' & Hn' & Hg').
  rewrite Hc, Hn, Hg. split; [done|]. split; [done|]. split; [done|]. split; [done|].
  apply verifySig_bounds in Hv. lia.
Qed.
End TxBlock_correctness.

(** ** Witnesses *)

Definition toy_tx : TxBlock :=
  let tx := mkTxBlock (replicate 20 5) zero_address (replicate 60 3) 8080 7 (10 ^ 18) 1 (10 ^ 9)
              21000 1 11 13 zero_hash in
  with_from_hash tx (@toAddress toy_hash toy_pubkey)
    (@sha3 toy_hash (TxBlock_rlpSerialize tx true)).

Lemma TxBlock_roundtrip_witness :
  @TxBlock_parse toy_secp boost_ref toy_hash (TxBlock_rlpSerialize toy_tx true) = Ok toy_tx.
Proof.
  apply (@TxBlock_roundtrip toy_secp boost_ref toy_hash toy_tx).
  - by_compute.
  - by_compute.
  - by_compute.
Defined.

Definition toy_new : result TxBlock :=
  @TxBlock_new toy_secp boost_ref toy_hash (replicate 20 5) (@toAddress toy_hash toy_pubkey)
    (replicate 60 3) 8080 7 (10 ^ 18) 1 (10 ^ 9) 21000 (replicate 32 1).

Lemma TxBlock_signed_parses_witness :
  @TxBlock_parse toy_secp boost_ref toy_hash (TxBlock_rlpSerialize toy_tx true) = Ok toy_tx.
Proof.
  apply (@TxBlock_signed_parses toy_secp boost_ref toy_hash (replicate 20 5)
    (@toAddress toy_hash toy_pubkey) (replicate 60 3) 8080 7 (10 ^ 18) 1 (10 ^ 9) 21000
    (replicate 32 1) toy_tx).
  - by vm_compute.
  - by_compute.
  - by_compute.
  - by exists toy_pubkey.
Defined.

Definition toy_tx55 : TxBlock :=
  mkTxBlock (replicate 20 5) zero_address (replicate 55 3) 8080 7 (10 ^ 18) 1 (10 ^ 9)
    21000 1 11 13 zero_hash.

Lemma TxBlock_data55_refused_witness :
  @TxBlock_parse toy_secp boost_ref toy_hash (TxBlock_rlpSerialize toy_tx55 true)
  = Throw (tx_exn "Access list is not empty").
Proof.
  apply (@TxBlock_data55_refused toy_secp boost_ref toy_hash toy_tx55).
  - by_compute.
  - by_compute.
  - by_compute.
  - reflexivity.
  - discriminate.
Defined.

Lemma TxBlock_parse_sound_witness :
  @TxBlock_signed toy_secp boost_ref toy_hash toy_tx ∧ in_uint 64 (chainId_ toy_tx) ∧
  in_uint 64 (nonce_ toy_tx) ∧ in_uint 64 (gasLimit_ toy_tx) ∧ v_ toy_tx ≤ 1.
Proof.
  apply (@TxBlock_parse_sound toy_secp boost_ref toy_hash (TxBlock_rlpSerialize toy_tx true)).
  by vm_compute.
Defined.
