(* ===== verification/TxValidator.v ===== *)
(** * TxValidator: the validators' transactions (src/utils/tx.{h,cpp}, class TxValidator)

    The RLP codec of the transactions rdPoS uses for its randomness, with the EIP-155 [v], on the
    readers and lemmas of Tx. *)

From S2P Require Import Prelude Bytes SizedInts Hashing ECDSA Tx.

Record TxValidator := mkTxValidator {
  vt_from : list Z;
  vt_data : list Z;
  vt_chainId : Z;              (* uint64_t *)
  vt_nHeight : Z;              (* uint64_t *)
  vt_v : Z;                    (* uint256_t *)
  vt_r : Z;
  vt_s : Z;
  vt_hash : list Z
}.

#[export] Instance TxValidator_eq_dec : EqDecision TxValidator.
Proof. solve_decision. Defined.

(** [TxValidator::getFunctor]: the first four bytes of the data. *)
Definition vt_functor (tx : TxValidator) : result (list Z) := subspan (vt_data tx) 0 4.

(** ** Serialisation *)

(** The [v] or chain id field: a value below [0x80] is its own byte, 0 included. *)
Definition rlp_byte_or_uint (x : Z) : list Z :=
  if x <? 128 then [byte_of x] else byte_of (bytesRequired x + 128) :: uintToBytes x.

Definition TxValidator_total_size (tx : TxValidator) (includeSig : bool) : Z :=
  rlp_data_size (vt_data tx) + rlp_uint_size (vt_nHeight tx)
  + (if includeSig then rlp_uint_size (vt_v tx) else rlp_uint_size (vt_chainId tx))
  + (if negb includeSig then 1 else 1 + bytesRequired (vt_r tx))
  + (if negb includeSig then 1 else 1 + bytesRequired (vt_s tx)).

Definition TxValidator_payload (tx : TxValidator) (includeSig : bool) : list Z :=
  rlp_data (vt_data tx) ++ rlp_uint (vt_nHeight tx)
  ++ rlp_byte_or_uint (if includeSig then vt_v tx else vt_chainId tx)
  ++ (if negb includeSig then [128] else rlp_sig_part (vt_r tx))
  ++ (if negb includeSig then [128] else rlp_sig_part (vt_s tx)).

Definition TxValidator_rlpSerialize (tx : TxValidator) (includeSig : bool) : list Z :=
  rlp_list_header (TxValidator_total_size tx includeSig) ++ TxValidator_payload tx includeSig.

(** ** Parsing *)

(** The data field; unlike TxBlock's there is no upper bound on the code of a long string. *)
Definition read_val_data (bytes : list Z) (index : nat) : result (list Z * nat) :=
  b ← read_at bytes index;
  if b <? 128 then bs ← subspan bytes index 1; Ok (bs, (index + 1)%nat)
  else if b <? 183 then
    bs ← subspan bytes (index + 1) (Z.to_nat (b - 128));
    Ok (bs, (index + 1 + Z.to_nat (b - 128))%nat)
  else
    let dataLengthSize := Z.to_nat (b - 183) in
    lbs ← subspan bytes (index + 1) dataLengthSize;
    dataLength ← fromBigEndian 64 lbs;
    bs ← subspan bytes (index + 1 + dataLengthSize) (Z.to_nat dataLength);
    Ok (bs, (index + 1 + dataLengthSize + Z.to_nat dataLength)%nat).

(** The height; unlike the other integers its length is not bounded. *)
Definition read_val_nHeight (bytes : list Z) (index : nat) : result (Z * nat) :=
  b ← read_at bytes index;
  let len := if 128 <=? b then b - 128 else 0 in
  if negb (len =? 0) then
    bs ← subspan bytes (index + 1) (Z.to_nat len);
    x ← fromBigEndian 64 bs;
    Ok (x, (index + 1 + Z.to_nat len)%nat)
  else
    x ← (if b =? 128 then Ok 0 else bs ← subspan bytes index 1; fromBigEndian 64 bs);
    Ok (x, (index + 1)%nat).

(** The chain id from [v]. [chainId_] has no initialiser: for 27 and 28 it is read uninitialised. *)
Definition val_chainId (v : Z) : result Z :=
  if 36 <? v then
    let chainId := (v - 35) / 2 in
    if umax 64 <? chainId then Throw RangeError else Ok chainId
  else if negb (v =? 27) && negb (v =? 28) then
    Throw (tx_exn "Invalid tx signature - v is not 27 or 28, v is ")
  else Throw Undefined.

(** [uint8_t{v - (chainId * 2 + 35)}] over checked 256-bit integers. *)
Definition val_recoveryId (v chainId : Z) : result Z :=
  let x := v - (chainId * 2 + 35) in
  _ ← throw_if (x <? 0) RangeError;
  _ ← throw_if (255 <? x) RangeError;
  Ok x.

Section TxValidator_codec.
Context {LS : LibSecp256k1} {BB : BoostBits} {KC : Keccak}.

Definition TxValidator_fields (bytes : list Z) (index : nat) : result TxValidator :=
  '(data, index) ← read_val_data bytes index;
  '(nHeight, index) ← read_val_nHeight bytes index;
  '(v, index) ← read_rlp_uint 256 "V is not a small string" bytes index;
  '(r, index) ← read_rlp_sig_part 55 "R is not a small string" bytes index;
  '(s, index) ← read_rlp_sig_part 55 "S is not a small string" bytes index;
  chainId ← val_chainId v;
  Ok (mkTxValidator zero_address data chainId nHeight v r s zero_hash).

Definition val_with_from_hash (tx : TxValidator) (from hash : list Z) : TxValidator :=
  mkTxValidator from (vt_data tx) (vt_chainId tx) (vt_nHeight tx) (vt_v tx) (vt_r tx) (vt_s tx) hash.

Definition TxValidator_finish (tx : TxValidator) : result TxValidator :=
  recoveryId ← val_recoveryId (vt_v tx) (vt_chainId tx);
  _ ← throw_if (negb (verifySig (vt_r tx) (vt_s tx) recoveryId))
        (tx_exn "Invalid tx signature - doesn't fit elliptic curve verification");
  let sig := makeSig (vt_r tx) (vt_s tx) recoveryId in
  let msgHash := sha3 (TxValidator_rlpSerialize tx false) in
  let key := recover sig msgHash in
  _ ← throw_if (bool_decide (key = UPubKey_zero))
        (tx_exn "Invalid tx signature - cannot recover public key");
  Ok (val_with_from_hash tx (toAddress key) (sha3 (TxValidator_rlpSerialize tx true))).

Definition TxValidator_parse (bytes : list Z) : result TxValidator :=
  index ← read_list_header bytes;
  tx ← TxValidator_fields bytes index;
  TxValidator_finish tx.

(** The signing constructor; [v_] is computed on 64 bits. *)
Definition TxValidator_new (from data : list Z) (chainId nHeight : Z) (privKey : list Z)
    : result TxValidator :=
  let tx0 := mkTxValidator from data chainId nHeight 0 0 0 zero_hash in
  let pubKey := toUPub privKey in
  let add := toAddress pubKey in
  let msgHash := sha3 (TxValidator_rlpSerialize tx0 false) in
  _ ← throw_if (bool_decide (add ≠ from))
        (tx_exn "Private key does not match sender address (from)");
  let sig := sign msgHash privKey in
  let recoveryIds := sig_v sig in
  let v := (recoveryIds + (chainId * 2 + 35) mod 2 ^ 64) mod 2 ^ 64 in
  let tx := mkTxValidator from data chainId nHeight v (sig_r sig) (sig_s sig) zero_hash in
  _ ← throw_if (negb (verifySig (sig_r sig) (sig_s sig) recoveryIds))
        (tx_exn "Invalid tx signature - doesn't fit elliptic curve verification");
  _ ← throw_if (bool_decide (pubKey ≠ recover sig msgHash))
        (tx_exn "Invalid transaction signature, signature derived key doens't match public key");
  Ok (val_with_from_hash tx from (sha3 (TxValidator_rlpSerialize tx true))).
End TxValidator_codec.

(** ** The validator's readers on well-formed input *)

Lemma read_val_data_of l i r : read_rlp_data l i = Ok r → read_val_data l i = Ok r.
Proof.
  unfold read_rlp_data, read_val_data. intros (b & -> & H)%result_bind_ok. cbn [mbind result_bind].
  destruct (b <? 128); [done|]. destruct (b <? 183); [done|]. by destruct (b <? 192).
Qed.

Lemma read_val_nHeight_of msg l i r : read_rlp_uint 64 msg l i = Ok r → read_val_nHeight l i = Ok r.
Proof.
  unfold read_rlp_uint, read_val_nHeight. intros (b & -> & H)%result_bind_ok.
  cbn [mbind result_bind]. destruct (negb _); [|done].
  by apply result_bind_ok in H as (_ & _ & H).
Qed.

Lemma read_val_data_spec l i data rest :
  Z.of_nat (length data) < 2 ^ 64 → length data ≠ 55%nat →
  drop i l = rlp_data data ++ rest → reads (read_val_data l i) data l rest.
Proof.
  intros Hn H55 Hd. destruct (read_rlp_data_spec l i data rest Hn H55 Hd) as (j & Hj & Hd').
  exists j. split; [by apply read_val_data_of|done].
Qed.

Lemma read_val_nHeight_spec l i x rest :
  in_uint 64 x → drop i l = rlp_uint x ++ rest → reads (read_val_nHeight l i) x l rest.
Proof.
  intros Hx Hd. destruct (read_rlp_uint_spec 64 "" l i x rest) as (j & Hj & Hd');
    [by apply in_uint_256_64|lia|by destruct Hx|done|].
  exists j. split; [by eapply read_val_nHeight_of|done].
Qed.

Lemma val_chainId_of chainId rec :
  0 < chainId < 2 ^ 64 → 0 ≤ rec ≤ 1 → val_chainId (rec + (chainId * 2 + 35)) = Ok chainId.
Proof.
  intros Hc Hr. unfold val_chainId, umax. destruct (Z.ltb_spec 36 (rec + (chainId * 2 + 35))); [|lia].
  replace (rec + (chainId * 2 + 35) - 35) with (rec + chainId * 2) by lia.
  rewrite Z.div_add, Z.div_small, Z.add_0_l by lia.
  destruct (Z.ltb_spec (2 ^ 64 - 1) chainId); [lia|reflexivity].
Qed.

Lemma val_recoveryId_of chainId rec :
  0 ≤ rec ≤ 1 → val_recoveryId (rec + (chainId * 2 + 35)) chainId = Ok rec.
Proof.
  intros Hr. unfold val_recoveryId. replace (_ - _) with rec by lia.
  destruct (Z.ltb_spec rec 0); [lia|]. destruct (Z.ltb_spec 255 rec); [lia|done].
Qed.

(** ** Round trip *)

Section TxValidator_correctness.
Context {LS : LibSecp256k1} {BB : BoostBits} {KC : Keccak}.

(** The transactions a network accepts: an EIP-155 [v] for a chain id above 0 and below [2^62]. *)
Definition TxValidator_typed (tx : TxValidator) : Prop :=
  bytes_ok (vt_data tx) ∧ Z.of_nat (length (vt_data tx)) < 2 ^ 32 ∧ length (vt_data tx) ≠ 55%nat ∧
  0 < vt_chainId tx < 2 ^ 62 ∧ in_uint 64 (vt_nHeight tx) ∧
  in_uint 256 (vt_r tx) ∧ in_uint 256 (vt_s tx) ∧ 55 < TxValidator_total_size tx true.

#[export] Instance TxValidator_typed_dec tx : Decision (TxValidator_typed tx).
Proof. unfold TxValidator_typed. apply _. Defined.

Definition val_key (tx : TxValidator) (rec : Z) : list Z :=
  recover (makeSig (vt_r tx) (vt_s tx) rec) (sha3 (TxValidator_rlpSerialize tx false)).

Definition TxValidator_signed (tx : TxValidator) (rec : Z) : Prop :=
  vt_v tx = rec + (vt_chainId tx * 2 + 35) ∧ 0 ≤ rec ≤ 1 ∧
  verifySig (vt_r tx) (vt_s tx) rec = true ∧ val_key tx rec ≠ UPubKey_zero ∧
  vt_from tx = toAddress (val_key tx rec) ∧ vt_hash tx = sha3 (TxValidator_rlpSerialize tx true).

#[export] Instance TxValidator_signed_dec tx rec : Decision (TxValidator_signed tx rec).
Proof. unfold TxValidator_signed. apply _. Defined.

Lemma TxValidator_payload_length tx rec :
  TxValidator_typed tx → TxValidator_signed tx rec →
  Z.of_nat (length (TxValidator_payload tx true)) = TxValidator_total_size tx true ∧
  TxValidator_total_size tx true < 2 ^ 64.
Proof.
  intros (_ & Hdl & _ & Hc & Hn & Hr & Hs & _) (Hv & Hrec & _).
  assert (Hd := rlp_data_length (vt_data tx) ltac:(lia)).
  assert (Hvu : in_uint 256 (vt_v tx)) by (unfold in_uint; lia).
  apply in_uint_256_64 in Hn. assert (Hnl := rlp_uint_length _ Hn).
  assert (Hvb := uintToBytes_length _ Hvu).
  assert (Hrb := uintToBytes_length _ Hr). assert (Hsb := uintToBytes_length _ Hs).
  destruct (bytesRequired_spec _ Hn) as [Hbn _]. destruct (bytesRequired_spec _ Hr) as [Hbr _].
  destruct (bytesRequired_spec _ Hs) as [Hbs _]. destruct (bytesRequired_spec _ Hvu) as [Hbv _].
  unfold TxValidator_payload, TxValidator_total_size, rlp_sig_part, rlp_byte_or_uint, rlp_uint_size,
    rlp_data_size in *.
  destruct (bytesRequired_spec (Z.of_nat (length (vt_data tx))) ltac:(unfold in_uint; lia)) as [Hbd _].
  cbn [negb]. destruct (Z.ltb_spec (vt_v tx) 128);
    rewrite !length_app; cbn [length]; rewrite !Nat2Z.inj_add, ?Nat2Z.inj_succ;
    (split; [rewrite Hd, Hnl; lia|]); repeat case_match; lia.
Qed.

Lemma TxValidator_fields_spec tx rec l i :
  TxValidator_typed tx → TxValidator_signed tx rec →
  drop i l = TxValidator_payload tx true →
  TxValidator_fields l i = Ok (val_with_from_hash tx zero_address zero_hash).
Proof.
  intros (_ & Hdl & H55 & Hc & Hn & Hr & Hs & _) (Hv & Hrec & _) Hd.
  assert (Hdl' : Z.of_nat (length (vt_data tx)) < 2 ^ 64) by lia.
  assert (Hvu : in_uint 256 (vt_v tx)) by (unfold in_uint; lia).
  unfold TxValidator_payload in Hd. cbn [negb] in Hd. unfold TxValidator_fields.
  assert (Hvr : rlp_byte_or_uint (vt_v tx) = rlp_uint (vt_v tx)).
  { unfold rlp_byte_or_uint, rlp_uint. destruct (Z.eqb_spec (vt_v tx) 0); [lia|done]. }
  rewrite Hvr, <- (app_nil_r (rlp_sig_part (vt_s tx))) in Hd.
  assert (Hv256 : vt_v tx < 2 ^ 256) by (by destruct Hvu).
  step_field read_val_data_spec Hd.
  step_field read_val_nHeight_spec Hd.
  step_field read_rlp_uint_spec Hd.
  step_field read_rlp_sig_part_spec Hd.
  step_field read_rlp_sig_part_spec Hd.
  rewrite Hv, val_chainId_of by lia. cbn [mbind result_bind]. by rewrite <- Hv.
Qed.

Lemma val_parse_serialize_aux tx rec :
  TxValidator_typed tx → TxValidator_signed tx rec →
  TxValidator_parse (TxValidator_rlpSerialize tx true) = Ok tx.
Proof.
  intros Ht Hs. unfold TxValidator_parse, TxValidator_rlpSerialize.
  destruct (TxValidator_payload_length _ _ Ht Hs) as [Hl Hlt]. rewrite <- Hl.
  destruct (read_list_header_spec (TxValidator_payload tx true)) as (i & Hh & Hd).
  { destruct Ht as (_&_&_&_&_&_&_&Ht). lia. }
  rewrite Hh. cbn [mbind result_bind].
  rewrite (TxValidator_fields_spec tx rec) by done. cbn [mbind result_bind].
  destruct Hs as (Hv & Hrec & Hver & Hk & Hf & Hh'). unfold TxValidator_finish.
  change (TxValidator_rlpSerialize (val_with_from_hash tx zero_address zero_hash))
    with (TxValidator_rlpSerialize tx).
  cbn [vt_v vt_chainId vt_r vt_s val_with_from_hash]. rewrite Hv, val_recoveryId_of by done.
  cbn [mbind result_bind]. rewrite Hver. cbn [negb throw_if mbind result_bind].
  fold (val_key tx rec). rewrite bool_decide_eq_false_2 by done.
  cbn [throw_if mbind result_bind]. rewrite <- Hf, <- Hh'. by destruct tx.
Qed.

(** the transaction a validator signs is read back by the parser of every other node with the
    same sender, chain id, height, data and hash. *)
Theorem TxValidator_signed_parses from data chainId nHeight privKey tx :
  TxValidator_new from data chainId nHeight privKey = Ok tx →
  TxValidator_typed tx → is_Some (secp_pubkey_create privKey) →
  TxValidator_parse (TxValidator_rlpSerialize tx true) = Ok tx.
Proof.
  intros Hnew Ht [pk Hk]. apply (val_parse_serialize_aux tx (sig_v (sign (sha3
    (TxValidator_rlpSerialize (mkTxValidator from data chainId nHeight 0 0 0 zero_hash) false))
    privKey))); [done|].
  unfold TxValidator_new in Hnew.
  apply result_bind_ok in Hnew as (? & Ha & Hnew). apply throw_if_ok, bool_decide_eq_false in Ha.
  apply result_bind_ok in Hnew as (? & Hv & Hnew). apply throw_if_ok, negb_false_iff in Hv.
  apply result_bind_ok in Hnew as (? & Hr & Hnew). apply throw_if_ok, bool_decide_eq_false in Hr.
  apply Ok_inj in Hnew as <-. apply dec_stable in Ha, Hr.
  match goal with |- context [sig_v (sign ?m _)] => set (msg := m) in * end.
  destruct (sign_format msg privKey) as [Hok Hl].
  assert (Hm := makeSig_fields _ Hok Hl).
  assert (Hrec : 0 ≤ sig_v (sign msg privKey) ≤ 1).
  { split; [|apply verifySig_bounds in Hv; lia].
    unfold sig_v. destruct (lookup_lt_is_Some_2 (sign msg privKey) 64) as [b Hb]; [lia|].
    rewrite (list_lookup_total_correct _ _ _ Hb).
    by apply (Forall_lookup_1 _ _ _ _ Hok) in Hb as [? _]. }
  destruct Ht as (_ & _ & _ & Hc & _). cbn [vt_chainId val_with_from_hash] in Hc.
  split; [cbn; rewrite !Z.mod_small by (rewrite ?Z.mod_small; lia); lia|].
  split; [done|]. split; [exact Hv|].
  match goal with |- val_key ?t ?r ≠ _ ∧ _ =>
    assert (Hkey : val_key t r = toUPub privKey)
      by (unfold val_key; cbn [vt_r vt_s val_with_from_hash]; rewrite Hm; symmetry; exact Hr) end.
  rewrite !Hkey. split; [|split; [by symmetry|reflexivity]].
  intros Hz. assert (Hnz := toUPub_nonzero _ _ Hk). rewrite Hz in Hnz. by vm_compute in Hnz.
Qed.
End TxValidator_correctness.

Definition toy_val_tx : result TxValidator :=
  @TxValidator_new toy_secp boost_ref toy_hash (@toAddress toy_hash toy_pubkey)
    (replicate 60 3) 8080 7 (replicate 32 1).

Definition toy_val : TxValidator :=
  match toy_val_tx with Ok tx => tx | Throw _ => mkTxValidator [] [] 0 0 0 0 0 [] end.

Lemma TxValidator_signed_parses_witness :
  @TxValidator_parse toy_secp boost_ref toy_hash (TxValidator_rlpSerialize toy_val true) = Ok toy_val.
Proof.
  apply (@TxValidator_signed_parses toy_secp boost_ref toy_hash (@toAddress toy_hash toy_pubkey)
    (replicate 60 3) 8080 7 (replicate 32 1) toy_val).
  - by vm_compute.
  - by_compute.
  - by exists toy_pubkey.
Defined.
