(* ===== verification/Randomness.v ===== *)
(** * Randomness: the seeded generator and the validators' seed transactions

    [RandomGen] (src/utils/randomgen.{h,cpp}) and the two static functions of [rdPoS] that classify
    and combine validator transactions (src/core/rdpos.cpp). *)

From S2P Require Import Prelude Bytes SizedInts Hashing ECDSA Tx TxValidator.

(** ** RandomGen *)

Section RandomGen.
Context {BB : BoostBits} {KC : Keccak}.

(** [Hash::toUint256]: [bytesToUint256], which refuses only a string that is not 32 bytes. *)
Definition toUint256 (h : list Z) : Z :=
  match bytesToUint256 h with Ok x => x | Throw _ => 0 end.

(** [getNext] and [operator()]: the seed is hashed and is itself the value. *)
Definition getNext (seed : list Z) : Z * list Z :=
  let seed := sha3 seed in (toUint256 seed, seed).

Definition operator_call (seed : list Z) : Z * list Z :=
  let seed := sha3 seed in (toUint256 seed, seed).

(** [std::swap(v[n], v[i])]. *)
Definition swap {A} (v : list A) (n i : nat) : list A :=
  match v !! n, v !! i with
  | Some x, Some y => <[i := x]> (<[n := y]> v)
  | _, _ => v
  end.

Fixpoint shuffle_loop {A} (fuel i : nat) (seed : list Z) (v : list A) : list A * list Z :=
  match fuel with
  | O => (v, seed)
  | S fuel =>
      let seed := sha3 seed in
      let n := Z.to_nat ((Z.of_nat i + toUint256 seed mod Z.of_nat (length v - i)) mod 2 ^ 64) in
      shuffle_loop fuel (S i) seed (swap v n i)
  end.

(** [for (uint64_t i = 0; i < v.size(); ++i)]. *)
Definition shuffle {A} (seed : list Z) (v : list A) : list A * list Z :=
  shuffle_loop (length v) 0 seed v.

Lemma swap_permutation {A} (v : list A) n i : swap v n i ≡ₚ v.
Proof.
  unfold swap. destruct (v !! n) as [x|] eqn:Hn; [|done]. destruct (v !! i) as [y|] eqn:Hi; [|done].
  by apply Permutation_insert_swap.
Qed.

Lemma swap_lookup_other {A} (v : list A) n i k : k ≠ n → k ≠ i → swap v n i !! k = v !! k.
Proof.
  intros Hn Hi. unfold swap. destruct (v !! n); [|done]. destruct (v !! i); [|done].
  by rewrite !list_lookup_insert_ne by congruence.
Qed.

Lemma swap_lookup_second {A} (v : list A) n i x :
  v !! n = Some x → (i < length v)%nat → swap v n i !! i = Some x.
Proof.
  intros Hn Hi. unfold swap. rewrite Hn. destruct (lookup_lt_is_Some_2 v i Hi) as [y ->].
  rewrite list_lookup_insert_eq; [done|]. by rewrite length_insert.
Qed.

Lemma toUint256_decode h : bytes_ok h → length h = 32%nat → toUint256 h = be_decode h.
Proof. intros. unfold toUint256. unfold bytesToUint256. by rewrite bytesToUintN_decode. Qed.

Lemma toUint256_sha3 b : toUint256 (sha3 b) = be_decode (sha3 b).
Proof. apply toUint256_decode; auto with code. Qed.

Lemma shuffle_loop_permutation {A} fuel i seed (v : list A) :
  (shuffle_loop fuel i seed v).1 ≡ₚ v.
Proof.
  revert i seed v. induction fuel as [|fuel IH]; intros i seed v; [done|].
  cbn [shuffle_loop]. rewrite IH. apply swap_permutation.
Qed.

Lemma shuffle_loop_seed {A} fuel i seed (v : list A) :
  (shuffle_loop fuel i seed v).2 = Nat.iter fuel sha3 seed.
Proof.
  revert i seed v. induction fuel as [|fuel IH]; intros i seed v; [done|].
  cbn [shuffle_loop]. rewrite IH. symmetry. apply Nat.iter_succ_r.
Qed.

(** The index picked at step [i] is at least [i] and inside the vector. *)
Lemma shuffle_index (len i : nat) (x : Z) :
  Z.of_nat len < 2 ^ 64 → (i < len)%nat →
  let n := Z.to_nat ((Z.of_nat i + x mod Z.of_nat (len - i)) mod 2 ^ 64) in
  (i ≤ n < len)%nat.
Proof.
  intros Hl Hi n. assert (Hm := Z.mod_pos_bound x (Z.of_nat (len - i)) ltac:(lia)).
  unfold n. rewrite Z.mod_small by lia. lia.
Qed.

Lemma shuffle_loop_prefix {A} fuel i seed (v : list A) k :
  Z.of_nat (length v) < 2 ^ 64 → (i + fuel ≤ length v)%nat → (k < i)%nat →
  (shuffle_loop fuel i seed v).1 !! k = v !! k.
Proof.
  revert i seed v. induction fuel as [|fuel IH]; intros i seed v Hl Hf Hk; [done|].
  cbn [shuffle_loop].
  assert (Hn := shuffle_index (length v) i (toUint256 (sha3 seed)) Hl ltac:(lia)). cbv zeta in Hn.
  set (n := Z.to_nat _) in *.
  assert (Hls : length (swap v n i) = length v) by (apply Permutation_length, swap_permutation).
  rewrite IH by lia. apply swap_lookup_other; lia.
Qed.

(** shuffling permutes the vector, advances the seed by one hash per element, and its first
    element (the validator that will sign the next block) is the one at the index given by the hash
    of the seed modulo the number of elements. *)
Theorem shuffle_correct {A} seed (v : list A) :
  (shuffle seed v).1 ≡ₚ v ∧ (shuffle seed v).2 = Nat.iter (length v) sha3 seed ∧
  (Z.of_nat (length v) < 2 ^ 64 → v ≠ [] →
   (shuffle seed v).1 !! 0%nat
   = v !! Z.to_nat (be_decode (sha3 seed) mod Z.of_nat (length v))).
Proof.
  split; [apply shuffle_loop_permutation|]. split; [apply shuffle_loop_seed|].
  intros Hl Hv. unfold shuffle. destruct (length v) as [|m] eqn:Hm; [by destruct v|].
  cbn [shuffle_loop]. rewrite Hm.
  assert (Hn := shuffle_index (S m) 0 (toUint256 (sha3 seed)) Hl ltac:(lia)).
  rewrite Nat.sub_0_r in *. cbv zeta in Hn. cbn [Z.of_nat Z.add] in Hn |- *.
  rewrite toUint256_sha3 in *. rewrite Z.mod_small in * by
    (assert (Hb := Z.mod_pos_bound (be_decode (sha3 seed)) (Z.of_nat (S m)) ltac:(lia)); lia).
  set (n := Z.to_nat _) in *.
  assert (Hls : length (swap v n 0) = length v) by (apply Permutation_length, swap_permutation).
  destruct (lookup_lt_is_Some_2 v n) as [x Hx]; [lia|].
  rewrite shuffle_loop_prefix by lia. rewrite Hx. apply swap_lookup_second; [done|lia].
Qed.

(** ** Seed transactions *)

Inductive TxValidatorFunction := INVALID | RANDOMHASH | RANDOMSEED.

#[global] Instance TxValidatorFunction_eq_dec : EqDecision TxValidatorFunction.
Proof. solve_decision. Defined.

Definition randomHashHash : list Z := [207; 255; 231; 70].  (* 0xcfffe746 *)
Definition randomSeedHash : list Z := [111; 197; 162; 214]. (* 0x6fc5a2d6 *)

Definition getTxValidatorFunction (tx : TxValidator) : TxValidatorFunction :=
  if decide (length (vt_data tx) ≠ 36%nat) then INVALID
  else
    let functionABI := take 4 (vt_data tx) in
    if decide (functionABI = randomHashHash) then RANDOMHASH
    else if decide (functionABI = randomSeedHash) then RANDOMSEED
    else INVALID.

Definition parseTxSeedList (txs : list TxValidator) : list Z :=
  match txs with
  | [] => zero_hash
  | _ =>
      sha3 (foldl (λ seed tx,
        if decide (getTxValidatorFunction tx = RANDOMSEED) then seed ++ drop 4 (vt_data tx)
        else seed) [] txs)
  end.

(** The seed carried by a transaction. *)
Definition seed_of (tx : TxValidator) : list Z :=
  if decide (getTxValidatorFunction tx = RANDOMSEED) then drop 4 (vt_data tx) else [].

Lemma parseTxSeedList_concat txs :
  txs ≠ [] → parseTxSeedList txs = sha3 (concat (map seed_of txs)).
Proof.
  intros Ht. unfold parseTxSeedList. destruct txs as [|tx txs]; [done|]. f_equal.
  generalize (tx :: txs) as l. intros l.
  enough (∀ acc, foldl (λ seed tx, if decide (getTxValidatorFunction tx = RANDOMSEED)
    then seed ++ drop 4 (vt_data tx) else seed) acc l = acc ++ concat (map seed_of l)) as -> by done.
  induction l as [|t l IH]; intros acc; cbn [foldl map concat]; [by rewrite app_nil_r|].
  rewrite IH. unfold seed_of at 2. case_decide; [by rewrite app_assoc|done].
Qed.

Lemma getTxValidatorFunction_hash tx :
  getTxValidatorFunction tx = RANDOMHASH ↔
  ∃ h, vt_data tx = randomHashHash ++ h ∧ length h = 32%nat.
Proof.
  unfold getTxValidatorFunction. split.
  - case_decide as Hl; [done|]. case_decide as Hh; [|by case_decide]. intros _.
    exists (drop 4 (vt_data tx)). rewrite <- Hh, take_drop, length_drop. split; [done|lia].
  - intros (h & Hd & Hh). rewrite Hd. rewrite decide_False by (rewrite length_app, Hh; auto).
    done.
Qed.

Lemma getTxValidatorFunction_seed tx :
  getTxValidatorFunction tx = RANDOMSEED ↔
  ∃ h, vt_data tx = randomSeedHash ++ h ∧ length h = 32%nat.
Proof.
  unfold getTxValidatorFunction. split.
  - case_decide as Hl; [done|]. case_decide as Hh; [done|]. case_decide as Hs; [|done]. intros _.
    exists (drop 4 (vt_data tx)). rewrite <- Hs, take_drop, length_drop. split; [done|lia].
  - intros (h & Hd & Hh). rewrite Hd. rewrite decide_False by (rewrite length_app, Hh; auto).
    done.
Qed.
End RandomGen.

Lemma shuffle_correct_witness :
  (@shuffle boost_ref toy_hash _ (zero_bytes 32) [1; 2; 3; 4; 5]).1 !! 0%nat
  = [1; 2; 3; 4; 5] !! Z.to_nat (be_decode (@sha3 toy_hash (zero_bytes 32)) mod 5).
Proof.
  destruct (@shuffle_correct boost_ref toy_hash _ (zero_bytes 32) [1; 2; 3; 4; 5]) as (_ & _ & Hh).
  apply Hh; [reflexivity|discriminate].
Defined.
