(* ===== verification/Block.v ===== *)
(** * Block: blocks and their binary form (src/utils/block.{h,cpp})

    The parsing constructor with its sequential and its parallel reading of the transactions, the
    serialisation, [appendTx], [appendTxValidator] and [finalize]. *)

From S2P Require Import Prelude Bytes SizedInts Hashing Merkle ECDSA Tx TxValidator Randomness.

(** Unfold the combinators before the transaction parsers when terms are compared. *)
#[local] Strategy 100 [TxBlock_parse TxValidator_parse].

Record Block := mkBlock {
  validatorSig_ : list Z;
  prevBlockHash_ : list Z;
  blockRandomness_ : list Z;
  validatorMerkleRoot_ : list Z;
  txMerkleRoot_ : list Z;
  timestamp_ : Z;              (* uint64_t *)
  nHeight_ : Z;                (* uint64_t *)
  txValidators_ : list TxValidator;
  txs_ : list TxBlock;
  validatorPubKey_ : list Z;
  finalized_ : bool;
  block_hash_ : list Z
}.

#[export] Instance Block_eq_dec : EqDecision Block.
Proof. solve_decision. Defined.

(** [Block(prevBlockHash, timestamp, nHeight)]. *)
Definition Block_new (prevBlockHash : list Z) (timestamp nHeight : Z) : Block :=
  mkBlock (zero_bytes 65) prevBlockHash zero_hash zero_hash zero_hash timestamp nHeight [] []
    UPubKey_zero false zero_hash.

(** [operator==]: the hashes and the signatures. *)
Definition Block_eqb (a b : Block) : bool :=
  bool_decide (block_hash_ a = block_hash_ b) && bool_decide (validatorSig_ a = validatorSig_ b).

Definition what (e : exn) : string :=
  match e with
  | DynamicException msg | RuntimeError msg => msg
  | OverflowError => "overflow" | UnderflowError => "underflow" | DomainError => "domain"
  | InvalidArgument => "invalid argument" | OutOfRange => "out of range"
  | RangeError => "range" | LengthError => "length" | FutureError => "std::future_error: Promise already satisfied"
  | Undefined => ""
  end.

(** The constructor's [catch (std::exception &e)]; undefined behaviour is not an exception. *)
Definition block_rethrow {A} (r : result A) : result A :=
  match r with
  | Throw Undefined => Throw Undefined
  | Throw e => Throw (DynamicException ("Block: " +:+ what e))
  | Ok a => Ok a
  end.

Section Block.
Context {LS : LibSecp256k1} {BB : BoostBits} {KC : Keccak}.

Definition serializeHeader (b : Block) : list Z :=
  prevBlockHash_ b ++ blockRandomness_ b ++ validatorMerkleRoot_ b ++ txMerkleRoot_ b
  ++ uint64ToBytes (timestamp_ b) ++ uint64ToBytes (nHeight_ b).

(** A transaction in a block: its size on 4 bytes and its bytes. *)
Definition with_size (txBytes : list Z) : list Z :=
  uint32ToBytes (Z.of_nat (length txBytes) mod 2 ^ 32) ++ txBytes.

(** [rlpSerialize()], whose default includes the signature. *)
Definition tx_bytes (tx : TxBlock) : list Z := TxBlock_rlpSerialize tx true.
Definition val_bytes (tx : TxValidator) : list Z := TxValidator_rlpSerialize tx true.

Definition serialize_txs (txs : list TxBlock) : list Z :=
  concat (map (λ tx, with_size (tx_bytes tx)) txs).

Definition serialize_txValidators (txs : list TxValidator) : list Z :=
  concat (map (λ tx, with_size (val_bytes tx)) txs).

Definition serializeBlock (b : Block) : list Z :=
  let head := validatorSig_ b ++ serializeHeader b in
  let txs := serialize_txs (txs_ b) in
  head ++ uint64ToBytes (Z.of_nat (length head + 8 + length txs)) ++ txs
  ++ serialize_txValidators (txValidators_ b).

(** ** Reading the transactions *)

Definition read_size (bytes : list Z) (index : nat) : result nat :=
  bs ← subspan bytes index 4; n ← bytesToUint32 bs; Ok (Z.to_nat n).

(** [while (index < end) { txSize = ...; index += txSize + 4; count++; }]; every turn moves the
    index by at least 4, so the length of the buffer is enough fuel. *)
Fixpoint count_txs (fuel : nat) (bytes : list Z) (index stop count : nat) : result nat :=
  if (index <? stop)%nat then
    match fuel with
    | O => Throw Undefined
    | S fuel => txSize ← read_size bytes index; count_txs fuel bytes (index + (txSize + 4)) stop (S count)
    end
  else Ok count.

(** [n] transactions from [index]; the result carries the index after them. *)
Fixpoint read_txs (n : nat) (bytes : list Z) (index : nat) : result (list TxBlock * nat) :=
  match n with
  | O => Ok ([], index)
  | S n =>
      txSize ← read_size bytes index;
      txBytes ← subspan bytes (index + 4) txSize;
      tx ← TxBlock_parse txBytes;
      '(txs, index) ← read_txs n bytes (index + 4 + txSize);
      Ok (tx :: txs, index)
  end.

(** The offset after [n] transactions, computed by the main thread between two [std::async]. *)
Fixpoint skip_txs (n : nat) (bytes : list Z) (thrOff : nat) : result nat :=
  match n with
  | O => Ok thrOff
  | S n => len ← read_size bytes thrOff; skip_txs n bytes (thrOff + (len + 4))
  end.

(** The start offset of every thread; nothing is skipped after the last one. *)
Fixpoint thread_offsets (txsPerThr : list nat) (bytes : list Z) (thrOff : nat)
    : result (list (nat * nat)) :=
  match txsPerThr with
  | [] => Ok []
  | [n] => Ok [(thrOff, n)]
  | n :: rest =>
      thrOff' ← skip_txs n bytes thrOff;
      ws ← thread_offsets rest bytes thrOff';
      Ok ((thrOff, n) :: ws)
  end.

(** [f[i].wait(); f[i].get()] in the order of the threads; a thread's exception is rethrown there. *)
Fixpoint join_threads (bytes : list Z) (work : list (nat * nat)) : result (list TxBlock) :=
  match work with
  | [] => Ok []
  | (startIdx, nTxs) :: work =>
      '(txVec, _) ← read_txs nTxs bytes startIdx;
      rest ← join_threads bytes work;
      Ok (txVec ++ rest)
  end.

Definition txs_per_thread (thrNum txCount : nat) : list nat :=
  replicate (thrNum - 1) (txCount / thrNum)%nat ++ [(txCount / thrNum + txCount mod thrNum)%nat].

Definition read_txs_parallel (thrNum txCount : nat) (bytes : list Z) (index : nat)
    : result (list TxBlock) :=
  work ← thread_offsets (txs_per_thread thrNum txCount) bytes index;
  join_threads bytes work.

Definition read_block_txs (txCount : nat) (bytes : list Z) : result (list TxBlock) :=
  if (txCount <=? 2000)%nat then '(txs, _) ← read_txs txCount bytes 217; Ok txs
  else read_txs_parallel 4 txCount bytes 217.

Fixpoint read_txValidators (n : nat) (bytes : list Z) (index : nat) (nHeight : Z)
    : result (list TxValidator) :=
  match n with
  | O => Ok []
  | S n =>
      txSize ← read_size bytes index;
      txBytes ← subspan bytes (index + 4) txSize;
      tx ← TxValidator_parse txBytes;
      _ ← throw_if (negb (vt_nHeight tx =? nHeight)) (DynamicException "Invalid validator tx height");
      txs ← read_txValidators n bytes (index + 4 + txSize) nHeight;
      Ok (tx :: txs)
  end.

Definition read_header (bytes : list Z) : result Block :=
  _ ← throw_if (Z.of_nat (length bytes) <? 217) (DynamicException "Invalid block size - too short");
  validatorSig ← subspan bytes 0 65;
  prevBlockHash ← subspan bytes 65 32;
  blockRandomness ← subspan bytes 97 32;
  validatorMerkleRoot ← subspan bytes 129 32;
  txMerkleRoot ← subspan bytes 161 32;
  ts ← subspan bytes 193 8; timestamp ← bytesToUint64 ts;
  hs ← subspan bytes 201 8; nHeight ← bytesToUint64 hs;
  Ok (mkBlock validatorSig prevBlockHash blockRandomness validatorMerkleRoot txMerkleRoot
        timestamp nHeight [] [] UPubKey_zero false zero_hash).

Definition with_txs (b : Block) (txs : list TxBlock) (vals : list TxValidator) : Block :=
  mkBlock (validatorSig_ b) (prevBlockHash_ b) (blockRandomness_ b) (validatorMerkleRoot_ b)
    (txMerkleRoot_ b) (timestamp_ b) (nHeight_ b) vals txs (validatorPubKey_ b) (finalized_ b)
    (block_hash_ b).

Definition tx_root (txs : list TxBlock) : list Z := getRoot (Merkle_of (map hash_ txs)).
Definition val_root (txs : list TxValidator) : list Z := getRoot (Merkle_of (map vt_hash txs)).

(** The checks after the transactions are read, and the signer's key. *)
Definition check_block (b : Block) : result Block :=
  _ ← throw_if (bool_decide (tx_root (txs_ b) ≠ txMerkleRoot_ b))
        (DynamicException "Invalid tx merkle root");
  _ ← throw_if (bool_decide (val_root (txValidators_ b) ≠ validatorMerkleRoot_ b))
        (DynamicException "Invalid validator merkle root");
  _ ← throw_if (bool_decide (parseTxSeedList (txValidators_ b) ≠ blockRandomness_ b))
        (DynamicException "Invalid block randomness");
  let hash := sha3 (serializeHeader b) in
  let sig := validatorSig_ b in
  _ ← throw_if (negb (verifySig (sig_r sig) (sig_s sig) (sig_v sig)))
        (DynamicException "Invalid validator signature");
  Ok (mkBlock sig (prevBlockHash_ b) (blockRandomness_ b) (validatorMerkleRoot_ b)
        (txMerkleRoot_ b) (timestamp_ b) (nHeight_ b) (txValidators_ b) (txs_ b)
        (recover sig hash) true hash).

Definition Block_parse_body (bytes : list Z) : result Block :=
  b ← read_header bytes;
  ss ← subspan bytes 209 8; start ← bytesToUint64 ss;
  let txValidatorStart := Z.to_nat start in
  txCount ← count_txs (length bytes) bytes 217 txValidatorStart 0;
  valTxCount ← count_txs (length bytes) bytes txValidatorStart (length bytes) 0;
  txs ← read_block_txs txCount bytes;
  vals ← read_txValidators valTxCount bytes txValidatorStart (nHeight_ b);
  check_block (with_txs b txs vals).

Definition Block_parse (bytes : list Z) : result Block := block_rethrow (Block_parse_body bytes).

(** ** Building a block *)

Definition appendTx (b : Block) (tx : TxBlock) : bool * Block :=
  if finalized_ b then (false, b)
  else (true, with_txs b (txs_ b ++ [tx]) (txValidators_ b)).

Definition appendTxValidator (b : Block) (tx : TxValidator) : bool * Block :=
  if finalized_ b then (false, b)
  else (true, with_txs b (txs_ b) (txValidators_ b ++ [tx])).

Definition finalize (b : Block) (validatorPrivKey : list Z) (newTimestamp : Z) : bool * Block :=
  if finalized_ b then (false, b)
  else if newTimestamp <? timestamp_ b then (false, b)
  else
    let b1 := mkBlock (validatorSig_ b) (prevBlockHash_ b) (parseTxSeedList (txValidators_ b))
                (val_root (txValidators_ b)) (tx_root (txs_ b)) newTimestamp (nHeight_ b)
                (txValidators_ b) (txs_ b) (validatorPubKey_ b) false (block_hash_ b) in
    let hash := sha3 (serializeHeader b1) in
    let sig := sign hash validatorPrivKey in
    (true, mkBlock sig (prevBlockHash_ b1) (blockRandomness_ b1) (validatorMerkleRoot_ b1)
             (txMerkleRoot_ b1) (timestamp_ b1) (nHeight_ b1) (txValidators_ b1) (txs_ b1)
             (recover sig hash) true hash).

(** ** The parallel reading returns what the sequential one does *)

Lemma read_txs_app a c bytes i :
  read_txs (a + c) bytes i =
  ('(t1, j) ← read_txs a bytes i; '(t2, k) ← read_txs c bytes j; Ok (t1 ++ t2, k)).
Proof.
  revert i. induction a as [|a IH]; intros i; cbn [Nat.add read_txs].
  - cbn. by destruct (read_txs c bytes i) as [[]|].
  - destruct (read_size bytes i) as [n|]; [|done]. cbn [mbind result_bind].
    destruct (subspan bytes (i + 4) n); [|done]. cbn [mbind result_bind].
    destruct (TxBlock_parse _); [|done]. cbn [mbind result_bind]. rewrite IH.
    destruct (read_txs a bytes (i + 4 + n)) as [[t1 j]|]; [|done]. cbn [mbind result_bind].
    by destruct (read_txs c bytes j) as [[t2 k]|].
Qed.

Lemma skip_txs_app a c bytes i :
  skip_txs (a + c) bytes i = (j ← skip_txs a bytes i; skip_txs c bytes j).
Proof.
  revert i. induction a as [|a IH]; intros i; [done|]. cbn [Nat.add skip_txs].
  destruct (read_size bytes i); [|done]. apply IH.
Qed.

Lemma read_txs_skip n bytes i ts j : read_txs n bytes i = Ok (ts, j) → skip_txs n bytes i = Ok j.
Proof.
  revert i ts j. induction n as [|n IH]; intros i ts j; cbn [read_txs skip_txs]; [by intros [= _ <-]|].
  intros (k & -> & H)%result_bind_ok. cbn [mbind result_bind].
  apply result_bind_ok in H as (? & _ & H). apply result_bind_ok in H as (? & _ & H).
  apply result_bind_ok in H as ([ts' j'] & H & [= _ <-]%Ok_inj).
  replace (i + (k + 4))%nat with (i + 4 + k)%nat by lia. by eapply IH.
Qed.

Lemma thread_offsets_cons n rest bytes i :
  rest ≠ [] →
  thread_offsets (n :: rest) bytes i =
  (k ← skip_txs n bytes i; work ← thread_offsets rest bytes k; Ok ((i, n) :: work)).
Proof. by destruct rest. Qed.

Lemma thread_offsets_defined ws bytes i j :
  skip_txs (sum_list ws) bytes i = Ok j → ∃ work, thread_offsets ws bytes i = Ok work.
Proof.
  revert i. induction ws as [|n ws IH]; intros i; [by eexists|].
  change (sum_list (n :: ws)) with (n + sum_list ws)%nat. rewrite skip_txs_app.
  intros (k & Hk & Hs)%result_bind_ok. destruct (IH _ Hs) as [work Hw].
  destruct (decide (ws = [])) as [->|Hne]; [by eexists|].
  rewrite thread_offsets_cons, Hk by done. cbn [mbind result_bind]. rewrite Hw. by eexists.
Qed.

Lemma threads_sequential ws bytes i j :
  ws ≠ [] → skip_txs (sum_list ws) bytes i = Ok j →
  (work ← thread_offsets ws bytes i; join_threads bytes work) =
  ('(txs, _) ← read_txs (sum_list ws) bytes i; Ok txs).
Proof.
  revert i. induction ws as [|n ws IH]; intros i Hws Hskip; [done|].
  destruct ws as [|m ws].
  - cbn. rewrite Nat.add_0_r. destruct (read_txs n bytes i) as [[]|]; [|done]. cbn.
    by rewrite app_nil_r.
  - assert (Hne : m :: ws ≠ []) by done. generalize dependent (m :: ws). intros rest IH _ Hskip Hne.
    change (sum_list (n :: rest)) with (n + sum_list rest)%nat in *.
    rewrite skip_txs_app in Hskip. apply result_bind_ok in Hskip as (k & Hk & Hskip).
    specialize (IH k ltac:(done) Hskip).
    rewrite thread_offsets_cons, Hk, read_txs_app by done. cbn [mbind result_bind].
    destruct (read_txs n bytes i) as [[t1 j1]|e] eqn:Ht.
    + apply read_txs_skip in Ht as Hk'. rewrite Hk in Hk'. apply Ok_inj in Hk' as <-.
      destruct (thread_offsets rest bytes k) as [work|]; cbn [mbind result_bind] in IH |- *.
      * cbn [join_threads]. rewrite Ht. cbn [mbind result_bind]. rewrite IH.
        by destruct (read_txs (sum_list rest) bytes k) as [[]|].
      * by destruct (read_txs (sum_list rest) bytes k) as [[]|].
    + destruct (thread_offsets rest bytes k) as [work|e'] eqn:Hw; cbn [mbind result_bind] in IH |- *.
      * cbn [join_threads]. by rewrite Ht.
      * apply thread_offsets_defined in Hskip as [work Hwork]. congruence.
Qed.

Lemma sum_txs_per_thread thrNum txCount :
  (0 < thrNum)%nat → sum_list (txs_per_thread thrNum txCount) = txCount.
Proof.
  intros Ht. unfold txs_per_thread.
  rewrite sum_list_with_app, sum_list_replicate. cbn [sum_list_with]. unfold id.
  assert (Hd := Nat.div_mod_eq txCount thrNum). nia.
Qed.

(** reading a block's transactions with several threads gives exactly what the sequential loop
    gives, the same transactions in the same order or the same exception, whatever the number of
    threads, once the buffer was found to hold that many transactions. *)
Theorem parallel_equals_sequential thrNum txCount bytes index stop :
  (0 < thrNum)%nat → skip_txs txCount bytes index = Ok stop →
  read_txs_parallel thrNum txCount bytes index =
  ('(txs, _) ← read_txs txCount bytes index; Ok txs).
Proof.
  intros Ht Hs. unfold read_txs_parallel.
  rewrite <- (sum_txs_per_thread thrNum txCount) in Hs by done.
  rewrite (threads_sequential _ _ _ stop); [by rewrite sum_txs_per_thread| |done].
  unfold txs_per_thread. by destruct (replicate _ _).
Qed.

(** ** The counting loop *)

Lemma count_txs_skip fuel bytes i stop c n :
  count_txs fuel bytes i stop c = Ok n → ∃ k j, n = (c + k)%nat ∧ skip_txs k bytes i = Ok j.
Proof.
  revert i c. induction fuel as [|fuel IH]; intros i c; cbn [count_txs];
    (destruct (i <? stop)%nat; [|intros [= <-]; exists 0%nat, i; split; [lia|done]]); [done|].
  intros (m & Hm & H)%result_bind_ok. apply IH in H as (k & j & -> & Hk).
  exists (S k), j. split; [lia|]. cbn [skip_txs]. by rewrite Hm.
Qed.

Lemma subspan_ok {A} (l : list A) i n xs : subspan l i n = Ok xs → (i + n ≤ length l)%nat.
Proof. unfold subspan. by case_decide. Qed.

(** The fuel of [count_txs] is enough: the buffer's length gives the same result as any more. *)
Lemma count_txs_fuel bytes fuel extra i stop c :
  (length bytes < i + 4 * S fuel)%nat →
  count_txs fuel bytes i stop c = count_txs (fuel + extra) bytes i stop c ∨ (stop ≤ i)%nat ∨
  read_size bytes i = Throw Undefined.
Proof.
  revert i c. induction fuel as [|fuel IH]; intros i c Hl.
  - right. right. unfold read_size, subspan. rewrite decide_False by lia. done.
  - destruct (read_size bytes i) as [m|e] eqn:Hm.
    + left. cbn [count_txs Nat.add]. destruct (i <? stop)%nat; [|done]. rewrite Hm.
      cbn [mbind result_bind].
      destruct (IH (i + (m + 4))%nat (S c) ltac:(lia)) as [H|[H|H]]; [done|..].
      * apply Nat.ltb_ge in H. destruct fuel, extra; cbn [count_txs Nat.add]; by rewrite H.
      * destruct (i + (m + 4) <? stop)%nat eqn:Hs.
        -- destruct fuel, extra; cbn [count_txs Nat.add]; rewrite Hs, ?H; done.
        -- destruct fuel, extra; cbn [count_txs Nat.add]; by rewrite Hs.
    + left. cbn [count_txs Nat.add]. destruct (i <? stop)%nat; [|done]. by rewrite Hm.
Qed.

(** ** Reading what was serialised *)

Definition sized (x : list Z) : Prop := Z.of_nat (length x) < 2 ^ 32.

Lemma with_size_length x : length (with_size x) = (4 + length x)%nat.
Proof. unfold with_size. by rewrite length_app, uint32ToBytes_encode, be_encode_length. Qed.

Lemma read_size_spec bytes i x rest :
  sized x → drop i bytes = with_size x ++ rest →
  read_size bytes i = Ok (length x) ∧ subspan bytes (i + 4) (length x) = Ok x ∧
  drop (i + 4 + length x) bytes = rest.
Proof.
  intros Hx Hd. unfold sized in Hx. unfold with_size in Hd.
  rewrite Z.mod_small in Hd by lia. rewrite <- app_assoc in Hd.
  set (h := uint32ToBytes (Z.of_nat (length x))) in *.
  assert (Hh : length h = 4%nat) by (unfold h; rewrite uint32ToBytes_encode; apply be_encode_length).
  assert (Hi : (i + 4 ≤ length bytes)%nat).
  { apply (f_equal length) in Hd. rewrite length_drop, !length_app in Hd. lia. }
  assert (Hd1 := drop_app_next _ _ _ _ Hd). rewrite Hh in Hd1.
  split; [|split].
  - unfold read_size. rewrite (subspan_drop _ _ 4 h (x ++ rest)) by (done || lia).
    cbn [mbind result_bind]. unfold h. rewrite bytesToUint32_roundtrip by (unfold in_uint; lia).
    cbn [mbind result_bind]. f_equal. lia.
  - by rewrite (subspan_drop _ _ _ x rest).
  - by apply drop_app_next.
Qed.

Lemma count_txs_spec items bytes i rest fuel c :
  Forall sized items → (length items ≤ fuel)%nat →
  drop i bytes = concat (map with_size items) ++ rest →
  count_txs fuel bytes i (i + length (concat (map with_size items))) c = Ok (c + length items)%nat.
Proof.
  intros Hs. revert i fuel c. induction Hs as [|x items Hx Hs IH]; intros i fuel c Hf Hd.
  - cbn. rewrite Nat.add_0_r. destruct fuel; cbn [count_txs]; by rewrite Nat.ltb_irrefl, Nat.add_0_r.
  - cbn [map concat] in *. rewrite <- app_assoc in Hd.
    destruct (read_size_spec _ _ _ _ Hx Hd) as (Hr & _ & Hd').
    destruct fuel as [|fuel]; [simpl in Hf; lia|]. cbn [count_txs].
    rewrite length_app, with_size_length.
    destruct (Nat.ltb_spec i (i + (4 + length x + length (concat (map with_size items))))); [|lia].
    rewrite Hr. cbn [mbind result_bind]. cbn [length] in Hf.
    replace (i + 4 + length x)%nat with (i + (length x + 4))%nat in Hd' by lia.
    specialize (IH _ fuel (S c) ltac:(lia) Hd').
    replace (i + (4 + length x + length (concat (map with_size items))))%nat with
      (i + (length x + 4) + length (concat (map with_size items)))%nat by lia.
    rewrite IH. f_equal. cbn [length]. lia.
Qed.

(** What a transaction of a block must be for the parser to read it: its bytes fit the 4-byte size, its fields their
    types, the nonce and the gas limit 64 bits, its data is not of 55 bytes, and its sender and hash are those of its
    signature. *)
Definition tx_readable (tx : TxBlock) : Prop :=
  sized (tx_bytes tx) ∧ TxBlock_typed tx ∧ TxBlock_parseable tx ∧ TxBlock_signed tx.
Definition val_readable (tx : TxValidator) : Prop :=
  sized (val_bytes tx) ∧ TxValidator_typed tx ∧ TxValidator_signed tx (vt_v tx - (vt_chainId tx * 2 + 35)).

Lemma tx_readable_parses tx : tx_readable tx → sized (tx_bytes tx) ∧ TxBlock_parse (tx_bytes tx) = Ok tx.
Proof. intros (Hz & Ht & Hp & Hs). split; [done|]. by apply parse_serialize_aux. Qed.
Lemma val_readable_parses tx : val_readable tx → sized (val_bytes tx) ∧ TxValidator_parse (val_bytes tx) = Ok tx.
Proof. intros (Hz & Ht & Hs). split; [done|]. by eapply val_parse_serialize_aux. Qed.

Lemma read_txs_S n bytes i :
  read_txs (S n) bytes i =
  (txSize ← read_size bytes i;
   txBytes ← subspan bytes (i + 4) txSize;
   tx ← TxBlock_parse txBytes;
   '(txs, index) ← read_txs n bytes (i + 4 + txSize);
   Ok (tx :: txs, index)).
Proof. reflexivity. Qed.

Lemma read_txs_spec txs bytes i rest :
  Forall tx_readable txs → drop i bytes = serialize_txs txs ++ rest →
  ∃ j, read_txs (length txs) bytes i = Ok (txs, j).
Proof.
  intros Hs. revert i. induction Hs as [|tx txs [Hz Hp]%tx_readable_parses Hs IH]; intros i Hd; [by eexists|].
  unfold serialize_txs in Hd. cbn [map concat] in Hd. rewrite <- app_assoc in Hd.
  destruct (read_size_spec _ _ _ _ Hz Hd) as (Hr & Hx & Hd').
  destruct (IH _ Hd') as [j Hj]. exists j. cbn [length]. rewrite read_txs_S, Hr.
  rewrite result_bind_Ok, Hx, result_bind_Ok, Hp, result_bind_Ok, Hj. reflexivity.
Qed.

Lemma read_block_txs_spec txs bytes rest :
  Forall tx_readable txs → drop 217 bytes = serialize_txs txs ++ rest →
  read_block_txs (length txs) bytes = Ok txs.
Proof.
  intros Hs Hd. destruct (read_txs_spec txs bytes 217 rest Hs Hd) as [j Hj].
  unfold read_block_txs. destruct (length txs <=? 2000)%nat; [by rewrite Hj|].
  unfold read_txs_parallel. assert (Hk := read_txs_skip _ _ _ _ _ Hj).
  rewrite <- (sum_txs_per_thread 4 (length txs)) in Hk by lia.
  rewrite (threads_sequential _ _ _ j) by (done || unfold txs_per_thread; by destruct (replicate _ _)).
  rewrite sum_txs_per_thread by lia. by rewrite Hj.
Qed.

Lemma read_txValidators_spec txs bytes i rest h :
  Forall val_readable txs → Forall (λ tx, vt_nHeight tx = h) txs →
  drop i bytes = serialize_txValidators txs ++ rest →
  read_txValidators (length txs) bytes i h = Ok txs.
Proof.
  intros Hs. revert i. induction Hs as [|tx txs [Hz Hp]%val_readable_parses Hs IH]; intros i Hh Hd; [done|].
  apply Forall_cons in Hh as [Hth Hh].
  unfold serialize_txValidators in Hd. cbn [map concat] in Hd. rewrite <- app_assoc in Hd.
  destruct (read_size_spec _ _ _ _ Hz Hd) as (Hr & Hx & Hd').
  cbn [length read_txValidators].
  rewrite Hr. cbn [mbind result_bind]. rewrite Hx. cbn [mbind result_bind]. rewrite Hp.
  cbn [mbind result_bind]. rewrite Hth, Z.eqb_refl. cbn [negb throw_if mbind result_bind].
  by rewrite (IH _ Hh Hd').
Qed.

(** ** Round trip of a finalized block *)

Definition Block_header_typed (b : Block) : Prop :=
  length (validatorSig_ b) = 65%nat ∧ length (prevBlockHash_ b) = 32%nat ∧
  length (blockRandomness_ b) = 32%nat ∧ length (validatorMerkleRoot_ b) = 32%nat ∧
  length (txMerkleRoot_ b) = 32%nat ∧ in_uint 64 (timestamp_ b) ∧ in_uint 64 (nHeight_ b).

#[export] Instance Block_header_typed_dec b : Decision (Block_header_typed b).
Proof. unfold Block_header_typed. apply _. Defined.

Lemma read_header_spec b rest :
  Block_header_typed b → (8 ≤ length rest)%nat →
  let bytes := validatorSig_ b ++ serializeHeader b ++ rest in
  read_header bytes = Ok (mkBlock (validatorSig_ b) (prevBlockHash_ b) (blockRandomness_ b)
    (validatorMerkleRoot_ b) (txMerkleRoot_ b) (timestamp_ b) (nHeight_ b) [] [] UPubKey_zero false
    zero_hash) ∧ drop 209 bytes = rest.
Proof.
  intros (Hs & Hp & Hr & Hv & Ht & Hts & Hh) Hrest bytes.
  assert (Hd : drop 0 bytes = validatorSig_ b ++ prevBlockHash_ b ++ blockRandomness_ b ++
    validatorMerkleRoot_ b ++ txMerkleRoot_ b ++ uint64ToBytes (timestamp_ b) ++
    uint64ToBytes (nHeight_ b) ++ rest).
  { unfold bytes, serializeHeader. by rewrite <- !app_assoc. }
  assert (Hsize : (length bytes = 209 + length rest)%nat).
  { change bytes with (drop 0 bytes). rewrite Hd, !length_app, !uint64_len. lia. }
  clearbody bytes. unfold read_header.
  destruct (Z.ltb_spec (Z.of_nat (length bytes)) 217); [lia|]. cbn [throw_if mbind result_bind].
  step_span Hd Hsize. step_span Hd Hsize. step_span Hd Hsize. step_span Hd Hsize. step_span Hd Hsize.
  step_span Hd Hsize. rewrite bytesToUint64_roundtrip by done. cbn [mbind result_bind].
  step_span Hd Hsize. rewrite bytesToUint64_roundtrip by done. cbn [mbind result_bind].
  split; [reflexivity|exact Hd].
Qed.

(** A block as [finalize] leaves it: the roots, the randomness, the hash and the key are those of its
    contents, and the signature is within the curve's bounds. *)
Definition Block_sealed (b : Block) : Prop :=
  tx_root (txs_ b) = txMerkleRoot_ b ∧ val_root (txValidators_ b) = validatorMerkleRoot_ b ∧
  parseTxSeedList (txValidators_ b) = blockRandomness_ b ∧
  block_hash_ b = sha3 (serializeHeader b) ∧
  verifySig (sig_r (validatorSig_ b)) (sig_s (validatorSig_ b)) (sig_v (validatorSig_ b)) = true ∧
  validatorPubKey_ b = recover (validatorSig_ b) (block_hash_ b) ∧ finalized_ b = true.

Definition Block_readable (b : Block) : Prop :=
  Forall tx_readable (txs_ b) ∧ Forall val_readable (txValidators_ b) ∧
  Forall (λ tx, vt_nHeight tx = nHeight_ b) (txValidators_ b) ∧
  Z.of_nat (length (serializeBlock b)) < 2 ^ 64.

Lemma check_block_sealed b :
  Block_sealed b →
  check_block (with_txs (mkBlock (validatorSig_ b) (prevBlockHash_ b) (blockRandomness_ b)
    (validatorMerkleRoot_ b) (txMerkleRoot_ b) (timestamp_ b) (nHeight_ b) [] [] UPubKey_zero false
    zero_hash) (txs_ b) (txValidators_ b)) = Ok b.
Proof.
  intros (Ht & Hv & Hr & Hh & Hs & Hk & Hf). unfold check_block. destruct b; cbn in *. subst.
  rewrite !bool_decide_eq_false_2 by (intros Hne; by apply Hne).
  unfold throw_if. cbn [mbind result_bind]. by rewrite Hs.
Qed.

Lemma with_size_count items : (length items ≤ length (concat (map with_size items)))%nat.
Proof.
  induction items as [|x l IH]; [done|]. cbn [map concat length].
  rewrite length_app, with_size_length. lia.
Qed.

Lemma concat_with_size {A} (f : A → list Z) l :
  concat (map (λ x, with_size (f x)) l) = concat (map with_size (map f l)).
Proof. by rewrite map_map. Qed.

Lemma block_parse_serialize b :
  Block_header_typed b → Block_sealed b → Block_readable b →
  Block_parse (serializeBlock b) = Ok b.
Proof.
  intros Ht Hs (Htx & Hval & Hheights & Hsize). unfold Block_parse, Block_parse_body.
  set (T := serialize_txs (txs_ b)). set (V := serialize_txValidators (txValidators_ b)).
  set (start := Z.of_nat (length (validatorSig_ b ++ serializeHeader b) + 8 + length T)).
  set (bytes := serializeBlock b) in *.
  assert (Hb : bytes = validatorSig_ b ++ serializeHeader b ++ (uint64ToBytes start ++ T ++ V)).
  { unfold bytes, serializeBlock. fold T V start. by rewrite <- app_assoc. }
  assert (Hstart : start = Z.of_nat (217 + length T)).
  { unfold start, serializeHeader. rewrite !length_app, !uint64_len.
    destruct Ht as (-> & -> & -> & -> & -> & _). lia. }
  destruct (read_header_spec b (uint64ToBytes start ++ T ++ V)) as [Hh Hd]; [done| |].
  { rewrite length_app, uint64_len. lia. }
  rewrite <- Hb in Hh, Hd.
  assert (Hlen : length bytes = (217 + length T + length V)%nat).
  { rewrite Hb, !length_app, uint64_len. unfold serializeHeader. rewrite !length_app, !uint64_len.
    destruct Ht as (-> & -> & -> & -> & -> & _). lia. }
  rewrite Hh. cbn [mbind result_bind].
  rewrite (subspan_drop bytes 209 8 (uint64ToBytes start) (T ++ V)) by
    (done || apply uint64_len || (rewrite Hlen; lia)).
  cbn [mbind result_bind]. apply drop_app_next in Hd. rewrite uint64_len in Hd.
  change (209 + 8)%nat with 217%nat in Hd.
  rewrite bytesToUint64_roundtrip by (unfold in_uint; lia). cbn [mbind result_bind].
  replace (Z.to_nat start) with (217 + length T)%nat by lia.
  assert (Ht1 : T = concat (map with_size (map tx_bytes (txs_ b)))) by apply concat_with_size.
  assert (Hv1 : V = concat (map with_size (map val_bytes (txValidators_ b)))) by apply concat_with_size.
  assert (Hd2 := drop_app_next _ _ _ _ Hd).
  assert (Hct := with_size_count (map tx_bytes (txs_ b))). rewrite <- Ht1 in Hct.
  assert (Hcv := with_size_count (map val_bytes (txValidators_ b))). rewrite <- Hv1 in Hcv.
  rewrite Ht1 in Hd, Hd2. rewrite Hv1 in Hd. rewrite <- (app_nil_r V), Hv1 in Hd2.
  assert (C1 := count_txs_spec (map tx_bytes (txs_ b)) bytes 217 _ (length bytes) 0
    ltac:(apply Forall_map; eapply Forall_impl; [exact Htx|by intros ? [? _]]) ltac:(lia) Hd).
  assert (C2 := count_txs_spec (map val_bytes (txValidators_ b)) bytes _ _ (length bytes) 0
    ltac:(apply Forall_map; eapply Forall_impl; [exact Hval|by intros ? [? _]]) ltac:(lia) Hd2).
  rewrite <- Ht1 in C1, C2, Hd2. rewrite <- Hv1 in C2, Hd2. rewrite length_map in C1, C2.
  replace (217 + length T + length V)%nat with (length bytes) in C2 by lia.
  rewrite Nat.add_0_l in C1, C2. rewrite C1. cbn [mbind result_bind]. rewrite C2. cbn [mbind result_bind].
  rewrite (read_block_txs_spec _ bytes V Htx) by by rewrite Hd, <- Ht1, <- Hv1.
  cbn [mbind result_bind nHeight_].
  rewrite (read_txValidators_spec _ bytes _ [] _ Hval Hheights Hd2).
  cbn [mbind result_bind]. by rewrite check_block_sealed.
Qed.

(** C14: a finalized block, serialised and parsed again, is the same block: header, transactions in
    order, validator transactions, hash and signer's key. The header's fields are of their sizes ([Block_header_typed]),
    the roots, the randomness, the hash and the key are those of the contents and the signature is within the curve's
    bounds ([Block_sealed]); each transaction is well typed and signed, has a nonce and a gas limit of 64 bits, data that
    is not of 55 bytes and an RLP form of more than 55 and less than 2^32 bytes; each validator transaction likewise, with
    a chain id between 1 and 2^62 and the height of the block ([Block_readable]). *)
Theorem Block_roundtrip b :
  Block_header_typed b → Block_sealed b → Block_readable b →
  Block_parse (serializeBlock b) = Ok b.
Proof. apply block_parse_serialize. Qed.

Lemma parseTxSeedList_length txs : length (parseTxSeedList txs) = 32%nat.
Proof. destruct txs as [|tx txs]; [done|]. apply sha3_length. Qed.

(** [finalize] seals an open block whose timestamp does not go backwards, and only then; the
    sealed block carries the roots, the randomness and the signature of its own contents, the
    network accepts its bytes, and nothing can be appended to it afterwards. *)
Theorem finalize_sealed b key ts b' :
  finalize b key ts = (true, b') →
  verifySig (sig_r (validatorSig_ b')) (sig_s (validatorSig_ b')) (sig_v (validatorSig_ b')) = true →
  length (prevBlockHash_ b) = 32%nat → in_uint 64 ts → in_uint 64 (nHeight_ b) →
  timestamp_ b ≤ ts ∧ finalized_ b = false ∧ Block_sealed b' ∧
  (Block_readable b' → Block_parse (serializeBlock b') = Ok b') ∧
  (∀ tx, appendTx b' tx = (false, b')) ∧ (∀ tx, appendTxValidator b' tx = (false, b')) ∧
  (∀ key ts', finalize b' key ts' = (false, b')).
Proof.
  unfold finalize. intros Hf Hsig Hp Hts Hh. destruct (finalized_ b); [discriminate|].
  destruct (Z.ltb_spec ts (timestamp_ b)); [discriminate|].
  injection Hf as <-. split; [lia|]. split; [done|].
  match goal with |- Block_sealed ?b ∧ _ => assert (Hs : Block_sealed b) by done end.
  split; [done|]. split; [|done]. intros Hr. apply block_parse_serialize; [|done|done].
  split; [apply sign_format|]. split; [done|]. split; [apply parseTxSeedList_length|].
  split; [apply getRoot_length|]. split; [apply getRoot_length|]. by split.
Qed.
End Block.

(** ** Witnesses *)

#[export] Instance tx_readable_dec {LS : LibSecp256k1} {BB : BoostBits} {KC : Keccak} tx :
  Decision (tx_readable tx).
Proof. unfold tx_readable, sized. apply _. Defined.
#[export] Instance val_readable_dec {LS : LibSecp256k1} {BB : BoostBits} {KC : Keccak} tx :
  Decision (val_readable tx).
Proof. unfold val_readable, sized. apply _. Defined.
#[export] Instance Block_readable_dec {LS : LibSecp256k1} {BB : BoostBits} {KC : Keccak} b :
  Decision (Block_readable b).
Proof. unfold Block_readable. apply _. Defined.
#[export] Instance Block_sealed_dec {LS : LibSecp256k1} {KC : Keccak} b :
  Decision (Block_sealed b).
Proof. unfold Block_sealed. apply _. Defined.

Definition toy_open_block : Block :=
  with_txs (Block_new (replicate 32 8) 1000 7) [toy_tx; toy_tx] [toy_val; toy_val].

Definition toy_sealed_block : Block :=
  (@finalize toy_secp boost_ref toy_hash toy_open_block (replicate 32 1) 2000).2.

Lemma Block_roundtrip_witness :
  @Block_parse toy_secp boost_ref toy_hash (serializeBlock toy_sealed_block) = Ok toy_sealed_block.
Proof.
  apply (@Block_roundtrip toy_secp boost_ref toy_hash toy_sealed_block).
  - by_compute.
  - by_compute.
  - by_compute.
Defined.

Lemma finalize_sealed_witness :
  timestamp_ toy_open_block ≤ 2000 ∧
  @Block_sealed toy_secp toy_hash toy_sealed_block.
Proof.
  destruct (@finalize_sealed toy_secp boost_ref toy_hash toy_open_block (replicate 32 1) 2000
    toy_sealed_block) as (H1 & _ & H2 & _).
  - by vm_compute.
  - by vm_compute.
  - reflexivity.
  - by_compute.
  - by_compute.
  - exact (conj H1 H2).
Defined.

Lemma parallel_equals_sequential_witness :
  let bytes := serializeBlock toy_sealed_block in
  @read_txs_parallel toy_secp boost_ref toy_hash 2 2 bytes 217
  = ('(txs, _) ← @read_txs toy_secp boost_ref toy_hash 2 bytes 217; Ok txs).
Proof.
  intros bytes.
  apply (@parallel_equals_sequential toy_secp boost_ref toy_hash 2 2 bytes 217 453).
  - lia.
  - by vm_compute.
Defined.
