(* ===== verification/P2PEncoding.v ===== *)
(** * P2PEncoding: the messages between nodes (src/net/p2p/encoding.{h,cpp})

    A message is a request type, an identifier of eight bytes, a command type and its data.  The clock, the
    random bytes and the version of the node are arguments of the encoders; a socket address of
    boost::asio is its bytes.  A cast to an enumeration of a value it cannot hold is undefined. *)

From S2P Require Import Prelude Bytes SizedInts Hashing ECDSA Tx TxValidator Randomness Block.

(** ** Messages *)

(** [enum RequestType] and [enum CommandType]; their variables hold 0..3 and 0..7. *)
Definition Requesting : Z := 0.
Definition Answering : Z := 1.
Definition Broadcasting : Z := 2.

Definition Ping : Z := 0.
Definition Info : Z := 1.
Definition RequestNodes : Z := 2.
Definition RequestValidatorTxs : Z := 3.
Definition BroadcastValidatorTx : Z := 4.
Definition BroadcastTx : Z := 5.
Definition BroadcastBlock : Z := 6.
Definition RequestTxs : Z := 7.

Definition typePrefixes : list (list Z) := [[0]; [1]; [2]].
Definition commandPrefixes : list (list Z) := [[0; 0]; [0; 1]; [0; 2]; [0; 3]; [0; 4]; [0; 5]; [0; 6]; [0; 7]].

(** [static_cast] to an enumeration whose largest value is [top]. *)
Definition enum_cast (top x : Z) : result Z := if x <=? top then Ok x else Throw Undefined.

Definition getCommandType (message : list Z) : result Z :=
  _ ← throw_if (negb (length message =? 2)%nat) (DynamicException "Invalid Command Type size.");
  commandType ← bytesToUint16 message;
  _ ← throw_if (Z.of_nat (length commandPrefixes) <? commandType) (DynamicException "Invalid command type.");
  enum_cast 7 commandType.

Definition getCommandPrefix (commType : Z) : result (list Z) := read_at commandPrefixes (Z.to_nat commType).

Definition getRequestType (message : list Z) : result Z :=
  _ ← throw_if (negb (length message =? 1)%nat) (DynamicException "Invalid Request Type size.");
  requestType ← bytesToUint8 message;
  _ ← throw_if (Z.of_nat (length typePrefixes) <? requestType) (DynamicException "Invalid request type.");
  enum_cast 3 requestType.

Definition getRequestTypePrefix (type : Z) : result (list Z) := read_at typePrefixes (Z.to_nat type).

Record Message := mkMessage { rawMessage_ : list Z }.

Definition Message_of (raw : list Z) : result Message :=
  _ ← throw_if (length raw <? 11)%nat (DynamicException "Invalid message size.");
  Ok (mkMessage raw).

Definition msg_type (m : Message) : result Z := b ← subspan (rawMessage_ m) 0 1; getRequestType b.
Definition msg_id (m : Message) : result (list Z) := b ← subspan (rawMessage_ m) 1 8; FixedBytes_of 8 b.
Definition msg_command (m : Message) : result Z := b ← subspan (rawMessage_ m) 9 2; getCommandType b.
Definition msg_message (m : Message) : result (list Z) :=
  if decide (11 ≤ length (rawMessage_ m))%nat then Ok (drop 11 (rawMessage_ m)) else Throw Undefined.
Definition msg_size (m : Message) : nat := length (rawMessage_ m).

(** [FNVHash], on [size_t]. *)
Definition FNVHash (s : list Z) : Z := foldl (λ result b, Z.lxor ((16777619 * result) mod 2 ^ 64) b) 2166136261 s.

(** The bytes of a message with data. *)
Definition build (type : Z) (id : list Z) (command : Z) (data : list Z) : result Message :=
  t ← getRequestTypePrefix type;
  c ← getCommandPrefix command;
  Message_of (t ++ id ++ c ++ data).

Record NodeInfo := mkNodeInfo {
  nodeVersion : Z;
  currentTimestamp : Z;
  latestBlockHeight : Z;
  latestBlockHash : list Z
}.

(** A [boost::asio::ip::address]: version 4 or 6. *)
Inductive address := V4 (b : list Z) | V6 (b : list Z).

#[export] Instance address_eq_dec : EqDecision address.
Proof. solve_decision. Defined.
#[export] Instance address_countable : Countable address.
Proof.
  refine (inj_countable' (λ a, match a with V4 b => inl b | V6 b => inr b end) (λ s, match s with inl b => V4 b | inr b => V6 b end) _).
  by intros [].
Defined.

Abbreviation NodeID := (address * Z)%type.

(** [enum NodeType]: 0 or 1. *)
Definition NORMAL_NODE : Z := 0.
Definition DISCOVERY_NODE : Z := 1.

Definition bad_type : exn := DynamicException "Invalid message type.".
Definition bad_command : exn := DynamicException "Invalid command.".
Definition bad_data : exn := DynamicException "Invalid data size.".

(** ** Requests *)

Definition Request_ping (rnd : list Z) : result Message := build Requesting rnd Ping [].
Definition info_data (version currentEpoch : Z) (latestBlock : Block) : list Z :=
  uint64ToBytes version ++ uint64ToBytes currentEpoch ++ uint64ToBytes (nHeight_ latestBlock) ++ block_hash_ latestBlock.
Definition Request_info (rnd : list Z) (version currentEpoch : Z) (latestBlock : Block) : result Message :=
  build Requesting rnd Info (info_data version currentEpoch latestBlock).
Definition Request_requestNodes (rnd : list Z) : result Message := build Requesting rnd RequestNodes [].
Definition Request_requestValidatorTxs (rnd : list Z) : result Message := build Requesting rnd RequestValidatorTxs [].
Definition Request_requestTxs (rnd : list Z) : result Message := build Requesting rnd RequestTxs [].

(** The decoders of requests without data. *)
Definition plain_request (command : Z) (m : Message) : result bool :=
  if negb (msg_size m =? 11)%nat then Ok false else c ← msg_command m; Ok (c =? command).
Definition isPing : Message → result bool := plain_request Ping.
Definition isRequestNodes : Message → result bool := plain_request RequestNodes.
Definition isRequestValidatorTxs : Message → result bool := plain_request RequestValidatorTxs.
Definition isRequestTxs : Message → result bool := plain_request RequestTxs.

(** The four fields, after the checks of either decoder. *)
Definition read_info (m : Message) : result NodeInfo :=
  d ← msg_message m;
  v ← subspan d 0 8; nodeVersion ← bytesToUint64 v;
  e ← subspan d 8 8; nodeEpoch ← bytesToUint64 e;
  h ← subspan d 16 8; nodeHeight ← bytesToUint64 h;
  s ← subspan d 24 32; nodeHash ← FixedBytes_of 32 s;
  Ok (mkNodeInfo nodeVersion nodeEpoch nodeHeight nodeHash).

Definition Request_read_info (m : Message) : result NodeInfo :=
  _ ← throw_if (negb (msg_size m =? 67)%nat) (DynamicException "Invalid Info message size.");
  c ← msg_command m;
  _ ← throw_if (negb (c =? Info)) (DynamicException "Invalid Info message command.");
  read_info m.

(** ** Answers *)

Section answers.
Context {LS : LibSecp256k1} {BB : BoostBits} {KC : Keccak} {HO : HashOrder}.

(** An answer carries the identifier of its request. *)
Definition answer_message (request : Message) (command : Z) (data : list Z) : result Message :=
  id ← msg_id request; build Answering id command data.

Definition Answer_ping (request : Message) : result Message := answer_message request Ping [].
Definition Answer_info (request : Message) (version currentEpoch : Z) (latestBlock : Block) : result Message :=
  answer_message request Info (info_data version currentEpoch latestBlock).

Definition node_data (n : NodeID * Z) : list Z :=
  uint8ToBytes n.2 ++ uint8ToBytes (match n.1.1 with V4 _ => 0 | V6 _ => 1 end) ++
  match n.1.1 with V4 b => b | V6 b => b end ++ uint16ToBytes n.1.2.

(** [nodes] in the order in which the unordered map is iterated. *)
Definition Answer_requestNodes (request : Message) (nodes : list (NodeID * Z)) : result Message :=
  answer_message request RequestNodes (concat (map node_data nodes)).

(** The size of an RLP is cut to 32 bits. *)
Definition sized_data (rlp : list Z) : list Z := uint32ToBytes (Z.of_nat (length rlp)) ++ rlp.
Definition Answer_requestValidatorTxs (request : Message) (txs : gmap (list Z) TxValidator) : result Message :=
  answer_message request RequestValidatorTxs (concat (map (λ p, sized_data (TxValidator_rlpSerialize p.2 true)) (in_order txs))).
Definition Answer_requestTxs (request : Message) (txs : gmap (list Z) TxBlock) : result Message :=
  answer_message request RequestTxs (concat (map (λ p, sized_data (TxBlock_rlpSerialize p.2 true)) (in_order txs))).

Definition Answer_isPing (m : Message) : result bool :=
  if negb (msg_size m =? 11)%nat then Ok false
  else t ← msg_type m; if negb (t =? Answering) then Ok false else c ← msg_command m; Ok (c =? Ping).

(** The checks that begin the other decoders. *)
Definition check_answer (type command : Z) (m : Message) : result unit :=
  t ← msg_type m;
  _ ← throw_if (negb (t =? type)) bad_type;
  c ← msg_command m;
  throw_if (negb (c =? command)) bad_command.

Definition Answer_read_info (m : Message) : result NodeInfo := _ ← check_answer Answering Info m; read_info m.

(** [while (index < data.size())]: [read] gives an item and the index after it. *)
Fixpoint items_loop {A} (fuel : nat) (read : list Z → nat → result (A * nat)) (data : list Z) (index : nat) (acc : list A) : result (list A) :=
  if (index <? length data)%nat then
    match fuel with
    | O => Throw Undefined
    | S fuel => '(a, index) ← read data index; items_loop fuel read data index (acc ++ [a])
    end
  else Ok acc.

(** Every item takes a byte at least: [length data] iterations are enough. *)
Definition items {A} (read : list Z → nat → result (A * nat)) (data : list Z) : result (list A) :=
  items_loop (length data) read data 0 [].

Definition read_node (data : list Z) (index : nat) : result ((NodeID * Z) * nat) :=
  _ ← throw_if (length data <? 8)%nat bad_data;
  t ← subspan data index 1; ty ← bytesToUint8 t; nodeType ← enum_cast 1 ty;
  v ← subspan data (index + 1) 1; ipVersion ← bytesToUint8 v;
  let index := (index + 2)%nat in
  '(addr, index) ← (if ipVersion =? 0 then b ← subspan data index 4; Ok (V4 b, (index + 4)%nat)
                    else if ipVersion =? 1 then b ← subspan data index 16; Ok (V6 b, (index + 16)%nat)
                    else Throw (DynamicException "Invalid ip version."));
  p ← subspan data index 2; port ← bytesToUint16 p;
  Ok (((addr, port), nodeType), (index + 2)%nat).

(** The nodes, the first of equal ones kept. *)
Definition Answer_read_nodes (m : Message) : result (gmap NodeID Z) :=
  _ ← check_answer Answering RequestNodes m;
  data ← msg_message m;
  l ← items read_node data;
  Ok (foldl (λ t p, insert_new p.1 p.2 t) ∅ l).

(** The size is compared with the whole data, not with what is left of it. *)
Definition read_sized {A} (parse : list Z → result A) (data : list Z) (index : nat) : result (A * nat) :=
  _ ← throw_if (length data <? 4)%nat bad_data;
  s ← subspan data index 4; txSize ← bytesToUint32 s;
  _ ← throw_if (Z.of_nat (length data) <? txSize) bad_data;
  txData ← subspan data (index + 4) (Z.to_nat txSize);
  tx ← parse txData;
  Ok (tx, (index + 4 + Z.to_nat txSize)%nat).

Definition Answer_read_validatorTxs (m : Message) : result (list TxValidator) :=
  _ ← check_answer Answering RequestValidatorTxs m; data ← msg_message m; items (read_sized TxValidator_parse) data.
Definition Answer_read_txs (m : Message) : result (list TxBlock) :=
  _ ← check_answer Answering RequestTxs m; data ← msg_message m; items (read_sized TxBlock_parse) data.

(** ** Broadcasts: the identifier is the hash of the data *)

Definition broadcast (command : Z) (data : list Z) : result Message :=
  build Broadcasting (uint64ToBytes (FNVHash data)) command data.
Definition broadcastValidatorTx (tx : TxValidator) : result Message := broadcast BroadcastValidatorTx (TxValidator_rlpSerialize tx true).
Definition broadcastTx (tx : TxBlock) : result Message := broadcast BroadcastTx (TxBlock_rlpSerialize tx true).
Definition broadcastBlock (block : Block) : result Message := broadcast BroadcastBlock (serializeBlock block).

Definition read_broadcast {A} (command : Z) (parse : list Z → result A) (m : Message) : result A :=
  t ← msg_type m;
  _ ← throw_if (negb (t =? Broadcasting)) bad_type;
  i ← msg_id m; id ← bytesToUint64 i;
  d ← msg_message m;
  _ ← throw_if (negb (id =? FNVHash d)) (DynamicException "Invalid message id.");
  c ← msg_command m;
  _ ← throw_if (negb (c =? command)) bad_command;
  parse d.
Definition read_broadcastValidatorTx : Message → result TxValidator := read_broadcast BroadcastValidatorTx TxValidator_parse.
Definition read_broadcastTx : Message → result TxBlock := read_broadcast BroadcastTx TxBlock_parse.
Definition read_broadcastBlock : Message → result Block := read_broadcast BroadcastBlock Block_parse.
End answers.

(** ** Proofs *)


Lemma be_bytes_len n i : length (reverse (le_bytes n i)) = n.
Proof. by rewrite length_reverse, le_bytes_length. Qed.

Lemma FNVHash_range s : bytes_ok s → in_uint 64 (FNVHash s).
Proof.
  unfold FNVHash. assert (Hz : in_uint 64 2166136261) by (unfold in_uint; lia). revert Hz.
  generalize 2166136261 as r. induction s as [|b s IH]; intros r Hr Hs; [done|].
  apply Forall_cons in Hs as [Hb Hs]. cbn [foldl]. apply IH; [|done].
  assert (Hm := Z.mod_pos_bound (16777619 * r) (2 ^ 64) eq_refl). revert Hm. generalize ((16777619 * r) mod 2 ^ 64) as x. intros x Hx.
  unfold is_byte in Hb. assert (H0 : 0 ≤ Z.lxor x b) by (apply Z.lxor_nonneg; lia).
  unfold in_uint. split; [done|]. destruct (decide (Z.lxor x b = 0)) as [->|Hnz]; [done|].
  apply Z.log2_lt_pow2; [lia|]. assert (Hl := Z.log2_lxor x b ltac:(lia) ltac:(lia)).
  assert (Hx' := Z.log2_le_mono x (2 ^ 64 - 1) ltac:(lia)). assert (Hb' := Z.log2_le_mono b (2 ^ 64 - 1) ltac:(lia)).
  change (Z.log2 (2 ^ 64 - 1)) with 63 in *. lia.
Qed.

(** *** The fields of a built message *)

Definition is_command (c : Z) : Prop := 0 ≤ c ≤ 7.
Definition is_type (t : Z) : Prop := 0 ≤ t ≤ 2.

Definition raw (type : Z) (id : list Z) (command : Z) (data : list Z) : list Z := [type] ++ id ++ [0; command] ++ data.

Section raw.
Context (type : Z) (id : list Z) (command : Z) (data : list Z).
Hypothesis (Ht : is_type type) (Hc : is_command command) (Hid : length id = 8%nat).

Lemma raw_length : length (raw type id command data) = (11 + length data)%nat.
Proof. unfold raw. rewrite !length_app, Hid. cbn. lia. Qed.

Lemma build_ok : build type id command data = Ok (mkMessage (raw type id command data)).
Proof.
  unfold build, is_type, is_command in *.
  assert (getRequestTypePrefix type = Ok [type]) as ->.
  { assert (type = 0 ∨ type = 1 ∨ type = 2) as [->|[->| ->]] by lia; done. }
  assert (getCommandPrefix command = Ok [0; command]) as ->.
  { assert (command = 0 ∨ command = 1 ∨ command = 2 ∨ command = 3 ∨ command = 4 ∨ command = 5 ∨ command = 6 ∨ command = 7)
      as [->|[->|[->|[->|[->|[->|[->| ->]]]]]]] by lia; done. }
  rewrite !result_bind_Ok. unfold Message_of. assert (Hl := raw_length). unfold raw in Hl. rewrite Hl. done.
Qed.

Lemma msg_type_raw : msg_type (mkMessage (raw type id command data)) = Ok type.
Proof.
  unfold msg_type. cbn [rawMessage_]. unfold subspan. rewrite raw_length, decide_True, result_bind_Ok by lia.
  unfold is_type in Ht. assert (type = 0 ∨ type = 1 ∨ type = 2) as [->|[->| ->]] by lia; done.
Qed.

Lemma msg_id_raw : msg_id (mkMessage (raw type id command data)) = Ok id.
Proof.
  unfold msg_id. cbn [rawMessage_]. rewrite (subspan_drop _ _ _ id ([0; command] ++ data)); [|by rewrite raw_length; lia|done|done].
  rewrite result_bind_Ok. unfold FixedBytes_of. by rewrite decide_True.
Qed.

Lemma drop_raw : drop 9 (raw type id command data) = [0; command] ++ data.
Proof. unfold raw. change 9%nat with (S 8). cbn [app skipn]. by rewrite drop_app_length' by done. Qed.

Lemma msg_command_raw : msg_command (mkMessage (raw type id command data)) = Ok command.
Proof.
  unfold msg_command. cbn [rawMessage_]. rewrite (subspan_drop _ _ _ [0; command] data); [|by rewrite raw_length; lia|apply drop_raw|done].
  rewrite result_bind_Ok. unfold is_command in Hc.
  assert (command = 0 ∨ command = 1 ∨ command = 2 ∨ command = 3 ∨ command = 4 ∨ command = 5 ∨ command = 6 ∨ command = 7)
    as [->|[->|[->|[->|[->|[->|[->| ->]]]]]]] by lia; done.
Qed.

Lemma msg_message_raw : msg_message (mkMessage (raw type id command data)) = Ok data.
Proof.
  unfold msg_message. cbn [rawMessage_]. rewrite raw_length, decide_True by lia. change 11%nat with (9 + 2)%nat.
  by rewrite <- drop_drop, drop_raw.
Qed.
End raw.

(** *** The items of an answer *)

(** [read] gives back the item [a] wherever its encoding [enc a] stands. *)
Definition reads {A} (read : list Z → nat → result (A * nat)) (enc : A → list Z) (a : A) : Prop :=
  (0 < length (enc a))%nat ∧
  ∀ data i rest, (i ≤ length data)%nat → drop i data = enc a ++ rest → read data i = Ok (a, (i + length (enc a))%nat).

Lemma items_loop_spec {A} read (enc : A → list Z) data l : ∀ fuel i acc,
  Forall (reads read enc) l → (i ≤ length data)%nat → drop i data = concat (map enc l) → (length l ≤ fuel)%nat →
  items_loop fuel read data i acc = Ok (acc ++ l).
Proof.
  induction l as [|a l IH]; intros fuel i acc Hl Hi Hd Hf.
  - assert (length data = i) as <-. { assert (Hn := length_drop data i). rewrite Hd in Hn. cbn in Hn. lia. }
    rewrite app_nil_r. destruct fuel; cbn [items_loop]; by rewrite Nat.ltb_irrefl.
  - apply Forall_cons in Hl as [[Hpos Hr] Hl]. cbn [map concat] in Hd.
    assert (Hn := length_drop data i). rewrite Hd, length_app in Hn. cbn [length] in Hf.
    destruct fuel as [|fuel]; [lia|]. cbn [items_loop]. rewrite (proj2 (Nat.ltb_lt _ _)) by lia.
    rewrite (Hr _ _ _ Hi Hd), result_bind_Ok. cbv beta iota.
    rewrite IH; [by rewrite <- app_assoc|done|lia|by apply drop_app_next|lia].
Qed.

Lemma items_spec {A} read (enc : A → list Z) l : Forall (reads read enc) l → items read (concat (map enc l)) = Ok l.
Proof.
  intros Hl. unfold items. rewrite (items_loop_spec read enc _ l); [done..|lia|done|].
  clear -Hl. induction Hl as [|a l [Ha _] _ IH]; [done|]. cbn [map concat length]. rewrite length_app. lia.
Qed.

(** The addresses and ports of nodes are within their types. *)
Definition node_typed (n : NodeID * Z) : Prop :=
  (match n.1.1 with V4 b => length b = 4%nat | V6 b => length b = 16%nat end) ∧ in_uint 16 n.1.2 ∧ (n.2 = NORMAL_NODE ∨ n.2 = DISCOVERY_NODE).

#[export] Instance node_typed_dec n : Decision (node_typed n).
Proof. unfold node_typed, in_uint. destruct n as [[[b|b] p] t]; cbn; apply _. Defined.

Lemma node_data_length a port ty :
  node_typed (a, port, ty) → length (node_data (a, port, ty)) = (4 + match a with V4 _ => 4 | V6 _ => 16 end)%nat.
Proof.
  intros (Ha & _). cbn [fst snd] in Ha. unfold node_data, uint8ToBytes, uint16ToBytes. cbn [fst snd].
  rewrite !length_app, be_bytes_len, !le_bytes_length. destruct a; rewrite Ha; done.
Qed.

Lemma read_node_spec n : node_typed n → reads read_node node_data n.
Proof.
  destruct n as [[a port] ty]. intros Hn0. assert (Hlen := node_data_length _ _ _ Hn0). destruct Hn0 as (Ha & Hp & Hty).
  cbn [fst snd] in *. unfold reads. rewrite Hlen. split; [lia|]. intros data i rest Hi Hd.
  assert (Hn := length_drop data i). rewrite Hd, length_app, Hlen in Hn.
  unfold read_node. rewrite (proj2 (Nat.ltb_ge _ _)) by (destruct a; lia). cbn [throw_if]. rewrite result_bind_Ok.
  unfold node_data in Hd. cbn [fst snd] in *. rewrite <- !app_assoc in Hd.
  rewrite (subspan_drop data i 1 _ _ Hi Hd) by apply le_bytes_length. rewrite result_bind_Ok.
  rewrite bytesToUint8_roundtrip by (unfold in_uint; destruct Hty as [-> | ->]; done). rewrite result_bind_Ok.
  assert (enum_cast 1 ty = Ok ty) as -> by by destruct Hty as [-> | ->]. rewrite result_bind_Ok.
  apply drop_app_next in Hd. unfold uint8ToBytes at 1 in Hd. rewrite le_bytes_length in Hd.
  rewrite (subspan_drop data (i + 1) 1 _ _ ltac:(lia) Hd) by apply le_bytes_length. rewrite result_bind_Ok.
  apply drop_app_next in Hd. unfold uint8ToBytes at 1 in Hd. rewrite le_bytes_length in Hd.
  rewrite bytesToUint8_roundtrip by (unfold in_uint; destruct a; done). rewrite result_bind_Ok.
  replace (i + 1 + 1)%nat with (i + 2)%nat in Hd by lia.
  destruct a as [b|b]; cbv iota in Ha, Hn; cbn [Z.eqb Pos.eqb]; rewrite (subspan_drop data (i + 2) _ _ _ ltac:(lia) Hd) by done; rewrite !result_bind_Ok; cbv beta iota zeta;
    apply drop_app_next in Hd; rewrite Ha in Hd; match goal with |- context [subspan data ?j 2] => rewrite (subspan_drop data j 2 _ _ ltac:(lia) Hd) by apply be_bytes_len end;
    rewrite result_bind_Ok, bytesToUint16_roundtrip, result_bind_Ok by done; do 2 f_equal; lia.
Qed.

Lemma uint32_len x : length (uint32ToBytes x) = 4%nat.
Proof. apply be_bytes_len. Qed.

Lemma read_sized_spec {A} (parse : list Z → result A) (enc : A → list Z) a :
  Z.of_nat (length (enc a)) < 2 ^ 32 → parse (enc a) = Ok a → reads (read_sized parse) (λ a, sized_data (enc a)) a.
Proof.
  intros Hs Hp. unfold reads, sized_data. rewrite length_app, uint32_len. split; [lia|]. intros data i rest Hi Hd.
  rewrite <- app_assoc in Hd. assert (Hn := length_drop data i). rewrite Hd, !length_app, uint32_len in Hn.
  unfold read_sized. rewrite (proj2 (Nat.ltb_ge _ _)) by lia. cbn [throw_if]. rewrite result_bind_Ok.
  rewrite (subspan_drop data i 4 _ _ Hi Hd) by apply uint32_len. rewrite result_bind_Ok.
  rewrite bytesToUint32_roundtrip by (unfold in_uint; lia). rewrite result_bind_Ok.
  rewrite (proj2 (Z.ltb_ge _ _)) by lia. cbn [throw_if]. rewrite result_bind_Ok.
  apply drop_app_next in Hd. rewrite uint32_len in Hd. rewrite Nat2Z.id.
  rewrite (subspan_drop data (i + 4) _ _ _ ltac:(lia) Hd) by done. rewrite result_bind_Ok, Hp, result_bind_Ok. do 2 f_equal. lia.
Qed.

(** Keeping the first of the entries of a map keeps them all. *)
Lemma foldl_insert_new_entries {K A} `{Countable K} (m : gmap K A) l :
  l ≡ₚ map_to_list m → foldl (λ t (p : K * A), insert_new p.1 p.2 t) ∅ l = m.
Proof.
  intros Hl. rewrite <- (foldl_insert_entries m l Hl). assert (Hnd : NoDup l.*1) by (rewrite Hl; apply NoDup_fst_map_to_list).
  clear Hl. assert (He : ∀ k, k ∈ l.*1 → (∅ : gmap K A) !! k = None) by (intros; apply lookup_empty). revert He.
  generalize (∅ : gmap K A) as t. induction l as [|[k x] l IH]; intros t Ht; [done|]. cbn [foldl fst snd].
  apply NoDup_cons in Hnd as [Hk Hnd]. cbn [fst] in Hk. unfold insert_new at 2. rewrite Ht by (cbn; constructor).
  apply IH; [done|]. intros k' Hk'. rewrite lookup_insert_ne by (intros ->; done). apply Ht. cbn. by constructor 2.
Qed.

Section p2p_correctness.
Context {LS : LibSecp256k1} {BB : BoostBits} {KC : Keccak} {HO : HashOrder}.

Lemma msg_id_length m id : msg_id m = Ok id → length id = 8%nat.
Proof.
  unfold msg_id, FixedBytes_of. intros (b & _ & H)%result_bind_ok. case_decide; [|done]. by apply Ok_inj in H as <-.
Qed.

Lemma answer_ok request id command data :
  msg_id request = Ok id → is_command command → answer_message request command data = Ok (mkMessage (raw Answering id command data)).
Proof.
  intros Hi Hc. unfold answer_message. rewrite Hi, result_bind_Ok. apply build_ok; [done..|by eapply msg_id_length].
Qed.

Lemma check_answer_raw type id command data :
  is_type type → is_command command → length id = 8%nat → check_answer type command (mkMessage (raw type id command data)) = Ok tt.
Proof.
  intros Ht Hc Hi. unfold check_answer. rewrite msg_type_raw, result_bind_Ok, Z.eqb_refl by done. cbn [negb throw_if].
  by rewrite result_bind_Ok, msg_command_raw, result_bind_Ok, Z.eqb_refl by done.
Qed.

Lemma answer_items {A} request id command (read : list Z → nat → result (A * nat)) enc l :
  msg_id request = Ok id → is_command command → Forall (reads read enc) l →
  ∃ m, answer_message request command (concat (map enc l)) = Ok m ∧ msg_id m = Ok id ∧
    (_ ← check_answer Answering command m; data ← msg_message m; items read data) = Ok l.
Proof.
  intros Hi Hc Hl. assert (Hlen := msg_id_length _ _ Hi). eexists. split; [by apply answer_ok|].
  split; [by apply msg_id_raw|].
  rewrite check_answer_raw, result_bind_Ok, msg_message_raw, result_bind_Ok by done. by apply items_spec.
Qed.

(** What a node sends of its pools: contents the parser can represent, signed, of less than 2^32 bytes. *)
Definition tx_sendable (tx : TxBlock) : Prop :=
  TxBlock_typed tx ∧ TxBlock_parseable tx ∧ TxBlock_signed tx ∧ Z.of_nat (length (tx_bytes tx)) < 2 ^ 32.
Definition val_sendable (tx : TxValidator) : Prop :=
  TxValidator_typed tx ∧ (∃ rec, TxValidator_signed tx rec) ∧ Z.of_nat (length (val_bytes tx)) < 2 ^ 32.

(** The entries of a pool, sent in its iteration order and read back. *)
Lemma answer_pool {A} (request : Message) (id : list Z) (command : Z) (parse : list Z → result A) (enc : A → list Z) (pool : gmap (list Z) A) :
  msg_id request = Ok id → is_command command →
  map_Forall (λ _ a, Z.of_nat (length (enc a)) < 2 ^ 32 ∧ parse (enc a) = Ok a) pool →
  ∃ m, answer_message request command (concat (map (λ p, sized_data (enc p.2)) (in_order pool))) = Ok m ∧ msg_id m = Ok id ∧
    ∃ l, (_ ← check_answer Answering command m; data ← msg_message m; items (read_sized parse) data) = Ok l ∧ l ≡ₚ (map_to_list pool).*2.
Proof.
  intros Hi Hc Hp.
  destruct (answer_items request id command (read_sized parse) (λ a, sized_data (enc a)) (in_order pool).*2 Hi Hc) as (m & Hm & Hid & Hr).
  { apply Forall_fmap, Forall_forall. intros [k a] Hk%in_order_elem. destruct (Hp _ _ Hk). by apply read_sized_spec. }
  exists m. rewrite map_map in Hm. split; [exact Hm|]. split; [done|]. exists (in_order pool).*2. split; [done|]. by rewrite in_order_perm.
Qed.

(** An answer carries the identifier of its request, and what the other node reads from it is what was sent: every
    node with its type, every transaction of the pools. *)
Theorem p2p_answers_roundtrip request id nodes l txs vals :
  msg_id request = Ok id → l ≡ₚ map_to_list nodes → Forall node_typed l →
  map_Forall (λ _, tx_sendable) txs → map_Forall (λ _, val_sendable) vals →
  (∃ m, Answer_requestNodes request l = Ok m ∧ msg_id m = Ok id ∧ Answer_read_nodes m = Ok nodes) ∧
  (∃ m, Answer_requestTxs request txs = Ok m ∧ msg_id m = Ok id ∧ ∃ l, Answer_read_txs m = Ok l ∧ l ≡ₚ (map_to_list txs).*2) ∧
  (∃ m, Answer_requestValidatorTxs request vals = Ok m ∧ msg_id m = Ok id ∧
     ∃ l, Answer_read_validatorTxs m = Ok l ∧ l ≡ₚ (map_to_list vals).*2).
Proof.
  intros Hi Hl Hn Ht Hv. split; [|split].
  - destruct (answer_items request id RequestNodes read_node node_data l Hi) as (m & Hm & Hid & Hr); [done|by eapply Forall_impl, read_node_spec|].
    exists m. split; [done|]. split; [done|]. unfold Answer_read_nodes.
    apply result_bind_ok in Hr as ([] & -> & Hr). apply result_bind_ok in Hr as (data & -> & Hr).
    rewrite !result_bind_Ok, Hr, result_bind_Ok. f_equal. by apply foldl_insert_new_entries.
  - apply (answer_pool request id RequestTxs TxBlock_parse tx_bytes txs Hi); [done|]. eapply map_Forall_impl; [exact Ht|].
    intros _ tx (H1 & H2 & H3 & H4). split; [done|]. by apply parse_serialize_aux.
  - apply (answer_pool request id RequestValidatorTxs TxValidator_parse val_bytes vals Hi); [done|]. eapply map_Forall_impl; [exact Hv|].
    intros _ tx (H1 & [rec H2] & H3). split; [done|]. by eapply val_parse_serialize_aux.
Qed.

(** *** Node information *)

Lemma info_data_read version epoch b type id :
  is_type type → length id = 8%nat → in_uint 64 version → in_uint 64 epoch → Block_header_typed b → length (block_hash_ b) = 32%nat →
  read_info (mkMessage (raw type id Info (info_data version epoch b))) = Ok (mkNodeInfo version epoch (nHeight_ b) (block_hash_ b)).
Proof.
  intros Ht Hi Hv He (_ & _ & _ & _ & _ & _ & Hh) Hb. unfold read_info. rewrite msg_message_raw, result_bind_Ok by done.
  set (d := info_data version epoch b). assert (Hd : drop 0 d = info_data version epoch b ++ []) by (by rewrite app_nil_r).
  assert (Hl : length d = 56%nat) by (unfold d, info_data; rewrite !length_app, !uint64_len, Hb; done).
  clearbody d. unfold info_data in Hd. rewrite <- !app_assoc in Hd.
  do 3 (step_span Hd Hl; rewrite bytesToUint64_roundtrip by done; cbn [mbind result_bind]).
  step_span Hd Hl. unfold FixedBytes_of. by rewrite decide_True.
Qed.

(** *** Broadcasts *)

(** The data of a broadcast is accepted with the identifier computed from it, and with no other. *)
Lemma read_broadcast_spec {A} command (parse : list Z → result A) id data :
  is_command command → length id = 8%nat → bytes_ok id → bytes_ok data →
  read_broadcast command parse (mkMessage (raw Broadcasting id command data)) =
    if decide (id = uint64ToBytes (FNVHash data)) then parse data else Throw (DynamicException "Invalid message id.").
Proof.
  intros Hc Hi Hb Hd. assert (Hr := FNVHash_range _ Hd). unfold read_broadcast.
  rewrite msg_type_raw, result_bind_Ok, Z.eqb_refl by done. cbn [negb throw_if]. rewrite result_bind_Ok.
  rewrite msg_id_raw, result_bind_Ok, bytesToUint64_decode, result_bind_Ok by done.
  rewrite msg_message_raw, result_bind_Ok by done.
  case_decide as He.
  - subst id. rewrite uint64ToBytes_encode, be_decode_encode, pow256. unfold in_uint in Hr. rewrite Z.mod_small, Z.eqb_refl by exact Hr.
    cbn [negb throw_if]. by rewrite result_bind_Ok, msg_command_raw, result_bind_Ok, Z.eqb_refl by done.
  - rewrite (proj2 (Z.eqb_neq _ _)); [done|]. intros Hf. apply He. rewrite <- Hf, uint64ToBytes_encode. symmetry. rewrite <- Hi. by apply be_encode_decode.
Qed.

Lemma broadcast_ok command data :
  is_command command → broadcast command data = Ok (mkMessage (raw Broadcasting (uint64ToBytes (FNVHash data)) command data)).
Proof. intros Hc. unfold broadcast. apply build_ok; [done..|apply uint64_len]. Qed.

(** The broadcast of [data] is read by [parse], and refused when its identifier is replaced. *)
Definition broadcast_sound {A} (m : result Message) (read : Message → result A) (command : Z) (data : list Z) (a : A) : Prop :=
  (∃ msg, m = Ok msg ∧ read msg = Ok a) ∧
  ∀ id, length id = 8%nat → bytes_ok id → id ≠ uint64ToBytes (FNVHash data) →
    read (mkMessage (raw Broadcasting id command data)) = Throw (DynamicException "Invalid message id.").

Lemma broadcast_sound_intro {A} command (parse : list Z → result A) data a :
  is_command command → bytes_ok data → parse data = Ok a → broadcast_sound (broadcast command data) (read_broadcast command parse) command data a.
Proof.
  intros Hc Hb Hp. split.
  - eexists. split; [by apply broadcast_ok|]. rewrite read_broadcast_spec; [by rewrite decide_True|done|apply uint64_len| |done].
    rewrite uint64ToBytes_encode. apply be_encode_ok.
  - intros id Hi Ho Hne. rewrite read_broadcast_spec by done. by rewrite decide_False.
Qed.

(** What a node broadcasts, a block, a transaction or a validator transaction, every node reads back as it was; a
    message whose identifier is not the hash of its data is refused. *)
Theorem p2p_broadcast_roundtrip b tx val :
  Block_header_typed b → Block_sealed b → Block_readable b → tx_sendable tx → val_sendable val →
  bytes_ok (serializeBlock b) → bytes_ok (tx_bytes tx) → bytes_ok (val_bytes val) →
  broadcast_sound (broadcastBlock b) read_broadcastBlock BroadcastBlock (serializeBlock b) b ∧
  broadcast_sound (broadcastTx tx) read_broadcastTx BroadcastTx (tx_bytes tx) tx ∧
  broadcast_sound (broadcastValidatorTx val) read_broadcastValidatorTx BroadcastValidatorTx (val_bytes val) val.
Proof.
  intros H1 H2 H3 (T1 & T2 & T3 & _) (V1 & [rec V2] & _) Bb Bt Bv.
  split; [|split]; apply broadcast_sound_intro; try done.
  - by apply block_parse_serialize.
  - by apply parse_serialize_aux.
  - by eapply val_parse_serialize_aux.
Qed.

(** *** What the checks let through *)

(** The size of a transaction is compared with the whole of the data: a size that fits it, but not what follows,
    makes the decoder read past the end of the message. *)
Theorem p2p_size_check_too_weak id data txSize :
  length id = 8%nat → bytes_ok (take 4 data) → (4 ≤ length data)%nat → be_decode (take 4 data) = txSize →
  Z.of_nat (length data) - 4 < txSize →
  Answer_read_txs (mkMessage (raw Answering id RequestTxs data)) =
    Throw (if Z.of_nat (length data) <? txSize then bad_data else Undefined).
Proof.
  intros Hi Hb Hl Hs Ht. unfold Answer_read_txs. rewrite check_answer_raw, result_bind_Ok, msg_message_raw, result_bind_Ok by done.
  unfold items. destruct (length data) as [|n] eqn:En; [lia|]. cbn [items_loop]. rewrite (proj2 (Nat.ltb_lt _ _)) by lia.
  unfold read_sized. rewrite (proj2 (Nat.ltb_ge _ _)) by lia. cbn [throw_if]. rewrite result_bind_Ok.
  rewrite (subspan_drop data 0 4 (take 4 data) (drop 4 data)), result_bind_Ok by (lia || by rewrite ?take_drop || (rewrite length_take; lia)).
  rewrite bytesToUint32_decode, Hs, result_bind_Ok by (done || (rewrite length_take; lia)). rewrite En.
  destruct (Z.ltb_spec (Z.of_nat (S n)) txSize); [done|]. cbn [throw_if]. rewrite result_bind_Ok.
  unfold subspan. by rewrite decide_False by (rewrite En; lia).
Qed.
End p2p_correctness.

(** A command of the value 8 and a request type of the value 3 pass the checks: the first has no enumerator within
    reach, the second no prefix. *)
Theorem p2p_enum_checks_too_weak c t :
  in_uint 16 c → in_uint 8 t →
  getCommandType (uint16ToBytes c) =
    (if c <=? 7 then Ok c else Throw (if c =? 8 then Undefined else DynamicException "Invalid command type.")) ∧
  getRequestType (uint8ToBytes t) = (if t <=? 3 then Ok t else Throw (DynamicException "Invalid request type.")) ∧
  getRequestTypePrefix 3 = Throw Undefined.
Proof.
  intros Hc Ht. split; [|split; [|done]].
  - unfold getCommandType, uint16ToBytes. rewrite be_bytes_len. cbn [Nat.eqb negb throw_if]. rewrite result_bind_Ok.
    fold (uint16ToBytes c). rewrite bytesToUint16_roundtrip, result_bind_Ok by done. cbn [commandPrefixes length].
    change (Z.of_nat 8) with 8. unfold enum_cast. destruct (Z.ltb_spec 8 c), (Z.leb_spec c 7), (Z.eqb_spec c 8); cbn [throw_if]; try lia; done.
  - unfold getRequestType, uint8ToBytes. rewrite le_bytes_length. cbn [Nat.eqb negb throw_if]. rewrite result_bind_Ok.
    fold (uint8ToBytes t). rewrite bytesToUint8_roundtrip, result_bind_Ok by done. cbn [typePrefixes length].
    change (Z.of_nat 3) with 3. unfold enum_cast. by destruct (Z.ltb_spec 3 t), (Z.leb_spec t 3); try lia.
Qed.

(** ** Witnesses *)

Definition toy_request : Message := mkMessage (raw Requesting (replicate 8 9) RequestTxs []).
Definition toy_nodes : gmap NodeID Z :=
  {[ (V4 [127; 0; 0; 1], 8080) := NORMAL_NODE; (V6 (replicate 16 7), 65535) := DISCOVERY_NODE ]}.

Lemma p2p_answers_roundtrip_witness :
  ∃ m, @Answer_requestTxs order_ref toy_request {[ hash_ toy_tx := toy_tx ]} = Ok m ∧ msg_id m = Ok (replicate 8 9).
Proof.
  destruct (@p2p_answers_roundtrip toy_secp boost_ref toy_hash order_ref toy_request (replicate 8 9) toy_nodes (map_to_list toy_nodes)
    {[ hash_ toy_tx := toy_tx ]} {[ vt_hash toy_val := toy_val ]}) as (_ & (m & Hm & Hi & _) & _).
  - by vm_compute.
  - reflexivity.
  - by_compute.
  - apply map_Forall_singleton. split; [by_compute|]. split; [by_compute|]. split; [by_compute|by vm_compute].
  - apply map_Forall_singleton. split; [by_compute|]. split; [exists 1; by_compute|by vm_compute].
  - by exists m.
Defined.

Lemma p2p_broadcast_roundtrip_witness :
  ∃ m, @broadcastBlock toy_sealed_block = Ok m ∧ @read_broadcastBlock toy_secp boost_ref toy_hash m = Ok toy_sealed_block.
Proof.
  destruct (@p2p_broadcast_roundtrip toy_secp boost_ref toy_hash toy_sealed_block toy_tx toy_val) as ((H & _) & _).
  - by_compute.
  - by_compute.
  - by_compute.
  - split; [by_compute|]. split; [by_compute|]. split; [by_compute|by vm_compute].
  - split; [by_compute|]. split; [exists 1; by_compute|by vm_compute].
  - by_compute.
  - by_compute.
  - by_compute.
  - exact H.
Defined.

Lemma p2p_size_check_too_weak_witness :
  @Answer_read_txs toy_secp boost_ref toy_hash (mkMessage (raw Answering (replicate 8 9) RequestTxs [0; 0; 0; 5; 1])) = Throw Undefined.
Proof.
  apply (@p2p_size_check_too_weak toy_secp boost_ref toy_hash (replicate 8 9) [0; 0; 0; 5; 1] 5); [done|by_compute|cbn; lia|done|cbn; lia].
Defined.

Lemma p2p_enum_checks_too_weak_witness : getCommandType (uint16ToBytes 8) = Throw Undefined.
Proof.
  destruct (p2p_enum_checks_too_weak 8 3) as (H & _); [unfold in_uint; lia..|]. exact H.
Defined.
