(* ===== verification/Session.v ===== *)
(** * Session: the connection to one peer (src/net/p2p/session.{h,cpp})

    The handshake, the frames of messages on the wire, and the queue of outgoing messages.  boost::asio is what moves
    bytes: a completed operation is a step, and the callback that follows it is the body of the step. *)

From S2P Require Import Prelude Bytes SizedInts Hashing ECDSA Tx TxValidator Randomness Block P2PEncoding.

(** ** The handshake *)

Definition outboundHandshake (nodeType serverPort : Z) : list Z :=
  (if nodeType =? NORMAL_NODE then 0 else 1) :: uint16ToBytes serverPort.

(** [finish_handshake]: the type and the port of the other node. *)
Definition finish_handshake (inboundHandshake : list Z) : result (Z * Z) :=
  b ← read_at inboundHandshake 0;
  p ← subspan inboundHandshake 1 2; serverPort ← bytesToUint16 p;
  Ok (if b =? 0 then NORMAL_NODE else DISCOVERY_NODE, serverPort).

(** ** Reading *)

Definition maxMessageSize : Z := 1024 * 1024 * 128.

(** What a session does with the bytes that have arrived: the messages it hands to the manager, and the bytes it waits
    to complete; [None] when it has closed the session. *)
Fixpoint read_messages (fuel : nat) (stream : list Z) : result (list Message * option (list Z)) :=
  match fuel with
  | O => Ok ([], Some stream)
  | S fuel =>
      if decide (length stream < 8)%nat then Ok ([], Some stream) else
      messageSize ← bytesToUint64 (take 8 stream);
      if maxMessageSize <? messageSize then Ok ([], None) else
      let size := Z.to_nat messageSize in
      if decide (length stream < 8 + size)%nat then Ok ([], Some stream) else
      '(messages, rest) ← read_messages fuel (drop (8 + size) stream);
      Ok (mkMessage (take size (drop 8 stream)) :: messages, rest)
  end.

(** Every message takes eight bytes of header: the length of the stream is enough fuel. *)
Definition on_read (stream : list Z) : result (list Message * option (list Z)) := read_messages (S (length stream)) stream.

(** ** Writing *)

(** The outgoing message is first posted, then its header has been written, then the message itself. *)
Inductive writing :=
| Posted (m : Message)        (* do_write_header will run *)
| HeaderWritten (m : Message).

Record writer := mkWriter {
  outboundMessage_ : option writing;
  outboundMessages_ : list Message;   (* std::deque *)
  wire : list Z                       (* what the socket has taken *)
}.

Definition writer_new : writer := mkWriter None [] [].

Definition session_push (message : Message) (w : writer) : writer :=
  match outboundMessage_ w with
  | None => mkWriter (Some (Posted message)) (outboundMessages_ w) (wire w)
  | Some _ => mkWriter (outboundMessage_ w) (outboundMessages_ w ++ [message]) (wire w)
  end.

Definition header (m : Message) : list Z := uint64ToBytes (Z.of_nat (length (rawMessage_ m))).
Definition frame (m : Message) : list Z := header m ++ rawMessage_ m.

(** The next completion: of the header, or of the message, after which the front of the queue is next. *)
Definition write_completed (w : writer) : writer :=
  match outboundMessage_ w with
  | None => w
  | Some (Posted m) => mkWriter (Some (HeaderWritten m)) (outboundMessages_ w) (wire w ++ header m)
  | Some (HeaderWritten m) =>
      match outboundMessages_ w with
      | [] => mkWriter None [] (wire w ++ rawMessage_ m)
      | m' :: rest => mkWriter (Some (Posted m')) rest (wire w ++ rawMessage_ m)
      end
  end.

(** The writer after some messages have been pushed, in order. *)
Inductive writes : list Message → writer → Prop :=
| writes_new : writes [] writer_new
| writes_push ms m w : writes ms w → writes (ms ++ [m]) (session_push m w)
| writes_completed ms w : writes ms w → writes ms (write_completed w).

(** ** Lemmas *)

(** A message that a session of the other side accepts. *)
Definition frameable (m : Message) : Prop := Z.of_nat (length (rawMessage_ m)) ≤ maxMessageSize.

Lemma header_read m : frameable m → bytesToUint64 (header m) = Ok (Z.of_nat (length (rawMessage_ m))).
Proof. unfold frameable, maxMessageSize. intros Hm. apply bytesToUint64_roundtrip. unfold in_uint. lia. Qed.

Lemma header_length m : length (header m) = 8%nat.
Proof. apply uint64_len. Qed.

Lemma read_messages_frame m rest fuel :
  frameable m → read_messages (S fuel) (frame m ++ rest) =
    ('(messages, tail) ← read_messages fuel rest; Ok (m :: messages, tail)).
Proof.
  intros Hm. cbn [read_messages]. unfold frame. rewrite <- app_assoc. assert (Hh := header_length m).
  rewrite decide_False by (rewrite length_app; lia). rewrite take_app_length' by done.
  rewrite header_read, result_bind_Ok by done. rewrite (proj2 (Z.ltb_ge _ _)) by exact Hm. rewrite Nat2Z.id.
  rewrite decide_False by (rewrite !length_app; lia).
  rewrite <- drop_drop, (drop_app_length' (header m)) by done.
  rewrite drop_app_length, take_app_length. by destruct m.
Qed.

(** More fuel than bytes changes nothing. *)
Lemma read_messages_fuel fuel fuel' stream :
  (length stream < fuel)%nat → (fuel ≤ fuel')%nat → read_messages fuel' stream = read_messages fuel stream.
Proof.
  revert fuel' stream. induction fuel as [|fuel IH]; intros fuel' stream Hl Hf; [lia|].
  destruct fuel' as [|fuel']; [lia|]. cbn [read_messages]. case_decide; [done|]. destruct (bytesToUint64 _) as [size|]; [|done].
  rewrite !result_bind_Ok. case_match; [done|]. case_decide; [done|].
  rewrite (IH fuel'); [done|rewrite length_drop; lia|lia].
Qed.

Lemma read_messages_frames ms rest fuel :
  Forall frameable ms → (length ms ≤ fuel)%nat →
  read_messages fuel (concat (map frame ms) ++ rest) =
    ('(messages, tail) ← read_messages (fuel - length ms) rest; Ok (ms ++ messages, tail)).
Proof.
  intros Hm. revert fuel. induction Hm as [|m ms Hm Hms IH]; intros fuel Hf; cbn [map concat length app].
  - rewrite Nat.sub_0_r. by destruct (read_messages fuel rest) as [[]|].
  - cbn [length] in Hf. destruct fuel as [|fuel]; [lia|]. rewrite <- app_assoc, read_messages_frame, IH by (done || lia).
    cbn [Nat.sub]. by destruct (read_messages (fuel - length ms) rest) as [[]|].
Qed.

Lemma frames_length ms : (8 * length ms ≤ length (concat (map frame ms)))%nat.
Proof.
  induction ms as [|m ms IH]; [done|]. cbn [map concat length]. rewrite length_app. unfold frame at 1.
  rewrite length_app, header_length. lia.
Qed.

(** The reader gives back the messages of the frames, whatever follows them. *)
Lemma on_read_frames ms rest :
  Forall frameable ms →
  on_read (concat (map frame ms) ++ rest) = ('(messages, tail) ← on_read rest; Ok (ms ++ messages, tail)).
Proof.
  intros Hm. unfold on_read. assert (Hl := frames_length ms). rewrite read_messages_frames by (done || rewrite length_app; lia).
  rewrite (read_messages_fuel (S (length rest))); [done|lia|rewrite length_app; lia].
Qed.

Lemma on_read_frame m rest :
  frameable m → on_read (frame m ++ rest) = ('(messages, tail) ← on_read rest; Ok (m :: messages, tail)).
Proof.
  intros Hm. assert (H := on_read_frames [m] rest (proj2 (Forall_singleton _ _) Hm)). cbn [map concat] in H. rewrite app_nil_r in H.
  rewrite H. by destruct (on_read rest) as [[]|].
Qed.

(** A part of a frame is waited for. *)
Lemma on_read_part m p rest :
  frameable m → p ++ rest = frame m → rest ≠ [] → on_read p = Ok ([], Some p).
Proof.
  intros Hm Hp Hr. assert (Hl : (length p < 8 + length (rawMessage_ m))%nat).
  { assert (H := f_equal length Hp). unfold frame in H. rewrite !length_app, header_length in H. destruct rest; [done|]. cbn in H. lia. }
  unfold on_read. cbn [read_messages]. case_decide as H8; [done|].
  assert (take 8 p = header m) as ->.
  { rewrite <- (take_app_le p rest) by lia. rewrite Hp. unfold frame. apply take_app_length'. by rewrite header_length. }
  rewrite header_read, result_bind_Ok by done. rewrite (proj2 (Z.ltb_ge _ _)) by exact Hm. rewrite Nat2Z.id.
  by rewrite decide_True.
Qed.

(** The reader of a part of the frames has the first messages. *)
Lemma on_read_prefix ms p rest :
  Forall frameable ms → p ++ rest = concat (map frame ms) →
  ∃ got tail, on_read p = Ok (got, Some tail) ∧ got `prefix_of` ms ∧ (rest = [] → got = ms ∧ tail = []).
Proof.
  intros Hm. revert p. induction Hm as [|m ms Hm Hms IH]; intros p Hp.
  - apply app_eq_nil in Hp as [-> ->]. by exists [], [].
  - cbn [map concat] in Hp. destruct (decide (length p < length (frame m))%nat) as [Hl|Hl].
    + assert (Hpart : ∃ r, p ++ r = frame m ∧ r ≠ []).
      { exists (drop (length p) (frame m)). assert (Ht : take (length p) (frame m) = p).
        { rewrite <- (take_app_le (frame m) (concat (map frame ms))) by lia. rewrite <- Hp. apply take_app_length. }
        split; [rewrite <- Ht at 1; apply take_drop|]. intros E. apply (f_equal length) in E. rewrite length_drop in E. cbn [length] in E. lia. }
      destruct Hpart as (r & Hr & Hne). exists [], p. rewrite (on_read_part m p r) by done. split; [done|]. split; [apply prefix_nil|].
      intros ->. rewrite app_nil_r in Hp. apply (f_equal length) in Hp. rewrite length_app in Hp. lia.
    + assert (Hfr : p = frame m ++ drop (length (frame m)) p).
      { rewrite <- (take_drop (length (frame m)) p) at 1. f_equal. rewrite <- (take_app_le p rest) by lia. rewrite Hp. apply take_app_length. }
      rewrite Hfr in Hp. rewrite <- app_assoc in Hp. apply app_inv_head in Hp. destruct (IH _ Hp) as (got & tail & H1 & H2 & H3).
      exists (m :: got), tail. rewrite Hfr, on_read_frame, H1, result_bind_Ok by done. split; [done|]. split; [by apply prefix_cons|].
      intros Hn. by destruct (H3 Hn) as [-> ->].
Qed.

(** *** The queue *)

(** What the writer has still to write. *)
Definition pending (w : writer) : list Z :=
  match outboundMessage_ w with None => [] | Some (Posted m) => frame m | Some (HeaderWritten m) => rawMessage_ m end ++
  concat (map frame (outboundMessages_ w)).

Lemma writes_wire ms w :
  writes ms w → wire w ++ pending w = concat (map frame ms) ∧ (outboundMessage_ w = None → outboundMessages_ w = []).
Proof.
  induction 1 as [|ms m w _ [IH1 IH2]|ms w _ [IH1 IH2]]; [done| |].
  - rewrite map_app, concat_app, <- IH1. unfold session_push, pending in *.
    destruct (outboundMessage_ w) as [o|] eqn:Eo; cbn [outboundMessage_ outboundMessages_ wire].
    + rewrite map_app, concat_app. cbn [map concat]. split; [by rewrite !app_nil_r, <- !app_assoc|done].
    + rewrite IH2 by done. cbn [map concat]. by rewrite !app_nil_r.
  - rewrite <- IH1. unfold write_completed, pending. destruct (outboundMessage_ w) as [[m|m]|] eqn:Eo; cbn [outboundMessage_ outboundMessages_ wire].
    + split; [unfold frame at 2; by rewrite <- !app_assoc|done].
    + destruct (outboundMessages_ w) as [|m' rest]; cbn [outboundMessage_ outboundMessages_ wire map concat];
        [by rewrite !app_nil_r|]. split; [by rewrite <- !app_assoc|done].
    + rewrite Eo. by split; [|apply IH2].
Qed.

(** ** Theorems *)

Theorem handshake_roundtrip nodeType serverPort :
  nodeType = NORMAL_NODE ∨ nodeType = DISCOVERY_NODE → in_uint 16 serverPort →
  finish_handshake (outboundHandshake nodeType serverPort) = Ok (nodeType, serverPort).
Proof.
  intros Ht Hp. unfold finish_handshake, outboundHandshake. cbn [read_at lookup list_lookup]. rewrite result_bind_Ok.
  rewrite (subspan_drop _ 1 2 (uint16ToBytes serverPort) []);
    [|cbn; lia|by rewrite app_nil_r|unfold uint16ToBytes; apply be_bytes_len].
  rewrite result_bind_Ok, bytesToUint16_roundtrip, result_bind_Ok by done. by destruct Ht as [->| ->].
Qed.

(** C33: What a session writes its peer reads: for messages up to the limit of 128 MB ([frameable]), whenever the peer looks, it has
    the first of the messages that were pushed, in order and unchanged, and all of them when the queue is empty. *)
Theorem session_delivers ms w :
  writes ms w → Forall frameable ms →
  ∃ got tail, on_read (wire w) = Ok (got, Some tail) ∧ got `prefix_of` ms ∧ (outboundMessage_ w = None → got = ms ∧ tail = []).
Proof.
  intros Hw Hm. apply writes_wire in Hw as [Hwire Hidle]. destruct (on_read_prefix ms _ _ Hm Hwire) as (got & tail & H1 & H2 & H3).
  exists got, tail. split; [done|]. split; [done|]. intros Hn. apply H3. unfold pending. by rewrite Hn, Hidle.
Qed.

(** A header that announces more than the limit closes the session, and the reader of a header of zero hands on a message
    without a type: the constructor that refuses it is not the one a session uses. *)
Theorem session_limits rest :
  on_read (uint64ToBytes (maxMessageSize + 1) ++ rest) = Ok ([], None) ∧
  ∃ messages tail, on_read (uint64ToBytes 0) = Ok (mkMessage [] :: messages, tail) ∧ msg_type (mkMessage []) = Throw Undefined ∧
    Message_of [] = Throw (DynamicException "Invalid message size.").
Proof.
  split; [|by exists [], (Some [])]. unfold on_read. cbn [read_messages].
  rewrite decide_False by (rewrite length_app, uint64_len; lia). rewrite take_app_length' by by rewrite uint64_len.
  rewrite bytesToUint64_roundtrip, result_bind_Ok by by compute. done.
Qed.

(** ** Witnesses *)

Definition toy_pushed : list Message := [mkMessage (raw Requesting (replicate 8 9) Ping []); mkMessage (raw Answering (replicate 8 7) Ping [])].
Definition toy_writer : writer :=
  write_completed (write_completed (write_completed (session_push (mkMessage (raw Answering (replicate 8 7) Ping []))
    (session_push (mkMessage (raw Requesting (replicate 8 9) Ping [])) writer_new)))).

Lemma handshake_roundtrip_witness : finish_handshake (outboundHandshake DISCOVERY_NODE 8080) = Ok (DISCOVERY_NODE, 8080).
Proof. apply handshake_roundtrip; [by right|unfold in_uint; lia]. Defined.

Lemma session_delivers_witness :
  (∃ m tail, on_read (wire toy_writer) = Ok ([m], Some tail) ∧ length tail = 8%nat) ∧
  ∃ got tail, on_read (wire toy_writer) = Ok (got, Some tail) ∧ got `prefix_of` toy_pushed ∧
    (outboundMessage_ toy_writer = None → got = toy_pushed ∧ tail = []).
Proof.
  split; [by eexists _, _|]. apply session_delivers.
  - apply writes_completed, writes_completed, writes_completed, (writes_push [_]), (writes_push [] _ writer_new), writes_new.
  - by_compute.
Defined.
