(* ===== verification/RdPoS.v ===== *)
(** * RdPoS: the consensus state (src/core/rdpos.{h,cpp}, class rdPoS)

    The validator set, the shuffled list that names the block's signer and the validators of the
    round, the mempool of validator transactions, and the validation of a block. The worker thread is in
    RoundWorker. Locks make every member function one step. *)

From S2P Require Import Prelude Bytes SizedInts Hashing Merkle ECDSA Tx TxValidator Randomness Block.

Record rdPoS := mkRdPoS {
  validators_ : list (list Z);                     (* std::set<Validator>, in order *)
  randomList_ : list (list Z);
  validatorMempool_ : gmap (list Z) TxValidator;
  randomGen_ : list Z;                             (* the generator's seed *)
  bestRandomSeed_ : list Z;
  minValidators_ : nat                             (* uint32_t *)
}.

(** [std::set<Validator>::insert]. *)
Fixpoint set_insert (v : list Z) (l : list (list Z)) : list (list Z) :=
  match l with
  | [] => [v]
  | x :: l' =>
      if bytes_ltb v x then v :: l
      else if bytes_ltb x v then x :: set_insert v l'
      else l
  end.

Section rdPoS.
Context {LS : LibSecp256k1} {BB : BoostBits} {KC : Keccak}.

(** [initializeBlockchain]: the genesis validators fill an empty database. *)
Definition initializeBlockchain (validatorsDb genesis : list (list Z)) : list (list Z) :=
  match validatorsDb with [] => genesis | _ => validatorsDb end.

(** The constructor, from the database's validators, the genesis list and the latest block. *)
Definition rdPoS_init (validatorsDb genesis : list (list Z)) (minValidators : nat) (latest : Block)
    : result rdPoS :=
  let validatorsDb := initializeBlockchain validatorsDb genesis in
  _ ← throw_if (bool_decide (validatorsDb = [])) (DynamicException "No rdPoS in DB.");
  let validators := foldl (λ s v, set_insert v s) [] validatorsDb in
  let seed := blockRandomness_ latest in
  let '(randomList, seed') := shuffle seed validators in
  Ok (mkRdPoS validators randomList ∅ seed' seed minValidators).

(** [txHashToSeedMap.emplace]: keys are compared by the transactions' hashes, and an existing key is
    left alone. The checks below do not depend on the iteration order; it is the insertion's here. *)
Definition emplace_pair (m : list (TxValidator * TxValidator)) (p : TxValidator * TxValidator) :=
  if existsb (λ q, bool_decide (vt_hash q.1 = vt_hash p.1)) m then m else m ++ [p].

(** The ordering loop: [None] is the early [return false]. *)
Fixpoint order_loop (n i : nat) (rd : rdPoS) (txs : list TxValidator)
    (m : list (TxValidator * TxValidator)) : result (option (list (TxValidator * TxValidator))) :=
  match n with
  | O => Ok (Some m)
  | S n =>
      h ← read_at txs i;
      v ← read_at (randomList_ rd) (i + 1);
      if bool_decide (vt_from h ≠ v) then Ok None else
      s ← read_at txs (i + minValidators_ rd);
      if bool_decide (vt_from s ≠ v) then Ok None else
      order_loop n (S i) rd txs (emplace_pair m (h, s))
  end.

(** The checks of one pair of the map. *)
Definition check_pair (p : TxValidator * TxValidator) : bool :=
  let '(hashTx, seedTx) := p in
  let hashTxFunction := getTxValidatorFunction hashTx in
  let seedTxFunction := getTxValidatorFunction seedTx in
  if bool_decide (hashTxFunction = INVALID) then false
  else if bool_decide (seedTxFunction = INVALID) then false
  else if bool_decide (vt_from hashTx ≠ vt_from seedTx) then false
  else if bool_decide (hashTxFunction ≠ RANDOMHASH) then false
  else if bool_decide (seedTxFunction ≠ RANDOMSEED) then false
  else
    let hash := drop 4 (vt_data hashTx) in
    let random := drop 4 (vt_data seedTx) in
    if bool_decide (length hash ≠ 32%nat) then false
    else if bool_decide (length random ≠ 32%nat) then false
    else if bool_decide (sha3 random ≠ hash) then false
    else true.

Definition validateBlock (rd : rdPoS) (block : Block) : result bool :=
  if negb (finalized_ block) then Ok false else
  signer ← read_at (randomList_ rd) 0;
  if bool_decide (toAddress (validatorPubKey_ block) ≠ signer) then Ok false else
  let txs := txValidators_ block in
  if negb (Z.of_nat (length txs) =? Z.of_nat (minValidators_ rd) * 2 mod 2 ^ 32) then Ok false else
  if existsb (λ tx, negb (vt_nHeight tx =? nHeight_ block)) txs then Ok false else
  m ← order_loop (minValidators_ rd) 0 rd txs [];
  match m with
  | None => Ok false
  | Some m =>
      if bool_decide (length m ≠ minValidators_ rd) then Ok false
      else Ok (forallb check_pair m)
  end.

Definition processBlock (block : Block) : M rdPoS (list Z) := λ rd,
  if negb (finalized_ block) then (Throw (DynamicException "Block is not finalized."), rd)
  else
    let seed := blockRandomness_ block in
    let '(randomList, seed') := shuffle seed (validators_ rd) in
    (Ok seed, mkRdPoS (validators_ rd) randomList ∅ seed' seed (minValidators_ rd)).

Definition with_mempool (rd : rdPoS) (m : gmap (list Z) TxValidator) : rdPoS :=
  mkRdPoS (validators_ rd) (randomList_ rd) m (randomGen_ rd) (bestRandomSeed_ rd) (minValidators_ rd).

Definition clearMempool (rd : rdPoS) : rdPoS := with_mempool rd ∅.

(** [for (i = 1; i < minValidators + 1; i++) if (from == randomList[i]) { participates = true; break; }] *)
Fixpoint participates_loop (n i : nat) (rd : rdPoS) (from : list Z) : result bool :=
  match n with
  | O => Ok false
  | S n =>
      v ← read_at (randomList_ rd) i;
      if bool_decide (from = v) then Ok true else participates_loop n (S i) rd from
  end.

Definition txs_of (m : gmap (list Z) TxValidator) (from : list Z) : list TxValidator :=
  filter (λ tx, vt_from tx = from) (map_to_list m).*2.

Definition addValidatorTx (latestHeight : Z) (tx : TxValidator) : M rdPoS bool := λ rd,
  let mempool := validatorMempool_ rd in
  if bool_decide (is_Some (mempool !! vt_hash tx)) then (Ok true, rd)
  else if negb (vt_nHeight tx =? (latestHeight + 1) mod 2 ^ 64) then (Ok false, rd)
  else
    match participates_loop (minValidators_ rd) 1 rd (vt_from tx) with
    | Throw e => (Throw e, rd)
    | Ok false => (Ok false, rd)
    | Ok true =>
        match txs_of mempool (vt_from tx) with
        | [] => (Ok true, with_mempool rd (<[vt_hash tx := tx]> mempool))
        | [old] =>
            match vt_functor old, vt_functor tx with
            | Ok f, Ok g =>
                if bool_decide (f = g) then (Ok false, rd)
                else (Ok true, with_mempool rd (<[vt_hash tx := tx]> mempool))
            | Throw e, _ => (Throw e, rd)
            | _, Throw e => (Throw e, rd)
            end
        | _ => (Ok false, rd)
        end
    end.

Definition isValidatorAddress (rd : rdPoS) (add : list Z) : bool :=
  bool_decide (add ∈ validators_ rd).

(** [signBlock], with the clock's time as an argument. *)
Definition signBlock (validatorKey : list Z) (newTimestamp : Z) (block : Block) : Block :=
  (finalize block validatorKey newTimestamp).2.

(** ** What a validated block is *)

(** A commitment and its opening by one validator. *)
Definition reveals (p : TxValidator * TxValidator) : Prop :=
  vt_from p.2 = vt_from p.1 ∧
  ∃ r, length r = 32%nat ∧ vt_data p.1 = randomHashHash ++ sha3 r ∧ vt_data p.2 = randomSeedHash ++ r.

Lemma drop4_app (h r : list Z) : length h = 4%nat → drop 4 (h ++ r) = r.
Proof. intros <-. apply drop_app_length. Qed.

Lemma check_pair_spec p : check_pair p = true ↔ reveals p.
Proof.
  destruct p as [h s]. unfold check_pair, reveals. cbn [fst snd]. split.
  - repeat case_bool_decide; try done. intros _.
    match goal with H : getTxValidatorFunction h = RANDOMHASH |- _ => rename H into Hh end.
    match goal with H : getTxValidatorFunction s = RANDOMSEED |- _ => rename H into Hs end.
    apply getTxValidatorFunction_hash in Hh as (x & Hx & _).
    apply getTxValidatorFunction_seed in Hs as (r & Hr & Hl).
    split; [by symmetry|]. exists r. split; [done|]. split; [|done].
    match goal with H : sha3 _ = _ |- _ => rename H into Hsha end.
    rewrite Hx, Hr, !drop4_app in Hsha by done. by rewrite Hx, Hsha.
  - intros (Hf & r & Hl & Hh & Hs).
    assert (Fh : getTxValidatorFunction h = RANDOMHASH)
      by (apply getTxValidatorFunction_hash; eexists; split; [exact Hh|apply sha3_length]).
    assert (Fs : getTxValidatorFunction s = RANDOMSEED)
      by (apply getTxValidatorFunction_seed; by exists r).
    rewrite Fh, Fs, Hf, Hh, Hs, !drop4_app, sha3_length, Hl by done.
    repeat case_bool_decide; done.
Qed.

(** The transactions at the positions of pair [i] come from the [i]th validator of the round. *)
Definition pair_at (rd : rdPoS) (txs : list TxValidator) (i : nat) (p : TxValidator * TxValidator) : Prop :=
  txs !! i = Some p.1 ∧ txs !! (i + minValidators_ rd)%nat = Some p.2 ∧
  randomList_ rd !! (i + 1)%nat = Some (vt_from p.1) ∧ vt_from p.2 = vt_from p.1.

Lemma read_at_ok {A} (l : list A) i x : read_at l i = Ok x ↔ l !! i = Some x.
Proof. unfold read_at. destruct (l !! i); split; intros H; inversion H; done. Qed.

Lemma order_loop_S n i rd txs m :
  order_loop (S n) i rd txs m =
  (h ← read_at txs i;
   v ← read_at (randomList_ rd) (i + 1);
   if bool_decide (vt_from h ≠ v) then Ok None else
   s ← read_at txs (i + minValidators_ rd);
   if bool_decide (vt_from s ≠ v) then Ok None else
   order_loop n (S i) rd txs (emplace_pair m (h, s))).
Proof. reflexivity. Qed.

Lemma order_loop_spec n i rd txs m0 m :
  order_loop n i rd txs m0 = Ok (Some m) ↔
  ∃ ps, length ps = n ∧ (∀ k p, ps !! k = Some p → pair_at rd txs (i + k) p) ∧
        m = foldl emplace_pair m0 ps.
Proof.
  revert i m0. induction n as [|n IH]; intros i m0.
  - split.
    + intros [= <-]. exists []. by split.
    + intros ([|] & Hl & _ & ->); done.
  - rewrite order_loop_S. split.
    + intros (h & Hh%read_at_ok & H)%result_bind_ok.
      apply result_bind_ok in H as (v & Hv%read_at_ok & H). case_bool_decide as Hf; [done|].
      apply result_bind_ok in H as (s & Hs%read_at_ok & H). case_bool_decide as Hf'; [done|].
      apply IH in H as (ps & Hl & Hps & ->).
      exists ((h, s) :: ps). split; [by rewrite <- Hl|]. split; [|done].
      intros [|k] p Hp; [injection Hp as <-|].
      * rewrite Nat.add_0_r. unfold pair_at. cbn [fst snd]. by rewrite Hf, Hf'.
      * rewrite Nat.add_succ_r. by apply Hps.
    + intros ([|[h s] ps] & Hl & Hps & ->); [done|]. injection Hl as Hl.
      destruct (Hps 0%nat _ eq_refl) as (Hh & Hs & Hv & Hf). rewrite Nat.add_0_r in *.
      cbn [fst snd] in *. apply read_at_ok in Hh, Hs, Hv. rewrite Hh, result_bind_Ok, Hv, result_bind_Ok.
      rewrite bool_decide_eq_false_2 by auto. rewrite Hs, result_bind_Ok.
      rewrite bool_decide_eq_false_2 by auto. apply IH. exists ps. split; [done|]. split; [|done].
      intros k p Hp. specialize (Hps (S k) p Hp). by rewrite Nat.add_succ_r in Hps.
Qed.

Definition pair_keys (ps : list (TxValidator * TxValidator)) : list (list Z) :=
  map (λ p, vt_hash p.1) ps.

Lemma emplace_pair_cases m p :
  ((vt_hash p.1 ∈ pair_keys m) ∧ emplace_pair m p = m) ∨
  ((vt_hash p.1 ∉ pair_keys m) ∧ emplace_pair m p = m ++ [p]).
Proof.
  unfold emplace_pair. destruct (existsb _ m) eqn:E; [left|right]; split; try done.
  - apply existsb_exists in E as (q & Hq & Hk). apply bool_decide_eq_true in Hk.
    rewrite <- Hk. apply list_elem_of_In. unfold pair_keys. by apply (in_map (λ p, vt_hash p.1)).
  - intros Hin. apply list_elem_of_In, in_map_iff in Hin as (q & Hk & Hq).
    assert (existsb (λ q, bool_decide (vt_hash q.1 = vt_hash p.1)) m = true) as Ht; [|congruence].
    apply existsb_exists. exists q. split; [done|]. by apply bool_decide_eq_true.
Qed.

Lemma emplace_all_length ps m :
  (length (foldl emplace_pair m ps) ≤ length m + length ps)%nat.
Proof.
  revert m. induction ps as [|p ps IH]; intros m; cbn [foldl length]; [lia|].
  specialize (IH (emplace_pair m p)).
  destruct (emplace_pair_cases m p) as [[_ E]|[_ E]]; rewrite E in *; rewrite ?length_app in *;
    cbn [length] in *; lia.
Qed.

Lemma pair_keys_app a b : pair_keys (a ++ b) = pair_keys a ++ pair_keys b.
Proof. apply map_app. Qed.

(** The map has as many entries as pairs exactly when the keys are distinct. *)
Lemma emplace_all_spec ps m :
  NoDup (pair_keys m) →
  length (foldl emplace_pair m ps) = (length m + length ps)%nat ↔
  NoDup (pair_keys (m ++ ps)) ∧ foldl emplace_pair m ps = m ++ ps.
Proof.
  revert m. induction ps as [|p ps IH]; intros m Hnd; cbn [foldl length].
  - rewrite app_nil_r. split; [done|]. intros _. lia.
  - destruct (emplace_pair_cases m p) as [[Hin E]|[Hin E]]; rewrite E.
    + split.
      * assert (Hb := emplace_all_length ps m). lia.
      * rewrite pair_keys_app. intros [Hnd' _]. exfalso.
        apply NoDup_app in Hnd' as (_ & Hd & _). apply (Hd _ Hin). left.
    + replace (m ++ p :: ps) with ((m ++ [p]) ++ ps) by by rewrite <- app_assoc.
      rewrite <- IH.
      * rewrite length_app. cbn [length]. split; lia.
      * rewrite pair_keys_app. apply NoDup_app. split; [done|]. split.
        -- intros k Hk Hk'. apply list_elem_of_singleton in Hk' as ->. done.
        -- apply NoDup_singleton.
Qed.

Lemma forallb_check ps : forallb check_pair ps = true ↔ ∀ k p, ps !! k = Some p → reveals p.
Proof.
  rewrite forallb_forall. split.
  - intros H k p Hp. apply check_pair_spec, H, list_elem_of_In. by eapply list_elem_of_lookup_2.
  - intros H p Hp%list_elem_of_In. apply list_elem_of_lookup in Hp as [k Hp].
    apply check_pair_spec. by eapply H.
Qed.

Lemma existsb_heights txs h :
  existsb (λ tx, negb (vt_nHeight tx =? h)) txs = false ↔ Forall (λ tx, vt_nHeight tx = h) txs.
Proof.
  induction txs as [|tx txs IH]; cbn [existsb]; [done|].
  rewrite orb_false_iff, negb_false_iff, Z.eqb_eq, IH. by rewrite Forall_cons.
Qed.

(** The content of a block the validators of the round agree on: the commitments of the round's
    validators in the order of the list, then their openings in the same order. *)
Definition round_content (rd : rdPoS) (block : Block) (ps : list (TxValidator * TxValidator)) : Prop :=
  txValidators_ block = map fst ps ++ map snd ps ∧ length ps = minValidators_ rd ∧
  NoDup (pair_keys ps) ∧
  ∀ k p, ps !! k = Some p →
    randomList_ rd !! (k + 1)%nat = Some (vt_from p.1) ∧ reveals p.

Lemma pairs_of_halves (txs : list TxValidator) n (ps : list (TxValidator * TxValidator)) :
  length txs = (n * 2)%nat → length ps = n →
  (∀ k p, ps !! k = Some p → txs !! k = Some p.1 ∧ txs !! (k + n)%nat = Some p.2) →
  txs = map fst ps ++ map snd ps.
Proof.
  intros Hl Hp H. apply list_eq. intros k.
  destruct (Nat.lt_ge_cases k n) as [Hk|Hk].
  - rewrite lookup_app_l by (rewrite length_map; lia).
    destruct (lookup_lt_is_Some_2 ps k) as [p Hpk]; [lia|].
    destruct (H _ _ Hpk) as [-> _]. symmetry. change (map fst ps) with (fst <$> ps).
    by rewrite list_lookup_fmap, Hpk.
  - rewrite lookup_app_r by (rewrite length_map; lia). rewrite length_map, Hp.
    change (map snd ps) with (snd <$> ps). rewrite list_lookup_fmap.
    destruct (ps !! (k - n)%nat) as [p|] eqn:Hpk.
    + destruct (H _ _ Hpk) as [_ Hs]. replace (k - n + n)%nat with k in Hs by lia. done.
    + apply lookup_ge_None in Hpk. apply lookup_ge_None. lia.
Qed.

Lemma halves_lookup n (ps : list (TxValidator * TxValidator)) k p :
  length ps = n → ps !! k = Some p →
  (map fst ps ++ map snd ps) !! k = Some p.1 ∧ (map fst ps ++ map snd ps) !! (k + n)%nat = Some p.2.
Proof.
  intros Hp Hk. assert (Hlt := lookup_lt_Some _ _ _ Hk). split.
  - rewrite lookup_app_l by (rewrite length_map; lia). change (map fst ps) with (fst <$> ps).
    by rewrite list_lookup_fmap, Hk.
  - rewrite lookup_app_r by (rewrite length_map; lia). rewrite length_map.
    replace (k + n - length ps)%nat with k by lia. change (map snd ps) with (snd <$> ps).
    by rewrite list_lookup_fmap, Hk.
Qed.

Lemma validateBlock_content rd block :
  Z.of_nat (minValidators_ rd) * 2 < 2 ^ 32 →
  validateBlock rd block = Ok true ↔
  finalized_ block = true ∧
  randomList_ rd !! 0%nat = Some (toAddress (validatorPubKey_ block)) ∧
  Forall (λ tx, vt_nHeight tx = nHeight_ block) (txValidators_ block) ∧
  ∃ ps, round_content rd block ps.
Proof.
  intros Hm. unfold validateBlock. destruct (finalized_ block); cbn [negb]; [|by split; [|intros [? _]]].
  rewrite Z.mod_small by lia. split.
  - intros (signer & Hs%read_at_ok & H)%result_bind_ok. case_bool_decide as Hsig; [done|].
    destruct (Z.eqb_spec (Z.of_nat (length (txValidators_ block))) (Z.of_nat (minValidators_ rd) * 2))
      as [Hl|]; [|done]. cbn [negb] in H.
    destruct (existsb _ _) eqn:Hh; [done|]. apply existsb_heights in Hh.
    apply result_bind_ok in H as ([m|] & Ho & H); [|done].
    case_bool_decide as Hn; [done|]. apply Ok_inj in H. rewrite forallb_check in H.
    apply order_loop_spec in Ho as (ps & Hps & Hat & ->).
    destruct (emplace_all_spec ps [] ltac:(constructor)) as [He _].
    destruct He as [Hnd He]; [by rewrite Hn|]. cbn [app] in Hnd, He. rewrite He in H.
    split; [done|]. split; [by rewrite Hs, Hsig|]. split; [done|]. exists ps. split; [|split; [done|split; [done|]]].
    + apply (pairs_of_halves _ (minValidators_ rd)); [lia|done|]. intros k p Hk.
      by destruct (Hat _ _ Hk) as (? & ? & _).
    + intros k p Hk. destruct (Hat _ _ Hk) as (_ & _ & ? & _). split; [done|by eapply H].
  - intros (_ & Hs & Hh & ps & Htx & Hl & Hnd & Hps).
    apply read_at_ok in Hs. rewrite Hs, result_bind_Ok, bool_decide_eq_false_2 by auto.
    rewrite Htx, length_app, !length_map, Hl.
    destruct (Z.eqb_spec (Z.of_nat (minValidators_ rd + minValidators_ rd))
      (Z.of_nat (minValidators_ rd) * 2)); [|lia]. cbn [negb].
    rewrite <- Htx. apply existsb_heights in Hh. rewrite Hh, Htx.
    destruct (emplace_all_spec ps [] ltac:(constructor)) as [_ He].
    assert (Ho : order_loop (minValidators_ rd) 0 rd (map fst ps ++ map snd ps) []
      = Ok (Some (foldl emplace_pair [] ps))).
    { apply order_loop_spec. exists ps. split; [done|]. split; [|done]. intros k p Hk.
      destruct (Hps _ _ Hk) as [Hv [Hf _]]. destruct (halves_lookup _ _ _ _ Hl Hk) as [H1 H2].
      by split_and!. }
    rewrite Ho, result_bind_Ok. destruct (emplace_all_spec ps [] ltac:(constructor)) as [_ He'].
    assert (Hf : foldl emplace_pair [] ps = ps).
    { clear -Hnd. change ps with ([] ++ ps) in Hnd.
      enough (∀ m, NoDup (pair_keys (m ++ ps)) → foldl emplace_pair m ps = m ++ ps) as H by by apply H.
      clear. induction ps as [|p ps IH]; intros m Hnd; cbn [foldl]; [by rewrite app_nil_r|].
      destruct (emplace_pair_cases m p) as [[Hin E]|[_ E]].
      - exfalso. rewrite pair_keys_app in Hnd. apply NoDup_app in Hnd as (_ & Hd & _).
        apply (Hd _ Hin). left.
      - rewrite E, IH; [by rewrite <- app_assoc|]. by rewrite <- app_assoc. }
    rewrite Hf, bool_decide_eq_false_2 by auto. f_equal. apply forallb_check.
    intros k p Hk. by apply (Hps _ _ Hk).
Qed.

(** C5: a block is valid for the round exactly when it is finalized, signed by the first validator of
    the shuffled list, and holds one commitment and one matching opening from each of the next
    [minValidators] validators, in the order of the list. *)
Theorem validateBlock_spec rd block :
  Z.of_nat (minValidators_ rd) * 2 < 2 ^ 32 →
  validateBlock rd block = Ok true ↔
  finalized_ block = true ∧
  randomList_ rd !! 0%nat = Some (toAddress (validatorPubKey_ block)) ∧
  Forall (λ tx, vt_nHeight tx = nHeight_ block) (txValidators_ block) ∧
  ∃ ps, round_content rd block ps.
Proof. apply validateBlock_content. Qed.

Lemma seeds_of_round ps :
  (∀ p, p ∈ ps → reveals p) →
  concat (map seed_of (map fst ps ++ map snd ps)) = concat (map (λ p, drop 4 (vt_data p.2)) ps).
Proof.
  intros H. rewrite map_app, concat_app, !map_map.
  assert (concat (map (λ p, seed_of p.1) ps) = [] ∧
    map (λ p, seed_of p.2) ps = map (λ p, drop 4 (vt_data p.2)) ps) as [-> ->]; [|done].
  induction ps as [|p ps IH]; [done|]. destruct IH as [IH1 IH2].
  { intros q Hq. apply H. by right. }
  destruct (H p ltac:(left)) as (_ & r & Hl & Hh & Hs). cbn [map concat]. rewrite IH1, IH2.
  unfold seed_of.
  rewrite (proj2 (getTxValidatorFunction_hash p.1)) by (eexists; split; [exact Hh|apply sha3_length]).
  rewrite (proj2 (getTxValidatorFunction_seed p.2)) by by exists r. done.
Qed.

(** the randomness that a valid block hands to the next round is the hash of the validators'
    opened seeds in the order of the list: every seed was committed to in the same block, and the
    commitments themselves add nothing. *)
Theorem validated_block_randomness rd block :
  (0 < minValidators_ rd)%nat → Z.of_nat (minValidators_ rd) * 2 < 2 ^ 32 →
  validateBlock rd block = Ok true →
  ∃ seeds, length seeds = minValidators_ rd ∧
    parseTxSeedList (txValidators_ block) = sha3 (concat seeds) ∧
    ∀ k r, seeds !! k = Some r → length r = 32%nat ∧
      ∃ tx v, txValidators_ block !! k = Some tx ∧ randomList_ rd !! (k + 1)%nat = Some v ∧
        vt_from tx = v ∧ vt_data tx = randomHashHash ++ sha3 r.
Proof.
  intros Hpos Hm Hv. apply validateBlock_content in Hv as (_ & _ & _ & ps & Htx & Hl & _ & Hps); [|done].
  exists (map (λ p, drop 4 (vt_data p.2)) ps). split; [by rewrite length_map|].
  assert (Hall : ∀ p, p ∈ ps → reveals p).
  { intros p [k Hk]%list_elem_of_lookup. by apply (Hps _ _ Hk). }
  split.
  - rewrite parseTxSeedList_concat, Htx, seeds_of_round; [done|done|].
    rewrite Htx. destruct ps; [simpl in Hl; lia|done].
  - intros k r Hr. change (map ?f ps) with (f <$> ps) in Hr. rewrite list_lookup_fmap in Hr.
    destruct (ps !! k) as [p|] eqn:Hk; [|done]. injection Hr as <-.
    destruct (Hps _ _ Hk) as [Hrl (_ & r & Hlr & Hh & Hs)]. rewrite Hs, drop4_app by done.
    split; [done|]. exists p.1, (vt_from p.1). destruct (halves_lookup _ _ _ _ Hl Hk) as [Hk1 _].
    by rewrite Htx.
Qed.

(** ** The mempool *)

(** What the mempool holds while the chain's latest height is [h]: transactions for the next height
    under their own hash, from validators of the round, at most two each and with two functors. *)
Definition mempool_inv (rd : rdPoS) (h : Z) : Prop :=
  (∀ k tx, validatorMempool_ rd !! k = Some tx →
     k = vt_hash tx ∧ vt_nHeight tx = (h + 1) mod 2 ^ 64 ∧
     vt_from tx ∈ take (minValidators_ rd) (drop 1 (randomList_ rd))) ∧
  (∀ from, (length (txs_of (validatorMempool_ rd) from) ≤ 2)%nat) ∧
  (∀ tx1 tx2, validatorMempool_ rd !! vt_hash tx1 = Some tx1 →
     validatorMempool_ rd !! vt_hash tx2 = Some tx2 → vt_from tx1 = vt_from tx2 →
     take 4 (vt_data tx1) = take 4 (vt_data tx2) → vt_hash tx1 = vt_hash tx2).

Lemma txs_of_insert m tx from :
  m !! vt_hash tx = None →
  txs_of (<[vt_hash tx := tx]> m) from ≡ₚ
  if decide (vt_from tx = from) then tx :: txs_of m from else txs_of m from.
Proof.
  intros Hm. unfold txs_of. rewrite map_to_list_insert, fmap_cons, filter_cons by done. done.
Qed.

Lemma elem_of_txs_of m from tx :
  tx ∈ txs_of m from ↔ vt_from tx = from ∧ ∃ k, m !! k = Some tx.
Proof.
  unfold txs_of. rewrite list_elem_of_filter. apply and_iff_compat_l. split.
  - intros ([k x] & -> & Hin)%list_elem_of_fmap. apply elem_of_map_to_list in Hin. by exists k.
  - intros [k Hk]. apply list_elem_of_fmap. exists (k, tx). split; [done|].
    by apply elem_of_map_to_list.
Qed.

Lemma participates_loop_true n i rd from :
  participates_loop n i rd from = Ok true → from ∈ take n (drop i (randomList_ rd)).
Proof.
  revert i. induction n as [|n IH]; intros i; cbn [participates_loop]; [done|].
  intros (v & Hv%read_at_ok & H)%result_bind_ok. rewrite (drop_S _ _ _ Hv). cbn [take].
  case_bool_decide as Hf; [rewrite Hf; left|right]. by apply IH.
Qed.

Lemma vt_functor_take tx f : vt_functor tx = Ok f → f = take 4 (vt_data tx).
Proof. unfold vt_functor, subspan. case_decide; [|done]. by intros [= <-]. Qed.

(** A transaction that enters: what held of the old pool and the two facts the guards establish. *)
Lemma mempool_inv_insert rd h tx :
  mempool_inv rd h → validatorMempool_ rd !! vt_hash tx = None →
  vt_nHeight tx = (h + 1) mod 2 ^ 64 →
  vt_from tx ∈ take (minValidators_ rd) (drop 1 (randomList_ rd)) →
  (length (txs_of (validatorMempool_ rd) (vt_from tx)) ≤ 1)%nat →
  (∀ old, old ∈ txs_of (validatorMempool_ rd) (vt_from tx) →
     take 4 (vt_data old) ≠ take 4 (vt_data tx)) →
  mempool_inv (with_mempool rd (<[vt_hash tx := tx]> (validatorMempool_ rd))) h.
Proof.
  intros (Hin & Hlen & Hfun) Hnew Hh Hfrom Hone Hdiff. unfold mempool_inv.
  cbn [validatorMempool_ minValidators_ randomList_ with_mempool].
  assert (Hold : ∀ t, validatorMempool_ rd !! vt_hash t = Some t → vt_from t = vt_from tx →
    take 4 (vt_data t) ≠ take 4 (vt_data tx)).
  { intros t Ht Hf. apply Hdiff, elem_of_txs_of. split; [done|by eexists]. }
  split; [|split].
  - intros k t [[<- <-]|[_ Hk]]%lookup_insert_Some; [done|]. by apply Hin.
  - intros from. rewrite (Permutation_length (txs_of_insert _ _ from Hnew)).
    case_decide as Hf; [|apply Hlen]. cbn [length]. rewrite <- Hf. lia.
  - intros t1 t2 [[E1 <-]|[N1 H1]]%lookup_insert_Some [[E2 <-]|[N2 H2]]%lookup_insert_Some Hf Hd;
      [done|..].
    + exfalso. by eapply Hold.
    + exfalso. by eapply Hold.
    + by apply Hfun.
Qed.

Lemma addValidatorTx_inv rd h tx b rd' :
  mempool_inv rd h → addValidatorTx h tx rd = (b, rd') → mempool_inv rd' h.
Proof.
  intros Hinv. unfold addValidatorTx. case_bool_decide as Hk; [by intros [= _ <-]|].
  apply eq_None_not_Some in Hk.
  destruct (Z.eqb_spec (vt_nHeight tx) ((h + 1) mod 2 ^ 64)) as [Hh|]; cbn [negb];
    [|by intros [= _ <-]].
  destruct (participates_loop _ _ _ _) as [[]|] eqn:Hp; [|by intros [= _ <-]..].
  apply participates_loop_true in Hp.
  destruct (txs_of (validatorMempool_ rd) (vt_from tx)) as [|old [|]] eqn:Ht; [| |by intros [= _ <-]].
  - intros [= _ <-]. apply mempool_inv_insert; rewrite ?Ht; try done; [simpl; lia|].
    intros old Hold. by apply elem_of_nil in Hold.
  - destruct (vt_functor old) as [f|] eqn:Hf; [|by intros [= _ <-]].
    destruct (vt_functor tx) as [g|] eqn:Hg; [|by intros [= _ <-]].
    case_bool_decide as Hfg; [by intros [= _ <-]|]. intros [= _ <-].
    apply mempool_inv_insert; rewrite ?Ht; try done.
    intros old' Hold. apply list_elem_of_singleton in Hold as ->.
    apply vt_functor_take in Hf, Hg. by rewrite <- Hf, <- Hg.
Qed.

(** ** Reachable states *)

(** The state of the consensus together with the height of the latest stored block. A processed block
    becomes the latest one; both happen under the state's lock. *)
Inductive rdpos_step : rdPoS * Z → rdPoS * Z → Prop :=
| step_add rd h tx b rd' :
    addValidatorTx h tx rd = (b, rd') → rdpos_step (rd, h) (rd', h)
| step_process rd h block r rd' :
    processBlock block rd = (Ok r, rd') → rdpos_step (rd, h) (rd', nHeight_ block)
| step_clear rd h : rdpos_step (rd, h) (clearMempool rd, h).

Inductive rdpos_reachable : rdPoS * Z → Prop :=
| reach_init db genesis minV latest rd :
    rdPoS_init db genesis minV latest = Ok rd → rdpos_reachable (rd, nHeight_ latest)
| reach_step s s' : rdpos_reachable s → rdpos_step s s' → rdpos_reachable s'.

Definition rdpos_inv (s : rdPoS * Z) : Prop :=
  mempool_inv s.1 s.2 ∧ randomList_ s.1 ≡ₚ validators_ s.1.

Lemma mempool_inv_empty rd h : validatorMempool_ rd = ∅ → mempool_inv rd h.
Proof.
  intros He. unfold mempool_inv. rewrite He. split; [|split].
  - intros k tx Hk. by rewrite lookup_empty in Hk.
  - intros from. unfold txs_of. rewrite map_to_list_empty. simpl. lia.
  - intros tx1 tx2 Hk. by rewrite lookup_empty in Hk.
Qed.

Lemma rdpos_step_inv s s' : rdpos_inv s → rdpos_step s s' → rdpos_inv s'.
Proof.
  intros Hinv Hstep. revert Hinv.
  destruct Hstep as [rd h tx b rd' H|rd h block r rd' H|rd h]; intros [Hm Hp]; cbn [fst snd] in *.
  - split; [exact (addValidatorTx_inv _ _ _ _ _ Hm H)|]. cbn [fst].
    assert (randomList_ rd' = randomList_ rd ∧ validators_ rd' = validators_ rd) as [-> ->]; [|done].
    revert H. unfold addValidatorTx. repeat case_match; intros [= _ <-]; done.
  - unfold processBlock in H. destruct (negb _); [done|].
    destruct (shuffle _ _) as [l s] eqn:Hs. injection H as _ <-.
    split; [by apply mempool_inv_empty|]. cbn [fst randomList_ validators_].
    change l with (l, s).1. rewrite <- Hs. apply shuffle_loop_permutation.
  - split; [by apply mempool_inv_empty|done].
Qed.

Lemma rdpos_reachable_inv s : rdpos_reachable s → rdpos_inv s.
Proof.
  induction 1 as [db genesis minV latest rd H|s s' _ IH Hs]; [|by eapply rdpos_step_inv].
  unfold rdPoS_init in H. apply result_bind_ok in H as (_ & _ & H).
  destruct (shuffle _ _) as [l s] eqn:Hs. apply Ok_inj in H as <-.
  split; [by apply mempool_inv_empty|]. cbn [fst randomList_ validators_].
  change l with (l, s).1. rewrite <- Hs. apply shuffle_loop_permutation.
Qed.

(** A list whose images lie in [S], each at most [n] times, has at most [n * length S] elements. *)
Lemma pigeonhole {A K} `{EqDecision K} (f : A → K) n (S : list K) (L : list A) :
  (∀ x, x ∈ L → f x ∈ S) → (∀ k, (length (filter (λ x, f x = k) L) ≤ n)%nat) →
  (length L ≤ n * length S)%nat.
Proof.
  revert L. induction S as [|k S IH]; intros L Hin Hn.
  - destruct L as [|x L]; [simpl; lia|]. exfalso. apply (not_elem_of_nil (f x)), Hin. left.
  - specialize (IH (filter (λ x, f x ≠ k) L)).
    assert (Hsum : length L = (length (filter (λ x, f x = k) L) + length (filter (λ x, f x ≠ k) L))%nat).
    { clear. induction L as [|x L IH]; [done|]. rewrite !filter_cons.
      destruct (decide (f x = k)); [rewrite decide_False by auto|rewrite decide_True by auto];
        cbn [length]; lia. }
    assert (length (filter (λ x, f x ≠ k) L) ≤ n * length S)%nat.
    { apply IH.
      - intros x [Hx Hl]%list_elem_of_filter. apply Hin, elem_of_cons in Hl as [?|?]; done.
      - intros k'. etrans; [|apply (Hn k')]. rewrite list_filter_filter.
        clear. induction L as [|x L IH]; [done|]. rewrite !filter_cons.
        destruct (decide (f x = k')) as [E|E].
        + destruct (decide (f x ≠ k)); [rewrite decide_True by auto|rewrite decide_False by tauto];
            cbn [length]; lia.
        + rewrite decide_False by tauto. lia. }
    specialize (Hn k). cbn [length]. lia.
Qed.

(** C8: in every state the node can reach, the shuffled list is a permutation of the validator set and
    the mempool holds only transactions for the next height, from the validators of the round, at most
    two from each; it never grows beyond [2 * minValidators], the number a block needs. *)
Theorem mempool_bounded rd h :
  rdpos_reachable (rd, h) →
  randomList_ rd ≡ₚ validators_ rd ∧ mempool_inv rd h ∧
  (size (validatorMempool_ rd) ≤ 2 * minValidators_ rd)%nat.
Proof.
  intros [Hm Hp]%rdpos_reachable_inv. cbn [fst snd] in *. split; [done|]. split; [done|].
  destruct Hm as (Hin & Hlen & _).
  assert (Hs : length (map_to_list (validatorMempool_ rd)).*2 = size (validatorMempool_ rd)).
  { rewrite length_fmap. apply length_map_to_list. }
  rewrite <- Hs. etrans; [apply (pigeonhole vt_from 2
    (take (minValidators_ rd) (drop 1 (randomList_ rd))))|].
  - intros tx ([k t] & -> & Hk)%list_elem_of_fmap. apply elem_of_map_to_list in Hk. by apply Hin in Hk as (_ & _ & ?).
  - apply Hlen.
  - rewrite length_take. lia.
Qed.
End rdPoS.

(** ** Witnesses *)

Definition toy_val_data (data : list Z) : TxValidator :=
  match @TxValidator_new toy_secp boost_ref toy_hash (@toAddress toy_hash toy_pubkey) data 8080 7
    (replicate 32 1) with
  | Ok tx => tx
  | Throw _ => mkTxValidator [] [] 0 0 0 0 0 []
  end.

Definition toy_commit : TxValidator :=
  toy_val_data (randomHashHash ++ @sha3 toy_hash (replicate 32 6)).
Definition toy_reveal : TxValidator := toy_val_data (randomSeedHash ++ replicate 32 6).

Definition toy_rdpos : rdPoS :=
  let a := @toAddress toy_hash toy_pubkey in mkRdPoS [a] [a; a] ∅ zero_hash zero_hash 1.

Definition toy_round_block : Block :=
  (@finalize toy_secp boost_ref toy_hash
    (with_txs (Block_new (replicate 32 8) 1000 7) [] [toy_commit; toy_reveal]) (replicate 32 1) 2000).2.

Lemma validateBlock_spec_witness :
  @validateBlock toy_hash toy_rdpos toy_round_block = Ok true ∧
  ∃ ps, @round_content toy_hash toy_rdpos toy_round_block ps.
Proof.
  assert (H : @validateBlock toy_hash toy_rdpos toy_round_block = Ok true) by by vm_compute.
  split; [exact H|].
  destruct (@validateBlock_spec toy_hash toy_rdpos toy_round_block) as [Hf _].
  - reflexivity.
  - destruct (Hf H) as (_ & _ & _ & Hps). exact Hps.
Defined.

Lemma validated_block_randomness_witness :
  ∃ seeds, length seeds = 1%nat ∧
    @parseTxSeedList toy_hash (txValidators_ toy_round_block) = @sha3 toy_hash (concat seeds).
Proof.
  destruct (@validated_block_randomness toy_hash toy_rdpos toy_round_block) as (seeds & H1 & H2 & _).
  - cbn. lia.
  - reflexivity.
  - by vm_compute.
  - exists seeds. exact (conj H1 H2).
Defined.

Definition toy_rdpos_start : rdPoS :=
  let a := @toAddress toy_hash toy_pubkey in
  match @rdPoS_init boost_ref toy_hash [] [a; replicate 20 1] 1 (Block_new zero_hash 0 6) with
  | Ok rd => rd
  | Throw _ => toy_rdpos
  end.

Definition toy_val_from (from data hash : list Z) : TxValidator :=
  mkTxValidator from data 8080 7 0 0 0 hash.

Definition toy_rdpos_one : rdPoS :=
  let from := randomList_ toy_rdpos_start !!! 1%nat in
  (addValidatorTx 6 (toy_val_from from (randomHashHash ++ replicate 32 6) [1]) toy_rdpos_start).2.

Lemma mempool_bounded_witness :
  size (validatorMempool_ toy_rdpos_one) = 1%nat ∧
  (size (validatorMempool_ toy_rdpos_one) ≤ 2 * 1)%nat.
Proof.
  split; [by vm_compute|].
  destruct (@mempool_bounded boost_ref toy_hash toy_rdpos_one 6) as (_ & _ & H).
  - apply (reach_step (toy_rdpos_start, 6)).
    + apply (reach_init [] [@toAddress toy_hash toy_pubkey; replicate 20 1] 1
        (Block_new zero_hash 0 6)).
      vm_compute. reflexivity.
    + eapply step_add. unfold toy_rdpos_one. apply surjective_pairing.
  - replace (minValidators_ toy_rdpos_one) with 1%nat in H by (vm_compute; reflexivity). exact H.
Defined.
