(* ===== verification/RoundWorker.v ===== *)
(** * RoundWorker: the validators of a round (src/core/rdpos.cpp, class rdPoSWorker)

    [doTxCreation] commits to a seed, waits for the mempool to hold [minValidators] transactions and then
    reveals the seed; [doBlockCreation] waits for all of them.  [stop] raises a flag that ends the wait: the thread
    then returns from inside the loop, or falls out of it and reveals its seed whatever the mempool holds.  The
    thread's polling is a step relation: what it does between two waits is one step, the network delivers what
    others broadcast at any time, and any worker may be stopped at any time. *)

From S2P Require Import Prelude Bytes SizedInts Hashing ECDSA Tx TxValidator Randomness Block RdPoS.

Inductive phase :=
| Creating
| Waiting (hashTx seedTx : TxValidator)    (* the commitment is broadcast *)
| GaveUp (hashTx : TxValidator)            (* stopped: returned from inside the wait *)
| Revealed (hashTx seedTx : TxValidator).

Record worker := mkWorker {
  me_ : list Z;
  validatorKey_ : list Z;
  w_rdpos : rdPoS;
  phase_ : phase;
  stopWorker_ : bool
}.

Section worker.
Context {LS : LibSecp256k1} {BB : BoostBits} {KC : Keccak}.
Variables (latestHeight chainID : Z).

(** The two transactions of [doTxCreation], for a random hash; [None] is the early return. *)
Definition creation_txs (randomness me key : list Z) (nHeight : Z) : result (option (TxValidator * TxValidator)) :=
  let randomHash := sha3 randomness in
  hashTx ← TxValidator_new me (randomHashHash ++ randomHash) chainID nHeight key;
  seedTx ← TxValidator_new me (randomSeedHash ++ randomness) chainID nHeight key;
  if bool_decide (sha3 (drop 4 (vt_data seedTx)) ≠ drop 4 (vt_data hashTx)) then Ok None else Ok (Some (hashTx, seedTx)).

(** [doTxCreation] up to its wait: the commitment enters the mempool and is broadcast. *)
Definition commit_step (randomness : list Z) (w : worker) : result worker :=
  txs ← creation_txs randomness (me_ w) (validatorKey_ w) ((latestHeight + 1) mod 2 ^ 64);
  match txs with
  | None => Ok w
  | Some (hashTx, seedTx) =>
      let '(r, rd) := addValidatorTx latestHeight hashTx (w_rdpos w) in
      _ ← r; Ok (mkWorker (me_ w) (validatorKey_ w) rd (Waiting hashTx seedTx) (stopWorker_ w))
  end.

(** The condition on the mempool in the wait, the negation of the loop's condition, and what follows the loop. *)
Definition enough_txs (w : worker) : bool := (minValidators_ (w_rdpos w) <=? size (validatorMempool_ (w_rdpos w)))%nat.

Definition wait_over (w : worker) : bool := enough_txs w || stopWorker_ w.

Definition reveal_step (w : worker) : result worker :=
  match phase_ w with
  | Waiting hashTx seedTx =>
      if wait_over w then
        let '(r, rd) := addValidatorTx latestHeight seedTx (w_rdpos w) in
        _ ← r; Ok (mkWorker (me_ w) (validatorKey_ w) rd (Revealed hashTx seedTx) (stopWorker_ w))
      else Ok w
  | _ => Ok w
  end.

(** The early return of the wait, in its loop over the connected nodes. *)
Definition give_up_step (w : worker) : worker :=
  match phase_ w with
  | Waiting hashTx _ =>
      if stopWorker_ w then mkWorker (me_ w) (validatorKey_ w) (w_rdpos w) (GaveUp hashTx) true else w
  | _ => w
  end.

(** [stop], before it waits for the thread. *)
Definition stop_step (w : worker) : worker := mkWorker (me_ w) (validatorKey_ w) (w_rdpos w) (phase_ w) true.

(** A transaction from another node. *)
Definition receive_step (tx : TxValidator) (w : worker) : result worker :=
  let '(r, rd) := addValidatorTx latestHeight tx (w_rdpos w) in
  _ ← r; Ok (mkWorker (me_ w) (validatorKey_ w) rd (phase_ w) (stopWorker_ w)).

(** The condition that ends [doBlockCreation] ([minValidators] is a [uint32_t]). *)
Definition can_create_block (rd : rdPoS) : bool :=
  Z.of_nat (size (validatorMempool_ rd)) =? Z.of_nat (minValidators_ rd) * 2 mod 2 ^ 32.

(** ** A network of validators that run this code *)

Definition broadcasts (w : worker) : list TxValidator :=
  match phase_ w with Creating => [] | Waiting h _ | GaveUp h => [h] | Revealed h s => [h; s] end.

Definition wire (ws : list worker) : list TxValidator := ws ≫= broadcasts.

Inductive net_step : list worker → list worker → Prop :=
| net_commit ws i w w' randomness :
    ws !! i = Some w → phase_ w = Creating → commit_step randomness w = Ok w' → net_step ws (<[i := w']> ws)
| net_reveal ws i w w' : ws !! i = Some w → reveal_step w = Ok w' → net_step ws (<[i := w']> ws)
| net_deliver ws i w w' tx :
    ws !! i = Some w → tx ∈ wire ws → receive_step tx w = Ok w' → net_step ws (<[i := w']> ws)
| net_stop ws i w : ws !! i = Some w → net_step ws (<[i := stop_step w]> ws)
| net_give_up ws i w : ws !! i = Some w → net_step ws (<[i := give_up_step w]> ws).

(** The start of a round: every mempool is empty, and the round has as many validators as nodes. *)
Definition round_start (ws : list worker) : Prop :=
  Forall (λ w, phase_ w = Creating ∧ validatorMempool_ (w_rdpos w) = ∅ ∧ minValidators_ (w_rdpos w) = length ws) ws.

Inductive net_reachable : list worker → Prop :=
| net_start ws : round_start ws → net_reachable ws
| net_next ws ws' : net_reachable ws → net_step ws ws' → net_reachable ws'.

(** *** The invariant *)

Definition committed (w : worker) : bool := match phase_ w with Creating => false | _ => true end.
Definition stopped (ws : list worker) : bool := existsb stopWorker_ ws.
Definition revealed (w : worker) : bool := match phase_ w with Revealed _ _ => true | _ => false end.

Definition pool_from (txs : list TxValidator) (n : nat) (w : worker) : Prop :=
  (∀ k tx, validatorMempool_ (w_rdpos w) !! k = Some tx → k = vt_hash tx ∧ tx ∈ txs) ∧ minValidators_ (w_rdpos w) = n.

Definition net_inv (ws : list worker) : Prop :=
  Forall (pool_from (wire ws) (length ws)) ws ∧
  (stopped ws = false → existsb revealed ws = true → forallb committed ws = true).

(** [addValidatorTx] adds the transaction or nothing. *)
Lemma addValidatorTx_pool h tx rd r rd' :
  addValidatorTx h tx rd = (r, rd') →
  minValidators_ rd' = minValidators_ rd ∧
  (validatorMempool_ rd' = validatorMempool_ rd ∨ validatorMempool_ rd' = <[vt_hash tx := tx]> (validatorMempool_ rd)).
Proof. unfold addValidatorTx. repeat case_match; intros [= _ <-]; cbn; auto. Qed.

Lemma pool_from_add txs txs' n w tx r rd' key ph me st :
  pool_from txs n w → (∀ t, t ∈ txs → t ∈ txs') → tx ∈ txs' → addValidatorTx latestHeight tx (w_rdpos w) = (r, rd') →
  pool_from txs' n (mkWorker me key rd' ph st).
Proof.
  intros [Hp Hn] Hin Ht H. apply addValidatorTx_pool in H as [Hm Hpool]. split; [|by cbn; rewrite Hm]. cbn [w_rdpos].
  intros k t Hk. destruct Hpool as [E|E]; rewrite E in Hk.
  - destruct (Hp _ _ Hk). auto.
  - apply lookup_insert_Some in Hk as [[<- <-]|[_ Hk]]; [done|]. destruct (Hp _ _ Hk). auto.
Qed.

Lemma pool_from_weaken txs txs' n w : (∀ t, t ∈ txs → t ∈ txs') → pool_from txs n w → pool_from txs' n w.
Proof. intros Hin [Hp Hn]. split; [|done]. intros k t Hk. destruct (Hp _ _ Hk). auto. Qed.

Lemma wire_elem ws tx : tx ∈ wire ws ↔ ∃ i w, ws !! i = Some w ∧ tx ∈ broadcasts w.
Proof.
  unfold wire. rewrite list_elem_of_bind. split.
  - intros (w & Hb & [i Hi]%list_elem_of_lookup). by exists i, w.
  - intros (i & w & Hi & Hb). exists w. split; [done|]. by eapply list_elem_of_lookup_2.
Qed.

(** A node that has broadcast more makes the wire longer. *)
Lemma wire_update ws i w w' :
  ws !! i = Some w → (∀ t, t ∈ broadcasts w → t ∈ broadcasts w') → ∀ t, t ∈ wire ws → t ∈ wire (<[i := w']> ws).
Proof.
  intros Hi Hb t (j & v & Hj & Ht)%wire_elem. apply wire_elem. assert (Hlt := lookup_lt_Some _ _ _ Hi).
  destruct (decide (j = i)) as [->|Hne].
  - exists i, w'. rewrite list_lookup_insert_eq by done. split; [done|]. apply Hb. congruence.
  - exists j, v. by rewrite list_lookup_insert_ne.
Qed.

Lemma wire_own ws i w' t : (i < length ws)%nat → t ∈ broadcasts w' → t ∈ wire (<[i := w']> ws).
Proof. intros Hi Ht. apply wire_elem. exists i, w'. by rewrite list_lookup_insert_eq. Qed.

(** While nobody has revealed, the wire holds one transaction of each node that has committed. *)
Lemma wire_unrevealed ws : existsb revealed ws = false → length (wire ws) = length (filter (λ w, committed w) ws).
Proof.
  induction ws as [|w ws IH]; [done|]. cbn [existsb]. intros [Hw Hws]%orb_false_iff.
  unfold wire. rewrite bind_cons, length_app, filter_cons. fold (wire ws). rewrite IH by done.
  unfold broadcasts, committed, revealed in *. destruct (phase_ w) as [|h s|h|h s]; [| | |done].
  - by rewrite decide_False by (intros []).
  - by rewrite decide_True.
  - by rewrite decide_True.
Qed.

(** A mempool that draws on the wire is no larger. *)
Lemma pool_size txs n w : pool_from txs n w → (size (validatorMempool_ (w_rdpos w)) ≤ length txs)%nat.
Proof.
  intros [Hp _]. rewrite <- length_map_to_list, <- (length_fmap snd). apply submseteq_length, NoDup_submseteq.
  - apply NoDup_fmap_2_strong; [|apply NoDup_map_to_list]. intros [k t] [k' t'] H1 H2 E. cbn in E. subst t'.
    apply elem_of_map_to_list in H1, H2. destruct (Hp _ _ H1) as [-> _], (Hp _ _ H2) as [-> _]. done.
  - intros t ([k t'] & -> & Hk)%list_elem_of_fmap. apply elem_of_map_to_list in Hk. by destruct (Hp _ _ Hk).
Qed.

Lemma all_committed ws : (length ws ≤ length (filter (λ w, committed w) ws))%nat → forallb committed ws = true.
Proof.
  induction ws as [|w ws IH]; [done|]. rewrite filter_cons. cbn [forallb length].
  assert (H := length_filter (λ w, committed w) ws). destruct (committed w); cbn [Is_true].
  - rewrite decide_True by done. cbn [length]. intros. apply IH. lia.
  - rewrite decide_False by (intros []). lia.
Qed.

Lemma all_committed_at ws : forallb committed ws = true ↔ ∀ i w, ws !! i = Some w → committed w = true.
Proof.
  rewrite forallb_forall. split.
  - intros H i w Hi. by apply H, list_elem_of_In, (list_elem_of_lookup_2 _ i).
  - intros H w [i Hi]%list_elem_of_In%list_elem_of_lookup. by eapply H.
Qed.

Lemma some_revealed_at ws : existsb revealed ws = true ↔ ∃ i w, ws !! i = Some w ∧ revealed w = true.
Proof.
  rewrite existsb_exists. split.
  - intros (w & [i Hi]%list_elem_of_In%list_elem_of_lookup & Hw). by exists i, w.
  - intros (i & w & Hi & Hw). exists w. split; [|done]. by apply list_elem_of_In, (list_elem_of_lookup_2 _ i).
Qed.

(** The flag is never lowered. *)
Lemma stopped_update ws i w w' :
  ws !! i = Some w → (stopWorker_ w = true → stopWorker_ w' = true) → stopped (<[i := w']> ws) = false →
  stopped ws = false ∧ stopWorker_ w' = false.
Proof.
  intros Hi Hst Hn. assert (Hlt := lookup_lt_Some _ _ _ Hi). unfold stopped in *.
  assert (Hall : ∀ j v, (<[i := w']> ws) !! j = Some v → stopWorker_ v = false).
  { intros j v Hj. apply not_true_iff_false. intros Hv. apply not_true_iff_false in Hn. apply Hn, existsb_exists.
    exists v. split; [by apply list_elem_of_In, (list_elem_of_lookup_2 _ j)|done]. }
  assert (Hw' := Hall i w' ltac:(by rewrite list_lookup_insert_eq)). split; [|done].
  apply not_true_iff_false. intros (v & [j Hj]%list_elem_of_In%list_elem_of_lookup & Hv)%existsb_exists.
  destruct (decide (j = i)) as [->|Hne].
  - assert (v = w) as -> by congruence. rewrite Hst in Hw' by done. done.
  - rewrite (Hall j v) in Hv; [done|by rewrite list_lookup_insert_ne].
Qed.

Lemma net_inv_update ws i w w' :
  net_inv ws → ws !! i = Some w → (∀ t, t ∈ broadcasts w → t ∈ broadcasts w') → (committed w = true → committed w' = true) →
  (stopWorker_ w = true → stopWorker_ w' = true) → pool_from (wire (<[i := w']> ws)) (length ws) w' →
  (stopWorker_ w' = false → stopped ws = false → revealed w' = true → revealed w = true ∨ forallb committed ws = true) →
  net_inv (<[i := w']> ws).
Proof.
  intros [Hp Hr] Hi Hb Hc Hst Hw' Hrev. assert (Hlt := lookup_lt_Some _ _ _ Hi). split.
  - rewrite length_insert. apply Forall_insert; [|done]. eapply Forall_impl; [exact Hp|]. intros v.
    apply pool_from_weaken. by eapply wire_update.
  - intros [Hns Hns']%(stopped_update _ _ w); [|done..]. specialize (Hr Hns). specialize (Hrev Hns' Hns).
    intros Hex. assert (Hall : forallb committed ws = true).
    { apply some_revealed_at in Hex as (j & v & Hj & Hv). destruct (decide (j = i)) as [->|Hne].
      - rewrite list_lookup_insert_eq in Hj by done. injection Hj as <-. destruct (Hrev Hv) as [Hv'|]; [|done].
        apply Hr, some_revealed_at. by exists i, w.
      - rewrite list_lookup_insert_ne in Hj by done. apply Hr, some_revealed_at. by exists j, v. }
    rewrite all_committed_at in Hall |- *. intros j v Hj. destruct (decide (j = i)) as [->|Hne].
    + rewrite list_lookup_insert_eq in Hj by done. injection Hj as <-. by apply Hc, (Hall i).
    + rewrite list_lookup_insert_ne in Hj by done. by apply (Hall j).
Qed.

(** A node that has seen enough transactions has seen every commitment. *)
Lemma enough_all_committed ws i w :
  net_inv ws → stopped ws = false → ws !! i = Some w → enough_txs w = true → forallb committed ws = true.
Proof.
  intros [Hp Hr] Hns Hi He. destruct (existsb revealed ws) eqn:Hex; [auto|]. apply all_committed.
  rewrite <- wire_unrevealed by done. rewrite Forall_lookup in Hp. assert (Hw := Hp _ _ Hi).
  assert (Hs := pool_size _ _ _ Hw). destruct Hw as [_ Hn]. unfold enough_txs in He. apply Nat.leb_le in He. lia.
Qed.

Lemma net_step_inv ws ws' : net_inv ws → net_step ws ws' → net_inv ws'.
Proof.
  intros Hinv Hstep. assert (Hpools := proj1 Hinv). rewrite Forall_lookup in Hpools.
  destruct Hstep as [ws i w w' rnd Hi Hph H|ws i w w' Hi H|ws i w w' tx Hi Htx H|ws i w Hi|ws i w Hi];
    assert (Hlt := lookup_lt_Some _ _ _ Hi); assert (Hpool := Hpools _ _ Hi).
  - unfold commit_step in H. apply result_bind_ok in H as (txs & _ & H). destruct txs as [[h s]|].
    + destruct (addValidatorTx _ _ _) as [r rd] eqn:E. apply result_bind_ok in H as (? & -> & <-%Ok_inj).
      apply (net_inv_update ws i w); [done|done| |done|done| |done].
      * unfold broadcasts. rewrite Hph. by intros t ?%not_elem_of_nil.
      * eapply pool_from_add; [exact Hpool| | |exact E].
        -- eapply wire_update; [done|]. unfold broadcasts. rewrite Hph. by intros t ?%not_elem_of_nil.
        -- apply wire_own; [done|]. left.
    + apply Ok_inj in H as <-. by rewrite list_insert_id.
  - unfold reveal_step in H. destruct (phase_ w) as [|h s|h|h s] eqn:Hph; try (apply Ok_inj in H as <-; by rewrite list_insert_id).
    destruct (wait_over w) eqn:He; [|apply Ok_inj in H as <-; by rewrite list_insert_id].
    destruct (addValidatorTx _ _ _) as [r rd] eqn:E. apply result_bind_ok in H as (? & -> & <-%Ok_inj).
    assert (Hsub : ∀ t, t ∈ broadcasts w → t ∈ broadcasts (mkWorker (me_ w) (validatorKey_ w) rd (Revealed h s) (stopWorker_ w))).
    { unfold broadcasts. rewrite Hph. cbn [phase_]. intros t ->%list_elem_of_singleton. left. }
    apply (net_inv_update ws i w); [done..| |].
    + eapply pool_from_add; [exact Hpool|by eapply wire_update| |exact E]. apply wire_own; [done|]. right. left.
    + cbn [stopWorker_]. intros Hw Hns _. right. unfold wait_over in He. rewrite Hw, orb_false_r in He.
      by eapply enough_all_committed.
  - unfold receive_step in H. destruct (addValidatorTx _ _ _) as [r rd] eqn:E. apply result_bind_ok in H as (? & -> & <-%Ok_inj).
    apply (net_inv_update ws i w); [done..| |by left].
    eapply pool_from_add; [exact Hpool|by eapply wire_update| |exact E]. by eapply wire_update.
  - apply (net_inv_update ws i w); [done..| |by left].
    eapply pool_from_weaken; [|exact Hpool]. by eapply wire_update.
  - unfold give_up_step. destruct (phase_ w) as [|h s|h|h s] eqn:Hph; try by rewrite list_insert_id.
    destruct (stopWorker_ w) eqn:Hst; [|by rewrite list_insert_id].
    assert (Hsub : ∀ t, t ∈ broadcasts w → t ∈ broadcasts (mkWorker (me_ w) (validatorKey_ w) (w_rdpos w) (GaveUp h) true)).
    { unfold broadcasts. by rewrite Hph. }
    apply (net_inv_update ws i w); [done..| |done].
    eapply pool_from_weaken; [|exact Hpool]. by eapply wire_update.
Qed.

Lemma round_start_inv ws : round_start ws → net_inv ws.
Proof.
  intros Hs. split.
  - eapply Forall_impl; [exact Hs|]. intros w (_ & Hm & Hn). split; [|done]. intros k t Hk. by rewrite Hm, lookup_empty in Hk.
  - intros _ (i & w & Hi & Hw)%some_revealed_at. unfold round_start in Hs. rewrite Forall_lookup in Hs. destruct (Hs _ _ Hi) as (Hph & _).
    unfold revealed in Hw. by rewrite Hph in Hw.
Qed.

(** C38: In a network of validators that run this code, whatever the order in which messages arrive, and as long as no
    worker has been stopped, nobody reveals a seed before every validator of the round has committed to its own. (A
    worker that is stopped may reveal its seed early: [stopped_worker_reveals].) *)
Theorem commitments_before_seeds ws i j w v :
  net_reachable ws → stopped ws = false → ws !! i = Some w → ws !! j = Some v → revealed w = true → committed v = true.
Proof.
  intros Hr Hns Hi Hj Hw. assert (Hinv : net_inv ws).
  { clear Hi Hj Hns. induction Hr as [ws Hs|ws ws' _ IH Hs]; [by apply round_start_inv|by eapply net_step_inv]. }
  destruct Hinv as [_ Hinv]. refine (proj1 (all_committed_at ws) (Hinv Hns _) j v Hj). apply some_revealed_at. by exists i, w.
Qed.
End worker.

(** ** A round of two validators *)

(** A key is its own point, and a signature names the key: enough to tell signers apart. *)
Definition key_ok (k : list Z) : bool :=
  bool_decide (length k = 32%nat) && forallb (λ b, (0 <=? b) && (b <? 256)) k && (0 <? be_decode k) && (be_decode k <? ecConst).

Program Definition named_secp : LibSecp256k1 := {|
  secp_recover sig v msg := Some (4 :: zero_bytes 32 ++ take 32 sig);
  secp_pubkey_create k := if key_ok k then Some (4 :: zero_bytes 32 ++ k) else None;
  secp_sign m k := if key_ok k then Some (k ++ be_encode 32 1, 0) else None
|}.
Next Obligation.
  intros k p. cbv beta. destruct (key_ok k) eqn:E; [|done]. intros [= <-]. unfold key_ok in E.
  rewrite !andb_true_iff, bool_decide_eq_true in E. destruct E as (((Hl & _) & _) & _). split; [cbn; by rewrite Hl|done].
Qed.
Next Obligation.
  intros m k sig v. cbv beta. destruct (key_ok k) eqn:E; [|done]. intros [= <- <-]. unfold key_ok in E.
  rewrite !andb_true_iff, bool_decide_eq_true, forallb_forall, !Z.ltb_lt in E. destruct E as (((Hl & Hb) & H0) & H1).
  split; [by rewrite length_app, Hl|]. split.
  { apply Forall_app. split; [|apply be_encode_ok]. apply Forall_forall. intros x Hx%list_elem_of_In%Hb.
    apply andb_true_iff in Hx as [Hx1%Z.leb_le Hx2%Z.ltb_lt]. done. }
  rewrite take_app_length', drop_app_length' by done. split; [lia|]. split; [done|by vm_compute].
Qed.

(** A hash that depends on every byte. *)
Program Definition mixed_hash : Keccak := {| ethash_keccak256 b := be_encode 4 (Z.of_nat (length b)) ++ be_encode 28 (be_decode b mod (2 ^ 224 - 63)) |}.
Next Obligation. intros b. cbv beta. by rewrite length_app, !be_encode_length. Qed.
Next Obligation. intros b. apply Forall_app. split; apply be_encode_ok. Qed.

Definition toy_key (n : Z) : list Z := zero_bytes 31 ++ [n].
Definition toy_validator (n : Z) : list Z := @toAddress mixed_hash (@toUPub named_secp (toy_key n)).

Definition toy_round (n : Z) (min : nat) : worker :=
  mkWorker (toy_validator n) (toy_key n)
    (mkRdPoS (map toy_validator [9; 1; 2; 3]) (map toy_validator [9; 1; 2; 3]) ∅ zero_hash zero_hash min) Creating false.

Definition or_stay (r : result worker) (w : worker) : worker := match r with Ok w => w | Throw _ => w end.
Abbreviation toy_commit_step n w := (@commit_step named_secp boost_ref mixed_hash 6 8080 (replicate 32 n) w).

(** Each commits, hears of the other, and reveals. *)
Definition toy_c1 : worker := Eval vm_compute in or_stay (toy_commit_step 11 (toy_round 1 2)) (toy_round 1 2).
Definition toy_c2 : worker := Eval vm_compute in or_stay (toy_commit_step 12 (toy_round 2 2)) (toy_round 2 2).
Definition toy_heard : worker := Eval vm_compute in foldl (λ w tx, or_stay (receive_step 6 tx w) w) toy_c1 (broadcasts toy_c2).
Definition toy_opened : worker := Eval vm_compute in or_stay (reveal_step 6 toy_heard) toy_heard.

Abbreviation toy_reachable := (@net_reachable named_secp boost_ref mixed_hash 6 8080).

Abbreviation toy_net_step := (@net_step named_secp boost_ref mixed_hash 6 8080).

Lemma toy_commits_1 : toy_commit_step 11 (toy_round 1 2) = Ok toy_c1.
Proof. vm_cast_no_check (eq_refl (Ok toy_c1)). Qed.
Lemma toy_commits_2 : toy_commit_step 12 (toy_round 2 2) = Ok toy_c2.
Proof. vm_cast_no_check (eq_refl (Ok toy_c2)). Qed.
Definition toy_message : TxValidator := Eval vm_compute in hd toy_val (broadcasts toy_c2).
Lemma toy_hears : receive_step 6 toy_message toy_c1 = Ok toy_heard.
Proof. vm_cast_no_check (eq_refl (Ok toy_heard)). Qed.
Lemma toy_reveals : reveal_step 6 toy_heard = Ok toy_opened.
Proof. vm_cast_no_check (eq_refl (Ok toy_opened)). Qed.
Lemma toy_message_sent : toy_message ∈ wire [toy_c1; toy_c2].
Proof. apply list_elem_of_further. cbn. left. Qed.

Lemma toy_schedule : toy_reachable [toy_opened; toy_c2].
Proof.
  assert (H0 : toy_reachable [toy_round 1 2; toy_round 2 2]) by (apply net_start; by repeat constructor).
  assert (H1 : toy_net_step [toy_round 1 2; toy_round 2 2] [toy_c1; toy_round 2 2])
    by exact (net_commit 6 8080 [toy_round 1 2; toy_round 2 2] 0 _ _ _ eq_refl eq_refl toy_commits_1).
  assert (H2 : toy_net_step [toy_c1; toy_round 2 2] [toy_c1; toy_c2])
    by exact (net_commit 6 8080 [toy_c1; toy_round 2 2] 1 _ _ _ eq_refl eq_refl toy_commits_2).
  assert (H3 : toy_net_step [toy_c1; toy_c2] [toy_heard; toy_c2])
    by exact (net_deliver 6 8080 [toy_c1; toy_c2] 0 _ _ _ eq_refl toy_message_sent toy_hears).
  assert (H4 : toy_net_step [toy_heard; toy_c2] [toy_opened; toy_c2])
    by exact (net_reveal 6 8080 [toy_heard; toy_c2] 0 _ _ eq_refl toy_reveals).
  exact (net_next _ _ _ _ (net_next _ _ _ _ (net_next _ _ _ _ (net_next _ _ _ _ H0 H1) H2) H3) H4).
Qed.

Lemma commitments_before_seeds_witness : revealed toy_opened = true ∧ committed toy_c2 = true.
Proof.
  split; [by vm_compute|].
  apply (@commitments_before_seeds named_secp boost_ref mixed_hash 6 8080 [toy_opened; toy_c2] 0 1 toy_opened toy_c2);
    [exact toy_schedule|by vm_compute|done|done|by vm_compute].
Defined.

(** A worker that is stopped while it waits reveals its seed, though nobody else has committed. *)
Definition toy_leaver : worker := Eval vm_compute in or_stay (reveal_step 6 (stop_step toy_c1)) (stop_step toy_c1).

Lemma toy_leaves : reveal_step 6 (stop_step toy_c1) = Ok toy_leaver.
Proof. vm_cast_no_check (eq_refl (Ok toy_leaver)). Qed.

Theorem stopped_worker_reveals :
  toy_reachable [toy_leaver; toy_round 2 2] ∧ revealed toy_leaver = true ∧ enough_txs toy_c1 = false ∧
  committed (toy_round 2 2) = false.
Proof.
  split; [|by vm_compute].
  assert (H0 : toy_reachable [toy_round 1 2; toy_round 2 2]) by (apply net_start; by repeat constructor).
  assert (H1 : toy_net_step [toy_round 1 2; toy_round 2 2] [toy_c1; toy_round 2 2])
    by exact (net_commit 6 8080 [toy_round 1 2; toy_round 2 2] 0 _ _ _ eq_refl eq_refl toy_commits_1).
  assert (H2 : toy_net_step [toy_c1; toy_round 2 2] [stop_step toy_c1; toy_round 2 2])
    by exact (net_stop 6 8080 [toy_c1; toy_round 2 2] 0 _ eq_refl).
  assert (H3 : toy_net_step [stop_step toy_c1; toy_round 2 2] [toy_leaver; toy_round 2 2])
    by exact (net_reveal 6 8080 [stop_step toy_c1; toy_round 2 2] 0 _ _ eq_refl toy_leaves).
  exact (net_next _ _ _ _ (net_next _ _ _ _ (net_next _ _ _ _ H0 H1) H2) H3).
Qed.

(** The wait counts transactions, not commitments. A validator that sends its commitment and its seed at once makes the
    others reveal theirs while a third, the last to commit, has not committed yet. *)
Definition toy_first : worker := or_stay (toy_commit_step 11 (toy_round 1 3)) (toy_round 1 3).
Definition toy_hasty : list TxValidator :=
  match @creation_txs named_secp boost_ref mixed_hash 8080 (replicate 32 12) (toy_validator 2) (toy_key 2) 7 with
  | Ok (Some (h, s)) => [h; s]
  | _ => []
  end.

Theorem reveal_before_commitments :
  let w := foldl (λ w tx, or_stay (receive_step 6 tx w) w) toy_first toy_hasty in
  length toy_hasty = 2%nat ∧ revealed (or_stay (reveal_step 6 w) w) = true ∧ txs_of (validatorMempool_ (w_rdpos w)) (toy_validator 3) = [] ∧
  toy_validator 3 ∈ take 3 (drop 1 (randomList_ (w_rdpos w))).
Proof. cbv zeta. split; [by vm_compute|]. split; [by vm_compute|]. split; [by vm_compute|]. by_compute. Qed.
