(* ===== verification/SafeBase.v ===== *)
(** * SafeBase: registration and atomicity of contract variables

    [SafeBase] (src/contract/variables/safebase.h), the list of used variables of a call
    ([ContractCallLogger], src/contract/contractcalllogger.{h,cpp}) and the interface every SafeVariable
    offers to it: a class of operations and a class of laws, against which the atomicity of a call is
    proved once for all variable types. *)

From S2P Require Import Prelude.

Record SafeBase := mkSafeBase {
  owner_ : bool;             (* the owner pointer is not null *)
  registered_ : bool;
  shouldRegister_ : bool
}.

#[export] Instance SafeBase_eq_dec : EqDecision SafeBase.
Proof. solve_decision. Defined.

Definition set_registered (b : SafeBase) (r : bool) : SafeBase :=
  mkSafeBase (owner_ b) r (shouldRegister_ b).

(** [markAsUsed]: the registration with the owner is seen by [run_on] below as the change of the flag. *)
Definition markAsUsed (b : SafeBase) : SafeBase :=
  if owner_ b && negb (registered_ b) && shouldRegister_ b then set_registered b true else b.

Definition enableRegister (b : SafeBase) : SafeBase := mkSafeBase (owner_ b) (registered_ b) true.

(** The constructors: with an owner, and without one (also the copy constructor). *)
Definition SafeBase_owned : SafeBase := mkSafeBase true false false.
Definition SafeBase_local : SafeBase := mkSafeBase false false false.

(** A variable of a contract after the contract's constructor. *)
Definition tracked (b : SafeBase) : bool := owner_ b && shouldRegister_ b.

(** ** The interface of a SafeVariable *)

Class SafeVariable (V T : Type) := {
  sv_base : V → SafeBase;
  sv_wf : V → Prop;     (* the representation is in order *)
  sv_get : V → T;       (* what the contract's code reads *)
  sv_value : V → T;     (* the committed value *)
  sv_commit : V → V;
  sv_revert : V → V
}.

Class SafeVariableLaws (V T : Type) `{SafeVariable V T} := {
  commit_wf v : sv_wf v → sv_wf (sv_commit v);
  revert_wf v : sv_wf v → sv_wf (sv_revert v);
  commit_value v : sv_wf v → sv_value (sv_commit v) = sv_get v;
  commit_get v : sv_wf v → sv_get (sv_commit v) = sv_get v;
  revert_get v : sv_get (sv_revert v) = sv_value v;
  revert_value v : sv_value (sv_revert v) = sv_value v;
  commit_base v : sv_wf v → sv_base (sv_commit v) = set_registered (sv_base v) false;
  revert_base v : sv_wf v → sv_base (sv_revert v) = set_registered (sv_base v) false
}.

Section call.
Context {V T : Type} `{SV : SafeVariable V T}.

(** A member function that never writes the committed value, keeps the registration flags, and is
    registered whenever it changes what is read. *)
Definition honest {A} (op : M V A) : Prop := ∀ v r v', sv_wf v → op v = (r, v') →
  sv_wf v' ∧ sv_value v' = sv_value v ∧
  owner_ (sv_base v') = owner_ (sv_base v) ∧ shouldRegister_ (sv_base v') = shouldRegister_ (sv_base v) ∧
  (registered_ (sv_base v) = true → registered_ (sv_base v') = true) ∧
  (tracked (sv_base v) = true → registered_ (sv_base v') = false → sv_get v' = sv_get v).

(** ** A call: the variables of the contracts it reaches and the logger's list *)

Record CallState := mkCall { vars : list V; usedVars_ : list nat }.

(** [registerVariableUse] / [addUsedVar]. *)
Definition addUsedVar (s : CallState) (i : nat) : CallState := mkCall (vars s) (usedVars_ s ++ [i]).

(** A member function of variable [i]; a registration appends the variable to the list. *)
Definition run_on {A} (i : nat) (op : M V A) : M CallState A := λ s,
  match vars s !! i with
  | None => (Throw Undefined, s)
  | Some v =>
      let '(r, v') := op v in
      let s' := mkCall (<[i := v']> (vars s)) (usedVars_ s) in
      (r, if negb (registered_ (sv_base v)) && registered_ (sv_base v') then addUsedVar s' i else s')
  end.

(** The two loops of [ContractCallLogger::commit] and [revert], last used variable first. *)
Definition end_call (f : V → V) (s : CallState) : CallState :=
  mkCall (foldl (λ vs i, alter f i vs) (vars s) (reverse (usedVars_ s))) [].

Definition logger_commit : CallState → CallState := end_call sv_commit.
Definition logger_revert : CallState → CallState := end_call sv_revert.

(** [~ContractCallLogger]: [commitCall_] is set when the call returned without a throw. *)
Definition logger_end (commitCall : bool) : CallState → CallState :=
  if commitCall then logger_commit else logger_revert.

(** The body of a call: any sequence of member functions, whose results the code may use. *)
Inductive call_steps : CallState → CallState → Prop :=
| call_nil s : call_steps s s
| call_cons A i (op : M V A) r s s' s'' :
    honest op → run_on i op s = (r, s') → call_steps s' s'' → call_steps s s''.

(** Between calls: nothing registered, and what is read is the committed value. *)
Definition idle (v : V) : Prop :=
  sv_wf v ∧ tracked (sv_base v) = true ∧ registered_ (sv_base v) = false ∧ sv_get v = sv_value v.

Definition call_start (vs : list V) : CallState := mkCall vs [].

Definition call_inv (vs : list V) (s : CallState) : Prop :=
  length (vars s) = length vs ∧ NoDup (usedVars_ s) ∧
  ∀ i v, vars s !! i = Some v → ∃ v0, vs !! i = Some v0 ∧
    sv_wf v ∧ tracked (sv_base v) = true ∧ sv_value v = sv_value v0 ∧
    (i ∈ usedVars_ s ↔ registered_ (sv_base v) = true) ∧
    (registered_ (sv_base v) = false → sv_get v = sv_value v).

Lemma call_start_inv vs : Forall idle vs → call_inv vs (call_start vs).
Proof.
  intros Hi. split; [done|]. split; [constructor|]. intros i v Hv. exists v. split; [done|].
  rewrite Forall_lookup in Hi. destruct (Hi _ _ Hv) as (Hw & Ht & Hr & Hg).
  split; [done|]. split; [done|]. split; [done|]. rewrite Hr. split; [|done]. split; [|done].
  by intros ?%not_elem_of_nil.
Qed.

Lemma run_on_inv {A} vs s i (op : M V A) r s' :
  honest op → call_inv vs s → run_on i op s = (r, s') → call_inv vs s'.
Proof.
  intros Hop (Hl & Hnd & Hinv). unfold run_on. destruct (vars s !! i) as [v|] eqn:Hv; [|by intros [= _ <-]].
  destruct (op v) as [r' v'] eqn:Ho. intros [= _ <-].
  destruct (Hinv _ _ Hv) as (v0 & Hv0 & Hwf & Ht & Hv0v & Hused & Hclean).
  destruct (Hop _ _ _ Hwf Ho) as (Hwf' & Hval & How & Hsh & Hreg & Hget).
  assert (Ht' : tracked (sv_base v') = true) by (unfold tracked in *; by rewrite How, Hsh).
  assert (Hfresh : registered_ (sv_base v) = false → i ∉ usedVars_ s).
  { intros Hf Hi. apply Hused in Hi. congruence. }
  set (upd := negb _ && _).
  assert (Hvars : vars (if upd then addUsedVar (mkCall (<[i:=v']> (vars s)) (usedVars_ s)) i
    else mkCall (<[i:=v']> (vars s)) (usedVars_ s)) = <[i:=v']> (vars s)) by by destruct upd.
  assert (Hu : ∀ k, k ∈ usedVars_ (if upd then addUsedVar (mkCall (<[i:=v']> (vars s)) (usedVars_ s)) i
    else mkCall (<[i:=v']> (vars s)) (usedVars_ s)) ↔ k ∈ usedVars_ s ∨ (upd = true ∧ k = i)).
  { intros k. destruct upd; cbn [usedVars_ addUsedVar];
      [rewrite elem_of_app, list_elem_of_singleton; tauto|intuition congruence]. }
  split; [by rewrite Hvars, length_insert|]. split.
  - destruct upd eqn:Eu; cbn; [|done]. apply andb_true_iff in Eu as [Hf%negb_true_iff _].
    apply NoDup_app. split; [done|]. split; [|apply NoDup_singleton].
    intros k Hk ->%list_elem_of_singleton. by apply Hfresh.
  - rewrite Hvars. intros k w Hk. destruct (decide (k = i)) as [->|Hne].
    + rewrite list_lookup_insert_eq in Hk by (by eapply lookup_lt_Some). injection Hk as <-.
      exists v0. split; [done|]. split; [done|]. split; [done|]. split; [congruence|]. rewrite Hu. split.
      * unfold upd. destruct (registered_ (sv_base v)) eqn:Er; cbn [negb andb].
        -- rewrite (Hreg eq_refl). tauto.
        -- split; [intros [Hi|[? _]]|]; [exfalso; by apply Hfresh|done|by right].
      * intros Hf. rewrite Hval, (Hget Ht Hf). apply Hclean.
        destruct (registered_ (sv_base v)); [by rewrite Hreg in Hf|done].
    + rewrite list_lookup_insert_ne in Hk by done.
      destruct (Hinv _ _ Hk) as (w0 & Hw0 & Hwfw & Htw & Hw & Huw & Hcw).
      exists w0. split; [done|]. split; [done|]. split; [done|]. split; [done|]. split; [|done].
      rewrite Hu, <- Huw. split; [intros [?|[_ ?]]; [done|congruence]|auto].
Qed.

Lemma call_steps_inv vs s s' : call_steps s s' → call_inv vs s → call_inv vs s'.
Proof.
  induction 1 as [|A i op r s s' s'' Hop Hr _ IH]; [done|]. intros Hinv. apply IH. by eapply run_on_inv.
Qed.

Lemma alter_all_lookup (f : V → V) (l : list nat) (vs : list V) i :
  NoDup l →
  foldl (λ vs i, alter f i vs) vs l !! i = if decide (i ∈ l) then f <$> vs !! i else vs !! i.
Proof.
  revert vs. induction l as [|k l IH]; intros vs Hnd; cbn [foldl]; [done|].
  apply NoDup_cons in Hnd as [Hk Hnd]. rewrite IH by done.
  destruct (decide (i = k)) as [->|Hne].
  - rewrite decide_False, decide_True by (done || left). apply list_lookup_alter_eq.
  - rewrite list_lookup_alter_ne by done.
    destruct (decide (i ∈ l)); [rewrite decide_True by by right|rewrite decide_False by (rewrite elem_of_cons; tauto)]; done.
Qed.

Lemma end_call_lookup (f : V → V) s i :
  NoDup (usedVars_ s) →
  vars (end_call f s) !! i = if decide (i ∈ usedVars_ s) then f <$> vars s !! i else vars s !! i.
Proof.
  intros Hnd. unfold end_call. cbn [vars]. rewrite alter_all_lookup by by rewrite reverse_Permutation.
  destruct (decide (i ∈ usedVars_ s)) as [Hi|Hi];
    [rewrite decide_True by by apply elem_of_reverse|rewrite decide_False by by rewrite elem_of_reverse]; done.
Qed.

(** ** Atomicity *)

Section atomicity.
Context `{!SafeVariableLaws V T}.

Lemma end_call_idle (f : V → V) vs s i v' :
  (∀ v, sv_wf v → sv_base (f v) = set_registered (sv_base v) false) →
  (∀ v, sv_wf v → sv_wf (f v) ∧ sv_get (f v) = sv_value (f v)) →
  call_inv vs s → vars (end_call f s) !! i = Some v' → idle v' ∧
  ∃ v v0, vars s !! i = Some v ∧ vs !! i = Some v0 ∧ sv_wf v ∧ sv_value v = sv_value v0 ∧
    (v' = f v ∨ v' = v ∧ sv_get v = sv_value v).
Proof.
  intros Hb Hg (_ & Hnd & Hinv). rewrite end_call_lookup by done.
  case_decide as Hi; intros Hv'.
  - apply fmap_Some in Hv' as (v & Hv & ->). destruct (Hinv _ _ Hv) as (v0 & Hv0 & Hwf & Ht & Hval & _).
    split; [|by exists v, v0; auto 7]. destruct (Hg v Hwf) as [? E]. unfold idle. rewrite Hb, E by done. by unfold tracked in *.
  - destruct (Hinv _ _ Hv') as (v0 & Hv0 & Hwf & Ht & Hval & Hu & Hc).
    assert (Hr : registered_ (sv_base v') = false) by (apply not_true_is_false; tauto).
    split; [split; [done|]; by split; [|split; [|apply Hc]]|]. exists v', v0. auto 8.
Qed.

Lemma commit_call vs s :
  call_inv vs s → Forall idle (vars (logger_commit s)) ∧
  sv_value <$> vars (logger_commit s) = sv_get <$> vars s.
Proof.
  intros Hinv. split.
  - apply Forall_lookup. intros i v' Hv'.
    eapply (end_call_idle sv_commit) in Hv' as [Hid _]; [done| | |done].
    + intros v. apply commit_base.
    + intros v Hv. split; [by apply commit_wf|]. by rewrite commit_value, commit_get.
  - destruct Hinv as (_ & Hnd & Hinv). apply list_eq. intros i. rewrite !list_lookup_fmap.
    unfold logger_commit. rewrite end_call_lookup by done.
    destruct (vars s !! i) as [v|] eqn:Hv; [|by destruct (decide (i ∈ usedVars_ s))].
    destruct (Hinv _ _ Hv) as (v0 & _ & Hwf & _ & _ & Hu & Hc).
    destruct (decide (i ∈ usedVars_ s)) as [Hi|Hi]; simpl; f_equal; [by apply commit_value|].
    symmetry. apply Hc, not_true_is_false. tauto.
Qed.

Lemma revert_call vs s :
  call_inv vs s → Forall idle (vars (logger_revert s)) ∧
  sv_value <$> vars (logger_revert s) = sv_value <$> vs.
Proof.
  intros Hinv. split.
  - apply Forall_lookup. intros i v' Hv'.
    eapply (end_call_idle sv_revert) in Hv' as [Hid _]; [done| | |done].
    + intros v. apply revert_base.
    + intros v Hv. split; [by apply revert_wf|]. by rewrite revert_value, revert_get.
  - destruct Hinv as (Hl & Hnd & Hinv). apply list_eq. intros i. rewrite !list_lookup_fmap.
    unfold logger_revert. rewrite end_call_lookup by done.
    destruct (vars s !! i) as [v|] eqn:Hv.
    + destruct (Hinv _ _ Hv) as (v0 & -> & _ & _ & Hval & _).
      destruct (decide (i ∈ usedVars_ s)); simpl; f_equal; [by rewrite revert_value|done].
    + assert (vs !! i = None) as -> by (apply lookup_ge_None; apply lookup_ge_None in Hv; lia).
      by destruct (decide (i ∈ usedVars_ s)).
Qed.

(** a call is atomic. Whatever member functions it runs on the contracts' variables, when it
    commits every variable keeps what the call last read in it, when it throws every variable is back
    at the value it had before the call, and in both cases no registration is left over, so that the
    next call starts clean. *)
Theorem call_atomic vs s :
  Forall idle vs → call_steps (call_start vs) s →
  (Forall idle (vars (logger_end true s)) ∧
   sv_get <$> vars (logger_end true s) = sv_get <$> vars s) ∧
  (Forall idle (vars (logger_end false s)) ∧
   sv_get <$> vars (logger_end false s) = sv_get <$> vs).
Proof.
  intros Hi Hs. assert (Hinv := call_steps_inv _ _ _ Hs (call_start_inv _ Hi)).
  assert (Hget : ∀ l, Forall idle l → sv_get <$> l = sv_value <$> l).
  { intros l Hl. induction Hl as [|v l (_ & _ & _ & Hv) _ IH]; [done|]. cbn. by rewrite Hv, IH. }
  destruct (commit_call vs s Hinv) as [C1 C2]. destruct (revert_call vs s Hinv) as [R1 R2].
  cbn [logger_end]. split; (split; [done|]).
  - by rewrite (Hget _ C1), C2.
  - by rewrite (Hget _ R1), R2, (Hget _ Hi).
Qed.
End atomicity.
End call.
