(* ===== verification/SafeCell.v ===== *)
(** * SafeCell: the variables that hold one value

    [SafeUint_t], [SafeInt_t], [SafeBool] and [SafeAddress] (src/contract/variables/) have the same
    state: the committed value and a pointer to the temporary one. This file has that state, [SafeBool],
    [SafeAddress] and [ReentrancyGuard]; the integers are in SafeUint and SafeInt. *)

From S2P Require Import Prelude SafeBase.

Record SafeCell (T : Type) := mkCell {
  base_ : SafeBase;
  value_ : T;
  valuePtr_ : option T       (* mutable std::unique_ptr *)
}.
Arguments mkCell {T}.
Arguments base_ {T}.
Arguments value_ {T}.
Arguments valuePtr_ {T}.

Section cell.
Context {T : Type}.

(** [check]: the temporary value starts as a copy of the committed one. *)
Definition cell_check (v : SafeCell T) : SafeCell T :=
  match valuePtr_ v with
  | None => mkCell (base_ v) (value_ v) (Some (value_ v))
  | Some _ => v
  end.

(** [*valuePtr_] after [check()]. *)
Definition cell_get (v : SafeCell T) : T := default (value_ v) (valuePtr_ v).

Definition cell_mark (v : SafeCell T) : SafeCell T :=
  mkCell (markAsUsed (base_ v)) (value_ v) (valuePtr_ v).

Definition cell_set (v : SafeCell T) (x : T) : SafeCell T := mkCell (base_ v) (value_ v) (Some x).

Definition cell_commit (v : SafeCell T) : SafeCell T :=
  mkCell (set_registered (base_ v) false) (cell_get v) None.

Definition cell_revert (v : SafeCell T) : SafeCell T :=
  mkCell (set_registered (base_ v) false) (value_ v) None.

(** A getter: [check(); return *valuePtr_;]. *)
Definition cell_read : M (SafeCell T) T := λ v, (Ok (cell_get v), cell_check v).

(** [check(); markAsUsed();] and an assignment to the temporary value where the computation of the new value may
    throw before anything is written. *)
Definition cell_update (f : T → result T) : M (SafeCell T) unit := λ v,
  let v := cell_mark (cell_check v) in
  match f (cell_get v) with
  | Ok x => (Ok tt, cell_set v x)
  | Throw e => (Throw e, v)
  end.

#[export] Instance cell_SafeVariable : SafeVariable (SafeCell T) T := {|
  sv_base := base_; sv_wf _ := True; sv_get := cell_get; sv_value := value_;
  sv_commit := cell_commit; sv_revert := cell_revert
|}.

#[export] Instance cell_laws : SafeVariableLaws (SafeCell T) T.
Proof. by constructor. Qed.

Lemma cell_get_check v : cell_get (cell_check v) = cell_get v.
Proof. unfold cell_check, cell_get. destruct (valuePtr_ v) eqn:E; [by rewrite E|done]. Qed.

Lemma cell_check_base v : base_ (cell_check v) = base_ v ∧ value_ (cell_check v) = value_ v.
Proof. unfold cell_check. by destruct (valuePtr_ v). Qed.

Lemma markAsUsed_spec b :
  owner_ (markAsUsed b) = owner_ b ∧ shouldRegister_ (markAsUsed b) = shouldRegister_ b ∧
  (registered_ b = true → registered_ (markAsUsed b) = true) ∧
  (tracked b = true → registered_ (markAsUsed b) = true).
Proof. unfold markAsUsed, tracked. by destruct b as [[] [] []]. Qed.

Lemma honest_read : honest cell_read.
Proof.
  intros v r v' _ [= _ <-]. destruct (cell_check_base v) as [Hb Hv]. split; [done|].
  cbn [sv_value sv_base sv_get cell_SafeVariable]. by rewrite Hb, Hv, cell_get_check.
Qed.

(** Every operation built on [cell_update] registers the variable before it writes. *)
Lemma honest_update f : honest (cell_update f).
Proof.
  intros v r v' _. unfold cell_update. destruct (cell_check_base v) as [Hb Hv].
  destruct (markAsUsed_spec (base_ v)) as (H1 & H2 & H3 & H4).
  assert (Hm : base_ (cell_mark (cell_check v)) = markAsUsed (base_ v)) by (cbn; by rewrite Hb).
  destruct (f _) as [x|e]; intros [= _ <-]; cbn [sv_value sv_base sv_get cell_SafeVariable cell_set
    base_ value_]; rewrite ?Hm; (split; [done|]); (split; [exact Hv|]); (split; [done|]); (split; [done|]);
    (split; [done|]); intros Ht Hr; specialize (H4 Ht); congruence.
Qed.

Lemma cell_update_spec f v :
  let '(r, v') := cell_update f v in
  match f (cell_get v) with
  | Ok x => r = Ok tt ∧ cell_get v' = x
  | Throw e => r = Throw e ∧ cell_get v' = cell_get v
  end.
Proof.
  unfold cell_update. assert (Hg : cell_get (cell_mark (cell_check v)) = cell_get v)
    by apply (cell_get_check v).
  rewrite Hg. by destruct (f _).
Qed.

Lemma cell_update_registered f v :
  tracked (base_ v) = true → registered_ (base_ (cell_update f v).2) = true.
Proof.
  destruct v as [[o r s] x p]. unfold tracked. cbn [owner_ shouldRegister_ base_].
  intros [-> ->]%andb_true_iff. unfold cell_update. destruct r, p; by destruct (f _).
Qed.

Lemma cell_update_ext f g v : f (cell_get v) = g (cell_get v) → cell_update f v = cell_update g v.
Proof.
  intros E. unfold cell_update. assert (Hg : cell_get (cell_mark (cell_check v)) = cell_get v)
    by apply (cell_get_check v).
  by rewrite Hg, E.
Qed.
End cell.

#[export] Hint Resolve honest_read honest_update : code.

(** ** SafeBool *)

Definition SafeBool := SafeCell bool.

Definition SafeBool_owned (value : bool) : SafeBool := mkCell SafeBase_owned false (Some value).
Definition SafeBool_local (value : bool) : SafeBool := mkCell SafeBase_local false (Some value).
Definition SafeBool_copy (other : SafeBool) : SafeBool :=
  mkCell SafeBase_local (value_ other) (Some (cell_get other)).
Definition SafeBool_get : M SafeBool bool := cell_read.
Definition SafeBool_commit : SafeBool → SafeBool := cell_commit.
Definition SafeBool_revert : SafeBool → SafeBool := cell_revert.
Definition SafeBool_assign (value : bool) : M SafeBool unit := cell_update (λ _, Ok value).

(** ** SafeAddress

    [commit] and [revert] leave [registered_] as it is. *)

Definition SafeAddress := SafeCell (list Z).

Definition SafeAddress_owned (address : list Z) : SafeAddress :=
  mkCell SafeBase_owned (replicate 20 0) (Some address).
Definition SafeAddress_local (address : list Z) : SafeAddress :=
  mkCell SafeBase_local (replicate 20 0) (Some address).
Definition SafeAddress_copy (other : SafeAddress) : SafeAddress :=
  mkCell SafeBase_local (replicate 20 0) (Some (cell_get other)).
Definition SafeAddress_get : M SafeAddress (list Z) := cell_read.
Definition SafeAddress_commit (v : SafeAddress) : SafeAddress := mkCell (base_ v) (cell_get v) None.
Definition SafeAddress_revert (v : SafeAddress) : SafeAddress := mkCell (base_ v) (value_ v) None.
Definition SafeAddress_assign (address : list Z) : M SafeAddress unit := cell_update (λ _, Ok address).
Definition SafeAddress_eqb (other : list Z) (v : SafeAddress) : bool := bool_decide (cell_get v = other).

Definition SafeAddress_variable : SafeVariable SafeAddress (list Z) := {|
  sv_base := base_; sv_wf _ := True; sv_get := cell_get; sv_value := value_;
  sv_commit := SafeAddress_commit; sv_revert := SafeAddress_revert
|}.

(** One call that assigns [a] to the only variable of a contract, and its end. *)
Definition assign_call (a : list Z) (commit : bool) (v : SafeAddress) : option SafeAddress :=
  vars (@logger_end _ _ SafeAddress_variable commit
    (@run_on _ _ SafeAddress_variable unit 0 (SafeAddress_assign a) (call_start [v])).2) !! 0%nat.

(** a [SafeAddress] is not atomic from its second call on. After one committed call the variable
    stays registered, so the next call does not list it: if that call throws, its assignment is not
    undone and later calls read it, although the committed value is the old one. *)
Theorem SafeAddress_revert_lost v a b :
  tracked (base_ v) = true → registered_ (base_ v) = false →
  ∃ v1 v2, assign_call a true v = Some v1 ∧ assign_call b false v1 = Some v2 ∧
    cell_get v1 = a ∧ value_ v2 = a ∧ cell_get v2 = b.
Proof.
  destruct v as [[o r s] x p]. unfold tracked. cbn. intros Ht ->.
  apply andb_true_iff in Ht as [-> ->].
  exists (mkCell (mkSafeBase true true true) a None), (mkCell (mkSafeBase true true true) a (Some b)).
  split; [by destruct p|done].
Qed.

Definition toy_address_var : SafeAddress :=
  mkCell (enableRegister SafeBase_owned) (replicate 20 0) None.

Lemma SafeAddress_revert_lost_witness :
  ∃ v1 v2, assign_call (replicate 20 1) true toy_address_var = Some v1 ∧
    assign_call (replicate 20 2) false v1 = Some v2 ∧
    cell_get v1 = replicate 20 1 ∧ value_ v2 = replicate 20 1 ∧ cell_get v2 = replicate 20 2.
Proof.
  apply (SafeAddress_revert_lost toy_address_var (replicate 20 1) (replicate 20 2)); reflexivity.
Defined.

(** ** ReentrancyGuard *)

(** The guard's constructor, the guarded body, and the destructor, which runs also when the body
    throws; the lock is the state. *)
Definition guarded {S A} (get : S → bool) (set : bool → S → S) (body : M S A) : M S A := λ s,
  if get s then (Throw (DynamicException "ReentrancyGuard: reentrancy attack detected"), s)
  else let '(r, s') := body (set true s) in (r, set false s').
