(* ===== verification/SafeString.v ===== *)
(** * SafeString: strings of contracts (src/contract/variables/safestring.h)

    [SafeString] has the state of a cell whose value is a string; its member functions call those of [std::string] on the
    temporary value, after [check()] and, where they may write, [markAsUsed()].  The first part says what the functions of
    [std::string] do: characters are bytes, positions and counts are of [size_t], a position past the end is [out_of_range], a
    result longer than [max_size()] a [length_error].  Reading past a buffer or an iterator that is not in the string is
    undefined.  An iterator is its position. *)

From S2P Require Import Prelude SafeBase SafeCell.

(** ** std::string *)

Definition npos : Z := 2 ^ 64 - 1.

Class StringLimits := { max_size : Z }.

Section std_string.
Context {SL : StringLimits}.

Definition slen (s : list Z) : Z := Z.of_nat (length s).

(** The checks of a position and of a new length. *)
Definition check_pos (s : list Z) (pos : Z) : result unit := throw_if (slen s <? pos) OutOfRange.
Definition check_len (n : Z) : result unit := throw_if (max_size <? n) LengthError.

(** The characters from [pos] on, [count] at most. *)
Definition sub (s : list Z) (pos count : Z) : list Z := take (Z.to_nat (Z.min count (slen s - pos))) (drop (Z.to_nat pos) s).

Definition std_substr (s : list Z) (pos count : Z) : result (list Z) := _ ← check_pos s pos; Ok (sub s pos count).

Definition std_replace (s : list Z) (pos count : Z) (t : list Z) : result (list Z) :=
  _ ← check_pos s pos;
  let n := Z.min count (slen s - pos) in
  _ ← check_len (slen s - n + slen t);
  Ok (take (Z.to_nat pos) s ++ t ++ drop (Z.to_nat (pos + n)) s).

Definition std_insert (s : list Z) (pos : Z) (t : list Z) : result (list Z) := std_replace s pos 0 t.
Definition std_erase (s : list Z) (pos count : Z) : result (list Z) :=
  _ ← check_pos s pos; Ok (take (Z.to_nat pos) s ++ drop (Z.to_nat (pos + Z.min count (slen s - pos))) s).
Definition std_append (s t : list Z) : result (list Z) := _ ← check_len (slen s + slen t); Ok (s ++ t).

(** [count2] copies of a character in the place of [count] characters. *)
Definition std_replace_fill (s : list Z) (pos count count2 ch : Z) : result (list Z) :=
  _ ← check_pos s pos;
  let n := Z.min count (slen s - pos) in
  _ ← check_len (slen s - n + count2);
  Ok (take (Z.to_nat pos) s ++ replicate (Z.to_nat count2) ch ++ drop (Z.to_nat (pos + n)) s).
Definition std_append_fill (s : list Z) (count ch : Z) : result (list Z) := std_replace_fill s (slen s) 0 count ch.

Definition std_resize (s : list Z) (count ch : Z) : result (list Z) :=
  if count <=? slen s then Ok (take (Z.to_nat count) s) else std_append_fill s (count - slen s) ch.

Definition std_pop_back (s : list Z) : result (list Z) := match s with [] => Throw Undefined | _ => Ok (removelast s) end.

(** [at], and [operator\[\]], which may read the terminator and is undefined past it. *)
Definition std_at (s : list Z) (pos : Z) : result Z := match s !! Z.to_nat pos with Some c => Ok c | None => Throw OutOfRange end.
Definition std_index (s : list Z) (pos : Z) : result Z :=
  match s !! Z.to_nat pos with Some c => Ok c | None => if pos =? slen s then Ok 0 else Throw Undefined end.
Definition std_front (s : list Z) : result Z := match s with [] => Throw Undefined | c :: _ => Ok c end.
Definition std_back (s : list Z) : result Z := match last s with None => Throw Undefined | Some c => Ok c end.

(** A character written through a reference. *)
Definition std_set (s : list Z) (pos ch : Z) : result (list Z) :=
  match s !! Z.to_nat pos with Some _ => Ok (<[Z.to_nat pos := ch]> s) | None => Throw Undefined end.

(** The order of [compare]: lexicographic, on characters as [unsigned char]. *)
Fixpoint std_compare (s t : list Z) : comparison :=
  match s, t with
  | [], [] => Eq
  | [], _ :: _ => Lt
  | _ :: _, [] => Gt
  | a :: s, b :: t => match a ?= b with Eq => std_compare s t | c => c end
  end.

(** What a [char *] stands for: the characters before the terminator, or the first [count]. *)
Definition c_string (buffer : list Z) : result (list Z) :=
  match list_find (λ c, c = 0) buffer with Some (i, _) => Ok (take i buffer) | None => Throw Undefined end.
Definition buffer_prefix (buffer : list Z) (count : Z) : result (list Z) :=
  if count <=? slen buffer then Ok (take (Z.to_nat count) buffer) else Throw Undefined.

(** *** Searches: the first of some positions, or [npos] *)

Definition first_index (p : nat → bool) (candidates : list nat) : Z :=
  match list_find (λ i, p i = true) candidates with Some (_, i) => Z.of_nat i | None => npos end.

(** The positions from [pos] on, and those up to [pos], the last one first. *)
Definition forwards (s : list Z) (pos : Z) : list nat := seq (Z.to_nat (Z.min pos (slen s))) (length s + 1 - Z.to_nat (Z.min pos (slen s))).
Definition backwards (s : list Z) (pos : Z) : list nat := reverse (seq 0 (S (Z.to_nat (Z.min pos (slen s))))).

Definition occurs_at (s t : list Z) (i : nat) : bool := bool_decide (t `prefix_of` drop i s).
Definition in_set (s t : list Z) (i : nat) : bool := match s !! i with Some c => bool_decide (c ∈ t) | None => false end.
Definition not_in_set (s t : list Z) (i : nat) : bool := match s !! i with Some c => bool_decide (c ∉ t) | None => false end.

Definition std_find (s t : list Z) (pos : Z) : Z := if slen s <? pos then npos else first_index (occurs_at s t) (forwards s pos).
Definition std_rfind (s t : list Z) (pos : Z) : Z := first_index (occurs_at s t) (backwards s pos).
Definition std_find_first_of (s t : list Z) (pos : Z) : Z := first_index (in_set s t) (forwards s pos).
Definition std_find_first_not_of (s t : list Z) (pos : Z) : Z := first_index (not_in_set s t) (forwards s pos).
Definition std_find_last_of (s t : list Z) (pos : Z) : Z := first_index (in_set s t) (backwards s pos).
Definition std_find_last_not_of (s t : list Z) (pos : Z) : Z := first_index (not_in_set s t) (backwards s pos).

Definition std_starts_with (s t : list Z) : bool := bool_decide (t `prefix_of` s).
Definition std_ends_with (s t : list Z) : bool := bool_decide (t `suffix_of` s).

(** The positions of two iterators of the string. *)
Definition iter_range (s : list Z) (first last : Z) : result unit :=
  throw_if (negb ((0 <=? first) && (first <=? last) && (last <=? slen s))) Undefined.
End std_string.

(** ** SafeString *)

(** A commit keeps the pointer, unlike the other classes. *)
Definition SafeString := SafeCell (list Z).
Definition SafeString_owned (str : list Z) : SafeString := mkCell SafeBase_owned [] (Some str).
Definition SafeString_local (str : list Z) : SafeString := mkCell SafeBase_local [] (Some str).
Definition SafeString_copy (other : SafeString) : SafeString := mkCell SafeBase_local [] (Some (cell_get other)).
Definition SafeString_get : M SafeString (list Z) := cell_read.
Definition SafeString_commit (v : SafeString) : SafeString :=
  mkCell (set_registered (base_ v) false) (cell_get v) (Some (cell_get v)).
Definition SafeString_revert : SafeString → SafeString := cell_revert.
Definition SafeString_assign (str : list Z) : M SafeString unit := cell_update (λ _, Ok str).

Section safe_string.
Context {SL : StringLimits}.

(** [check(); return strPtr_->f();] and [check(); markAsUsed();] before a change. *)
Definition str_read {A} (f : list Z → result A) : M SafeString A := λ v, (f (cell_get v), cell_check v).
Definition str_update : (list Z → result (list Z)) → M SafeString unit := cell_update.

(** A function that returns a reference or an iterator through which it may be written marks the string. *)
Definition str_access {A} (f : list Z → result A) : M SafeString A := λ v, (f (cell_get v), cell_mark (cell_check v)).

(** An argument that is another [SafeString] is read with [get()], which checks it too. *)
Definition with_other {A} (op : list Z → M SafeString A) : M (SafeString * SafeString) A := λ vo,
  let '(r, v) := op (cell_get vo.2) vo.1 in (r, (v, cell_check vo.2)).

Definition str_assign_fill (count ch : Z) : M SafeString unit := str_update (λ _, std_append_fill [] count ch).
Definition str_assign_safe : M (SafeString * SafeString) unit := with_other SafeString_assign.
Definition str_assign_part (pos count : Z) : M (SafeString * SafeString) unit :=
  with_other (λ str, str_update (λ _, std_substr str pos count)).
Definition str_assign_buffer (s : list Z) (count : Z) : M SafeString unit := str_update (λ _, buffer_prefix s count).
Definition str_assign_cstr (s : list Z) : M SafeString unit := str_update (λ _, c_string s).
Definition str_assign_chars (l : list Z) : M SafeString unit := SafeString_assign l.

Definition str_at (pos : Z) : M SafeString Z := str_access (λ s, std_at s pos).
Definition str_at_const (pos : Z) : M SafeString Z := str_read (λ s, std_at s pos).
Definition str_front : M SafeString Z := str_access std_front.
Definition str_front_const : M SafeString Z := str_read std_front.
Definition str_back : M SafeString Z := str_access std_back.
Definition str_back_const : M SafeString Z := str_read std_back.
Definition str_index (pos : Z) : M SafeString Z := str_access (λ s, std_index s pos).
Definition str_index_const (pos : Z) : M SafeString Z := str_read (λ s, std_index s pos).

(** A write through the reference that [at], [operator\[\]], [front] or [back] has given, or through an iterator. *)
Definition str_write (pos ch : Z) : M SafeString unit := λ v,
  match std_set (cell_get v) pos ch with Ok s => (Ok tt, cell_set v s) | Throw e => (Throw e, v) end.

Definition str_data : M SafeString (list Z) := str_read Ok.
Definition str_c_str : M SafeString (list Z) := str_read (λ s, Ok (s ++ [0])).
Definition str_begin : M SafeString Z := str_access (λ _, Ok 0).
Definition str_cbegin : M SafeString Z := str_read (λ _, Ok 0).
Definition str_end : M SafeString Z := str_access (λ s, Ok (slen s)).
Definition str_cend : M SafeString Z := str_read (λ s, Ok (slen s)).
Definition str_rbegin : M SafeString Z := str_access (λ s, Ok (slen s)).
Definition str_crbegin : M SafeString Z := str_read (λ s, Ok (slen s)).
Definition str_rend : M SafeString Z := str_access (λ _, Ok 0).
Definition str_crend : M SafeString Z := str_read (λ _, Ok 0).
Definition str_empty : M SafeString bool := str_read (λ s, Ok (bool_decide (s = []))).
Definition str_size : M SafeString Z := str_read (λ s, Ok (slen s)).
Definition str_length : M SafeString Z := str_read (λ s, Ok (slen s)).
Definition str_max_size : M SafeString Z := str_read (λ _, Ok max_size).
Definition str_reserve (newcap : Z) : M SafeString unit := str_update (λ s, _ ← check_len newcap; Ok s).
Definition str_shrink_to_fit : M SafeString unit := str_update Ok.
Definition str_clear : M SafeString unit := str_update (λ _, Ok []).

(** Insertion, at an index or at an iterator, which returns the iterator of what has been inserted. *)
Definition str_insert_fill (index count ch : Z) : M SafeString unit := str_update (λ s, std_replace_fill s index 0 count ch).
Definition str_insert_cstr (index : Z) (t : list Z) : M SafeString unit := str_update (λ s, t ← c_string t; std_insert s index t).
Definition str_insert_buffer (index : Z) (t : list Z) (count : Z) : M SafeString unit :=
  str_update (λ s, t ← buffer_prefix t count; std_insert s index t).
Definition str_insert (index : Z) (str : list Z) : M SafeString unit := str_update (λ s, std_insert s index str).
Definition str_insert_safe (index : Z) : M (SafeString * SafeString) unit := with_other (str_insert index).
Definition str_insert_part (index : Z) (str : list Z) (index_str count : Z) : M SafeString unit :=
  str_update (λ s, t ← std_substr str index_str count; std_insert s index t).
Definition str_insert_part_safe (index index_str count : Z) : M (SafeString * SafeString) unit :=
  with_other (λ str, str_insert_part index str index_str count).
Definition at_iter (pos : Z) (f : list Z → result (list Z)) : M SafeString Z :=
  str_update (λ s, _ ← iter_range s pos pos; f s) ;;; mret' pos.
Definition str_insert_iter (pos ch : Z) : M SafeString Z := at_iter pos (λ s, std_insert s pos [ch]).
Definition str_insert_iter_fill (pos count ch : Z) : M SafeString Z := at_iter pos (λ s, std_replace_fill s pos 0 count ch).
Definition str_insert_iter_range (pos : Z) (l : list Z) : M SafeString Z := at_iter pos (λ s, std_insert s pos l).
Definition str_insert_iter_list (pos : Z) (ilist : list Z) : M SafeString Z := str_insert_iter_range pos ilist.

Definition str_erase (index count : Z) : M SafeString unit := str_update (λ s, std_erase s index count).
Definition str_erase_iter (position : Z) : M SafeString Z :=
  str_update (λ s, _ ← iter_range s position (position + 1); std_erase s position 1) ;;; mret' position.
Definition str_erase_range (first last : Z) : M SafeString Z :=
  str_update (λ s, _ ← iter_range s first last; std_erase s first (last - first)) ;;; mret' first.
Definition str_push_back (ch : Z) : M SafeString unit := str_update (λ s, std_append s [ch]).
Definition str_pop_back : M SafeString unit := str_update std_pop_back.

Definition str_append_fill (count ch : Z) : M SafeString unit := str_update (λ s, std_append_fill s count ch).
Definition str_append (str : list Z) : M SafeString unit := str_update (λ s, std_append s str).
Definition str_append_safe : M (SafeString * SafeString) unit := with_other str_append.
Definition str_append_part (str : list Z) (pos count : Z) : M SafeString unit :=
  str_update (λ s, t ← std_substr str pos count; std_append s t).
Definition str_append_part_safe (pos count : Z) : M (SafeString * SafeString) unit := with_other (λ str, str_append_part str pos count).
Definition str_append_buffer (t : list Z) (count : Z) : M SafeString unit := str_update (λ s, t ← buffer_prefix t count; std_append s t).
Definition str_append_cstr (t : list Z) : M SafeString unit := str_update (λ s, t ← c_string t; std_append s t).
Definition str_append_range (l : list Z) : M SafeString unit := str_append l.
Definition str_append_list (ilist : list Z) : M SafeString unit := str_append ilist.

(** Comparisons. *)
Definition str_compare (str : list Z) : M SafeString comparison := str_read (λ s, Ok (std_compare s str)).
Definition str_compare_safe : M (SafeString * SafeString) comparison := with_other str_compare.
Definition str_compare_part (pos count : Z) (str : list Z) : M SafeString comparison :=
  str_read (λ s, t ← std_substr s pos count; Ok (std_compare t str)).
Definition str_compare_part_safe (pos count : Z) : M (SafeString * SafeString) comparison := with_other (str_compare_part pos count).
Definition str_compare_parts (pos1 count1 : Z) (str : list Z) (pos2 count2 : Z) : M SafeString comparison :=
  str_read (λ s, t ← std_substr s pos1 count1; u ← std_substr str pos2 count2; Ok (std_compare t u)).
Definition str_compare_parts_safe (pos1 count1 pos2 count2 : Z) : M (SafeString * SafeString) comparison :=
  with_other (λ str, str_compare_parts pos1 count1 str pos2 count2).
Definition str_compare_cstr (t : list Z) : M SafeString comparison := str_read (λ s, t ← c_string t; Ok (std_compare s t)).
Definition str_compare_part_cstr (pos count : Z) (t : list Z) : M SafeString comparison :=
  str_read (λ s, u ← std_substr s pos count; t ← c_string t; Ok (std_compare u t)).
Definition str_compare_part_buffer (pos1 count1 : Z) (t : list Z) (count2 : Z) : M SafeString comparison :=
  str_read (λ s, u ← std_substr s pos1 count1; t ← buffer_prefix t count2; Ok (std_compare u t)).

Definition str_starts_with (sv : list Z) : M SafeString bool := str_read (λ s, Ok (std_starts_with s sv)).
Definition str_starts_with_char (ch : Z) : M SafeString bool := str_read (λ s, Ok (std_starts_with s [ch])).
Definition str_starts_with_cstr (t : list Z) : M SafeString bool := str_read (λ s, t ← c_string t; Ok (std_starts_with s t)).
Definition str_ends_with (sv : list Z) : M SafeString bool := str_read (λ s, Ok (std_ends_with s sv)).
Definition str_ends_with_char (ch : Z) : M SafeString bool := str_read (λ s, Ok (std_ends_with s [ch])).
Definition str_ends_with_cstr (t : list Z) : M SafeString bool := str_read (λ s, t ← c_string t; Ok (std_ends_with s t)).

(** Replacement of the characters at an index, or between two iterators. *)
Definition str_replace (pos count : Z) (str : list Z) : M SafeString unit := str_update (λ s, std_replace s pos count str).
Definition str_replace_safe (pos count : Z) : M (SafeString * SafeString) unit := with_other (str_replace pos count).
Definition str_replace_iter (first last : Z) (str : list Z) : M SafeString unit :=
  str_update (λ s, _ ← iter_range s first last; std_replace s first (last - first) str).
Definition str_replace_iter_safe (first last : Z) : M (SafeString * SafeString) unit := with_other (str_replace_iter first last).
Definition str_replace_part (pos count : Z) (str : list Z) (pos2 count2 : Z) : M SafeString unit :=
  str_update (λ s, t ← std_substr str pos2 count2; std_replace s pos count t).
Definition str_replace_part_safe (pos count pos2 count2 : Z) : M (SafeString * SafeString) unit :=
  with_other (λ str, str_replace_part pos count str pos2 count2).
Definition str_replace_iter_range (first last : Z) (l : list Z) : M SafeString unit := str_replace_iter first last l.

(** This one marks the string after the change, so not at all when it throws. *)
Definition str_replace_buffer (pos count : Z) (cstr : list Z) (count2 : Z) : M SafeString unit := λ v,
  let v := cell_check v in
  match (t ← buffer_prefix cstr count2; std_replace (cell_get v) pos count t) with
  | Ok s => (Ok tt, cell_mark (cell_set v s))
  | Throw e => (Throw e, v)
  end.
Definition str_replace_iter_buffer (first last : Z) (cstr : list Z) (count : Z) : M SafeString unit :=
  str_update (λ s, t ← buffer_prefix cstr count; _ ← iter_range s first last; std_replace s first (last - first) t).
Definition str_replace_cstr (pos count : Z) (cstr : list Z) : M SafeString unit := str_update (λ s, t ← c_string cstr; std_replace s pos count t).
Definition str_replace_iter_cstr (first last : Z) (cstr : list Z) : M SafeString unit :=
  str_update (λ s, t ← c_string cstr; _ ← iter_range s first last; std_replace s first (last - first) t).
Definition str_replace_fill (pos count count2 ch : Z) : M SafeString unit := str_update (λ s, std_replace_fill s pos count count2 ch).
Definition str_replace_iter_fill (first last count ch : Z) : M SafeString unit :=
  str_update (λ s, _ ← iter_range s first last; std_replace_fill s first (last - first) count ch).
Definition str_replace_iter_list (first last : Z) (ilist : list Z) : M SafeString unit := str_replace_iter first last ilist.

Definition str_substr (pos count : Z) : M SafeString SafeString := str_read (λ s, t ← std_substr s pos count; Ok (SafeString_local t)).
(** The characters written to [dest], whose number is returned. *)
Definition str_copy (count pos : Z) : M SafeString (list Z) := str_read (λ s, std_substr s pos count).
Definition str_resize (count : Z) : M SafeString unit := str_update (λ s, std_resize s count 0).
Definition str_resize_fill (count ch : Z) : M SafeString unit := str_update (λ s, std_resize s count ch).

(** The pointers are swapped; the committed values are not. *)
Definition str_swap : M (SafeString * SafeString) unit := λ vo,
  let v := cell_mark (cell_check vo.1) in
  let o := cell_mark (cell_check vo.2) in
  (Ok tt, (mkCell (base_ v) (SafeCell.value_ v) (valuePtr_ o), mkCell (base_ o) (SafeCell.value_ o) (valuePtr_ v))).

(** Searches, each for a string, a string of another variable, a buffer, a terminated string and a character. *)
Definition str_find (str : list Z) (pos : Z) : M SafeString Z := str_read (λ s, Ok (std_find s str pos)).
Definition str_find_safe (pos : Z) : M (SafeString * SafeString) Z := with_other (λ str, str_find str pos).
Definition str_find_buffer (t : list Z) (pos count : Z) : M SafeString Z := str_read (λ s, t ← buffer_prefix t count; Ok (std_find s t pos)).
Definition str_find_cstr (t : list Z) (pos : Z) : M SafeString Z := str_read (λ s, t ← c_string t; Ok (std_find s t pos)).
Definition str_find_char (ch pos : Z) : M SafeString Z := str_read (λ s, Ok (std_find s [ch] pos)).
Definition str_rfind (str : list Z) (pos : Z) : M SafeString Z := str_read (λ s, Ok (std_rfind s str pos)).
Definition str_rfind_safe (pos : Z) : M (SafeString * SafeString) Z := with_other (λ str, str_rfind str pos).
Definition str_rfind_buffer (t : list Z) (pos count : Z) : M SafeString Z := str_read (λ s, t ← buffer_prefix t count; Ok (std_rfind s t pos)).
Definition str_rfind_cstr (t : list Z) (pos : Z) : M SafeString Z := str_read (λ s, t ← c_string t; Ok (std_rfind s t pos)).
Definition str_rfind_char (ch pos : Z) : M SafeString Z := str_read (λ s, Ok (std_rfind s [ch] pos)).
Definition str_find_first_of (str : list Z) (pos : Z) : M SafeString Z := str_read (λ s, Ok (std_find_first_of s str pos)).
Definition str_find_first_of_safe (pos : Z) : M (SafeString * SafeString) Z := with_other (λ str, str_find_first_of str pos).
Definition str_find_first_of_buffer (t : list Z) (pos count : Z) : M SafeString Z := str_read (λ s, t ← buffer_prefix t count; Ok (std_find_first_of s t pos)).
Definition str_find_first_of_cstr (t : list Z) (pos : Z) : M SafeString Z := str_read (λ s, t ← c_string t; Ok (std_find_first_of s t pos)).
Definition str_find_first_of_char (ch pos : Z) : M SafeString Z := str_read (λ s, Ok (std_find_first_of s [ch] pos)).
Definition str_find_first_not_of (str : list Z) (pos : Z) : M SafeString Z := str_read (λ s, Ok (std_find_first_not_of s str pos)).
Definition str_find_first_not_of_safe (pos : Z) : M (SafeString * SafeString) Z := with_other (λ str, str_find_first_not_of str pos).
Definition str_find_first_not_of_buffer (t : list Z) (pos count : Z) : M SafeString Z := str_read (λ s, t ← buffer_prefix t count; Ok (std_find_first_not_of s t pos)).
Definition str_find_first_not_of_cstr (t : list Z) (pos : Z) : M SafeString Z := str_read (λ s, t ← c_string t; Ok (std_find_first_not_of s t pos)).
Definition str_find_first_not_of_char (ch pos : Z) : M SafeString Z := str_read (λ s, Ok (std_find_first_not_of s [ch] pos)).
Definition str_find_last_of (str : list Z) (pos : Z) : M SafeString Z := str_read (λ s, Ok (std_find_last_of s str pos)).
Definition str_find_last_of_safe (pos : Z) : M (SafeString * SafeString) Z := with_other (λ str, str_find_last_of str pos).
Definition str_find_last_of_buffer (t : list Z) (pos count : Z) : M SafeString Z := str_read (λ s, t ← buffer_prefix t count; Ok (std_find_last_of s t pos)).
Definition str_find_last_of_cstr (t : list Z) (pos : Z) : M SafeString Z := str_read (λ s, t ← c_string t; Ok (std_find_last_of s t pos)).
Definition str_find_last_of_char (ch pos : Z) : M SafeString Z := str_read (λ s, Ok (std_find_last_of s [ch] pos)).
Definition str_find_last_not_of (str : list Z) (pos : Z) : M SafeString Z := str_read (λ s, Ok (std_find_last_not_of s str pos)).
Definition str_find_last_not_of_safe (pos : Z) : M (SafeString * SafeString) Z := with_other (λ str, str_find_last_not_of str pos).
Definition str_find_last_not_of_buffer (t : list Z) (pos count : Z) : M SafeString Z := str_read (λ s, t ← buffer_prefix t count; Ok (std_find_last_not_of s t pos)).
Definition str_find_last_not_of_cstr (t : list Z) (pos : Z) : M SafeString Z := str_read (λ s, t ← c_string t; Ok (std_find_last_not_of s t pos)).
Definition str_find_last_not_of_char (ch pos : Z) : M SafeString Z := str_read (λ s, Ok (std_find_last_not_of s [ch] pos)).

(** Operators. *)
Definition str_set_safe : M (SafeString * SafeString) unit := with_other SafeString_assign.
Definition str_set_cstr (t : list Z) : M SafeString unit := str_update (λ _, c_string t).
Definition str_set_char (ch : Z) : M SafeString unit := SafeString_assign [ch].
Definition str_set_list (ilist : list Z) : M SafeString unit := SafeString_assign ilist.
Definition str_add_safe : M (SafeString * SafeString) unit := with_other str_append.
Definition str_add_assign (str : list Z) : M SafeString unit := str_append str.
Definition str_add_char (ch : Z) : M SafeString unit := str_append [ch].
Definition str_add_cstr (t : list Z) : M SafeString unit := str_append_cstr t.
Definition str_add_list (ilist : list Z) : M SafeString unit := str_append ilist.

Definition str_plus (rhs : list Z) : M SafeString SafeString := str_read (λ s, t ← std_append s rhs; Ok (SafeString_local t)).
Definition str_plus_safe : M (SafeString * SafeString) SafeString := with_other str_plus.
Definition str_plus_cstr (rhs : list Z) : M SafeString SafeString :=
  str_read (λ s, rhs ← c_string rhs; t ← std_append s rhs; Ok (SafeString_local t)).
Definition str_plus_char (rhs : Z) : M SafeString SafeString := str_plus [rhs].

(** A comparison by a test of [compare]. *)
Definition str_test (test : comparison → bool) (rhs : list Z) : M SafeString bool := str_read (λ s, Ok (test (std_compare s rhs))).
Definition str_test_cstr (test : comparison → bool) (rhs : list Z) : M SafeString bool :=
  str_read (λ s, rhs ← c_string rhs; Ok (test (std_compare s rhs))).
Definition is_eq (c : comparison) : bool := match c with Eq => true | _ => false end.
Definition is_lt (c : comparison) : bool := match c with Lt => true | _ => false end.
Definition is_gt (c : comparison) : bool := match c with Gt => true | _ => false end.
Definition str_ne_cstr : list Z → M SafeString bool := str_test_cstr (λ c, negb (is_eq c)).
Definition str_eq : list Z → M SafeString bool := str_test is_eq.
Definition str_eq_safe : M (SafeString * SafeString) bool := with_other str_eq.
Definition str_eq_cstr : list Z → M SafeString bool := str_test_cstr is_eq.
Definition str_lt : list Z → M SafeString bool := str_test is_lt.
Definition str_lt_safe : M (SafeString * SafeString) bool := with_other str_lt.
Definition str_lt_cstr : list Z → M SafeString bool := str_test_cstr is_lt.
Definition str_gt : list Z → M SafeString bool := str_test is_gt.
Definition str_gt_safe : M (SafeString * SafeString) bool := with_other str_gt.
Definition str_gt_cstr : list Z → M SafeString bool := str_test_cstr is_gt.
Definition str_le : list Z → M SafeString bool := str_test (λ c, negb (is_gt c)).
Definition str_le_safe : M (SafeString * SafeString) bool := with_other str_le.
Definition str_le_cstr : list Z → M SafeString bool := str_test_cstr (λ c, negb (is_gt c)).
Definition str_ge : list Z → M SafeString bool := str_test (λ c, negb (is_lt c)).
Definition str_ge_safe : M (SafeString * SafeString) bool := with_other str_ge.
Definition str_ge_cstr : list Z → M SafeString bool := str_test_cstr (λ c, negb (is_lt c)).

End safe_string.

(** ** What the functions of std::string promise *)

Section std_lemmas.
Context {SL : StringLimits}.

Lemma check_pos_ok s pos x : check_pos s pos = Ok x → pos ≤ slen s.
Proof. unfold check_pos, throw_if. destruct (Z.ltb_spec (slen s) pos); [done|lia]. Qed.

(** A replacement keeps what is before and after the characters it replaces, and has the new ones between them. *)
Lemma replace_spec s pos count t s' :
  0 ≤ pos → 0 ≤ count → std_replace s pos count t = Ok s' →
  pos ≤ slen s ∧ s' = sub s 0 pos ++ t ++ sub s (pos + count) (slen s) ∧ slen s' ≤ max_size.
Proof.
  intros Hp Hc H. unfold std_replace in H. destruct (check_pos s pos) eqn:E; [|done]. apply check_pos_ok in E. rewrite result_bind_Ok in H.
  unfold check_len, throw_if in H. destruct (Z.ltb_spec max_size (slen s - Z.min count (slen s - pos) + slen t)); [done|].
  rewrite result_bind_Ok in H. injection H as <-. split; [done|]. unfold sub, slen in *. rewrite drop_0, Z.sub_0_r, (Z.min_l pos) by lia. split.
  - f_equal. f_equal. destruct (Z.le_gt_cases (pos + count) (Z.of_nat (length s))) as [Hle|Hgt].
    + rewrite Z.min_l by lia. rewrite (take_ge (drop _ s)); [done|]. rewrite length_drop. lia.
    + rewrite Z.min_r by lia. rewrite drop_ge by lia. rewrite (drop_ge s) by lia. by rewrite take_nil.
  - rewrite !length_app, length_take, length_drop. lia.
Qed.

(** What has been inserted is read at its index, and erasing it gives the string there was. *)
Lemma insert_erase s pos t s' :
  0 ≤ pos → std_insert s pos t = Ok s' → std_substr s' pos (slen t) = Ok t ∧ std_erase s' pos (slen t) = Ok s.
Proof.
  intros Hp H. unfold std_insert in H. apply replace_spec in H as (Hle & -> & _); [|done|done]. rewrite Z.add_0_r.
  unfold sub. rewrite drop_0, Z.sub_0_r, Z.min_l by done. unfold slen in *.
  rewrite Z.min_r by lia. rewrite (take_ge (drop (Z.to_nat pos) s)) by (rewrite length_drop; lia).
  assert (Hl : length (take (Z.to_nat pos) s) = Z.to_nat pos) by (rewrite length_take; lia).
  assert (Hs : length (take (Z.to_nat pos) s ++ t ++ drop (Z.to_nat pos) s) = (length s + length t)%nat) by (rewrite !length_app, length_drop; lia).
  unfold std_substr, std_erase, check_pos, throw_if, sub, slen. rewrite Hs. rewrite (proj2 (Z.ltb_ge _ _)) by lia. rewrite !result_bind_Ok.
  rewrite Z.min_l by lia. split.
  - rewrite drop_app_length' by lia. rewrite take_app_length' by lia. done.
  - rewrite take_app_length' by lia. f_equal. replace (Z.to_nat (pos + Z.of_nat (length t))) with (Z.to_nat pos + length t)%nat by lia.
    rewrite <- drop_drop, drop_app_length' by lia. rewrite drop_app_length' by lia. apply take_drop.
Qed.

Lemma first_index_spec p l :
  (first_index p l = npos ∧ ∀ i, i ∈ l → p i = false) ∨
  ∃ l1 i l2, l = l1 ++ i :: l2 ∧ first_index p l = Z.of_nat i ∧ p i = true ∧ ∀ j, j ∈ l1 → p j = false.
Proof.
  unfold first_index. destruct (list_find (λ i, p i = true) l) as [[k i]|] eqn:E.
  - right. apply list_find_Some in E as (Hk & Hi & Hb). exists (take k l), i, (drop (S k) l). split; [by rewrite take_drop_middle|].
    split_and!; [done|done|]. intros j (n & Hn)%list_elem_of_lookup. apply lookup_take_Some in Hn as [Hn Hlt].
    apply not_true_is_false. by apply (Hb n j).
  - left. split; [done|]. intros i Hi. apply list_find_None in E. rewrite Forall_forall in E. apply not_true_is_false. by apply E.
Qed.

(** A search forwards gives the least index that fits, one backwards the greatest. *)
Lemma forwards_spec p s pos :
  0 ≤ pos ≤ slen s →
  (first_index p (forwards s pos) = npos ∧ ∀ i, (Z.to_nat pos ≤ i ≤ length s)%nat → p i = false) ∨
  ∃ i, first_index p (forwards s pos) = Z.of_nat i ∧ (Z.to_nat pos ≤ i ≤ length s)%nat ∧ p i = true ∧
    ∀ j, (Z.to_nat pos ≤ j < i)%nat → p j = false.
Proof.
  intros Hp. unfold forwards. rewrite Z.min_l by lia. unfold slen in Hp. destruct (first_index_spec p (seq (Z.to_nat pos) (length s + 1 - Z.to_nat pos))) as [[Hn Hall]|(l1 & i & l2 & E & Hi & Hp1 & Hb)].
  - left. split; [done|]. intros i Hi. apply Hall, elem_of_seq. lia.
  - right. exists i. split; [done|]. assert (Hin : i ∈ seq (Z.to_nat pos) (length s + 1 - Z.to_nat pos)) by (rewrite E; set_solver).
    apply elem_of_seq in Hin. split; [lia|]. split; [done|]. intros j Hj. apply Hb.
    assert (Hk : l1 !! (j - Z.to_nat pos)%nat = Some j); [|by eapply list_elem_of_lookup_2].
    assert (Hli : i = (Z.to_nat pos + length l1)%nat).
    { assert (Hat : seq (Z.to_nat pos) (length s + 1 - Z.to_nat pos) !! length l1 = Some i) by (rewrite E; by apply list_lookup_middle).
      apply lookup_seq in Hat. lia. }
    assert (Hj2 : (l1 ++ i :: l2) !! (j - Z.to_nat pos)%nat = Some j) by (rewrite <- E; apply lookup_seq; lia).
    by rewrite lookup_app_l in Hj2 by lia.
Qed.

Theorem std_find_spec s t pos :
  0 ≤ pos → slen s < npos →
  (std_find s t pos = npos ∧ ∀ i, (Z.to_nat pos ≤ i ≤ length s)%nat → ¬ t `prefix_of` drop i s) ∨
  ∃ i, std_find s t pos = Z.of_nat i ∧ (Z.to_nat pos ≤ i ≤ length s)%nat ∧ t `prefix_of` drop i s ∧
    ∀ j, (Z.to_nat pos ≤ j < i)%nat → ¬ t `prefix_of` drop j s.
Proof.
  intros Hp Hs. unfold std_find. destruct (Z.ltb_spec (slen s) pos) as [Hgt|Hle].
  - left. split; [done|]. unfold slen in *. intros i Hi. lia.
  - destruct (forwards_spec (occurs_at s t) s pos) as [[Hn Hall]|(i & Hi & Hr & Ho & Hb)]; [lia| |].
    + left. split; [done|]. intros i Hi. specialize (Hall i Hi). by apply bool_decide_eq_false in Hall.
    + right. exists i. split_and!; [done|lia|lia|by apply bool_decide_eq_true in Ho|]. intros j Hj. specialize (Hb j Hj). by apply bool_decide_eq_false in Hb.
Qed.

(** [compare] is a total order. *)
Lemma std_compare_eq s t : std_compare s t = Eq ↔ s = t.
Proof.
  revert t. induction s as [|a s IH]; intros [|b t]; cbn; try done. destruct (Z.compare_spec a b) as [->| |]; [rewrite IH|..]; split; try done; try congruence.
  all: intros [= ? ?]; lia.
Qed.
Lemma std_compare_antisym s t : std_compare t s = CompOpp (std_compare s t).
Proof.
  revert t. induction s as [|a s IH]; intros [|b t]; cbn; try done. rewrite (Z.compare_antisym a b), IH. by destruct (a ?= b).
Qed.
Lemma std_compare_trans s t u : std_compare s t = Lt → std_compare t u = Lt → std_compare s u = Lt.
Proof.
  revert t u. induction s as [|a s IH]; intros [|b t] [|c u]; cbn; try done.
  intros H1 H2. destruct (Z.compare_spec a b), (Z.compare_spec b c), (Z.compare_spec a c); try done; try lia. by eapply IH.
Qed.
End std_lemmas.

(** ** SafeString refines std::string *)

#[export] Hint Unfold str_update : code.

Lemma honest_str_read {A} (f : list Z → result A) : honest (str_read f).
Proof.
  intros v r v' _ [= _ <-]. destruct (cell_check_base v) as [Hb Hv]. split; [done|].
  cbn [sv_value sv_base sv_get cell_SafeVariable]. by rewrite Hb, Hv, cell_get_check.
Qed.

Section refinement.
Context {SL : StringLimits}.

(** The functions that change the string, by their arguments. *)
Inductive edit :=
| EAssign (str : list Z) | EAssignFill (count ch : Z) | EAssignCstr (s : list Z) | EAssignBuffer (s : list Z) (count : Z)
| EClear | EReserve (newcap : Z)
| EInsert (index : Z) (str : list Z) | EInsertFill (index count ch : Z) | EInsertPart (index : Z) (str : list Z) (index_str count : Z)
| EInsertIter (pos ch : Z) | EInsertIterFill (pos count ch : Z) | EInsertIterRange (pos : Z) (l : list Z)
| EErase (index count : Z) | EEraseIter (position : Z) | EEraseRange (first last : Z)
| EPushBack (ch : Z) | EPopBack
| EAppend (str : list Z) | EAppendFill (count ch : Z) | EAppendPart (str : list Z) (pos count : Z) | EAppendCstr (s : list Z)
| EReplace (pos count : Z) (str : list Z) | EReplacePart (pos count : Z) (str : list Z) (pos2 count2 : Z)
| EReplaceIter (first last : Z) (str : list Z) | EReplaceBuffer (pos count : Z) (cstr : list Z) (count2 : Z)
| EReplaceFill (pos count count2 ch : Z)
| EResize (count : Z) | EResizeFill (count ch : Z).

(** The member function of [SafeString]. *)
Definition run_edit (e : edit) : M SafeString unit :=
  match e with
  | EAssign str => SafeString_assign str
  | EAssignFill count ch => str_assign_fill count ch
  | EAssignCstr s => str_assign_cstr s
  | EAssignBuffer s count => str_assign_buffer s count
  | EClear => str_clear
  | EReserve newcap => str_reserve newcap
  | EInsert index str => str_insert index str
  | EInsertFill index count ch => str_insert_fill index count ch
  | EInsertPart index str index_str count => str_insert_part index str index_str count
  | EInsertIter pos ch => str_insert_iter pos ch ;;; mret' tt
  | EInsertIterFill pos count ch => str_insert_iter_fill pos count ch ;;; mret' tt
  | EInsertIterRange pos l => str_insert_iter_range pos l ;;; mret' tt
  | EErase index count => str_erase index count
  | EEraseIter position => str_erase_iter position ;;; mret' tt
  | EEraseRange first last => str_erase_range first last ;;; mret' tt
  | EPushBack ch => str_push_back ch
  | EPopBack => str_pop_back
  | EAppend str => str_append str
  | EAppendFill count ch => str_append_fill count ch
  | EAppendPart str pos count => str_append_part str pos count
  | EAppendCstr s => str_append_cstr s
  | EReplace pos count str => str_replace pos count str
  | EReplacePart pos count str pos2 count2 => str_replace_part pos count str pos2 count2
  | EReplaceIter first last str => str_replace_iter first last str
  | EReplaceBuffer pos count cstr count2 => str_replace_buffer pos count cstr count2
  | EReplaceFill pos count count2 ch => str_replace_fill pos count count2 ch
  | EResize count => str_resize count
  | EResizeFill count ch => str_resize_fill count ch
  end.

(** The same on a [std::string]. *)
Definition edit_spec (e : edit) (s : list Z) : result (list Z) :=
  match e with
  | EAssign str => Ok str
  | EAssignFill count ch => std_append_fill [] count ch
  | EAssignCstr t => c_string t
  | EAssignBuffer t count => buffer_prefix t count
  | EClear => Ok []
  | EReserve newcap => _ ← check_len newcap; Ok s
  | EInsert index str => std_insert s index str
  | EInsertFill index count ch => std_replace_fill s index 0 count ch
  | EInsertPart index str index_str count => t ← std_substr str index_str count; std_insert s index t
  | EInsertIter pos ch => _ ← iter_range s pos pos; std_insert s pos [ch]
  | EInsertIterFill pos count ch => _ ← iter_range s pos pos; std_replace_fill s pos 0 count ch
  | EInsertIterRange pos l => _ ← iter_range s pos pos; std_insert s pos l
  | EErase index count => std_erase s index count
  | EEraseIter position => _ ← iter_range s position (position + 1); std_erase s position 1
  | EEraseRange first last => _ ← iter_range s first last; std_erase s first (last - first)
  | EPushBack ch => std_append s [ch]
  | EPopBack => std_pop_back s
  | EAppend str => std_append s str
  | EAppendFill count ch => std_append_fill s count ch
  | EAppendPart str pos count => t ← std_substr str pos count; std_append s t
  | EAppendCstr t => t ← c_string t; std_append s t
  | EReplace pos count str => std_replace s pos count str
  | EReplacePart pos count str pos2 count2 => t ← std_substr str pos2 count2; std_replace s pos count t
  | EReplaceIter first last str => _ ← iter_range s first last; std_replace s first (last - first) str
  | EReplaceBuffer pos count cstr count2 => t ← buffer_prefix cstr count2; std_replace s pos count t
  | EReplaceFill pos count count2 ch => std_replace_fill s pos count count2 ch
  | EResize count => std_resize s count 0
  | EResizeFill count ch => std_resize s count ch
  end.

(** The string after some edits, and how they end: the first exception stops them. *)
Fixpoint edits_spec (es : list edit) (s : list Z) : result unit * list Z :=
  match es with
  | [] => (Ok tt, s)
  | e :: es => match edit_spec e s with Ok s => edits_spec es s | Throw x => (Throw x, s) end
  end.

(** What one function does to the three parts of the variable. *)
Definition edits_to (v : SafeString) (spec : result (list Z)) (r : result unit) (v' : SafeString) : Prop :=
  SafeCell.value_ v' = SafeCell.value_ v ∧
  owner_ (base_ v') = owner_ (base_ v) ∧ shouldRegister_ (base_ v') = shouldRegister_ (base_ v) ∧
  (registered_ (base_ v) = true → registered_ (base_ v') = true) ∧
  match spec with
  | Ok s => r = Ok tt ∧ cell_get v' = s ∧ (tracked (base_ v) = true → registered_ (base_ v') = true)
  | Throw x => r = Throw x ∧ cell_get v' = cell_get v
  end.

Lemma update_edits f (v : SafeString) : edits_to v (f (cell_get v)) (cell_update f v).1 (cell_update f v).2.
Proof.
  assert (H := honest_update f v _ _ I (surjective_pairing _)). destruct H as (_ & Hv & Ho & Hs & Hr & _).
  assert (Hspec := cell_update_spec f v). assert (Hreg := cell_update_registered f v). destruct (cell_update f v) as [r v']. cbn in *.
  unfold edits_to. split; [done|]. split; [done|]. split; [done|]. split; [done|]. destruct (f (cell_get v)); [by destruct Hspec|done].
Qed.

Lemma update_then {A} f (a : A) (v : SafeString) : ((cell_update f ;;; mret' a) ;;; mret' tt) v = cell_update f v.
Proof. unfold mbind'. by destruct (cell_update f v) as [[[]|] ?]. Qed.

Lemma edit_refines e v : edits_to v (edit_spec e (cell_get v)) (run_edit e v).1 (run_edit e v).2.
Proof.
  destruct e; cbn [run_edit edit_spec]; unfold str_insert_iter, str_insert_iter_fill, str_insert_iter_range, at_iter, str_erase_iter, str_erase_range, str_update;
    rewrite ?update_then; try apply update_edits.
  unfold str_replace_buffer. rewrite cell_get_check. destruct (cell_check_base v) as [Hb Hv].
    destruct (markAsUsed_spec (base_ v)) as (H1 & H2 & H3 & H4).
    destruct (t ← buffer_prefix cstr count2; std_replace (cell_get v) pos count t) as [s|x]; unfold edits_to; cbn; rewrite ?Hb, ?cell_get_check; done.
Qed.

Lemma honest_run_edit e : honest (run_edit e).
Proof.
  intros v r v' _ E. assert (H := edit_refines e v). rewrite E in H. cbn [fst snd] in H. destruct H as (Hv & Ho & Hs & Hr & H).
  split; [done|]. cbn [sv_value sv_base sv_get cell_SafeVariable]. split_and!; try done.
  intros Ht Hn. destruct (edit_spec e (cell_get v)); [|by destruct H]. destruct H as (_ & _ & Hreg). rewrite Hreg in Hn; done.
Qed.

(** A [SafeString] is the string that [std::string] makes of the same calls, up to the first exception, which leaves it as it
    was before the call that throws; the committed value is not touched, so that a revert gives it back, and a commit keeps
    what is read. *)
Theorem SafeString_refines_string es v r v' :
  mforeach run_edit es v = (r, v') →
  (r, cell_get v') = edits_spec es (cell_get v) ∧
  cell_get (SafeString_revert v') = SafeCell.value_ v ∧ SafeCell.value_ (SafeString_commit v') = cell_get v' ∧
  (tracked (base_ v) = true → cell_get v' ≠ cell_get v → registered_ (base_ v') = true).
Proof.
  intros H. assert (Hmain : (r, cell_get v') = edits_spec es (cell_get v) ∧ SafeCell.value_ v' = SafeCell.value_ v ∧
    (tracked (base_ v) = true → tracked (base_ v') = true ∧ (cell_get v' ≠ cell_get v → registered_ (base_ v') = true) ∧
      (registered_ (base_ v) = true → registered_ (base_ v') = true))).
  2:{ destruct Hmain as (H1 & H2 & H3). split; [done|]. split; [exact H2|]. split; [done|]. intros Ht. by apply H3. }
  revert v H. induction es as [|e es IH]; intros v; cbn [mforeach edits_spec].
  - intros [= <- <-]. split_and!; try done.
  - unfold mbind'. assert (He := edit_refines e v).
    destruct (run_edit e v) as [r1 v1] eqn:E1. cbn [fst snd] in He. destruct He as (Hv & Ho & Hs & Hreg & He).
    assert (Htr : tracked (base_ v) = true → tracked (base_ v1) = true) by (unfold tracked; by rewrite Ho, Hs).
    destruct (edit_spec e (cell_get v)) as [s|x].
    + destruct He as (-> & <- & Hr). intros H. destruct (IH _ H) as (H1 & H2 & H3). split; [done|]. split; [congruence|]. intros Ht.
      destruct (H3 (Htr Ht)) as (H4 & H5 & H6). split; [done|]. split; intros _; by apply H6, Hr.
    + destruct He as (-> & Hg). intros [= <- <-]. split; [by rewrite Hg|]. split; [done|]. intros Ht. split; [by apply Htr|]. by split; [|apply Hreg].
Qed.
End refinement.

(** The pointers of two strings are swapped: each reads what the other did, and a revert of both undoes it. *)
Lemma swap_spec (v o : SafeString) :
  let '(r, (v', o')) := str_swap (v, o) in
  r = Ok tt ∧ cell_get v' = cell_get o ∧ cell_get o' = cell_get v ∧
  cell_get (SafeString_revert v') = SafeCell.value_ v ∧ cell_get (SafeString_revert o') = SafeCell.value_ o.
Proof. destruct v as [bv xv [pv|]], o as [bo xo [po|]]; by repeat split. Qed.

(** ** Witnesses *)

Definition toy_limits : StringLimits := {| max_size := 2 ^ 62 - 1 |}.

Definition toy_string : SafeString := mkCell (mkSafeBase true false true) [97; 98] None.

(** ["ab"], ["abcd"], ["abXcd"], and an insertion past the end. *)
Lemma SafeString_refines_string_witness :
  let es := [EAppend [99; 100]; EInsert 2 [88]; EInsert 9 [89]] in
  let v' := (mforeach (@run_edit toy_limits) es toy_string).2 in
  cell_get v' = [97; 98; 88; 99; 100] ∧ cell_get (SafeString_revert v') = [97; 98] ∧ registered_ (base_ v') = true.
Proof.
  intros es v'. destruct (@SafeString_refines_string toy_limits es toy_string (Throw OutOfRange) v') as (Hs & Hr & _ & Hg); [by vm_compute|].
  assert (E : @edits_spec toy_limits es (cell_get toy_string) = (Throw OutOfRange, [97; 98; 88; 99; 100])) by (by vm_compute).
  rewrite E in Hs. assert (Hv := f_equal snd Hs). cbn [snd] in Hv. split; [exact Hv|]. split; [exact Hr|]. apply Hg; [done|]. by rewrite Hv.
Defined.
