(* ===== verification/SafeMap.v ===== *)
(** * SafeMap: maps as contract variables

    [SafeUnorderedMap] (src/contract/variables/safeunorderedmap.h), with keys of any type: the
    committed map, the temporary one that holds what a call has touched, and the set of erased keys.
    The references and iterators the class gives out point into the temporary map; what a contract writes
    through one is [sm_modify]. *)

From S2P Require Import Prelude Hashing SafeBase SafeCell.

Record SafeMapOf (K : Type) `{Countable K} (T : Type) := mkSafeMap {
  sm_base : SafeBase;
  map_ : gmap K T;
  mapPtr_ : option (gmap K T);      (* mutable std::unique_ptr *)
  erasedKeys_ : option (gset K)     (* mutable std::unique_ptr *)
}.
Arguments mkSafeMap {K _ _ T}.
Arguments sm_base {K _ _ T}.
Arguments map_ {K _ _ T}.
Arguments mapPtr_ {K _ _ T}.
Arguments erasedKeys_ {K _ _ T}.

(** Maps whose keys are byte strings (addresses), and integers. *)
Abbreviation SafeUnorderedMap := (SafeMapOf (list Z)).
Abbreviation SafeIntMap := (SafeMapOf Z).

Section safe_map.
Context {K : Type} {EK : EqDecision K} {CK : Countable K} {T : Type}.
Implicit Types (m : SafeMapOf K T) (k : K) (x : T).

(** [*mapPtr_] and [*erasedKeys_] after [check()]. *)
Definition sm_tmp m : gmap K T := default ∅ (mapPtr_ m).
Definition sm_erased m : gset K := default ∅ (erasedKeys_ m).

Definition sm_check m : SafeMapOf K T :=
  mkSafeMap (sm_base m) (map_ m) (Some (sm_tmp m)) (Some (sm_erased m)).

Definition sm_with_tmp m (t : gmap K T) : SafeMapOf K T :=
  mkSafeMap (sm_base m) (map_ m) (Some t) (erasedKeys_ m).

Definition sm_mark m : SafeMapOf K T :=
  mkSafeMap (markAsUsed (sm_base m)) (map_ m) (mapPtr_ m) (erasedKeys_ m).

Definition checkKeyAndCopy k m : SafeMapOf K T :=
  let m := sm_check m in
  match sm_tmp m !! k with
  | Some _ => m
  | None =>
      match map_ m !! k with
      | None => m
      | Some x => if decide (k ∈ sm_erased m) then m else sm_with_tmp m (<[k := x]> (sm_tmp m))
      end
  end.

(** [d] is [T()]. *)
Definition checkKeyAndCreate (d : T) k m : SafeMapOf K T :=
  let m := sm_check m in
  match sm_tmp m !! k with
  | Some _ => m
  | None =>
      match map_ m !! k with
      | None => sm_with_tmp m (<[k := d]> (sm_tmp m))
      | Some x => sm_with_tmp m (<[k := if decide (k ∈ sm_erased m) then d else x]> (sm_tmp m))
      end
  end.

Definition key_not_found : exn := DynamicException "Key not found".

Definition checkKeyAndThrow k : M (SafeMapOf K T) unit := λ m,
  let m := sm_check m in
  match sm_tmp m !! k with
  | Some _ => (Ok tt, m)
  | None =>
      match map_ m !! k with
      | None => (Throw key_not_found, m)
      | Some x => if decide (k ∈ sm_erased m) then (Throw key_not_found, m)
                  else (Ok tt, sm_with_tmp m (<[k := x]> (sm_tmp m)))
      end
  end.

(** [t] after [erase] of each key of [e]. *)
Definition without (e : gset K) (t : gmap K T) : gmap K T := filter (λ p, p.1 ∉ e) t.

Definition has_key m k : bool := bool_decide (is_Some (sm_tmp m !! k)).

(** The constructors: with an owner, without one, and the copy. *)
Definition SafeMap_owned (t : gmap K T) : SafeMapOf K T := mkSafeMap SafeBase_owned t None None.
Definition SafeMap_local (t : gmap K T) : SafeMapOf K T := mkSafeMap SafeBase_local ∅ (Some t) None.
Definition SafeMap_copy (other : SafeMapOf K T) : SafeMapOf K T :=
  mkSafeMap SafeBase_local (map_ other) (Some (sm_tmp other)) (Some (sm_erased other)).

(** Lookups. An iterator is the entry it points to, or nothing for [end()]. *)
Definition sm_count k : M (SafeMapOf K T) nat := λ m,
  let m := checkKeyAndCopy k m in (Ok (if has_key m k then 1%nat else 0%nat), m).
Definition sm_find_const k : M (SafeMapOf K T) (option T) := λ m,
  let m := checkKeyAndCopy k m in (Ok (sm_tmp m !! k), m).
Definition sm_find k : M (SafeMapOf K T) (option T) := λ m,
  let m := sm_mark (checkKeyAndCopy k m) in (Ok (sm_tmp m !! k), m).
Definition sm_contains k : M (SafeMapOf K T) bool := λ m,
  let m := checkKeyAndCopy k m in (Ok (has_key m k), m).

Definition sm_commit m : SafeMapOf K T :=
  let m := sm_check m in
  let merged := sm_tmp m ∪ map_ m in
  mkSafeMap (set_registered (sm_base m) false) (without (sm_erased m) merged) None (erasedKeys_ m).
Definition sm_revert m : SafeMapOf K T :=
  mkSafeMap (set_registered (sm_base m) false) (map_ m) None None.

(** [cbegin] to [cend], and [begin] to [end]. *)
Definition sm_committed_entries {HO : HashOrder} m : list (K * T) := in_order (map_ m).
Definition sm_temporary_entries {HO : HashOrder} m : list (K * T) := in_order (sm_tmp m).

Definition sm_empty : M (SafeMapOf K T) bool := λ m,
  let m := sm_check m in (Ok (bool_decide (map_ m = ∅) || bool_decide (sm_tmp m = ∅)), m).
Definition sm_size : M (SafeMapOf K T) nat := λ m, let m := sm_check m in (Ok (size (map_ m)), m).

(** [insert] of a value and [emplace]: whether the temporary map had no such key. *)
Definition sm_insert k x : M (SafeMapOf K T) bool := λ m,
  let m := sm_mark (sm_check m) in
  match sm_tmp m !! k with
  | Some _ => (Ok false, m)
  | None => (Ok true, sm_with_tmp m (<[k := x]> (sm_tmp m)))
  end.
Definition sm_emplace : K → T → M (SafeMapOf K T) bool := sm_insert.

(** [insert] of a range or of an initializer list: the first of equal keys is kept. *)
Definition sm_insert_range (l : list (K * T)) : M (SafeMapOf K T) unit := λ m,
  let m := sm_mark (sm_check m) in
  (Ok tt, sm_with_tmp m (foldl (λ t p, insert_new p.1 p.2 t) (sm_tmp m) l)).

Definition sm_insert_or_assign k x : M (SafeMapOf K T) bool := λ m,
  let m := sm_mark (sm_check m) in
  (Ok (negb (has_key m k)), sm_with_tmp m (<[k := x]> (sm_tmp m))).

Definition sm_with_erased m (e : gset K) : SafeMapOf K T :=
  mkSafeMap (sm_base m) (map_ m) (mapPtr_ m) (Some e).

(** [erase] of a key, of a position ([end()] cannot be erased) and of a range. *)
Definition sm_erase k : M (SafeMapOf K T) nat := λ m,
  let m := sm_mark (sm_check m) in
  let m := sm_with_erased m ({[k]} ∪ sm_erased m) in
  (Ok (if has_key m k then 1%nat else 0%nat), sm_with_tmp m (delete k (sm_tmp m))).
Definition sm_erase_pos (pos : option K) : M (SafeMapOf K T) unit := λ m,
  match pos with
  | None => (Throw Undefined, m)
  | Some k => (Ok tt, (sm_erase k m).2)
  end.
Definition sm_erase_range (keys : list K) : M (SafeMapOf K T) unit := λ m,
  let m := sm_mark (sm_check m) in
  let m := sm_with_erased m (list_to_set keys ∪ sm_erased m) in
  (Ok tt, sm_with_tmp m (foldl (λ t k, delete k t) (sm_tmp m) keys)).

(** [at], and [operator\[\]], whose reference the contract reads or writes. *)
Definition sm_at_const k : M (SafeMapOf K T) T := λ m,
  let '(r, m) := checkKeyAndThrow k m in
  match r with
  | Throw e => (Throw e, m)
  | Ok _ => (match sm_tmp m !! k with Some x => Ok x | None => Throw Undefined end, m)
  end.
Definition sm_at k : M (SafeMapOf K T) T := λ m,
  let '(r, m) := sm_at_const k m in
  match r with Throw e => (Throw e, m) | Ok x => (Ok x, sm_mark m) end.
Definition sm_index (d : T) k : M (SafeMapOf K T) T := λ m,
  let m := sm_mark (checkKeyAndCreate d k m) in (Ok (default d (sm_tmp m !! k)), m).

(** A compound assignment to [map\[key\]]: [f] gives the exception, if any, and what is left in the value. *)
Definition sm_modify {A} (d : T) k (f : T → result A * T) : M (SafeMapOf K T) A := λ m,
  let m := sm_mark (checkKeyAndCreate d k m) in
  let '(r, x) := f (default d (sm_tmp m !! k)) in
  (r, sm_with_tmp m (<[k := x]> (sm_tmp m))).

(** ** The variable *)

(** What the lookups read. *)
Definition sm_view m : gmap K T := sm_tmp m ∪ without (sm_erased m) (map_ m).

#[export] Instance SafeMap_variable : SafeVariable (SafeMapOf K T) (gmap K T) := {|
  sv_base := sm_base;
  sv_wf m := sm_erased m = ∅;
  sv_get := sm_view;
  sv_value := map_;
  sv_commit := sm_commit;
  sv_revert := sm_revert
|}.
End safe_map.

(** ** Lemmas: what is read *)

Section lemmas.
Context {K : Type} {EK : EqDecision K} {CK : Countable K} {T : Type}.
Implicit Types (m : SafeMapOf K T) (k : K) (x d : T).

Lemma sm_view_lookup m k :
  sm_view m !! k = match sm_tmp m !! k with
                   | Some x => Some x
                   | None => if decide (k ∈ sm_erased m) then None else map_ m !! k
                   end.
Proof.
  unfold sm_view. rewrite lookup_union. destruct (sm_tmp m !! k) as [x|]; [by rewrite union_Some_l|].
  rewrite option_union_left_id. unfold without. destruct (map_ m !! k) as [y|] eqn:E.
  - case_decide as Hk; [apply map_lookup_filter_None_2; right; intros y' _ Hy; by apply Hy|].
    by apply map_lookup_filter_Some_2.
  - rewrite map_lookup_filter_None_2 by by left. by case_decide.
Qed.

Lemma sm_view_check m : sm_view (sm_check m) = sm_view m. Proof. done. Qed.
Lemma sm_view_mark m : sm_view (sm_mark m) = sm_view m. Proof. done. Qed.

Lemma sm_view_store m k x : sm_view (sm_with_tmp m (<[k := x]> (sm_tmp m))) = <[k := x]> (sm_view m).
Proof.
  apply map_eq. intros i. rewrite sm_view_lookup. change (sm_tmp (sm_with_tmp m ?t)) with t.
  change (sm_erased (sm_with_tmp m _)) with (sm_erased m). destruct (decide (k = i)) as [->|Hne].
  - by rewrite !lookup_insert_eq.
  - by rewrite !lookup_insert_ne, sm_view_lookup by done.
Qed.

Lemma sm_store_same m k x : sm_view m !! k = Some x → <[k := x]> (sm_view m) = sm_view m.
Proof. apply insert_id. Qed.

(** The three preparations: what they leave in the temporary map and what is read after them. *)
Lemma checkKeyAndCopy_spec k m :
  sm_view (checkKeyAndCopy k m) = sm_view m ∧ sm_tmp (checkKeyAndCopy k m) !! k = sm_view m !! k ∧
  map_ (checkKeyAndCopy k m) = map_ m ∧ sm_erased (checkKeyAndCopy k m) = sm_erased m ∧
  sm_base (checkKeyAndCopy k m) = sm_base m.
Proof.
  assert (Hv := sm_view_lookup m k). unfold checkKeyAndCopy.
  change (sm_tmp (sm_check m)) with (sm_tmp m). change (map_ (sm_check m)) with (map_ m).
  change (sm_erased (sm_check m)) with (sm_erased m).
  destruct (sm_tmp m !! k) as [x|] eqn:E1; [by rewrite Hv|].
  destruct (map_ m !! k) as [x|] eqn:E2; [|split_and!; try done; rewrite Hv; by case_decide].
  case_decide as Hk; [split_and!; try done; by rewrite Hv|].
  split_and!; try done.
  - etransitivity; [exact (sm_view_store (sm_check m) k x)|]. exact (sm_store_same m k x Hv).
  - rewrite Hv. apply lookup_insert_eq.
Qed.

Lemma checkKeyAndCreate_spec d k m :
  let m' := checkKeyAndCreate d k m in let x := default d (sm_view m !! k) in
  sm_view m' = <[k := x]> (sm_view m) ∧ sm_tmp m' !! k = Some x ∧
  map_ m' = map_ m ∧ sm_erased m' = sm_erased m ∧ sm_base m' = sm_base m.
Proof.
  assert (Hv := sm_view_lookup m k). unfold checkKeyAndCreate.
  change (sm_tmp (sm_check m)) with (sm_tmp m). change (map_ (sm_check m)) with (map_ m).
  change (sm_erased (sm_check m)) with (sm_erased m).
  assert (Hstore : ∀ x, default d (sm_view m !! k) = x →
    let m' := sm_with_tmp (sm_check m) (<[k := x]> (sm_tmp m)) in
    sm_view m' = <[k := x]> (sm_view m) ∧ sm_tmp m' !! k = Some x ∧
    map_ m' = map_ m ∧ sm_erased m' = sm_erased m ∧ sm_base m' = sm_base m).
  { intros x Hx m'. split_and!; try done.
    - exact (sm_view_store (sm_check m) k x).
    - apply lookup_insert_eq. }
  destruct (sm_tmp m !! k) as [x|] eqn:E1.
  { rewrite Hv. cbn. split_and!; try done. by rewrite insert_id. }
  destruct (map_ m !! k) as [x|] eqn:E2.
  - assert (Hd : default d (sm_view m !! k) = if decide (k ∈ sm_erased m) then d else x) by (rewrite Hv; by case_decide).
    cbv zeta. rewrite Hd. by apply Hstore.
  - assert (Hd : default d (sm_view m !! k) = d) by (rewrite Hv; by case_decide).
    cbv zeta. rewrite Hd. by apply Hstore.
Qed.

Lemma checkKeyAndThrow_spec k m :
  checkKeyAndThrow k m = (if sm_view m !! k is Some _ then Ok tt else Throw key_not_found, checkKeyAndCopy k m).
Proof.
  rewrite sm_view_lookup. unfold checkKeyAndThrow, checkKeyAndCopy.
  change (sm_tmp (sm_check m)) with (sm_tmp m). change (map_ (sm_check m)) with (map_ m).
  change (sm_erased (sm_check m)) with (sm_erased m).
  destruct (sm_tmp m !! k); [done|]. destruct (map_ m !! k); by case_decide.
Qed.

Lemma sm_at_spec k m :
  sm_at_const k m = (if sm_view m !! k is Some x then Ok x else Throw key_not_found, checkKeyAndCopy k m).
Proof.
  unfold sm_at_const. rewrite checkKeyAndThrow_spec.
  destruct (checkKeyAndCopy_spec k m) as (_ & Ht & _). rewrite Ht. by destruct (sm_view m !! k).
Qed.

Lemma sm_modify_spec {A} d k (f : T → result A * T) m :
  let '(r, x) := f (default d (sm_view m !! k)) in
  let m' := (sm_modify d k f m).2 in
  (sm_modify d k f m).1 = r ∧ sm_view m' = <[k := x]> (sm_view m) ∧ map_ m' = map_ m ∧
  sm_erased m' = sm_erased m ∧ sm_base m' = markAsUsed (sm_base m).
Proof.
  destruct (checkKeyAndCreate_spec d k m) as (Hv & Ht & Hm & He & Hb). unfold sm_modify.
  change (sm_tmp (sm_mark ?x)) with (sm_tmp x). rewrite Ht. cbn [default].
  destruct (f _) as [r x]. cbn [fst snd]. split_and!; try done.
  - etransitivity; [exact (sm_view_store (sm_mark (checkKeyAndCreate d k m)) k x)|].
    rewrite sm_view_mark, Hv. apply insert_insert_eq.
  - cbn. by rewrite Hb.
Qed.

(** ** The laws *)

Lemma without_empty (t : gmap K T) : without ∅ t = t.
Proof. apply map_filter_id. intros k x _. cbn. apply not_elem_of_empty. Qed.

#[export] Instance SafeMap_laws : SafeVariableLaws (SafeMapOf K T) (gmap K T).
Proof.
  constructor; cbn [sv_base sv_wf sv_get sv_value sv_commit sv_revert SafeMap_variable]; try done; intros m.
  - intros Hw. unfold sm_commit, sm_view. cbn [map_]. change (sm_erased (sm_check m)) with (sm_erased m).
    rewrite Hw, !without_empty. done.
  - intros Hw. unfold sm_view. cbn [sm_commit sm_tmp mapPtr_ default map_]. rewrite map_empty_union.
    change (sm_erased (sm_commit m)) with (sm_erased m). change (sm_erased (sm_check m)) with (sm_erased m).
    by rewrite Hw, !without_empty.
  - unfold sm_view. cbn. by rewrite map_empty_union, without_empty.
Qed.
End lemmas.

(** ** The operations *)

Section properties.
Context {K : Type} {EK : EqDecision K} {CK : Countable K} {T : Type}.
Implicit Types (m : SafeMapOf K T) (k : K) (x d : T).

(** An operation that reads: it gives [a], and what is read stays; and one that writes: what is read becomes [t]. *)
Definition reads_as {A} (op : M (SafeMapOf K T) A) m (r : result A) (t : gmap K T) : Prop :=
  (op m).1 = r ∧ sm_view (op m).2 = t ∧ map_ (op m).2 = map_ m ∧ sm_base (op m).2 = sm_base m.
Definition writes_as {A} (op : M (SafeMapOf K T) A) m (r : result A) (t : gmap K T) : Prop :=
  (op m).1 = r ∧ sm_view (op m).2 = t ∧ map_ (op m).2 = map_ m ∧ sm_base (op m).2 = markAsUsed (sm_base m).

Lemma sm_view_erase m k : sm_view (sm_erase k m).2 = delete k (sm_view m).
Proof.
  apply map_eq. intros i. rewrite sm_view_lookup. unfold sm_erase. cbn [snd].
  change (sm_tmp (sm_with_tmp _ ?t)) with t. change (sm_erased (sm_with_tmp _ _)) with ({[k]} ∪ sm_erased m).
  change (sm_tmp (sm_with_erased _ _)) with (sm_tmp m). destruct (decide (k = i)) as [->|Hne].
  - rewrite !lookup_delete_eq. rewrite decide_True; [done|]. apply elem_of_union_l, elem_of_singleton_2. done.
  - rewrite !lookup_delete_ne, sm_view_lookup by done. destruct (sm_tmp m !! i); [done|].
    change (map_ (sm_with_tmp _ _)) with (map_ m).
    assert (Hi : i ∈ ({[k]} ∪ sm_erased m : gset K) ↔ i ∈ sm_erased m).
    { rewrite elem_of_union, elem_of_singleton. split; [intros [->|?]; done|by right]. }
    destruct (decide (i ∈ sm_erased m)) as [Hi'|Hi']; [by rewrite decide_True by by apply Hi|].
    by rewrite decide_False by by rewrite Hi.
Qed.

(** [insert] and [emplace] store what the temporary map does not have. *)
Lemma sm_insert_spec m k x :
  let fresh := negb (bool_decide (is_Some (sm_tmp m !! k))) in
  writes_as (sm_insert k x) m (Ok fresh) (if fresh then <[k := x]> (sm_view m) else sm_view m).
Proof.
  unfold writes_as, sm_insert. change (sm_tmp (sm_mark (sm_check m))) with (sm_tmp m).
  destruct (sm_tmp m !! k) as [y|] eqn:E.
  - by rewrite bool_decide_true by by exists y.
  - rewrite bool_decide_false by (by intros [? ?]). split_and!; try done. exact (sm_view_store (sm_mark (sm_check m)) k x).
Qed.

(** [commit] and [revert], when nothing was erased and when something was. *)
Lemma without_lookup (e : gset K) (t : gmap K T) i : without e t !! i = if decide (i ∈ e) then None else t !! i.
Proof.
  unfold without. case_decide as Hi; [apply map_lookup_filter_None_2; right; by intros x _ ?|].
  destruct (t !! i) as [x|] eqn:E; [by apply map_lookup_filter_Some_2|by apply map_lookup_filter_None_2; left].
Qed.

Lemma without_view m : without (sm_erased m) (sm_tmp m ∪ map_ m) = without (sm_erased m) (sm_view m).
Proof.
  apply map_eq. intros i. rewrite !without_lookup, sm_view_lookup, lookup_union. case_decide; [done|].
  destruct (sm_tmp m !! i), (map_ m !! i); done.
Qed.

Lemma without_twice (e : gset K) (t : gmap K T) : without e (without e t) = without e t.
Proof. unfold without. apply map_filter_id. by intros i x [_ ?]%map_lookup_filter_Some. Qed.

Lemma sm_commit_spec m :
  map_ (sm_commit m) = without (sm_erased m) (sm_view m) ∧ sm_view (sm_commit m) = without (sm_erased m) (sm_view m) ∧
  sm_erased (sm_commit m) = sm_erased m.
Proof.
  assert (Hm : map_ (sm_commit m) = without (sm_erased m) (sm_view m)).
  { unfold sm_commit. cbn [map_]. change (sm_erased (sm_check m)) with (sm_erased m).
    change (sm_tmp (sm_check m) ∪ map_ (sm_check m)) with (sm_tmp m ∪ map_ m). apply without_view. }
  split; [done|]. split; [|done]. unfold sm_view at 1. change (sm_erased (sm_commit m)) with (sm_erased m).
  rewrite Hm, without_twice. apply map_empty_union.
Qed.

(** C32: Within a call a [SafeUnorderedMap] is a finite map, the one [sm_view] gives: every lookup reads it
    and leaves it as it is, every write changes it as the operation of the finite map does, the committed
    map stays, and writing registers the variable. [erase], [insert] and [insert_or_assign] answer by the temporary map
    alone: what they say of a key that only the committed map has is wrong, and [insert] stores over it. [commit] makes
    the committed map what is read, less the keys erased since the last [revert], and keeps their set; [revert] goes back
    to the committed map. *)
Theorem SafeMap_refines_map m k x d {A} (f : T → result A * T) :
  reads_as (sm_contains k) m (Ok (bool_decide (is_Some (sm_view m !! k)))) (sm_view m) ∧
  reads_as (sm_count k) m (Ok (if bool_decide (is_Some (sm_view m !! k)) then 1%nat else 0%nat)) (sm_view m) ∧
  reads_as (sm_find_const k) m (Ok (sm_view m !! k)) (sm_view m) ∧
  reads_as (sm_at_const k) m (if sm_view m !! k is Some x then Ok x else Throw key_not_found) (sm_view m) ∧
  writes_as (sm_find k) m (Ok (sm_view m !! k)) (sm_view m) ∧
  writes_as (sm_index d k) m (Ok (default d (sm_view m !! k))) (<[k := default d (sm_view m !! k)]> (sm_view m)) ∧
  writes_as (sm_modify d k f) m (f (default d (sm_view m !! k))).1 (<[k := (f (default d (sm_view m !! k))).2]> (sm_view m)) ∧
  let temporary := bool_decide (is_Some (sm_tmp m !! k)) in
  writes_as (sm_insert_or_assign k x) m (Ok (negb temporary)) (<[k := x]> (sm_view m)) ∧
  writes_as (sm_insert k x) m (Ok (negb temporary)) (if temporary then sm_view m else <[k := x]> (sm_view m)) ∧
  writes_as (sm_erase k) m (Ok (if temporary then 1%nat else 0%nat)) (delete k (sm_view m)) ∧
  (let m' := sm_commit m in map_ m' = without (sm_erased m) (sm_view m) ∧ sm_view m' = map_ m' ∧
   sm_erased m' = sm_erased m ∧ sm_base m' = set_registered (sm_base m) false) ∧
  (let m' := sm_revert m in map_ m' = map_ m ∧ sm_view m' = map_ m ∧ sm_erased m' = ∅ ∧
   sm_base m' = set_registered (sm_base m) false).
Proof.
  destruct (checkKeyAndCopy_spec k m) as (C1 & C2 & C3 & C4 & C5).
  destruct (checkKeyAndCreate_spec d k m) as (D1 & D2 & D3 & D4 & D5). cbv zeta in *.
  assert (Hi := sm_insert_spec m k x). destruct (sm_commit_spec m) as (Hc1 & Hc2 & Hc3). cbv zeta in Hi |- *.
  rewrite if_negb in Hi. unfold reads_as, writes_as in *.
  split_and!; try done; try apply Hi; cbn [sm_contains sm_count sm_find_const sm_find sm_index fst snd];
    unfold has_key; rewrite ?sm_at_spec; cbn [fst snd]; rewrite ?C2; try done.
  - by change (sm_tmp (sm_mark (checkKeyAndCopy k m))) with (sm_tmp (checkKeyAndCopy k m)); rewrite C2.
  - cbn. by rewrite C5.
  - by change (sm_tmp (sm_mark (checkKeyAndCreate d k m))) with (sm_tmp (checkKeyAndCreate d k m)); rewrite D2.
  - cbn. by rewrite D5.
  - assert (H := sm_modify_spec d k f m). by destruct (f _); destruct H as (? & ? & ? & ? & ?).
  - assert (H := sm_modify_spec d k f m). by destruct (f _); destruct H as (? & ? & ? & ? & ?).
  - assert (H := sm_modify_spec d k f m). by destruct (f _); destruct H as (? & ? & ? & ? & ?).
  - assert (H := sm_modify_spec d k f m). by destruct (f _); destruct H as (? & ? & ? & ? & ?).
  - exact (sm_view_store (sm_mark (sm_check m)) k x).
  - apply sm_view_erase.
  - by rewrite Hc2, Hc1.
  - unfold sm_view. cbn. by rewrite map_empty_union, without_empty.
Qed.

(** [insert] looks only into the temporary map: a key that only the committed map has is inserted over. *)
Lemma insert_overwrites_committed m k x y :
  sm_view m !! k = Some y → sm_tmp m !! k = None →
  (sm_insert k x m).1 = Ok true ∧ sm_view (sm_insert k x m).2 !! k = Some x.
Proof.
  intros _ Ht. unfold sm_insert. change (sm_tmp (sm_mark (sm_check m))) with (sm_tmp m). rewrite Ht. split; [done|].
  cbn [snd]. rewrite sm_view_lookup. change (sm_tmp (sm_with_tmp _ ?t)) with t. by rewrite lookup_insert_eq.
Qed.

(** A key that was erased cannot be stored again: what is assigned to it is read during the call and
    lost at its end, in the call that erased it and in every later one, until a call is reverted. *)
Theorem erased_key_lost m k x :
  (k ∈ sm_erased (sm_erase k m).2) ∧
  (k ∈ sm_erased m →
   let m1 := (sm_insert_or_assign k x m).2 in
   sm_view m1 !! k = Some x ∧ map_ (sm_commit m1) !! k = None ∧ sm_view (sm_commit m1) !! k = None ∧
   k ∈ sm_erased (sm_commit m1)).
Proof.
  change (sm_erased (sm_erase k m).2) with ({[k]} ∪ sm_erased m).
  split; [by apply elem_of_union_l, elem_of_singleton_2|]. intros Hk m1.
  assert (Hm : map_ (sm_commit m1) !! k = None).
  { apply map_lookup_filter_None_2. right. intros y _ Hy. by apply Hy. }
  split; [|split; [done|split; [|done]]].
  - unfold m1. rewrite sm_view_lookup. change (sm_tmp (sm_insert_or_assign k x m).2) with (<[k := x]> (sm_tmp m)).
    by rewrite lookup_insert_eq.
  - rewrite sm_view_lookup. change (sm_tmp (sm_commit m1)) with (∅ : gmap K T). rewrite lookup_empty, Hm. by case_decide.
Qed.

(** *** The operations a call may use *)

Lemma honest_writes {A} (op : M (SafeMapOf K T) A) :
  (∀ m, sm_erased m = ∅ → map_ (op m).2 = map_ m ∧ sm_erased (op m).2 = ∅ ∧ sm_base (op m).2 = markAsUsed (sm_base m)) →
  honest op.
Proof.
  intros H m r m' Hw E. destruct (H m Hw) as (Hm & He & Hb). rewrite E in Hm, He, Hb. cbn [snd] in *.
  destruct (markAsUsed_spec (sm_base m)) as (H1 & H2 & H3 & H4).
  cbn [sv_wf sv_value sv_base sv_get SafeMap_variable]. rewrite Hb. split_and!; try done.
  intros Ht Hr. rewrite H4 in Hr by done. done.
Qed.

Lemma honest_reads {A} (op : M (SafeMapOf K T) A) :
  (∀ m, sm_erased m = ∅ → map_ (op m).2 = map_ m ∧ sm_erased (op m).2 = ∅ ∧ sm_base (op m).2 = sm_base m ∧
    sm_view (op m).2 = sm_view m) → honest op.
Proof.
  intros H m r m' Hw E. destruct (H m Hw) as (Hm & He & Hb & Hv). rewrite E in Hm, He, Hb, Hv. cbn [snd] in *.
  cbn [sv_wf sv_value sv_base sv_get SafeMap_variable]. by rewrite Hb.
Qed.

Lemma honest_find_const k : honest (sm_find_const (T := T) k).
Proof.
  apply honest_reads. intros m Hw. destruct (checkKeyAndCopy_spec k m) as (? & ? & ? & He & ?). by rewrite <- Hw, <- He at 1.
Qed.
Lemma honest_contains k : honest (sm_contains (T := T) k).
Proof.
  apply honest_reads. intros m Hw. destruct (checkKeyAndCopy_spec k m) as (? & ? & ? & He & ?). by rewrite <- Hw, <- He at 1.
Qed.
Lemma honest_modify {A} d k (f : T → result A * T) : honest (sm_modify d k f).
Proof.
  apply honest_writes. intros m Hw. assert (H := sm_modify_spec d k f m). destruct (f _). cbn in H.
  destruct H as (_ & _ & Hm & He & Hb). by rewrite Hm, He, Hb.
Qed.
Lemma honest_insert_or_assign k x : honest (sm_insert_or_assign k x).
Proof. by apply honest_writes. Qed.
Lemma honest_insert k x : honest (sm_insert k x).
Proof. apply honest_writes. intros m Hw. unfold sm_insert. by case_match. Qed.
End properties.

#[export] Hint Resolve honest_find_const honest_contains honest_modify honest_insert_or_assign honest_insert : code.

(** *** Witnesses *)

Lemma erased_key_lost_witness :
  let m := mkSafeMap (mkSafeBase true false true) {[ [1] := 5 ]} None None : SafeUnorderedMap Z in
  let m1 := sm_commit (sm_erase [1] m).2 in
  ([1] : list Z) ∈ sm_erased m1 ∧ sm_view m1 !! [1] = None ∧
  (([1] : list Z) ∈ sm_erased (sm_erase [1] m1).2) ∧
  (([1] : list Z) ∈ sm_erased m1 →
   let m2 := (sm_insert_or_assign [1] 7 m1).2 in
   sm_view m2 !! [1] = Some 7 ∧ map_ (sm_commit m2) !! [1] = None ∧ sm_view (sm_commit m2) !! [1] = None ∧
   ([1] : list Z) ∈ sm_erased (sm_commit m2)).
Proof.
  split; [by_compute|]. split; [by vm_compute|].
  apply (erased_key_lost (sm_commit (sm_erase [1] (mkSafeMap (mkSafeBase true false true) {[ [1] := 5 ]} None None)).2) [1] 7).
Defined.
