(* ===== verification/SafeVector.v ===== *)
(** * SafeVector: vectors as contract variables (src/contract/variables/safevector.h)

    The committed vector, the temporary map from indices to the elements that were touched, the size of the
    vector during the call and whether it was cleared.  [vec_view] is what the variable reads as;
    every operation does to it what the same operation does to a list.  Indices are of 64 bits. *)

From stdpp Require Import sorting.
From S2P Require Import Prelude Bytes SafeBase SafeCell.

Record SafeVector (T : Type) := mkVector {
  vec_base : SafeBase;
  vector_ : list T;
  tmp_ : option (gmap N T);     (* mutable std::unique_ptr<std::map> *)
  maxIndex_ : N;
  clear_ : bool
}.
Arguments mkVector {T}.
Arguments vec_base {T}.
Arguments vector_ {T}.
Arguments tmp_ {T}.
Arguments maxIndex_ {T}.
Arguments clear_ {T}.

Section safe_vector.
Context {T : Type}.
Implicit Types (v : SafeVector T) (x : T) (i pos count : N) (t : gmap N T).

Definition size64 : N := 18446744073709551616.
Definition vector_size v : N := N.of_nat (length (vector_ v)).

Definition vec_check v : SafeVector T :=
  match tmp_ v with
  | None => mkVector (vec_base v) (vector_ v) (Some ∅) (vector_size v) (clear_ v)
  | Some _ => v
  end.

(** [*tmp_] after [check()]. *)
Definition vec_tmp v : gmap N T := default ∅ (tmp_ v).

Definition vec_with v t max : SafeVector T := mkVector (vec_base v) (vector_ v) (Some t) max (clear_ v).
Definition vec_mark v : SafeVector T := mkVector (markAsUsed (vec_base v)) (vector_ v) (tmp_ v) (maxIndex_ v) (clear_ v).

(** [emplace] keeps the element there is. *)
Definition emplace i x t : gmap N T := match t !! i with Some _ => t | None => <[i := x]> t end.

(** An element of the temporary map, or of the vector; past the end of the vector is undefined. *)
Definition elem t (l : list T) i : option T := match t !! i with Some x => Some x | None => l !! N.to_nat i end.
Definition or_undefined {A} (o : option A) : result A := match o with Some x => Ok x | None => Throw Undefined end.

Definition checkIndexAndCopy i : M (SafeVector T) unit := λ v,
  let v := vec_check v in
  if (maxIndex_ v <=? i)%N then (Throw OutOfRange, v)
  else match vec_tmp v !! i with
       | Some _ => (Ok tt, v)
       | None => match vector_ v !! N.to_nat i with
                 | Some x => (Ok tt, vec_with v (<[i := x]> (vec_tmp v)) (maxIndex_ v))
                 | None => (Throw Undefined, v)
                 end
       end.

(** *** Constructors *)

Definition SafeVector_owned : SafeVector T := mkVector SafeBase_owned [] None 0 false.
Definition SafeVector_empty : SafeVector T := mkVector SafeBase_local [] None 0 false.

(** The loop of the constructors from values, and of [assign]: one element after the other. *)
Definition emplace_all (l : list T) t i : gmap N T * N :=
  foldl (λ p x, (emplace p.2 x p.1, (p.2 + 1)%N)) (t, i) l.
Definition SafeVector_of (l : list T) : SafeVector T :=
  let '(t, n) := emplace_all l ∅ 0 in mkVector SafeBase_local [] (Some t) n false.

(** The copy takes the temporary map and the size, and not the vector. *)
Definition SafeVector_copy (other : SafeVector T) : SafeVector T :=
  let other := vec_check other in mkVector SafeBase_local [] (Some (vec_tmp other)) (maxIndex_ other) false.

(** *** Access *)

Definition vec_at_const i : M (SafeVector T) T := checkIndexAndCopy i ;;; (λ v, (or_undefined (vec_tmp v !! i), v)).
Definition vec_at i : M (SafeVector T) T :=
  checkIndexAndCopy i ;;; mmodify vec_mark ;;; (λ v, (or_undefined (vec_tmp v !! i), v)).

(** What a contract writes through the reference that [at] and [operator\[\]] return. *)
Definition vec_modify {A} i (f : T → result A * T) : M (SafeVector T) A :=
  x <-- vec_at i;;
  (λ v, let '(r, y) := f x in (r, vec_with v (<[i := y]> (vec_tmp v)) (maxIndex_ v))).

Definition vec_empty v : bool := (maxIndex_ v =? 0)%N.
Definition vec_size : M (SafeVector T) N := λ v, let v := vec_check v in (Ok (maxIndex_ v), v).

(** [get] and the iterators: the committed vector. *)
Definition vec_get v : list T := vector_ v.

(** *** Changes *)

Definition vec_assign (l : list T) : M (SafeVector T) unit := λ v,
  let v := vec_check v in
  let '(t, n) := emplace_all l ∅ 0 in
  (Ok tt, mkVector (vec_base v) (vector_ v) (Some t) n true).

Definition vec_clear : M (SafeVector T) unit := λ v,
  let v := vec_mark (vec_check v) in (Ok tt, mkVector (vec_base v) (vector_ v) (Some ∅) 0 true).

(** The loop of [insert], from the end down, [n] times. *)
Fixpoint shift_right (l : list T) (i : N) (n : nat) t : result (gmap N T) :=
  match n with
  | O => Ok t
  | S n => x ← or_undefined (elem t l (i - 1)); shift_right l (i - 1) n (<[i := x]> t)
  end.

Definition vec_insert pos x : M (SafeVector T) N := λ v,
  let v := vec_mark (vec_check v) in
  if (pos =? maxIndex_ v)%N then (Ok pos, vec_with v (<[pos := x]> (vec_tmp v)) (maxIndex_ v + 1))
  else if (pos <? maxIndex_ v)%N then
    match shift_right (vector_ v) (maxIndex_ v) (N.to_nat (maxIndex_ v - pos)) (vec_tmp v) with
    | Ok t => (Ok pos, vec_with v (<[pos := x]> t) (maxIndex_ v + 1))
    | Throw e => (Throw e, v)
    end
  else (Throw OutOfRange, v).

(** The loop of the two functions [erase]: each of [n] elements from [i] on becomes the one [k] places further. *)
Fixpoint shift_left (l : list T) (k i : N) (n : nat) t : result (gmap N T) :=
  match n with
  | O => Ok t
  | S n => x ← or_undefined (elem t l (i + k)); shift_left l k (i + 1) n (<[i := x]> t)
  end.

Definition erase_keys (l : list N) t : gmap N T := foldl (λ t i, delete i t) t l.

Definition vec_erase pos : M (SafeVector T) N :=
  checkIndexAndCopy pos ;;; mmodify vec_mark ;;; (λ v,
    match shift_left (vector_ v) 1 pos (N.to_nat (maxIndex_ v - 1 - pos)) (vec_tmp v) with
    | Ok t => (Ok pos, vec_with v (delete (maxIndex_ v - 1)%N t) (maxIndex_ v - 1))
    | Throw e => (Throw e, v)
    end).

(** The indices [i], ..., [i + n - 1]. *)
Definition indices i (n : N) : list N := (λ j, i + N.of_nat j)%N <$> seq 0 (N.to_nat n).

Definition vec_erase_range first last : M (SafeVector T) N := λ v,
  let v := vec_mark (vec_check v) in
  if ((last <? first) || (maxIndex_ v <? last))%N then (Throw OutOfRange, v)
  else
    let numToRemove := (last - first)%N in
    match shift_left (vector_ v) numToRemove first (N.to_nat (maxIndex_ v - numToRemove - first)) (vec_tmp v) with
    | Ok t => (Ok first, vec_with v (erase_keys (indices (maxIndex_ v - numToRemove) numToRemove) t) (maxIndex_ v - numToRemove))
    | Throw e => (Throw e, v)
    end.

(** [push_back] and [emplace_back]; [pop_back] of an empty vector wraps the size around. *)
Definition vec_push_back x : M (SafeVector T) unit := λ v,
  let v := vec_mark (vec_check v) in (Ok tt, vec_with v (emplace (maxIndex_ v) x (vec_tmp v)) ((maxIndex_ v + 1) mod size64)).
Definition vec_pop_back : M (SafeVector T) unit := λ v,
  let v := vec_mark (vec_check v) in
  let last := ((maxIndex_ v + size64 - 1) mod size64)%N in
  (Ok tt, vec_with v (delete last (vec_tmp v)) last).

(** [resize]; without a value it appends [T()]. *)
Definition vec_resize count x : M (SafeVector T) unit := λ v,
  let v := vec_check v in
  let t :=
    if (count <? maxIndex_ v)%N then erase_keys (indices count (maxIndex_ v - count)) (vec_tmp v)
    else foldl (λ t i, emplace i x t) (vec_tmp v) (indices (maxIndex_ v) (count - maxIndex_ v)) in
  (Ok tt, vec_mark (vec_with v t count)).

(** *** The end of a call *)

(** The loop of [commit] over the temporary map, in the order of the indices. *)
Definition store (l : list T) (p : N * T) : list T :=
  if (p.1 <? N.of_nat (length l))%N then <[N.to_nat p.1 := p.2]> l else l ++ [p.2].

(** The entries of a [std::map], in the order of the keys. *)
Definition key_le (p q : N * T) : Prop := (p.1 <= q.1)%N.
#[export] Instance key_le_dec p q : Decision (key_le p q).
Proof. unfold key_le. apply _. Defined.
Definition ordered t : list (N * T) := merge_sort key_le (map_to_list t).

Definition vec_commit v : SafeVector T :=
  let v := vec_check v in
  let l := if clear_ v then [] else vector_ v in
  let l := take (N.to_nat (maxIndex_ v)) l in
  let l := foldl store l (ordered (vec_tmp v)) in
  mkVector (vec_base v) l (tmp_ v) (N.of_nat (length l)) false.

Definition vec_revert v : SafeVector T := mkVector (vec_base v) (vector_ v) None (vector_size v) false.

(** ** What the variable reads as *)

Definition vec_max v : N := match tmp_ v with None => vector_size v | Some _ => maxIndex_ v end.
Definition vec_elem v i : option T := elem (vec_tmp v) (vector_ v) i.
Definition vec_view v : list T := omap (vec_elem v) (indices 0 (vec_max v)).

(** Every index below the size is touched or in the vector, which a clear leaves out, and no other is touched. *)
Record vec_wf v : Prop := {
  wf_fresh : tmp_ v = None → clear_ v = false ∧ maxIndex_ v = vector_size v;
  wf_below i : (i < vec_max v)%N → is_Some (vec_tmp v !! i) ∨ clear_ v = false ∧ (i < vector_size v)%N;
  wf_touched i : is_Some (vec_tmp v !! i) → (i < vec_max v)%N;
  wf_max : (vec_max v < size64)%N
}.

(** [v] stands for [l]. *)
Definition vec_rep v (l : list T) : Prop :=
  vec_wf v ∧ vec_max v = N.of_nat (length l) ∧ ∀ i, (i < vec_max v)%N → vec_elem v i = l !! N.to_nat i.
End safe_vector.

(** ** Lemmas *)

Section lemmas.
Context {T : Type}.
Implicit Types (v : SafeVector T) (x : T) (i pos count : N) (t : gmap N T) (l : list T).

Lemma indices_S i (n : nat) : indices i (N.of_nat (S n)) = i :: indices (i + 1) (N.of_nat n).
Proof.
  unfold indices. rewrite !Nat2N.id. cbn [seq fmap list_fmap]. f_equal; [lia|]. rewrite <- fmap_S_seq, <- list_fmap_compose.
  apply list_fmap_ext. intros j y _. cbn. lia.
Qed.

Lemma elem_of_indices i n j : j ∈ indices i n ↔ (i <= j < i + n)%N.
Proof.
  unfold indices. rewrite list_elem_of_fmap. split.
  - intros (k & -> & Hk%elem_of_seq). lia.
  - intros Hj. exists (N.to_nat (j - i)). split; [lia|]. apply elem_of_seq. lia.
Qed.

Lemma elem_insert t l i j x : elem (<[i := x]> t) l j = if decide (i = j) then Some x else elem t l j.
Proof. unfold elem. case_decide as H; [by rewrite H, lookup_insert_eq|by rewrite lookup_insert_ne]. Qed.

(** What is read through all indices below the size is a list. *)
Lemma omap_indices (f : N → option T) l (i : N) :
  (∀ j, (j < N.of_nat (length l))%N → f (i + j)%N = l !! N.to_nat j) → omap f (indices i (N.of_nat (length l))) = l.
Proof.
  revert i. induction l as [|x l IH]; intros i H; [done|]. cbn [length]. rewrite indices_S. cbn [omap list_omap].
  assert (H0 := H 0%N ltac:(cbn [length]; lia)). rewrite N.add_0_r in H0. rewrite H0. cbn. f_equal. apply IH. intros j Hj.
  replace (i + 1 + j)%N with (i + (j + 1))%N by lia. rewrite H by (cbn [length]; lia).
  replace (N.to_nat (j + 1)) with (S (N.to_nat j)) by lia. done.
Qed.

Lemma vec_rep_view v l : vec_rep v l → vec_view v = l.
Proof. intros (_ & Hm & He). unfold vec_view. rewrite Hm. apply omap_indices. intros j Hj. apply He. lia. Qed.

Lemma vec_elem_below v i : vec_wf v → (i < vec_max v)%N → is_Some (vec_elem v i).
Proof.
  intros Hw Hi. unfold vec_elem, elem. destruct (wf_below _ Hw i Hi) as [[x ->]|[_ H]]; [done|].
  destruct (vec_tmp v !! i); [done|]. apply lookup_lt_is_Some. unfold vector_size in H. lia.
Qed.

Lemma vec_wf_rep v : vec_wf v → vec_rep v (vec_view v).
Proof.
  intros Hw. destruct (mapM (vec_elem v) (indices 0 (vec_max v))) as [l|] eqn:El.
  - apply mapM_Some in El. assert (Hlen := Forall2_length _ _ _ El). unfold indices in Hlen. rewrite length_fmap, length_seq in Hlen.
    assert (Hr : vec_rep v l).
    { split; [done|]. split; [lia|]. intros i Hi.
      destruct (lookup_lt_is_Some_2 l (N.to_nat i)) as [x Hx]; [lia|]. rewrite Hx.
      destruct (Forall2_lookup_r _ _ _ _ _ El Hx) as (j & Hj & Hjx). unfold indices in Hj.
      rewrite list_lookup_fmap, lookup_seq_lt in Hj by lia. injection Hj as <-. by rewrite N2Nat.id, N.add_0_l in Hjx. }
    by rewrite (vec_rep_view _ _ Hr).
  - apply mapM_None, Exists_exists in El as (i & Hi%elem_of_indices & He).
    destruct (vec_elem_below v i Hw) as [x Hx]; [lia|]. congruence.
Qed.

Lemma vec_view_length v : vec_wf v → vec_max v = N.of_nat (length (vec_view v)).
Proof. intros Hw. by destruct (vec_wf_rep v Hw) as (_ & ? & _). Qed.

(** [check] changes nothing that is read. *)
Lemma vec_check_spec v :
  vec_max (vec_check v) = vec_max v ∧ vec_tmp (vec_check v) = vec_tmp v ∧ vector_ (vec_check v) = vector_ v ∧
  maxIndex_ (vec_check v) = vec_max v ∧ tmp_ (vec_check v) = Some (vec_tmp v) ∧ clear_ (vec_check v) = clear_ v ∧
  vec_base (vec_check v) = vec_base v.
Proof. unfold vec_check, vec_max, vec_tmp. by destruct (tmp_ v) eqn:E; rewrite ?E. Qed.

(** A state with the temporary map [t] and the size of [l] stands for [l] when every index below reads so. *)
Lemma vec_rep_intro b l0 t c l :
  (N.of_nat (length l) < size64)%N →
  (∀ i, is_Some (t !! i) → (i < N.of_nat (length l))%N) →
  (∀ i x, l !! N.to_nat i = Some x → t !! i = Some x ∨ t !! i = None ∧ c = false ∧ l0 !! N.to_nat i = Some x) →
  vec_rep (mkVector b l0 (Some t) (N.of_nat (length l)) c) l.
Proof.
  intros Hmax Ht He. split; [|split; [done|]].
  - constructor; cbn; try done. intros i Hi. destruct (lookup_lt_is_Some_2 l (N.to_nat i)) as [x Hx]; [lia|].
    destruct (He i x Hx) as [->|(_ & -> & Hl)]; [by left|]. right. split; [done|].
    apply lookup_lt_Some in Hl. unfold vector_size. cbn. lia.
  - intros i Hi. cbn in Hi. destruct (lookup_lt_is_Some_2 l (N.to_nat i)) as [x Hx]; [lia|]. rewrite Hx.
    unfold vec_elem, elem. cbn. destruct (He i x Hx) as [->|(-> & _ & Hl)]; done.
Qed.

Lemma vec_rep_at b l0 t max c l :
  max = N.of_nat (length l) → (max < size64)%N → (∀ i, is_Some (t !! i) → (i < max)%N) →
  (∀ i x, l !! N.to_nat i = Some x → t !! i = Some x ∨ t !! i = None ∧ c = false ∧ l0 !! N.to_nat i = Some x) →
  vec_rep (mkVector b l0 (Some t) max c) l.
Proof. intros ->. apply vec_rep_intro. Qed.

Lemma vec_rep_elim v l i x : vec_rep v l → l !! N.to_nat i = Some x →
  (i < vec_max v)%N ∧ (vec_tmp v !! i = Some x ∨ vec_tmp v !! i = None ∧ clear_ v = false ∧ vector_ v !! N.to_nat i = Some x).
Proof.
  intros (Hw & Hm & He) Hx. assert (Hi : (i < vec_max v)%N) by (apply lookup_lt_Some in Hx; lia). split; [done|].
  assert (H := He i Hi). rewrite Hx in H. unfold vec_elem, elem in H. destruct (vec_tmp v !! i) eqn:E; [by left|].
  right. split; [done|]. split; [|done]. destruct (wf_below _ Hw i Hi) as [[y Hy]|[Hc _]]; [congruence|done].
Qed.

Lemma vec_rep_check v l : vec_rep v l → vec_rep (vec_check v) l.
Proof.
  intros Hr. assert (Hr' := Hr). destruct Hr' as (Hw & Hm & He). destruct (vec_check_spec v) as (H1 & H2 & H3 & H4 & H5 & H6 & H7).
  destruct (vec_check v) as [b l0 t n c]. cbn in *. subst. rewrite Hm. apply vec_rep_intro.
  - rewrite <- Hm. apply Hw.
  - intros i Hi. rewrite <- Hm. by apply Hw.
  - intros i x Hx. by apply (vec_rep_elim v l).
Qed.

Lemma vec_rep_mark v l : vec_rep v l → vec_rep (vec_mark v) l.
Proof. intros (Hw & Hm & He). split; [|done]. destruct Hw. by constructor. Qed.
End lemmas.

Section loops.
Context {T : Type}.
Implicit Types (v : SafeVector T) (x : T) (i pos count : N) (t : gmap N T) (l : list T).

Lemma shift_left_spec l k i n t :
  (∀ j, (i <= j < i + N.of_nat n)%N → is_Some (elem t l (j + k))) →
  ∃ t', shift_left l k i n t = Ok t' ∧
    ∀ j, t' !! j = if decide (i <= j < i + N.of_nat n)%N then elem t l (j + k) else t !! j.
Proof.
  revert i t. induction n as [|n IH]; intros i t H; cbn [shift_left].
  - exists t. split; [done|]. intros j. rewrite decide_False by lia. done.
  - destruct (H i ltac:(lia)) as [x Hx]. rewrite Hx. cbn [or_undefined]. rewrite result_bind_Ok.
    assert (Hs : ∀ j, (i + 1 <= j)%N → elem (<[i := x]> t) l (j + k) = elem t l (j + k)).
    { intros j Hj. rewrite elem_insert, decide_False by lia. done. }
    destruct (IH (i + 1)%N (<[i := x]> t)) as (t' & -> & Ht'); [intros j Hj; rewrite Hs by lia; apply H; lia|].
    exists t'. split; [done|]. intros j. rewrite Ht'. destruct (decide (i = j)) as [<-|Hne].
    + rewrite decide_False, decide_True, lookup_insert_eq by lia. done.
    + rewrite lookup_insert_ne by done. repeat case_decide; try lia; [|done]. apply Hs. lia.
Qed.

Lemma shift_right_spec l i n t :
  (N.of_nat n <= i)%N → (∀ j, (i - N.of_nat n <= j < i)%N → is_Some (elem t l j)) →
  ∃ t', shift_right l i n t = Ok t' ∧
    ∀ j, t' !! j = if decide (i - N.of_nat n < j <= i)%N then elem t l (j - 1) else t !! j.
Proof.
  revert i t. induction n as [|n IH]; intros i t Hn H; cbn [shift_right].
  - exists t. split; [done|]. intros j. rewrite decide_False by lia. done.
  - destruct (H (i - 1)%N ltac:(lia)) as [x Hx]. rewrite Hx. cbn [or_undefined]. rewrite result_bind_Ok.
    assert (Hs : ∀ j, (j < i)%N → elem (<[i := x]> t) l j = elem t l j).
    { intros j Hj. rewrite elem_insert, decide_False by lia. done. }
    destruct (IH (i - 1)%N (<[i := x]> t)) as (t' & -> & Ht'); [lia|intros j Hj; rewrite Hs by lia; apply H; lia|].
    exists t'. split; [done|]. intros j. rewrite Ht'. destruct (decide (i = j)) as [<-|Hne].
    + rewrite decide_False, decide_True, lookup_insert_eq by lia. done.
    + rewrite lookup_insert_ne by done. repeat case_decide; try lia; [|done]. apply Hs. lia.
Qed.

Lemma erase_keys_lookup ks t j : erase_keys ks t !! j = if decide (j ∈ ks) then None else t !! j.
Proof.
  revert t. induction ks as [|k ks IH]; intros t; [by rewrite decide_False by apply not_elem_of_nil|].
  unfold erase_keys in *. cbn [foldl]. rewrite IH. destruct (decide (k = j)) as [->|Hne].
  - rewrite (decide_True (P := j ∈ j :: ks)) by left. case_decide; [done|apply lookup_delete_eq].
  - rewrite lookup_delete_ne by done. assert (Hi : j ∈ k :: ks ↔ j ∈ ks) by (rewrite elem_of_cons; split; [by intros [->|?]|by right]).
    by rewrite (decide_ext _ _ _ _ Hi).
Qed.

Lemma emplace_new i x t : t !! i = None → emplace i x t = <[i := x]> t.
Proof. unfold emplace. by intros ->. Qed.

Lemma emplace_same_spec i (n : nat) x t :
  (∀ j, (i <= j)%N → t !! j = None) →
  ∀ j, foldl (λ t i, emplace i x t) t (indices i (N.of_nat n)) !! j =
    if decide (i <= j < i + N.of_nat n)%N then Some x else t !! j.
Proof.
  revert i t. induction n as [|n IH]; intros i t H j.
  - rewrite decide_False by lia. done.
  - rewrite indices_S. cbn [foldl]. rewrite emplace_new by (apply H; lia).
    rewrite IH by (intros k Hk; rewrite lookup_insert_ne by lia; apply H; lia).
    destruct (decide (i = j)) as [<-|Hne].
    + rewrite decide_False, decide_True, lookup_insert_eq by lia. done.
    + rewrite lookup_insert_ne by done. repeat case_decide; by try lia.
Qed.

Lemma emplace_from_spec l t i :
  (∀ j, (i <= j)%N → t !! j = None) →
  (emplace_all l t i).2 = (i + N.of_nat (length l))%N ∧
  ∀ j, (emplace_all l t i).1 !! j = if decide (i <= j)%N then l !! N.to_nat (j - i) else t !! j.
Proof.
  revert i t. induction l as [|x l IH]; intros i t H.
  - split; [cbn; lia|]. intros j. cbn. case_decide; [|done]. by apply H.
  - unfold emplace_all in *. cbn [foldl fst snd]. rewrite emplace_new by (apply H; lia).
    destruct (IH (i + 1)%N (<[i := x]> t)) as [H1 H2]; [intros k Hk; rewrite lookup_insert_ne by lia; apply H; lia|].
    split; [rewrite H1; cbn [length]; lia|]. intros j. rewrite H2. destruct (decide (i = j)) as [<-|Hne].
    + rewrite decide_False, decide_True, lookup_insert_eq, N.sub_diag by lia. done.
    + rewrite lookup_insert_ne by done. repeat case_decide; try lia; [|done].
      replace (N.to_nat (j - i)) with (S (N.to_nat (j - (i + 1)))) by lia. done.
Qed.
End loops.

(** ** The operations do to what is read what they do to a list *)

Section operations.
Context {T : Type}.
Implicit Types (v : SafeVector T) (x : T) (i pos count : N) (t : gmap N T) (l : list T).

(** The parts of a state after [check] and [markAsUsed]. *)
Definition rep_parts b l0 t (max : N) c l : Prop :=
  max = N.of_nat (length l) ∧ (max < size64)%N ∧ (∀ j, is_Some (t !! j) → (j < max)%N) ∧
  (∀ j, (max <= j)%N → t !! j = None) ∧
  (∀ j y, l !! N.to_nat j = Some y → t !! j = Some y ∨ t !! j = None ∧ c = false ∧ l0 !! N.to_nat j = Some y) ∧
  (∀ j, (j < max)%N → elem t l0 j = l !! N.to_nat j) ∧ vec_rep (mkVector b l0 (Some t) max c) l.

Lemma rep_parts_of v l : vec_rep v l →
  ∃ t, vec_check v = mkVector (vec_base v) (vector_ v) (Some t) (N.of_nat (length l)) (clear_ v) ∧
    rep_parts (vec_base v) (vector_ v) t (N.of_nat (length l)) (clear_ v) l ∧
    rep_parts (markAsUsed (vec_base v)) (vector_ v) t (N.of_nat (length l)) (clear_ v) l.
Proof.
  intros Hr. assert (Hc := vec_rep_check v l Hr). assert (Hk := vec_rep_mark _ _ Hc).
  destruct (vec_check_spec v) as (H1 & H2 & H3 & H4 & H5 & H6 & H7). assert (Hm : vec_max v = N.of_nat (length l)) by apply Hr.
  exists (vec_tmp v). unfold vec_mark in Hk. destruct (vec_check v) as [b l0 t n c]. cbn in *. subst.
  rewrite Hm in *. split; [done|].
  assert (Hp : ∀ b, vec_rep (mkVector b (vector_ v) (Some (vec_tmp v)) (N.of_nat (length l)) (clear_ v)) l →
    rep_parts b (vector_ v) (vec_tmp v) (N.of_nat (length l)) (clear_ v) l).
  { intros b Hb. assert (Hb' := Hb). destruct Hb' as (Hw & _ & He).
    assert (Ht : ∀ j, is_Some (vec_tmp v !! j) → (j < N.of_nat (length l))%N) by exact (wf_touched _ Hw).
    split; [done|]. split; [apply Hw|]. split; [done|]. split; [|split; [|by split; [exact He|]]].
    - intros j Hj. apply eq_None_not_Some. intros Hs%Ht. lia.
    - intros j y Hy. exact (proj2 (vec_rep_elim _ _ j y Hb Hy)). }
  by split; apply Hp.
Qed.

Lemma vec_checked v : is_Some (tmp_ v) → vec_check v = v.
Proof. unfold vec_check. by intros [t ->]. Qed.

Lemma checkIndexAndCopy_rep v l i : vec_rep v l →
  ∃ v', checkIndexAndCopy i v = (if (i <? N.of_nat (length l))%N then Ok tt else Throw OutOfRange, v') ∧
    vec_rep v' l ∧ vec_base v' = vec_base v ∧ vector_ v' = vector_ v ∧ is_Some (tmp_ v') ∧
    ((i < N.of_nat (length l))%N → vec_tmp v' !! i = l !! N.to_nat i).
Proof.
  intros Hr. destruct (rep_parts_of v l Hr) as (t & Hc & (_ & Hm & Ht & Hn & He & Hel & Hrep) & _).
  unfold checkIndexAndCopy. rewrite Hc. cbn [maxIndex_ vector_].
  change (vec_tmp (mkVector _ _ (Some t) _ _)) with t. destruct (N.leb_spec (N.of_nat (length l)) i) as [Hge|Hlt].
  { rewrite (proj2 (N.ltb_ge _ _)) by lia. eexists. split; [done|]. split; [exact Hrep|]. split_and!; try done. lia. }
  rewrite (proj2 (N.ltb_lt _ _)) by lia. destruct (lookup_lt_is_Some_2 l (N.to_nat i)) as [x Hx]; [lia|].
  destruct (He i x Hx) as [Hs|(Hno & Hcl & Hv)].
  - rewrite Hs. eexists. split; [done|]. split; [exact Hrep|]. split_and!; try done. by rewrite Hx.
  - rewrite Hno, Hv. eexists. split; [done|]. split; [|split_and!; try done; by cbn; rewrite lookup_insert_eq, Hx].
    apply vec_rep_intro; [done|..].
    + intros j. destruct (decide (i = j)) as [<-|Hne]; [done|]. rewrite lookup_insert_ne by done. apply Ht.
    + intros j y Hy. destruct (decide (i = j)) as [<-|Hne]; [left; rewrite lookup_insert_eq; congruence|].
      rewrite lookup_insert_ne by done. by apply He.
Qed.

(** The result [r] and a state that stands for [l]; the committed vector stays, and what becomes of the flags. *)
Definition vec_gives {A} (op : M (SafeVector T) A) v (r : result A) l (b : SafeBase) : Prop :=
  (op v).1 = r ∧ vec_rep (op v).2 l ∧ vector_ (op v).2 = vector_ v ∧ vec_base (op v).2 = b.

Lemma vec_at_const_gives v l i : vec_rep v l →
  vec_gives (vec_at_const i) v (match l !! N.to_nat i with Some x => Ok x | None => Throw OutOfRange end) l (vec_base v).
Proof.
  intros Hr. destruct (checkIndexAndCopy_rep v l i Hr) as (v' & H & Hr' & Hb & Hl & _ & Hx).
  unfold vec_gives, vec_at_const, mbind'. rewrite H. destruct (N.ltb_spec i (N.of_nat (length l))) as [Hlt|Hge]; cbn [fst snd].
  - rewrite Hx by done. destruct (lookup_lt_is_Some_2 l (N.to_nat i)) as [x ->]; [lia|]. done.
  - by rewrite (proj2 (lookup_ge_None _ _)) by lia.
Qed.

Lemma vec_at_rep v l i : vec_rep v l →
  match l !! N.to_nat i with
  | Some x => ∃ v', vec_at i v = (Ok x, v') ∧ vec_rep v' l ∧ vector_ v' = vector_ v ∧ vec_base v' = markAsUsed (vec_base v) ∧
      is_Some (tmp_ v')
  | None => ∃ v', vec_at i v = (Throw OutOfRange, v') ∧ vec_rep v' l ∧ vector_ v' = vector_ v ∧ vec_base v' = vec_base v
  end.
Proof.
  intros Hr. destruct (checkIndexAndCopy_rep v l i Hr) as (v' & H & Hr' & Hb & Hl & Hp & Hx).
  unfold vec_at, mbind', mmodify. rewrite H. destruct (N.ltb_spec i (N.of_nat (length l))) as [Hlt|Hge]; cbn [fst snd].
  - destruct (lookup_lt_is_Some_2 l (N.to_nat i)) as [x Hix]; [lia|]. rewrite Hix. exists (vec_mark v').
    change (vec_tmp (vec_mark v')) with (vec_tmp v'). rewrite Hx, Hix by done. split; [done|]. split; [by apply vec_rep_mark|].
    cbn. by rewrite Hb.
  - rewrite (proj2 (lookup_ge_None _ _)) by lia. by exists v'.
Qed.

Lemma vec_modify_gives {A} v l i (f : T → result A * T) : vec_rep v l →
  vec_gives (vec_modify i f) v
    (match l !! N.to_nat i with Some x => (f x).1 | None => Throw OutOfRange end)
    (match l !! N.to_nat i with Some x => <[N.to_nat i := (f x).2]> l | None => l end)
    (match l !! N.to_nat i with Some _ => markAsUsed (vec_base v) | None => vec_base v end).
Proof.
  intros Hr. assert (H := vec_at_rep v l i Hr). unfold vec_gives, vec_modify, mbind'.
  destruct (l !! N.to_nat i) as [x|] eqn:Hx; [|by destruct H as (v' & -> & H)].
  destruct H as (v' & -> & Hr' & Hl & Hb & Hp). destruct (f x) as [r y]. cbn [fst snd]. split_and!; try done.
  destruct (rep_parts_of v' l Hr') as (t & Hc & (_ & Hm & Ht & Hn & He & Hel & Hrep) & _).
  rewrite vec_checked in Hc by done. unfold vec_with.
  assert (vec_tmp v' = t) as -> by by rewrite Hc. assert (maxIndex_ v' = N.of_nat (length l)) as -> by by rewrite Hc.
  assert (Hlt := lookup_lt_Some _ _ _ Hx). erewrite <- (length_insert l). apply vec_rep_intro.
  - by rewrite length_insert.
  - intros j. rewrite length_insert. destruct (decide (i = j)) as [<-|Hne]; [lia|]. rewrite lookup_insert_ne by done. apply Ht.
  - intros j z. destruct (decide (i = j)) as [<-|Hne].
    + rewrite list_lookup_insert_eq, lookup_insert_eq by done. intros [= ->]. by left.
    + rewrite list_lookup_insert_ne, lookup_insert_ne by (done || lia). apply He.
Qed.

Lemma vec_size_gives v l : vec_rep v l → vec_gives vec_size v (Ok (N.of_nat (length l))) l (vec_base v).
Proof.
  intros Hr. destruct (rep_parts_of v l Hr) as (t & Hc & (_ & _ & _ & _ & _ & _ & Hrep) & _).
  unfold vec_gives, vec_size. by rewrite Hc.
Qed.

(** A state built from what [check] and [markAsUsed] leave. *)
Ltac open_vector Hr :=
  let t := fresh "t" in
  destruct (rep_parts_of _ _ Hr) as (t & Hc & _ & (_ & Hm & Ht & Hn & He & Hel & Hrep)); unfold vec_gives;
  rewrite Hc; unfold vec_mark, vec_with; cbn [vec_base vector_ tmp_ maxIndex_ clear_ fst snd];
  change (vec_tmp (mkVector _ _ (Some t) _ _)) with t.

Lemma vec_push_back_gives v l x : vec_rep v l → (N.of_nat (length l) + 1 < size64)%N →
  vec_gives (vec_push_back x) v (Ok tt) (l ++ [x]) (markAsUsed (vec_base v)).
Proof.
  intros Hr Hlt. unfold vec_push_back. open_vector Hr. rewrite emplace_new by (by apply Hn). rewrite N.mod_small by done.
  split_and!; try done. assert (Hlen : length (l ++ [x]) = S (length l)) by (rewrite length_app; cbn; lia).
  replace (N.of_nat (length l) + 1)%N with (N.of_nat (length (l ++ [x]))) by lia. apply vec_rep_intro.
  - lia.
  - intros j. destruct (decide (N.of_nat (length l) = j)) as [<-|Hne]; [lia|]. rewrite lookup_insert_ne by done. intros H%Ht. lia.
  - intros j y Hy. destruct (decide (N.of_nat (length l) = j)) as [<-|Hne].
    + rewrite Nat2N.id, lookup_app_r, Nat.sub_diag in Hy by lia. injection Hy as <-. left. apply lookup_insert_eq.
    + rewrite lookup_insert_ne by done. apply He. assert (Hb := lookup_lt_Some _ _ _ Hy). rewrite lookup_app_l in Hy by lia. done.
Qed.

Lemma vec_pop_back_gives v l x : vec_rep v (l ++ [x]) → vec_gives vec_pop_back v (Ok tt) l (markAsUsed (vec_base v)).
Proof.
  intros Hr. unfold vec_pop_back. open_vector Hr. rewrite length_app in *. cbn [length] in *. unfold size64 in *.
  assert (Hlast : ((N.of_nat (length l + 1) + 18446744073709551616 - 1) mod 18446744073709551616)%N = N.of_nat (length l)).
  { replace (N.of_nat (length l + 1) + 18446744073709551616 - 1)%N with (N.of_nat (length l) + 1 * 18446744073709551616)%N by lia.
    rewrite N.Div0.mod_add. apply N.mod_small. lia. }
  rewrite Hlast. split_and!; try done. apply vec_rep_intro.
  - unfold size64. lia.
  - intros j. destruct (decide (N.of_nat (length l) = j)) as [<-|Hne]; [by rewrite lookup_delete_eq; intros []|].
    rewrite lookup_delete_ne by done. intros H%Ht. lia.
  - intros j y Hy. assert (Hb := lookup_lt_Some _ _ _ Hy). rewrite lookup_delete_ne by lia. apply He. by rewrite lookup_app_l by lia.
Qed.

Lemma vec_clear_gives v l : vec_rep v l → vec_gives vec_clear v (Ok tt) [] (markAsUsed (vec_base v)).
Proof.
  intros Hr. unfold vec_clear. open_vector Hr. split_and!; try done. apply (vec_rep_intro _ _ ∅ _ []); [done|..].
  - intros j. rewrite lookup_empty. by intros [].
  - done.
Qed.

Lemma emplace_all_rep b l0 l : (N.of_nat (length l) < size64)%N →
  vec_rep (mkVector b l0 (Some (emplace_all l ∅ 0).1) (emplace_all l ∅ 0).2 true) l ∧
  vec_rep (mkVector b [] (Some (emplace_all l ∅ 0).1) (emplace_all l ∅ 0).2 false) l.
Proof.
  intros Hl. destruct (emplace_from_spec l ∅ 0) as [H1 H2]; [intros; apply lookup_empty|]. rewrite H1, N.add_0_l.
  assert (H3 : ∀ j, (emplace_all l ∅ 0).1 !! j = l !! N.to_nat j).
  { intros j. rewrite H2, decide_True by lia. by rewrite N.sub_0_r. }
  split; apply vec_rep_intro; try done; try (intros j; rewrite H3; intros Hj%lookup_lt_is_Some; lia); intros j y Hy; left; by rewrite H3.
Qed.

Lemma vec_assign_gives v l l' : vec_rep v l → (N.of_nat (length l') < size64)%N →
  vec_gives (vec_assign l') v (Ok tt) l' (vec_base v).
Proof.
  intros Hr Hl. unfold vec_assign, vec_gives. destruct (emplace_all_rep (vec_base (vec_check v)) (vector_ (vec_check v)) l' Hl) as [H _].
  destruct (vec_check_spec v) as (_ & _ & H3 & _ & _ & _ & H7). destruct (emplace_all l' ∅ 0) as [t n]. cbn in *. split_and!; done.
Qed.

Lemma vec_insert_gives v l pos x : vec_rep v l → (N.of_nat (length l) + 1 < size64)%N →
  vec_gives (vec_insert pos x) v (if (pos <=? N.of_nat (length l))%N then Ok pos else Throw OutOfRange)
    (if (pos <=? N.of_nat (length l))%N then take (N.to_nat pos) l ++ x :: drop (N.to_nat pos) l else l) (markAsUsed (vec_base v)).
Proof.
  intros Hr Hlt. unfold vec_insert. open_vector Hr.
  destruct (N.leb_spec pos (N.of_nat (length l))) as [Hle|Hgt].
  2:{ rewrite (proj2 (N.eqb_neq _ _)), (proj2 (N.ltb_ge _ _)) by lia. by split_and!. }
  set (l' := take (N.to_nat pos) l ++ x :: drop (N.to_nat pos) l).
  assert (Hlen : length l' = S (length l)) by (unfold l'; rewrite length_app, length_take; cbn; rewrite length_drop; lia).
  assert (Hget : ∀ j, l' !! N.to_nat j = if (j <? pos)%N then l !! N.to_nat j else if (j =? pos)%N then Some x else l !! N.to_nat (j - 1)).
  { intros j. unfold l'. destruct (N.ltb_spec j pos) as [H|H].
    - rewrite lookup_app_l by (rewrite length_take; lia). apply lookup_take_lt. lia.
    - rewrite lookup_app_r, length_take by (rewrite length_take; lia). destruct (N.eqb_spec j pos) as [->|Hne].
      + by replace (N.to_nat pos - N.to_nat pos `min` length l)%nat with 0%nat by lia.
      + replace (N.to_nat j - N.to_nat pos `min` length l)%nat with (S (N.to_nat (j - 1 - pos))) by lia. cbn [lookup list_lookup].
        etransitivity; [apply lookup_drop|]. f_equal. lia. }
  assert (Hfin : ∀ t', (∀ j, t' !! j = if decide (pos < j <= N.of_nat (length l))%N then elem t (vector_ v) (j - 1) else t !! j) →
    vec_rep (mkVector (markAsUsed (vec_base v)) (vector_ v) (Some (<[pos := x]> t')) (N.of_nat (length l) + 1) (clear_ v)) l').
  { intros t' Ht'. replace (N.of_nat (length l) + 1)%N with (N.of_nat (length l')) by lia. apply vec_rep_intro; [lia|..].
    - intros j. destruct (decide (pos = j)) as [<-|Hne]; [lia|]. rewrite lookup_insert_ne, Ht' by done. case_decide; [lia|].
      intros Hj%Ht. lia.
    - intros j y. rewrite Hget. destruct (N.ltb_spec j pos) as [H|H].
      + rewrite lookup_insert_ne, Ht', decide_False by lia. apply He.
      + destruct (N.eqb_spec j pos) as [->|Hne]; [rewrite lookup_insert_eq; by left|]. intros Hy. left.
        assert (Hb := lookup_lt_Some _ _ _ Hy). rewrite lookup_insert_ne, Ht', decide_True by lia. by rewrite Hel by lia. }
  destruct (N.eqb_spec pos (N.of_nat (length l))) as [Heq|Hne].
  - split_and!; try done. apply Hfin. intros j. rewrite decide_False by lia. done.
  - rewrite (proj2 (N.ltb_lt _ _)) by lia.
    destruct (shift_right_spec (vector_ v) (N.of_nat (length l)) (N.to_nat (N.of_nat (length l) - pos)) t) as (t' & -> & Ht').
    + lia.
    + intros j Hj. rewrite Hel by lia. apply lookup_lt_is_Some. lia.
    + split_and!; try done. apply Hfin. intros j. rewrite Ht'. repeat case_decide; by try lia.
Qed.

(** Shifting by [k] and dropping the last [k] elements erases the range of [k] elements from [i] on. *)
Lemma shift_left_rep b l0 t c l i (k : N) :
  rep_parts b l0 t (N.of_nat (length l)) c l → (i + k <= N.of_nat (length l))%N →
  ∃ t', shift_left l0 k i (N.to_nat (N.of_nat (length l) - k - i)) t = Ok t' ∧
    ∀ t'', (∀ j, t'' !! j = if decide (N.of_nat (length l) - k <= j < N.of_nat (length l))%N then None else t' !! j) →
      vec_rep (mkVector b l0 (Some t'') (N.of_nat (length l) - k) c) (take (N.to_nat i) l ++ drop (N.to_nat (i + k)) l).
Proof.
  intros (_ & Hm & Ht & Hn & He & Hel & Hrep) Hik.
  destruct (shift_left_spec l0 k i (N.to_nat (N.of_nat (length l) - k - i)) t) as (t' & H & Ht').
  { intros j Hj. rewrite Hel by lia. apply lookup_lt_is_Some. lia. }
  exists t'. split; [done|]. intros t'' Ht''. set (l' := take _ l ++ drop _ l).
  assert (Hlen : N.of_nat (length l') = (N.of_nat (length l) - k)%N)
    by (unfold l'; rewrite length_app, length_take, length_drop; lia).
  rewrite <- Hlen in *. apply vec_rep_intro; [lia|..].
  - intros j. rewrite Ht'', Ht'. repeat case_decide; try lia; [by intros []|]. intros Hj%Ht. lia.
  - intros j y Hy. assert (Hb := lookup_lt_Some _ _ _ Hy). rewrite Ht'', decide_False, Ht' by lia.
    destruct (decide (i <= j)%N) as [Hij|Hij].
    + rewrite decide_True by lia. left. rewrite Hel by lia. rewrite <- Hy. unfold l'.
      rewrite lookup_app_r by (rewrite length_take; lia). rewrite length_take. symmetry.
      etransitivity; [apply lookup_drop|]. f_equal. lia.
    + rewrite decide_False by lia. apply He. unfold l' in Hy. rewrite lookup_app_l in Hy by (rewrite length_take; lia).
      rewrite lookup_take_lt in Hy by lia. done.
Qed.

Lemma vec_erase_range_gives v l first last : vec_rep v l →
  let ok := ((first <=? last) && (last <=? N.of_nat (length l)))%N in
  vec_gives (vec_erase_range first last) v (if ok then Ok first else Throw OutOfRange)
    (if ok then take (N.to_nat first) l ++ drop (N.to_nat last) l else l) (markAsUsed (vec_base v)).
Proof.
  intros Hr ok. destruct (rep_parts_of v l Hr) as (t & Hc & _ & Hp). assert (Hp' := Hp). destruct Hp' as (_ & _ & _ & _ & _ & _ & Hrep).
  unfold vec_erase_range, vec_gives. rewrite Hc. unfold vec_mark, vec_with. cbn [vec_base vector_ tmp_ maxIndex_ clear_].
  change (vec_tmp (mkVector _ _ (Some t) _ _)) with t. unfold ok.
  destruct (N.leb_spec first last) as [H1|H1]; [rewrite (proj2 (N.ltb_ge _ _)) by done|by rewrite (proj2 (N.ltb_lt _ _)) by done].
  destruct (N.leb_spec last (N.of_nat (length l))) as [H2|H2]; [rewrite (proj2 (N.ltb_ge _ _)) by done|by rewrite (proj2 (N.ltb_lt _ _)) by done].
  cbn [orb andb]. destruct (shift_left_rep _ _ _ _ _ first (last - first) Hp) as (t' & -> & Hrep'); [lia|]. cbn [fst snd].
  split_and!; try done. replace last with (first + (last - first))%N at 4 by lia. apply Hrep'.
  intros j. rewrite erase_keys_lookup. apply decide_ext. rewrite elem_of_indices. lia.
Qed.

Lemma vec_erase_gives v l pos : vec_rep v l →
  vec_gives (vec_erase pos) v (if (pos <? N.of_nat (length l))%N then Ok pos else Throw OutOfRange)
    (if (pos <? N.of_nat (length l))%N then take (N.to_nat pos) l ++ drop (S (N.to_nat pos)) l else l)
    (if (pos <? N.of_nat (length l))%N then markAsUsed (vec_base v) else vec_base v).
Proof.
  intros Hr. destruct (checkIndexAndCopy_rep v l pos Hr) as (v' & H & Hr' & Hb & Hl & Hp & _).
  unfold vec_erase, vec_gives, mbind', mmodify. rewrite H.
  destruct (N.ltb_spec pos (N.of_nat (length l))) as [Hlt|Hge]; [|done]. cbn [fst snd].
  destruct (rep_parts_of v' l Hr') as (t & Hc & _ & Hp'). rewrite vec_checked in Hc by done.
  unfold vec_mark, vec_with. cbn [vec_base vector_ maxIndex_ clear_ tmp_].
  change (vec_tmp (mkVector _ _ (tmp_ v') _ _)) with (vec_tmp v').
  assert (vec_tmp v' = t) as -> by by rewrite Hc. assert (maxIndex_ v' = N.of_nat (length l)) as -> by by rewrite Hc.
  destruct (shift_left_rep _ _ _ _ _ pos 1 Hp') as (t' & -> & Hrep'); [lia|]. cbn [fst snd]. rewrite Hb, Hl in *.
  split_and!; try done. replace (S (N.to_nat pos)) with (N.to_nat (pos + 1)) by lia. apply Hrep'.
  intros j. destruct (decide (N.of_nat (length l) - 1 = j)%N) as [<-|Hne].
  - rewrite lookup_delete_eq, decide_True by lia. done.
  - rewrite lookup_delete_ne, decide_False by lia. done.
Qed.

Lemma vec_resize_gives v l count x : vec_rep v l → (count < size64)%N →
  vec_gives (vec_resize count x) v (Ok tt) (take (N.to_nat count) l ++ replicate (N.to_nat count - length l) x) (markAsUsed (vec_base v)).
Proof.
  intros Hr Hlt. destruct (rep_parts_of v l Hr) as (t & Hc & (_ & Hm & Ht & Hn & He & Hel & Hrep) & _).
  unfold vec_resize, vec_gives. rewrite Hc. unfold vec_mark, vec_with. cbn [vec_base vector_ tmp_ maxIndex_ clear_ fst snd].
  change (vec_tmp (mkVector _ _ (Some t) _ _)) with t. split_and!; try done.
  set (l' := take _ l ++ replicate _ x).
  assert (Hlen : count = N.of_nat (length l')) by (unfold l'; rewrite length_app, length_take, length_replicate; lia).
  assert (Hget : ∀ j y, l' !! N.to_nat j = Some y →
    (j < count)%N ∧ ((j < N.of_nat (length l))%N ∧ l !! N.to_nat j = Some y ∨ (N.of_nat (length l) <= j)%N ∧ y = x)).
  { intros j y Hy. assert (Hb := lookup_lt_Some _ _ _ Hy). split; [lia|]. unfold l' in Hy.
    apply lookup_app_Some in Hy as [Hy|[Hge Hy]].
    - left. assert (Hb' := lookup_lt_Some _ _ _ Hy). rewrite length_take in Hb'. split; [lia|]. rewrite lookup_take_lt in Hy by lia. done.
    - right. rewrite length_take in Hge. apply lookup_replicate in Hy as [-> ?]. split; [lia|done]. }
  destruct (N.ltb_spec count (N.of_nat (length l))) as [Hs|Hs].
  - apply vec_rep_at; [done|done|..].
    + intros j. rewrite erase_keys_lookup. case_decide as Hj; [by intros []|]. intros Hs'%Ht. rewrite elem_of_indices in Hj. lia.
    + intros j y Hy. destruct (Hget j y Hy) as [Hb [[Hj Hy']|[Hj _]]]; [|lia]. rewrite erase_keys_lookup, decide_False.
      * by apply He.
      * rewrite elem_of_indices. lia.
  - rewrite <- (N2Nat.id (count - N.of_nat (length l))). apply vec_rep_at; [done|done|..].
    + intros j. rewrite emplace_same_spec by done. case_decide; [lia|]. intros Hj%Ht. lia.
    + intros j y Hy. rewrite emplace_same_spec by done. destruct (Hget j y Hy) as [Hb [[Hj Hy']|[Hj ->]]].
      * rewrite decide_False by lia. by apply He.
      * rewrite decide_True by lia. by left.
Qed.
End operations.

(** ** The end of a call *)

Section end_of_call.
Context {T : Type}.
Implicit Types (v : SafeVector T) (x : T) (i : N) (t : gmap N T) (l : list T).

#[local] Instance key_le_trans : Transitive (key_le (T := T)).
Proof. intros p q r. unfold key_le. lia. Qed.
#[local] Instance key_le_total : Total (key_le (T := T)).
Proof. intros p q. unfold key_le. lia. Qed.

Definition entries_from t i (n : N) : list (N * T) := omap (λ j, pair j <$> t !! j) (indices i n).

Lemma elem_of_entries t i n p : p ∈ entries_from t i n ↔ (i <= p.1 < i + n)%N ∧ t !! p.1 = Some p.2.
Proof.
  unfold entries_from. rewrite list_elem_of_omap. destruct p as [k x]. cbn. split.
  - intros (j & Hj%elem_of_indices & (y & Hy & [= <- <-])%fmap_Some). done.
  - intros [Hk Hx]. exists k. rewrite elem_of_indices, Hx. done.
Qed.

Lemma entries_S t i (n : nat) :
  entries_from t i (N.of_nat (S n)) =
  match t !! i with Some x => (i, x) :: entries_from t (i + 1) (N.of_nat n) | None => entries_from t (i + 1) (N.of_nat n) end.
Proof. unfold entries_from. rewrite indices_S. cbn [omap list_omap]. by destruct (t !! i). Qed.

Lemma entries_sorted t i (n : nat) : StronglySorted key_le (entries_from t i (N.of_nat n)) ∧ NoDup (entries_from t i (N.of_nat n)).
Proof.
  revert i. induction n as [|n IH]; intros i; [split; constructor|]. rewrite entries_S. destruct (IH (i + 1)%N) as [H1 H2].
  destruct (t !! i) as [x|]; [|done]. split; constructor; try done.
  - apply Forall_forall. intros p [Hp _]%elem_of_entries. unfold key_le. cbn. lia.
  - intros [Hp _]%elem_of_entries. cbn in Hp. lia.
Qed.

Lemma ordered_entries t (n : nat) : (∀ i, is_Some (t !! i) → (i < N.of_nat n)%N) → ordered t = entries_from t 0 (N.of_nat n).
Proof.
  intros Ht. destruct (entries_sorted t 0 n) as [Hs Hd]. unfold ordered.
  assert (Hp : merge_sort key_le (map_to_list t) ≡ₚ entries_from t 0 (N.of_nat n)).
  { rewrite merge_sort_Permutation. apply NoDup_Permutation; [apply NoDup_map_to_list|done|]. intros [k x].
    rewrite elem_of_map_to_list, elem_of_entries. cbn. split; [|tauto]. intros Hx. split; [|done].
    split; [lia|]. apply Ht. by exists x. }
  apply (StronglySorted_unique_strong key_le); [|apply StronglySorted_merge_sort; apply _|done|done].
  intros [k1 x1] [k2 x2]. rewrite Hp, !elem_of_entries. unfold key_le. cbn. intros [_ H1] [_ H2] H3 H4.
  assert (k1 = k2) as -> by lia. congruence.
Qed.

(** The loop of [commit] on the entries from [i] on. *)
Lemma store_entries t l i (n : nat) :
  (i <= N.of_nat (length l))%N → (∀ j, (N.of_nat (length l) <= j < i + N.of_nat n)%N → is_Some (t !! j)) →
  let l' := foldl store l (entries_from t i (N.of_nat n)) in
  N.of_nat (length l') = N.max (N.of_nat (length l)) (i + N.of_nat n) ∧
  ∀ j, l' !! N.to_nat j = if decide (i <= j < i + N.of_nat n)%N then elem t l j else l !! N.to_nat j.
Proof.
  revert i l. induction n as [|n IH]; intros i l Hi Ht; cbv zeta.
  - change (entries_from t i (N.of_nat 0)) with (@nil (N * T)). cbn [foldl]. split; [lia|]. intros j. rewrite decide_False by lia. done.
  - rewrite entries_S. destruct (t !! i) as [x|] eqn:Ex.
    + cbn [foldl]. set (l1 := store l (i, x)).
      assert (Hl1 : N.of_nat (length l1) = N.max (N.of_nat (length l)) (i + 1) ∧
        ∀ j, l1 !! N.to_nat j = if decide (i = j) then Some x else l !! N.to_nat j).
      { unfold l1, store. cbn [fst snd]. destruct (N.ltb_spec i (N.of_nat (length l))) as [H|H].
        - rewrite length_insert. split; [lia|]. intros j. case_decide as Hj; [subst j; by apply list_lookup_insert_eq; lia|].
          apply list_lookup_insert_ne. lia.
        - rewrite length_app. cbn [length]. split; [lia|]. intros j. case_decide as Hj; [subst j|].
          + rewrite lookup_app_r by lia. by replace (N.to_nat i - length l)%nat with 0%nat by lia.
          + destruct (decide (N.to_nat j < length l)%nat); [by apply lookup_app_l|].
            rewrite !(proj2 (lookup_ge_None _ _)); [done|lia|rewrite length_app; cbn; lia]. }
      destruct Hl1 as [Hlen Hget]. destruct (IH (i + 1)%N l1) as [H1 H2]; [lia|intros j Hj; apply Ht; lia|].
      split; [rewrite H1; lia|]. intros j. rewrite H2. unfold elem. rewrite Hget.
      destruct (decide (i = j)) as [<-|Hne]; [by rewrite decide_False, decide_True, Ex by lia|].
      repeat case_decide; try lia; done.
    + assert (Hlt : (i < N.of_nat (length l))%N).
      { destruct (N.lt_ge_cases i (N.of_nat (length l))) as [H|H]; [done|].
        destruct (Ht i ltac:(lia)) as [x Hx]. congruence. }
      destruct (IH (i + 1)%N l) as [H1 H2]; [lia|intros j Hj; apply Ht; lia|].
      split; [rewrite H1; lia|]. intros j. rewrite H2.
      destruct (decide (i = j)) as [<-|Hne].
      * rewrite decide_False, decide_True by lia. unfold elem. by rewrite Ex.
      * repeat case_decide; try lia; done.
Qed.

Lemma vec_commit_rep v l : vec_rep v l →
  vector_ (vec_commit v) = l ∧ vec_rep (vec_commit v) l ∧ vec_base (vec_commit v) = vec_base v.
Proof.
  intros Hr. destruct (rep_parts_of v l Hr) as (t & Hc & (_ & Hm & Ht & Hn & He & Hel & Hrep) & _).
  unfold vec_commit. rewrite Hc. cbn [clear_ vector_ maxIndex_ tmp_ vec_base].
  change (vec_tmp (mkVector _ _ (Some t) _ _)) with t. rewrite Nat2N.id, (ordered_entries t (length l)) by done.
  set (l0 := take (length l) (if clear_ v then [] else vector_ v)).
  assert (Hl0 : ∀ j, (j < N.of_nat (length l))%N → t !! j = None → l0 !! N.to_nat j = l !! N.to_nat j).
  { intros j Hj Hno. destruct (lookup_lt_is_Some_2 l (N.to_nat j)) as [y Hy]; [lia|]. rewrite Hy.
    destruct (He j y Hy) as [H|(_ & Hcl & H)]; [congruence|]. unfold l0. rewrite Hcl, lookup_take_lt by lia. done. }
  assert (Hle : (length l0 ≤ length l)%nat) by (unfold l0; rewrite length_take; lia).
  destruct (store_entries t l0 0 (length l)) as [H1 H2]; [lia|..].
  { intros j Hj. destruct (t !! j) eqn:E; [done|]. exfalso. assert (H := Hl0 j ltac:(lia) E).
    rewrite (proj2 (lookup_ge_None l0 _)) in H by lia. symmetry in H. apply lookup_ge_None in H. lia. }
  set (l' := foldl store l0 _) in *.
  assert (l' = l) as ->.
  { apply list_eq. intros k. rewrite <- (Nat2N.id k), H2. case_decide as Hk.
    - unfold elem. destruct (t !! N.of_nat k) as [y|] eqn:E; [|by apply Hl0; [lia|]].
      rewrite <- Hel by lia. unfold elem. by rewrite E.
    - rewrite !(proj2 (lookup_ge_None _ _)); [done|lia..]. }
  split; [done|]. split; [|done]. apply vec_rep_at; try done.
  intros j y Hy. destruct (t !! j) as [z|] eqn:E; [left|by right].
  rewrite <- Hy, <- Hel by (apply Ht; by rewrite E). unfold elem. by rewrite E.
Qed.

Lemma vec_revert_rep v : (vector_size v < size64)%N → vec_rep (vec_revert v) (vector_ v).
Proof.
  intros Hs. split; [constructor|split]; cbn; try done.
  - by right.
  - intros i. unfold vec_tmp. cbn. rewrite lookup_empty. by intros [].
Qed.

Lemma vec_owned_rep : vec_rep (SafeVector_owned (T := T)) [].
Proof.
  split; [constructor|split; [done|]]; cbn; try done; try (intros i Hi; lia).
  intros i. unfold vec_tmp. cbn. rewrite lookup_empty. by intros [].
Qed.

(** [commit] and [revert] leave [registered_] as it is: [sv_wf] holds of a vector that is not registered. *)
#[export] Instance SafeVector_variable : SafeVariable (SafeVector T) (list T) := {|
  sv_base := vec_base;
  sv_wf v := vec_wf v ∧ (vector_size v < size64)%N ∧ registered_ (vec_base v) = false;
  sv_get := vec_view;
  sv_value := vector_;
  sv_commit := vec_commit;
  sv_revert := vec_revert
|}.

Lemma set_registered_same (b : SafeBase) : registered_ b = false → set_registered b false = b.
Proof. destruct b as [o r s]. cbn. by intros ->. Qed.

Lemma vec_revert_view v : vec_view (vec_revert v) = vector_ v.
Proof. unfold vec_view. unfold vec_revert at 2. cbn [vec_max tmp_]. apply omap_indices. intros j Hj. done. Qed.

#[export] Instance SafeVector_laws : SafeVariableLaws (SafeVector T) (list T).
Proof.
  constructor; cbn [sv_base sv_wf sv_get sv_value sv_commit sv_revert SafeVector_variable]; intros v;
    try (intros (Hw & Hs & Hr); destruct (vec_commit_rep v _ (vec_wf_rep v Hw)) as (H1 & H2 & H3)).
  - split; [apply H2|]. rewrite H3. split; [|done]. unfold vector_size. rewrite H1, <- (vec_view_length v Hw). apply Hw.
  - split; [by apply vec_revert_rep|]. done.
  - done.
  - by apply vec_rep_view.
  - apply vec_revert_view.
  - done.
  - rewrite H3. by rewrite set_registered_same.
  - cbn. by rewrite set_registered_same.
Qed.
End end_of_call.

(** ** Properties *)

Section properties.
Context {T : Type}.
Implicit Types (v : SafeVector T) (x : T) (i : N) (l : list T).

(** C24: Within a call a [SafeVector] is the list it reads as: reading gives the elements of the list, out of range throws,
    and every change makes of it what the operation makes of a list; the committed vector stays.  The access by index
    ([vec_modify], for the non-constant [operator[]] and [at]) throws when it is out of range, although its comment says it does not
    check, and the erasure of a range removes the elements from the first index up to but without the last, although its comment
    has the last one removed. The length and the counts stay below 2^64. *)
Theorem SafeVector_refines_list v l i j x count {A} (f : T → result A * T) :
  vec_rep v l → (N.of_nat (length l) + 1 < size64)%N → (count < size64)%N →
  let len := N.of_nat (length l) in let used := markAsUsed (vec_base v) in
  vec_gives vec_size v (Ok len) l (vec_base v) ∧
  vec_gives (vec_at_const i) v (match l !! N.to_nat i with Some y => Ok y | None => Throw OutOfRange end) l (vec_base v) ∧
  vec_gives (vec_modify i f) v (match l !! N.to_nat i with Some y => (f y).1 | None => Throw OutOfRange end)
    (match l !! N.to_nat i with Some y => <[N.to_nat i := (f y).2]> l | None => l end)
    (match l !! N.to_nat i with Some _ => used | None => vec_base v end) ∧
  vec_gives (vec_push_back x) v (Ok tt) (l ++ [x]) used ∧
  (∀ l0 y, l = l0 ++ [y] → vec_gives vec_pop_back v (Ok tt) l0 used) ∧
  vec_gives (vec_insert i x) v (if (i <=? len)%N then Ok i else Throw OutOfRange)
    (if (i <=? len)%N then take (N.to_nat i) l ++ x :: drop (N.to_nat i) l else l) used ∧
  vec_gives (vec_erase i) v (if (i <? len)%N then Ok i else Throw OutOfRange)
    (if (i <? len)%N then take (N.to_nat i) l ++ drop (S (N.to_nat i)) l else l) (if (i <? len)%N then used else vec_base v) ∧
  vec_gives (vec_erase_range i j) v (if ((i <=? j) && (j <=? len))%N then Ok i else Throw OutOfRange)
    (if ((i <=? j) && (j <=? len))%N then take (N.to_nat i) l ++ drop (N.to_nat j) l else l) used ∧
  vec_gives (vec_resize count x) v (Ok tt) (take (N.to_nat count) l ++ replicate (N.to_nat count - length l) x) used ∧
  vec_gives vec_clear v (Ok tt) [] used.
Proof.
  intros Hr Hl Hc len used. split_and!.
  - by apply vec_size_gives.
  - by apply vec_at_const_gives.
  - by apply vec_modify_gives.
  - by apply vec_push_back_gives.
  - intros l0 y ->. by eapply vec_pop_back_gives.
  - by apply vec_insert_gives.
  - by apply vec_erase_gives.
  - by apply vec_erase_range_gives.
  - by apply vec_resize_gives.
  - by eapply vec_clear_gives.
Qed.

(** At the end of a call [commit] makes what was read the committed vector, and [revert] goes back to it. *)
Theorem SafeVector_ends v l :
  vec_rep v l → (vector_size v < size64)%N →
  vec_get (vec_commit v) = l ∧ vec_rep (vec_commit v) l ∧ vec_get (vec_revert v) = vec_get v ∧ vec_rep (vec_revert v) (vec_get v).
Proof. intros Hr Hs. destruct (vec_commit_rep v l Hr) as (H1 & H2 & _). split_and!; try done. by apply vec_revert_rep. Qed.

(** One call that appends [x] to the only variable of a contract, and its end. *)
Definition push_call (x : T) (commit : bool) v : option (SafeVector T) :=
  vars (logger_end commit (run_on 0 (vec_push_back x) (call_start [v])).2) !! 0%nat.

(** A [SafeVector] is not atomic from its second call on: [commit] leaves it registered, so the next call does not list
    it.  What that call appends never reaches the committed vector, which [get] returns and the contracts save, and when
    the call throws, it is not undone. *)
Theorem SafeVector_second_call_lost v l x y commit :
  vec_rep v l → (N.of_nat (length l) + 2 < size64)%N → tracked (vec_base v) = true → registered_ (vec_base v) = false →
  ∃ v1 v2, push_call x true v = Some v1 ∧ push_call y commit v1 = Some v2 ∧
    vec_get v1 = l ++ [x] ∧ vec_get v2 = l ++ [x] ∧ vec_view v2 = (l ++ [x]) ++ [y].
Proof.
  intros Hr Hl Ht Hreg.
  destruct (vec_push_back_gives v l x Hr ltac:(lia)) as (_ & H2 & _ & H4).
  set (w := (vec_push_back x v).2) in *. destruct (vec_commit_rep w _ H2) as (C1 & C2 & C3).
  destruct (vec_push_back_gives (vec_commit w) (l ++ [x]) y C2) as (_ & D2 & D3 & D4); [rewrite length_app; cbn; lia|].
  set (u := (vec_push_back y (vec_commit w)).2) in *.
  destruct (markAsUsed_spec (vec_base v)) as (_ & _ & _ & Hm). specialize (Hm Ht).
  exists (vec_commit w), u. split_and!.
  - unfold push_call, run_on, call_start. cbn [vars lookup list_lookup usedVars_ sv_base SafeVector_variable].
    destruct (vec_push_back x v) as [r w'] eqn:E. cbn [snd] in w. subst w. cbn [snd] in *. by rewrite Hreg, H4, Hm.
  - assert (Hreg' : registered_ (vec_base (vec_commit w)) = true) by by rewrite C3, H4.
    unfold push_call, run_on, call_start. cbn [vars lookup list_lookup usedVars_ sv_base SafeVector_variable].
    destruct (vec_push_back y (vec_commit w)) as [r u'] eqn:E. cbn [snd] in u. subst u. rewrite Hreg'. by destruct commit.
  - done.
  - unfold vec_get. by rewrite D3.
  - by apply vec_rep_view.
Qed.

(** A copy has the temporary map only: an element that was not touched cannot be read in it. *)
Theorem SafeVector_copy_reads_past_end v l x :
  tmp_ v = None → vec_rep v (x :: l) → (vec_at_const 0 (SafeVector_copy v)).1 = Throw Undefined.
Proof.
  intros Hn (Hw & Hm & _). unfold vec_max in Hm. rewrite Hn in Hm.
  unfold SafeVector_copy, vec_check. rewrite Hn. unfold vec_at_const, mbind', checkIndexAndCopy. cbn -[N.leb].
  unfold vector_size in *. by rewrite Hm.
Qed.
End properties.

(** ** Witnesses *)

Definition toy_vector : SafeVector Z := mkVector (mkSafeBase true false true) [10; 20; 30] None 3 false.

Lemma toy_vector_rep : vec_rep toy_vector [10; 20; 30].
Proof.
  assert (Hw : vec_wf toy_vector).
  { constructor; [done|intros i Hi; by right|intros i|done]. unfold vec_tmp. cbn. rewrite lookup_empty. by intros []. }
  exact (vec_wf_rep _ Hw).
Qed.

Lemma SafeVector_refines_list_witness :
  vec_gives (vec_insert 1 15) toy_vector (Ok 1%N) [10; 15; 20; 30] (mkSafeBase true true true).
Proof.
  destruct (SafeVector_refines_list toy_vector [10; 20; 30] 1 2 15 7 (λ y : Z, (Ok tt, y + 1)) toy_vector_rep) as (_ & _ & _ & _ & _ & H & _).
  - reflexivity.
  - reflexivity.
  - exact H.
Defined.

Lemma SafeVector_ends_witness :
  vec_get (vec_commit (vec_erase 0 toy_vector).2) = [20; 30] ∧ vec_get (vec_revert (vec_erase 0 toy_vector).2) = [10; 20; 30].
Proof.
  assert (Hr : vec_rep (vec_erase 0 toy_vector).2 [20; 30]).
  { exact (proj1 (proj2 (vec_erase_gives toy_vector [10; 20; 30] 0 toy_vector_rep))). }
  destruct (SafeVector_ends (vec_erase 0 toy_vector).2 [20; 30] Hr) as (H1 & _ & H2 & _); [reflexivity|]. split; [exact H1|exact H2].
Defined.

Lemma SafeVector_second_call_lost_witness :
  ∃ v1 v2, push_call 40 true toy_vector = Some v1 ∧ push_call 50 true v1 = Some v2 ∧
    vec_get v1 = [10; 20; 30] ++ [40] ∧ vec_get v2 = [10; 20; 30] ++ [40] ∧ vec_view v2 = ([10; 20; 30] ++ [40]) ++ [50].
Proof. apply (SafeVector_second_call_lost toy_vector [10; 20; 30] 40 50 true); [exact toy_vector_rep|reflexivity..]. Defined.

Lemma SafeVector_copy_reads_past_end_witness : (vec_at_const 0 (SafeVector_copy toy_vector)).1 = Throw Undefined.
Proof. apply (SafeVector_copy_reads_past_end toy_vector [20; 30] 10); [reflexivity|exact toy_vector_rep]. Defined.
