(* ===== verification/SafeArray.v ===== *)
(** * SafeArray: arrays and tuples as contract variables (src/contract/variables/safearray.h, safetuple.h)

    [SafeArray] is a [SafeVector] of a fixed size; [SafeTuple] has the state of a cell.  Neither registers all of
    its writes, and [commit] and [revert] leave both registered. *)

From S2P Require Import Prelude Bytes SafeBase SafeCell SafeVector.

(** ** SafeArray *)

Record SafeArray (T : Type) := mkArray {
  arr_base : SafeBase;
  array_ : list T;                (* std::array<T, N> *)
  arr_tmp_ : option (gmap N T)    (* mutable std::unique_ptr<std::map> *)
}.
Arguments mkArray {T}.
Arguments arr_base {T}.
Arguments array_ {T}.
Arguments arr_tmp_ {T}.

Section safe_array.
Context {T : Type}.
Implicit Types (v : SafeArray T) (x d : T) (i : N) (t : gmap N T) (l : list T).

Definition arr_size v : N := N.of_nat (length (array_ v)).
Definition arr_tmp v : gmap N T := default ∅ (arr_tmp_ v).
Definition arr_check v : SafeArray T := mkArray (arr_base v) (array_ v) (Some (arr_tmp v)).
Definition arr_mark v : SafeArray T := mkArray (markAsUsed (arr_base v)) (array_ v) (arr_tmp_ v).
Definition arr_with v t : SafeArray T := mkArray (arr_base v) (array_ v) (Some t).

Definition checkIndexAndCopy_ i : M (SafeArray T) unit := λ v,
  let v := arr_check v in
  if (arr_size v <=? i)%N then (Throw OutOfRange, v)
  else match arr_tmp v !! i with
       | Some _ => (Ok tt, v)
       | None => match array_ v !! N.to_nat i with
                 | Some x => (Ok tt, arr_with v (<[i := x]> (arr_tmp v)))
                 | None => (Throw Undefined, v)
                 end
       end.

(** The constructors: the values are temporary, the array itself holds [T()]. *)
Definition SafeArray_new (b : SafeBase) d l : SafeArray T :=
  mkArray b (replicate (length l) d) (Some (emplace_all l ∅ 0).1).
Definition SafeArray_owned : T → list T → SafeArray T := SafeArray_new SafeBase_owned.
Definition SafeArray_local : T → list T → SafeArray T := SafeArray_new SafeBase_local.

(** [at] and [operator\[\]], and what is written through the reference. The [const] versions call a member that is not
    [const], so that no program uses them. *)
Definition arr_at i : M (SafeArray T) T :=
  checkIndexAndCopy_ i ;;; mmodify arr_mark ;;; (λ v, (or_undefined (arr_tmp v !! i), v)).
Definition arr_modify {A} i (f : T → result A * T) : M (SafeArray T) A :=
  x <-- arr_at i;; (λ v, let '(r, y) := f x in (r, arr_with v (<[i := y]> (arr_tmp v)))).

(** [fill] does not call [check]. *)
Definition arr_fill x : M (SafeArray T) unit := λ v,
  match arr_tmp_ v with
  | None => (Throw Undefined, v)
  | Some t => (Ok tt, arr_with v (foldl (λ t i, <[i := x]> t) t (indices 0 (arr_size v))))
  end.

(** [commit] neither, and keeps the temporary map. *)
Definition arr_commit : M (SafeArray T) unit := λ v,
  match arr_tmp_ v with
  | None => (Throw Undefined, v)
  | Some t => (Ok tt, mkArray (arr_base v) (foldl (λ l p, <[N.to_nat p.1 := p.2]> l) (array_ v) (ordered t)) (Some t))
  end.
Definition arr_revert v : SafeArray T := mkArray (arr_base v) (array_ v) None.

(** What the array reads as. *)
Definition arr_rep v l : Prop :=
  length l = length (array_ v) ∧ (∀ i, is_Some (arr_tmp v !! i) → (i < arr_size v)%N) ∧
  ∀ i, (i < arr_size v)%N → elem (arr_tmp v) (array_ v) i = l !! N.to_nat i.

(** *** Lemmas *)

Lemma checkIndexAndCopy_spec v l i : arr_rep v l →
  ∃ v', checkIndexAndCopy_ i v = (if (i <? arr_size v)%N then Ok tt else Throw OutOfRange, v') ∧
    arr_rep v' l ∧ array_ v' = array_ v ∧ arr_base v' = arr_base v ∧ ((i < arr_size v)%N → arr_tmp v' !! i = l !! N.to_nat i).
Proof.
  intros Hr. assert (Hr' := Hr). destruct Hr' as (Hl & Ht & He). unfold checkIndexAndCopy_. change (arr_size (arr_check v)) with (arr_size v).
  change (arr_tmp (arr_check v)) with (arr_tmp v). change (array_ (arr_check v)) with (array_ v).
  destruct (N.leb_spec (arr_size v) i) as [Hge|Hlt].
  - rewrite (proj2 (N.ltb_ge _ _)) by done. exists (arr_check v). split_and!; try done. lia.
  - rewrite (proj2 (N.ltb_lt _ _)) by done. assert (Hi := He i Hlt). unfold elem in Hi.
    destruct (arr_tmp v !! i) as [x|] eqn:E; [exists (arr_check v); split_and!; try done; intros _; by rewrite <- Hi|].
    destruct (lookup_lt_is_Some_2 (array_ v) (N.to_nat i)) as [x Hx]; [unfold arr_size in Hlt; lia|]. rewrite Hx in Hi |- *.
    eexists. split; [done|]. split; [|split_and!; try done; intros _; by rewrite <- Hi; apply lookup_insert_eq].
    split; [done|]. split.
    + intros j. change (arr_tmp (arr_with _ ?t)) with t. destruct (decide (i = j)) as [<-|Hne]; [done|].
      rewrite lookup_insert_ne by done. apply Ht.
    + intros j Hj. change (arr_tmp (arr_with _ ?t)) with t. change (array_ (arr_with _ _)) with (array_ v). rewrite elem_insert.
      case_decide as Hij; [by subst j|by apply He].
Qed.

(** The result and what is read after it; the committed array stays. *)
Definition arr_gives {A} (op : M (SafeArray T) A) v (r : result A) l (b : SafeBase) : Prop :=
  (op v).1 = r ∧ arr_rep (op v).2 l ∧ array_ (op v).2 = array_ v ∧ arr_base (op v).2 = b.

Lemma arr_modify_gives {A} v l i (f : T → result A * T) : arr_rep v l →
  arr_gives (arr_modify i f) v (match l !! N.to_nat i with Some x => (f x).1 | None => Throw OutOfRange end)
    (match l !! N.to_nat i with Some x => <[N.to_nat i := (f x).2]> l | None => l end)
    (match l !! N.to_nat i with Some _ => markAsUsed (arr_base v) | None => arr_base v end).
Proof.
  intros Hr. destruct (checkIndexAndCopy_spec v l i Hr) as (v' & H & (Hl & Ht & He) & Ha & Hb & Hx). assert (Hlen := proj1 Hr).
  unfold arr_gives, arr_modify, arr_at, mbind', mmodify. rewrite H. unfold arr_size in *.
  destruct (N.ltb_spec i (N.of_nat (length (array_ v)))) as [Hlt|Hge]; cbn [fst snd].
  - change (arr_tmp (arr_mark v')) with (arr_tmp v'). rewrite Hx by done.
    destruct (lookup_lt_is_Some_2 l (N.to_nat i)) as [x Hix]; [lia|]. rewrite Hix. cbn [or_undefined].
    destruct (f x) as [r y]. cbn [fst snd]. split_and!; try done; [|by cbn; rewrite Hb].
    split; [cbn; by rewrite length_insert|]. split.
    + intros j. change (arr_tmp (arr_with _ ?t)) with t. unfold arr_size. cbn [array_ arr_with arr_mark].
      destruct (decide (i = j)) as [<-|Hne]; [by rewrite Ha|]. rewrite lookup_insert_ne by done. apply Ht.
    + intros j Hj. change (arr_tmp (arr_with _ ?t)) with t. rewrite elem_insert.
      change (array_ (arr_with _ _)) with (array_ v'). change (arr_tmp (arr_mark v')) with (arr_tmp v').
      case_decide as Hij; [subst j; by rewrite list_lookup_insert_eq by lia|].
      rewrite list_lookup_insert_ne by lia. by apply He.
  - by rewrite (proj2 (lookup_ge_None _ _)) by lia.
Qed.

Lemma fill_lookup x t i n : (∀ k, (k < n)%nat → foldl (λ t i, <[i := x]> t) t (indices i (N.of_nat n)) !! (i + N.of_nat k)%N = Some x).
Proof.
  assert (Hkeep : ∀ (l : list N) t j, t !! j = Some x → foldl (λ t i, <[i := x]> t) t l !! j = Some x).
  { induction l as [|k l IH]; intros t0 j Hj; [done|]. apply IH. destruct (decide (k = j)) as [->|Hne];
      [by rewrite lookup_insert_eq|by rewrite lookup_insert_ne]. }
  revert t i. induction n as [|n IH]; intros t i k Hk; [lia|]. rewrite indices_S. cbn [foldl]. destruct k as [|k].
  - rewrite N.add_0_r. apply Hkeep. apply lookup_insert_eq.
  - replace (i + N.of_nat (S k))%N with (i + 1 + N.of_nat k)%N by lia. apply IH. lia.
Qed.

Lemma fill_touched x (l : list N) t j : is_Some (foldl (λ t i, <[i := x]> t) t l !! j) → j ∈ l ∨ is_Some (t !! j).
Proof.
  revert t. induction l as [|k l IH]; intros t; [by right|]. cbn [foldl]. intros [H|H]%IH; [left; by right|].
  destruct (decide (k = j)) as [->|Hne]; [left; by left|]. rewrite lookup_insert_ne in H by done. by right.
Qed.

Lemma arr_fill_gives v l x : arr_rep v l → is_Some (arr_tmp_ v) →
  arr_gives (arr_fill x) v (Ok tt) (replicate (length l) x) (arr_base v).
Proof.
  intros (Hl & Ht & He) [t Hp]. unfold arr_gives, arr_fill. rewrite Hp. cbn [fst snd]. split_and!; try done.
  unfold arr_tmp in *. rewrite Hp in *. cbn [default id] in *.
  split; [by rewrite length_replicate|]. unfold arr_tmp, arr_size in *. cbn [arr_tmp_ arr_with default id array_]. split.
  - intros j [Hj%elem_of_indices|Hj]%fill_touched; [lia|by apply Ht].
  - intros j Hj. unfold elem. assert (H := fill_lookup x t 0 (length (array_ v)) (N.to_nat j) ltac:(lia)).
    rewrite N.add_0_l, N2Nat.id in H. cbn [id]. rewrite H. symmetry. apply lookup_replicate. split; [done|lia].
Qed.

Lemma arr_commit_rep v l : arr_rep v l → is_Some (arr_tmp_ v) →
  ∃ v', arr_commit v = (Ok tt, v') ∧ array_ v' = l ∧ arr_rep v' l ∧ arr_base v' = arr_base v.
Proof.
  intros (Hl & Ht & He) [t Hp]. unfold arr_commit. rewrite Hp. eexists. split; [done|]. unfold arr_tmp in *. rewrite Hp in *. cbn [default id] in *.
  assert (Hlen : ∀ ps (l0 : list T), length (foldl (λ l p, <[N.to_nat p.1 := p.2]> l) l0 ps) = length l0).
  { induction ps as [|p ps IH]; intros l0; [done|]. cbn [foldl]. by rewrite IH, length_insert. }
  assert (Hget : ∀ n i (l0 : list T) j, (j < N.of_nat (length l0))%N →
    foldl (λ l p, <[N.to_nat p.1 := p.2]> l) l0 (entries_from t i (N.of_nat n)) !! N.to_nat j =
    if decide (i <= j < i + N.of_nat n)%N then elem t l0 j else l0 !! N.to_nat j).
  { induction n as [|n IH]; intros i l0 j Hj; [rewrite decide_False by lia; done|]. rewrite entries_S.
    destruct (t !! i) as [x|] eqn:Ex.
    - cbn [foldl fst snd]. rewrite IH by by rewrite length_insert. destruct (decide (i = j)) as [<-|Hne].
      + rewrite decide_False, decide_True by lia. unfold elem. rewrite Ex. apply list_lookup_insert_eq. lia.
      + unfold elem. rewrite list_lookup_insert_ne by lia. repeat case_decide; try lia; done.
    - rewrite IH by done. destruct (decide (i = j)) as [<-|Hne].
      + rewrite decide_False, decide_True by lia. unfold elem. by rewrite Ex.
      + repeat case_decide; try lia; done. }
  assert (Harr : foldl (λ l p, <[N.to_nat p.1 := p.2]> l) (array_ v) (ordered t) = l).
  { rewrite (ordered_entries t (length (array_ v))) by done. apply list_eq_same_length with (n := length l); [done|by rewrite Hlen|].
    intros k x y Hk H1 H2. rewrite <- (Nat2N.id k) in H1. rewrite Hget, decide_True in H1 by lia.
    rewrite (He (N.of_nat k)), Nat2N.id in H1 by (unfold arr_size; lia). congruence. }
  split; [done|]. split; [|done]. unfold arr_rep, arr_size, arr_tmp in *. cbn [array_ arr_tmp_ default id]. rewrite Harr.
  split; [done|]. rewrite <- Hl in *. split; [done|]. intros i Hi. rewrite <- He by done. unfold elem.
  destruct (t !! i) as [x|] eqn:E; [done|]. assert (H := He i Hi). unfold elem in H. by rewrite E in H.
Qed.

Lemma arr_revert_rep v : arr_rep (arr_revert v) (array_ v).
Proof. split; [done|]. split; [intros i; unfold arr_tmp; cbn; rewrite lookup_empty; by intros []|done]. Qed.

(** Within a call a [SafeArray] is the list it reads as; writing an element registers it and [fill] does not; [commit]
    makes that list the committed array, [revert] goes back to it, after which [fill] dereferences null. *)
Theorem SafeArray_refines_list v l i x {A} (f : T → result A * T) :
  arr_rep v l → is_Some (arr_tmp_ v) →
  arr_gives (arr_modify i f) v (match l !! N.to_nat i with Some y => (f y).1 | None => Throw OutOfRange end)
    (match l !! N.to_nat i with Some y => <[N.to_nat i := (f y).2]> l | None => l end)
    (match l !! N.to_nat i with Some _ => markAsUsed (arr_base v) | None => arr_base v end) ∧
  arr_gives (arr_fill x) v (Ok tt) (replicate (length l) x) (arr_base v) ∧
  (∃ v', arr_commit v = (Ok tt, v') ∧ array_ v' = l ∧ arr_rep v' l) ∧
  arr_rep (arr_revert v) (array_ v) ∧ (arr_fill x (arr_revert v)).1 = Throw Undefined.
Proof.
  intros Hr Hp. split; [by apply arr_modify_gives|]. split; [by apply arr_fill_gives|]. split; [|split; [apply arr_revert_rep|done]].
  destruct (arr_commit_rep v l Hr Hp) as (v' & H1 & H2 & H3 & _). by exists v'.
Qed.
End safe_array.

(** ** SafeTuple *)

Section safe_tuple.
Context {T : Type}.
Implicit Types (v : SafeCell T) (x : T).

(** [T] is the tuple. *)
Definition SafeTuple := SafeCell T.

Definition SafeTuple_owned x : SafeTuple := mkCell SafeBase_owned x None.
Definition SafeTuple_of x : SafeTuple := mkCell SafeBase_local x None.
Definition SafeTuple_args x : SafeTuple := cell_check (SafeTuple_of x).
Definition SafeTuple_copy (other : SafeTuple) : SafeTuple := mkCell SafeBase_local (value_ other) (Some (cell_get other)).

(** Assignment of a tuple or a pair, and of the temporary value of another, or its committed one. *)
Definition SafeTuple_assign x : M SafeTuple unit := cell_update (λ _, Ok x).
Definition SafeTuple_assign_from (other : SafeTuple) : M SafeTuple unit := SafeTuple_assign (cell_get other).
Definition SafeTuple_swap (a b : SafeTuple) : SafeTuple * SafeTuple :=
  let a := cell_mark (cell_check a) in let b := cell_mark (cell_check b) in
  (mkCell (base_ a) (value_ b) (valuePtr_ b), mkCell (base_ b) (value_ a) (valuePtr_ a)).

(** [get<I>]: what is written through the reference is [f]; nothing is registered. *)
Definition SafeTuple_get (f : T → T) : M SafeTuple T := λ v,
  let v := cell_check v in (Ok (cell_get v), cell_set v (f (cell_get v))).

(** The comparisons are of the committed tuples. *)
Definition SafeTuple_compare (cmp : T → T → bool) (a b : SafeTuple) : bool := cmp (value_ a) (value_ b).

Definition SafeTuple_commit v : SafeTuple := mkCell (base_ v) (cell_get v) None.
Definition SafeTuple_revert v : SafeTuple := mkCell (base_ v) (value_ v) None.

Definition SafeTuple_variable : SafeVariable SafeTuple T := {|
  sv_base := base_; sv_wf _ := True; sv_get := cell_get; sv_value := value_;
  sv_commit := SafeTuple_commit; sv_revert := SafeTuple_revert
|}.

(** A call that writes through [get] and throws. *)
Definition get_call (f : T → T) v : option SafeTuple :=
  vars (@logger_end _ _ SafeTuple_variable false
    (@run_on _ _ SafeTuple_variable T 0 (SafeTuple_get f) (call_start [v])).2) !! 0%nat.

(** What a contract writes through [get] is not undone when its call throws: the variable is not registered.  It is not
    seen by a comparison either. *)
Theorem SafeTuple_get_not_reverted v (f : T → T) cmp :
  ∃ v', get_call f v = Some v' ∧ cell_get v' = f (cell_get v) ∧ value_ v' = value_ v ∧
    SafeTuple_compare cmp v' v = SafeTuple_compare cmp v v.
Proof.
  exists (cell_set (cell_check v) (f (cell_get v))). destruct v as [b x [y|]]; unfold get_call, run_on, call_start; cbn;
    by destruct (registered_ b).
Qed.
End safe_tuple.
Arguments SafeTuple : clear implicits.

(** ** Witnesses *)

Definition toy_array : SafeArray Z := SafeArray_owned 0 [7; 8; 9].

Lemma toy_array_rep : arr_rep toy_array [7; 8; 9].
Proof.
  split; [done|]. destruct (emplace_from_spec [7; 8; 9] ∅ 0) as [_ H]; [intros; apply lookup_empty|].
  change (arr_tmp toy_array) with (emplace_all [7; 8; 9] ∅ 0).1. split.
  - intros i. rewrite H, decide_True by lia. rewrite N.sub_0_r. intros Hi%lookup_lt_is_Some. unfold arr_size. cbn in *. lia.
  - intros i Hi. unfold elem. rewrite H, decide_True by lia. rewrite N.sub_0_r.
    destruct (lookup_lt_is_Some_2 [7; 8; 9] (N.to_nat i)) as [x Hx]; [unfold arr_size in Hi; cbn in *; lia|]. by rewrite Hx.
Qed.

Lemma SafeArray_refines_list_witness :
  arr_gives (arr_modify 1 (λ y : Z, (Ok tt, y + 100))) toy_array (Ok tt) [7; 108; 9] SafeBase_owned.
Proof. apply (SafeArray_refines_list toy_array [7; 8; 9] 1 5 (λ y : Z, (Ok tt, y + 100)) toy_array_rep). by exists (emplace_all [7; 8; 9] ∅ 0).1. Defined.
