(* ===== verification/SafeUint.v ===== *)
(** * SafeUint: checked unsigned integers (src/contract/variables/safeuint.h, SafeUint_t<Size>)

    The value of an operand that is itself a [SafeUint_t] is its [get()]; the overloads for another
    [SafeUint_t], for [uint_t] and the templated duplicates have the same body and are one definition
    with the suffix [_u]; the overload for [int] has the suffix [_int]. An [int] is a [Z] between
    [-2^31 + 1] and [2^31 - 1] ([-INT_MIN] is undefined). The shifts are not modelled: their behaviour
    on lost bits is that of the integer types. *)

From S2P Require Import Prelude Bytes SafeBase SafeCell.

Definition SafeUint := SafeCell Z.

Section SafeUint.
Variable w : Z. (* Size *)

Definition SafeUint_local (value : Z) : SafeUint := mkCell SafeBase_local 0 (Some value).
Definition SafeUint_owned (value : Z) : SafeUint := mkCell SafeBase_owned 0 (Some value).
Definition SafeUint_copy (other : SafeUint) : SafeUint := SafeUint_local (cell_get other).
Definition SafeUint_get : M SafeUint Z := cell_read.
Definition SafeUint_commit : SafeUint → SafeUint := cell_commit.
Definition SafeUint_revert : SafeUint → SafeUint := cell_revert.

(** ** Operators that return a new value *)

Definition add_u (a b : Z) : result Z :=
  _ ← throw_if (umax w - b <? a) OverflowError; ustore w (a + b).

Definition add_int (a o : Z) : result Z :=
  if o <? 0 then
    c ← ustore w (- o); _ ← throw_if (a <? c) UnderflowError; ustore w (a + o)
  else
    _ ← throw_if (umax w - o <? a) OverflowError; ustore w (a + o).

Definition sub_u (a b : Z) : result Z :=
  _ ← throw_if (a <? b) UnderflowError; ustore w (a - b).

Definition sub_int (a o : Z) : result Z :=
  if 0 <? o then
    c ← ustore w o; _ ← throw_if (a <? c) UnderflowError; ustore w (a - o)
  else
    _ ← throw_if (umax w + o <? a) OverflowError; ustore w (a - o).

Definition mul_u (a b : Z) : result Z :=
  _ ← throw_if ((b =? 0) || (a =? 0)) DomainError;
  _ ← throw_if (umax w / b <? a) OverflowError;
  ustore w (a * b).

Definition mul_int (a o : Z) : result Z :=
  _ ← throw_if ((o =? 0) || (a =? 0)) DomainError;
  _ ← throw_if (o <? 0) UnderflowError;
  _ ← throw_if (umax w / o <? a) OverflowError;
  ustore w (a * o).

Definition div_u (a b : Z) : result Z :=
  _ ← throw_if ((a =? 0) || (b =? 0)) DomainError; ustore w (a / b).

Definition div_int (a o : Z) : result Z :=
  _ ← throw_if (o =? 0) DomainError;
  _ ← throw_if (o <? 0) DomainError;
  ustore w (a / o).

Definition mod_u (a b : Z) : result Z :=
  _ ← throw_if ((a =? 0) || (b =? 0)) DomainError; ustore w (a mod b).

(** The divisor is converted to [uint_t]; a zero there is a division by zero. *)
Definition mod_int (a o : Z) : result Z :=
  _ ← throw_if ((a =? 0) || (o =? 0)) DomainError;
  c ← ustore w o;
  _ ← throw_if (c =? 0) Undefined;
  ustore w (a mod c).

Definition and_u (a b : Z) : result Z := ustore w (Z.land a b).
Definition or_u (a b : Z) : result Z := ustore w (Z.lor a b).
Definition xor_u (a b : Z) : result Z := ustore w (Z.lxor a b).

Definition bit_int (f : Z → Z → Z) (a o : Z) : result Z :=
  _ ← throw_if (o <? 0) DomainError; c ← ustore w o; ustore w (f a c).
Definition and_int : Z → Z → result Z := bit_int Z.land.
Definition or_int : Z → Z → result Z := bit_int Z.lor.
Definition xor_int : Z → Z → result Z := bit_int Z.lxor.

Definition not_u (a : Z) : bool := a =? 0.
Definition land_u (a b : Z) : bool := negb (a =? 0) && negb (b =? 0).
Definition lor_u (a b : Z) : bool := negb (a =? 0) || negb (b =? 0).
Definition eq_u (a b : Z) : bool := a =? b.
Definition eq_int (a o : Z) : result bool :=
  if o <? 0 then Ok false else c ← ustore w o; Ok (a =? c).
Definition ne_u (a b : Z) : bool := negb (a =? b).
Definition lt_u (a b : Z) : bool := a <? b.
Definition le_u (a b : Z) : bool := a <=? b.
Definition gt_u (a b : Z) : bool := b <? a.
Definition ge_u (a b : Z) : bool := b <=? a.

(** ** Assignment operators *)

Definition assign_u (x : Z) : M SafeUint unit := cell_update (λ _, Ok x).

(** The negative case throws after [check()] and before [markAsUsed()]. *)
Definition assign_int (o : Z) : M SafeUint unit := λ v,
  if o <? 0 then (Throw DomainError, cell_check v) else cell_update (λ _, ustore w o) v.

Definition add_assign_u (b : Z) : M SafeUint unit := cell_update (λ a,
  _ ← throw_if (umax w - b <? a) OverflowError; ustore w (a + b)).

Definition add_assign_int (o : Z) : M SafeUint unit := cell_update (λ a,
  _ ← throw_if ((o <? 0) || (umax w - a <? o)) OverflowError;
  c ← ustore w o; ustore w (a + c)).

Definition sub_assign_u (b : Z) : M SafeUint unit := cell_update (λ a,
  _ ← throw_if (a <? b) UnderflowError; ustore w (a - b)).

Definition sub_assign_int (o : Z) : M SafeUint unit := cell_update (λ a,
  _ ← throw_if (o <? 0) InvalidArgument;
  c ← ustore w o;
  _ ← throw_if (a <? c) UnderflowError; ustore w (a - c)).

Definition mul_assign_u (b : Z) : M SafeUint unit := cell_update (λ a,
  _ ← throw_if ((b =? 0) || (a =? 0)) DomainError;
  _ ← throw_if (umax w / b <? a) OverflowError;
  ustore w (a * b)).

(** [max() / other_uint] divides by zero when the conversion of a non-zero [int] gave 0. *)
Definition mul_assign_int (o : Z) : M SafeUint unit := cell_update (λ a,
  _ ← throw_if (o <? 0) InvalidArgument;
  _ ← throw_if ((o =? 0) || (a =? 0)) DomainError;
  c ← ustore w o;
  _ ← throw_if (c =? 0) Undefined;
  _ ← throw_if (umax w / c <? a) OverflowError;
  ustore w (a * c)).

Definition div_assign_u (b : Z) : M SafeUint unit := cell_update (λ a,
  _ ← throw_if ((a =? 0) || (b =? 0)) DomainError; ustore w (a / b)).

Definition div_assign_int (o : Z) : M SafeUint unit := cell_update (λ a,
  _ ← throw_if (o <=? 0) InvalidArgument;
  _ ← throw_if (a =? 0) DomainError;
  c ← ustore w o;
  _ ← throw_if (c =? 0) Undefined; ustore w (a / c)).

Definition mod_assign_u (b : Z) : M SafeUint unit := cell_update (λ a,
  _ ← throw_if ((a =? 0) || (b =? 0)) DomainError; ustore w (a mod b)).

Definition mod_assign_int (o : Z) : M SafeUint unit := cell_update (λ a,
  _ ← throw_if (o <=? 0) InvalidArgument;
  _ ← throw_if (a =? 0) DomainError;
  c ← ustore w o;
  _ ← throw_if (c =? 0) Undefined; ustore w (a mod c)).

Definition bit_assign_u (f : Z → Z → Z) (b : Z) : M SafeUint unit := cell_update (λ a, ustore w (f a b)).
Definition and_assign_u : Z → M SafeUint unit := bit_assign_u Z.land.
Definition or_assign_u : Z → M SafeUint unit := bit_assign_u Z.lor.
Definition xor_assign_u : Z → M SafeUint unit := bit_assign_u Z.lxor.

Definition bit_assign_int (f : Z → Z → Z) (o : Z) : M SafeUint unit := cell_update (λ a,
  _ ← throw_if (o <? 0) InvalidArgument; c ← ustore w o; ustore w (f a c)).
Definition and_assign_int : Z → M SafeUint unit := bit_assign_int Z.land.
Definition or_assign_int : Z → M SafeUint unit := bit_assign_int Z.lor.
Definition xor_assign_int : Z → M SafeUint unit := bit_assign_int Z.lxor.

Definition pre_incr : M SafeUint unit := cell_update (λ a,
  _ ← throw_if (a =? umax w) OverflowError; ustore w (a + 1)).
Definition pre_decr : M SafeUint unit := cell_update (λ a,
  _ ← throw_if (a =? 0) UnderflowError; ustore w (a - 1)).

(** The postfix forms return the value before the change. *)
Definition post_incr : M SafeUint Z := λ v,
  let '(r, v') := cell_update (λ a, _ ← throw_if (a =? umax w) OverflowError; ustore w (a + 1)) v in
  ((λ _, cell_get v) <$> r, v').
Definition post_decr : M SafeUint Z := λ v,
  let '(r, v') := cell_update (λ a, _ ← throw_if (a =? 0) UnderflowError; ustore w (a - 1)) v in
  ((λ _, cell_get v) <$> r, v').

(** ** Correctness *)

(** The exact result when it is representable, and the exception otherwise. *)
Definition exact (z : Z) : result Z :=
  if z <? 0 then Throw UnderflowError else if umax w <? z then Throw OverflowError else Ok z.

Context (Hw : 8 ≤ w).

Lemma umax_pos : 255 ≤ umax w.
Proof. unfold umax. assert (2 ^ 8 ≤ 2 ^ w) by (apply Z.pow_le_mono_r; lia). lia. Qed.

Lemma in_uint_umax z : in_uint w z ↔ 0 ≤ z ≤ umax w.
Proof. unfold in_uint, umax. lia. Qed.

Lemma ustore_exact z : 0 ≤ z ≤ umax w → ustore w z = Ok z.
Proof. intros Hz. apply ustore_in. by apply in_uint_umax. Qed.

Lemma quotient_bound a b : 0 < b → 0 ≤ a → umax w / b < a ↔ umax w < a * b.
Proof.
  intros Hb Ha. split; intros H.
  - apply Z.nle_gt. intros Hle.
    assert (a ≤ umax w / b) by (apply Z.div_le_lower_bound; lia). lia.
  - apply Z.div_lt_upper_bound; lia.
Qed.

Ltac decide_all :=
  repeat match goal with
  | |- context [?a <? ?b] => destruct (Z.ltb_spec a b)
  | |- context [?a <=? ?b] => destruct (Z.leb_spec a b)
  | |- context [?a =? ?b] => destruct (Z.eqb_spec a b)
  end.
Ltac run := cbn [throw_if mbind result_bind orb andb negb].

(** What the five arithmetic operators return on values of the type. *)
Lemma arith_exact a b :
  in_uint w a → in_uint w b →
  add_u a b = exact (a + b) ∧ sub_u a b = exact (a - b) ∧
  mul_u a b = (if (b =? 0) || (a =? 0) then Throw DomainError else exact (a * b)) ∧
  div_u a b = (if (a =? 0) || (b =? 0) then Throw DomainError else Ok (a / b)) ∧
  mod_u a b = (if (a =? 0) || (b =? 0) then Throw DomainError else Ok (a mod b)).
Proof.
  rewrite !in_uint_umax. intros Ha Hb. unfold add_u, sub_u, mul_u, div_u, mod_u, exact.
  repeat split.
  - decide_all; run; try lia; try done. apply ustore_exact. lia.
  - decide_all; run; try lia; try done. apply ustore_exact. lia.
  - destruct (Z.eqb_spec b 0); [done|]. destruct (Z.eqb_spec a 0); [done|]. run.
    assert (Hq := quotient_bound a b ltac:(lia) ltac:(lia)).
    destruct (Z.ltb_spec (umax w / b) a) as [Hlt|Hge]; run.
    + rewrite (proj2 (Z.ltb_ge _ _)) by nia. by rewrite (proj2 (Z.ltb_lt _ _)) by by apply Hq.
    + assert (a * b ≤ umax w) by (apply Z.nlt_ge; intros Hn; apply Hq in Hn; lia).
      rewrite (proj2 (Z.ltb_ge _ _)) by nia. rewrite (proj2 (Z.ltb_ge _ _)) by done.
      apply ustore_exact. nia.
  - destruct (Z.eqb_spec a 0); [done|]. destruct (Z.eqb_spec b 0); [done|]. run.
    apply ustore_exact.
    assert (0 ≤ a / b) by (apply Z.div_pos; lia).
    assert (a / b ≤ a) by (apply Z.div_le_upper_bound; nia). lia.
  - destruct (Z.eqb_spec a 0); [done|]. destruct (Z.eqb_spec b 0); [done|]. run.
    apply ustore_exact. assert (Hm := Z.mod_pos_bound a b). lia.
Qed.

(** the overloads for an [int] are exact as long as the [int] is smaller than [2^Size] in absolute
    value, in both directions. *)
Theorem SafeUint_int_exact a o :
  in_uint w a → - (2 ^ w) < o < 2 ^ w →
  add_int a o = exact (a + o) ∧ sub_int a o = exact (a - o) ∧
  eq_int a o = Ok (a =? o) ∧ (0 ≤ o → add_int a o = add_u a o ∧ sub_int a o = sub_u a o).
Proof.
  rewrite in_uint_umax. intros Ha Ho. assert (Hp := umax_pos).
  assert (Hu : 2 ^ w = umax w + 1) by (unfold umax; lia). rewrite Hu in Ho.
  unfold add_int, sub_int, eq_int, add_u, sub_u, exact. split; [|split; [|split]].
  - destruct (Z.ltb_spec o 0).
    + rewrite (ustore_exact (- o)) by lia. run.
      decide_all; run; try lia; try done. apply ustore_exact. lia.
    + decide_all; run; try lia; try done. apply ustore_exact. lia.
  - destruct (Z.ltb_spec 0 o).
    + rewrite (ustore_exact o) by lia. run.
      decide_all; run; try lia; try done. apply ustore_exact. lia.
    + decide_all; run; try lia; try done. apply ustore_exact. lia.
  - destruct (Z.ltb_spec o 0).
    + f_equal. symmetry. apply Z.eqb_neq. lia.
    + by rewrite (ustore_exact o) by lia.
  - intros Ho0. destruct (Z.ltb_spec o 0); [lia|]. split; [done|].
    destruct (Z.ltb_spec 0 o).
    + by rewrite (ustore_exact o) by lia.
    + replace o with 0 by lia. destruct (Z.ltb_spec (umax w + 0) a); [lia|].
      destruct (Z.ltb_spec a 0); [lia|]. done.
Qed.

(** ** The assignment operators as a whole *)

Inductive mutator :=
| MAssign (b : Z) | MAdd (b : Z) | MSub (b : Z) | MMul (b : Z) | MDiv (b : Z) | MMod (b : Z)
| MAnd (b : Z) | MOr (b : Z) | MXor (b : Z) | MIncr | MDecr.

Definition run_mutator (m : mutator) : M SafeUint unit :=
  match m with
  | MAssign b => assign_u b | MAdd b => add_assign_u b | MSub b => sub_assign_u b
  | MMul b => mul_assign_u b | MDiv b => div_assign_u b | MMod b => mod_assign_u b
  | MAnd b => and_assign_u b | MOr b => or_assign_u b | MXor b => xor_assign_u b
  | MIncr => pre_incr | MDecr => pre_decr
  end.

(** The operator without assignment. *)
Definition mutator_value (m : mutator) (a : Z) : result Z :=
  match m with
  | MAssign b => Ok b | MAdd b => add_u a b | MSub b => sub_u a b
  | MMul b => mul_u a b | MDiv b => div_u a b | MMod b => mod_u a b
  | MAnd b => and_u a b | MOr b => or_u a b | MXor b => xor_u a b
  | MIncr => add_u a 1 | MDecr => sub_u a 1
  end.

Definition mutator_typed (m : mutator) : Prop :=
  match m with
  | MAssign b | MAdd b | MSub b | MMul b | MDiv b | MMod b | MAnd b | MOr b | MXor b => in_uint w b
  | _ => True
  end.

Lemma run_mutator_update m v :
  in_uint w (cell_get v) → run_mutator m v = cell_update (mutator_value m) v.
Proof.
  rewrite in_uint_umax. intros Hv. destruct m; try done; apply cell_update_ext;
    cbn [mutator_value]; unfold add_u, sub_u.
  - destruct (Z.eqb_spec (cell_get v) (umax w)), (Z.ltb_spec (umax w - 1) (cell_get v)); done || lia.
  - destruct (Z.eqb_spec (cell_get v) 0), (Z.ltb_spec (cell_get v) 1); done || lia.
Qed.

Lemma bitop_range (f : Z → Z → Z) a b :
  (∀ n, 0 ≤ n → Z.testbit (f a b) n = true → Z.testbit a n = true ∨ Z.testbit b n = true) →
  0 ≤ f a b → in_uint w a → in_uint w b → in_uint w (f a b).
Proof.
  intros Hbits H0 Ha Hb. split; [done|]. apply Z.nle_gt. intros Hge.
  assert (Hpos : 0 < f a b) by (assert (0 < 2 ^ w) by (apply Z.pow_pos_nonneg; lia); lia).
  assert (Hl : w ≤ Z.log2 (f a b)) by (apply Z.log2_le_pow2; lia).
  assert (Hhigh : ∀ x, in_uint w x → Z.testbit x (Z.log2 (f a b)) = false).
  { intros x [Hx0 Hx1]. destruct (Z.eq_dec x 0) as [->|]; [apply Z.bits_0|].
    apply Z.bits_above_log2; [done|]. apply Z.lt_le_trans with w; [|done].
    apply Z.log2_lt_pow2; [lia|done]. }
  destruct (Hbits (Z.log2 (f a b)) ltac:(lia) (Z.bit_log2 _ Hpos)) as [H|H];
    rewrite Hhigh in H by done; done.
Qed.

Lemma mutator_value_range m a x :
  mutator_typed m → in_uint w a → mutator_value m a = Ok x → in_uint w x.
Proof.
  intros Hm Ha. assert (Hst : ∀ z, ustore w z = Ok x → in_uint w x) by (intros z; apply ustore_range; lia).
  destruct m; cbn [mutator_value]; unfold add_u, sub_u, mul_u, div_u, mod_u, and_u, or_u, xor_u;
    repeat (let H := fresh in intros H; apply result_bind_ok in H as (_ & _ & H); revert H);
    try (by intros ?%Hst). by intros [= <-].
Qed.

(** every assignment operator of a [SafeUint_t] ([=], [+=], ..., [++], [--]) reads what the plain
    operator gives: the variable takes its value when there is one and keeps its own when it throws
    (with the same exception); the value stays inside the type, the committed value is not touched,
    and the variable is registered with its contract before it changes. *)
Theorem SafeUint_assign_correct m v :
  mutator_typed m → in_uint w (cell_get v) →
  let '(r, v') := run_mutator m v in
  r = ((λ _, tt) <$> mutator_value m (cell_get v)) ∧
  cell_get v' = match mutator_value m (cell_get v) with Ok x => x | Throw _ => cell_get v end ∧
  in_uint w (cell_get v') ∧ value_ v' = value_ v ∧
  (tracked (base_ v) = true → registered_ (base_ v') = true).
Proof.
  intros Hm Hv. rewrite run_mutator_update by done.
  assert (Hspec := cell_update_spec (mutator_value m) v).
  assert (Hh := honest_update (mutator_value m) v).
  assert (Hreg := cell_update_registered (mutator_value m) v).
  destruct (cell_update (mutator_value m) v) as [r v'] eqn:E. cbn [snd] in Hreg.
  destruct (Hh _ _ I eq_refl) as (_ & Hval & _).
  destruct (mutator_value m (cell_get v)) as [x|e] eqn:Ex; destruct Hspec as [-> Hg]; rewrite Hg.
  - split; [done|]. split; [done|]. split; [by eapply mutator_value_range|]. by split.
  - split; [done|]. split; [done|]. split; [done|]. by split.
Qed.

Lemma honest_mutator m : honest (run_mutator m).
Proof. destruct m; apply honest_update. Qed.

(** C30: the overloads of [+], [-], [*], [/] and [%] for an operand of the same unsigned type do not wrap around: on
    values of the type addition, subtraction and multiplication give the exact result or the exception for the side it
    leaves the range on, division and modulus give the exact quotient and remainder, and a zero operand on either side of
    the last three is refused.  The compound assignments and the prefix [++] and [--] leave that result in the variable,
    or throw the same exception and keep its value. *)
Theorem SafeUint_arith_exact a b v :
  in_uint w a → in_uint w b → cell_get v = a →
  let sum := exact (a + b) in
  let difference := exact (a - b) in
  let product := if (b =? 0) || (a =? 0) then Throw DomainError else exact (a * b) in
  let quotient := if (a =? 0) || (b =? 0) then Throw DomainError else Ok (a / b) in
  let remainder := if (a =? 0) || (b =? 0) then Throw DomainError else Ok (a mod b) in
  (add_u a b = sum ∧ sub_u a b = difference ∧ mul_u a b = product ∧ div_u a b = quotient ∧ mod_u a b = remainder) ∧
  ∀ m r, (m, r) ∈ [(MAdd b, sum); (MSub b, difference); (MMul b, product); (MDiv b, quotient); (MMod b, remainder);
                   (MIncr, exact (a + 1)); (MDecr, exact (a - 1))] →
    (run_mutator m v).1 = ((λ _, tt) <$> r) ∧ cell_get (run_mutator m v).2 = match r with Ok x => x | Throw _ => a end.
Proof.
  intros Ha Hb Hv. assert (H1 : in_uint w 1) by (assert (Hp := umax_pos); apply in_uint_umax; lia).
  assert (Hab := arith_exact a b Ha Hb). destruct (arith_exact a 1 Ha H1) as (A1 & S1 & _). cbv zeta. split; [done|].
  intros m r Hin. assert (mutator_typed m ∧ mutator_value m a = r) as [Ht <-].
  { rewrite !elem_of_cons, elem_of_nil in Hin. destruct Hab as (? & ? & ? & ? & ?).
    repeat destruct Hin as [E|Hin]; try done; injection E as -> ->; done. }
  assert (Hs := SafeUint_assign_correct m v Ht ltac:(rewrite Hv; exact Ha)). rewrite Hv in Hs.
  destruct (run_mutator m v) as [r' v']. destruct Hs as (-> & Hg & _). by split.
Qed.
End SafeUint.

(** on the 8- and 16-bit types an [int] of [2^Size] or more is silently reduced first:
    [x + (-256)] and [x - 256] are [x], [x -= 256] does nothing, and 0 equals 256. *)
Theorem SafeUint_narrow_int_truncated w a v :
  w = 8 ∨ w = 16 → in_uint w a →
  add_int w a (- (2 ^ w)) = Ok a ∧ sub_int w a (2 ^ w) = Ok a ∧ eq_int w 0 (2 ^ w) = Ok true ∧
  (in_uint w (cell_get v) → cell_get (sub_assign_int w (2 ^ w) v).2 = cell_get v).
Proof.
  intros Hw Ha. unfold in_uint in Ha.
  assert (native_width w = true ∧ 0 < 2 ^ w) as [Hn Hp] by by destruct Hw as [-> | ->].
  assert (Hst : ∀ z, ustore w z = Ok (z mod 2 ^ w)) by (intros z; unfold ustore; by rewrite Hn).
  assert (Hz : 2 ^ w mod 2 ^ w = 0) by (apply Z.mod_same; lia).
  unfold add_int, sub_int, eq_int.
  destruct (Z.ltb_spec (- (2 ^ w)) 0); [|lia]. destruct (Z.ltb_spec 0 (2 ^ w)); [|lia].
  destruct (Z.ltb_spec (2 ^ w) 0); [lia|]. rewrite Z.opp_involutive, !Hst, !result_bind_Ok, Hz.
  destruct (Z.ltb_spec a 0); [lia|]. cbn [throw_if]. rewrite !result_bind_Ok, ?Hst.
  split; [|split; [|split]].
  - f_equal. replace (a + - (2 ^ w)) with (a + (-1) * 2 ^ w) by lia. rewrite Z.mod_add by lia.
    apply Z.mod_small; lia.
  - f_equal. replace (a - 2 ^ w) with (a + (-1) * 2 ^ w) by lia. rewrite Z.mod_add by lia.
    apply Z.mod_small; lia.
  - done.
  - intros Hv. unfold in_uint in Hv. unfold sub_assign_int.
    assert (Hs := cell_update_spec (λ a, _ ← throw_if (2 ^ w <? 0) InvalidArgument;
      c ← ustore w (2 ^ w); _ ← throw_if (a <? c) UnderflowError; ustore w (a - c)) v).
    destruct (cell_update _ v) as [r v']. cbn [snd].
    destruct (Z.ltb_spec (2 ^ w) 0); [lia|]. cbn [throw_if] in Hs.
    rewrite result_bind_Ok, Hst, result_bind_Ok, Hz in Hs.
    destruct (Z.ltb_spec (cell_get v) 0); [lia|]. cbn [throw_if] in Hs.
    rewrite result_bind_Ok, Hst, Z.sub_0_r, Z.mod_small in Hs by lia. by destruct Hs.
Qed.

(** ** Witnesses *)

Lemma SafeUint_arith_exact_witness :
  add_u 256 (2 ^ 256 - 1) 1 = Throw OverflowError ∧ sub_u 256 1 2 = Throw UnderflowError ∧
  mul_u 256 (2 ^ 255) 2 = exact 256 (2 ^ 255 * 2) ∧
  cell_get (run_mutator 8 (MAdd 250) (SafeUint_local 7)).2 = 7 ∧ cell_get (run_mutator 8 (MMul 3) (SafeUint_local 7)).2 = 21.
Proof.
  split; [|split; [|split; [|split]]].
  - apply (SafeUint_arith_exact 256 ltac:(lia) (2 ^ 256 - 1) 1 (SafeUint_local (2 ^ 256 - 1))); by_compute.
  - apply (SafeUint_arith_exact 256 ltac:(lia) 1 2 (SafeUint_local 1)); by_compute.
  - apply (SafeUint_arith_exact 256 ltac:(lia) (2 ^ 255) 2 (SafeUint_local (2 ^ 255))); by_compute.
  - destruct (SafeUint_arith_exact 8 ltac:(lia) 7 250 (SafeUint_local 7)) as [_ H]; [by_compute..|].
    apply (H (MAdd 250) (Throw OverflowError)). left.
  - destruct (SafeUint_arith_exact 8 ltac:(lia) 7 3 (SafeUint_local 7)) as [_ H]; [by_compute..|].
    apply (H (MMul 3) (Ok 21)). do 2 right. left.
Defined.

Lemma SafeUint_int_exact_witness : add_int 8 5 (-255) = Throw UnderflowError.
Proof. apply (SafeUint_int_exact 8 ltac:(lia) 5 (-255)); [by_compute|lia]. Defined.

Definition toy_uint : SafeUint := mkCell (enableRegister SafeBase_owned) 40 None.

Lemma SafeUint_assign_correct_witness :
  cell_get (run_mutator 256 (MAdd 2) toy_uint).2 = 42 ∧
  registered_ (base_ (run_mutator 256 (MAdd 2) toy_uint).2) = true.
Proof.
  destruct (SafeUint_assign_correct 256 ltac:(lia) (MAdd 2) toy_uint) as (_ & H1 & _ & _ & H2).
  - by_compute.
  - by_compute.
  - exact (conj H1 (H2 eq_refl)).
Defined.

Lemma SafeUint_narrow_int_truncated_witness :
  add_int 8 5 (-256) = Ok 5 ∧ cell_get (sub_assign_int 8 256 toy_uint).2 = 40.
Proof.
  destruct (SafeUint_narrow_int_truncated 8 5 toy_uint) as (H1 & _ & _ & H2).
  - by left.
  - by_compute.
  - split; [exact H1|]. apply H2. by_compute.
Defined.

(** Two variables of a contract and a call that overflows the second one. *)
Definition toy_call_vars : list SafeUint := [toy_uint; mkCell (enableRegister SafeBase_owned) 255 None].
Definition toy_call_end : CallState (V := SafeUint) :=
  (run_on 1 (run_mutator 8 (MAdd 2))
    (run_on 0 (run_mutator 8 (MAdd 2)) (call_start toy_call_vars)).2).2.

Lemma call_atomic_witness :
  cell_get <$> vars toy_call_end = [42; 255] ∧
  sv_get <$> vars (logger_end false toy_call_end) = [40; 255].
Proof.
  split; [by vm_compute|].
  refine (proj2 (proj2 (@call_atomic SafeUint Z cell_SafeVariable cell_laws toy_call_vars
    toy_call_end _ _))).
  - repeat constructor.
  - eapply call_cons; [apply (honest_mutator 8 (MAdd 2))|apply surjective_pairing|].
    eapply call_cons; [apply (honest_mutator 8 (MAdd 2))|apply surjective_pairing|].
    apply call_nil.
Defined.
