(* ===== verification/SafeInt.v ===== *)
(** * SafeInt: checked signed integers (src/contract/variables/safeint.h, SafeInt_t<Size>)

    The native sizes are two's complement; the other sizes are [boost::multiprecision] checked integers
    with [Size] bits of magnitude and a sign. As in SafeUint the overloads for [SafeInt_t] and for
    [int_t] are one definition and the shifts are not modelled. *)

From S2P Require Import Prelude Bytes SafeBase SafeCell.

Definition SafeInt := SafeCell Z.

Section SafeInt.
Variable w : Z. (* Size *)

Definition imax : Z := if native_width w then 2 ^ (w - 1) - 1 else 2 ^ w - 1.
Definition imin : Z := if native_width w then - 2 ^ (w - 1) else - (2 ^ w - 1).

Definition in_int (z : Z) : Prop := imin ≤ z ≤ imax.

#[export] Instance in_int_dec z : Decision (in_int z).
Proof. unfold in_int. apply _. Defined.

(** The store of an exact value into [int_t]: modular for the native types, checked otherwise. *)
Definition istore (z : Z) : result Z :=
  if native_width w then Ok ((z + 2 ^ (w - 1)) mod 2 ^ w - 2 ^ (w - 1))
  else if imax <? Z.abs z then Throw OverflowError else Ok z.

Definition SafeInt_local (value : Z) : SafeInt := mkCell SafeBase_local 0 (Some value).
Definition SafeInt_owned (value : Z) : SafeInt := mkCell SafeBase_owned 0 (Some value).
Definition SafeInt_copy (other : SafeInt) : SafeInt := SafeInt_local (cell_get other).
Definition SafeInt_get : M SafeInt Z := cell_read.
Definition SafeInt_commit : SafeInt → SafeInt := cell_commit.
Definition SafeInt_revert : SafeInt → SafeInt := cell_revert.

(** ** Operators that return a new value *)

Definition iadd (a b : Z) : result Z :=
  _ ← throw_if ((0 <? b) && (imax - b <? a)) OverflowError;
  _ ← throw_if ((b <? 0) && (a <? imin - b)) UnderflowError;
  istore (a + b).

Definition isub (a b : Z) : result Z :=
  _ ← throw_if ((b <? 0) && (imax + b <? a)) OverflowError;
  _ ← throw_if ((0 <? b) && (a <? imin + b)) UnderflowError;
  istore (a - b).

(** [std::numeric_limits<int_t>::min() / other]: undefined for -1 on the 32- and 64-bit types. *)
Definition imin_div (b : Z) : result Z :=
  if (b =? -1) && ((w =? 32) || (w =? 64)) then Throw Undefined else Ok (Z.quot imin b).

Definition imul (a b : Z) : result Z :=
  _ ← throw_if ((a =? 0) || (b =? 0)) DomainError;
  _ ← throw_if (Z.quot imax b <? a) OverflowError;
  m ← imin_div b;
  _ ← throw_if (a <? m) UnderflowError;
  istore (a * b).

Definition idiv (a b : Z) : result Z :=
  _ ← throw_if (b =? 0) DomainError;
  _ ← throw_if ((a =? imin) && (b =? -1)) OverflowError;
  istore (Z.quot a b).

Definition imod (a b : Z) : result Z :=
  _ ← throw_if (b =? 0) DomainError;
  _ ← throw_if ((a =? imin) && (b =? -1) && ((w =? 32) || (w =? 64))) Undefined;
  istore (Z.rem a b).

(** A bitwise operator: the checked types refuse a negative operand. *)
Definition ibit (f : Z → Z → Z) (a b : Z) : result Z :=
  _ ← throw_if (negb (native_width w) && ((a <? 0) || (b <? 0))) RangeError;
  istore (f a b).
Definition iand : Z → Z → result Z := ibit Z.land.
Definition ior : Z → Z → result Z := ibit Z.lor.
Definition ixor : Z → Z → result Z := ibit Z.lxor.

Definition inot (a : Z) : bool := a =? 0.
Definition iland (a b : Z) : bool := negb (a =? 0) && negb (b =? 0).
Definition ilor (a b : Z) : bool := negb (a =? 0) || negb (b =? 0).
Definition ieq (a b : Z) : bool := a =? b.
Definition ilt (a b : Z) : bool := a <? b.
Definition ile (a b : Z) : bool := a <=? b.
Definition igt (a b : Z) : bool := b <? a.
Definition ige (a b : Z) : bool := b <=? a.

(** ** Assignment operators

    Unlike [SafeUint_t] the checks come before [markAsUsed]. *)

Definition checked_update (f : Z → result Z) : M SafeInt unit := λ v,
  let v := cell_check v in
  match f (cell_get v) with
  | Ok x => (Ok tt, cell_set (cell_mark v) x)
  | Throw e => (Throw e, v)
  end.

Definition iassign (x : Z) : M SafeInt unit := cell_update (λ _, Ok x).

Definition iadd_assign (b : Z) : M SafeInt unit := checked_update (λ a, iadd a b).
Definition isub_assign (b : Z) : M SafeInt unit := checked_update (λ a, isub a b).

(** No test for zero: [max() / 0] is undefined for the native types and throws for the others. *)
Definition imul_assign (b : Z) : M SafeInt unit := checked_update (λ a,
  _ ← throw_if (b =? 0) (if native_width w then Undefined else OverflowError);
  _ ← throw_if (Z.quot imax b <? a) OverflowError;
  m ← imin_div b;
  _ ← throw_if (a <? m) UnderflowError;
  istore (a * b)).

Definition idiv_assign (b : Z) : M SafeInt unit := checked_update (λ a, idiv a b).
Definition imod_assign (b : Z) : M SafeInt unit := checked_update (λ a, imod a b).
Definition iand_assign (b : Z) : M SafeInt unit := cell_update (λ a, iand a b).
Definition ior_assign (b : Z) : M SafeInt unit := cell_update (λ a, ior a b).
Definition ixor_assign (b : Z) : M SafeInt unit := cell_update (λ a, ixor a b).

Definition ipre_incr : M SafeInt unit := checked_update (λ a,
  _ ← throw_if (a =? imax) OverflowError; istore (a + 1)).
Definition ipre_decr : M SafeInt unit := checked_update (λ a,
  _ ← throw_if (a =? imin) UnderflowError; istore (a - 1)).
Definition ipost_incr : M SafeInt Z := λ v,
  let '(r, v') := ipre_incr v in ((λ _, cell_get v) <$> r, v').
Definition ipost_decr : M SafeInt Z := λ v,
  let '(r, v') := ipre_decr v in ((λ _, cell_get v) <$> r, v').

(** ** Correctness *)

Context (Hw : 8 ≤ w).

Lemma imin_neg : imin < 0 ∧ 0 < imax ∧ - imin - 1 ≤ imax ≤ - imin.
Proof.
  unfold imin, imax. assert (2 ^ 7 ≤ 2 ^ (w - 1)) by (apply Z.pow_le_mono_r; lia).
  assert (2 ^ 8 ≤ 2 ^ w) by (apply Z.pow_le_mono_r; lia).
  destruct (native_width w); lia.
Qed.

Lemma istore_in z : in_int z → istore z = Ok z.
Proof.
  unfold in_int, istore, imin, imax. intros Hz. destruct (native_width w).
  - assert (Hp : 2 ^ w = 2 * 2 ^ (w - 1)) by (rewrite <- Z.pow_succ_r by lia; f_equal; lia).
    rewrite Z.mod_small by lia. f_equal. lia.
  - destruct (Z.ltb_spec (2 ^ w - 1) (Z.abs z)); [lia|done].
Qed.

Definition iexact (z : Z) : result Z :=
  if imax <? z then Throw OverflowError else if z <? imin then Throw UnderflowError else Ok z.

Lemma iadd_exact a b : in_int a → in_int b → iadd a b = iexact (a + b).
Proof.
  intros Ha Hb. unfold iadd, iexact, in_int in *.
  destruct (Z.ltb_spec 0 b), (Z.ltb_spec b 0), (Z.ltb_spec (imax - b) a), (Z.ltb_spec a (imin - b)),
    (Z.ltb_spec imax (a + b)), (Z.ltb_spec (a + b) imin); cbn; try lia; try done;
    apply istore_in; unfold in_int; lia.
Qed.

Lemma isub_exact a b : in_int a → in_int b → isub a b = iexact (a - b).
Proof.
  intros Ha Hb. unfold isub, iexact, in_int in *.
  destruct (Z.ltb_spec 0 b), (Z.ltb_spec b 0), (Z.ltb_spec (imax + b) a), (Z.ltb_spec a (imin + b)),
    (Z.ltb_spec imax (a - b)), (Z.ltb_spec (a - b) imin); cbn; try lia; try done;
    apply istore_in; unfold in_int; lia.
Qed.

Lemma imul_positive a b : in_int a → in_int b → a ≠ 0 → 0 < b → imul a b = iexact (a * b).
Proof.
  intros Ha Hb Ha0 Hb0. destruct imin_neg as (Hmin & Hmax & Hsym). unfold imul, iexact, imin_div, in_int in *.
  destruct (Z.eqb_spec a 0); [done|]. destruct (Z.eqb_spec b 0); [lia|].
  destruct (Z.eqb_spec b (-1)); [lia|]. cbn [orb andb throw_if]. rewrite result_bind_Ok.
  assert (Hq1 : Z.quot imax b < a ↔ imax < a * b).
  { rewrite Z.quot_div_nonneg by lia. split; intros H.
    - apply Z.nle_gt. intros Hle. assert (a ≤ imax / b) by (apply Z.div_le_lower_bound; lia). lia.
    - apply Z.div_lt_upper_bound; lia. }
  assert (Hq2 : a < Z.quot imin b ↔ a * b < imin).
  { replace imin with (- (- imin)) at 1 by lia. rewrite Z.quot_opp_l by lia.
    rewrite Z.quot_div_nonneg by lia. split; intros H.
    - apply Z.nle_gt. intros Hle. assert (- a ≤ (- imin) / b) by (apply Z.div_le_lower_bound; lia). lia.
    - assert ((- imin) / b < - a) by (apply Z.div_lt_upper_bound; lia). lia. }
  destruct (Z.ltb_spec (Z.quot imax b) a) as [H1|H1]; cbn [throw_if].
  { by rewrite (proj2 (Z.ltb_lt imax (a * b))) by tauto. }
  rewrite (proj2 (Z.ltb_ge imax (a * b))), !result_bind_Ok by (apply Z.nlt_ge; rewrite <- Hq1; lia).
  destruct (Z.ltb_spec a (Z.quot imin b)) as [H2|H2]; cbn [throw_if].
  { by rewrite (proj2 (Z.ltb_lt (a * b) imin)) by tauto. }
  assert (¬ imax < a * b) by (rewrite <- Hq1; lia). assert (¬ a * b < imin) by (rewrite <- Hq2; lia).
  rewrite (proj2 (Z.ltb_ge (a * b) imin)), result_bind_Ok by lia. apply istore_in. unfold in_int. lia.
Qed.

(** addition and subtraction of [SafeInt_t] values are exact or throw for the side they leave the
    range on, and so is multiplication by a positive value. *)
Theorem SafeInt_arith_exact a b :
  in_int a → in_int b →
  iadd a b = iexact (a + b) ∧ isub a b = iexact (a - b) ∧
  (a ≠ 0 → 0 < b → imul a b = iexact (a * b)).
Proof.
  intros Ha Hb. split; [by apply iadd_exact|]. split; [by apply isub_exact|]. by apply imul_positive.
Qed.

(** multiplication of a [SafeInt_t] by a negative value never returns: the two bounds are computed
    with the sign of the divisor and no value satisfies both, so [2 * (-3)] throws an overflow. *)
Theorem SafeInt_mul_negative_refused a b :
  in_int a → in_int b → b < 0 → is_ok (imul a b) = false.
Proof.
  intros Ha Hb Hb0. destruct imin_neg as (Hmin & Hmax & Hsym). unfold imul, in_int in *.
  destruct (Z.eqb_spec a 0); [done|]. destruct (Z.eqb_spec b 0); [done|]. cbn [orb throw_if].
  rewrite result_bind_Ok. destruct (Z.ltb_spec (Z.quot imax b) a) as [H1|H1]; [done|].
  cbn [throw_if]. rewrite result_bind_Ok. unfold imin_div.
  destruct (_ && _); [done|]. rewrite result_bind_Ok.
  assert (Hq1 : Z.quot imax b ≤ 0).
  { replace b with (- (- b)) by lia. rewrite Z.quot_opp_r by lia.
    assert (0 ≤ Z.quot imax (- b)) by (apply Z.quot_pos; lia). lia. }
  assert (Hq2 : 1 ≤ Z.quot imin b).
  { replace imin with (- (- imin)) by lia. replace b with (- (- b)) by lia.
    rewrite Z.quot_opp_opp by lia. rewrite Z.quot_div_nonneg by lia.
    apply Z.div_le_lower_bound; lia. }
  destruct (Z.ltb_spec a (Z.quot imin b)); [done|lia].
Qed.

Lemma honest_checked_update f : honest (checked_update f).
Proof.
  intros v r v' _. unfold checked_update. cbv zeta. destruct (cell_check_base v) as [Hb Hv].
  destruct (markAsUsed_spec (base_ v)) as (H1 & H2 & H3 & H4).
  destruct (f _) as [x|e]; intros [= _ <-]; cbn [sv_value sv_base sv_get cell_SafeVariable cell_set
    cell_mark base_ value_]; rewrite ?Hb.
  - split; [done|]. split; [exact Hv|]. split; [done|]. split; [done|]. split; [done|].
    intros Ht Hr. specialize (H4 Ht). congruence.
  - rewrite Hv, cell_get_check. by rewrite ?Hb.
Qed.

(** Every assignment operator of the class. *)
Inductive imutator :=
| IAssign (b : Z) | IAdd (b : Z) | ISub (b : Z) | IMul (b : Z) | IDiv (b : Z) | IMod (b : Z)
| IAnd (b : Z) | IOr (b : Z) | IXor (b : Z) | IIncr | IDecr.

Definition run_imutator (m : imutator) : M SafeInt unit :=
  match m with
  | IAssign b => iassign b | IAdd b => iadd_assign b | ISub b => isub_assign b
  | IMul b => imul_assign b | IDiv b => idiv_assign b | IMod b => imod_assign b
  | IAnd b => iand_assign b | IOr b => ior_assign b | IXor b => ixor_assign b
  | IIncr => ipre_incr | IDecr => ipre_decr
  end.

Lemma honest_imutator m : honest (run_imutator m).
Proof. destruct m; apply honest_update || apply honest_checked_update. Qed.
End SafeInt.

Lemma SafeInt_arith_exact_witness :
  iadd 256 5 (-7) = Ok (-2) ∧ imul 64 (-3) 4 = Ok (-12).
Proof.
  split.
  - apply (SafeInt_arith_exact 256 ltac:(lia) 5 (-7)); by_compute.
  - apply (SafeInt_arith_exact 64 ltac:(lia) (-3) 4); [by_compute|by_compute|lia|lia].
Defined.

Lemma SafeInt_mul_negative_refused_witness : is_ok (imul 256 2 (-3)) = false.
Proof. apply (SafeInt_mul_negative_refused 256 ltac:(lia) 2 (-3)); [by_compute|by_compute|lia]. Defined.
