(* ===== verification/DexLibrary.v ===== *)
(** * DexLibrary: the arithmetic of the exchange (src/contract/templates/dexv2/dexv2library.cpp, uq112x112.h)

    Prices and amounts over checked 256-bit integers, and the walks along a path of tokens, for any function that gives
    the reserves of a pair. *)

From S2P Require Import Prelude Bytes SizedInts Hashing.

Definition dex_error (what : string) : exn := DynamicException what.

(** The operators of [uint256_t]; division by zero throws. *)
Definition mul256 (a b : Z) : result Z := ustore 256 (a * b).
Definition add256 (a b : Z) : result Z := ustore 256 (a + b).
Definition sub256 (a b : Z) : result Z := ustore 256 (a - b).
Definition div256 (a b : Z) : result Z := if b =? 0 then Throw OverflowError else Ok (a / b).

Definition sortTokens (tokenA tokenB : list Z) : result (list Z * list Z) :=
  _ ← throw_if (bool_decide (tokenA = tokenB)) (dex_error "DEXV2Library: IDENTICAL_ADDRESSES");
  let ret := if bytes_ltb tokenA tokenB then (tokenA, tokenB) else (tokenB, tokenA) in
  _ ← throw_if (bool_decide (ret.1 = zero_address)) (dex_error "DEXV2Library: ZERO_ADDRESS");
  Ok ret.

Definition quote (amountA reserveA reserveB : Z) : result Z :=
  _ ← throw_if (amountA =? 0) (dex_error "DEXV2Library: INSUFFICIENT_AMOUNT");
  _ ← throw_if ((reserveA =? 0) || (reserveB =? 0)) (dex_error "DEXV2Library: INSUFFICIENT_LIQUIDITY");
  x ← mul256 amountA reserveB;
  div256 x reserveA.

Definition getAmountOut (amountIn reserveIn reserveOut : Z) : result Z :=
  _ ← throw_if (amountIn =? 0) (dex_error "DEXV2Library: INSUFFICIENT_INPUT_AMOUNT");
  _ ← throw_if ((reserveIn =? 0) || (reserveOut =? 0)) (dex_error "DEXV2Library: INSUFFICIENT_LIQUIDITY");
  amountInWithFee ← mul256 amountIn 997;
  numerator ← mul256 amountInWithFee reserveOut;
  x ← mul256 reserveIn 1000;
  denominator ← add256 x amountInWithFee;
  div256 numerator denominator.

Definition getAmountIn (amountOut reserveIn reserveOut : Z) : result Z :=
  _ ← throw_if (amountOut =? 0) (dex_error "DEXV2Library: INSUFFICIENT_OUTPUT_AMOUNT");
  _ ← throw_if ((reserveIn =? 0) || (reserveOut =? 0)) (dex_error "DEXV2Library: INSUFFICIENT_LIQUIDITY");
  x ← mul256 reserveIn amountOut;
  numerator ← mul256 x 1000;
  y ← sub256 reserveOut amountOut;
  denominator ← mul256 y 997;
  q ← div256 numerator denominator;
  add256 q 1.

(** [reserves] is [getReserves] for the factory of the path. *)
Fixpoint amounts_out (reserves : list Z → list Z → result (Z * Z)) (amount : Z) (path : list (list Z)) : result (list Z) :=
  match path with
  | a :: rest =>
      match rest with
      | b :: _ =>
          '(reservesA, reservesB) ← reserves a b;
          next ← getAmountOut amount reservesA reservesB;
          amounts ← amounts_out reserves next rest;
          Ok (amount :: amounts)
      | [] => Ok [amount]
      end
  | [] => Ok [amount]
  end.

(** The loop of [getAmountsIn] runs from the end of the path: [path] is reversed here, and so is the result. *)
Fixpoint amounts_in (reserves : list Z → list Z → result (Z * Z)) (amount : Z) (path : list (list Z)) : result (list Z) :=
  match path with
  | b :: rest =>
      match rest with
      | a :: _ =>
          '(reservesA, reservesB) ← reserves a b;
          previous ← getAmountIn amount reservesA reservesB;
          amounts ← amounts_in reserves previous rest;
          Ok (amount :: amounts)
      | [] => Ok [amount]
      end
  | [] => Ok [amount]
  end.

Definition invalid_path : exn := dex_error "DEXV2Library: INVALID_PATH".

Definition getAmountsOut (reserves : list Z → list Z → result (Z * Z)) (amountIn : Z) (path : list (list Z)) : result (list Z) :=
  _ ← throw_if (length path <? 2)%nat invalid_path;
  amounts_out reserves amountIn path.

Definition getAmountsIn (reserves : list Z → list Z → result (Z * Z)) (amountOut : Z) (path : list (list Z)) : result (list Z) :=
  _ ← throw_if (length path <? 2)%nat invalid_path;
  amounts ← amounts_in reserves amountOut (reverse path);
  Ok (reverse amounts).

(** [getReserves]: what the factory names for the tokens, and what the contract there says of its own two tokens. *)
Definition getReserves (pairFor : list Z → list Z → result (list Z)) (getReservess : list Z → result (Z * Z))
    (tokenA tokenB : list Z) : result (Z * Z) :=
  pair ← pairFor tokenA tokenB; getReservess pair.

(** ** UQ112x112 *)

Definition Q112 : Z := 5192296858534827628530496329220096.
Definition encode112 (x : Z) : result Z := ustore 224 (x * Q112).
Definition uqdiv (x y : Z) : result Z := div256 x y.

(** ** The constant product *)

(** The condition of the pair: the product of the reserves, without three thousandths of what came in, does not fall. *)
Definition product_kept (reserveIn reserveOut amountIn amountOut : Z) : Prop :=
  reserveIn * reserveOut * 1000 * 1000 ≤ ((reserveIn + amountIn) * 1000 - amountIn * 3) * ((reserveOut - amountOut) * 1000).

#[export] Instance product_kept_dec a b c d : Decision (product_kept a b c d).
Proof. unfold product_kept. apply _. Defined.

Lemma product_kept_iff rIn rOut aIn out :
  product_kept rIn rOut aIn out ↔ out * (rIn * 1000 + aIn * 997) ≤ aIn * 997 * rOut.
Proof. unfold product_kept. split; intros; nia. Qed.

Lemma mul256_ok a b : 0 ≤ a * b < 2 ^ 256 → mul256 a b = Ok (a * b).
Proof. intros. by apply ustore_in. Qed.
Lemma add256_ok a b : 0 ≤ a + b < 2 ^ 256 → add256 a b = Ok (a + b).
Proof. intros. by apply ustore_in. Qed.
Lemma sub256_ok a b : 0 ≤ a - b < 2 ^ 256 → sub256 a b = Ok (a - b).
Proof. intros. by apply ustore_in. Qed.
Lemma div256_ok a b : b ≠ 0 → div256 a b = Ok (a / b).
Proof. intros. unfold div256. by rewrite (proj2 (Z.eqb_neq _ _)). Qed.

Lemma mul256_inv a b c : mul256 a b = Ok c → c = a * b ∧ in_uint 256 (a * b).
Proof. intros H. by apply ustore_checked in H as [-> ?]. Qed.
Lemma add256_inv a b c : add256 a b = Ok c → c = a + b ∧ in_uint 256 (a + b).
Proof. intros H. by apply ustore_checked in H as [-> ?]. Qed.
Lemma sub256_inv a b c : sub256 a b = Ok c → c = a - b ∧ in_uint 256 (a - b).
Proof. intros H. by apply ustore_checked in H as [-> ?]. Qed.
Lemma div256_inv a b c : div256 a b = Ok c → b ≠ 0 ∧ c = a / b.
Proof. unfold div256. destruct (Z.eqb_spec b 0); [done|]. by intros [= <-]. Qed.

(** What [getAmountOut] computes when it returns. *)
Lemma getAmountOut_value aIn rIn rOut out :
  getAmountOut aIn rIn rOut = Ok out →
  aIn ≠ 0 ∧ rIn ≠ 0 ∧ rOut ≠ 0 ∧ rIn * 1000 + aIn * 997 ≠ 0 ∧ out = aIn * 997 * rOut / (rIn * 1000 + aIn * 997).
Proof.
  unfold getAmountOut. destruct (Z.eqb_spec aIn 0); [done|]. cbn [throw_if]. rewrite result_bind_Ok.
  destruct (Z.eqb_spec rIn 0); [done|]. destruct (Z.eqb_spec rOut 0); [done|]. cbn [orb throw_if]. rewrite result_bind_Ok.
  intros (w & [-> _]%mul256_inv & H)%result_bind_ok. apply result_bind_ok in H as (num & [-> _]%mul256_inv & H).
  apply result_bind_ok in H as (x & [-> _]%mul256_inv & H). apply result_bind_ok in H as (d & [-> _]%add256_inv & [Hd ->]%div256_inv).
  done.
Qed.

(** On reserves and amounts of 112 bits, the width of the pair, nothing overflows. *)
Lemma getAmountOut_ok aIn rIn rOut :
  0 < aIn < 2 ^ 112 → 0 < rIn < 2 ^ 112 → 0 < rOut < 2 ^ 112 →
  getAmountOut aIn rIn rOut = Ok (aIn * 997 * rOut / (rIn * 1000 + aIn * 997)).
Proof.
  intros Ha Hi Ho. unfold getAmountOut. rewrite !(proj2 (Z.eqb_neq _ _)) by lia. cbn [orb throw_if]. rewrite !result_bind_Ok.
  assert (H1 : aIn * 997 * rOut < 2 ^ 112 * 997 * 2 ^ 112) by (apply Z.mul_lt_mono_nonneg; lia).
  rewrite (mul256_ok aIn 997), result_bind_Ok by lia. rewrite (mul256_ok _ rOut), result_bind_Ok by lia.
  rewrite (mul256_ok rIn 1000), result_bind_Ok by lia. rewrite add256_ok, result_bind_Ok by lia. apply div256_ok. lia.
Qed.

Lemma getAmountOut_best aIn rIn rOut :
  0 < aIn < 2 ^ 112 → 0 < rIn < 2 ^ 112 → 0 < rOut < 2 ^ 112 →
  ∃ out, getAmountOut aIn rIn rOut = Ok out ∧ 0 ≤ out < rOut ∧ ∀ out', product_kept rIn rOut aIn out' ↔ out' ≤ out.
Proof.
  intros Ha Hi Ho. eexists. split; [by apply getAmountOut_ok|]. set (D := rIn * 1000 + aIn * 997). assert (HD : 0 < D) by lia.
  assert (Hk : ∀ out', product_kept rIn rOut aIn out' ↔ out' ≤ aIn * 997 * rOut / D).
  { intros out'. rewrite product_kept_iff. fold D. split; intros H.
    - apply Z.div_le_lower_bound; lia.
    - assert (Hm := Z.mul_div_le (aIn * 997 * rOut) D HD). nia. }
  split; [|done]. split; [apply Z.div_pos; nia|]. apply Z.div_lt_upper_bound; [done|]. unfold D. nia.
Qed.

Lemma getAmountOut_product aIn rIn rOut :
  0 < aIn < 2 ^ 112 → 0 < rIn < 2 ^ 112 → 0 < rOut < 2 ^ 112 →
  ∃ out, getAmountOut aIn rIn rOut = Ok out ∧ 0 ≤ out < rOut ∧ product_kept rIn rOut aIn out.
Proof.
  intros Ha Hi Ho. destruct (getAmountOut_best aIn rIn rOut Ha Hi Ho) as (out & E & H & Hk). exists out. split; [done|]. split; [done|].
  by apply Hk.
Qed.

(** [getAmountOut] never throws on values of the pair's width; what it returns leaves something in the pool and keeps the
    product, and it is the most that does. *)
Theorem getAmountOut_optimal aIn rIn rOut :
  0 < aIn < 2 ^ 112 → 0 < rIn < 2 ^ 112 → 0 < rOut < 2 ^ 112 →
  ∃ out, getAmountOut aIn rIn rOut = Ok out ∧ 0 ≤ out < rOut ∧ ∀ out', product_kept rIn rOut aIn out' ↔ out' ≤ out.
Proof. apply getAmountOut_best. Qed.

Lemma getAmountIn_value out rIn rOut aIn :
  getAmountIn out rIn rOut = Ok aIn → 0 ≤ rIn → 0 ≤ out → 0 ≤ rOut →
  0 < out < rOut ∧ 0 < rIn ∧ aIn = rIn * out * 1000 / ((rOut - out) * 997) + 1.
Proof.
  unfold getAmountIn. intros H Hr Ho HR. destruct (Z.eqb_spec out 0); [done|]. cbn [throw_if] in H. rewrite result_bind_Ok in H.
  destruct (Z.eqb_spec rIn 0); [done|]. destruct (Z.eqb_spec rOut 0); [done|]. cbn [orb throw_if] in H. rewrite result_bind_Ok in H.
  apply result_bind_ok in H as (x & [-> _]%mul256_inv & H). apply result_bind_ok in H as (nu & [-> _]%mul256_inv & H).
  apply result_bind_ok in H as (y & [-> Hy]%sub256_inv & H). apply result_bind_ok in H as (d & [-> _]%mul256_inv & H).
  apply result_bind_ok in H as (q & [Hd ->]%div256_inv & [-> _]%add256_inv). unfold in_uint in Hy. split_and!; lia.
Qed.

(** What [getAmountIn] asks for keeps the product, and every amount smaller by more than one does not; paying it gives
    back at least what was wanted. *)
Theorem getAmountIn_sufficient out rIn rOut aIn :
  getAmountIn out rIn rOut = Ok aIn → 0 ≤ rIn < 2 ^ 112 → 0 ≤ out → 0 ≤ rOut < 2 ^ 112 →
  product_kept rIn rOut aIn out ∧ (∀ y, 0 ≤ y < aIn - 1 → ¬ product_kept rIn rOut y out) ∧
  (aIn < 2 ^ 112 → ∃ out', getAmountOut aIn rIn rOut = Ok out' ∧ out ≤ out' < rOut).
Proof.
  intros H Hr Ho HR. destruct (getAmountIn_value _ _ _ _ H ltac:(lia) ltac:(lia) ltac:(lia)) as (Ho' & Hr' & Ha).
  set (D := (rOut - out) * 997) in *. assert (HD : 0 < D) by lia.
  assert (Hdm := Z.div_mod (rIn * out * 1000) D ltac:(lia)). assert (Hmb := Z.mod_pos_bound (rIn * out * 1000) D HD).
  assert (Hpos : 0 ≤ rIn * out * 1000 / D) by (apply Z.div_pos; nia).
  set (q := rIn * out * 1000 / D) in *. set (r := (rIn * out * 1000) mod D) in *.
  assert (Hk : product_kept rIn rOut aIn out) by (apply product_kept_iff; subst aIn; unfold D in *; nia).
  split; [done|]. split.
  - intros y Hy Hc%product_kept_iff. assert (y ≤ q - 1) by lia. unfold D in *. nia.
  - intros Hb. destruct (getAmountOut_best aIn rIn rOut) as (out' & -> & Hout & Hopt); [lia..|].
    exists out'. split; [done|]. split; [by apply Hopt|lia].
Qed.

Lemma quote_rounds amountA reserveA reserveB b :
  quote amountA reserveA reserveB = Ok b → 0 < reserveA → b * reserveA ≤ amountA * reserveB < (b + 1) * reserveA.
Proof.
  unfold quote. intros (u & _ & H)%result_bind_ok Hr. apply result_bind_ok in H as (u' & _ & H).
  apply result_bind_ok in H as (x & [-> _]%mul256_inv & [Hd ->]%div256_inv).
  assert (H1 := Z.mul_div_le (amountA * reserveB) reserveA Hr). assert (H2 := Z.mul_succ_div_gt (amountA * reserveB) reserveA Hr). lia.
Qed.

(** [quote] is the exact ratio, rounded down. *)
Theorem quote_ratio amountA reserveA reserveB b :
  quote amountA reserveA reserveB = Ok b → 0 < reserveA → b * reserveA ≤ amountA * reserveB < (b + 1) * reserveA.
Proof. apply quote_rounds. Qed.

(** ** Paths *)

Lemma amounts_out_steps reserves amount path amounts :
  amounts_out reserves amount path = Ok amounts → path ≠ [] →
  length amounts = length path ∧ head amounts = Some amount ∧
  ∀ i a b x y, path !! i = Some a → path !! S i = Some b → amounts !! i = Some x → amounts !! S i = Some y →
    ∃ rA rB, reserves a b = Ok (rA, rB) ∧ getAmountOut x rA rB = Ok y.
Proof.
  revert amount amounts. induction path as [|a path IH]; [done|]. intros amount amounts H _.
  destruct path as [|b path]; cbn [amounts_out] in H.
  - injection H as <-. split; [done|]. split; [done|]. by intros [|i] a' b' x y _.
  - apply result_bind_ok in H as ([rA rB] & Hres & H). apply result_bind_ok in H as (next & Hnext & H).
    apply result_bind_ok in H as (rest & Hrest & [= <-]). destruct (IH _ _ Hrest) as (Hl & Hh & Hsteps); [done|].
    split; [cbn in *; lia|]. split; [done|]. intros [|i] a' b' x y.
    + cbn. intros [= <-] [= <-] [= <-] Hy. exists rA, rB. split; [done|].
      destruct rest as [|z rest]; [done|]. cbn in Hh, Hy. by simplify_eq.
    + cbn [lookup list_lookup]. apply Hsteps.
Qed.

(** Along a path every amount is what the pair of its step gives for the one before. *)
Theorem getAmountsOut_steps reserves amountIn path amounts :
  getAmountsOut reserves amountIn path = Ok amounts →
  (2 ≤ length path)%nat ∧ length amounts = length path ∧ head amounts = Some amountIn ∧
  ∀ i a b x y, path !! i = Some a → path !! S i = Some b → amounts !! i = Some x → amounts !! S i = Some y →
    ∃ rA rB, reserves a b = Ok (rA, rB) ∧ getAmountOut x rA rB = Ok y.
Proof.
  unfold getAmountsOut. destruct (Nat.ltb_spec (length path) 2); [done|]. cbn [throw_if]. rewrite result_bind_Ok. intros H'.
  split; [done|]. apply amounts_out_steps; [done|]. destruct path; [cbn in *; lia|done].
Qed.

(** [getReserves] does not put the reserves in the order of the tokens it is asked for: as the factory names one pair for
    both orders, a trade is priced as its opposite. *)
Theorem getReserves_unordered pairFor getReservess tokenA tokenB amount :
  pairFor tokenA tokenB = pairFor tokenB tokenA →
  getAmountsOut (getReserves pairFor getReservess) amount [tokenA; tokenB] =
  getAmountsOut (getReserves pairFor getReservess) amount [tokenB; tokenA].
Proof. intros H. unfold getAmountsOut. cbn [length Nat.ltb Nat.leb throw_if amounts_out]. unfold getReserves. by rewrite H. Qed.

Theorem sortTokens_sorted tokenA tokenB t0 t1 :
  sortTokens tokenA tokenB = Ok (t0, t1) →
  t0 ≠ t1 ∧ t0 ≠ zero_address ∧ ((t0, t1) = (tokenA, tokenB) ∨ (t0, t1) = (tokenB, tokenA)) ∧
  sortTokens tokenB tokenA = Ok (t0, t1).
Proof.
  unfold sortTokens. destruct (decide (tokenA = tokenB)) as [->|Hne]; [rewrite (bool_decide_true (tokenB = tokenB)) by done; by intros [=]|].
  rewrite (bool_decide_false (tokenA = tokenB)), (bool_decide_false (tokenB = tokenA)) by congruence. cbn [throw_if]. rewrite !result_bind_Ok.
  assert (Hswap : (if bytes_ltb tokenB tokenA then (tokenB, tokenA) else (tokenA, tokenB)) =
                  (if bytes_ltb tokenA tokenB then (tokenA, tokenB) else (tokenB, tokenA))).
  { destruct (bytes_ltb tokenA tokenB) eqn:E1, (bytes_ltb tokenB tokenA) eqn:E2; try done.
    - by rewrite (bytes_ltb_asym _ _ E1) in E2.
    - by destruct Hne; apply bytes_ltb_total. }
  rewrite Hswap. set (ret := if bytes_ltb tokenA tokenB then _ else _). intros H. split_and!; [..|done].
  all: apply result_bind_ok in H as (u & Hz%throw_if_ok%bool_decide_eq_false & [= Hret]).
  all: subst ret; destruct (bytes_ltb tokenA tokenB); simplify_eq/=; auto.
Qed.

(** ** Witnesses *)

Lemma getAmountOut_optimal_witness :
  getAmountOut 1000 1000000 1000000 = Ok 996 ∧
  ∃ out, getAmountOut 1000 1000000 1000000 = Ok out ∧ 0 ≤ out < 1000000 ∧
    ∀ out', product_kept 1000000 1000000 1000 out' ↔ out' ≤ out.
Proof. split; [by vm_compute|]. apply getAmountOut_optimal; lia. Defined.

Lemma getAmountIn_sufficient_witness :
  getAmountIn 996 1000000 1000000 = Ok 1000 ∧
  product_kept 1000000 1000000 1000 996 ∧ (∀ y, 0 ≤ y < 1000 - 1 → ¬ product_kept 1000000 1000000 y 996) ∧
  (1000 < 2 ^ 112 → ∃ out', getAmountOut 1000 1000000 1000000 = Ok out' ∧ 996 ≤ out' < 1000000).
Proof. split; [by vm_compute|]. apply getAmountIn_sufficient; [by vm_compute|lia..]. Defined.

Lemma quote_ratio_witness : quote 7 3 5 = Ok 11 ∧ 11 * 3 ≤ 7 * 5 < (11 + 1) * 3.
Proof. split; [by vm_compute|]. apply quote_ratio; [by vm_compute|lia]. Defined.

(** Two pools in a row. *)
Definition toy_token (n : Z) : list Z := replicate 19 0 ++ [n].
Definition toy_reserves (a b : list Z) : result (Z * Z) := if bytes_ltb a b then Ok (1000000, 2000000) else Ok (2000000, 1000000).

Lemma getAmountsOut_steps_witness :
  getAmountsOut toy_reserves 1000 [toy_token 1; toy_token 2; toy_token 3] = Ok [1000; 1992; 3964] ∧
  (2 ≤ 3)%nat ∧ length [1000; 1992; 3964] = 3%nat ∧ head [1000; 1992; 3964] = Some 1000 ∧
  ∀ i a b x y, [toy_token 1; toy_token 2; toy_token 3] !! i = Some a → [toy_token 1; toy_token 2; toy_token 3] !! S i = Some b →
    [1000; 1992; 3964] !! i = Some x → [1000; 1992; 3964] !! S i = Some y →
    ∃ rA rB, toy_reserves a b = Ok (rA, rB) ∧ getAmountOut x rA rB = Ok y.
Proof. split; [by vm_compute|]. apply (getAmountsOut_steps toy_reserves 1000 [toy_token 1; toy_token 2; toy_token 3]). by vm_compute. Defined.

Lemma sortTokens_sorted_witness :
  sortTokens (toy_token 2) (toy_token 1) = Ok (toy_token 1, toy_token 2) ∧
  toy_token 1 ≠ toy_token 2 ∧ toy_token 1 ≠ zero_address ∧
  ((toy_token 1, toy_token 2) = (toy_token 2, toy_token 1) ∨ (toy_token 1, toy_token 2) = (toy_token 1, toy_token 2)) ∧
  sortTokens (toy_token 1) (toy_token 2) = Ok (toy_token 1, toy_token 2).
Proof. split; [by vm_compute|]. apply (sortTokens_sorted (toy_token 2) (toy_token 1)). by vm_compute. Defined.

(** Selling a thousand of the dearer token, or of the cheaper one, for the other: the same price. *)
Lemma getReserves_unordered_witness :
  getAmountsOut (getReserves (λ _ _, Ok []) (λ _, Ok (1000000, 2000000))) 1000 [toy_token 1; toy_token 2] = Ok [1000; 1992] ∧
  getAmountsOut (getReserves (λ _ _, Ok []) (λ _, Ok (1000000, 2000000))) 1000 [toy_token 1; toy_token 2] =
  getAmountsOut (getReserves (λ _ _, Ok []) (λ _, Ok (1000000, 2000000))) 1000 [toy_token 2; toy_token 1].
Proof. split; [by vm_compute|]. by apply getReserves_unordered. Defined.
