(* ===== verification/Abi.v ===== *)
(** * Abi: Solidity ABI types, encoding and decoding (src/contract/abi.{h,cpp})

    The templates of abi.h are selected by the C++ type at compile time: [abi_ty] is the inductive
    type of the supported types, and [Encoder::TypeEncoder<T>::encode] and
    [Decoder::TypeDecoder<T>::decode] are functions of it.  Offsets and lengths are [uint64_t] and
    wrap; a read past the end of the [std::span] is [Undefined]. *)

From stdpp Require Import pretty.
From S2P Require Import Prelude Bytes SizedInts Hashing.

#[warnings="-register-all"]
Inductive abi_ty : Type :=
| TUint (w : Z)           (* uint8_t, uint16_t, uint24_t, ..., uint256_t *)
| TInt (w : Z)            (* int8_t, ..., int256_t *)
| TAddress
| TBool
| THash
| TBytes
| TString
| TEnum                   (* any C++ enum, encoded as uint8_t *)
| TVector (t : abi_ty)    (* std::vector<T> *)
| TTuple (ts : list abi_ty). (* std::tuple<Ts...> *)

#[warnings="-register-all"]
Inductive abi_val : Type :=
| VInt (z : Z)            (* integers and enums *)
| VBool (b : bool)
| VBytes (bs : list Z)    (* Address, Hash, Bytes, std::string *)
| VList (vs : list abi_val). (* std::vector, std::tuple *)

(** ** Types *)

Fixpoint isDynamic (t : abi_ty) : bool :=
  match t with
  | TBytes | TString | TVector _ => true
  | TTuple ts => existsb isDynamic ts (* isTupleOfDynamicTypes *)
  | _ => false
  end.

Definition calculateOffsetForType (t : abi_ty) : nat :=
  if isDynamic t then 32
  else match t with TTuple ts => 32 * length ts | _ => 32 end.

Definition calculateTotalOffset (ts : list abi_ty) : nat :=
  foldr (λ t n, (calculateOffsetForType t + n)%nat) 0%nat ts.

(** [result += name + ","] for each name, then [pop_back] if anything was written. *)
Definition comma_list (names : list string) : string :=
  let result := foldl (λ r n, r +:+ n +:+ ",")%string ""%string names in
  String.substring 0 (String.length result - 1) result.

(** [FunctorEncoder::TypeName<T>::get()]. *)
Fixpoint TypeName (t : abi_ty) : string :=
  match t with
  | TUint w => "uint" +:+ pretty w
  | TInt w => "int" +:+ pretty w
  | TAddress => "address"
  | TBool => "bool"
  | THash => "bytes32"
  | TBytes => "bytes"
  | TString => "string"
  | TEnum => "uint8"
  | TVector t => TypeName t +:+ "[]"
  | TTuple ts => "(" +:+ comma_list (map TypeName ts) +:+ ")"
  end%string.

Definition listArgumentTypes (ts : list abi_ty) : string := comma_list (map TypeName ts).

Definition string_bytes (s : string) : list Z :=
  map (λ c, Z.of_nat (Ascii.nat_of_ascii c)) (String.list_ascii_of_string s).

(** [FunctorEncoder::encode<Args...>(funcSig)] and [EventEncoder::encodeSignature<Args...>]. *)
Definition functor_encode `{Keccak} (funcSig : string) (ts : list abi_ty) : list Z :=
  take 4 (sha3 (string_bytes (funcSig +:+ "(" +:+ listArgumentTypes ts +:+ ")")%string)).

Definition encodeSignature `{Keccak} (funcSig : string) (ts : list abi_ty) : list Z :=
  sha3 (string_bytes (funcSig +:+ "(" +:+ listArgumentTypes ts +:+ ")")%string).

(** ** Encoding *)

Section encoder.
Context `{BoostBits}.

Definition encodeUint (num : Z) : list Z := copy_tail 32 (replicate 32 0) (export_bits num).

(** The negative case complements the in-memory bytes of the magnitude and adds one; the other case
    copies the exported bytes backwards from the end. *)
Definition encodeInt (num : Z) : list Z :=
  if num <? 0 then
    let mem := le_bytes 32 (- num) in
    int256_increment 32 31 (reverse (map (λ b, 255 - b) mem))
  else copy_tail 32 (replicate 32 0) (export_bits num).

Definition word (n : nat) : list Z := padLeftBytes (uintToBytes (Z.of_nat n)) 32 0.

(** [int pad = 0; do { pad += 32; } while (pad < bytes.size());] *)
Fixpoint pad_loop (fuel pad size : nat) : nat :=
  match fuel with
  | O => pad
  | S fuel => let pad := (pad + 32)%nat in if (pad <? size)%nat then pad_loop fuel pad size else pad
  end.

Definition pad_of (size : nat) : nat := pad_loop (S size) 0 size.

Definition encode_bytes (bytes : list Z) : list Z :=
  word (length bytes) ++ padRightBytes bytes (pad_of (length bytes)) 0.

(** The encodeItem lambda of [encodeData] and of the tuple encoder: [result], [nextOffset] and
    [dynamicBytes] are updated for each item, given as whether it is dynamic and its encoding. *)
Definition encodeItem (s : list Z * nat * list Z) (item : bool * list Z) : list Z * nat * list Z :=
  let '(result, nextOffset, dynamicBytes) := s in
  if item.1
  then (result ++ word nextOffset, (nextOffset + length item.2)%nat, dynamicBytes ++ item.2)
  else (result ++ item.2, nextOffset, dynamicBytes).

Definition encode_items (nextOffset : nat) (items : list (bool * list Z)) : list Z :=
  let '(result, _, dynamicBytes) := foldl encodeItem ([], nextOffset, []) items in
  result ++ dynamicBytes.

(** The loop of [TypeEncoder<std::vector<T>>] over dynamic elements: [dynamicOffSets], [nextOffset]
    and [dynamicData]. *)
Definition encodeElem (s : list Z * nat * list Z) (dynamicBytes : list Z) : list Z * nat * list Z :=
  let '(dynamicOffSets, nextOffset, dynamicData) := s in
  (dynamicOffSets ++ uint256ToBytes (Z.of_nat nextOffset), (nextOffset + length dynamicBytes)%nat,
   dynamicData ++ dynamicBytes).

Definition encode_vector (dynamic : bool) (elems : list (list Z)) : list Z :=
  if dynamic then
    let '(dynamicOffSets, _, dynamicData) := foldl encodeElem ([], (32 * length elems)%nat, []) elems in
    word (length elems) ++ dynamicOffSets ++ dynamicData
  else word (length elems) ++ concat elems.

(** [TypeEncoder<T>::encode]; a value that is not of the type does not occur in C++. *)
Fixpoint encode (t : abi_ty) (v : abi_val) : list Z :=
  match t, v with
  | TUint _, VInt z => encodeUint z
  | TInt _, VInt z => encodeInt z
  | TEnum, VInt z => encodeUint z
  | TAddress, VBytes bs => padLeftBytes bs 32 0
  | TBool, VBool b => padLeftBytes (if b then [1] else [0]) 32 0
  | THash, VBytes bs => bs
  | TBytes, VBytes bs => encode_bytes bs
  | TString, VBytes bs => encode_bytes bs
  | TTuple ts, VList vs =>
      encode_items (calculateTotalOffset ts)
        (zip_with (λ t v, (isDynamic t, encode t v)) ts vs)
  | TVector t, VList vs => encode_vector (isDynamic t) (map (encode t) vs)
  | _, _ => []
  end.

(** [Encoder::encodeData(first, rest...)]. *)
Definition encodeData (ts : list abi_ty) (vs : list abi_val) : list Z :=
  encode_items (calculateTotalOffset ts) (zip_with (λ t v, (isDynamic t, encode t v)) ts vs).

(** [EventEncoder::TypeEncoder<Bytes>] and [<std::string>]: padded, without the length. *)
Definition event_encode_bytes (bytes : list Z) : list Z := padRightBytes bytes (pad_of (length bytes)) 0.
End encoder.

(** ** Decoding *)

(** Addition of [uint64_t]. *)
Definition add64 (a b : Z) : Z := (a + b) mod 2 ^ 64.

Definition too_short (bytes : list Z) (stop : Z) : result unit :=
  throw_if (Z.of_nat (length bytes) <? stop) LengthError.

(** The bytes from [begin() + off] to [begin() + off + len]. *)
Definition range (bytes : list Z) (off len : Z) : result (list Z) :=
  if off + len <=? Z.of_nat (length bytes)
  then Ok (take (Z.to_nat len) (drop (Z.to_nat off) bytes))
  else Throw Undefined.

(** The conversions [static_cast<T>] from a 256-bit integer. *)
Definition cast_uint (w z : Z) : result Z :=
  if native_width w then (if z <=? umax w then Ok z else Throw RangeError) else ustore w z.

Definition cast_int (w z : Z) : result Z :=
  if (- 2 ^ (w - 1) <=? z) && (z <? 2 ^ (w - 1)) then Ok z
  else if native_width w then Throw RangeError
  else if Z.abs z <? 2 ^ w then Ok z else Throw OverflowError.

Section decoder.
Context `{BoostBits}.

(** The [uint64_t] in the last bytes of a word at [index]. *)
Definition decode_word (bytes : list Z) (index : Z) : result Z :=
  tmp ← range bytes index 32; fromBigEndian 64 tmp.

Definition decodeUint (bytes : list Z) (index : Z) : result (Z * Z) :=
  _ ← too_short bytes (index + 32);
  w ← range bytes index 32; z ← bytesToUint256 w; Ok (z, index + 32).

Definition decodeInt (bytes : list Z) (index : Z) : result (Z * Z) :=
  _ ← too_short bytes (index + 32);
  w ← range bytes index 32; z ← bytesToInt256 w; Ok (z, index + 32).

(** [TypeDecoder<Bytes>] and [TypeDecoder<std::string>]. *)
Definition decode_bytes (bytes : list Z) (index : Z) : result (list Z * Z) :=
  _ ← too_short bytes (index + 32);
  bytesStart ← decode_word bytes index;
  _ ← too_short bytes (add64 bytesStart 32);
  bytesLength ← decode_word bytes bytesStart;
  _ ← too_short bytes (add64 (add64 bytesStart 32) bytesLength);
  data ← range bytes (bytesStart + 32) bytesLength;
  Ok (data, index + 32).

Section loops.
Variable dec : abi_ty → list Z → Z → result (abi_val * Z).

(** [decodeTupleHelper] and [decodeTuple]: the items one after the other. *)
Fixpoint decode_seq (ts : list abi_ty) (bytes : list Z) (index : Z) : result (list abi_val * Z) :=
  match ts with
  | [] => Ok ([], index)
  | t :: ts =>
      '(v, index) ← dec t bytes index;
      '(vs, index) ← decode_seq ts bytes index;
      Ok (v :: vs, index)
  end.

(** [for (uint64_t i = 0; i < arrayLength; i++) retVector.emplace_back(...)]. *)
Fixpoint decode_vec (t : abi_ty) (n : nat) (bytes : list Z) (index : Z) : result (list abi_val) :=
  match n with
  | O => Ok []
  | S n =>
      '(v, index) ← dec t bytes index;
      vs ← decode_vec t n bytes index;
      Ok (v :: vs)
  end.
End loops.

(** [bytes.subspan(offset)]. *)
Definition subspan_from (bytes : list Z) (off : Z) : result (list Z) :=
  if off <=? Z.of_nat (length bytes) then Ok (drop (Z.to_nat off) bytes) else Throw Undefined.

Fixpoint decode (t : abi_ty) (bytes : list Z) (index : Z) : result (abi_val * Z) :=
  match t with
  | TUint w => '(z, index) ← decodeUint bytes index; z ← cast_uint w z; Ok (VInt z, index)
  | TInt w => '(z, index) ← decodeInt bytes index; z ← cast_int w z; Ok (VInt z, index)
  | TEnum => '(z, index) ← decodeUint bytes index; z ← cast_uint 8 z; Ok (VInt z, index)
  | TAddress =>
      _ ← too_short bytes (index + 32);
      a ← range bytes (index + 12) 20; Ok (VBytes a, index + 32)
  | THash =>
      _ ← too_short bytes (index + 32);
      h ← range bytes index 32; Ok (VBytes h, index + 32)
  | TBool =>
      _ ← too_short bytes (index + 32);
      b ← read_at bytes (Z.to_nat (index + 31)); Ok (VBool (b =? 1), index + 32)
  | TBytes | TString => '(data, index) ← decode_bytes bytes index; Ok (VBytes data, index)
  | TTuple ts =>
      if isDynamic (TTuple ts) then
        _ ← too_short bytes (index + 32);
        offset ← decode_word bytes index;
        view ← subspan_from bytes offset;
        '(vs, _) ← decode_seq decode ts view 0;
        Ok (VList vs, index + 32)
      else
        _ ← too_short bytes (index + 32 * Z.of_nat (length ts));
        '(vs, index) ← decode_seq decode ts bytes index;
        Ok (VList vs, index)
  | TVector t =>
      _ ← too_short bytes (index + 32);
      arrayStart ← decode_word bytes index;
      _ ← too_short bytes (add64 arrayStart 32);
      arrayLength ← decode_word bytes arrayStart;
      view ← subspan_from bytes (add64 arrayStart 32);
      vs ← decode_vec decode t (Z.to_nat arrayLength) view 0;
      Ok (VList vs, index + 32)
  end.

(** [Decoder::decodeData<Args...>(encodedData, index)]. *)
Definition decodeData (ts : list abi_ty) (encodedData : list Z) (index : Z) : result (list abi_val) :=
  match ts with
  | [] => Ok []
  | _ => '(vs, _) ← decode_seq decode ts encodedData index; Ok vs
  end.
End decoder.

(** ** Well-formed types and values *)

Fixpoint static_size (t : abi_ty) : nat :=
  match t with
  | TTuple ts => foldr (λ t n, (static_size t + n)%nat) 0%nat ts
  | _ => 32
  end.

Definition head_size (t : abi_ty) : nat := if isDynamic t then 32 else static_size t.

(** The offset [calculateTotalOffset] computes is where the dynamic parts start, or there are none:
    this holds but for a static tuple that holds a tuple, next to a dynamic type. *)
Definition offsets_exact (ts : list abi_ty) : bool :=
  negb (existsb isDynamic ts) || forallb (λ t, calculateOffsetForType t =? head_size t)%nat ts.

(** The types whose encoding is decoded correctly. [std::tuple<>] has no encoding. *)
Fixpoint encodable (t : abi_ty) : bool :=
  match t with
  | TTuple ts => negb (length ts =? 0)%nat && forallb encodable ts && offsets_exact ts
  | TVector t => encodable t
  | _ => true
  end.

Section all2.
Context {A B : Type} (f : A → B → bool).
Fixpoint all2 (xs : list A) (ys : list B) : bool :=
  match xs, ys with
  | [], [] => true
  | x :: xs, y :: ys => f x y && all2 xs ys
  | _, _ => false
  end.
End all2.

(** The values of a type.  An integer of a signed type is not a negative multiple of 256: those are
    the ones [bytesToInt256] decodes wrong. *)
Fixpoint has_type (t : abi_ty) (v : abi_val) : bool :=
  match t, v with
  | TUint w, VInt z => (0 <? w) && (w <=? 256) && (0 <=? z) && (z <? 2 ^ w)
  | TInt w, VInt z =>
      (0 <? w) && (w <=? 256) && (- 2 ^ (w - 1) <=? z) && (z <? 2 ^ (w - 1))
      && ((0 <=? z) || negb (z mod 256 =? 0))
  | TEnum, VInt z => (0 <=? z) && (z <? 256)
  | TAddress, VBytes bs => bool_decide (length bs = 20%nat) && bool_decide (bytes_ok bs)
  | THash, VBytes bs => bool_decide (length bs = 32%nat) && bool_decide (bytes_ok bs)
  | TBool, VBool _ => true
  | (TBytes | TString), VBytes bs => bool_decide (bytes_ok bs)
  | TVector t, VList vs => forallb (has_type t) vs
  | TTuple ts, VList vs => all2 has_type ts vs
  | _, _ => false
  end.

(** Induction on types with the hypothesis for every component of a tuple. *)
Section induction.
Variable P : abi_ty → Prop.
Hypothesis Huint : ∀ w, P (TUint w).
Hypothesis Hint : ∀ w, P (TInt w).
Hypothesis Haddress : P TAddress.
Hypothesis Hbool : P TBool.
Hypothesis Hhash : P THash.
Hypothesis Hbytes : P TBytes.
Hypothesis Hstring : P TString.
Hypothesis Henum : P TEnum.
Hypothesis Hvector : ∀ t, P t → P (TVector t).
Hypothesis Htuple : ∀ ts, Forall P ts → P (TTuple ts).

Fixpoint abi_ty_induction (t : abi_ty) : P t :=
  match t with
  | TUint w => Huint w
  | TInt w => Hint w
  | TAddress => Haddress
  | TBool => Hbool
  | THash => Hhash
  | TBytes => Hbytes
  | TString => Hstring
  | TEnum => Henum
  | TVector t => Hvector t (abi_ty_induction t)
  | TTuple ts =>
      Htuple ts ((fix go ts : Forall P ts :=
        match ts with
        | [] => Forall_nil_2 P
        | t :: ts => Forall_cons_2 P t ts (abi_ty_induction t) (go ts)
        end) ts)
  end.
End induction.

Lemma all2_Forall2 {A B} (f : A → B → bool) xs ys :
  all2 f xs ys = true ↔ Forall2 (λ x y, f x y = true) xs ys.
Proof.
  revert ys. induction xs as [|x xs IH]; intros [|y ys]; cbn; split; try done; try by inversion 1.
  - intros [H1 H2]%andb_true_iff. constructor; [done|]. by apply IH.
  - inversion 1; subst. apply andb_true_iff. split; [done|]. by apply IH.
Qed.

(** ** Words *)

Section words.
Context `{BoostBits}.

Lemma encodeUint_encode z : in_uint 256 z → encodeUint z = be_encode 32 z.
Proof. apply uint256ToBytes_encode. Qed.

Lemma int256_increment_step k j ret :
  int256_increment (S k) j ret =
    if ret !!! j =? 255 then int256_increment k (j - 1) (<[j := 0]> ret)
    else <[j := ret !!! j + 1]> ret.
Proof. done. Qed.

Lemma int256_increment_spec j ret :
  (j < length ret)%nat → bytes_ok ret →
  be_decode (take (S j) ret) + 1 < 256 ^ Z.of_nat (S j) →
  let r := int256_increment (S j) j ret in
  length r = length ret ∧ bytes_ok r ∧
  be_decode (take (S j) r) = be_decode (take (S j) ret) + 1 ∧ drop (S j) r = drop (S j) ret.
Proof.
  revert ret. induction j as [|j IH]; intros ret Hj Hok Hlt; cbn zeta;
    destruct (lookup_lt_is_Some_2 ret _ Hj) as [b Hb];
    assert (Hb' : is_byte b) by (by eapply Forall_lookup_1 in Hok);
    rewrite (take_S_r _ _ _ Hb), be_decode_app in Hlt |- *;
    change (be_decode [b]) with (0 * 256 + b) in *;
    rewrite int256_increment_step, (list_lookup_total_correct _ _ _ Hb).
  - rewrite take_0 in *. change (be_decode []) with 0 in *. cbn [length] in Hlt.
    destruct (Z.eqb_spec b 255) as [->|Hne]; [lia|].
    split; [apply length_insert|]. split; [apply Forall_insert; [done|unfold is_byte in *; lia]|].
    rewrite (take_S_r _ _ (b + 1)) by by apply list_lookup_insert_eq.
    rewrite be_decode_app. split; [|by rewrite drop_insert_lt by lia].
    rewrite take_0. unfold be_decode. cbn. lia.
  - destruct (Z.eqb_spec b 255) as [->|Hne].
    + set (ret' := <[S j:=0]> ret). replace (S j - 1)%nat with j by lia.
      assert (Ht : take (S j) ret' = take (S j) ret) by (by apply take_insert_ge).
      assert (Hok' : bytes_ok ret') by (apply Forall_insert; [done|unfold is_byte; lia]).
      assert (Hl' : length ret' = length ret) by apply length_insert.
      assert (Hbd := be_decode_bound (take (S j) ret) ltac:(by apply Forall_take)).
      rewrite length_take, Nat.min_l in Hbd by lia. cbn [length] in *.
      rewrite (Nat2Z.inj_succ (S j)), Z.pow_succ_r in Hlt by lia.
      destruct (IH ret') as (I1 & I2 & I3 & I4); [lia|done|rewrite Ht; lia|].
      set (r := int256_increment (S j) j ret') in *.
      split; [congruence|]. split; [done|].
      assert (Hrj : r !! S j = Some 0).
      { rewrite <- (Nat.add_0_r (S j)), <- lookup_drop, I4, lookup_drop, Nat.add_0_r.
        apply list_lookup_insert_eq. lia. }
      rewrite (take_S_r _ _ _ Hrj), be_decode_app, I3, Ht. split; [unfold be_decode at 2; cbn; lia|].
      replace (S (S j)) with (S j + 1)%nat by lia. rewrite <- !drop_drop, I4, !drop_drop.
      unfold ret'. by rewrite drop_insert_lt by lia.
    + split; [apply length_insert|]. split; [apply Forall_insert; [done|unfold is_byte in *; lia]|].
      rewrite (take_S_r _ _ (b + 1)) by by apply list_lookup_insert_eq.
      rewrite be_decode_app, take_insert_ge by lia. split; [|by rewrite drop_insert_lt by lia].
      change (be_decode [b + 1]) with (0 * 256 + (b + 1)). cbn [length]. lia.
Qed.

Lemma complement_decode bs : bytes_ok bs →
  be_decode (map (λ b, 255 - b) bs) = 256 ^ Z.of_nat (length bs) - 1 - be_decode bs.
Proof.
  induction 1 as [|b bs Hb Hbs IH]; [done|]. cbn [map].
  rewrite !be_decode_cons, IH, length_map. cbn [length].
  rewrite Nat2Z.inj_succ, Z.pow_succ_r by lia. lia.
Qed.

Lemma encodeInt_encode z :
  - 2 ^ 255 ≤ z < 2 ^ 255 → encodeInt z = be_encode 32 (z mod 2 ^ 256).
Proof.
  intros Hz. unfold encodeInt. destruct (Z.ltb_spec z 0) as [Hn|Hn].
  - replace (reverse (map (λ b, 255 - b) (le_bytes 32 (- z)))) with (map (λ b, 255 - b) (reverse (le_bytes 32 (- z)))) by apply fmap_reverse. change (reverse (le_bytes 32 (- z))) with (be_encode 32 (- z)).
    set (c := map _ _).
    assert (Hc : be_decode c = 2 ^ 256 - 1 + z).
    { unfold c. rewrite complement_decode, be_encode_length, be_decode_encode by apply be_encode_ok.
      change (256 ^ Z.of_nat 32) with (2 ^ 256). rewrite Z.mod_small by lia. lia. }
    assert (Hl : length c = 32%nat) by (unfold c; by rewrite length_map, be_encode_length).
    assert (Hok : bytes_ok c).
    { unfold c, bytes_ok. apply Forall_map. eapply Forall_impl; [apply be_encode_ok|].
      unfold is_byte. cbn. lia. }
    destruct (int256_increment_spec 31 c) as (I1 & I2 & I3 & _); [lia|done| |].
    { rewrite take_ge by lia. rewrite Hc. change (256 ^ Z.of_nat 32) with (2 ^ 256). lia. }
    rewrite !take_ge in I3 by (rewrite ?I1; lia).
    rewrite <- (be_encode_decode_n 32 (int256_increment 32 31 c)) by (done || lia).
    rewrite I3, Hc. f_equal.
    replace (z mod 2 ^ 256) with ((z + 1 * 2 ^ 256) mod 2 ^ 256) by (by rewrite Z.mod_add by lia).
    rewrite Z.mod_small by lia. lia.
  - rewrite Z.mod_small by lia. apply encodeUint_encode. unfold in_uint. lia.
Qed.
End words.

(** ** Reading what was written *)

Lemma range_drop bytes i (xs rest : list Z) n :
  (i ≤ length bytes)%nat → drop i bytes = xs ++ rest → n = Z.of_nat (length xs) →
  range bytes (Z.of_nat i) n = Ok xs.
Proof.
  intros Hi Hd ->. assert (Hl := f_equal length Hd). rewrite length_drop, length_app in Hl.
  unfold range. zcase; [|lia]. by rewrite !Nat2Z.id, Hd, take_app_length.
Qed.

Lemma too_short_drop bytes i (xs rest : list Z) stop :
  (i ≤ length bytes)%nat → drop i bytes = xs ++ rest → stop = Z.of_nat (i + length xs) →
  too_short bytes stop = Ok tt.
Proof.
  intros Hi Hd ->. assert (Hl := f_equal length Hd). rewrite length_drop, length_app in Hl.
  unfold too_short. zcase; [lia|done].
Qed.

Lemma subspan_from_nat bytes (i : nat) :
  (i ≤ length bytes)%nat → subspan_from bytes (Z.of_nat i) = Ok (drop i bytes).
Proof. intros Hi. unfold subspan_from. zcase; [|lia]. by rewrite Nat2Z.id. Qed.

Lemma add64_small a b : 0 ≤ a + b < 2 ^ 64 → add64 a b = a + b.
Proof. intros. unfold add64. by apply Z.mod_small. Qed.

Lemma word_encode n : Z.of_nat n < 2 ^ 256 → word n = be_encode 32 (Z.of_nat n).
Proof.
  intros Hn. assert (Hi : in_uint 256 (Z.of_nat n)) by (unfold in_uint; lia).
  assert (Hl := uintToBytes_length _ Hi).
  destruct (bytesRequired_spec _ Hi) as [Hb _]. unfold word, padLeftBytes.
  apply be_decode_inj.
  - apply Forall_app. split; [apply Forall_replicate; unfold is_byte; lia|apply uintToBytes_ok; lia].
  - apply be_encode_ok.
  - rewrite length_app, length_replicate, be_encode_length. lia.
  - rewrite be_decode_app, be_decode_replicate0, be_decode_uintToBytes, be_decode_encode by done.
    rewrite Z.mod_small; [lia|]. change (256 ^ Z.of_nat 32) with (2 ^ 256). lia.
Qed.

Lemma word_length n : Z.of_nat n < 2 ^ 256 → length (word n) = 32%nat.
Proof. intros. by rewrite word_encode, be_encode_length. Qed.

Lemma decode_word_drop bytes i n rest :
  (i ≤ length bytes)%nat → drop i bytes = word n ++ rest → Z.of_nat n < 2 ^ 64 →
  decode_word bytes (Z.of_nat i) = Ok (Z.of_nat n).
Proof.
  intros Hi Hd Hn. unfold decode_word.
  assert (Hw : word n = be_encode 32 (Z.of_nat n)) by (apply word_encode; lia).
  rewrite (range_drop bytes i (word n) rest) by (done || rewrite word_length; lia).
  rewrite result_bind_Ok, Hw. rewrite fromBigEndian_decode; [|apply be_encode_ok|];
    rewrite be_decode_encode, Z.mod_small; try done; change (256 ^ Z.of_nat 32) with (2 ^ 256); lia.
Qed.

Lemma pad_loop_spec fuel pad size :
  (size < fuel + pad)%nat → (pad_loop fuel pad size < 32 + max size (pad + 1))%nat ∧
  (size ≤ pad_loop fuel pad size)%nat.
Proof.
  revert pad. induction fuel as [|fuel IH]; intros pad Hf; cbn [pad_loop]; [lia|].
  destruct (Nat.ltb_spec (pad + 32) size) as [Hlt|Hge]; [|lia].
  destruct (IH (pad + 32)%nat) as [H1 H2]; lia.
Qed.

Lemma pad_of_ge size : (size ≤ pad_of size)%nat.
Proof. unfold pad_of. apply pad_loop_spec. lia. Qed.

(** ** The layout: heads, then the dynamic parts *)

Fixpoint heads (off : nat) (items : list (bool * list Z)) : list Z :=
  match items with
  | [] => []
  | (true, e) :: items => word off ++ heads (off + length e) items
  | (false, e) :: items => e ++ heads off items
  end.

Definition tails (items : list (bool * list Z)) : list Z :=
  concat (map (λ i, if i.1 : bool then i.2 else []) items).

Lemma encode_items_layout off items : encode_items off items = heads off items ++ tails items.
Proof.
  assert (Hgen : ∀ r d, let '(result, _, dynamicBytes) := foldl encodeItem (r, off, d) items in
    result = r ++ heads off items ∧ dynamicBytes = d ++ tails items).
  { revert off. induction items as [|[[] e] items IH]; intros off r d.
    - cbn. by rewrite !app_nil_r.
    - cbn [foldl encodeItem fst snd]. specialize (IH (off + length e)%nat (r ++ word off) (d ++ e)).
      destruct (foldl _ _ _) as [[? ?] ?]. destruct IH as [-> ->].
      cbn [heads]. unfold tails. cbn [map concat]. by rewrite <- !app_assoc.
    - cbn [foldl encodeItem fst snd]. specialize (IH off (r ++ e) d).
      destruct (foldl _ _ _) as [[? ?] ?]. destruct IH as [-> ->].
      cbn [heads]. unfold tails. cbn [map concat]. by rewrite <- !app_assoc. }
  unfold encode_items. specialize (Hgen [] []). destruct (foldl _ _ _) as [[? ?] ?].
  by destruct Hgen as [-> ->].
Qed.

Section layout.
Context `{BoostBits}.

Lemma encode_vector_layout dynamic elems :
  (dynamic = true → Z.of_nat (32 * length elems + length (concat elems)) < 2 ^ 256) →
  encode_vector dynamic elems =
    word (length elems) ++ heads (32 * length elems) (map (pair dynamic) elems)
    ++ tails (map (pair dynamic) elems).
Proof.
  intros Hlt. destruct dynamic; cbn [encode_vector]; [specialize (Hlt eq_refl)|].
  - assert (Hgen : ∀ off r d, Z.of_nat (off + length (concat elems)) < 2 ^ 256 →
      let '(result, _, dynamicBytes) := foldl encodeElem (r, off, d) elems in
      result = r ++ heads off (map (pair true) elems) ∧
      dynamicBytes = d ++ tails (map (pair true) elems)).
    { clear Hlt. induction elems as [|e elems IH]; intros off r d Hlt; [cbn; by rewrite !app_nil_r|].
      cbn [concat] in Hlt. rewrite length_app in Hlt. cbn [foldl encodeElem].
      specialize (IH (off + length e)%nat (r ++ uint256ToBytes (Z.of_nat off)) (d ++ e) ltac:(lia)).
      destruct (foldl _ _ _) as [[? ?] ?]. destruct IH as [-> ->].
      cbn [map heads]. unfold tails. cbn [map concat fst snd].
      rewrite uint256ToBytes_encode, word_encode by (unfold in_uint; lia). by rewrite <- !app_assoc. }
    specialize (Hgen (32 * length elems)%nat [] [] Hlt). destruct (foldl _ _ _) as [[? ?] ?].
    by destruct Hgen as [-> ->].
  - f_equal. generalize (32 * length elems)%nat as off. intros off. clear Hlt.
    unfold tails. induction elems as [|e elems IH]; [done|].
    cbn [map concat heads fst snd]. rewrite IH. by rewrite <- app_assoc.
Qed.
End layout.

(** ** Round trip *)

Section roundtrip.
Context `{BoostBits}.

Definition abi_items (ts : list abi_ty) (vs : list abi_val) : list (bool * list Z) :=
  zip_with (λ t v, (isDynamic t, encode t v)) ts vs.

(** A value is decoded from its encoding: a dynamic one from the offset word that points to it. *)
Definition dec_ok (t : abi_ty) (v : abi_val) : Prop :=
  ∀ bytes i, Z.of_nat (length bytes) < 2 ^ 64 → (i ≤ length bytes)%nat →
  if isDynamic t then
    ∀ off rest rest', (off ≤ length bytes)%nat →
      drop i bytes = word off ++ rest → drop off bytes = encode t v ++ rest' →
      decode t bytes (Z.of_nat i) = Ok (v, Z.of_nat (i + 32))
  else ∀ rest, drop i bytes = encode t v ++ rest →
      decode t bytes (Z.of_nat i) = Ok (v, Z.of_nat (i + length (encode t v))).

Lemma drop_bound (bytes : list Z) i xs rest :
  (i ≤ length bytes)%nat → drop i bytes = xs ++ rest → (i + length xs ≤ length bytes)%nat.
Proof. intros Hi Hd. apply (f_equal length) in Hd. rewrite length_drop, length_app in Hd. lia. Qed.

Lemma decode_seq_ok ts vs :
  Forall2 dec_ok ts vs → ∀ bytes i off rest rest',
  Z.of_nat (length bytes) < 2 ^ 64 → (i ≤ length bytes)%nat → (off ≤ length bytes)%nat →
  drop i bytes = heads off (abi_items ts vs) ++ rest →
  drop off bytes = tails (abi_items ts vs) ++ rest' →
  ∃ j, decode_seq decode ts bytes (Z.of_nat i) = Ok (vs, Z.of_nat j) ∧
       j = (i + length (heads off (abi_items ts vs)))%nat.
Proof.
  induction 1 as [|t v ts vs Htv _ IH]; intros bytes i off rest rest' Hlen Hi Hoff Hh Ht.
  - exists i. cbn. split; [done|lia].
  - specialize (Htv bytes i Hlen Hi). unfold abi_items in Hh, Ht |- *. cbn [zip_with] in Hh, Ht |- *.
    unfold tails in Ht. cbn [map concat fst snd] in Ht. cbn [decode_seq].
    destruct (isDynamic t); cbn [heads fst] in Hh, Ht |- *.
    + rewrite <- app_assoc in Hh, Ht. rewrite (Htv off _ _ Hoff Hh Ht), result_bind_Ok. cbv iota.
      assert (Hw : length (word off) = 32%nat) by (apply word_length; lia).
      assert (Hi' := drop_bound _ _ _ _ Hi Hh). assert (Hoff' := drop_bound _ _ _ _ Hoff Ht).
      apply drop_app_next in Hh, Ht. rewrite Hw in Hh, Hi'.
      destruct (IH bytes (i + 32)%nat (off + length (encode t v))%nat rest rest') as (j & -> & ->); try done.
      eexists. split; [done|]. unfold abi_items. rewrite length_app, Hw. lia.
    + rewrite <- app_assoc in Hh. rewrite (Htv _ Hh), result_bind_Ok. cbv iota.
      assert (Hi' := drop_bound _ _ _ _ Hi Hh). apply drop_app_next in Hh.
      destruct (IH bytes (i + length (encode t v))%nat off rest rest') as (j & -> & ->); try done.
      eexists. split; [done|]. unfold abi_items. rewrite length_app. lia.
Qed.

Lemma decode_vec_seq t n bytes i :
  decode_vec decode t n bytes i =
    ('(vs, _) ← decode_seq decode (replicate n t) bytes i; Ok vs).
Proof.
  revert i. induction n as [|n IH]; intros i; [done|]. cbn [decode_vec replicate decode_seq].
  destruct (decode t bytes i) as [[v j]|]; [|done]. rewrite !result_bind_Ok. rewrite IH.
  by destruct (decode_seq decode (replicate n t) bytes j) as [[vs k]|].
Qed.

Lemma abi_items_replicate t vs :
  map (pair (isDynamic t)) (map (encode t) vs) = abi_items (replicate (length vs) t) vs.
Proof. induction vs as [|v vs IH]; [done|]. cbn. by rewrite IH. Qed.

(** *** Sizes *)

Lemma encode_static_length t v :
  has_type t v = true → isDynamic t = false → length (encode t v) = static_size t.
Proof.
  assert (Hw : ∀ z, 0 ≤ z → z < 2 ^ 256 → length (encodeUint z) = 32%nat).
  { intros z ??. rewrite encodeUint_encode by done. apply be_encode_length. }
  revert v. induction t as [w|w| | | | | | |t IH|ts IH] using abi_ty_induction;
    intros [z|b|bs|vs] Ht Hd; cbn [has_type] in Ht; try done; cbn [encode static_size].
  - bool_to_Z. apply Hw; [done|]. assert (2 ^ w ≤ 2 ^ 256) by (apply Z.pow_le_mono_r; lia). lia.
  - bool_to_Z. assert (2 ^ (w - 1) ≤ 2 ^ 255) by (apply Z.pow_le_mono_r; lia).
    rewrite encodeInt_encode by lia. apply be_encode_length.
  - apply andb_true_iff in Ht as [Hl%bool_decide_eq_true _].
    unfold padLeftBytes. by rewrite length_app, length_replicate, Hl.
  - by destruct b.
  - by apply andb_true_iff in Ht as [Hl%bool_decide_eq_true _].
  - bool_to_Z. apply Hw; lia.
  - rewrite encode_items_layout. rewrite all2_Forall2 in Ht.
    generalize (calculateTotalOffset ts) as off. intros off.
    unfold tails. cbn [isDynamic] in Hd. revert vs Ht.
    induction IH as [|t ts IHt _ IHts]; intros vs Ht; inversion Ht as [|? v ? vs' Hv Hvs]; subst; [done|].
    cbn [existsb] in Hd. apply orb_false_iff in Hd as [Hd Hds].
    cbn [zip_with foldr]. rewrite Hd. cbn [heads map concat fst].
    rewrite <- (IHt v Hv Hd). specialize (IHts Hds vs' Hvs). rewrite <- IHts.
    rewrite <- app_assoc, length_app. cbn [app]. by rewrite length_app.
Qed.

Lemma heads_length off ts vs :
  Forall2 (λ t v, has_type t v = true) ts vs →
  Z.of_nat (off + length (tails (abi_items ts vs))) < 2 ^ 256 →
  length (heads off (abi_items ts vs)) = foldr (λ t n, (head_size t + n)%nat) 0%nat ts.
Proof.
  intros Ht. revert off. induction Ht as [|t v ts vs Htv _ IH]; intros off Hoff; [done|].
  unfold abi_items, tails in Hoff |- *. cbn [zip_with foldr map concat fst snd] in Hoff |- *.
  unfold head_size at 1. destruct (isDynamic t) eqn:Hd; cbn [heads].
  - rewrite length_app in Hoff. rewrite length_app, word_length, <- (IH (off + length (encode t v))%nat).
    + done.
    + unfold tails, abi_items. lia.
    + lia.
  - rewrite length_app, (encode_static_length t v), <- (IH off) by done. done.
Qed.

Lemma total_offset_heads ts :
  forallb (λ t, calculateOffsetForType t =? head_size t)%nat ts = true →
  calculateTotalOffset ts = foldr (λ t n, (head_size t + n)%nat) 0%nat ts.
Proof.
  induction ts as [|t ts IH]; [done|]. cbn [forallb calculateTotalOffset foldr].
  intros [->%Nat.eqb_eq H2]%andb_true_iff. f_equal. by apply IH.
Qed.

Lemma heads_static off off' ts vs :
  existsb isDynamic ts = false →
  heads off (abi_items ts vs) = heads off' (abi_items ts vs).
Proof.
  revert vs. induction ts as [|t ts IH]; intros [|v vs]; try done. cbn [existsb].
  intros [Hd Hds]%orb_false_iff. unfold abi_items. cbn [zip_with]. rewrite Hd. cbn [heads].
  f_equal. by apply IH.
Qed.

Lemma heads_length_ge off ts vs :
  Forall2 (λ t v, has_type t v = true) ts vs →
  (foldr (λ t n, (head_size t + n)%nat) 0%nat ts ≤ length (heads off (abi_items ts vs)))%nat.
Proof.
  intros Ht. revert off. induction Ht as [|t v ts vs Htv _ IH]; intros off; [done|].
  unfold abi_items. cbn [zip_with foldr]. unfold head_size at 1.
  destruct (isDynamic t) eqn:Hd; cbn [heads]; rewrite length_app.
  - specialize (IH (off + length (encode t v))%nat). unfold abi_items in IH.
    assert (32 ≤ length (word off))%nat; [|lia].
    unfold word, padLeftBytes. rewrite length_app, length_replicate. lia.
  - rewrite (encode_static_length t v) by done. specialize (IH off). unfold abi_items in IH. lia.
Qed.

(** The dynamic parts start where the offsets count from, if there are any. *)
Lemma items_start off ts vs :
  existsb isDynamic ts = false ∨ off = foldr (λ t n, (head_size t + n)%nat) 0%nat ts →
  Forall2 (λ t v, has_type t v = true) ts vs →
  Z.of_nat (length (heads off (abi_items ts vs)) + length (tails (abi_items ts vs))) < 2 ^ 256 →
  ∃ off', heads off (abi_items ts vs) = heads off' (abi_items ts vs) ∧
          off' = length (heads off' (abi_items ts vs)).
Proof.
  intros [Hs|Ho] Ht Hoff.
  - exists (length (heads off (abi_items ts vs))). split; [|f_equal]; by apply heads_static.
  - assert (Hge := heads_length_ge off ts vs Ht). rewrite <- Ho in Hge.
    exists off. split; [done|]. rewrite (heads_length off ts vs); [done|done|lia].
Qed.

Lemma offsets_exact_start ts :
  offsets_exact ts = true → existsb isDynamic ts = false ∨
    calculateTotalOffset ts = foldr (λ t n, (head_size t + n)%nat) 0%nat ts.
Proof.
  intros [He%negb_true_iff|He]%orb_true_iff; [by left|right]. by apply total_offset_heads.
Qed.

(** A block of items at [base] is decoded by reading its heads from the start of the block. *)
Lemma decode_block_ok off ts vs view rest :
  existsb isDynamic ts = false ∨ off = foldr (λ t n, (head_size t + n)%nat) 0%nat ts →
  Forall2 (λ t v, has_type t v = true) ts vs → Forall2 dec_ok ts vs →
  Z.of_nat (length view) < 2 ^ 64 →
  view = (heads off (abi_items ts vs) ++ tails (abi_items ts vs)) ++ rest →
  ∃ j, decode_seq decode ts view 0 = Ok (vs, Z.of_nat j) ∧
       j = length (heads off (abi_items ts vs)).
Proof.
  intros Hs Ht Hdec Hlen Hview.
  assert (Hl := f_equal length Hview). rewrite !length_app in Hl.
  destruct (items_start off ts vs Hs Ht ltac:(lia)) as (off' & Hh & Ho).
  rewrite Hh in Hview, Hl |- *. rewrite <- app_assoc in Hview.
  destruct (decode_seq_ok ts vs Hdec view 0 off' (tails (abi_items ts vs) ++ rest) rest)
    as (j & Hj & ->); [done|lia|lia|by rewrite drop_0| |by eexists].
  rewrite Ho, Hview at 1. by rewrite drop_app_length.
Qed.

(** *** Each type *)

Lemma word_read bytes i (w rest : list Z) :
  (i ≤ length bytes)%nat → drop i bytes = w ++ rest → length w = 32%nat →
  too_short bytes (Z.of_nat i + 32) = Ok tt ∧ range bytes (Z.of_nat i) 32 = Ok w.
Proof.
  intros Hi Hd Hw. split; [apply (too_short_drop bytes i w rest)|apply (range_drop bytes i w rest)];
    done || lia.
Qed.

Lemma decodeUint_ok bytes i z rest :
  in_uint 256 z → (i ≤ length bytes)%nat → drop i bytes = encodeUint z ++ rest →
  decodeUint bytes (Z.of_nat i) = Ok (z, Z.of_nat (i + 32)).
Proof.
  intros Hz Hi Hd. rewrite encodeUint_encode in Hd by done.
  destruct (word_read _ _ _ _ Hi Hd (be_encode_length _ _)) as [H1 H2].
  unfold decodeUint. rewrite H1, result_bind_Ok, H2, result_bind_Ok.
  rewrite <- (uint256ToBytes_encode z Hz), uint256_bytes_roundtrip, result_bind_Ok by done.
  do 2 f_equal. lia.
Qed.

Lemma be_encode_last n i : be_encode (S n) i !!! n = i mod 256.
Proof.
  unfold be_encode. cbn [le_bytes]. rewrite reverse_cons, land_255.
  apply list_lookup_total_correct. rewrite lookup_app_r; rewrite length_reverse, le_bytes_length; [|done].
  by rewrite Nat.sub_diag.
Qed.

Lemma decodeInt_ok bytes i z rest :
  - 2 ^ 255 ≤ z < 2 ^ 255 → 0 ≤ z ∨ z mod 256 ≠ 0 →
  (i ≤ length bytes)%nat → drop i bytes = encodeInt z ++ rest →
  decodeInt bytes (Z.of_nat i) = Ok (z, Z.of_nat (i + 32)).
Proof.
  intros Hz Hz' Hi Hd. rewrite encodeInt_encode in Hd by done.
  destruct (word_read _ _ _ _ Hi Hd (be_encode_length _ _)) as [H1 H2].
  unfold decodeInt. rewrite H1, result_bind_Ok, H2, result_bind_Ok.
  assert (Hu := Z.mod_pos_bound z (2 ^ 256) ltac:(lia)).
  assert (Hdec : be_decode (be_encode 32 (z mod 2 ^ 256)) = z mod 2 ^ 256).
  { rewrite be_decode_encode. change (256 ^ Z.of_nat 32) with (2 ^ 256). apply Z.mod_small; lia. }
  assert (Hval : int256_of (z mod 2 ^ 256) = z ∧ (0 ≤ z → z mod 2 ^ 256 < 2 ^ 255)).
  { unfold int256_of. destruct (Z.ltb_spec z 0) as [Hn|Hn].
    - replace (z mod 2 ^ 256) with (z + 2 ^ 256);
        [|rewrite <- (Z.mod_add z 1) by lia; rewrite Z.mod_small; lia].
      zcase; lia.
    - rewrite Z.mod_small by lia. zcase; lia. }
  rewrite bytesToInt256_exact; rewrite ?Hdec, ?result_bind_Ok; [|apply be_encode_ok|apply be_encode_length|].
  - rewrite (proj1 Hval). do 2 f_equal. lia.
  - destruct Hz' as [Hp|Hm]; [left; by apply Hval|right]. rewrite be_encode_last.
    replace ((z mod 2 ^ 256) mod 256) with (z mod 256); [done|].
    change (2 ^ 256) with (256 * 2 ^ 248). rewrite Z.rem_mul_r by lia.
    by rewrite Z.mul_comm, Z.mod_add, Z.mod_mod by lia.
Qed.

Lemma cast_uint_ok w z : 0 ≤ z < 2 ^ w → cast_uint w z = Ok z.
Proof.
  intros Hz. unfold cast_uint, umax. destruct (native_width w); [|by apply ustore_in].
  zcase; [done|lia].
Qed.

Lemma cast_int_ok w z : - 2 ^ (w - 1) ≤ z < 2 ^ (w - 1) → cast_int w z = Ok z.
Proof.
  intros Hz. unfold cast_int. destruct (Z.leb_spec (- 2 ^ (w - 1)) z); [|lia].
  by destruct (Z.ltb_spec z (2 ^ (w - 1))); [|lia].
Qed.

Lemma decode_bytes_ok bytes i off bs rest rest' :
  Z.of_nat (length bytes) < 2 ^ 64 → (i ≤ length bytes)%nat → (off ≤ length bytes)%nat →
  drop i bytes = word off ++ rest → drop off bytes = encode_bytes bs ++ rest' →
  decode_bytes bytes (Z.of_nat i) = Ok (bs, Z.of_nat (i + 32)).
Proof.
  intros Hlen Hi Hoff Hh Hd. unfold encode_bytes, padRightBytes in Hd. rewrite <- !app_assoc in Hd.
  assert (Hb := drop_bound _ _ _ _ Hoff Hd).
  assert (Hlb : (length bs ≤ length bytes)%nat).
  { apply (f_equal length) in Hd. rewrite length_drop, !length_app in Hd. lia. }
  assert (Hw : length (word (length bs)) = 32%nat) by (apply word_length; lia).
  assert (Hd' := drop_app_next _ _ _ _ Hd). rewrite Hw in Hd', Hb.
  assert (Hb' := drop_bound _ _ _ _ Hb Hd').
  destruct (word_read _ _ _ _ Hi Hh) as [H1 _]; [apply word_length; lia|].
  destruct (word_read _ _ _ _ Hoff Hd Hw) as [H2 _].
  unfold decode_bytes. rewrite H1, result_bind_Ok.
  rewrite (decode_word_drop _ _ _ _ Hi Hh), result_bind_Ok by lia.
  rewrite add64_small, H2, result_bind_Ok by lia.
  rewrite (decode_word_drop _ _ _ _ Hoff Hd), result_bind_Ok by lia.
  rewrite add64_small by lia.
  rewrite (too_short_drop bytes (off + 32) bs _ _ Hb Hd'), result_bind_Ok by lia.
  replace (Z.of_nat off + 32) with (Z.of_nat (off + 32)) by lia.
  rewrite (range_drop bytes (off + 32) bs _ _ Hb Hd'), result_bind_Ok by done.
  do 2 f_equal. lia.
Qed.

Lemma Forall2_dec_ok ts vs :
  Forall (λ t, ∀ v, encodable t = true → has_type t v = true → dec_ok t v) ts →
  forallb encodable ts = true → Forall2 (λ t v, has_type t v = true) ts vs → Forall2 dec_ok ts vs.
Proof.
  intros IH He Ht. induction Ht as [|t v ts vs Htv _ IHt]; constructor;
    inversion IH; subst; cbn [forallb] in He; apply andb_true_iff in He as [??]; auto.
Qed.

Lemma static_size_ge t : encodable t = true → (32 ≤ static_size t)%nat.
Proof.
  induction t as [w|w| | | | | | |t IH|ts IH] using abi_ty_induction; cbn [static_size]; try lia.
  intros [[Hne He]%andb_true_iff _]%andb_true_iff.
  destruct ts as [|t ts]; [done|]. cbn [foldr]. inversion IH; subst.
  cbn [forallb] in He. apply andb_true_iff in He as [He _]. specialize (H2 He). lia.
Qed.

Lemma tuple_static_length ts :
  forallb encodable ts = true → existsb isDynamic ts = false →
  (32 * length ts ≤ foldr (λ t n, (head_size t + n)%nat) 0%nat ts)%nat.
Proof.
  induction ts as [|t ts IH]; [done|]. cbn [forallb existsb].
  intros [He1 He2]%andb_true_iff [Hd1 Hd2]%orb_false_iff. specialize (IH He2 Hd2).
  cbn [length foldr]. unfold head_size at 1. rewrite Hd1. assert (Hge := static_size_ge t He1). lia.
Qed.

Lemma tails_static ts vs : existsb isDynamic ts = false → tails (abi_items ts vs) = [].
Proof.
  revert vs. induction ts as [|t ts IH]; intros [|v vs]; try done. cbn [existsb].
  intros [Hd Hds]%orb_false_iff. unfold tails, abi_items. cbn [zip_with map concat fst].
  rewrite Hd. by apply IH.
Qed.

Lemma dec_ok_tuple ts vs :
  Forall (λ t, ∀ v, encodable t = true → has_type t v = true → dec_ok t v) ts →
  encodable (TTuple ts) = true → has_type (TTuple ts) (VList vs) = true →
  dec_ok (TTuple ts) (VList vs).
Proof.
  intros IH He Ht bytes i Hlen Hi. cbn [encodable] in He. cbn [has_type] in Ht.
  apply andb_true_iff in He as [[Hne He]%andb_true_iff Hx].
  rewrite all2_Forall2 in Ht. assert (Hdec := Forall2_dec_ok ts vs IH He Ht).
  assert (Hs := offsets_exact_start ts Hx).
  cbn [encode decode]. fold (abi_items ts vs). rewrite encode_items_layout.
  destruct (isDynamic (TTuple ts)) eqn:Hd; cbn [isDynamic] in Hd.
  - intros off rest rest' Hoff Hh Hb.
    destruct (word_read _ _ _ _ Hi Hh) as [H1 _]; [apply word_length; lia|].
    rewrite H1, result_bind_Ok, (decode_word_drop _ _ _ _ Hi Hh), result_bind_Ok by lia.
    rewrite subspan_from_nat, result_bind_Ok by done.
    assert (Hge := heads_length_ge (calculateTotalOffset ts) ts vs Ht).
    assert (Hl := f_equal length Hb). rewrite length_drop, !length_app in Hl.
    assert (Hcalc : (calculateTotalOffset ts ≤ length bytes)%nat).
    { destruct Hs as [Hs|Hs]; [congruence|]. rewrite Hs at 1. lia. }
    assert (Hview : Z.of_nat (length (drop off bytes)) < 2 ^ 64) by (rewrite length_drop; lia).
    destruct (decode_block_ok (calculateTotalOffset ts) ts vs _ _ Hs Ht Hdec Hview Hb)
      as (j & Hj & _).
    rewrite Hj, result_bind_Ok. do 2 f_equal. lia.
  - intros rest Hb. rewrite tails_static, app_nil_r in Hb |- * by done.
    rewrite (heads_static _ (length bytes)) in Hb |- * by done.
    assert (Hge := heads_length_ge (length bytes) ts vs Ht). assert (Hts := tuple_static_length ts He Hd).
    assert (Hb' := drop_bound _ _ _ _ Hi Hb). unfold too_short. zcase; [lia|]. cbn [throw_if].
    rewrite result_bind_Ok.
    destruct (decode_seq_ok ts vs Hdec bytes i (length bytes) rest []) as (j & -> & ->); try done.
    by rewrite drop_all, tails_static.
Qed.

Lemma encode_vector_length (dynamic : bool) elems :
  (length (concat elems) + (if dynamic then 32 * length elems else 0)
   ≤ length (encode_vector dynamic elems))%nat.
Proof.
  destruct dynamic; cbn [encode_vector].
  - assert (Hgen : ∀ off r d, let '(result, _, dynamicBytes) := foldl encodeElem (r, off, d) elems in
      (length r + 32 * length elems ≤ length result ∧
       length dynamicBytes = length d + length (concat elems))%nat).
    { induction elems as [|e elems IH]; intros off r d; [cbn; lia|].
      cbn [foldl encodeElem concat length].
      specialize (IH (off + length e)%nat (r ++ uint256ToBytes (Z.of_nat off)) (d ++ e)).
      destruct (foldl _ _ _) as [[? ?] ?]. rewrite !length_app in IH |- *.
      rewrite (length_app d e) in IH. assert (length (uint256ToBytes (Z.of_nat off)) = 32%nat); [|lia].
      unfold uint256ToBytes. by rewrite copy_tail_length. }
    specialize (Hgen (32 * length elems)%nat [] []). destruct (foldl _ _ _) as [[? ?] ?].
    rewrite !length_app. cbn [length] in Hgen. lia.
  - rewrite length_app. lia.
Qed.

Lemma foldr_replicate_size t n :
  foldr (λ t n, (head_size t + n)%nat) 0%nat (replicate n t) = (n * head_size t)%nat.
Proof. induction n as [|n IH]; [done|]. cbn. by rewrite IH. Qed.

Lemma dec_ok_vector t vs :
  (∀ v, encodable t = true → has_type t v = true → dec_ok t v) →
  encodable t = true → has_type (TVector t) (VList vs) = true → dec_ok (TVector t) (VList vs).
Proof.
  intros IH He Ht bytes i Hlen Hi. cbn [isDynamic]. intros off rest rest' Hoff Hh Hb.
  cbn [has_type] in Ht. cbn [encode] in Hb.
  set (ts := replicate (length vs) t).
  assert (Hty : Forall2 (λ t v, has_type t v = true) ts vs).
  { unfold ts. clear -Ht. induction vs as [|v vs IHv]; [constructor|]. cbn [forallb] in Ht.
    apply andb_true_iff in Ht as [??]. constructor; auto. }
  assert (Hdec : Forall2 dec_ok ts vs).
  { unfold ts. clear -Ht He IH. induction vs as [|v vs IHv]; [constructor|]. cbn [forallb] in Ht.
    apply andb_true_iff in Ht as [??]. constructor; auto. }
  assert (Hl := drop_bound _ _ _ _ Hoff Hb).
  assert (Hv := encode_vector_length (isDynamic t) (map (encode t) vs)).
  rewrite encode_vector_layout, abi_items_replicate, length_map in Hb
    by (intros Hd; rewrite Hd in Hv, Hl; lia).
  fold ts in Hb. rewrite <- app_assoc in Hb. rewrite length_map in Hv.
  assert (Hlv : (32 * length vs ≤ length bytes)%nat).
  { apply (f_equal length) in Hb. rewrite length_drop, !length_app in Hb.
    assert (Hge := heads_length_ge (32 * length vs) ts vs Hty).
    unfold ts in Hge at 1. rewrite foldr_replicate_size in Hge.
    assert (32 ≤ head_size t)%nat; [|nia].
    unfold head_size. destruct (isDynamic t); [done|by apply static_size_ge]. }
  assert (Hw : length (word (length vs)) = 32%nat) by (apply word_length; lia).
  destruct (word_read _ _ _ _ Hi Hh) as [H1 _]; [apply word_length; lia|].
  destruct (word_read _ _ _ _ Hoff Hb Hw) as [H2 _].
  assert (Hoff' := drop_bound _ _ _ _ Hoff Hb). rewrite Hw in Hoff'.
  cbn [decode]. rewrite H1, result_bind_Ok, (decode_word_drop _ _ _ _ Hi Hh), result_bind_Ok by lia.
  rewrite add64_small, H2, result_bind_Ok by lia.
  rewrite (decode_word_drop _ _ _ _ Hoff Hb), result_bind_Ok by lia.
  replace (Z.of_nat off + 32) with (Z.of_nat (off + 32)) by lia.
  rewrite subspan_from_nat, result_bind_Ok, Nat2Z.id, decode_vec_seq by done. fold ts.
  apply drop_app_next in Hb. rewrite Hw in Hb.
  assert (Hview : Z.of_nat (length (drop (off + 32) bytes)) < 2 ^ 64) by (rewrite length_drop; lia).
  assert (Hs : existsb isDynamic ts = false ∨
    (32 * length vs)%nat = foldr (λ t n, (head_size t + n)%nat) 0%nat ts).
  { unfold ts. rewrite foldr_replicate_size. unfold head_size. destruct (isDynamic t) eqn:Hd; [right; lia|left].
    clear -Hd. induction vs as [|v vs IHv]; [done|]. cbn. by rewrite Hd. }
  destruct (decode_block_ok (32 * length vs) ts vs _ _ Hs Hty Hdec Hview Hb) as (j & -> & _).
  rewrite !result_bind_Ok. do 2 f_equal. lia.
Qed.

Lemma decode_encode t v : encodable t = true → has_type t v = true → dec_ok t v.
Proof.
  revert v. induction t as [w|w| | | | | | |t IH|ts IH] using abi_ty_induction; intros v He Ht.
  9: { destruct v; try done. by apply dec_ok_vector. }
  9: { destruct v; try done. by apply dec_ok_tuple. }
  all: intros bytes i Hlen Hi; cbn [isDynamic]; destruct v as [z|b|bs|vs]; try done; cbn [has_type] in Ht;
    cbn [encode].
  - intros rest Hd. bool_to_Z. assert (2 ^ w ≤ 2 ^ 256) by (apply Z.pow_le_mono_r; lia).
    assert (Hz : in_uint 256 z) by (unfold in_uint; lia).
    cbn [decode]. rewrite (decodeUint_ok _ _ z rest), result_bind_Ok by done. cbv iota.
    rewrite cast_uint_ok, result_bind_Ok by lia. by rewrite encodeUint_encode, be_encode_length.
  - intros rest Hd. apply andb_true_iff in Ht as [Ht Hm]. bool_to_Z.
    assert (2 ^ (w - 1) ≤ 2 ^ 255) by (apply Z.pow_le_mono_r; lia).
    cbn [decode]. rewrite (decodeInt_ok _ _ z rest), result_bind_Ok; try done; [|lia|].
    + cbv iota. rewrite cast_int_ok, result_bind_Ok by lia.
      by rewrite encodeInt_encode, be_encode_length by lia.
    + apply orb_true_iff in Hm as [Hm|Hm]; bool_to_Z; [by left|by right].
  - intros rest Hd. apply andb_true_iff in Ht as [Hl%bool_decide_eq_true _].
    assert (Hp : length (padLeftBytes bs 32 0) = 32%nat)
      by (unfold padLeftBytes; by rewrite length_app, length_replicate, Hl).
    destruct (word_read _ _ _ _ Hi Hd Hp) as [H1 _]. assert (Hb := drop_bound _ _ _ _ Hi Hd).
    cbn [decode]. rewrite H1, result_bind_Ok. unfold padLeftBytes in Hd. rewrite <- app_assoc in Hd.
    apply drop_app_next in Hd. rewrite length_replicate, Hl in Hd. change (32 - 20)%nat with 12%nat in Hd.
    replace (Z.of_nat i + 12) with (Z.of_nat (i + 12)) by lia.
    rewrite (range_drop _ _ bs rest), result_bind_Ok by (done || lia). rewrite Hp. do 2 f_equal. lia.
  - intros rest Hd. set (bs := if b then [1] else [0]) in *.
    assert (Hp : length (padLeftBytes bs 32 0) = 32%nat) by by destruct b.
    destruct (word_read _ _ _ _ Hi Hd Hp) as [H1 _].
    cbn [decode]. rewrite H1, result_bind_Ok.
    replace (Z.to_nat (Z.of_nat i + 31)) with (i + 31)%nat by lia.
    rewrite (read_at_drop bytes (i + 31) (if b then 1 else 0) rest), result_bind_Ok.
    + rewrite Hp. destruct b; do 2 f_equal; lia.
    + assert (Hsplit : padLeftBytes bs 32 0 = replicate 31 0 ++ [if b then 1 else 0]) by by destruct b.
      rewrite Hsplit, <- app_assoc in Hd. by apply drop_app_next in Hd.
  - intros rest Hd. apply andb_true_iff in Ht as [Hl%bool_decide_eq_true _].
    destruct (word_read _ _ _ _ Hi Hd Hl) as [H1 H2].
    cbn [decode]. rewrite H1, result_bind_Ok, H2, result_bind_Ok, Hl. do 2 f_equal. lia.
  - intros off rest rest' Hoff Hh Hb. cbn [decode].
    by rewrite (decode_bytes_ok _ _ off bs rest rest'), result_bind_Ok by done.
  - intros off rest rest' Hoff Hh Hb. cbn [decode].
    by rewrite (decode_bytes_ok _ _ off bs rest rest'), result_bind_Ok by done.
  - intros rest Hd. bool_to_Z. assert (Hz : in_uint 256 z) by (unfold in_uint; lia).
    cbn [decode]. rewrite (decodeUint_ok _ _ z rest), result_bind_Ok by done. cbv iota.
    rewrite cast_uint_ok, result_bind_Ok by lia. by rewrite encodeUint_encode, be_encode_length.
Qed.

Lemma decodeData_encodeData ts vs :
  forallb encodable ts = true → offsets_exact ts = true → all2 has_type ts vs = true →
  Z.of_nat (length (encodeData ts vs)) < 2 ^ 64 →
  decodeData ts (encodeData ts vs) 0 = Ok vs.
Proof.
  intros He Hx Ht Hlen. rewrite all2_Forall2 in Ht.
  assert (Hdec : Forall2 dec_ok ts vs).
  { apply Forall2_dec_ok; [|done..]. apply Forall_forall. intros t _ v. apply decode_encode. }
  assert (Hs := offsets_exact_start ts Hx).
  unfold encodeData in Hlen |- *. fold (abi_items ts vs) in Hlen |- *. rewrite encode_items_layout in Hlen |- *.
  unfold decodeData. destruct ts as [|t ts]; [by inversion Ht|].
  set (off := calculateTotalOffset (t :: ts)) in *. set (items := abi_items (t :: ts) vs) in *.
  by destruct (decode_block_ok off (t :: ts) vs (heads off items ++ tails items) [] Hs Ht Hdec Hlen
    (eq_sym (app_nil_r _))) as (j & -> & _).
Qed.

(** C31: the arguments of a call are decoded from their encoding, for any list of types the encoder
    lays out exactly ([encodable], [offsets_exact]: an empty tuple is not, nor a static tuple that holds a
    tuple, next to a dynamic type) and any values of these types ([has_type]: integers of the width, and for the signed ones
    no negative multiple of 256, which [bytesToInt256] decodes wrong). *)
Theorem abi_roundtrip ts vs :
  forallb encodable ts = true → offsets_exact ts = true → all2 has_type ts vs = true →
  Z.of_nat (length (encodeData ts vs)) < 2 ^ 64 →
  decodeData ts (encodeData ts vs) 0 = Ok vs.
Proof. apply decodeData_encodeData. Qed.
End roundtrip.

(** ** Lengths that wrap *)

Lemma fromBigEndian_64 bs : ∃ z, fromBigEndian 64 bs = Ok z ∧ in_uint 64 z.
Proof.
  induction bs as [|b bs (z & Hz & _)] using rev_ind; [by exists 0|].
  rewrite fromBigEndian_snoc, Hz, result_bind_Ok. eexists. split; [done|].
  unfold in_uint. apply Z.mod_pos_bound. lia.
Qed.

Lemma decode_word_cases bytes index :
  (index + 32 ≤ Z.of_nat (length bytes) ∧ ∃ z, decode_word bytes index = Ok z ∧ in_uint 64 z) ∨
  (Z.of_nat (length bytes) < index + 32 ∧ decode_word bytes index = Throw Undefined).
Proof.
  unfold decode_word, range. zcase; [left|by right]. split; [done|].
  rewrite result_bind_Ok. apply fromBigEndian_64.
Qed.

Lemma add64_cases a b : in_uint 64 a → in_uint 64 b →
  (a + b < 2 ^ 64 ∧ add64 a b = a + b) ∨ (2 ^ 64 ≤ a + b ∧ add64 a b = a + b - 2 ^ 64).
Proof.
  unfold in_uint, add64. intros Ha Hb. destruct (Z.lt_ge_cases (a + b) (2 ^ 64)).
  - left. by rewrite Z.mod_small by lia.
  - right. split; [done|]. rewrite <- (Z.mod_add _ (-1)) by lia. rewrite Z.mod_small; lia.
Qed.

Lemma too_short_spec bytes stop :
  too_short bytes stop = if Z.of_nat (length bytes) <? stop then Throw LengthError else Ok tt.
Proof. unfold too_short. by destruct (_ <? _). Qed.

Lemma range_spec bytes off len :
  range bytes off len = Throw Undefined ↔ Z.of_nat (length bytes) < off + len.
Proof. unfold range. zcase; [split; [done|lia]|done]. Qed.

Lemma decode_word_range bytes index z : decode_word bytes index = Ok z → in_uint 64 z.
Proof.
  destruct (decode_word_cases bytes index) as [(_ & y & -> & Hy)|[_ ->]]; [by intros [= <-]|done].
Qed.

Lemma decode_word_undefined bytes index :
  Z.of_nat (length bytes) < index + 32 → decode_word bytes index = Throw Undefined.
Proof. intros. by destruct (decode_word_cases bytes index) as [[? _]|[_ ?]]; [lia|]. Qed.

Lemma decode_data_undefined bytes data n index :
  Z.of_nat (length bytes) < 2 ^ 63 → in_uint 64 data → in_uint 64 n →
  (_ ← too_short bytes (add64 data n); d ← range bytes data n; Ok (d, index)) = @Throw (list Z * Z) Undefined ↔
  2 ^ 64 ≤ data + n ∧ data + n - 2 ^ 64 ≤ Z.of_nat (length bytes).
Proof.
  intros Hlen Hd Hn. rewrite too_short_spec.
  destruct (add64_cases data n Hd Hn) as [[Ha ->]|[Ha ->]]; zcase; try (cbn; split; [done|lia]).
  - rewrite result_bind_Ok. destruct (range bytes data n) as [d|e] eqn:Er; cbn; (split; [|lia]); [done|].
    intros [= ->]. apply range_spec in Er. lia.
  - rewrite result_bind_Ok, (proj2 (range_spec _ _ _)) by (unfold in_uint in *; lia).
    cbn. split; [lia|done].
Qed.

(** decoding a [Bytes] or [std::string] argument whose offset word is inside the data reads out
    of bounds exactly when the offset plus 32 wraps around [uint64_t], or the offset is good and
    adding the length wraps to something inside the data. *)
Theorem decode_bytes_undefined_iff bytes index start :
  Z.of_nat (length bytes) < 2 ^ 63 → 0 ≤ index → index + 32 ≤ Z.of_nat (length bytes) →
  decode_word bytes index = Ok start →
  decode_bytes bytes index = Throw Undefined ↔
  2 ^ 64 ≤ start + 32 ∨
  ∃ len, decode_word bytes start = Ok len ∧ 2 ^ 64 ≤ start + 32 + len ∧
         start + 32 + len - 2 ^ 64 ≤ Z.of_nat (length bytes).
Proof.
  intros Hlen Hindex0 Hindex Hs. assert (Hin := decode_word_range _ _ _ Hs).
  unfold decode_bytes. rewrite Hs, !too_short_spec. zcase; [lia|].
  rewrite !result_bind_Ok, too_short_spec.
  destruct (add64_cases start 32 Hin) as [[Ha ->]|[Ha ->]]; [by_compute| |].
  - unfold in_uint in Hin. zcase.
    + split; [done|]. intros [?|(? & Hd & _)]; [lia|].
      by rewrite decode_word_undefined in Hd by lia.
    + rewrite result_bind_Ok. destruct (decode_word_cases bytes start) as [(_ & n & Hn & Hnin)|[? _]]; [|lia].
      rewrite Hn, result_bind_Ok, decode_data_undefined; [|done|unfold in_uint; lia|done].
      split; [right; by exists n|]. intros [?|(? & [= <-] & ?)]; [lia|done].
  - unfold in_uint in Hin. zcase; [lia|]. split; [by left|]. intros _.
    rewrite result_bind_Ok, decode_word_undefined; [done|lia].
Qed.

(** A call whose [bytes] argument has the offset word [2^64 - 32] passes the size checks. *)
Lemma decode_bytes_undefined_iff_witness :
  let bytes := replicate 24 0 ++ replicate 7 255 ++ [224] ++ replicate 32 0 in
  decode_bytes bytes 0 = Throw Undefined ∧
  (decode_bytes bytes 0 = Throw Undefined ↔
   2 ^ 64 ≤ (2 ^ 64 - 32) + 32 ∨
   ∃ len, decode_word bytes (2 ^ 64 - 32) = Ok len ∧ 2 ^ 64 ≤ (2 ^ 64 - 32) + 32 + len ∧
          (2 ^ 64 - 32) + 32 + len - 2 ^ 64 ≤ Z.of_nat (length bytes)).
Proof.
  split; [by vm_compute|].
  apply (decode_bytes_undefined_iff _ 0 (2 ^ 64 - 32)); [by vm_compute|done|by vm_compute|by vm_compute].
Defined.

Definition sample_types : list abi_ty :=
  [TUint 256; TBytes; TVector TString; TTuple [TAddress; TInt 16]; TTuple [TBool; TVector (TUint 8)]].

Definition sample_values : list abi_val :=
  [VInt 77; VBytes [1; 2; 3]; VList [VBytes [65; 66]; VBytes []];
   VList [VBytes (replicate 20 9); VInt (-3)]; VList [VBool true; VList [VInt 1; VInt 2]]].

Lemma abi_roundtrip_witness :
  length (@encodeData boost_ref sample_types sample_values) = 640%nat ∧
  @decodeData boost_ref sample_types (@encodeData boost_ref sample_types sample_values) 0 = Ok sample_values.
Proof.
  split; [by vm_compute|].
  apply (@abi_roundtrip boost_ref); by vm_compute.
Defined.

(** A static tuple that holds a tuple, next to a dynamic type: the offset of the dynamic part counts
    32 bytes for the inner tuple, so the decoder reads the length of the [Bytes] 32 bytes early. *)
Lemma nested_tuple_misplaced :
  let ts := [TTuple [TTuple [TUint 256; TUint 256]; TUint 256]; TBytes] in
  let vs := [VList [VList [VInt 1; VInt 2]; VInt 3]; VBytes [7]] in
  offsets_exact ts = false ∧ all2 has_type ts vs = true ∧
  @decodeData boost_ref ts (@encodeData boost_ref ts vs) 0 ≠ Ok vs.
Proof. split; [done|]. split; [done|]. by vm_compute. Qed.
