(* ===== verification/Regex.v ===== *)
(** * Regex: the regular expressions of the program (std::regex)

    [std::regex_match] asks whether the whole string is in the language of the expression; the anchors at its ends change
    nothing then.  The language is an inductive relation, the matcher takes derivatives, and the filters of the program
    (src/net/http/jsonrpc/decoding.cpp) are compared with what they are meant to accept. *)

From S2P Require Import Prelude Bytes Abi.

Inductive re :=
| RNone
| REps
| RClass (p : Z → bool)
| RSeq (r1 r2 : re)
| RAlt (r1 r2 : re)
| RStar (r : re).

(** [{n}] and [+]. *)
Fixpoint RRep (n : nat) (r : re) : re := match n with O => REps | S n => RSeq r (RRep n r) end.
Definition RPlus (r : re) : re := RSeq r (RStar r).
Definition RChar (c : Z) : re := RClass (Z.eqb c).
Definition RString (s : string) : re := foldr (λ c r, RSeq (RChar c) r) REps (string_bytes s).

(** A range of a class. *)
Definition within (lo hi c : Z) : bool := (lo <=? c) && (c <=? hi).

Inductive matches : re → list Z → Prop :=
| matches_eps : matches REps []
| matches_class p c : p c = true → matches (RClass p) [c]
| matches_seq r1 r2 s1 s2 : matches r1 s1 → matches r2 s2 → matches (RSeq r1 r2) (s1 ++ s2)
| matches_left r1 r2 s : matches r1 s → matches (RAlt r1 r2) s
| matches_right r1 r2 s : matches r2 s → matches (RAlt r1 r2) s
| matches_stop r : matches (RStar r) []
| matches_more r s1 s2 : matches r s1 → matches (RStar r) s2 → matches (RStar r) (s1 ++ s2).

Lemma matches_seq_iff r1 r2 s : matches (RSeq r1 r2) s ↔ ∃ s1 s2, s = s1 ++ s2 ∧ matches r1 s1 ∧ matches r2 s2.
Proof. split; [inversion 1; subst; eauto 6|]. intros (s1 & s2 & -> & ? & ?). by constructor. Qed.
Lemma matches_alt_iff r1 r2 s : matches (RAlt r1 r2) s ↔ matches r1 s ∨ matches r2 s.
Proof. split; [inversion 1; auto|]. intros [?|?]; by constructor. Qed.
Lemma matches_class_iff p s : matches (RClass p) s ↔ ∃ c, s = [c] ∧ p c = true.
Proof. split; [inversion 1; eauto|]. intros (c & -> & ?). by constructor. Qed.
Lemma matches_eps_iff s : matches REps s ↔ s = [].
Proof. split; [by inversion 1|]. intros ->. constructor. Qed.

(** ** The matcher *)

Fixpoint nullable (r : re) : bool :=
  match r with
  | RNone | RClass _ => false
  | REps | RStar _ => true
  | RSeq r1 r2 => nullable r1 && nullable r2
  | RAlt r1 r2 => nullable r1 || nullable r2
  end.

Fixpoint derive (c : Z) (r : re) : re :=
  match r with
  | RNone | REps => RNone
  | RClass p => if p c then REps else RNone
  | RSeq r1 r2 => if nullable r1 then RAlt (RSeq (derive c r1) r2) (derive c r2) else RSeq (derive c r1) r2
  | RAlt r1 r2 => RAlt (derive c r1) (derive c r2)
  | RStar r => RSeq (derive c r) (RStar r)
  end.

Fixpoint regex_match (r : re) (s : list Z) : bool := match s with [] => nullable r | c :: s => regex_match (derive c r) s end.

Lemma nullable_spec r : nullable r = true ↔ matches r [].
Proof.
  induction r as [| |p|r1 IH1 r2 IH2|r1 IH1 r2 IH2|r IH]; cbn [nullable].
  - split; [done|]. inversion 1.
  - split; [constructor|done].
  - split; [done|]. inversion 1.
  - rewrite andb_true_iff, IH1, IH2. split.
    + intros [H1 H2]. apply (matches_seq _ _ [] [] H1 H2).
    + intros (s1 & s2 & E & H1 & H2)%matches_seq_iff. symmetry in E. apply app_eq_nil in E as [-> ->]. done.
  - by rewrite orb_true_iff, IH1, IH2, matches_alt_iff.
  - split; [constructor|done].
Qed.

(** A star that is not empty begins with a part that is not empty. *)
Lemma star_cons r c s : matches (RStar r) (c :: s) → ∃ s1 s2, s = s1 ++ s2 ∧ matches r (c :: s1) ∧ matches (RStar r) s2.
Proof.
  remember (RStar r) as q eqn:Eq. remember (c :: s) as t eqn:Et. intros H. revert s Et.
  induction H as [| | | | | |r' s1 s2 H1 _ H2 IH]; intros s0 Et; try done.
  injection Eq as ->. destruct s1 as [|d s1]; cbn in Et.
  - apply (IH eq_refl). done.
  - injection Et as -> <-. by exists s1, s2.
Qed.

Lemma derive_spec c r s : matches (derive c r) s ↔ matches r (c :: s).
Proof.
  revert s. induction r as [| |p|r1 IH1 r2 IH2|r1 IH1 r2 IH2|r IH]; intros s; cbn [derive].
  - split; inversion 1.
  - split; inversion 1.
  - rewrite matches_class_iff. destruct (p c) eqn:Ep; [rewrite matches_eps_iff|].
    + split; [intros ->; by exists c|]. by intros (d & [= -> ->] & _).
    + split; [inversion 1|]. intros (d & [= -> ->] & ?). congruence.
  - assert (Hseq : matches (RSeq (derive c r1) r2) s ↔ ∃ s1 s2, s = s1 ++ s2 ∧ matches r1 (c :: s1) ∧ matches r2 s2).
    { rewrite matches_seq_iff. by setoid_rewrite IH1. }
    assert (Hall : matches (RSeq r1 r2) (c :: s) ↔
      (∃ s1 s2, s = s1 ++ s2 ∧ matches r1 (c :: s1) ∧ matches r2 s2) ∨ (matches r1 [] ∧ matches r2 (c :: s))).
    { rewrite matches_seq_iff. split.
      - intros ([|d s1] & s2 & E & H1 & H2); cbn in E; [right; by subst|]. injection E as -> ->. left. by exists s1, s2.
      - intros [(s1 & s2 & -> & H1 & H2)|[H1 H2]]; [by exists (c :: s1), s2|by exists [], (c :: s)]. }
    destruct (nullable r1) eqn:En.
    + rewrite Hall, matches_alt_iff, Hseq, IH2. apply nullable_spec in En. tauto.
    + rewrite Hall, Hseq. split; [by left|]. intros [?|[H1 _]]; [done|]. apply nullable_spec in H1. congruence.
  - by rewrite !matches_alt_iff, IH1, IH2.
  - rewrite matches_seq_iff. split.
    + intros (s1 & s2 & -> & H1%IH & H2). apply (matches_more r (c :: s1) s2 H1 H2).
    + intros (s1 & s2 & -> & H1 & H2)%star_cons. exists s1, s2. by rewrite IH.
Qed.

(** The matcher decides the language. *)
Theorem regex_match_spec r s : regex_match r s = true ↔ matches r s.
Proof. revert r. induction s as [|c s IH]; intros r; cbn [regex_match]; [apply nullable_spec|]. by rewrite IH, derive_spec. Qed.

(** ** Forms *)

Lemma matches_string str s : matches (RString str) s ↔ s = string_bytes str.
Proof.
  unfold RString. revert s. induction (string_bytes str) as [|c l IH]; intros s; cbn [foldr]; [apply matches_eps_iff|].
  rewrite matches_seq_iff. unfold RChar. setoid_rewrite matches_class_iff. setoid_rewrite IH. split.
  - intros (s1 & s2 & -> & (d & -> & E%Z.eqb_eq) & ->). by subst.
  - intros ->. exists [c], l. split; [done|]. split; [|done]. exists c. by rewrite Z.eqb_refl.
Qed.

Lemma matches_rep n p s : matches (RRep n (RClass p)) s ↔ length s = n ∧ forallb p s = true.
Proof.
  revert s. induction n as [|n IH]; intros s; cbn [RRep].
  - rewrite matches_eps_iff. destruct s; [done|]. split; [done|]. by intros [? _].
  - rewrite matches_seq_iff. setoid_rewrite matches_class_iff. setoid_rewrite IH. split.
    + intros (s1 & s2 & -> & (c & -> & Hc) & <- & Hs). cbn. by rewrite Hc.
    + destruct s as [|c s]; [by intros [? _]|]. cbn. intros [[= <-] [Hc Hs]%andb_true_iff]. exists [c], s. split; [done|]. split; [by exists c|done].
Qed.

Lemma matches_star p s : matches (RStar (RClass p)) s ↔ forallb p s = true.
Proof.
  split.
  - remember (RStar (RClass p)) as q eqn:Eq. intros H. induction H as [| | | | | |r s1 s2 H1 _ H2 IH]; try done. injection Eq as ->.
    apply matches_class_iff in H1 as (c & -> & Hc). cbn. by rewrite Hc, IH.
  - induction s as [|c s IH]; cbn; [constructor|]. intros [Hc Hs]%andb_true_iff. apply (matches_more _ [c] s); [by constructor|by apply IH].
Qed.

Lemma matches_prefix str r s : matches (RSeq (RString str) r) s ↔ ∃ t, s = string_bytes str ++ t ∧ matches r t.
Proof.
  rewrite matches_seq_iff. setoid_rewrite matches_string. split; [intros (s1 & t & -> & -> & H); by exists t|]. intros (t & -> & H). by eexists _, t.
Qed.

(** ** The filters *)

(** [\[0-9a-f\]], [\[1-9a-f\]] and [\[0-9,a-f,A-F\]], which has the comma. *)
Definition lower_digit (c : Z) : bool := within 48 57 c || within 97 102 c.
Definition leading_digit (c : Z) : bool := within 49 57 c || within 97 102 c.
Definition digit_or_comma (c : Z) : bool := within 48 57 c || (c =? 44) || within 97 102 c || within 65 70 c.

Definition hashFilter : re := RSeq (RString "0x") (RRep 64 (RClass lower_digit)).
Definition txHashFilter : re := RSeq (RString "0x") (RRep 64 (RClass digit_or_comma)).
Definition addFilter : re := RSeq (RString "0x") (RRep 40 (RClass digit_or_comma)).
Definition numFilter : re :=
  RSeq (RString "0x") (RAlt (RSeq (RPlus (RClass leading_digit)) (RStar (RClass lower_digit))) (RChar 48)).

Lemma lower_of_leading c : leading_digit c = true → lower_digit c = true.
Proof. unfold leading_digit, lower_digit, within. lia. Qed.

Lemma prefixed_rep n p s : regex_match (RSeq (RString "0x") (RRep n (RClass p))) s = true ↔ ∃ t, s = 48 :: 120 :: t ∧ length t = n ∧ forallb p t = true.
Proof. rewrite regex_match_spec, matches_prefix. by setoid_rewrite matches_rep. Qed.

(** A quantity is the zero, or digits that do not begin with a zero. *)
Definition is_quantity (s : list Z) : bool :=
  match s with
  | a :: b :: d :: t =>
      (a =? 48) && (b =? 120) && ((leading_digit d && forallb lower_digit t) || ((d =? 48) && match t with [] => true | _ => false end))
  | _ => false
  end.

Lemma numFilter_iff s : regex_match numFilter s = true ↔
  ∃ t, s = 48 :: 120 :: t ∧ (t = [48] ∨ ∃ d t', t = d :: t' ∧ leading_digit d = true ∧ forallb lower_digit t' = true).
Proof.
  rewrite regex_match_spec. unfold numFilter. rewrite matches_prefix. setoid_rewrite matches_alt_iff.
  assert (Hplus : ∀ t, matches (RSeq (RPlus (RClass leading_digit)) (RStar (RClass lower_digit))) t ↔
    ∃ d t', t = d :: t' ∧ leading_digit d = true ∧ forallb lower_digit t' = true).
  { intros t. unfold RPlus. rewrite matches_seq_iff. setoid_rewrite matches_star. setoid_rewrite matches_seq_iff.
    setoid_rewrite matches_star. setoid_rewrite matches_class_iff. split.
    - intros (s1 & s2 & -> & (a & b & -> & (d & -> & Hd) & Hb) & H2). exists d, (b ++ s2). split; [done|]. split; [done|].
      rewrite forallb_app, H2, andb_true_r. apply forallb_forall. intros c Hc. apply lower_of_leading. by apply (proj1 (forallb_forall _ _) Hb).
    - intros (d & t' & -> & Hd & Ht). exists [d], t'. split; [done|]. split; [|done]. exists [d], []. split; [done|]. split; [by exists d|done]. }
  setoid_rewrite Hplus. unfold RChar. setoid_rewrite matches_class_iff. change (string_bytes "0x") with [48; 120]. split.
  - intros (t & -> & [H|(c & -> & E%Z.eqb_eq)]); [exists t; auto|subst c; exists [48]; auto].
  - intros (t & -> & [->|H]); [|by exists t; auto]. exists [48]. split; [done|]. right. by exists 48.
Qed.

(** The expression for quantities accepts exactly the canonical ones. *)
Theorem numFilter_quantity s : regex_match numFilter s = is_quantity s.
Proof.
  apply eq_true_iff_eq. rewrite numFilter_iff. unfold is_quantity. split.
  - intros (t & -> & [->|(d & t' & -> & Hd & Ht)]); [done|]. by rewrite Hd, Ht.
  - destruct s as [|a [|b [|d t]]]; try done. intros [[->%Z.eqb_eq ->%Z.eqb_eq]%andb_true_iff H]%andb_true_iff. exists (d :: t). split; [done|].
    apply orb_true_iff in H as [[? ?]%andb_true_iff|[->%Z.eqb_eq H]%andb_true_iff]; [right; eauto|]. left. by destruct t.
Qed.
