(* ===== verification/JsonValue.v ===== *)
(** * JsonValue: the values of nlohmann::json (src/libs/json.hpp)

    What the node uses of a [basic_json]: its kinds, member access, arrays and conversions, with the exceptions they throw.
    The members of an object are kept in the order of their keys, as a [std::map] keeps them; a finite [double] is the fraction
    it stands for.  Access through a constant reference to a member that is not there fails an assertion, which ends the
    program: [Undefined].  The text form is the class [JsonText]. *)

From S2P Require Import Prelude Bytes Hashing Abi.

#[warnings="-register-all"]
Inductive jvalue :=
| JsNull
| JsBool (b : bool)
| JsUnsigned (n : Z)
| JsInteger (n : Z)
| JsFloat (num : Z) (den : positive)
| JsString (s : list Z)
| JsArray (l : list jvalue)
| JsObject (ms : list (list Z * jvalue)).

(** A string literal. *)
Definition js (s : string) : jvalue := JsString (string_bytes s).

(** ** Exceptions *)

(** The texts of the standard exceptions are the library's. *)
Class ExnText := { std_what : exn → string }.

(** [std::exception::what()]. *)
Definition what `{ExnText} (e : exn) : string :=
  match e with DynamicException m | RuntimeError m => m | _ => std_what e end.

Definition type_name (j : jvalue) : string :=
  match j with
  | JsNull => "null"
  | JsObject _ => "object"
  | JsArray _ => "array"
  | JsString _ => "string"
  | JsBool _ => "boolean"
  | JsUnsigned _ | JsInteger _ | JsFloat _ _ => "number"
  end.

Definition json_name (ename id text : string) : exn := DynamicException ("[json.exception." ++ ename ++ "." ++ id ++ "] " ++ text).
Definition type_error (id text : string) : exn := json_name "type_error" id text.
Definition must_be (expected : string) (j : jvalue) : exn := type_error "302" ("type must be " ++ expected ++ ", but is " ++ type_name j).
Definition no_key (j : jvalue) : exn := type_error "305" ("cannot use operator[] with a string argument with " ++ type_name j).
Definition no_at (j : jvalue) : exn := type_error "304" ("cannot use at() with " ++ type_name j).

(** [std::to_string] of an array index. *)
Fixpoint digits_loop (fuel n : nat) (acc : list Ascii.ascii) : list Ascii.ascii :=
  match fuel with
  | O => acc
  | S fuel =>
      let acc := Ascii.ascii_of_nat (48 + n mod 10) :: acc in
      if (n <? 10)%nat then acc else digits_loop fuel (n / 10) acc
  end.
Definition digits (n : nat) : string := String.string_of_list_ascii (digits_loop (S n) n []).
Definition no_index (idx : nat) : exn := json_name "out_of_range" "401" ("array index " ++ digits idx ++ " is out of range").

(** ** Objects *)

Section members.
Context {A : Type}.
Fixpoint jlookup (k : list Z) (ms : list (list Z * A)) : option A :=
  match ms with [] => None | (k', x) :: ms => if decide (k = k') then Some x else jlookup k ms end.

(** The entry of a key, put where its order says. *)
Fixpoint jinsert (k : list Z) (x : A) (ms : list (list Z * A)) : list (list Z * A) :=
  match ms with
  | [] => [(k, x)]
  | (k', x') :: ms' => if decide (k = k') then (k, x) :: ms' else if bytes_ltb k k' then (k, x) :: ms else (k', x') :: jinsert k x ms'
  end.

Lemma jlookup_insert k x k' ms : jlookup k' (jinsert k x ms) = if decide (k' = k) then Some x else jlookup k' ms.
Proof.
  induction ms as [|[k1 x1] ms IH]; cbn [jinsert jlookup]; [done|].
  destruct (decide (k = k1)) as [<-|Hne]; cbn [jlookup]; [by destruct (decide (k' = k))|].
  destruct (bytes_ltb k k1); cbn [jlookup].
  - by destruct (decide (k' = k)).
  - rewrite IH. destruct (decide (k' = k1)) as [->|]; [|done]. by destruct (decide (k1 = k)) as [<-|].
Qed.
End members.

(** [contains(key)]. *)
Definition js_contains (j : jvalue) (key : string) : bool :=
  match j with JsObject ms => bool_decide (is_Some (jlookup (string_bytes key) ms)) | _ => false end.

(** [operator\[\]] of a constant reference. *)
Definition js_index (j : jvalue) (key : string) : result jvalue :=
  match j with
  | JsObject ms => match jlookup (string_bytes key) ms with Some x => Ok x | None => Throw Undefined end
  | _ => Throw (no_key j)
  end.

(** [operator\[\]] of a variable: a key that is not there is inserted with a null, and a null becomes an object. *)
Definition js_access (j : jvalue) (key : string) : result (jvalue * jvalue) :=
  match j with
  | JsNull => Ok (JsNull, JsObject [(string_bytes key, JsNull)])
  | JsObject ms =>
      match jlookup (string_bytes key) ms with
      | Some x => Ok (x, j)
      | None => Ok (JsNull, JsObject (jinsert (string_bytes key) JsNull ms))
      end
  | _ => Throw (no_key j)
  end.

(** [j\[k1\]\[k2\]... = x]. *)
Fixpoint js_set (path : list string) (x : jvalue) (j : jvalue) : result jvalue :=
  match path with
  | [] => Ok x
  | k :: path =>
      match j with
      | JsNull => y ← js_set path x JsNull; Ok (JsObject [(string_bytes k, y)])
      | JsObject ms => y ← js_set path x (default JsNull (jlookup (string_bytes k) ms)); Ok (JsObject (jinsert (string_bytes k) y ms))
      | _ => Throw (no_key j)
      end
  end.

(** ** Arrays *)

Definition js_at (j : jvalue) (idx : nat) : result jvalue :=
  match j with
  | JsArray l => match l !! idx with Some x => Ok x | None => Throw (no_index idx) end
  | _ => Throw (no_at j)
  end.

Definition js_at_key (j : jvalue) (key : string) : result jvalue :=
  match j with
  | JsObject ms =>
      match jlookup (string_bytes key) ms with
      | Some x => Ok x
      | None => Throw (json_name "out_of_range" "403" ("key '" ++ key ++ "' not found"))
      end
  | _ => Throw (no_at j)
  end.

Definition js_push_back (x : jvalue) (j : jvalue) : result jvalue :=
  match j with
  | JsNull => Ok (JsArray [x])
  | JsArray l => Ok (JsArray (l ++ [x]))
  | _ => Throw (type_error "308" ("cannot use push_back() with " ++ type_name j))
  end.

Definition js_size (j : jvalue) : nat :=
  match j with JsNull => 0 | JsArray l => length l | JsObject ms => length ms | _ => 1 end%nat.
Definition js_empty (j : jvalue) : bool :=
  match j with JsNull => true | JsArray l => bool_decide (l = []) | JsObject ms => bool_decide (ms = []) | _ => false end.

(** ** Kinds and conversions *)

Definition is_null (j : jvalue) : bool := match j with JsNull => true | _ => false end.
Definition is_array (j : jvalue) : bool := match j with JsArray _ => true | _ => false end.
Definition is_object (j : jvalue) : bool := match j with JsObject _ => true | _ => false end.
Definition is_string (j : jvalue) : bool := match j with JsString _ => true | _ => false end.
Definition is_number (j : jvalue) : bool := match j with JsUnsigned _ | JsInteger _ | JsFloat _ _ => true | _ => false end.

Definition js_get_string (j : jvalue) : result (list Z) := match j with JsString s => Ok s | _ => Throw (must_be "string" j) end.
Definition js_get_bool (j : jvalue) : result bool := match j with JsBool b => Ok b | _ => Throw (must_be "boolean" j) end.

(** [static_cast<uint64_t>]: a signed integer wraps, a [double] is cut off towards zero and has to fit. *)
Definition js_get_uint64 (j : jvalue) : result Z :=
  match j with
  | JsUnsigned n => Ok n
  | JsInteger n => Ok (n mod 2 ^ 64)
  | JsFloat num den => let z := Z.quot num (Zpos den) in if (0 <=? z) && (z <=? umax 64) then Ok z else Throw Undefined
  | _ => Throw (must_be "number" j)
  end.

Definition js_get_strings (j : jvalue) : result (list (list Z)) :=
  match j with JsArray l => mapR js_get_string l | _ => Throw (must_be "array" j) end.

(** ** Texts *)

(** [json::parse] and [dump()], which throws for a string that is not UTF-8. *)
Class JsonText := {
  json_parse : list Z → result jvalue;
  json_dump : jvalue → result (list Z)
}.
