(* ===== verification/DB.v ===== *)
(** * DB: the database wrapper (src/utils/db.{h,cpp})

    RocksDB is third-party code: the class [RocksDB] gives its operations with what its documentation
    says of them, a map from keys to values iterated in the bytewise order of the keys.  The wrapper's
    operations are the loops over the iterator, as the sources write them. *)

From stdpp Require Import sorting.
From S2P Require Import Prelude Bytes Hashing Abi.

Definition Entry : Type := list Z * list Z.

Definition key_lt (a b : Entry) : Prop := bytes_ltb a.1 b.1 = true.

Class RocksDB := {
  rdb : Type;
  rdb_map : rdb → gmap (list Z) (list Z);
  rdb_put : list Z → list Z → rdb → rdb;
  rdb_del : list Z → rdb → rdb;
  rdb_entries : rdb → list Entry; (* from the first key to the last *)
  rdb_put_map k v d : rdb_map (rdb_put k v d) = <[k := v]> (rdb_map d);
  rdb_del_map k d : rdb_map (rdb_del k d) = delete k (rdb_map d);
  rdb_entries_sorted d : StronglySorted key_lt (rdb_entries d);
  rdb_entries_map d k v : (k, v) ∈ rdb_entries d ↔ rdb_map d !! k = Some v
}.

(** [DBPrefix]. *)
Definition pfx_blocks : list Z := [0; 1].
Definition pfx_blockHeightMaps : list Z := [0; 2].
Definition pfx_nativeAccounts : list Z := [0; 3].
Definition pfx_txToBlocks : list Z := [0; 4].
Definition pfx_evmHost : list Z := [0; 9].
Definition pfx_events : list Z := [0; 8].

Definition makeNewPrefix (prefix : list Z) (newPrefix : string) : list Z := prefix ++ string_bytes newPrefix.

(** [DBBatch]: the keys to delete and the entries to put, with their prefixes. *)
Record DBBatch := mkBatch {
  puts_ : list Entry;
  dels_ : list (list Z)
}.

Definition DBBatch_new : DBBatch := mkBatch [] [].
Definition push_back (b : DBBatch) (key value prefix : list Z) : DBBatch :=
  mkBatch (puts_ b ++ [(prefix ++ key, value)]) (dels_ b).
Definition delete_key (b : DBBatch) (key prefix : list Z) : DBBatch :=
  mkBatch (puts_ b) (dels_ b ++ [prefix ++ key]).

Definition starts_with (key pfx : list Z) : bool := bool_decide (take (length pfx) key = pfx).

Fixpoint take_while {A} (f : A → bool) (l : list A) : list A :=
  match l with [] => [] | x :: l => if f x then x :: take_while f l else [] end.

Fixpoint drop_while {A} (f : A → bool) (l : list A) : list A :=
  match l with [] => [] | x :: l => if f x then drop_while f l else x :: l end.

Section db.
Context `{RocksDB}.

(** [it->Seek(key)], then [Next] to the end: the entries from the first key at or after [key]. *)
Definition seek (d : rdb) (key : list Z) : list Entry :=
  drop_while (λ e, bytes_ltb e.1 key) (rdb_entries d).

Definition has (d : rdb) (key pfx : list Z) : bool :=
  existsb (λ e : Entry, bool_decide (e.1 = pfx ++ key)) (seek d (pfx ++ key)).

Definition get (d : rdb) (key pfx : list Z) : list Z :=
  match List.find (λ e : Entry, bool_decide (e.1 = pfx ++ key)) (seek d (pfx ++ key)) with
  | Some e => e.2
  | None => []
  end.

Definition put (d : rdb) (key value pfx : list Z) : rdb := rdb_put (pfx ++ key) value d.
Definition del (d : rdb) (key pfx : list Z) : rdb := rdb_del (pfx ++ key) d.

(** The deletes of the batch come first, whatever the order of the calls was. *)
Definition putBatch (d : rdb) (b : DBBatch) : rdb :=
  foldl (λ d (e : Entry), rdb_put e.1 e.2 d) (foldl (λ d k, rdb_del k d) d (dels_ b)) (puts_ b).

Definition getBatch (d : rdb) (bytesPfx : list Z) (keys : list (list Z)) : list Entry :=
  let found := map (λ e : Entry, (drop (length bytesPfx) e.1, e.2))
    (take_while (λ e, starts_with e.1 bytesPfx) (seek d bytesPfx)) in
  match keys with
  | [] => found
  | _ => concat (map (λ e : Entry, concat (map (λ key, if bool_decide (e.1 = key) then [e] else []) keys)) found)
  end.

(** Up to [Compare(it->key(), endSlice) <= 0]. *)
Definition getKeys (d : rdb) (pfx start stop : list Z) : list (list Z) :=
  map (λ e : Entry, drop (length pfx) e.1)
    (take_while (λ e, negb (bytes_ltb (pfx ++ stop) e.1)) (seek d (pfx ++ start))).
End db.

(** ** The iterator loops compute the map's operations *)

Section lemmas.
Context `{RocksDB}.

Lemma bytes_ltb_trans' (a b c : Entry) : key_lt a b → key_lt b c → key_lt a c.
Proof. unfold key_lt. apply bytes_ltb_trans. Qed.

(** In a sorted list the entries not before [key] are a suffix. *)
Lemma seek_elem d key e : e ∈ seek d key ↔ e ∈ rdb_entries d ∧ bytes_ltb e.1 key = false.
Proof.
  unfold seek. assert (Hs := rdb_entries_sorted d). revert Hs.
  induction (rdb_entries d) as [|x l IH]; intros Hs;
    [split; [by intros ?%not_elem_of_nil|by intros [?%not_elem_of_nil _]]|].
  apply StronglySorted_inv in Hs as [Hs Hx]. cbn [drop_while].
  destruct (bytes_ltb x.1 key) eqn:E.
  - rewrite IH, elem_of_cons by done. split; [intros [? ?]; auto|]. intros [[->|?] ?]; [congruence|done].
  - split; [|tauto]. intros He. split; [done|]. apply elem_of_cons in He as [->|He]; [done|].
    rewrite Forall_forall in Hx. specialize (Hx _ He). unfold key_lt in Hx.
    apply not_true_is_false. intros Ht. assert (Hc := bytes_ltb_trans _ _ _ Hx Ht). congruence.
Qed.

Lemma seek_lookup d key v : (key, v) ∈ seek d key ↔ rdb_map d !! key = Some v.
Proof. rewrite seek_elem, rdb_entries_map. cbn. rewrite bytes_ltb_irrefl. tauto. Qed.

Lemma has_spec d key pfx : has d key pfx = bool_decide (is_Some (rdb_map d !! (pfx ++ key))).
Proof.
  unfold has. apply eq_true_iff_eq. rewrite existsb_exists, bool_decide_eq_true. split.
  - intros ([k v] & Hin & Hk%bool_decide_eq_true). cbn in Hk. subst. exists v.
    apply seek_lookup. by apply list_elem_of_In.
  - intros [v Hv]. exists (pfx ++ key, v). rewrite <- list_elem_of_In, bool_decide_eq_true.
    split; [by apply seek_lookup|done].
Qed.

Lemma get_spec d key pfx : get d key pfx = default [] (rdb_map d !! (pfx ++ key)).
Proof.
  unfold get. destruct (List.find _ _) as [[k v]|] eqn:E.
  - apply List.find_some in E as [Hin Hk%bool_decide_eq_true]. cbn in Hk. subst.
    rewrite <- list_elem_of_In in Hin. apply seek_lookup in Hin. by rewrite Hin.
  - destruct (rdb_map d !! (pfx ++ key)) as [v|] eqn:Hv; [|done].
    apply seek_lookup, list_elem_of_In in Hv. eapply List.find_none in Hv; [|done].
    apply bool_decide_eq_false in Hv. done.
Qed.

Lemma put_map d key value pfx : rdb_map (put d key value pfx) = <[pfx ++ key := value]> (rdb_map d).
Proof. apply rdb_put_map. Qed.

Lemma bytes_ltb_app_l p a b : bytes_ltb (p ++ a) (p ++ b) = bytes_ltb a b.
Proof. induction p as [|x p IH]; [done|]. cbn. by rewrite Z.ltb_irrefl. Qed.

Lemma bytes_ltb_prefix a b : b ≠ [] → bytes_ltb a (a ++ b) = true.
Proof. induction a as [|x a IH]; [by destruct b|]. cbn. rewrite Z.ltb_irrefl. auto. Qed.

Lemma take_while_elem {A} (f : A → bool) l x : x ∈ take_while f l → x ∈ l ∧ f x = true.
Proof.
  induction l as [|y l IH]; cbn; [by intros ?%not_elem_of_nil|].
  destruct (f y) eqn:E; [|by intros ?%not_elem_of_nil].
  intros [->|Hx]%elem_of_cons; [split; [left|done]|]. destruct (IH Hx). split; [by right|done].
Qed.

(** The keys with a prefix are contiguous. *)
Lemma starts_with_app p a : starts_with (p ++ a) p = true.
Proof. unfold starts_with. apply bool_decide_eq_true. apply take_app_length. Qed.

Lemma starts_with_split k p : starts_with k p = true → k = p ++ drop (length p) k.
Proof. unfold starts_with. intros E%bool_decide_eq_true. by rewrite <- E at 1; rewrite take_drop. Qed.

Lemma starts_with_between p a r :
  bytes_ltb a p = false → bytes_ltb a (p ++ r) = true → starts_with a p = true.
Proof.
  revert a. induction p as [|x p IH]; intros [|y a]; cbn; try done.
  destruct (Z.ltb_spec y x); [done|]. destruct (Z.ltb_spec x y); [done|]. intros Hge Hlt.
  assert (y = x) as -> by lia. specialize (IH a Hge Hlt). unfold starts_with in *.
  apply bool_decide_eq_true in IH. apply bool_decide_eq_true. cbn. by f_equal.
Qed.

Lemma take_while_prefix l p :
  StronglySorted key_lt l → Forall (λ e : Entry, bytes_ltb e.1 p = false) l →
  ∀ e, e ∈ take_while (λ e, starts_with e.1 p) l ↔ e ∈ l ∧ starts_with e.1 p = true.
Proof.
  intros Hs Hge e. split; [apply (take_while_elem (λ e, starts_with e.1 p))|]. intros [He Hp].
  induction l as [|x l IH]; [by apply not_elem_of_nil in He|].
  apply StronglySorted_inv in Hs as [Hs Hx]. apply Forall_cons in Hge as [Hgx Hgl].
  cbn [take_while]. assert (Hxp : starts_with x.1 p = true).
  { apply elem_of_cons in He as [->|He]; [done|]. rewrite Forall_forall in Hx. specialize (Hx _ He).
    apply (starts_with_between p x.1 (drop (length p) e.1)); [done|].
    by rewrite <- starts_with_split. }
  rewrite Hxp. apply elem_of_cons in He as [->|He]; [left|right; by apply IH].
Qed.

Lemma seek_sorted d key : StronglySorted key_lt (seek d key).
Proof.
  unfold seek. assert (Hs := rdb_entries_sorted d). revert Hs.
  induction (rdb_entries d) as [|x l IH]; intros Hs; [constructor|]. cbn [drop_while].
  case_match; [|done]. apply IH. by apply StronglySorted_inv in Hs as [? _].
Qed.

Lemma getBatch_spec d pfx k v :
  (k, v) ∈ getBatch d pfx [] ↔ rdb_map d !! (pfx ++ k) = Some v.
Proof.
  unfold getBatch. rewrite list_elem_of_In, in_map_iff.
  assert (Hge : Forall (λ e : Entry, bytes_ltb e.1 pfx = false) (seek d pfx)).
  { apply Forall_forall. intros e He. by apply seek_elem in He as [_ ?]. }
  assert (Htw := take_while_prefix _ pfx (seek_sorted d pfx) Hge). split.
  - intros ([key w] & [= <- <-] & Hin%list_elem_of_In). apply Htw in Hin as [Hin Hp].
    cbn in Hp. rewrite <- (starts_with_split _ _ Hp). apply rdb_entries_map. by apply seek_elem in Hin as [? _].
  - intros Hv. exists (pfx ++ k, v). cbn [fst snd]. rewrite drop_app_length. split; [done|].
    rewrite <- list_elem_of_In. apply Htw. split; [|apply starts_with_app]. apply seek_elem.
    split; [by apply rdb_entries_map|]. cbn. rewrite <- (app_nil_r pfx) at 2. rewrite bytes_ltb_app_l.
    by destruct k.
Qed.

Lemma getBatch_NoDup d pfx : NoDup (getBatch d pfx []).
Proof.
  assert (Hs : ∀ l, StronglySorted key_lt l → NoDup (take_while (λ e, starts_with e.1 pfx) l)).
  { induction 1 as [|x l _ IH Hx]; cbn [take_while]; [constructor|].
    destruct (starts_with x.1 pfx); [|constructor]. constructor; [|done].
    intros [Hin _]%take_while_elem. rewrite Forall_forall in Hx. specialize (Hx _ Hin).
    unfold key_lt in Hx. by rewrite bytes_ltb_irrefl in Hx. }
  unfold getBatch. apply NoDup_fmap_2_strong; [|apply Hs, seek_sorted].
  intros [k v] [k' v'] [_ Hk]%take_while_elem [_ Hk']%take_while_elem [= Hd ->].
  apply starts_with_split in Hk, Hk'. cbn in *. congruence.
Qed.

(** Two databases with the same entries under a prefix give the same answers there. *)
Definition agree (pfx : list Z) (d d' : rdb) : Prop := ∀ k, rdb_map d !! (pfx ++ k) = rdb_map d' !! (pfx ++ k).

Lemma getBatch_agree pfx d d' : agree pfx d d' → getBatch d pfx [] = getBatch d' pfx [].
Proof.
  intros Ha.
  assert (Hs : ∀ d0, StronglySorted key_lt (getBatch d0 pfx [])).
  { intros d0. unfold getBatch. assert (Hs := seek_sorted d0 pfx). revert Hs. generalize (seek d0 pfx) as l.
    induction l as [|x l IH]; intros Hs; [constructor|]. apply StronglySorted_inv in Hs as [Hs Hx]. cbn [take_while].
    destruct (starts_with x.1 pfx) eqn:E; [|constructor]. cbn [map]. constructor; [by apply IH|].
    apply Forall_forall. intros e He. apply list_elem_of_In, in_map_iff in He as (y & <- & Hy%list_elem_of_In).
    apply take_while_elem in Hy as [Hy Ey]. rewrite Forall_forall in Hx. specialize (Hx _ Hy). unfold key_lt in *. cbn [fst].
    rewrite <- (bytes_ltb_app_l pfx). by rewrite <- (starts_with_split _ _ E), <- (starts_with_split _ _ Ey). }
  assert (AntiSymm (=) key_lt).
  { intros a b H1 H2. assert (H3 := bytes_ltb_trans' _ _ _ H1 H2). unfold key_lt in H3. by rewrite bytes_ltb_irrefl in H3. }
  apply (StronglySorted_unique key_lt); [done..|]. apply NoDup_Permutation; [apply getBatch_NoDup..|].
  intros [k v]. by rewrite !getBatch_spec, Ha.
Qed.

Lemma get_agree pfx d d' key : agree pfx d d' → get d key pfx = get d' key pfx.
Proof. intros Ha. by rewrite !get_spec, Ha. Qed.

Lemma agree_app pfx pfx' d d' : agree pfx d d' → agree (pfx ++ pfx') d d'.
Proof. intros Ha k. by rewrite <- app_assoc. Qed.

(** A key after a batch: the last put of it, or what the database had. *)
Lemma putBatch_lookup d l k :
  NoDup (map fst l) →
  rdb_map (putBatch d (mkBatch l [])) !! k =
  match list_to_map (M := gmap (list Z) (list Z)) l !! k with Some v => Some v | None => rdb_map d !! k end.
Proof.
  unfold putBatch. cbn [dels_ puts_ foldl]. revert d. induction l as [|[k' v] l IH]; intros d Hnd; [done|].
  cbn in Hnd. apply NoDup_cons in Hnd as [Hn Hnd]. cbn [foldl fst snd]. rewrite IH by done. cbn.
  rewrite rdb_put_map. destruct (decide (k = k')) as [->|Hne].
  - rewrite lookup_insert_eq, lookup_insert_eq. by rewrite not_elem_of_list_to_map_1.
  - by rewrite !lookup_insert_ne.
Qed.

(** A batch without deletions, as a map. *)
Lemma putBatch_map d puts :
  rdb_map (putBatch d (mkBatch puts [])) = foldl (λ m (e : Entry), <[e.1 := e.2]> m) (rdb_map d) puts.
Proof.
  unfold putBatch. cbn [dels_ puts_ foldl]. revert d. induction puts as [|e l IH]; intros d; [done|].
  cbn [foldl]. by rewrite IH, rdb_put_map.
Qed.

(** A batch without deletions changes the keys it puts only. *)
Lemma putBatch_out d l k : k ∉ l.*1 → rdb_map (putBatch d (mkBatch l [])) !! k = rdb_map d !! k.
Proof.
  unfold putBatch. cbn [dels_ puts_ foldl]. revert d. induction l as [|e l IH]; intros d; [done|].
  rewrite fmap_cons, not_elem_of_cons. intros [Hk Hl]. cbn [foldl]. rewrite IH by done. rewrite rdb_put_map. by apply lookup_insert_ne.
Qed.

(** A batch with the entries [l] under [pfx] leaves them there, and no others when the database had none. *)
Lemma putBatch_getBatch d (puts : list Entry) pfx (l : list Entry) :
  NoDup puts.*1 → NoDup l.*1 → (∀ k v, (pfx ++ k, v) ∈ puts ↔ (k, v) ∈ l) →
  (∀ k, is_Some (rdb_map d !! (pfx ++ k)) → k ∈ l.*1) →
  getBatch (putBatch d (mkBatch puts [])) pfx [] ≡ₚ l.
Proof.
  intros Hp Hl Hin Hd. apply NoDup_Permutation; [apply getBatch_NoDup|by apply (NoDup_fmap_1 fst)|].
  intros [k v]. rewrite getBatch_spec, putBatch_lookup by done. rewrite <- Hin, (elem_of_list_to_map (M := gmap (list Z))) by done.
  destruct (list_to_map puts !! (pfx ++ k)) as [w|] eqn:E; [done|]. split; [|done]. intros Hk.
  exfalso.
  assert (Hkl : k ∈ l.*1) by (apply Hd; by eexists). apply list_elem_of_fmap in Hkl as ([k2 w2] & -> & Hk2).
  apply Hin, (elem_of_list_to_map_1 (M := gmap (list Z))) in Hk2; [|done]. cbn in E. congruence.
Qed.

Lemma foldl_push_back {A} (key value : A → list Z) pfx (l : list A) b :
  foldl (λ b x, push_back b (key x) (value x) pfx) b l = mkBatch (puts_ b ++ map (λ x, (pfx ++ key x, value x)) l) (dels_ b).
Proof.
  revert b. induction l as [|x l IH]; intros b; cbn [foldl map]; [rewrite app_nil_r; by destruct b|].
  rewrite IH. cbn. by rewrite <- app_assoc.
Qed.

Lemma foldl_push_nested {A B} (g : A → list B) (key value : A → B → list Z) pfx (l : list A) b :
  foldl (λ b x, foldl (λ b y, push_back b (key x y) (value x y) pfx) b (g x)) b l =
  mkBatch (puts_ b ++ (l ≫= λ x, map (λ y, (pfx ++ key x y, value x y)) (g x))) (dels_ b).
Proof.
  revert b. induction l as [|x l IH]; intros b; cbn [foldl]; [cbn; rewrite app_nil_r; by destruct b|].
  rewrite IH, foldl_push_back. cbn. by rewrite app_assoc.
Qed.

(** The entries of a component, under its prefix. *)
Definition prefixed (pfx : list Z) (e : Entry) : Entry := (pfx ++ e.1, e.2).

Lemma prefixed_elem pfx k v l : (pfx ++ k, v) ∈ map (prefixed pfx) l ↔ (k, v) ∈ l.
Proof.
  rewrite list_elem_of_In, in_map_iff. split.
  - intros ([k' v'] & [= Hk ->] & Hin). apply app_inv_head in Hk as ->. by apply list_elem_of_In.
  - intros Hin. exists (k, v). split; [done|]. by apply list_elem_of_In.
Qed.

Lemma prefixed_keys pfx (l : list Entry) : NoDup l.*1 → NoDup (map (prefixed pfx) l).*1.
Proof.
  intros Hl. rewrite <- list_fmap_compose. replace (fst ∘ prefixed pfx <$> l) with (app pfx <$> l.*1) by by rewrite <- list_fmap_compose.
  apply NoDup_fmap_2; [intros x y; apply app_inv_head|done].
Qed.

Lemma prefixed_in pfx (l : list Entry) k : k ∈ (map (prefixed pfx) l).*1 → ∃ r, k = pfx ++ r.
Proof. intros ([k' v] & -> & ([k2 v2] & [= -> ->] & _)%list_elem_of_fmap)%list_elem_of_fmap. by exists k2. Qed.

Lemma prefixed_elem_in pfx k v l : (k, v) ∈ map (prefixed pfx) l → ∃ r, k = pfx ++ r.
Proof. intros Hin. apply (prefixed_in pfx l). apply list_elem_of_fmap. by exists (k, v). Qed.

Lemma getKeys_single d pfx k k' :
  k' ∈ getKeys d pfx k k → k' = k ∧ is_Some (rdb_map d !! (pfx ++ k)).
Proof.
  unfold getKeys. intros Hin. apply list_elem_of_In, in_map_iff in Hin as ([q v] & Hq & Hin).
  rewrite <- list_elem_of_In in Hin. apply take_while_elem in Hin as [Hin Hle%negb_true_iff].
  apply seek_elem in Hin as [Hin Hge]. cbn [fst] in *.
  assert (q = pfx ++ k) as -> by by apply bytes_ltb_total.
  rewrite drop_app_length in Hq. split; [done|]. exists v. by apply rdb_entries_map.
Qed.

(** the iterator loops of the wrapper implement a map from prefixed keys to values: [has], [get],
    [getBatch] of a prefix, [put] and [del] are lookup, lookup with a default, the restriction to the
    prefix, insertion and deletion. *)
Theorem DB_refines_map d key value pfx :
  has d key pfx = bool_decide (is_Some (rdb_map d !! (pfx ++ key))) ∧
  get d key pfx = default [] (rdb_map d !! (pfx ++ key)) ∧
  (∀ k v, (k, v) ∈ getBatch d pfx [] ↔ rdb_map d !! (pfx ++ k) = Some v) ∧
  rdb_map (put d key value pfx) = <[pfx ++ key := value]> (rdb_map d) ∧
  rdb_map (del d key pfx) = delete (pfx ++ key) (rdb_map d).
Proof.
  split; [apply has_spec|]. split; [apply get_spec|]. split; [apply getBatch_spec|].
  split; [apply rdb_put_map|apply rdb_del_map].
Qed.

(** [getKeys] never returns a key that goes on after the end of the range: asked for the events up
    to a block, with the block's height as the end, it returns none of that block's events. *)
Theorem getKeys_misses_stop d pfx start stop rest :
  rest ≠ [] → stop ++ rest ∉ getKeys d pfx start stop.
Proof.
  intros Hr Hin. unfold getKeys in Hin. apply list_elem_of_In, in_map_iff in Hin as ([k v] & Hk & Hin).
  rewrite <- list_elem_of_In in Hin. apply take_while_elem in Hin as [Hin Hlt%negb_true_iff].
  cbn [fst] in Hk, Hlt.
  assert (Hp : k = pfx ++ stop ++ rest).
  { apply seek_elem in Hin as [_ Hge]. cbn in Hge.
    assert (Hs : starts_with k pfx = true).
    { apply (starts_with_between pfx k (stop ++ [0])).
      - apply not_true_is_false. intros Hlt'. destruct start as [|x start]; [by rewrite app_nil_r in Hge; congruence|].
        assert (Hc := bytes_ltb_trans _ _ _ Hlt' (bytes_ltb_prefix pfx (x :: start) ltac:(done))). congruence.
      - rewrite app_assoc. assert (Hnext := bytes_ltb_prefix (pfx ++ stop) [0] ltac:(done)).
        destruct (bytes_ltb k (pfx ++ stop)) eqn:E; [by eapply bytes_ltb_trans|].
        by rewrite (bytes_ltb_total _ _ E Hlt). }
    apply starts_with_split in Hs. by rewrite Hk in Hs. }
  subst k. rewrite app_assoc in Hlt. by rewrite bytes_ltb_prefix in Hlt.
Qed.
End lemmas.

(** ** A reference database: a finite map, listed in order *)

Definition key_le (a b : Entry) : Prop := bytes_ltb b.1 a.1 = false.

#[export] Instance key_le_dec a b : Decision (key_le a b).
Proof. unfold key_le. apply _. Defined.

#[export] Instance key_le_total : Total key_le.
Proof.
  intros a b. unfold key_le. destruct (bytes_ltb b.1 a.1) eqn:E; [right|by left]. by apply bytes_ltb_asym.
Qed.

#[export] Instance key_le_trans : Transitive key_le.
Proof.
  intros a b c. unfold key_le. intros Hab Hbc. apply not_true_is_false. intros Hca.
  destruct (bytes_ltb a.1 b.1) eqn:E.
  - assert (Hcb := bytes_ltb_trans _ _ _ Hca E). congruence.
  - assert (Heq := bytes_ltb_total _ _ E Hab). congruence.
Qed.

Definition sorted_entries (m : gmap (list Z) (list Z)) : list Entry := merge_sort key_le (map_to_list m).

Lemma sorted_entries_sorted m : StronglySorted key_lt (sorted_entries m).
Proof.
  unfold sorted_entries. assert (Hp := merge_sort_Permutation key_le (map_to_list m)).
  assert (Hnd : NoDup (merge_sort key_le (map_to_list m)).*1)
    by (rewrite Hp; apply NoDup_fst_map_to_list).
  assert (Hs : StronglySorted key_le (merge_sort key_le (map_to_list m))).
  { apply StronglySorted_merge_sort; apply _. }
  clear Hp. induction Hs as [|e l _ IH He]; [constructor|].
  rewrite fmap_cons in Hnd. apply NoDup_cons in Hnd as [Hn Hnd]. constructor; [by apply IH|].
  apply Forall_forall. intros x Hx. rewrite Forall_forall in He. specialize (He x Hx). unfold key_le in He.
  unfold key_lt. destruct (bytes_ltb e.1 x.1) eqn:E; [done|].
  exfalso. apply Hn. apply list_elem_of_fmap. exists x. split; [|done]. by apply bytes_ltb_total.
Qed.

Program Definition ref_db : RocksDB := {|
  rdb := gmap (list Z) (list Z);
  rdb_map d := d;
  rdb_put k v d := <[k := v]> d;
  rdb_del k d := delete k d;
  rdb_entries := sorted_entries;
  rdb_entries_sorted := sorted_entries_sorted
|}.
Next Obligation. done. Qed.
Next Obligation. done. Qed.
Next Obligation.
  intros d k v. unfold sorted_entries. rewrite merge_sort_Permutation. apply elem_of_map_to_list.
Qed.

(** Two events at heights 1 and 2: the range from 1 to 2 returns the first only. *)
Lemma getKeys_misses_stop_witness :
  let key (h i : Z) := uint64ToBytes h ++ uint64ToBytes i in
  let d := @put ref_db (@put ref_db (∅ : gmap _ _) (key 1 0) [5] pfx_events) (key 2 0) [6] pfx_events in
  @getKeys ref_db d pfx_events (uint64ToBytes 1) (uint64ToBytes 2) = [key 1 0] ∧
  uint64ToBytes 2 ++ uint64ToBytes 0 ∉ @getKeys ref_db d pfx_events (uint64ToBytes 1) (uint64ToBytes 2).
Proof. split; [by vm_compute|]. apply (@getKeys_misses_stop ref_db). done. Defined.
