(* ===== verification/Hex.v ===== *)
(** * Hex: hexadecimal strings (src/utils/hex.{h,cpp}) and the string form of an address

    A [std::string] or [std::string_view] is the list of its character codes.  [operator\[\]] of a
    [std::string_view] past the end is undefined behaviour; that of a [std::string] reads a zero at its
    size.  [Address]'s string constructor, [isValid] and [toChksum] (src/utils/strings.{h,cpp}) are here
    too. *)

From S2P Require Import Prelude Bytes SizedInts Hashing Abi.

Record Hex := mkHex { hex_ : list Z; strict_ : bool }.

Definition chr_0 : Z := 48.
Definition chr_x : Z := 120.
Definition chr_X : Z := 88.

Definition is_x (c : Z) : bool := (c =? chr_x) || (c =? chr_X).

(** [std::string::operator\[\]]. *)
Definition string_at (s : list Z) (i : nat) : result Z :=
  if decide (i = length s) then Ok 0 else read_at s i.

(** [hex\[0\] == '0' && (hex\[1\] == 'x' || hex\[1\] == 'X')], on a view and on a string. *)
Definition view_has_0x (hex : list Z) : result bool :=
  c ← read_at hex 0; if c =? chr_0 then d ← read_at hex 1; Ok (is_x d) else Ok false.

Definition string_has_0x (hex : list Z) : result bool :=
  c ← string_at hex 0; if c =? chr_0 then d ← string_at hex 1; Ok (is_x d) else Ok false.

Definition filter_chars : list Z := string_bytes "0123456789abcdefABCDEF".
Definition in_filter (c : Z) : bool := existsb (Z.eqb c) filter_chars.

#[local] Arguments in_filter : simpl never.

(** [find_first_not_of(filter, pos)]; [None] is [npos]. *)
Definition find_first_not_of (s : list Z) (pos : nat) : option nat :=
  option_map (λ p, (pos + p.1)%nat) (list_find (λ c, negb (in_filter c)) (drop pos s)).

Definition isValid (hex : list Z) (strict : bool) : bool :=
  if strict then
    match hex with
    | c :: d :: _ => (c =? chr_0) && is_x d && bool_decide (find_first_not_of hex 2 = None)
    | _ => false
    end
  else bool_decide (find_first_not_of hex 0 = None).

Definition bad_hex : exn := DynamicException "Invalid Hex string at constructor".

(** The two constructors from a string do the same to their copy.  The second half of the strict
    condition, [hex\[1\] != 'x' || hex\[1\] != 'X'], is always true; it still reads [hex\[1\]]. *)
Definition Hex_of (value : list Z) (strict : bool) : result Hex :=
  ret ← (if strict then
           c ← string_at value 0;
           if negb (c =? chr_0) then
             d ← string_at value 1;
             Ok (if negb (d =? chr_x) || negb (d =? chr_X) then [chr_0; chr_x] ++ value else value)
           else Ok value
         else
           b ← string_has_0x value;
           Ok (if b : bool then drop 2 value else value));
  if isValid ret strict then Ok (mkHex ret strict) else Throw bad_hex.

Definition digit (n : Z) : Z := if n <? 10 then chr_0 + n else 97 + (n - 10).

(** The string of zeros, whose first two characters are replaced (there may be none), ... *)
Definition fromBytes_init (n off : nat) : list Z := [chr_0; chr_x] ++ drop 2 (replicate (n * 2 + off) chr_0).

(** ... and the loop that writes the digits. *)
Fixpoint fromBytes_loop (hex : list Z) (off : nat) (bytes : list Z) : list Z :=
  match bytes with
  | [] => hex
  | b :: bytes =>
      let hex := <[off := digit (Z.land (Z.shiftr b 4) 15)]> hex in
      let hex := <[S off := digit (Z.land b 15)]> hex in
      fromBytes_loop hex (S (S off)) bytes
  end.

Definition fromBytes (bytes : list Z) (strict : bool) : result Hex :=
  let off := if strict then 2%nat else 0%nat in
  Hex_of (fromBytes_loop (fromBytes_init (length bytes) off) off bytes) strict.

(** [std::hex << setw(2) << setfill('0')] of a byte. *)
Definition hex2 (b : Z) : list Z := [digit (b / 16); digit (b mod 16)].

Definition fromUTF8 (str : list Z) (strict : bool) : result Hex :=
  Hex_of ((if strict then [chr_0; chr_x] else []) ++ concat (map hex2 str)) strict.

Definition toInt (c : Z) : Z :=
  if (48 <=? c) && (c <=? 57) then c - 48
  else if (97 <=? c) && (c <=? 102) then c - 97 + 10
  else if (65 <=? c) && (c <=? 70) then c - 65 + 10
  else -1.

(** [for (; i < hex.size(); i += 2)], on the rest of the string from [i]. *)
Fixpoint pairs_loop (s : list Z) : result (list Z) :=
  match s with
  | [] => Ok []
  | [_] => Throw Undefined
  | h :: l :: s => ret ← pairs_loop s; Ok ((toInt h * 16 + toInt l) mod 256 :: ret)
  end.

(** The first digit alone when the size is odd, then the pairs. *)
Definition digits_to_bytes (size : nat) (s : list Z) : result (list Z) :=
  if Nat.odd size then
    match s with
    | [] => Throw Undefined
    | h :: s => ret ← pairs_loop s; Ok (toInt h mod 256 :: ret)
    end
  else pairs_loop s.

Definition invalid_hex : exn := DynamicException "toBytes: Invalid hex string".

Definition toBytes (hex : list Z) : result (list Z) :=
  b ← view_has_0x hex;
  let i := if b : bool then 2%nat else 0%nat in
  match find_first_not_of hex i with
  | Some pos => Throw invalid_hex
  | None => digits_to_bytes (length hex) (drop i hex)
  end.

(** [Hex::bytes()]. *)
Definition Hex_bytes (h : Hex) : result (list Z) :=
  digits_to_bytes (length (hex_ h)) (drop (if strict_ h then 2 else 0) (hex_ h)).

(** [Hex::getUint()]: [import_bits] of at most 32 bytes. *)
Definition getUint (h : Hex) : result Z :=
  b ← toBytes (hex_ h);
  if (32 <? length b)%nat then Throw LengthError else Ok (be_decode b).

(** [while (retHex\[i\] == '0') retHex.erase(i, 1)]. *)
Fixpoint erase_zeros (s : list Z) : list Z :=
  match s with
  | [] => []
  | c :: s' => if c =? chr_0 then erase_zeros s' else s
  end.

Definition forRPC (h : Hex) : result (list Z) :=
  c ← string_at (hex_ h) 0;
  ret ← (if negb (c =? chr_0) then
           d ← string_at (hex_ h) 1;
           Ok (if negb (d =? chr_x) then [chr_0; chr_x] ++ hex_ h else hex_ h)
         else Ok (hex_ h));
  if decide (ret = [chr_0; chr_x]) then Ok [chr_0; chr_x; chr_0]
  else if (length ret <? 2)%nat then Throw Undefined
  else Ok (take 2 ret ++ erase_zeros (drop 2 ret)).

(** [operator+=]. *)
Definition Hex_append_string (h : Hex) (s : list Z) : result Hex :=
  b ← string_has_0x s;
  if isValid s b then Ok (mkHex (hex_ h ++ (if b : bool then drop 2 s else s)) (strict_ h))
  else Throw (DynamicException "Invalid Hex concat operation").

Definition Hex_append (h other : Hex) : Hex :=
  mkHex (hex_ h ++ (if strict_ other then drop 2 (hex_ other) else hex_ other)) (strict_ h).

(** ** Addresses as strings *)

Definition Address_isValid (add : list Z) (inBytes : bool) : result bool :=
  if inBytes then Ok (bool_decide (length add = 20%nat))
  else
    b ← view_has_0x add;
    if b : bool then Ok (bool_decide (length add = 42%nat) && bool_decide (find_first_not_of add 2 = None))
    else Ok (bool_decide (length add = 40%nat) && bool_decide (find_first_not_of add 0 = None)).

Definition Address_of_string (add : list Z) (inBytes : bool) : result (list Z) :=
  if inBytes then if decide (length add = 20%nat) then Ok add else Throw InvalidArgument
  else
    v ← Address_isValid add false;
    if v : bool then toBytes add else Throw InvalidArgument.

(** [std::isdigit], [std::toupper] on the hexadecimal letters. *)
Definition isdigit (c : Z) : bool := (48 <=? c) && (c <=? 57).
Definition toupper (c : Z) : Z := if (97 <=? c) && (c <=? 122) then c - 32 else c.
Definition tolower (c : Z) : Z := if (65 <=? c) && (c <=? 90) then c + 32 else c.

Section checksum.
Context `{Keccak}.

(** The loop of [toChksum]: the letter at [i] is a capital when digit [i] of the hash is 8 or more. *)
Definition chksum_loop (str hash : list Z) : list Z :=
  imap (λ i c, if isdigit c then c
    else if 8 <=? toInt (nth i hash 0) then toupper c else tolower c) str.

Definition toChksum (address : list Z) : result Hex :=
  str ← fromBytes address false;
  hash ← fromBytes (sha3 (hex_ str)) false;
  Hex_of ([chr_0; chr_x] ++ chksum_loop (hex_ str) (hex_ hash)) true.

(** [add == myAdd.toChksum()] compares the strings. *)
Definition isChksum (add : list Z) : result bool :=
  a ← Address_of_string add false;
  c ← toChksum a;
  Ok (bool_decide (add = hex_ c)).
End checksum.

(** ** Lemmas: digits *)

(** The character [c] is a digit of value [n], in either case. *)
Definition hexdigit (c n : Z) : Prop := 0 ≤ n < 16 ∧ (c = digit n ∨ c = toupper (digit n)).

Definition nibbles (bytes : list Z) : list Z := concat (map (λ b, [b / 16; b mod 16]) bytes).

Ltac nibble_cases n :=
  assert (n = 0 ∨ n = 1 ∨ n = 2 ∨ n = 3 ∨ n = 4 ∨ n = 5 ∨ n = 6 ∨ n = 7 ∨ n = 8 ∨ n = 9 ∨ n = 10 ∨ n = 11 ∨
    n = 12 ∨ n = 13 ∨ n = 14 ∨ n = 15) by lia;
  repeat match goal with H : _ ∨ _ |- _ => destruct H end; subst n.

Lemma hexdigit_spec c n :
  hexdigit c n → in_filter c = true ∧ toInt c = n ∧ is_x c = false ∧ hexdigit (toupper c) n ∧ hexdigit (tolower c) n.
Proof.
  intros (Hn & [-> | ->]); nibble_cases n; (repeat split; try done; cbn; auto).
Qed.

Lemma in_filter_digit n : 0 ≤ n < 16 → hexdigit (digit n) n.
Proof. split; auto. Qed.

Lemma nibbles_range b : bytes_ok b → Forall (λ n, 0 ≤ n < 16) (nibbles b).
Proof.
  intros Hb. apply Forall_concat, Forall_fmap. eapply Forall_impl; [exact Hb|].
  intros x Hx. unfold is_byte in Hx. cbn. repeat constructor; try (apply Z.div_pos; lia);
    try (apply Z.div_lt_upper_bound; lia); apply Z.mod_pos_bound; lia.
Qed.

Lemma hex2_nibbles b : concat (map hex2 b) = map digit (nibbles b).
Proof. induction b as [|x b IH]; [done|]. cbn. by rewrite IH. Qed.

Lemma nibbles_length b : length (nibbles b) = (2 * length b)%nat.
Proof. induction b as [|x b IH]; [done|]. cbn in *. unfold nibbles in IH. lia. Qed.

Lemma hexdigits_of b : bytes_ok b → Forall2 hexdigit (map digit (nibbles b)) (nibbles b).
Proof.
  intros Hb. apply Forall2_fmap_l, Forall_Forall2_diag.
  eapply Forall_impl; [by apply nibbles_range|]. apply in_filter_digit.
Qed.

Lemma hexdigits_filter s ns : Forall2 hexdigit s ns → Forall (λ c, in_filter c = true) s.
Proof. induction 1 as [|c n s ns Hc]; constructor; [|done]. by apply hexdigit_spec in Hc as [? _]. Qed.

Lemma find_none s pos : Forall (λ c, in_filter c = true) (drop pos s) → find_first_not_of s pos = None.
Proof.
  intros Hf. unfold find_first_not_of. rewrite (proj2 (list_find_None _ _)); [done|].
  eapply Forall_impl; [exact Hf|]. intros c Hc Hn. cbn in Hc. rewrite Hc in Hn. done.
Qed.

Lemma pairs_loop_hexdigits s b : bytes_ok b → Forall2 hexdigit s (nibbles b) → pairs_loop s = Ok b.
Proof.
  revert s. induction b as [|x b IH]; intros s Hb Hs; cbn in Hs.
  - by inversion Hs.
  - apply Forall2_cons_inv_r in Hs as (h & s1 & Hh & Hs & ->).
    apply Forall2_cons_inv_r in Hs as (l & s2 & Hl & Hs & ->).
    apply Forall_cons in Hb as [Hx Hb]. cbn [pairs_loop]. rewrite (IH _ Hb Hs). rewrite result_bind_Ok.
    apply hexdigit_spec in Hh as (_ & -> & _). apply hexdigit_spec in Hl as (_ & -> & _).
    f_equal. f_equal. unfold is_byte in Hx. rewrite Z.mul_comm, <- Z.div_mod by lia. apply Z.mod_small. lia.
Qed.

Lemma hexdigits_length s b : Forall2 hexdigit s (nibbles b) → length s = (2 * length b)%nat.
Proof. intros H. rewrite (Forall2_length _ _ _ H). apply nibbles_length. Qed.

Lemma even_not_odd n : Nat.odd (2 * n) = false.
Proof. by rewrite Nat.odd_mul. Qed.

(** A string of digits has no prefix, ... *)
Lemma hexdigits_no_0x s b :
  b ≠ [] → Forall2 hexdigit s (nibbles b) → view_has_0x s = Ok false ∧ string_has_0x s = Ok false.
Proof.
  intros Hne Hs. destruct b as [|x b]; [done|]. cbn in Hs.
  apply Forall2_cons_inv_r in Hs as (h & s1 & Hh & Hs & ->).
  apply Forall2_cons_inv_r in Hs as (l & s2 & Hl & Hs & ->).
  apply hexdigit_spec in Hl as (_ & _ & Hl & _).
  unfold view_has_0x, string_has_0x, string_at. rewrite !decide_False by (cbn; lia).
  change (read_at (h :: l :: s2) 0) with (Ok h). change (read_at (h :: l :: s2) 1) with (Ok l).
  rewrite !result_bind_Ok, Hl. by destruct (h =? chr_0).
Qed.

(** ... and with or without the prefix it decodes. *)
Lemma toBytes_hexdigits s b :
  bytes_ok b → b ≠ [] → Forall2 hexdigit s (nibbles b) →
  toBytes s = Ok b ∧ find_first_not_of s 0 = None.
Proof.
  intros Hb Hne Hs. assert (Hf : find_first_not_of s 0 = None) by by eapply find_none, hexdigits_filter.
  split; [|done]. unfold toBytes, digits_to_bytes. destruct (hexdigits_no_0x _ _ Hne Hs) as [-> _].
  rewrite result_bind_Ok, Hf, (hexdigits_length _ _ Hs), even_not_odd. by apply pairs_loop_hexdigits.
Qed.

Lemma toBytes_0x s b :
  bytes_ok b → Forall2 hexdigit s (nibbles b) →
  toBytes (chr_0 :: chr_x :: s) = Ok b ∧ find_first_not_of (chr_0 :: chr_x :: s) 2 = None.
Proof.
  intros Hb Hs.
  assert (Hf : find_first_not_of (chr_0 :: chr_x :: s) 2 = None) by by eapply find_none, hexdigits_filter.
  split; [|done]. unfold toBytes, digits_to_bytes.
  change (view_has_0x (chr_0 :: chr_x :: s)) with (Ok true). rewrite result_bind_Ok, Hf.
  cbn [length drop]. rewrite (hexdigits_length _ _ Hs).
  change (S (S (2 * length b))) with (2 + 2 * length b)%nat.
  replace (2 + 2 * length b)%nat with (2 * S (length b))%nat by lia.
  rewrite even_not_odd. by apply pairs_loop_hexdigits.
Qed.

Lemma isValid_0x s :
  isValid (chr_0 :: chr_x :: s) true = bool_decide (find_first_not_of (chr_0 :: chr_x :: s) 2 = None).
Proof. done. Qed.

(** ** Lemmas: printing *)

Lemma fromBytes_loop_spec bytes hex off :
  bytes_ok bytes → (off + 2 * length bytes = length hex)%nat →
  fromBytes_loop hex off bytes = take off hex ++ concat (map hex2 bytes).
Proof.
  revert hex off. induction bytes as [|b bytes IH]; intros hex off Hb Hl; cbn [fromBytes_loop].
  - cbn in *. rewrite app_nil_r, take_ge by lia. done.
  - apply Forall_cons in Hb as [Hx Hb]. cbn [length] in Hl. rewrite IH by (rewrite ?length_insert; done || lia).
    assert (Hhi : Z.land (Z.shiftr b 4) 15 = b / 16).
    { unfold is_byte in Hx. change 15 with (Z.ones 4). rewrite Z.land_ones, Z.shiftr_div_pow2 by lia.
      apply Z.mod_small. split; [apply Z.div_pos; lia|apply Z.div_lt_upper_bound; lia]. }
    assert (Hlo : Z.land b 15 = b mod 16) by (change 15 with (Z.ones 4); by rewrite Z.land_ones by lia).
    rewrite Hhi, Hlo. cbn [map concat]. rewrite app_assoc. f_equal.
    rewrite (take_S_r _ _ (digit (b mod 16))) by (rewrite list_lookup_insert_eq by (rewrite length_insert; lia); done).
    rewrite take_insert_ge by lia.
    rewrite (take_S_r _ _ (digit (b / 16))) by (rewrite list_lookup_insert_eq by lia; done).
    rewrite take_insert_ge by lia. unfold hex2. by rewrite <- app_assoc.
Qed.

Lemma fromBytes_string bytes strict :
  bytes_ok bytes →
  fromBytes bytes strict = Ok (mkHex ((if strict then [chr_0; chr_x] else []) ++ concat (map hex2 bytes)) strict).
Proof.
  intros Hb. unfold fromBytes, fromBytes_init, Hex_of. assert (Hd := hexdigits_of _ Hb).
  rewrite <- hex2_nibbles in Hd. destruct strict.
  - rewrite fromBytes_loop_spec by (cbn; try done; rewrite length_drop, length_replicate; lia).
    cbn [take app]. change (string_at (chr_0 :: chr_x :: _) 0) with (Ok chr_0). rewrite result_bind_Ok. cbn [negb chr_0 Z.eqb Pos.eqb].
    rewrite result_bind_Ok. rewrite isValid_0x. rewrite take_0. cbn [app]. destruct (toBytes_0x _ _ Hb Hd) as [_ ->]. done.
  - destruct bytes as [|b bytes]; [done|].
    rewrite fromBytes_loop_spec by (cbn [app length]; try done; rewrite length_drop, length_replicate; lia).
    rewrite take_0. cbn [app]. destruct (hexdigits_no_0x _ (b :: bytes) ltac:(done) Hd) as [_ ->].
    rewrite !result_bind_Ok.
    unfold isValid. destruct (toBytes_hexdigits _ (b :: bytes) Hb ltac:(done) Hd) as [_ ->]. done.
Qed.

(** hexadecimal strings read back. [Hex::fromBytes] never throws on bytes, with or without the
    prefix; [bytes()] of the result gives the bytes back, and so does [Hex::toBytes] of the string,
    except that the empty string has no first character to look at. *)
Theorem hex_roundtrip b strict :
  bytes_ok b → ∃ h, fromBytes b strict = Ok h ∧ isValid (hex_ h) strict = true ∧
    length (hex_ h) = (2 * length b + (if strict then 2 else 0))%nat ∧ Hex_bytes h = Ok b ∧
    toBytes (hex_ h) = if strict || negb (bool_decide (b = [])) then Ok b else Throw Undefined.
Proof.
  intros Hb. eexists. split; [by apply fromBytes_string|]. cbn [hex_].
  assert (Hd := hexdigits_of _ Hb). rewrite hex2_nibbles.
  assert (Hl := hexdigits_length _ _ Hd). unfold Hex_bytes, digits_to_bytes. cbn [hex_ strict_].
  destruct strict; cbn [app orb drop length].
  - destruct (toBytes_0x _ _ Hb Hd) as [-> Hf]. rewrite isValid_0x, Hf, Hl.
    split; [done|]. split; [lia|]. split; [|done].
    replace (S (S (2 * length b))) with (2 * S (length b))%nat by lia. rewrite even_not_odd.
    by apply pairs_loop_hexdigits.
  - split; [by apply bool_decide_eq_true, find_none; eapply hexdigits_filter|]. split; [lia|].
    rewrite Hl, even_not_odd. split; [by apply pairs_loop_hexdigits|].
    case_bool_decide; subst; [done|]. by destruct (toBytes_hexdigits _ b Hb ltac:(done) Hd) as [-> _].
Qed.

Lemma hex_roundtrip_witness :
  bytes_ok [0; 18; 255] ∧ ∃ h, fromBytes [0; 18; 255] true = Ok h ∧ isValid (hex_ h) true = true ∧
    length (hex_ h) = 8%nat ∧ Hex_bytes h = Ok [0; 18; 255] ∧ toBytes (hex_ h) = Ok [0; 18; 255].
Proof.
  assert (Hb : bytes_ok [0; 18; 255]) by (repeat constructor; done).
  split; [done|]. apply (hex_roundtrip [0; 18; 255] true Hb).
Defined.

(** ** Addresses *)

Lemma address_of_digits s a strict :
  bytes_ok a → length a = 20%nat → Forall2 hexdigit s (nibbles a) →
  Address_of_string ((if strict : bool then [chr_0; chr_x] else []) ++ s) false = Ok a.
Proof.
  intros Ha Hl Hs. assert (Hne : a ≠ []) by by destruct a. assert (Hls := hexdigits_length _ _ Hs).
  unfold Address_of_string, Address_isValid. destruct strict; cbn [app].
  - change (view_has_0x (chr_0 :: chr_x :: s)) with (Ok true). rewrite !result_bind_Ok.
    destruct (toBytes_0x _ _ Ha Hs) as [-> ->]. rewrite !bool_decide_true by (cbn; done || lia). done.
  - destruct (hexdigits_no_0x _ _ Hne Hs) as [-> _]. rewrite !result_bind_Ok.
    destruct (toBytes_hexdigits _ _ Ha Hne Hs) as [-> ->]. rewrite !bool_decide_true by (done || lia). done.
Qed.

Section addresses.
Context `{Keccak}.

Lemma chksum_loop_digits str hash ns : Forall2 hexdigit str ns → Forall2 hexdigit (chksum_loop str hash) ns.
Proof.
  intros Hs. apply Forall2_same_length_lookup. rewrite <- (Forall2_length _ _ _ Hs). unfold chksum_loop.
  split; [by rewrite length_imap|]. intros i c n Hc Hn.
  rewrite list_lookup_imap in Hc. apply fmap_Some in Hc as (c0 & Hc0 & ->).
  assert (Hcn := Forall2_lookup_lr _ _ _ _ _ _ Hs Hc0 Hn).
  assert (Hsp := hexdigit_spec _ _ Hcn). destruct (isdigit c0); [done|].
  destruct (8 <=? _); apply Hsp.
Qed.

(** the string forms of an address read back. [Address(str, false)] gives the address from its
    hexadecimal string, prefixed or not, and from its checksummed form, which [toChksum] always produces
    and which [isChksum] accepts. *)
Theorem address_strings a :
  bytes_ok a → length a = 20%nat →
  (∀ strict, ∃ h, fromBytes a strict = Ok h ∧ Address_of_string (hex_ h) false = Ok a) ∧
  ∃ c, toChksum a = Ok c ∧ Address_of_string (hex_ c) false = Ok a ∧ isChksum (hex_ c) = Ok true.
Proof.
  intros Ha Hl. split.
  - intros strict. eexists. split; [by apply fromBytes_string|]. cbn [hex_]. rewrite hex2_nibbles.
    apply address_of_digits; [done|done|by apply hexdigits_of].
  - assert (Hc : ∃ hash, toChksum a = Ok (mkHex ([chr_0; chr_x] ++ chksum_loop (map digit (nibbles a)) hash) true)).
    { unfold toChksum. rewrite fromBytes_string by done. rewrite result_bind_Ok.
      rewrite fromBytes_string by apply keccak_bytes. rewrite result_bind_Ok. cbn [hex_ app].
      rewrite hex2_nibbles. exists (concat (map hex2 (sha3 (map digit (nibbles a))))).
      unfold Hex_of. change (string_at (chr_0 :: chr_x :: _) 0) with (Ok chr_0).
      rewrite result_bind_Ok. cbn [negb chr_0 Z.eqb Pos.eqb]. rewrite result_bind_Ok, isValid_0x.
      assert (Hd := chksum_loop_digits _ (concat (map hex2 (sha3 (map digit (nibbles a))))) _ (hexdigits_of _ Ha)).
      destruct (toBytes_0x _ _ Ha Hd) as [_ ->]. done. }
    destruct Hc as [hash Hc]. eexists. split; [exact Hc|].
    assert (Hr : Address_of_string (hex_ (mkHex ([chr_0; chr_x] ++ chksum_loop (map digit (nibbles a)) hash) true)) false = Ok a).
    { apply (address_of_digits _ a true); [done|done|]. apply chksum_loop_digits, hexdigits_of, Ha. }
    split; [exact Hr|]. unfold isChksum. rewrite Hr, result_bind_Ok, Hc, result_bind_Ok. f_equal.
    by apply bool_decide_eq_true.
Qed.
End addresses.

Lemma address_strings_witness :
  let a := zero_bytes 19 ++ [171] in
  bytes_ok a ∧ (∀ strict, ∃ h, fromBytes a strict = Ok h ∧ Address_of_string (hex_ h) false = Ok a) ∧
  ∃ c, @toChksum toy_hash a = Ok c ∧ Address_of_string (hex_ c) false = Ok a ∧ @isChksum toy_hash (hex_ c) = Ok true.
Proof.
  assert (Hb : bytes_ok (zero_bytes 19 ++ [171])) by by_compute.
  split; [done|]. apply (@address_strings toy_hash); [done|done].
Defined.

(** [forRPC] does not always give a quantity. A hexadecimal string of zeros loses all its digits,
    and one without prefix whose first digit is zero gets none. *)
Theorem forRPC_malformed n s :
  (0 < n)%nat →
  forRPC (mkHex ([chr_0; chr_x] ++ replicate n chr_0) true) = Ok [chr_0; chr_x] ∧
  (∀ c, is_x c = false → c ≠ chr_0 → s ≠ [] →
     forRPC (mkHex (chr_0 :: c :: s) false) = Ok (chr_0 :: c :: erase_zeros s)).
Proof.
  intros Hn. split.
  - unfold forRPC. cbn [hex_ app]. change (string_at (chr_0 :: chr_x :: _) 0) with (Ok chr_0).
    rewrite result_bind_Ok. cbn [negb chr_0 Z.eqb Pos.eqb]. rewrite result_bind_Ok.
    destruct n as [|n]; [lia|]. rewrite decide_False by done. cbn [length Nat.ltb Nat.leb take drop]. f_equal.
    cbn [app]. f_equal. f_equal. clear. induction n as [|n IH]; [done|]. exact IH.
  - intros c Hc Hc0 Hs. unfold forRPC. cbn [hex_]. change (string_at (chr_0 :: c :: s) 0) with (Ok chr_0).
    rewrite result_bind_Ok. cbn [negb chr_0 Z.eqb Pos.eqb]. rewrite result_bind_Ok.
    rewrite decide_False by (destruct s; congruence). done.
Qed.
