(* ===== verification/Event.v ===== *)
(** * Event: contract events and their manager (src/contract/event.{h,cpp})

    The boost multi-index container is the list of its events in insertion order; an [ordered_non_unique]
    index visits them sorted by its key, equal keys in insertion order.  JSON text is third-party code:
    the class [Json] gives the printer and the parser of nlohmann's ordered_json, which keeps the order
    of the members. *)

From stdpp Require Import sorting.
From S2P Require Import Prelude Bytes SizedInts Hashing Abi Hex DB.

#[warnings="-register-all"]
Inductive json :=
| JString (s : list Z)
| JNumber (n : Z)
| JBool (b : bool)
| JArray (l : list json)
| JObject (members : list (list Z * json)).

(** What has a JSON text: ASCII strings. *)
Definition ascii (s : list Z) : Prop := Forall (λ c, 0 ≤ c < 128) s.

Fixpoint json_ok (j : json) : Prop :=
  match j with
  | JString s => ascii s
  | JNumber _ | JBool _ => True
  | JArray l => fold_right (λ j P, json_ok j ∧ P) True l
  | JObject ms => fold_right (λ m P, (ascii m.1 ∧ json_ok m.2) ∧ P) True ms
  end.

Class Json := {
  dump : json → list Z;
  parse : list Z → result json;
  json_parse_dump j : json_ok j → parse (dump j) = Ok j
}.

(** The conversions of a JSON value throw when it has another type; [obj\[key\]] of a missing key is null. *)
Definition type_error : exn := DynamicException "json.exception.type_error".

Definition member (j : json) (key : string) : result json :=
  match j with
  | JObject ms => match list_find (λ m, m.1 = string_bytes key) ms with
                  | Some (_, m) => Ok m.2
                  | None => Throw type_error
                  end
  | _ => Throw type_error
  end.

Definition get_string (j : json) : result (list Z) := match j with JString s => Ok s | _ => Throw type_error end.
Definition get_uint64 (j : json) : result Z := match j with JNumber n => Ok (n mod 2 ^ 64) | _ => Throw type_error end.
Definition get_bool (j : json) : result bool := match j with JBool b => Ok b | _ => Throw type_error end.
Definition get_array (j : json) : result (list json) := match j with JArray l => Ok l | _ => Throw type_error end.
Definition get_byte (j : json) : result Z := match j with JNumber n => Ok (n mod 256) | _ => Throw type_error end.

(** [std::string::substr(2)]. *)
Definition substr2 (s : list Z) : result (list Z) :=
  if (length s <? 2)%nat then Throw OutOfRange else Ok (drop 2 s).

Record Event := mkEvent {
  name_ : list Z;
  logIndex_ : Z;
  evt_txHash_ : list Z;
  evt_txIndex_ : Z;
  evt_blockHash_ : list Z;
  blockIndex_ : Z;
  address_ : list Z;
  evt_data_ : list Z;
  topics_ : list (list Z);
  anonymous_ : bool
}.

Definition setStateData (e : Event) (logIndex : Z) (txHash : list Z) (txIndex : Z) (blockHash : list Z)
    (blockIndex : Z) : Event :=
  mkEvent (name_ e) logIndex txHash txIndex blockHash blockIndex (address_ e) (evt_data_ e) (topics_ e)
    (anonymous_ e).

Definition getSelector (e : Event) : result (list Z) :=
  if negb (anonymous_ e) then read_at (topics_ e) 0 else Ok zero_hash.

(** ** Encoding of the arguments ([ABI::EventEncoder], src/contract/abi.h) *)

Section encoder.
Context `{BoostBits} `{Keccak}.

(** [EventEncoder::TypeEncoder<T>]: tuples and vectors in place, strings padded without their length. *)
Fixpoint event_encode (t : abi_ty) (v : abi_val) : list Z :=
  match t, v with
  | TBytes, VBytes bs | TString, VBytes bs => event_encode_bytes bs
  | TTuple ts, VList vs => concat (zip_with event_encode ts vs)
  | TVector t, VList vs => concat (map (event_encode t) vs)
  | THash, _ => []
  | _, _ => encode t v
  end.

Definition encodeTopicSignature (t : abi_ty) (item : abi_val) : list Z :=
  match t, item with
  | TBytes, VBytes bs | TString, VBytes bs => sha3 bs
  | TTuple _, _ | TVector _, _ => sha3 (event_encode t item)
  | _, _ => event_encode t item
  end.

(** [encodeEventData]: the indexed arguments are skipped, but they count in the size of the head. *)
Definition encodeEventData (params : list ((abi_ty * bool) * abi_val)) : list Z :=
  encode_items (calculateTotalOffset (map (λ p, p.1.1) params))
    (concat (map (λ p : (abi_ty * bool) * abi_val,
       if p.1.2 then [] else [(isDynamic p.1.1, encode p.1.1 p.2)]) params)).
End encoder.

(** The topics of an event built by a contract: its signature unless it is anonymous, then the encodings
    of the indexed arguments, four in all at most. *)
Definition event_topics (anonymous : bool) (eventSignature : list Z) (indexed : list (list Z)) : list (list Z) :=
  take 4 ((if anonymous then [] else [eventSignature]) ++ indexed).

(** The constructor the contracts use leaves the block and transaction data as the memory had them:
    [junk] is that event. *)
Definition Event_new `{Keccak} `{BoostBits} (junk : Event) (name : string) (address : list Z)
    (ts : list (abi_ty * bool)) (vs : list abi_val) (anonymous : bool) : Event :=
  let params := zip ts vs in
  let indexed := concat (map (λ p : (abi_ty * bool) * abi_val,
    if p.1.2 then [encodeTopicSignature p.1.1 p.2] else []) params) in
  mkEvent (string_bytes name) (logIndex_ junk) (evt_txHash_ junk) (evt_txIndex_ junk) (evt_blockHash_ junk)
    (blockIndex_ junk) address (encodeEventData params)
    (event_topics anonymous (encodeSignature name (map fst ts)) indexed) anonymous.

(** ** JSON *)

Definition hex_string (b : list Z) : result json := h ← fromBytes b true; Ok (JString (hex_ h)).

Definition key (s : string) : list Z := string_bytes s.

Section events.
Context {JS : Json}.

Definition event_json (e : Event) : result json :=
  topicArr ← mapR hex_string (topics_ e);
  txHash ← hex_string (evt_txHash_ e);
  blockHash ← hex_string (evt_blockHash_ e);
  address ← hex_string (address_ e);
  Ok (JObject [
    (key "name", JString (name_ e));
    (key "logIndex", JNumber (logIndex_ e));
    (key "txHash", txHash);
    (key "txIndex", JNumber (evt_txIndex_ e));
    (key "blockHash", blockHash);
    (key "blockIndex", JNumber (blockIndex_ e));
    (key "address", address);
    (key "data", JArray (map JNumber (evt_data_ e)));
    (key "topics", JArray topicArr);
    (key "anonymous", JBool (anonymous_ e))]).

Definition serialize (e : Event) : result (list Z) := j ← event_json e; Ok (dump j).

(** [Hash(Hex::toBytes(s.substr(2)))] and the topics, whose prefix [toBytes] skips itself. *)
Definition hash_of_hex (s : list Z) : result (list Z) :=
  s ← substr2 s; b ← toBytes s; FixedBytes_of 32 b.

Definition Event_of_json (jsonstr : list Z) : result Event :=
  obj ← parse jsonstr;
  name ← (j ← member obj "name"; get_string j);
  logIndex ← (j ← member obj "logIndex"; get_uint64 j);
  txHash ← (j ← member obj "txHash"; s ← get_string j; hash_of_hex s);
  txIndex ← (j ← member obj "txIndex"; get_uint64 j);
  blockHash ← (j ← member obj "blockHash"; s ← get_string j; hash_of_hex s);
  blockIndex ← (j ← member obj "blockIndex"; get_uint64 j);
  address ← (j ← member obj "address"; s ← get_string j; Address_of_string s false);
  data ← (j ← member obj "data"; l ← get_array j; mapR get_byte l);
  topics ← (j ← member obj "topics"; l ← get_array j;
            mapR (λ t, s ← get_string t; b ← toBytes s; FixedBytes_of 32 b) l);
  anonymous ← (j ← member obj "anonymous"; get_bool j);
  Ok (mkEvent name logIndex txHash txIndex blockHash blockIndex address data topics anonymous).

(** [serializeForRPC]: the numbers are the eight bytes in hexadecimal. *)
Definition hex_u64 (n : Z) : result json := hex_string (uint64ToBytes n).

Definition serializeForRPC (e : Event) : result (list Z) :=
  topics ← mapR hex_string (topics_ e);
  address ← hex_string (address_ e);
  blockHash ← hex_string (evt_blockHash_ e);
  blockNumber ← hex_u64 (blockIndex_ e);
  data ← hex_string (evt_data_ e);
  logIndex ← hex_u64 (logIndex_ e);
  txHash ← hex_string (evt_txHash_ e);
  txIndex ← hex_u64 (evt_txIndex_ e);
  Ok (dump (JObject [
    (key "address", address);
    (key "blockHash", blockHash);
    (key "blockNumber", blockNumber);
    (key "data", data);
    (key "logIndex", logIndex);
    (key "removed", JBool false);
    (key "topics", JArray topics);
    (key "transactionHash", txHash);
    (key "transactionIndex", txIndex)])).

(** ** The manager *)

(** Insertion at the upper bound of the key, and an index of a container. *)
Fixpoint insert_upper (lt : Event → Event → bool) (e : Event) (l : list Event) : list Event :=
  match l with
  | [] => [e]
  | x :: l => if lt e x then e :: x :: l else x :: insert_upper lt e l
  end.

Definition index_by (lt : Event → Event → bool) (l : list Event) : list Event :=
  foldl (λ acc e, insert_upper lt e acc) [] l.

Definition by_block : list Event → list Event := index_by (λ a b, blockIndex_ a <? blockIndex_ b).
Definition by_address : list Event → list Event := index_by (λ a b, bytes_ltb (address_ a) (address_ b)).
Definition by_txHash : list Event → list Event := index_by (λ a b, bytes_ltb (evt_txHash_ a) (evt_txHash_ b)).

Record EventManager := mkEventManager {
  events_ : list Event;
  tempEvents_ : list Event
}.

Definition registerEvent (e : Event) (em : EventManager) : EventManager :=
  mkEventManager (events_ em) (tempEvents_ em ++ [e]).

Definition commitEvent (e : Event) (em : EventManager) : EventManager :=
  mkEventManager (events_ em ++ [e]) (tempEvents_ em).

(** [blockHash] and [blockHeight] are those of the [ContractGlobals]. *)
Definition commitEvents (txHash : list Z) (txIndex : Z) (blockHash : list Z) (blockHeight : Z)
    (em : EventManager) : EventManager :=
  mkEventManager
    (events_ em ++ imap (λ logIndex e, setStateData e (Z.of_nat logIndex) txHash txIndex blockHash blockHeight)
       (by_block (tempEvents_ em)))
    [].

Definition revertEvents (em : EventManager) : EventManager := mkEventManager (events_ em) [].

Definition matchTopics (e : Event) (topics : list (list Z)) : bool :=
  match topics with
  | [] => true
  | _ => if (length (topics_ e) <? length topics)%nat then false
         else bool_decide (take (length topics) (topics_ e) = topics)
  end.

(** With an address: from its lower bound in the address index, as long as the height is at most
    [toBlock]. *)
Definition filterFromMemory (em : EventManager) (fromBlock toBlock : Z) (address : list Z) : list Event :=
  if decide (address ≠ zero_address) then
    List.filter (λ e, fromBlock <=? blockIndex_ e)
      (take_while (λ e, blockIndex_ e <=? toBlock)
        (drop_while (λ e, bytes_ltb (address_ e) address) (by_address (events_ em))))
  else
    List.filter (λ e, (fromBlock <=? blockIndex_ e) && (blockIndex_ e <=? toBlock)) (by_block (events_ em)).

Context {RDB : RocksDB}.

(** [create_view_span(vec, start, size)]. *)
Definition view_span (l : list Z) (start size : nat) : result (list Z) :=
  if (length l <? start + size)%nat then Throw (DynamicException "Invalid range for span")
  else Ok (take size (drop start l)).

(** The loop that appends the events found until the cap is reached. *)
Fixpoint fetch_loop (cap : nat) (keep : Event → bool) (ret : list Event) (items : list Entry) : result (list Event) :=
  match items with
  | [] => Ok ret
  | item :: items =>
      if (cap <=? length ret)%nat then Ok ret
      else e ← Event_of_json item.2; fetch_loop cap keep (if keep e then ret ++ [e] else ret) items
  end.

Definition key_in_range (fromBlock toBlock : Z) (address k : list Z) : result bool :=
  h ← (s ← view_span k 0 8; bytesToUint64 s);
  addr ← view_span k 24 20;
  Ok ((fromBlock <=? h) && (h <=? toBlock) && (bool_decide (address = zero_address) || bool_decide (address = addr))).

Fixpoint filter_keys (fromBlock toBlock : Z) (address : list Z) (keys : list (list Z)) : result (list (list Z)) :=
  match keys with
  | [] => Ok []
  | k :: keys =>
      b ← key_in_range fromBlock toBlock address k;
      rest ← filter_keys fromBlock toBlock address keys;
      Ok (if b : bool then k :: rest else rest)
  end.

Definition filterFromDB (logCap : nat) (d : rdb) (fromBlock toBlock : Z) (address : list Z)
    (topics : list (list Z)) : result (list Event) :=
  dbKeys ← filter_keys fromBlock toBlock address
    (getKeys d pfx_events (uint64ToBytes fromBlock) (uint64ToBytes toBlock));
  fetch_loop logCap (λ e, matchTopics e topics) [] (getBatch d pfx_events dbKeys).

Definition getEvents (blockCap : Z) (logCap : nat) (d : rdb) (em : EventManager) (fromBlock toBlock : Z)
    (address : list Z) (topics : list (list Z)) : result (list Event) :=
  let heightDiff := Z.max fromBlock toBlock - Z.min fromBlock toBlock in
  if blockCap <? heightDiff then Throw OutOfRange
  else
    let ret := take logCap (List.filter (λ e, matchTopics e topics) (filterFromMemory em fromBlock toBlock address)) in
    if (logCap <=? length ret)%nat then Ok ret
    else
      es ← filterFromDB logCap d fromBlock toBlock address topics;
      Ok (ret ++ take (logCap - length ret) es).

(** [getEvents(txHash, blockIndex, txIndex)]. *)
Definition getEvents_tx (logCap : nat) (d : rdb) (em : EventManager) (txHash : list Z) (blockIndex txIndex : Z) :
    result (list Event) :=
  let ret := take logCap (List.filter (λ e, (blockIndex_ e =? blockIndex) && (evt_txIndex_ e =? txIndex))
    (List.filter (λ e, bool_decide (evt_txHash_ e = txHash)) (by_txHash (events_ em)))) in
  let fetchBytes := pfx_events ++ uint64ToBytes blockIndex ++ uint64ToBytes txIndex in
  fetch_loop logCap (λ _, true) ret (getBatch d fetchBytes []).

(** The constructor and the destructor. *)
Definition EventManager_load (d : rdb) : result EventManager :=
  es ← mapR (λ item : Entry, Event_of_json item.2) (getBatch d pfx_events []);
  Ok (mkEventManager es []).

Definition event_key (e : Event) : list Z :=
  uint64ToBytes (blockIndex_ e) ++ uint64ToBytes (evt_txIndex_ e) ++ uint64ToBytes (logIndex_ e) ++ address_ e.

Definition EventManager_save (em : EventManager) (d : rdb) : result rdb :=
  batch ← foldM (λ b e, s ← serialize e; Ok (push_back b (event_key e) s pfx_events)) DBBatch_new
    (by_block (events_ em));
  Ok (putBatch d batch).
End events.

(** ** Lemmas: the JSON of an event *)

Definition wf_hash (h : list Z) : Prop := bytes_ok h ∧ length h = 32%nat.

Record wf_event (e : Event) : Prop := {
  wf_name : ascii (name_ e);
  wf_log : in_uint 64 (logIndex_ e);
  wf_txHash : wf_hash (evt_txHash_ e);
  wf_txIndex : in_uint 64 (evt_txIndex_ e);
  wf_blockHash : wf_hash (evt_blockHash_ e);
  wf_block : in_uint 64 (blockIndex_ e);
  wf_address : bytes_ok (address_ e) ∧ length (address_ e) = 20%nat;
  wf_data : bytes_ok (evt_data_ e);
  wf_topics : Forall wf_hash (topics_ e)
}.

(** The string [fromBytes(b, true)] gives. *)
Definition hexs (b : list Z) : list Z := [chr_0; chr_x] ++ concat (map hex2 b).

Lemma hex_string_hexs b : bytes_ok b → hex_string b = Ok (JString (hexs b)).
Proof. intros Hb. unfold hex_string. by rewrite fromBytes_string. Qed.

Lemma hexs_ascii b : bytes_ok b → ascii (hexs b).
Proof.
  intros Hb. unfold hexs, ascii. apply Forall_app. split; [by repeat constructor|].
  rewrite hex2_nibbles. apply Forall_fmap. eapply Forall_impl; [by apply nibbles_range|].
  intros n Hn. change (0 ≤ n < 16) in Hn. change (0 ≤ digit n < 128). unfold digit, chr_0. zcase; lia.
Qed.

Lemma toBytes_hexs b : bytes_ok b → toBytes (hexs b) = Ok b.
Proof. intros Hb. apply toBytes_0x; [done|]. rewrite hex2_nibbles. by apply hexdigits_of. Qed.

Lemma hash_of_hexs h : wf_hash h → hash_of_hex (hexs h) = Ok h.
Proof.
  intros [Hb Hl]. unfold hash_of_hex. change (substr2 (hexs h)) with (Ok (concat (map hex2 h))).
  rewrite result_bind_Ok, hex2_nibbles.
  destruct (toBytes_hexdigits _ h Hb ltac:(by destruct h) (hexdigits_of _ Hb)) as [-> _].
  rewrite result_bind_Ok. unfold FixedBytes_of. by rewrite decide_True.
Qed.

Lemma address_of_hexs a : bytes_ok a → length a = 20%nat → Address_of_string (hexs a) false = Ok a.
Proof.
  intros Hb Hl. apply (address_of_digits _ a true); [done|done|]. rewrite hex2_nibbles. by apply hexdigits_of.
Qed.

Lemma mapR_all {A B} (f : A → result B) (l : list A) (g : A → B) :
  Forall (λ x, f x = Ok (g x)) l → mapR f l = Ok (map g l).
Proof. induction 1 as [|x l Hx _ IH]; [done|]. cbn. by rewrite Hx, result_bind_Ok, IH. Qed.

(** The JSON object of a well-formed event. *)
Definition json_of (e : Event) : json :=
  JObject [
    (key "name", JString (name_ e));
    (key "logIndex", JNumber (logIndex_ e));
    (key "txHash", JString (hexs (evt_txHash_ e)));
    (key "txIndex", JNumber (evt_txIndex_ e));
    (key "blockHash", JString (hexs (evt_blockHash_ e)));
    (key "blockIndex", JNumber (blockIndex_ e));
    (key "address", JString (hexs (address_ e)));
    (key "data", JArray (map JNumber (evt_data_ e)));
    (key "topics", JArray (map (λ t, JString (hexs t)) (topics_ e)));
    (key "anonymous", JBool (anonymous_ e))].

Lemma event_json_of e : wf_event e → event_json e = Ok (json_of e).
Proof.
  intros []. unfold event_json. rewrite (mapR_all _ _ (λ t, JString (hexs t))).
  2:{ eapply Forall_impl; [done|]. intros t [Ht _]. by apply hex_string_hexs. }
  rewrite !hex_string_hexs by (by apply wf_txHash0 || by apply wf_blockHash0 || by apply wf_address0). done.
Qed.

Lemma json_of_ok e : wf_event e → json_ok (json_of e).
Proof.
  intros [].
  assert (Hn : ∀ l, json_ok (JArray (map JNumber l))) by (induction l; by split).
  assert (Ht : json_ok (JArray (map (λ t, JString (hexs t)) (topics_ e)))).
  { induction wf_topics0 as [|t l [Ht _] _ IH]; [done|]. split; [by apply hexs_ascii|exact IH]. }
  cbn [json_of json_ok fold_right fst snd].
  repeat match goal with |- _ ∧ _ => split end;
    first [exact I | exact wf_name0 | exact (Hn _) | exact Ht
          | apply hexs_ascii; (apply wf_txHash0 || apply wf_blockHash0 || apply wf_address0)
          | unfold ascii; by_compute].
Qed.

Section events.
Context {JS : Json}.

Lemma serialize_wf e : wf_event e → serialize e = Ok (dump (json_of e)).
Proof. intros He. unfold serialize. by rewrite event_json_of. Qed.

Lemma Event_of_json_of e : wf_event e → Event_of_json (dump (json_of e)) = Ok e.
Proof.
  intros He. unfold Event_of_json. rewrite json_parse_dump by by apply json_of_ok. rewrite result_bind_Ok.
  destruct He.
  assert (Hu : ∀ n, in_uint 64 n → get_uint64 (JNumber n) = Ok n)
    by (intros n [? ?]; cbn; by rewrite Z.mod_small).
  change (member (json_of e) "name") with (Ok (JString (name_ e))). rewrite !result_bind_Ok. cbn [get_string].
  rewrite !result_bind_Ok.
  change (member (json_of e) "logIndex") with (Ok (JNumber (logIndex_ e))). rewrite result_bind_Ok, Hu, result_bind_Ok by done.
  change (member (json_of e) "txHash") with (Ok (JString (hexs (evt_txHash_ e)))). rewrite result_bind_Ok.
  cbn [get_string]. rewrite result_bind_Ok, hash_of_hexs, result_bind_Ok by done.
  change (member (json_of e) "txIndex") with (Ok (JNumber (evt_txIndex_ e))). rewrite result_bind_Ok, Hu, result_bind_Ok by done.
  change (member (json_of e) "blockHash") with (Ok (JString (hexs (evt_blockHash_ e)))). rewrite result_bind_Ok.
  cbn [get_string]. rewrite result_bind_Ok, hash_of_hexs, result_bind_Ok by done.
  change (member (json_of e) "blockIndex") with (Ok (JNumber (blockIndex_ e))). rewrite result_bind_Ok, Hu, result_bind_Ok by done.
  change (member (json_of e) "address") with (Ok (JString (hexs (address_ e)))). rewrite result_bind_Ok.
  cbn [get_string]. rewrite result_bind_Ok, address_of_hexs, result_bind_Ok by apply wf_address0.
  change (member (json_of e) "data") with (Ok (JArray (map JNumber (evt_data_ e)))). rewrite result_bind_Ok.
  cbn [get_array]. rewrite result_bind_Ok, (mapR_all _ _ (λ j, match j with JNumber n => n | _ => 0 end)).
  2:{ apply Forall_fmap. eapply Forall_impl; [exact wf_data0|]. intros b Hb. cbn. by rewrite Z.mod_small. }
  rewrite result_bind_Ok.
  change (member (json_of e) "topics") with (Ok (JArray (map (λ t, JString (hexs t)) (topics_ e)))).
  rewrite result_bind_Ok. cbn [get_array].
  rewrite result_bind_Ok, (mapR_all _ _ (λ j, match j with JString s => default [] (match toBytes s with Ok b => Some b | _ => None end) | _ => [] end)).
  2:{ apply Forall_fmap. eapply Forall_impl; [exact wf_topics0|]. intros b [Hb Hl]. cbn [get_string compose].
      rewrite result_bind_Ok, toBytes_hexs, result_bind_Ok by done. cbn. unfold FixedBytes_of. by rewrite decide_True. }
  rewrite result_bind_Ok.
  change (member (json_of e) "anonymous") with (Ok (JBool (anonymous_ e))). rewrite result_bind_Ok. cbn [get_bool].
  rewrite result_bind_Ok. f_equal. destruct e. cbn [evt_data_ topics_ name_ logIndex_ evt_txHash_ evt_txIndex_
    evt_blockHash_ blockIndex_ address_ anonymous_] in *. f_equal.
  - rewrite map_map. apply map_id.
  - rewrite map_map. etransitivity; [|apply map_id]. apply map_ext_Forall.
    eapply Forall_impl; [exact wf_topics0|]. intros t [Ht _]. by rewrite toBytes_hexs.
Qed.

(** the JSON text of an event reads back as the event. *)
Theorem event_roundtrip e :
  wf_event e → ∃ s, serialize e = Ok s ∧ Event_of_json s = Ok e.
Proof. intros He. eexists. split; [by apply serialize_wf|by apply Event_of_json_of]. Qed.
End events.

(** ** Lemmas: the indexes *)

Lemma insert_upper_perm lt e l : insert_upper lt e l ≡ₚ e :: l.
Proof.
  induction l as [|x l IH]; cbn; [done|]. destruct (lt e x); [done|]. rewrite IH. apply Permutation_swap.
Qed.

Lemma foldl_insert_perm lt l acc : foldl (λ acc e, insert_upper lt e acc) acc l ≡ₚ l ++ acc.
Proof.
  revert acc. induction l as [|e l IH]; intros acc; cbn; [done|].
  rewrite IH, insert_upper_perm. symmetry. apply Permutation_middle.
Qed.

Lemma index_by_perm lt l : index_by lt l ≡ₚ l.
Proof. unfold index_by. by rewrite foldl_insert_perm, app_nil_r. Qed.

Section sorted.
Variable lt : Event → Event → bool.
Hypothesis lt_asym : ∀ a b, lt a b = true → lt b a = false.
Hypothesis lt_negtrans : ∀ a b c, lt b a = false → lt c b = false → lt c a = false.

Definition idx_le (a b : Event) : Prop := lt b a = false.

Lemma insert_upper_sorted e l : StronglySorted idx_le l → StronglySorted idx_le (insert_upper lt e l).
Proof.
  induction 1 as [|x l Hs IH Hx]; cbn; [by repeat constructor|]. destruct (lt e x) eqn:E.
  - constructor; [by constructor|]. apply Forall_cons. split; [by apply lt_asym|].
    eapply Forall_impl; [exact Hx|]. intros y Hy. unfold idx_le in *.
    eapply lt_negtrans; [|exact Hy]. by apply lt_asym.
  - constructor; [done|]. rewrite insert_upper_perm. by constructor.
Qed.

Lemma index_by_sorted l : StronglySorted idx_le (index_by lt l).
Proof.
  unfold index_by. assert (H0 : StronglySorted idx_le []) by constructor. revert H0.
  generalize (@nil Event). induction l as [|e l IH]; intros acc Hacc; cbn; [done|].
  by apply IH, insert_upper_sorted.
Qed.
End sorted.

Lemma bytes_ltb_negtrans a b c : bytes_ltb b a = false → bytes_ltb c b = false → bytes_ltb c a = false.
Proof.
  intros Hba Hcb. apply not_true_is_false. intros Hca. destruct (bytes_ltb b c) eqn:E.
  - assert (Hc := bytes_ltb_trans _ _ _ E Hca). congruence.
  - assert (Heq := bytes_ltb_total _ _ E Hcb). congruence.
Qed.

(** In an index the elements from a lower bound on are those not below it. *)
Lemma drop_while_index (lt : Event → Event → bool) (below : Event → bool) l e :
  StronglySorted (idx_le lt) l →
  (∀ x y, idx_le lt x y → below x = false → below y = false) →
  e ∈ drop_while below l ↔ e ∈ l ∧ below e = false.
Proof.
  intros Hs Hb. induction Hs as [|x l Hs IH Hx]; cbn [drop_while].
  - split; [by intros ?%not_elem_of_nil|by intros [?%not_elem_of_nil _]].
  - destruct (below x) eqn:E.
    + rewrite IH, elem_of_cons. split; [intros [? ?]; auto|]. intros [[->|?] ?]; [congruence|done].
    + split; [|tauto]. intros He. split; [done|]. apply elem_of_cons in He as [->|He]; [done|].
      rewrite Forall_forall in Hx. by eapply Hb, E; apply Hx.
Qed.

Lemma take_while_all {A} (f : A → bool) l : Forall (λ x, f x = true) l → take_while f l = l.
Proof. induction 1 as [|x l Hx _ IH]; cbn; [done|]. by rewrite Hx, IH. Qed.

Lemma elem_of_filter_b {A} (f : A → bool) l x : x ∈ List.filter f l ↔ x ∈ l ∧ f x = true.
Proof. by rewrite !list_elem_of_In, List.filter_In. Qed.

(** [filterFromMemory] without an address gives exactly the events of the block range. With an
    address, when the range reaches the last event in memory, it gives the events of {e every} address
    that is not below the queried one. *)
Theorem filterFromMemory_spec em fromBlock toBlock address e :
  Forall (λ e, blockIndex_ e ≤ toBlock) (events_ em) →
  e ∈ filterFromMemory em fromBlock toBlock address ↔
    e ∈ events_ em ∧ fromBlock ≤ blockIndex_ e ∧
    (address = zero_address ∨ bytes_ltb (address_ e) address = false).
Proof.
  intros Hto. unfold filterFromMemory. case_decide as Ha; rewrite elem_of_filter_b.
  - rewrite take_while_all.
    + unfold by_address. rewrite (drop_while_index (λ a b, bytes_ltb (address_ a) (address_ b))).
      * rewrite index_by_perm, Z.leb_le. tauto.
      * apply index_by_sorted; intros; [by apply bytes_ltb_asym|by eapply bytes_ltb_negtrans].
      * intros x y Hxy Hx. unfold idx_le in Hxy. by eapply bytes_ltb_negtrans.
    + apply Forall_forall. intros x Hx. apply Z.leb_le. rewrite Forall_forall in Hto. apply Hto.
      unfold by_address in Hx. rewrite <- (index_by_perm (λ a b, bytes_ltb (address_ a) (address_ b))).
      clear -Hx. induction (index_by _ _) as [|y l IH]; cbn in *; [done|].
      destruct (bytes_ltb _ _); [right; auto|done].
  - unfold by_block. rewrite index_by_perm, andb_true_iff, !Z.leb_le.
    rewrite Forall_forall in Hto. split; [intros (? & ? & ?); auto|].
    intros (Hin & ? & _). split; [done|]. split; [done|by apply Hto].
Qed.

(** ** Lemmas: the database *)

Section store.
Context {JS : Json} {RDB : RocksDB}.

Definition event_entry (e : Event) : Entry := (event_key e, dump (json_of e)).

(** The entries under the prefix are those of the events [es]. *)
Definition stores (d : rdb) (es : list Event) : Prop :=
  Forall wf_event es ∧ getBatch d pfx_events [] ≡ₚ map event_entry es.

Lemma fetch_loop_all cap keep items es ret :
  Forall2 (λ (item : Entry) e, Event_of_json item.2 = Ok e) items es → (length ret + length es ≤ cap)%nat →
  fetch_loop cap keep ret items = Ok (ret ++ List.filter keep es).
Proof.
  intros Hi. revert ret. induction Hi as [|item e items es He _ IH]; intros ret Hc; cbn.
  - by rewrite app_nil_r.
  - cbn in Hc. rewrite (proj2 (Nat.leb_gt _ _)) by lia. rewrite He, result_bind_Ok.
    destruct (keep e); rewrite IH by (rewrite ?length_app; cbn; lia); [by rewrite <- app_assoc|done].
Qed.

(** Entries in any order give the events in that order. *)
Lemma entries_events items es :
  Forall wf_event es → items ≡ₚ map event_entry es →
  ∃ es', es' ≡ₚ es ∧ items = map event_entry es' ∧
    Forall2 (λ (item : Entry) e, Event_of_json item.2 = Ok e) items es'.
Proof.
  intros Hwf Hp. apply Permutation_map_inv in Hp as (es' & -> & Hp).
  exists es'. split; [by symmetry|]. split; [done|].
  rewrite Hp in Hwf. clear Hp. induction Hwf as [|e es' He _ IH]; cbn; constructor; [|done].
  by apply Event_of_json_of.
Qed.

Lemma event_key_length e : length (address_ e) = 20%nat → length (event_key e) = 44%nat.
Proof.
  intros Hl. unfold event_key.
  assert (Hu : ∀ i, length (uint64ToBytes i) = 8%nat) by (intros; by rewrite uint64ToBytes_encode, be_encode_length).
  rewrite !length_app, !Hu. lia.
Qed.

(** a query of one block returns every event in the database. The range's only key would be the
    eight bytes of the height, which no event has, and [getBatch] with no key asked for gives all of
    them: whatever the height and the address asked for, the answer is every stored event whose topics
    match. *)
Theorem single_block_query_returns_all cap d es n address topics :
  stores d es → (length es ≤ cap)%nat →
  ∃ ret, filterFromDB cap d n n address topics = Ok ret ∧
    ret ≡ₚ List.filter (λ e, matchTopics e topics) es.
Proof.
  intros [Hwf Hp] Hc. unfold filterFromDB.
  assert (Hk : getKeys d pfx_events (uint64ToBytes n) (uint64ToBytes n) = []).
  { destruct (getKeys d pfx_events _ _) as [|k ks] eqn:E; [done|]. exfalso.
    assert (Hin : k ∈ getKeys d pfx_events (uint64ToBytes n) (uint64ToBytes n)) by (rewrite E; left).
    apply getKeys_single in Hin as [_ [v Hv]]. apply getBatch_spec in Hv. rewrite Hp in Hv.
    apply list_elem_of_In, in_map_iff in Hv as (e & He & Hin). rewrite <- list_elem_of_In in Hin.
    apply (f_equal fst) in He. change (event_key e = uint64ToBytes n) in He.
    rewrite Forall_forall in Hwf. destruct (Hwf _ Hin) as [_ _ _ _ _ _ [_ Ha] _ _].
    apply event_key_length in Ha. rewrite He in Ha. by rewrite uint64ToBytes_encode, be_encode_length in Ha. }
  rewrite Hk. cbn [filter_keys]. rewrite result_bind_Ok.
  destruct (entries_events _ _ Hwf Hp) as (es' & Hes & _ & Hall).
  rewrite (fetch_loop_all _ _ _ _ _ Hall) by (cbn; apply Permutation_length in Hes; lia).
  eexists. split; [done|]. cbn [app]. clear -Hes. induction Hes; cbn; try done.
  - destruct (matchTopics _ _); [by constructor|done].
  - repeat destruct (matchTopics _ _); try done. apply Permutation_swap.
  - by etransitivity.
Qed.

(** ** Persistence *)

Lemma save_batch l b :
  Forall wf_event l →
  foldM (λ b e, s ← serialize e; Ok (push_back b (event_key e) s pfx_events)) b l =
  Ok (mkBatch (puts_ b ++ map (λ e, (pfx_events ++ event_key e, dump (json_of e))) l) (dels_ b)).
Proof.
  intros Hl. revert b. induction Hl as [|e l He _ IH]; intros b; cbn.
  - rewrite app_nil_r. by destruct b.
  - rewrite serialize_wf by done. rewrite !result_bind_Ok, IH. cbn. by rewrite <- app_assoc.
Qed.

(** The destructor writes under the prefix of the events only. *)
Lemma EventManager_save_out em d d' k :
  EventManager_save em d = Ok d' → (∀ r, k ≠ pfx_events ++ r) → rdb_map d' !! k = rdb_map d !! k.
Proof.
  unfold EventManager_save. intros (b & Hb & <-%Ok_inj)%result_bind_ok Hk.
  assert (Hp : dels_ b = [] ∧ Forall (λ e : Entry, ∃ r, e.1 = pfx_events ++ r) (puts_ b)).
  { revert Hb. assert (H0 : dels_ DBBatch_new = [] ∧ Forall (λ e : Entry, ∃ r, e.1 = pfx_events ++ r) (puts_ DBBatch_new)) by done.
    revert H0. generalize DBBatch_new as b0. induction (by_block (events_ em)) as [|e l IH]; intros b0 H0; cbn [foldM].
    - by intros <-%Ok_inj.
    - intros (b1 & Hb1 & Hl)%result_bind_ok. apply (IH b1); [|done]. apply result_bind_ok in Hb1 as (x & _ & <-%Ok_inj).
      destruct H0 as [H0 H1]. split; [done|]. cbn [push_back puts_]. apply Forall_app. split; [done|]. constructor; [by eexists|done]. }
  destruct b as [l ds]. cbn [dels_ puts_] in Hp. destruct Hp as [-> Hp]. apply putBatch_out.
  intros (e & -> & He)%list_elem_of_fmap. rewrite Forall_forall in Hp. destruct (Hp _ He) as [r Hr]. by apply (Hk r).
Qed.

(** The events that earlier runs left in the database are among those in memory, which the constructor loaded. *)
Definition events_covered (es : list Event) (d : rdb) : Prop :=
  ∀ k, is_Some (rdb_map d !! (pfx_events ++ k)) → k ∈ map event_key es.

Lemma events_saved_load em d :
  Forall wf_event (events_ em) → NoDup (map event_key (events_ em)) → events_covered (events_ em) d →
  ∃ d' em', EventManager_save em d = Ok d' ∧ EventManager_load d' = Ok em' ∧ events_ em' ≡ₚ events_ em.
Proof.
  intros Hwf Hnd Hd. set (l := by_block (events_ em)).
  assert (Hl : l ≡ₚ events_ em) by apply index_by_perm.
  assert (Hwl : Forall wf_event l) by by rewrite Hl.
  unfold EventManager_save. fold l. rewrite save_batch by done. rewrite result_bind_Ok. cbn [puts_ dels_ DBBatch_new app].
  set (puts := map _ l). set (d' := putBatch d _).
  assert (Hkeys : NoDup (map fst puts)).
  { unfold puts. rewrite map_map. cbn. rewrite <- (map_map event_key (λ k, pfx_events ++ k)).
    apply NoDup_fmap_2; [by intros ?? ?%app_inv_head|]. rewrite Hl. exact Hnd. }
  assert (Hp : getBatch d' pfx_events [] ≡ₚ map event_entry l).
  { apply putBatch_getBatch; [done| | |].
    - unfold event_entry. rewrite <- list_fmap_compose. rewrite Hl. exact Hnd.
    - intros k v. unfold puts, event_entry. rewrite !list_elem_of_In, !in_map_iff. split.
      + intros (e & [= Hk <-] & He). exists e. by rewrite Hk.
      + intros (e & [= <- <-] & He). by exists e.
    - intros k Hk%Hd. unfold event_entry. rewrite <- list_fmap_compose. by rewrite Hl. }
  destruct (entries_events _ _ Hwl Hp) as (es' & Hes & _ & Hall).
  exists d', (mkEventManager es' []). split; [done|]. split; [|by rewrite <- Hl].
  unfold EventManager_load. assert (Hm : mapR (λ item : Entry, Event_of_json item.2) (getBatch d' pfx_events []) = Ok es').
  { clear -Hall. induction Hall as [|item e items es He _ IH]; [done|]. cbn. by rewrite He, result_bind_Ok, IH. }
  by rewrite Hm.
Qed.

(** events survive a restart. Saved by the destructor, over those of earlier runs, and loaded by
    the constructor, the events in memory are the same, provided no two have the same block,
    transaction, log index and address. *)
Theorem events_persist em d :
  Forall wf_event (events_ em) → NoDup (map event_key (events_ em)) → events_covered (events_ em) d →
  ∃ d' em', EventManager_save em d = Ok d' ∧ EventManager_load d' = Ok em' ∧ events_ em' ≡ₚ events_ em.
Proof. apply events_saved_load. Qed.
End store.

(** ** A reference JSON text, and concrete events *)

Section json_ind.
Variable P : json → Prop.
Hypothesis HS : ∀ s, P (JString s).
Hypothesis HN : ∀ n, P (JNumber n).
Hypothesis HB : ∀ b, P (JBool b).
Hypothesis HA : ∀ l, Forall P l → P (JArray l).
Hypothesis HO : ∀ ms, Forall (λ m, P m.2) ms → P (JObject ms).

Fixpoint json_nested_ind (j : json) : P j :=
  match j with
  | JString s => HS s
  | JNumber n => HN n
  | JBool b => HB b
  | JArray l => HA l ((fix go l : Forall P l :=
      match l with [] => Forall_nil_2 _ | j :: l => Forall_cons_2 _ _ _ (json_nested_ind j) (go l) end) l)
  | JObject ms => HO ms ((fix go ms : Forall (λ m, P m.2) ms :=
      match ms with [] => Forall_nil_2 _ | m :: ms => Forall_cons_2 _ _ _ (json_nested_ind m.2) (go ms) end) ms)
  end.
End json_ind.

(** Tagged values with their sizes first. *)
Fixpoint toy_dump (j : json) : list Z :=
  match j with
  | JBool b => [0; if b then 1 else 0]
  | JNumber n => [1; n]
  | JString s => 2 :: Z.of_nat (length s) :: s
  | JArray l => 3 :: Z.of_nat (length l) :: concat (map toy_dump l)
  | JObject ms => 4 :: Z.of_nat (length ms) :: concat (map (λ m, Z.of_nat (length m.1) :: m.1 ++ toy_dump m.2) ms)
  end.

Section items.
Context {A : Type} (p : list Z → option (A * list Z)).
Fixpoint toy_items (n : nat) (l : list Z) : option (list A * list Z) :=
  match n with
  | O => Some ([], l)
  | S n => match p l with
           | None => None
           | Some (x, l) => match toy_items n l with None => None | Some (xs, l) => Some (x :: xs, l) end
           end
  end.

Lemma toy_items_spec (d : A → list Z) xs r :
  (∀ x r, x ∈ xs → p (d x ++ r) = Some (x, r)) →
  toy_items (length xs) (concat (map d xs) ++ r) = Some (xs, r).
Proof.
  induction xs as [|x xs IH]; intros Hp; cbn; [done|].
  rewrite <- app_assoc, Hp by left. rewrite IH by (intros; apply Hp; by right). done.
Qed.
End items.

Fixpoint toy_parse (fuel : nat) (l : list Z) : option (json * list Z) :=
  match fuel with
  | O => None
  | S fuel =>
      match l with
      | t :: n :: l =>
          let k := Z.to_nat n in
          if t =? 0 then Some (JBool (n =? 1), l)
          else if t =? 1 then Some (JNumber n, l)
          else if t =? 2 then Some (JString (take k l), drop k l)
          else if t =? 3 then option_map (λ p, (JArray p.1, p.2)) (toy_items (toy_parse fuel) k l)
          else option_map (λ p, (JObject p.1, p.2)) (toy_items (λ l,
                 match l with
                 | [] => None
                 | n :: l => option_map (λ p, ((take (Z.to_nat n) l, p.1), p.2)) (toy_parse fuel (drop (Z.to_nat n) l))
                 end) k l)
      | _ => None
      end
  end.

Lemma concat_map_length {A B} (f : A → list B) l x : x ∈ l → (length (f x) ≤ length (concat (map f l)))%nat.
Proof.
  intros Hx. apply list_elem_of_split in Hx as (l1 & l2 & ->).
  rewrite map_app, concat_app, length_app. cbn. rewrite length_app. lia.
Qed.

Lemma toy_parse_dump j : ∀ fuel r, (length (toy_dump j) ≤ fuel)%nat → toy_parse fuel (toy_dump j ++ r) = Some (j, r).
Proof.
  induction j as [s|n|b|l IH|ms IH] using json_nested_ind; intros [|fuel] r Hf; cbn [length toy_dump] in Hf; try lia.
  - cbn. by rewrite Nat2Z.id, take_app_length, drop_app_length.
  - done.
  - by destruct b.
  - cbn [toy_dump app toy_parse]. cbn [Z.eqb Pos.eqb]. rewrite Nat2Z.id, (toy_items_spec _ toy_dump); [done|].
    intros x r' Hx. rewrite Forall_forall in IH. apply IH; [done|].
    assert (Hl := concat_map_length toy_dump _ _ Hx). lia.
  - cbn [toy_dump app toy_parse]. cbn [Z.eqb Pos.eqb]. rewrite Nat2Z.id.
    rewrite (toy_items_spec _ (λ m : list Z * json, Z.of_nat (length m.1) :: m.1 ++ toy_dump m.2)); [done|].
    intros [k x] r' Hx. cbn [app fst snd]. rewrite <- app_assoc, Nat2Z.id, take_app_length, drop_app_length.
    rewrite Forall_forall in IH. rewrite (IH _ Hx); [done|].
    assert (Hl := concat_map_length (λ m : list Z * json, Z.of_nat (length m.1) :: m.1 ++ toy_dump m.2) _ _ Hx).
    cbn [length fst snd] in Hl |- *. rewrite length_app in Hl. lia.
Qed.

Definition toy_parse_all (l : list Z) : result json :=
  match toy_parse (length l) l with Some (j, []) => Ok j | _ => Throw type_error end.

Lemma toy_json_ok j : json_ok j → toy_parse_all (toy_dump j) = Ok j.
Proof.
  intros _. unfold toy_parse_all. assert (Hj := toy_parse_dump j (length (toy_dump j)) [] (le_n _)).
  rewrite app_nil_r in Hj. by rewrite Hj.
Qed.

Definition toy_json : Json :=
  {| dump := toy_dump; parse := toy_parse_all; json_parse_dump := toy_json_ok |}.

Definition sample_event (h i : Z) (a : Z) : Event :=
  mkEvent (string_bytes "Transfer") i (replicate 32 h) 0 (replicate 32 1) h (replicate 20 a) [1; 255]
    [replicate 32 7] false.

#[export] Instance wf_hash_dec h : Decision (wf_hash h).
Proof. unfold wf_hash, bytes_ok, is_byte. apply _. Defined.
#[export] Instance ascii_dec h : Decision (ascii h).
Proof. unfold ascii. apply _. Defined.

Definition wf_eventb (e : Event) : Prop :=
  ascii (name_ e) ∧ (0 ≤ logIndex_ e < 2 ^ 64) ∧ wf_hash (evt_txHash_ e) ∧ (0 ≤ evt_txIndex_ e < 2 ^ 64) ∧
  wf_hash (evt_blockHash_ e) ∧ (0 ≤ blockIndex_ e < 2 ^ 64) ∧ Forall is_byte (address_ e) ∧
  length (address_ e) = 20%nat ∧ Forall is_byte (evt_data_ e) ∧ Forall wf_hash (topics_ e).

#[export] Instance wf_eventb_dec e : Decision (wf_eventb e).
Proof. unfold wf_eventb, is_byte. apply _. Defined.

Lemma wf_eventb_wf e : wf_eventb e → wf_event e.
Proof. intros (? & ? & ? & ? & ? & ? & ? & ? & ? & ?). by constructor. Qed.

Lemma wf_eventb_all es : Forall wf_eventb es → Forall wf_event es.
Proof. intros H. eapply Forall_impl; [exact H|]. apply wf_eventb_wf. Qed.

Lemma event_roundtrip_witness :
  wf_event (sample_event 2 0 9) ∧
  ∃ s, @serialize toy_json (sample_event 2 0 9) = Ok s ∧ @Event_of_json toy_json s = Ok (sample_event 2 0 9).
Proof.
  assert (H : wf_event (sample_event 2 0 9)) by (apply wf_eventb_wf; by_compute).
  split; [done|]. by apply (@event_roundtrip toy_json).
Defined.

(** The event of address 9 is among the answers for address 8. *)
Lemma filterFromMemory_spec_witness :
  let em := mkEventManager [sample_event 1 0 9] [] in
  sample_event 1 0 9 ∈ filterFromMemory em 1 1 (replicate 20 8) ↔
    sample_event 1 0 9 ∈ events_ em ∧ 1 ≤ blockIndex_ (sample_event 1 0 9) ∧
    (replicate 20 8 = zero_address ∨ bytes_ltb (address_ (sample_event 1 0 9)) (replicate 20 8) = false).
Proof. apply (filterFromMemory_spec (mkEventManager [sample_event 1 0 9] [])). repeat constructor. done. Defined.

Definition toy_events_db (es : list Event) : gmap (list Z) (list Z) :=
  list_to_map (map (λ e, (pfx_events ++ event_key e, toy_dump (json_of e))) es).

(** Two stored events, of blocks 1 and 2: a query of block 7 returns both. *)
Lemma single_block_query_returns_all_witness :
  let es := [sample_event 1 0 9; sample_event 2 0 8] in
  @stores toy_json ref_db (toy_events_db es) es ∧
  ∃ ret, @filterFromDB toy_json ref_db 5 (toy_events_db es) 7 7 zero_address [] = Ok ret ∧
    ret ≡ₚ List.filter (λ e, matchTopics e []) es.
Proof.
  assert (H : @stores toy_json ref_db (toy_events_db [sample_event 1 0 9; sample_event 2 0 8])
    [sample_event 1 0 9; sample_event 2 0 8]).
  { split; [apply wf_eventb_all; by_compute|].
    apply reflexive_eq. by vm_compute. }
  split; [done|]. apply (@single_block_query_returns_all toy_json ref_db 5 _ _ 7 zero_address [] H). cbn. lia.
Defined.

Lemma events_persist_witness :
  let em := mkEventManager [sample_event 2 0 9; sample_event 1 0 8] [] in
  ∃ d' em', @EventManager_save toy_json ref_db em (∅ : gmap _ _) = Ok d' ∧
    @EventManager_load toy_json ref_db d' = Ok em' ∧ events_ em' ≡ₚ events_ em.
Proof.
  apply (@events_persist toy_json ref_db (mkEventManager [sample_event 2 0 9; sample_event 1 0 8] []) (∅ : gmap _ _)).
  - apply wf_eventb_all. by_compute.
  - by_compute.
  - intros k [x Hx]. cbn [rdb_map ref_db] in Hx. by rewrite lookup_empty in Hx.
Defined.

(** After the restart every event is in memory and still in the database: the transaction's receipt
    lists it twice. *)
Lemma restart_doubles_receipts :
  match @EventManager_save toy_json ref_db (mkEventManager [sample_event 2 0 9] []) (∅ : gmap _ _) with
  | Ok d => match @EventManager_load toy_json ref_db d with
            | Ok em => @getEvents_tx toy_json ref_db 10 d em (replicate 32 2) 2 0
                       = Ok [sample_event 2 0 9; sample_event 2 0 9]
            | _ => False
            end
  | _ => False
  end.
Proof. by vm_compute. Qed.

(** An indexed argument before a dynamic one: the offset of the second counts the first, which is not in
    the data, and the data does not decode. *)
Lemma event_data_misplaced :
  let data := @encodeEventData boost_ref
    [((TUint 256, true), VInt 5); ((TString, false), VBytes [104; 105])] in
  @decodeData boost_ref [TString] data 0 ≠ Ok [VBytes [104; 105]].
Proof. by vm_compute. Qed.
