(* ===== verification/Storage.v ===== *)
(** * Storage: the history of the chain (src/core/storage.{h,cpp})

    The most recent blocks are kept in a deque with maps by hash and height; a block or transaction is
    looked up in these maps, then in the caches, then in the database.  The caches are mutable: a
    getter may fill them.  The mutexes are not modelled: every operation holds its locks throughout. *)

From S2P Require Import Prelude Bytes SizedInts Hashing Merkle ECDSA Tx TxValidator Randomness Block Abi DB.

#[local] Strategy 100 [TxBlock_parse TxValidator_parse Block_parse].

Inductive StorageStatus := NotFound | OnChain | OnCache | OnDB.

(** What [getTx] and its variants return: (tx, blockHash, blockIndex, blockHeight); the null pointer is
    [None]. *)
Definition TxInfo : Type := TxBlock * list Z * Z * Z.

Section storage.
Context {DBI : RocksDB}.

Record Storage := mkStorage {
  chain_ : list Block;                              (* oldest first *)
  blockByHash_ : gmap (list Z) Block;
  txByHash_ : gmap (list Z) (list Z * Z * Z);       (* blockHash, blockIndex, blockHeight *)
  blockHeightByHash_ : gmap (list Z) Z;
  blockHashByHeight_ : gmap Z (list Z);
  cachedBlocks_ : gmap (list Z) Block;
  cachedTxs_ : gmap (list Z) TxInfo;
  storage_db : rdb
}.

Definition with_cachedBlocks (s : Storage) (m : gmap (list Z) Block) : Storage :=
  mkStorage (chain_ s) (blockByHash_ s) (txByHash_ s) (blockHeightByHash_ s) (blockHashByHeight_ s) m
    (cachedTxs_ s) (storage_db s).
Definition with_cachedTxs (s : Storage) (m : gmap (list Z) TxInfo) : Storage :=
  mkStorage (chain_ s) (blockByHash_ s) (txByHash_ s) (blockHeightByHash_ s) (blockHashByHeight_ s)
    (cachedBlocks_ s) m (storage_db s).

(** The loop [for (uint32_t i = 0; i < Txs.size(); i++) txByHash_.insert(...)]. *)
Definition insert_txs (b : Block) (m : gmap (list Z) (list Z * Z * Z)) : gmap (list Z) (list Z * Z * Z) :=
  foldl (λ m it, insert_new (hash_ it.2) (block_hash_ b, Z.of_nat it.1, nHeight_ b) m) m
    (zip (seq 0 (length (txs_ b))) (txs_ b)).

(** The mappings of a new block on the chain. *)
Definition map_block (b : Block) (chain : list Block) (s : Storage) : Storage :=
  mkStorage chain (insert_new (block_hash_ b) b (blockByHash_ s)) (insert_txs b (txByHash_ s))
    (insert_new (block_hash_ b) (nHeight_ b) (blockHeightByHash_ s))
    (insert_new (nHeight_ b) (block_hash_ b) (blockHashByHeight_ s))
    (cachedBlocks_ s) (cachedTxs_ s) (storage_db s).

Definition bad_prev : exn := DynamicException "Block does not have the correct previous block hash.".
Definition bad_height : exn := DynamicException "Block does not have the correct height.".

Definition pushBackInternal (block : Block) : M Storage unit := λ s,
  match last (chain_ s) with
  | Some back =>
      if decide (block_hash_ back ≠ prevBlockHash_ block) then (Throw bad_prev, s)
      else if negb (nHeight_ block =? add64 (nHeight_ back) 1) then (Throw bad_height, s)
      else (Ok tt, map_block block (chain_ s ++ [block]) s)
  | None => (Ok tt, map_block block (chain_ s ++ [block]) s)
  end.

Definition pushFrontInternal (block : Block) : M Storage unit := λ s,
  match chain_ s with
  | front :: _ =>
      if decide (prevBlockHash_ front ≠ block_hash_ block) then (Throw bad_prev, s)
      else if negb (nHeight_ block =? (nHeight_ front - 1) mod 2 ^ 64) then (Throw bad_height, s)
      else (Ok tt, map_block block (block :: chain_ s) s)
  | [] => (Ok tt, map_block block (block :: chain_ s) s)
  end.

(** [pushBack] and [pushFront] take the lock. *)
Definition pushBack : Block → M Storage unit := pushBackInternal.
Definition pushFront : Block → M Storage unit := pushFrontInternal.

Definition unmap_block (b : Block) (chain : list Block) (s : Storage) : Storage :=
  mkStorage chain (delete (block_hash_ b) (blockByHash_ s))
    (foldl (λ m tx, delete (hash_ tx) m) (txByHash_ s) (txs_ b))
    (blockHeightByHash_ s) (blockHashByHeight_ s) (cachedBlocks_ s) (cachedTxs_ s) (storage_db s).

(** On an empty chain [back()] and [front()] are undefined. *)
Definition popBack : M Storage unit := λ s,
  match last (chain_ s) with
  | Some b => (Ok tt, unmap_block b (removelast (chain_ s)) s)
  | None => (Throw Undefined, s)
  end.

Definition popFront : M Storage unit := λ s,
  match chain_ s with
  | b :: chain => (Ok tt, unmap_block b chain s)
  | [] => (Throw Undefined, s)
  end.

Definition blockExistsInternal (s : Storage) (hash : list Z) : StorageStatus :=
  if decide (is_Some (blockByHash_ s !! hash)) then OnChain
  else if decide (is_Some (cachedBlocks_ s !! hash)) then OnCache
  else if has (storage_db s) hash pfx_blocks then OnDB
  else NotFound.

Definition blockExistsInternal_height (s : Storage) (height : Z) : StorageStatus :=
  match blockHashByHeight_ s !! height with
  | Some hash =>
      if decide (is_Some (blockByHash_ s !! hash)) then OnChain
      else if decide (is_Some (cachedBlocks_ s !! hash)) then OnCache
      else OnDB
  | None => NotFound
  end.

Definition txExistsInternal (s : Storage) (tx : list Z) : StorageStatus :=
  if decide (is_Some (txByHash_ s !! tx)) then OnChain
  else if decide (is_Some (cachedTxs_ s !! tx)) then OnCache
  else if has (storage_db s) tx pfx_txToBlocks then OnDB
  else NotFound.

Definition found (st : StorageStatus) : bool := match st with NotFound => false | _ => true end.
Definition blockExists (s : Storage) (hash : list Z) : bool := found (blockExistsInternal s hash).
Definition blockExists_height (s : Storage) (height : Z) : bool := found (blockExistsInternal_height s height).
Definition txExists (s : Storage) (tx : list Z) : bool := found (txExistsInternal s tx).

(** [map.at(key)]. *)
Definition at_ {K A} `{Countable K} (m : gmap K A) (k : K) : result A :=
  match m !! k with Some a => Ok a | None => Throw OutOfRange end.

(** [latest()] on an empty chain is undefined. *)
Definition latest (s : Storage) : result Block :=
  match last (chain_ s) with Some b => Ok b | None => Throw Undefined end.

Definition currentChainSize (s : Storage) : result Z := b ← latest s; Ok (add64 (nHeight_ b) 1).

Section getters.
Context {LS : LibSecp256k1} {BB : BoostBits} {KC : Keccak}.

(** The loop skips [txIndex] transactions by their sizes. *)
Definition getTxFromBlockWithIndex (blockData : list Z) (txIndex : nat) : result TxBlock :=
  index ← skip_txs txIndex blockData 217;
  txSize ← read_size blockData index;
  txBytes ← subspan blockData (index + 4) txSize;
  TxBlock_parse txBytes.

(** A block read from the database into the cache. *)
Definition cache_block (hash : list Z) : M Storage (option Block) := λ s,
  match Block_parse (get (storage_db s) hash pfx_blocks) with
  | Throw e => (Throw e, s)
  | Ok b =>
      let s := with_cachedBlocks s (insert_new hash b (cachedBlocks_ s)) in
      (r ← at_ (cachedBlocks_ s) hash; Ok (Some r), s)
  end.

Definition getBlock (hash : list Z) : M Storage (option Block) := λ s,
  match blockExistsInternal s hash with
  | NotFound => (Ok None, s)
  | OnChain => (r ← at_ (blockByHash_ s) hash; Ok (Some r), s)
  | OnCache => (r ← at_ (cachedBlocks_ s) hash; Ok (Some r), s)
  | OnDB => cache_block hash s
  end.

Definition getBlock_height (height : Z) : M Storage (option Block) := λ s,
  match blockExistsInternal_height s height, blockHashByHeight_ s !! height with
  | OnChain, Some hash => (r ← at_ (blockByHash_ s) hash; Ok (Some r), s)
  | OnCache, Some hash => (r ← at_ (cachedBlocks_ s) hash; Ok (Some r), s)
  | OnDB, Some hash => cache_block hash s
  | _, _ => (Ok None, s)
  end.

(** [transactionList.size() <= blockIndex], then [transactionList[blockIndex]]. *)
Definition tx_at (b : Block) (blockIndex : Z) : result TxBlock :=
  match txs_ b !! Z.to_nat blockIndex with
  | Some tx => Ok tx
  | None => Throw (DynamicException "Tx index out of bounds")
  end.

Definition mismatch : exn := DynamicException "Tx hash mismatch".

(** A transaction read from the database into the cache under the key [key]. *)
Definition cache_tx (key : list Z) (info : TxInfo) : M Storage (option TxInfo) := λ s,
  let s := with_cachedTxs s (insert_new key info (cachedTxs_ s)) in
  (r ← at_ (cachedTxs_ s) key; Ok (Some r), s).

Definition getTx (tx : list Z) : M Storage (option TxInfo) := λ s,
  match txExistsInternal s tx with
  | NotFound => (Ok None, s)
  | OnChain =>
      ('(blockHash, blockIndex, blockHeight) ← at_ (txByHash_ s) tx;
       b ← at_ (blockByHash_ s) blockHash;
       transaction ← tx_at b blockIndex;
       if decide (hash_ transaction ≠ tx) then Throw mismatch
       else Ok (Some (transaction, blockHash, blockIndex, blockHeight)), s)
  | OnCache => (r ← at_ (cachedTxs_ s) tx; Ok (Some r), s)
  | OnDB =>
      let txData := get (storage_db s) tx pfx_txToBlocks in
      match (blockHash ← subspan txData 0 32;
             i ← subspan txData 32 4; blockIndex ← bytesToUint32 i;
             h ← subspan txData 36 8; blockHeight ← bytesToUint64 h;
             t ← getTxFromBlockWithIndex (get (storage_db s) blockHash pfx_blocks) (Z.to_nat blockIndex);
             Ok (t, blockHash, blockIndex, blockHeight)) with
      | Throw e => (Throw e, s)
      | Ok info => cache_tx tx info s
      end
  end.

(** The entry of the cache for a transaction of a cached block: [getTxs()[blockIndex]] is not checked. *)
Definition cached_tx_of (s : Storage) (b : Block) (blockIndex : Z) : result (option TxInfo) :=
  t ← read_at (txs_ b) (Z.to_nat blockIndex);
  r ← at_ (cachedTxs_ s) (hash_ t); Ok (Some r).

(** The transaction at an index of a block in the database. *)
Definition db_tx_of (blockHash : list Z) (blockIndex : Z) : M Storage (option TxInfo) := λ s,
  match (t ← getTxFromBlockWithIndex (get (storage_db s) blockHash pfx_blocks) (Z.to_nat blockIndex);
         blockHeight ← at_ (blockHeightByHash_ s) blockHash;
         Ok (t, blockHash, blockIndex, blockHeight)) with
  | Throw e => (Throw e, s)
  | Ok info => cache_tx (hash_ info.1.1.1) info s
  end.

Definition getTxByBlockHashAndIndex (blockHash : list Z) (blockIndex : Z) : M Storage (option TxInfo) := λ s,
  match blockExistsInternal s blockHash with
  | NotFound => (Ok None, s)
  | OnChain =>
      (b ← at_ (blockByHash_ s) blockHash;
       transaction ← tx_at b blockIndex;
       '(txBlockHash, txBlockIndex, txBlockHeight) ← at_ (txByHash_ s) (hash_ transaction);
       if decide (txBlockHash ≠ blockHash ∨ txBlockIndex ≠ blockIndex) then Throw mismatch
       else Ok (Some (transaction, txBlockHash, txBlockIndex, txBlockHeight)), s)
  | OnCache => (b ← at_ (cachedBlocks_ s) blockHash; cached_tx_of s b blockIndex, s)
  | OnDB => db_tx_of blockHash blockIndex s
  end.

Definition getTxByBlockNumberAndIndex (blockHeight blockIndex : Z) : M Storage (option TxInfo) := λ s,
  match blockExistsInternal_height s blockHeight, blockHashByHeight_ s !! blockHeight with
  | OnChain, Some blockHash =>
      (b ← at_ (blockByHash_ s) blockHash;
       transaction ← tx_at b blockIndex;
       '(txBlockHash, txBlockIndex, txBlockHeight) ← at_ (txByHash_ s) (hash_ transaction);
       Ok (Some (transaction, txBlockHash, txBlockIndex, txBlockHeight)), s)
  | OnCache, Some blockHash => (b ← at_ (cachedBlocks_ s) blockHash; cached_tx_of s b blockIndex, s)
  | OnDB, Some blockHash => db_tx_of blockHash blockIndex s
  | _, _ => (Ok None, s)
  end.

(** *** The constructor and the destructor *)

Definition Storage_new (d : rdb) : Storage := mkStorage [] ∅ ∅ ∅ ∅ ∅ ∅ d.

Definition initializeBlockchain (genesis : Block) (d : rdb) : result rdb :=
  d ← (if has d (string_bytes "latest") pfx_blocks then Ok d
       else if negb (nHeight_ genesis =? 0) then Throw (DynamicException "Genesis block height is not 0")
       else
         let d := put d (string_bytes "latest") (serializeBlock genesis) pfx_blocks in
         let d := put d (uint64ToBytes (nHeight_ genesis)) (block_hash_ genesis) pfx_blockHeightMaps in
         Ok (put d (block_hash_ genesis) (serializeBlock genesis) pfx_blocks));
  genesisInDBHash ← FixedBytes_of 32 (get d (uint64ToBytes 0) pfx_blockHeightMaps);
  genesisInDB ← Block_parse (get d genesisInDBHash pfx_blocks);
  if Block_eqb genesis genesisInDB then Ok d
  else Throw (DynamicException "Sanity Check! Genesis block in DB does not match genesis block in Options").

(** The block mappings: [blockHashByHeight_] and [blockHeightByHash_] from their database entries. *)
Definition load_maps (s : Storage) (maps : list Entry) : result Storage :=
  foldM (λ s (e : Entry),
    height ← bytesToUint64 e.1;
    hash ← FixedBytes_of 32 e.2;
    Ok (mkStorage (chain_ s) (blockByHash_ s) (txByHash_ s)
      (insert_new hash height (blockHeightByHash_ s)) (insert_new height hash (blockHashByHeight_ s))
      (cachedBlocks_ s) (cachedTxs_ s) (storage_db s))) s maps.

(** [for (uint64_t i = 0; i <= 500 && i <= depth; i++)]: [blockHashByHeight_[depth - i]] is the zero hash
    when it is missing. *)
Definition load_chain (depth : Z) : M Storage unit :=
  mforeach (λ i s,
    let hash := default zero_hash (blockHashByHeight_ s !! (depth - Z.of_nat i)) in
    match Block_parse (get (storage_db s) hash pfx_blocks) with
    | Throw e => (Throw e, s)
    | Ok block => pushFrontInternal block s
    end) (seq 0 (S (min 500 (Z.to_nat depth)))).

(** [Storage(DB& db, const Options& options)]. *)
Definition Storage_load (genesis : Block) (d : rdb) : result Storage :=
  d ← initializeBlockchain genesis d;
  latest ← Block_parse (get d (string_bytes "latest") pfx_blocks);
  s ← load_maps (Storage_new d) (getBatch d pfx_blockHeightMaps []);
  match load_chain (nHeight_ latest) s with
  | (Ok _, s) => Ok s
  | (Throw e, _) => Throw e
  end.

(** The entries of a block: its bytes, its height, and the position of its transactions. *)
Definition tx_position (b : Block) (i : nat) : list Z :=
  block_hash_ b ++ uint32ToBytes (Z.of_nat i) ++ uint64ToBytes (nHeight_ b).

Definition batch_block (batch : DBBatch) (b : Block) : DBBatch :=
  let batch := push_back batch (block_hash_ b) (serializeBlock b) pfx_blocks in
  let batch := push_back batch (uint64ToBytes (nHeight_ b)) (block_hash_ b) pfx_blockHeightMaps in
  foldl (λ batch it, push_back batch (hash_ it.2) (tx_position b it.1) pfx_txToBlocks) batch
    (zip (seq 0 (length (txs_ b))) (txs_ b)).

(** [~Storage()]: on an empty chain [back()] is undefined. *)
Definition Storage_save (s : Storage) : result rdb :=
  latest ← latest s;
  let d := putBatch (storage_db s) (foldl batch_block DBBatch_new (chain_ s)) in
  Ok (put d (string_bytes "latest") (serializeBlock latest) pfx_blocks).
End getters.
End storage.

(** ** The chain invariant *)

Section invariant.
Context {DBI : RocksDB}.

(** Each block names the hash of the one before it and the next height. *)
Definition linked (chain : list Block) : Prop :=
  ∀ i b b', chain !! i = Some b → chain !! S i = Some b' →
    prevBlockHash_ b' = block_hash_ b ∧ nHeight_ b' = add64 (nHeight_ b) 1.

Definition tx_in (b : Block) (t : list Z) : Prop := ∃ tx, tx ∈ txs_ b ∧ hash_ tx = t.

(** No transaction is in two blocks of the chain. *)
Definition unique_txs (chain : list Block) : Prop :=
  ∀ b b' t, b ∈ chain → b' ∈ chain → tx_in b t → tx_in b' t → b = b'.

Record storage_inv (s : Storage) : Prop := {
  si_linked : linked (chain_ s);
  si_heights : Forall (λ b, in_uint 64 (nHeight_ b)) (chain_ s);
  si_hashes : NoDup (map block_hash_ (chain_ s));
  si_unique : unique_txs (chain_ s);
  si_blocks h b : blockByHash_ s !! h = Some b ↔ b ∈ chain_ s ∧ block_hash_ b = h;
  si_txs t h i n : txByHash_ s !! t = Some (h, i, n) →
    ∃ b k tx, b ∈ chain_ s ∧ h = block_hash_ b ∧ n = nHeight_ b ∧ i = Z.of_nat k ∧
              txs_ b !! k = Some tx ∧ hash_ tx = t;
  si_found b t : b ∈ chain_ s → tx_in b t → is_Some (txByHash_ s !! t)
}.

(** A block whose hash and transactions are not in the chain. *)
Definition fresh_block (b : Block) (s : Storage) : Prop :=
  in_uint 64 (nHeight_ b) ∧ (block_hash_ b ∉ map block_hash_ (chain_ s)) ∧
  ∀ b' t, b' ∈ chain_ s → tx_in b t → ¬ tx_in b' t.

Lemma linked_snoc chain b :
  linked chain →
  (∀ back, last chain = Some back → prevBlockHash_ b = block_hash_ back ∧ nHeight_ b = add64 (nHeight_ back) 1) →
  linked (chain ++ [b]).
Proof.
  intros Hl Hb i x y Hx Hy.
  assert (Hlen := lookup_lt_Some _ _ _ Hy). rewrite length_app in Hlen. cbn in Hlen.
  destruct (decide (S i = length chain)) as [E|E].
  - rewrite lookup_app_l in Hx by lia. rewrite lookup_app_r in Hy by lia.
    rewrite E, Nat.sub_diag in Hy. injection Hy as <-. apply Hb.
    rewrite last_lookup. by replace (pred (length chain)) with i by lia.
  - rewrite lookup_app_l in Hx, Hy by lia. by eapply Hl.
Qed.

Lemma linked_cons chain b :
  linked chain →
  (∀ front rest, chain = front :: rest → prevBlockHash_ front = block_hash_ b ∧ nHeight_ front = add64 (nHeight_ b) 1) →
  linked (b :: chain).
Proof.
  intros Hl Hb [|i] x y Hx Hy; cbn in Hx, Hy; [|by eapply Hl].
  injection Hx as <-. destruct chain as [|front rest]; [done|]. injection Hy as <-. by eapply Hb.
Qed.

Lemma insert_txs_loop l b m t :
  foldl (λ m it, insert_new (hash_ it.2) (block_hash_ b, Z.of_nat it.1, nHeight_ b) m) m l !! t =
  match m !! t with
  | Some e => Some e
  | None => (λ it : nat * TxBlock, (block_hash_ b, Z.of_nat it.1, nHeight_ b)) <$>
              (List.find (λ it, bool_decide (hash_ it.2 = t)) l)
  end.
Proof.
  revert m. induction l as [|[k tx] l IH]; intros m; cbn [foldl]; [by destruct (m !! t)|].
  rewrite IH. cbn [fst snd List.find]. unfold insert_new.
  destruct (m !! hash_ tx) as [e|] eqn:Em.
  - destruct (m !! t) as [e'|] eqn:Et; [done|].
    rewrite bool_decide_false; [done|]. intros E. rewrite E in Em. congruence.
  - destruct (decide (hash_ tx = t)) as [<-|Hne].
    + rewrite lookup_insert_eq, Em. by rewrite bool_decide_true.
    + rewrite lookup_insert_ne by done. by rewrite bool_decide_false.
Qed.

Lemma zip_seq_elem {A} (l : list A) n k x :
  (k, x) ∈ zip (seq n (length l)) l ↔ ∃ j, k = (n + j)%nat ∧ l !! j = Some x.
Proof.
  revert n. induction l as [|y l IH]; intros n; cbn [length seq zip].
  - split; [by intros ?%not_elem_of_nil|by intros (j & _ & ?)].
  - cbn. rewrite elem_of_cons, IH. split.
    + intros [[= -> ->]|(j & -> & Hj)]; [exists 0%nat; split; [lia|done]|exists (S j); split; [lia|done]].
    + intros ([|j] & -> & Hj); [left; cbn in Hj; injection Hj as ->; f_equal; lia|].
      right. exists j. split; [lia|done].
Qed.

Lemma insert_txs_lookup b m t :
  (∀ e, insert_txs b m !! t = Some e → m !! t = Some e ∨
     ∃ k tx, e = (block_hash_ b, Z.of_nat k, nHeight_ b) ∧ txs_ b !! k = Some tx ∧ hash_ tx = t) ∧
  (is_Some (m !! t) ∨ tx_in b t → is_Some (insert_txs b m !! t)).
Proof.
  unfold insert_txs. rewrite insert_txs_loop. split.
  - intros e. destruct (m !! t) as [e'|] eqn:Em; [by left|]. intros He. right.
    apply fmap_Some in He as ([k tx] & Hf & ->).
    apply List.find_some in Hf as [Hin%list_elem_of_In Ht%bool_decide_eq_true].
    apply zip_seq_elem in Hin as (j & -> & Hj). exists j, tx. by cbn in *.
  - destruct (m !! t) as [e'|] eqn:Em; [by eexists|]. intros [[? ?]|(tx & Htx & Ht)]; [done|].
    apply fmap_is_Some. destruct (List.find _ _) as [it|] eqn:Ef; [by eexists|].
    apply list_elem_of_lookup in Htx as [j Hj].
    assert (Hin : (j, tx) ∈ zip (seq 0 (length (txs_ b))) (txs_ b)) by (apply zip_seq_elem; by exists j).
    apply list_elem_of_In in Hin. eapply List.find_none in Hin; [|done].
    by apply bool_decide_eq_false in Hin.
Qed.

(** The mappings of a chain to which a fresh block is added. *)
Lemma map_block_inv b chain s :
  storage_inv s → fresh_block b s → (∀ x, x ∈ chain ↔ x = b ∨ x ∈ chain_ s) →
  linked chain → NoDup (map block_hash_ chain) → storage_inv (map_block b chain s).
Proof.
  intros [] (Hh & Hf & Htf) Hc Hl Hnd. unfold map_block. constructor; cbn; try done.
  - apply Forall_forall. intros x [->|Hx]%Hc; [done|]. by rewrite Forall_forall in si_heights0; apply si_heights0.
  - intros x y t [->|Hx]%Hc [->|Hy]%Hc Ht1 Ht2; [done| | |by eapply si_unique0].
    + by destruct (Htf _ _ Hy Ht1).
    + by destruct (Htf _ _ Hx Ht2).
  - intros h x. rewrite Hc. unfold insert_new.
    assert (Hnone : blockByHash_ s !! block_hash_ b = None).
    { destruct (blockByHash_ s !! block_hash_ b) as [y|] eqn:E; [|done]. apply si_blocks0 in E as [Hy E].
      exfalso. apply Hf. rewrite <- E. rewrite list_elem_of_In. apply in_map. by apply list_elem_of_In. }
    rewrite Hnone. destruct (decide (block_hash_ b = h)) as [<-|Hne].
    + rewrite lookup_insert_eq. split; [intros [= ->]; auto|]. intros [[->|Hx] E]; [done|].
      exfalso. assert (Hb : blockByHash_ s !! block_hash_ b = Some x) by (by apply si_blocks0). congruence.
    + rewrite lookup_insert_ne, si_blocks0 by done. split; [tauto|]. intros [[->|?] ?]; [done|tauto].
  - intros t h i n [He|(k & tx & E & Hk & Ht)]%insert_txs_lookup.
    + destruct (si_txs0 _ _ _ _ He) as (x & k & tx & Hx & ?). exists x, k, tx. split; [apply Hc; by right|done].
    + injection E as -> -> ->. exists b, k, tx. split; [apply Hc; by left|done].
  - intros x t Hx Ht. apply insert_txs_lookup. apply Hc in Hx as [->|Hx]; [by right|left]. by eapply si_found0.
Qed.

Lemma NoDup_hashes_inj chain b b' :
  NoDup (map block_hash_ chain) → b ∈ chain → b' ∈ chain → block_hash_ b = block_hash_ b' → b = b'.
Proof.
  intros Hnd [i Hi]%list_elem_of_lookup [j Hj]%list_elem_of_lookup E.
  assert (i = j) as ->; [|congruence].
  assert (H1 : map block_hash_ chain !! i = Some (block_hash_ b)) by (rewrite list_lookup_fmap; by rewrite Hi).
  assert (H2 : map block_hash_ chain !! j = Some (block_hash_ b)) by (rewrite list_lookup_fmap, Hj, E; done).
  by eapply NoDup_lookup.
Qed.

Lemma delete_txs_lookup (txs : list TxBlock) (m : gmap (list Z) (list Z * Z * Z)) t :
  foldl (λ m tx, delete (hash_ tx) m) m txs !! t =
  if bool_decide (t ∈ map hash_ txs) then None else m !! t.
Proof.
  revert m. induction txs as [|tx txs IH]; intros m; [done|]. cbn [foldl map]. rewrite IH.
  destruct (decide (t ∈ map hash_ txs)) as [Hin|Hin].
  - rewrite !bool_decide_true; [done|by right|done].
  - rewrite (bool_decide_false _ Hin). destruct (decide (hash_ tx = t)) as [<-|Hne].
    + rewrite lookup_delete_eq, bool_decide_true; [done|left].
    + rewrite lookup_delete_ne, bool_decide_false; [done|by intros [?|?]%elem_of_cons|done].
Qed.

Lemma tx_in_map b t : tx_in b t ↔ t ∈ map hash_ (txs_ b).
Proof.
  rewrite list_elem_of_In, in_map_iff. unfold tx_in. setoid_rewrite list_elem_of_In.
  split; intros (tx & ? & ?); by exists tx.
Qed.

(** The mappings of a chain from which a block is removed. *)
Lemma unmap_block_inv b chain s :
  storage_inv s → b ∈ chain_ s → b ∉ chain → (∀ x, x ∈ chain_ s ↔ x = b ∨ x ∈ chain) →
  linked chain → NoDup (map block_hash_ chain) → storage_inv (unmap_block b chain s).
Proof.
  intros [] Hb Hnb Hc Hl Hnd. unfold unmap_block. constructor; cbn; try done.
  - apply Forall_forall. intros x Hx. rewrite Forall_forall in si_heights0. apply si_heights0, Hc. by right.
  - intros x y t Hx Hy. apply si_unique0; apply Hc; by right.
  - intros h x. destruct (decide (block_hash_ b = h)) as [<-|Hne].
    + rewrite lookup_delete_eq. split; [done|]. intros [Hx E]. exfalso.
      apply Hnb. assert (x = b) as <-; [|done].
      apply (NoDup_hashes_inj (chain_ s)); [done|apply Hc; by right|done|done].
    + rewrite lookup_delete_ne, si_blocks0, Hc by done. split; [|tauto]. intros [[->|?] ?]; done.
  - intros t h i n. rewrite delete_txs_lookup. case_bool_decide as Hin; [done|]. intros He.
    destruct (si_txs0 _ _ _ _ He) as (x & k & tx & Hx & Hh & Hn & Hi & Hk & Ht).
    exists x, k, tx. split; [|done]. apply Hc in Hx as [->|Hx]; [|done].
    exfalso. apply Hin. apply tx_in_map. exists tx. split; [by eapply list_elem_of_lookup_2|done].
  - intros x t Hx Ht. rewrite delete_txs_lookup. rewrite bool_decide_false.
    + apply (si_found0 x); [apply Hc; by right|done].
    + intros Hin. apply tx_in_map in Hin. apply Hnb.
      assert (x = b) as <-; [|done]. apply (si_unique0 _ _ t); [apply Hc; by right|done|done|done].
Qed.

Lemma linked_app_l l1 l2 : linked (l1 ++ l2) → linked l1.
Proof. intros Hl i x y Hx Hy. eapply Hl; by apply lookup_app_l_Some. Qed.

Lemma linked_tail b l : linked (b :: l) → linked l.
Proof. intros Hl i x y Hx Hy. by apply (Hl (S i)). Qed.

Lemma last_removelast (l : list Block) b : last l = Some b → l = removelast l ++ [b].
Proof.
  induction l as [|x l IH]; [done|]. destruct l as [|y l]; [by intros [= ->]|].
  intros Hl. change (removelast (x :: y :: l)) with (x :: removelast (y :: l)).
  cbn [app]. f_equal. by apply IH.
Qed.

Lemma pushBack_inv b s s' :
  storage_inv s → fresh_block b s → pushBack b s = (Ok tt, s') → storage_inv s'.
Proof.
  intros Hs Hf. unfold pushBack, pushBackInternal.
  assert (Hstep : (∀ back, last (chain_ s) = Some back →
      prevBlockHash_ b = block_hash_ back ∧ nHeight_ b = add64 (nHeight_ back) 1) →
    storage_inv (map_block b (chain_ s ++ [b]) s)).
  { intros Hback. apply map_block_inv; [done|done| | |].
    - intros x. rewrite elem_of_app, list_elem_of_singleton. tauto.
    - apply linked_snoc; [apply (si_linked _ Hs)|done].
    - rewrite map_app. apply NoDup_app. split; [apply (si_hashes _ Hs)|]. split; [|apply NoDup_singleton].
      intros x Hx ->%list_elem_of_singleton. by destruct Hf as (_ & Hf & _). }
  destruct (last (chain_ s)) as [back|] eqn:El; [|intros [= <-]; by apply Hstep].
  case_decide as E1; [done|]. destruct (Z.eqb_spec (nHeight_ b) (add64 (nHeight_ back) 1)); [|done].
  intros [= <-]. apply Hstep. intros ? [= <-]. split; [congruence|done].
Qed.

Lemma pushFront_inv b s s' :
  storage_inv s → fresh_block b s → pushFront b s = (Ok tt, s') → storage_inv s'.
Proof.
  intros Hs Hf. unfold pushFront, pushFrontInternal.
  assert (Hstep : (∀ front rest, chain_ s = front :: rest →
      prevBlockHash_ front = block_hash_ b ∧ nHeight_ front = add64 (nHeight_ b) 1) →
    storage_inv (map_block b (b :: chain_ s) s)).
  { intros Hfront. apply map_block_inv; [done|done| | |].
    - intros x. by rewrite elem_of_cons.
    - apply linked_cons; [apply (si_linked _ Hs)|done].
    - cbn [map]. apply NoDup_cons. split; [by destruct Hf as (_ & Hf & _)|apply (si_hashes _ Hs)]. }
  destruct (chain_ s) as [|front rest] eqn:El; [intros [= <-]; by apply Hstep|].
  case_decide as E1; [done|]. destruct (Z.eqb_spec (nHeight_ b) ((nHeight_ front - 1) mod 2 ^ 64)) as [E2|]; [|done].
  intros [= <-]. apply Hstep. intros ? ? [= <- <-]. split.
  - congruence.
  - assert (Hh := si_heights _ Hs). rewrite El in Hh. apply Forall_cons in Hh as [Hh _]. unfold in_uint in Hh.
    rewrite E2. unfold add64. rewrite Zplus_mod_idemp_l.
    replace (nHeight_ front - 1 + 1) with (nHeight_ front) by lia. by rewrite Z.mod_small.
Qed.

Lemma popBack_inv s s' : storage_inv s → popBack s = (Ok tt, s') → storage_inv s'.
Proof.
  intros Hs. unfold popBack. destruct (last (chain_ s)) as [b|] eqn:El; [|done]. intros [= <-].
  apply last_removelast in El. assert (Hl := si_linked _ Hs). assert (Hnd := si_hashes _ Hs).
  rewrite El in Hl, Hnd. rewrite map_app in Hnd. apply NoDup_app in Hnd as (Hnd & Hdis & _).
  apply unmap_block_inv; [done| | | | |done].
  - rewrite El. apply elem_of_app. right. by apply list_elem_of_singleton.
  - intros Hin. apply (Hdis (block_hash_ b)); [|left].
    rewrite list_elem_of_In. apply in_map. by apply list_elem_of_In.
  - intros x. rewrite El at 1. rewrite elem_of_app, list_elem_of_singleton. tauto.
  - by eapply linked_app_l.
Qed.

Lemma popFront_inv s s' : storage_inv s → popFront s = (Ok tt, s') → storage_inv s'.
Proof.
  intros Hs. unfold popFront. destruct (chain_ s) as [|b rest] eqn:El; [done|]. intros [= <-].
  assert (Hl := si_linked _ Hs). assert (Hnd := si_hashes _ Hs). rewrite El in Hl, Hnd.
  cbn [map] in Hnd. apply NoDup_cons in Hnd as [Hn Hnd].
  apply unmap_block_inv; [done| | | | |done].
  - rewrite El. left.
  - intros Hin. apply Hn. rewrite list_elem_of_In. apply in_map. by apply list_elem_of_In.
  - intros x. by rewrite El, elem_of_cons.
  - by eapply linked_tail.
Qed.

(** The operations that change the chain. A block is pushed when its hash and transactions are new. *)
Inductive storage_step : Storage → Storage → Prop :=
| step_pushBack b s s' : fresh_block b s → pushBack b s = (Ok tt, s') → storage_step s s'
| step_pushFront b s s' : fresh_block b s → pushFront b s = (Ok tt, s') → storage_step s s'
| step_popBack s s' : popBack s = (Ok tt, s') → storage_step s s'
| step_popFront s s' : popFront s = (Ok tt, s') → storage_step s s'.

Inductive storage_reachable : Storage → Prop :=
| reach_new d : storage_reachable (Storage_new d)
| reach_step s s' : storage_reachable s → storage_step s s' → storage_reachable s'.

Lemma storage_new_inv d : storage_inv (Storage_new d).
Proof.
  constructor; cbn.
  - by intros i b b'.
  - constructor.
  - constructor.
  - intros b b' t Hb. by apply not_elem_of_nil in Hb.
  - intros h b. rewrite lookup_empty. split; [done|]. intros [Hb _]. by apply not_elem_of_nil in Hb.
  - intros t h i n. by rewrite lookup_empty.
  - intros b t Hb. by apply not_elem_of_nil in Hb.
Qed.

Lemma storage_reachable_inv s : storage_reachable s → storage_inv s.
Proof.
  induction 1 as [d|s s' _ IH Hstep]; [apply storage_new_inv|].
  destruct Hstep; [by eapply pushBack_inv|by eapply pushFront_inv|by eapply popBack_inv|by eapply popFront_inv].
Qed.

(** C35: in every state reached from an empty storage by pushing new blocks at either end and popping
    them, the chain is linked by hash and height, the block map is exactly the chain, and a mapped
    transaction is at the block and index the map says. *)
Theorem storage_chain_invariant s : storage_reachable s → storage_inv s.
Proof. apply storage_reachable_inv. Qed.

(** in a reachable state every block of the chain is found by its hash, and every transaction of
    the chain by its own, at its block, with the block's height; no getter changes the state. *)
Theorem storage_finds_chain {LS : LibSecp256k1} {BB : BoostBits} {KC : Keccak} s b :
  storage_reachable s → b ∈ chain_ s →
  getBlock (block_hash_ b) s = (Ok (Some b), s) ∧
  ∀ tx, tx ∈ txs_ b → ∃ tx' k, getTx (hash_ tx) s =
    (Ok (Some (tx', block_hash_ b, Z.of_nat k, nHeight_ b)), s) ∧
    txs_ b !! k = Some tx' ∧ hash_ tx' = hash_ tx.
Proof.
  intros Hs%storage_reachable_inv Hb.
  assert (Hblk : blockByHash_ s !! block_hash_ b = Some b) by (by apply (si_blocks _ Hs)). split.
  - unfold getBlock, blockExistsInternal, at_. by rewrite Hblk, decide_True by by eexists.
  - intros tx Htx. assert (Hin : tx_in b (hash_ tx)) by (by exists tx).
    destruct (si_found _ Hs b (hash_ tx) Hb Hin) as [[[h i] n] Ht].
    destruct (si_txs _ Hs _ _ _ _ Ht) as (b' & k & tx' & Hb' & -> & -> & -> & Hk & Htx').
    assert (b' = b) as ->.
    { apply (si_unique _ Hs _ _ (hash_ tx)); [done|done| |done].
      exists tx'. split; [by eapply list_elem_of_lookup_2|done]. }
    exists tx', k. split; [|done]. unfold getTx, txExistsInternal, at_, tx_at.
    rewrite Ht, decide_True, result_bind_Ok by by eexists. cbv iota. rewrite Hblk, result_bind_Ok.
    rewrite Nat2Z.id, Hk, result_bind_Ok. case_decide; [done|]. done.
Qed.
End invariant.

(** ** Reading back what the destructor saved *)

Section persistence.
Context {DBI : RocksDB} {LS : LibSecp256k1} {BB : BoostBits} {KC : Keccak}.

Lemma serialized_txs_at b :
  Block_header_typed b →
  drop 217 (serializeBlock b) = serialize_txs (txs_ b) ++ serialize_txValidators (txValidators_ b).
Proof.
  intros (Hs & Hp & Hr & Hv & Ht & _ & _). unfold serializeBlock, serializeHeader. cbn zeta.
  set (T := serialize_txs _). set (V := serialize_txValidators _). set (start := uint64ToBytes (Z.of_nat _)).
  rewrite <- !app_assoc, !app_assoc, <- (app_assoc _ T V). apply drop_app_length'.
  unfold start. rewrite !length_app, !uint64_len. lia.
Qed.

Lemma read_tx_at txs bytes i rest k tx :
  Forall tx_readable txs → drop i bytes = serialize_txs txs ++ rest → txs !! k = Some tx →
  (index ← skip_txs k bytes i;
   txSize ← read_size bytes index;
   txBytes ← subspan bytes (index + 4) txSize;
   TxBlock_parse txBytes) = Ok tx.
Proof.
  intros Hr. revert i k. induction Hr as [|x txs [Hz Hp]%tx_readable_parses _ IH]; intros i k Hd Hk; [done|].
  unfold serialize_txs in Hd. cbn [map concat] in Hd. rewrite <- app_assoc in Hd.
  destruct (read_size_spec _ _ _ _ Hz Hd) as (Hsz & Hsp & Hd').
  destruct k as [|k]; cbn [skip_txs].
  - injection Hk as ->. by rewrite result_bind_Ok, Hsz, result_bind_Ok, Hsp, result_bind_Ok.
  - rewrite Hsz, result_bind_Ok. cbn in Hk.
    replace (i + (length (tx_bytes x) + 4))%nat with (i + 4 + length (tx_bytes x))%nat by lia.
    by apply IH.
Qed.

(** The transaction the database gives for an index of a saved block is the block's. *)
Lemma tx_from_block b k tx :
  Block_header_typed b → Block_readable b → txs_ b !! k = Some tx →
  getTxFromBlockWithIndex (serializeBlock b) k = Ok tx.
Proof.
  intros Ht (Hr & _) Hk. apply (read_tx_at (txs_ b) _ _ (serialize_txValidators (txValidators_ b))); try done.
  by apply serialized_txs_at.
Qed.

(** The last write of a key wins; a key written once is found. *)
Lemma foldl_put_lookup (l : list Entry) (m : gmap (list Z) (list Z)) k v :
  (k, v) ∈ l → (∀ v', (k, v') ∈ l → v' = v) →
  foldl (λ m (e : Entry), <[e.1 := e.2]> m) m l !! k = Some v.
Proof.
  intros Hin Hu. induction l as [|[k' v'] l IH] using rev_ind; [by apply not_elem_of_nil in Hin|].
  rewrite foldl_app. cbn. destruct (decide (k' = k)) as [->|Hne].
  - rewrite lookup_insert_eq. f_equal. apply Hu. apply elem_of_app. right. by apply list_elem_of_singleton.
  - rewrite lookup_insert_ne by done. apply IH.
    + apply elem_of_app in Hin as [?|Hin]; [done|]. apply list_elem_of_singleton in Hin. congruence.
    + intros w Hw. apply Hu. apply elem_of_app. by left.
Qed.

(** The entries of a block, in order. *)
Definition block_entries (b : Block) : list Entry :=
  [(pfx_blocks ++ block_hash_ b, serializeBlock b);
   (pfx_blockHeightMaps ++ uint64ToBytes (nHeight_ b), block_hash_ b)]
  ++ map (λ it, (pfx_txToBlocks ++ hash_ it.2, tx_position b it.1)) (zip (seq 0 (length (txs_ b))) (txs_ b)).

Lemma batch_block_entries batch b :
  batch_block batch b = mkBatch (puts_ batch ++ block_entries b) (dels_ batch).
Proof.
  unfold batch_block, block_entries. generalize (zip (seq 0 (length (txs_ b))) (txs_ b)) as l.
  assert (Hgen : ∀ l B, foldl (λ B (it : nat * TxBlock),
      push_back B (hash_ it.2) (tx_position b it.1) pfx_txToBlocks) B l =
    mkBatch (puts_ B ++ map (λ it, (pfx_txToBlocks ++ hash_ it.2, tx_position b it.1)) l) (dels_ B)).
  { induction l as [|it l IH]; intros B; cbn [foldl map]; [by destruct B; cbn; rewrite app_nil_r|].
    rewrite IH. cbn. by rewrite <- app_assoc. }
  intros l. rewrite Hgen. cbn. by rewrite <- !app_assoc.
Qed.

Lemma batch_chain_entries chain :
  foldl batch_block DBBatch_new chain = mkBatch (concat (map block_entries chain)) [].
Proof.
  assert (Hgen : ∀ B, foldl batch_block B chain = mkBatch (puts_ B ++ concat (map block_entries chain)) (dels_ B)).
  { induction chain as [|b chain IH]; intros B; cbn [foldl map concat]; [by destruct B; cbn; rewrite app_nil_r|].
    rewrite IH, batch_block_entries. cbn. by rewrite <- app_assoc. }
  by rewrite Hgen.
Qed.

Lemma chain_entries_elem chain k v :
  (k, v) ∈ concat (map block_entries chain) ↔ ∃ b, b ∈ chain ∧ (k, v) ∈ block_entries b.
Proof.
  rewrite list_elem_of_In, in_concat. split.
  - intros (l & Hl & Hin). apply in_map_iff in Hl as (b & <- & Hb). exists b. split; by apply list_elem_of_In.
  - intros (b & Hb & Hin). exists (block_entries b). apply list_elem_of_In in Hb. apply list_elem_of_In in Hin.
    split; [by apply in_map|done].
Qed.

Lemma block_entries_elem b k v :
  (k, v) ∈ block_entries b ↔
  (k = pfx_blocks ++ block_hash_ b ∧ v = serializeBlock b) ∨
  (k = pfx_blockHeightMaps ++ uint64ToBytes (nHeight_ b) ∧ v = block_hash_ b) ∨
  ∃ i tx, txs_ b !! i = Some tx ∧ k = pfx_txToBlocks ++ hash_ tx ∧ v = tx_position b i.
Proof.
  unfold block_entries. rewrite elem_of_app, !elem_of_cons, elem_of_nil, list_elem_of_In, in_map_iff.
  split.
  - intros [[[= -> ->]|[[= -> ->]|[]]]|([i tx] & [= <- <-] & Hin)]; [by left|by right; left|].
    right. right. apply list_elem_of_In, zip_seq_elem in Hin as (j & -> & Hj). by exists j, tx.
  - intros [[-> ->]|[[-> ->]|(i & tx & Hi & -> & ->)]]; [by left; left|by left; right; left|right].
    exists (i, tx). split; [done|]. apply list_elem_of_In, zip_seq_elem. by exists i.
Qed.

(** What is saved: sealed blocks whose hashes are hashes, and whose transactions differ. *)
Definition saveable (b : Block) : Prop :=
  Block_header_typed b ∧ Block_sealed b ∧ Block_readable b ∧
  NoDup (map hash_ (txs_ b)) ∧ Z.of_nat (length (txs_ b)) < 2 ^ 32.

(** The position of a transaction is read field by field. *)
Lemma position_read {A} b i (f : list Z → Z → Z → result A) :
  length (block_hash_ b) = 32%nat → Z.of_nat i < 2 ^ 32 → in_uint 64 (nHeight_ b) →
  (blockHash ← subspan (tx_position b i) 0 32;
   n ← subspan (tx_position b i) 32 4; blockIndex ← bytesToUint32 n;
   h ← subspan (tx_position b i) 36 8; blockHeight ← bytesToUint64 h;
   f blockHash blockIndex blockHeight) = f (block_hash_ b) (Z.of_nat i) (nHeight_ b).
Proof.
  intros Hl Hi Hh.
  assert (H4 : length (uint32ToBytes (Z.of_nat i)) = 4%nat) by (rewrite uint32ToBytes_encode; apply be_encode_length).
  assert (Hd0 : drop 0 (tx_position b i) = block_hash_ b ++ uint32ToBytes (Z.of_nat i) ++ uint64ToBytes (nHeight_ b)) by done.
  assert (Hd1 := drop_app_next _ _ _ _ Hd0). rewrite Hl in Hd1.
  assert (Hd2 := drop_app_next _ _ _ _ Hd1). rewrite H4 in Hd2.
  assert (Hlen : length (tx_position b i) = 44%nat)
    by (unfold tx_position; rewrite !length_app, Hl, H4, uint64_len; done).
  rewrite (subspan_drop (tx_position b i) 0 32 _ _ ltac:(lia) Hd0 Hl), result_bind_Ok.
  rewrite (subspan_drop (tx_position b i) 32 4 _ _ ltac:(lia) Hd1 H4), result_bind_Ok.
  rewrite bytesToUint32_roundtrip, result_bind_Ok by (unfold in_uint; lia).
  rewrite <- (app_nil_r (uint64ToBytes (nHeight_ b))) in Hd2.
  rewrite (subspan_drop (tx_position b i) 36 8 _ _ ltac:(lia) Hd2 (uint64_len _)), result_bind_Ok.
  by rewrite bytesToUint64_roundtrip, result_bind_Ok.
Qed.

Lemma saved_lookup s d b k v :
  storage_inv s → Storage_save s = Ok d → Forall saveable (chain_ s) → b ∈ chain_ s →
  (k, v) ∈ block_entries b → (∀ h, k ≠ pfx_blockHeightMaps ++ h) → k ≠ pfx_blocks ++ string_bytes "latest" →
  rdb_map d !! k = Some v.
Proof.
  intros Hs Hsave Hall Hb Hkv Hnh Hnl. rewrite Forall_forall in Hall.
  unfold Storage_save in Hsave. apply result_bind_ok in Hsave as (last & _ & [= <-]).
  rewrite put_map, lookup_insert_ne, batch_chain_entries, putBatch_map by done.
  apply foldl_put_lookup; [apply chain_entries_elem; by exists b|].
  intros v' (b' & Hb' & Hkv')%chain_entries_elem.
  apply block_entries_elem in Hkv as [[-> ->]|[[-> ->]|(i & tx & Hi & -> & ->)]]; [|by destruct (Hnh _ eq_refl)|];
    apply block_entries_elem in Hkv' as [[E ->]|[[E ->]|(i' & tx' & Hi' & E & ->)]]; try discriminate E.
  - apply app_inv_head in E. by rewrite (NoDup_hashes_inj _ _ _ (si_hashes _ Hs) Hb Hb' E).
  - apply app_inv_head in E. assert (b' = b) as ->.
    { apply (si_unique _ Hs _ _ (hash_ tx)); [done|done| |]; [exists tx'|exists tx];
        (split; [by eapply list_elem_of_lookup_2|done]). }
    destruct (Hall _ Hb) as (_ & _ & _ & Hnd & _). unfold tx_position. do 3 f_equal.
    assert (i = i'); [|by subst]. eapply NoDup_lookup; [exact Hnd| |].
    + rewrite list_lookup_fmap, Hi. done.
    + rewrite list_lookup_fmap, Hi'. by rewrite E.
Qed.

(** C6: What the destructor saves is found by the next run. For a chain of blocks that can be written and parsed again
    ([saveable]: typed and sealed, no transaction twice, positions within 32 bits), in a storage that has nothing in memory and
    the saved database, every block of the saved chain is returned by its hash, and every transaction
    by its own, with its block, its index and its height. *)
Theorem storage_save_restores s d b :
  storage_reachable s → Storage_save s = Ok d → Forall saveable (chain_ s) → b ∈ chain_ s →
  (getBlock (block_hash_ b) (Storage_new d)).1 = Ok (Some b) ∧
  ∀ i tx, txs_ b !! i = Some tx →
    (getTx (hash_ tx) (Storage_new d)).1 = Ok (Some (tx, block_hash_ b, Z.of_nat i, nHeight_ b)).
Proof.
  intros Hs%storage_reachable_inv Hsave Hall Hb.
  assert (Hsb := Hall). rewrite Forall_forall in Hsb. destruct (Hsb _ Hb) as (Ht & Hse & Hr & Hnd & Hlen).
  assert (Hhash : length (block_hash_ b) = 32%nat).
  { destruct Hse as (_ & _ & _ & -> & _). apply sha3_length. }
  assert (Hblk : get d (block_hash_ b) pfx_blocks = serializeBlock b).
  { rewrite get_spec. rewrite (saved_lookup s d b (pfx_blocks ++ block_hash_ b) (serializeBlock b)); try done.
    - apply block_entries_elem. by left.
    - intros E%app_inv_head. rewrite E in Hhash. done. }
  assert (Hhas : has d (block_hash_ b) pfx_blocks = true).
  { rewrite has_spec. apply bool_decide_eq_true. exists (serializeBlock b).
    apply (saved_lookup s d b); try done.
    - apply block_entries_elem. by left.
    - intros E%app_inv_head. rewrite E in Hhash. done. }
  split.
  - unfold getBlock, blockExistsInternal. cbn [Storage_new blockByHash_ cachedBlocks_ storage_db].
    rewrite lookup_empty, !decide_False by (by intros [? ?]). rewrite Hhas. unfold cache_block.
    change (storage_db (Storage_new d)) with d. rewrite Hblk, block_parse_serialize by done. cbn [fst cachedBlocks_ with_cachedBlocks].
    change (cachedBlocks_ (Storage_new d)) with (∅ : gmap (list Z) Block).
    unfold insert_new, at_. by rewrite lookup_empty, lookup_insert_eq.
  - intros i tx Hi.
    assert (Hpos : rdb_map d !! (pfx_txToBlocks ++ hash_ tx) = Some (tx_position b i)).
    { apply (saved_lookup s d b); try done. apply block_entries_elem. right. right. by exists i, tx. }
    unfold getTx, txExistsInternal. cbn [Storage_new txByHash_ cachedTxs_ storage_db].
    rewrite lookup_empty, !decide_False by (by intros [? ?]). rewrite has_spec, Hpos, bool_decide_true by by eexists.
    change (storage_db (Storage_new d)) with d. rewrite get_spec, Hpos. cbn [default from_option].
    cbv zeta. rewrite (position_read b i (λ blockHash blockIndex blockHeight,
      t ← getTxFromBlockWithIndex (get d blockHash pfx_blocks) (Z.to_nat blockIndex);
      Ok (t, blockHash, blockIndex, blockHeight)));
      [|done|apply lookup_lt_Some in Hi; lia|by destruct Ht as (_ & _ & _ & _ & _ & _ & ?)]. rewrite Hblk, Nat2Z.id, (tx_from_block b i tx), !result_bind_Ok by done.
    unfold cache_tx. cbn [fst cachedTxs_ with_cachedTxs].
    change (cachedTxs_ (Storage_new d)) with (∅ : gmap (list Z) TxInfo).
    unfold insert_new, at_. by rewrite lookup_empty, lookup_insert_eq.
Qed.
End persistence.

(** ** A chain of one block *)

#[export] Instance saveable_dec {LS : LibSecp256k1} {BB : BoostBits} {KC : Keccak} b : Decision (saveable b).
Proof. unfold saveable. apply _. Defined.

Definition toy_block : Block :=
  (@finalize toy_secp boost_ref toy_hash (with_txs (Block_new (replicate 32 8) 1000 7) [toy_tx] [toy_val])
     (replicate 32 1) 2000).2.

Definition toy_start : Storage (DBI := ref_db) := Storage_new (DBI := ref_db) (∅ : gmap _ _).
Definition toy_chain : Storage (DBI := ref_db) := map_block (DBI := ref_db) toy_block [toy_block] toy_start.

Lemma toy_chain_reachable : storage_reachable (DBI := ref_db) toy_chain.
Proof.
  apply (reach_step (DBI := ref_db) toy_start); [constructor|].
  apply (step_pushBack (DBI := ref_db) toy_block); [|done].
  split; [by_compute|]. split; [by intros ?%not_elem_of_nil|]. by intros b' t ?%not_elem_of_nil.
Qed.

Lemma storage_chain_invariant_witness :
  storage_reachable (DBI := ref_db) toy_chain ∧ storage_inv (DBI := ref_db) toy_chain.
Proof. split; [apply toy_chain_reachable|]. apply (@storage_chain_invariant ref_db), toy_chain_reachable. Defined.

Lemma storage_finds_chain_witness :
  @getBlock ref_db toy_secp boost_ref toy_hash (block_hash_ toy_block) toy_chain = (Ok (Some toy_block), toy_chain).
Proof.
  apply (@storage_finds_chain ref_db toy_secp boost_ref toy_hash toy_chain toy_block);
    [apply toy_chain_reachable|apply list_elem_of_singleton; done].
Defined.

Definition toy_saved : gmap (list Z) (list Z) :=
  match @Storage_save ref_db toy_chain with Ok d => d | Throw _ => ∅ end.

Lemma storage_save_restores_witness :
  (@getTx ref_db toy_secp boost_ref toy_hash (hash_ toy_tx) (Storage_new (DBI := ref_db) toy_saved)).1 =
  Ok (Some (toy_tx, block_hash_ toy_block, 0, 7)).
Proof.
  apply (@storage_save_restores ref_db toy_secp boost_ref toy_hash toy_chain toy_saved toy_block)
    with (i := 0%nat) (tx := toy_tx).
  - apply toy_chain_reachable.
  - reflexivity.
  - by_compute.
  - apply list_elem_of_singleton. done.
  - reflexivity.
Defined.
