(* ===== verification/EvmHost.v ===== *)
(** * EvmHost: the accounts and the EVM host (src/core/evmhost.hpp, src/core/ecrecoverprecompile.cpp)

    The EVM itself, [evmc_execute] of evmone, is third-party code that calls back the host: it is a
    parameter that gives, for a message and a code, the tree of host calls the virtual machine makes,
    depending on their answers.  [RandomGen* randomGen] points to the state's generator; the host
    keeps the generator's seed. *)

From S2P Require Import Prelude Bytes SizedInts Hashing ECDSA Tx Randomness Abi.

(** ** Accounts: an original ([first]) and a current ([second]) value of each field *)

Record EVMAccount := mkAccount {
  acc_nonce : Z * Z;                    (* uint64_t *)
  acc_code : list Z * list Z;
  acc_codeHash : list Z * list Z;
  acc_balance : Z * Z;                  (* uint256_t *)
  acc_storage : gmap (list Z) (list Z * list Z);
  acc_transientStorage : gmap (list Z) (list Z)
}.

Definition EVMAccount_new : EVMAccount :=
  mkAccount (0, 0) ([], []) (zero_hash, zero_hash) (0, 0) ∅ ∅.

Definition set_nonce (p : Z * Z) (a : EVMAccount) : EVMAccount :=
  mkAccount p (acc_code a) (acc_codeHash a) (acc_balance a) (acc_storage a) (acc_transientStorage a).
Definition set_code (c ch : list Z * list Z) (a : EVMAccount) : EVMAccount :=
  mkAccount (acc_nonce a) c ch (acc_balance a) (acc_storage a) (acc_transientStorage a).
Definition set_balance (p : Z * Z) (a : EVMAccount) : EVMAccount :=
  mkAccount (acc_nonce a) (acc_code a) (acc_codeHash a) p (acc_storage a) (acc_transientStorage a).
Definition set_slots (s : gmap (list Z) (list Z * list Z)) (a : EVMAccount) : EVMAccount :=
  mkAccount (acc_nonce a) (acc_code a) (acc_codeHash a) (acc_balance a) s (acc_transientStorage a).
Definition set_transients (s : gmap (list Z) (list Z)) (a : EVMAccount) : EVMAccount :=
  mkAccount (acc_nonce a) (acc_code a) (acc_codeHash a) (acc_balance a) (acc_storage a) s.

Record EVMEvent := mkEVMEvent {
  creator : list Z;
  event_data : list Z;
  event_topics : list (list Z)
}.

Record evmc_tx_context := mkTxContext {
  tx_gas_price : list Z;
  tx_origin : list Z;
  block_coinbase : list Z;
  block_number : Z;
  block_timestamp : Z;
  block_gas_limit : Z;
  block_prev_randao : list Z;
  chain_id : list Z;
  block_base_fee : list Z;
  blob_base_fee : list Z
}.

(** [evmc_tx_context currentTxContext = {}]. *)
Definition tx_context_zero : evmc_tx_context :=
  mkTxContext zero_hash zero_address zero_address 0 0 0 zero_hash zero_hash zero_hash zero_hash.

Record EVMHost := mkHost {
  randomGen : list Z;
  accounts : gmap (list Z) EVMAccount;
  accessedAccountsBalances : list (list Z);
  accessedAccountsCode : list (list Z);
  accessedAccountsNonces : list (list Z);
  accessedStorages : list (list Z * list Z);
  contractAddresses : gmap (list Z) (list Z);
  recentlyCreatedContracts : list (list Z);
  accessedTransients : list (list Z);
  currentTxContext : evmc_tx_context;
  currentTxHash : list Z;
  m_ecrecover_results : list (list Z);
  emittedEvents : list EVMEvent;
  shouldRevert : bool
}.

Section setters.
Variable h : EVMHost.
Definition with_accounts (m : gmap (list Z) EVMAccount) : EVMHost :=
  mkHost (randomGen h) m (accessedAccountsBalances h) (accessedAccountsCode h) (accessedAccountsNonces h)
    (accessedStorages h) (contractAddresses h) (recentlyCreatedContracts h) (accessedTransients h)
    (currentTxContext h) (currentTxHash h) (m_ecrecover_results h) (emittedEvents h) (shouldRevert h).
Definition with_accessed (balances codes nonces : list (list Z)) : EVMHost :=
  mkHost (randomGen h) (accounts h) balances codes nonces
    (accessedStorages h) (contractAddresses h) (recentlyCreatedContracts h) (accessedTransients h)
    (currentTxContext h) (currentTxHash h) (m_ecrecover_results h) (emittedEvents h) (shouldRevert h).
Definition with_touched (slots : list (list Z * list Z)) (transients : list (list Z)) : EVMHost :=
  mkHost (randomGen h) (accounts h) (accessedAccountsBalances h) (accessedAccountsCode h)
    (accessedAccountsNonces h) slots (contractAddresses h) (recentlyCreatedContracts h) transients
    (currentTxContext h) (currentTxHash h) (m_ecrecover_results h) (emittedEvents h) (shouldRevert h).
Definition with_created (addrs : gmap (list Z) (list Z)) (recent : list (list Z)) : EVMHost :=
  mkHost (randomGen h) (accounts h) (accessedAccountsBalances h) (accessedAccountsCode h)
    (accessedAccountsNonces h) (accessedStorages h) addrs recent (accessedTransients h)
    (currentTxContext h) (currentTxHash h) (m_ecrecover_results h) (emittedEvents h) (shouldRevert h).
Definition with_context (ctx : evmc_tx_context) (hash : list Z) : EVMHost :=
  mkHost (randomGen h) (accounts h) (accessedAccountsBalances h) (accessedAccountsCode h)
    (accessedAccountsNonces h) (accessedStorages h) (contractAddresses h) (recentlyCreatedContracts h)
    (accessedTransients h) ctx hash (m_ecrecover_results h) (emittedEvents h) (shouldRevert h).
Definition with_results (results : list (list Z)) (events : list EVMEvent) : EVMHost :=
  mkHost (randomGen h) (accounts h) (accessedAccountsBalances h) (accessedAccountsCode h)
    (accessedAccountsNonces h) (accessedStorages h) (contractAddresses h) (recentlyCreatedContracts h)
    (accessedTransients h) (currentTxContext h) (currentTxHash h) results events (shouldRevert h).
Definition with_shouldRevert (b : bool) : EVMHost :=
  mkHost (randomGen h) (accounts h) (accessedAccountsBalances h) (accessedAccountsCode h)
    (accessedAccountsNonces h) (accessedStorages h) (contractAddresses h) (recentlyCreatedContracts h)
    (accessedTransients h) (currentTxContext h) (currentTxHash h) (m_ecrecover_results h)
    (emittedEvents h) b.
Definition with_randomGen (seed : list Z) : EVMHost :=
  mkHost seed (accounts h) (accessedAccountsBalances h) (accessedAccountsCode h)
    (accessedAccountsNonces h) (accessedStorages h) (contractAddresses h) (recentlyCreatedContracts h)
    (accessedTransients h) (currentTxContext h) (currentTxHash h) (m_ecrecover_results h)
    (emittedEvents h) (shouldRevert h).
End setters.

(** The host after its constructor, before the database is read. *)
Definition EVMHost_new : EVMHost :=
  mkHost zero_hash ∅ [] [] [] [] ∅ [] [] tx_context_zero zero_hash [] [] false.

(** [accounts[addr]]: the account, which is default-initialised when it is missing, ... *)
Definition account_at (h : EVMHost) (addr : list Z) : EVMAccount :=
  default EVMAccount_new (accounts h !! addr).

(** ... and inserted by the access. *)
Definition update_account (addr : list Z) (f : EVMAccount → EVMAccount) (h : EVMHost) : EVMHost :=
  with_accounts h (<[addr := f (account_at h addr)]> (accounts h)).

Definition touch_account (addr : list Z) : EVMHost → EVMHost := update_account addr (λ a, a).

(** [storage[key]]. *)
Definition slot (a : EVMAccount) (key : list Z) : list Z * list Z :=
  default (zero_hash, zero_hash) (acc_storage a !! key).

Definition set_slot (key : list Z) (p : list Z * list Z) (a : EVMAccount) : EVMAccount :=
  set_slots (<[key := p]> (acc_storage a)) a.

Definition isEvmContract (h : EVMHost) (address : list Z) : bool :=
  match accounts h !! address with
  | None => false
  | Some a => (0 <? length (acc_code a).2)%nat
  end.

(** ** The queries of the virtual machine *)

Inductive evmc_storage_status :=
| EVMC_STORAGE_ASSIGNED | EVMC_STORAGE_ADDED | EVMC_STORAGE_DELETED | EVMC_STORAGE_MODIFIED.

Definition account_exists (addr : list Z) (h : EVMHost) : bool :=
  bool_decide (is_Some (accounts h !! addr)).

Definition get_storage (addr key : list Z) (h : EVMHost) : list Z :=
  match accounts h !! addr with
  | None => zero_hash
  | Some acc => match acc_storage acc !! key with None => zero_hash | Some p => p.2 end
  end.

(** [if (!oldCurr)]: [evmc::bytes32] converts to [false] when it is zero. *)
Definition set_storage (addr key value : list Z) (h : EVMHost) : evmc_storage_status * EVMHost :=
  let oldVal := slot (account_at h addr) key in
  let h := update_account addr (set_slot key oldVal) h in
  let h := with_touched h (accessedStorages h ++ [(addr, key)]) (accessedTransients h) in
  let '(oldOrig, oldCurr) := oldVal in
  if decide (oldCurr = value) then (EVMC_STORAGE_ASSIGNED, h)
  else
    let status :=
      if decide (oldOrig = oldCurr) then
        if negb (nonzero oldCurr) then EVMC_STORAGE_ADDED
        else if nonzero value then EVMC_STORAGE_MODIFIED
        else EVMC_STORAGE_DELETED
      else EVMC_STORAGE_ASSIGNED in
    (status, update_account addr (set_slot key (oldOrig, value)) h).

Section queries.
Context `{BoostBits}.

Definition uint256ToEvmcUint256 (i : Z) : list Z := uint256ToBytes i.

Definition get_balance (addr : list Z) (h : EVMHost) : list Z :=
  match accounts h !! addr with
  | None => zero_hash
  | Some acc => uint256ToEvmcUint256 (acc_balance acc).2
  end.
End queries.

Definition get_code_size (addr : list Z) (h : EVMHost) : nat :=
  match accounts h !! addr with None => 0%nat | Some acc => length (acc_code acc).2 end.

Definition get_code_hash (addr : list Z) (h : EVMHost) : list Z :=
  match accounts h !! addr with None => zero_hash | Some acc => (acc_codeHash acc).2 end.

(** [copy_code]: the bytes written to the buffer; their number is returned. *)
Definition copy_code (addr : list Z) (code_offset buffer_size : nat) (h : EVMHost) : list Z :=
  match accounts h !! addr with
  | None => []
  | Some acc =>
      let code := (acc_code acc).2 in
      if (length code <=? code_offset)%nat then []
      else let n := min buffer_size (length code - code_offset) in take n (drop code_offset code)
  end.

Definition emit_log (addr data : list Z) (topics : list (list Z)) (h : EVMHost) : EVMHost :=
  with_results h (m_ecrecover_results h) (emittedEvents h ++ [mkEVMEvent addr data topics]).

Definition get_transient_storage (addr key : list Z) (h : EVMHost) : list Z :=
  match accounts h !! addr with
  | None => zero_hash
  | Some acc => default zero_hash (acc_transientStorage acc !! key)
  end.

Definition set_transient_storage (addr key value : list Z) (h : EVMHost) : EVMHost :=
  let h := with_touched h (accessedStorages h) (accessedTransients h ++ [addr]) in
  update_account addr (λ a, set_transients (<[key := value]> (acc_transientStorage a)) a) h.

(** [selfdestruct] is not allowed: it only asks for a revert. *)
Definition selfdestruct (h : EVMHost) : bool * EVMHost := (false, with_shouldRevert h true).

(** ** Commit and revert *)

Definition clear_transients (addrs : list (list Z)) (h : EVMHost) : EVMHost :=
  foldl (λ h addr, update_account addr (set_transients ∅) h) h addrs.

Definition commit_slots (slots : list (list Z * list Z)) (h : EVMHost) : EVMHost :=
  foldl (λ h '(addr, key), update_account addr
    (λ a, set_slot key ((slot a key).2, (slot a key).2) a) h) h slots.

Definition revert_slots (slots : list (list Z * list Z)) (h : EVMHost) : EVMHost :=
  foldl (λ h '(addr, key), update_account addr
    (λ a, set_slot key ((slot a key).1, (slot a key).1) a) h) h slots.

Definition commit (h : EVMHost) : EVMHost :=
  let h := commit_slots (accessedStorages h) h in
  let h := clear_transients (accessedTransients h) h in
  let h := with_results h [] [] in
  let h := with_touched h [] [] in
  with_context h (currentTxContext h) zero_hash.

Definition revert (h : EVMHost) : EVMHost :=
  let h := revert_slots (accessedStorages h) h in
  let h := clear_transients (accessedTransients h) h in
  let h := with_created h
    (foldl (λ m hash, delete hash m) (contractAddresses h) (recentlyCreatedContracts h)) [] in
  let h := with_results h [] [] in
  let h := with_touched h [] [] in
  with_context h (currentTxContext h) zero_hash.

Definition on_accounts (f : EVMAccount → EVMAccount) (addrs : list (list Z)) (h : EVMHost) : EVMHost :=
  foldl (λ h addr, update_account addr f h) h addrs.

Definition commitBalance (h : EVMHost) : EVMHost :=
  let h := on_accounts (λ a, set_balance ((acc_balance a).2, (acc_balance a).2) a) (accessedAccountsBalances h) h in
  with_accessed h [] (accessedAccountsCode h) (accessedAccountsNonces h).

Definition revertBalance (h : EVMHost) : EVMHost :=
  let h := on_accounts (λ a, set_balance ((acc_balance a).1, (acc_balance a).1) a) (accessedAccountsBalances h) h in
  with_accessed h [] (accessedAccountsCode h) (accessedAccountsNonces h).

Definition commitCode (h : EVMHost) : EVMHost :=
  let h := on_accounts (λ a, set_code ((acc_code a).2, (acc_code a).2) ((acc_codeHash a).2, (acc_codeHash a).2) a)
    (accessedAccountsCode h) h in
  let h := with_created h (contractAddresses h) [] in
  with_accessed h (accessedAccountsBalances h) [] (accessedAccountsNonces h).

Definition revertCode (h : EVMHost) : EVMHost :=
  let h := on_accounts (λ a, set_code ((acc_code a).1, (acc_code a).1) ((acc_codeHash a).1, (acc_codeHash a).1) a)
    (accessedAccountsCode h) h in
  with_accessed h (accessedAccountsBalances h) [] (accessedAccountsNonces h).

Definition commitNonce (h : EVMHost) : EVMHost :=
  let h := on_accounts (λ a, set_nonce ((acc_nonce a).2, (acc_nonce a).2) a) (accessedAccountsNonces h) h in
  with_accessed h (accessedAccountsBalances h) (accessedAccountsCode h) [].

Definition revertNonce (h : EVMHost) : EVMHost :=
  let h := on_accounts (λ a, set_nonce ((acc_nonce a).1, (acc_nonce a).1) a) (accessedAccountsNonces h) h in
  with_accessed h (accessedAccountsBalances h) (accessedAccountsCode h) [].

Definition setBalance (address : list Z) (balance : Z) : EVMHost → EVMHost :=
  update_account address (λ a, set_balance ((acc_balance a).1, balance) a).

(** ** Messages, results and the virtual machine *)

Inductive evmc_call_kind :=
| EVMC_CALL | EVMC_DELEGATECALL | EVMC_CALLCODE | EVMC_CREATE | EVMC_CREATE2 | EVMC_EOFCREATE.

Record evmc_message := mkMessage {
  kind : evmc_call_kind;
  flags : Z;
  depth : Z;
  gas : Z;
  recipient : list Z;
  sender : list Z;
  input_data : list Z;
  msg_value : list Z;
  create2_salt : list Z;
  code_address : list Z
}.

Record evmc_result := mkResult {
  status_code : Z;
  gas_left : Z;
  output_data : list Z
}.

Definition EVMC_SUCCESS : Z := 0.
Definition EVMC_REVERT : Z := 2.

(** A default-constructed result with [status_code = EVMC_REVERT] and no output. *)
Definition result_revert : evmc_result := mkResult EVMC_REVERT 0 [].

(** The host interface the virtual machine calls. *)
Inductive host_op : Type :=
| HAccountExists (addr : list Z)
| HGetStorage (addr key : list Z)
| HSetStorage (addr key value : list Z)
| HGetBalance (addr : list Z)
| HGetCodeSize (addr : list Z)
| HGetCodeHash (addr : list Z)
| HCopyCode (addr : list Z) (code_offset buffer_size : nat)
| HSelfdestruct (addr beneficiary : list Z)
| HCall (msg : evmc_message)
| HGetTxContext
| HGetBlockHash (number : Z)
| HEmitLog (addr data : list Z) (topics : list (list Z))
| HAccessAccount (addr : list Z)
| HAccessStorage (addr key : list Z)
| HGetTransientStorage (addr key : list Z)
| HSetTransientStorage (addr key value : list Z).

Definition answer (op : host_op) : Type :=
  match op with
  | HAccountExists _ | HSelfdestruct _ _ => bool
  | HSetStorage _ _ _ => evmc_storage_status
  | HGetCodeSize _ => nat
  | HCall _ => evmc_result
  | HGetTxContext => evmc_tx_context
  | HEmitLog _ _ _ | HAccessAccount _ | HAccessStorage _ _ | HSetTransientStorage _ _ _ => unit
  | _ => list Z
  end.

(** What the virtual machine does with a message: host calls, then a result. *)
Inductive vm_prog : Type :=
| VmDone (r : evmc_result)
| VmOp (op : host_op) (k : answer op → vm_prog).

(** The calls a program at depth [d] makes are one level deeper, and at most at depth 1024. *)
Fixpoint calls_deeper (d : Z) (p : vm_prog) : Prop :=
  match p with
  | VmDone _ => True
  | VmOp op k =>
      match op with HCall m => depth m = d + 1 ∧ depth m ≤ 1024 | _ => True end
      ∧ ∀ a, calls_deeper d (k a)
  end.

(** evmone: [evmc_execute] of a message on a code. The EVM's call depth limit is 1024. *)
Class EVMC := {
  evmc_execute : evmc_message → list Z → vm_prog;
  evmc_depth_limit msg code : calls_deeper (depth msg) (evmc_execute msg code)
}.

(** ** Precompiled contracts *)

(** The 20 bytes [0x10 00 ... 00 10 00 00 00 00 n]. *)
Definition precompile_address (n : Z) : list Z := [16] ++ replicate 13 0 ++ [16] ++ replicate 4 0 ++ [n].
Definition ECRECOVER_ADDRESS : list Z := precompile_address 1.
Definition ABI_PACK : list Z := precompile_address 2.
Definition RANDOM : list Z := precompile_address 3.

Definition RANDOMNESS : list Z := [170; 204; 90; 23].    (* 0xaacc5a17 *)
Definition pack : list Z := [170; 99; 81; 204].           (* 0xaa6351cc *)
Definition keccakSolSign_id : list Z := [81; 138; 248; 219]. (* 0x518af8db *)
Definition keccak_id : list Z := [35; 252; 126; 243].     (* 0x23fc7ef3 *)

Section precompiles.
Context `{BoostBits} `{Keccak} `{LibSecp256k1}.

(** [catch (const std::exception& e)]: a revert, keeping the results vector. *)
Definition precompile_catch (m : M (list (list Z)) evmc_result) : M (list (list Z)) evmc_result := λ s,
  match m s with
  | (Throw Undefined, s') => (Throw Undefined, s')
  | (Throw _, s') => (Ok result_revert, s')
  | (Ok r, s') => (Ok r, s')
  end.

(** [hashs.push_back(value)], and a successful result that points to it. *)
Definition push_result (msg : evmc_message) (value : list Z) : M (list (list Z)) evmc_result := λ hashs,
  (Ok (mkResult EVMC_SUCCESS (gas msg) value), hashs ++ [value]).

Definition ecrecover (msg : evmc_message) : M (list (list Z)) evmc_result :=
  if negb (length (input_data msg) =? 132)%nat then mret' result_revert
  else precompile_catch (
    let ecrecoverBytes := drop 4 (input_data msg) in
    let msgHash := take 32 ecrecoverBytes in
    v <-- mlift (v ← bytesToUint256 (take 32 (drop 32 ecrecoverBytes));
                 if 255 <? v then Throw RangeError else Ok v);;
    r <-- mlift (bytesToUint256 (take 32 (drop 64 ecrecoverBytes)));;
    s <-- mlift (bytesToUint256 (take 32 (drop 96 ecrecoverBytes)));;
    if negb (v =? 27) && negb (v =? 28) then mret' result_revert
    else
      let parity := if v =? 28 then 1 else 0 in
      if negb (verifySig r s parity) then mret' result_revert
      else
        let sig := makeSig r s parity in
        let addr := toAddress (recover sig msgHash) in
        push_result msg (replicate 12 0 ++ addr)).

Definition packAndHash (msg : evmc_message) : M (list (list Z)) evmc_result :=
  if negb (length (input_data msg) =? 100)%nat then mret' result_revert
  else precompile_catch (
    packBytes <-- mlift (subspan_from (input_data msg) 4);;
    tlp <-- mlift (decodeData [TUint 256; TAddress; TUint 256] packBytes 0);;
    match tlp with
    | [VInt tokenId; VBytes user; VInt rarity] =>
        push_result msg (sha3 (uint256ToBytes tokenId ++ user ++ uint256ToBytes rarity))
    | _ => mthrow Undefined
    end).

(** [0x19 "Ethereum Signed Message:" '\n' "32"]. *)
Definition sign_prefix : list Z :=
  [25] ++ string_bytes "Ethereum Signed Message:" ++ [10] ++ string_bytes "32".

Definition keccakSolSign (msg : evmc_message) : M (list (list Z)) evmc_result :=
  if negb (length (input_data msg) =? 36)%nat then mret' result_revert
  else precompile_catch (
    packBytes <-- mlift (subspan_from (input_data msg) 4);;
    tlp <-- mlift (decodeData [THash] packBytes 0);;
    match tlp with
    | [VBytes hash] => push_result msg (sha3 (sign_prefix ++ hash))
    | _ => mthrow Undefined
    end).

Definition keccak (msg : evmc_message) : M (list (list Z)) evmc_result :=
  if (4 <? length (input_data msg))%nat then mret' result_revert
  else precompile_catch (
    packBytes <-- mlift (subspan_from (input_data msg) 4);;
    tlp <-- mlift (decodeData [TBytes] packBytes 0);;
    match tlp with
    | [VBytes data] => push_result msg (sha3 data)
    | _ => mthrow Undefined
    end).

Definition getRandom (msg : evmc_message) (seed : list Z) : M (list (list Z)) (evmc_result * list Z) :=
  if negb (length (input_data msg) =? 4)%nat then mret' (result_revert, seed)
  else
    let '(randomValueUint, seed) := getNext seed in
    r <-- push_result msg (uint256ToBytes randomValueUint);; mret' (r, seed).

(** A precompile on the host's vector of results. *)
Definition with_hashs {A} (m : M (list (list Z)) A) : M EVMHost A := λ h,
  let '(r, results) := m (m_ecrecover_results h) in (r, with_results h results (emittedEvents h)).

(** The three branches at the top of [EVMHost::call], or [None] for any other recipient. Reading a
    4-byte functor from a shorter input is undefined. *)
Definition call_precompile (msg : evmc_message) : option (M EVMHost evmc_result) :=
  if decide (recipient msg = ECRECOVER_ADDRESS) then Some (with_hashs (ecrecover msg))
  else if decide (recipient msg = RANDOM) then Some (
    if (length (input_data msg) <? 4)%nat then mret' result_revert
    else if decide (take 4 (input_data msg) = RANDOMNESS) then λ h,
      match with_hashs (getRandom msg (randomGen h)) h with
      | (Ok (r, seed), h) => (Ok r, with_randomGen h seed)
      | (Throw e, h) => (Throw e, h)
      end
    else mret' result_revert)
  else if decide (recipient msg = ABI_PACK) then Some (
    if (length (input_data msg) <? 4)%nat then mthrow Undefined
    else
      let functor := take 4 (input_data msg) in
      if decide (functor = pack) then with_hashs (packAndHash msg)
      else if decide (functor = keccakSolSign_id) then with_hashs (keccakSolSign msg)
      else if decide (functor = keccak_id) then with_hashs (keccak msg)
      else mret' result_revert)
  else None.

(** ** Running the virtual machine on the host *)

(** A step that also may run out of fuel. *)
Definition F (A : Type) : Type := EVMHost → option (result A * EVMHost).

Definition fbind {A B} (m : F A) (f : A → F B) : F B := λ h,
  match m h with
  | Some (Ok a, h) => f a h
  | Some (Throw e, h) => Some (Throw e, h)
  | None => None
  end.

Section run.
(** [evmc_execute] of a nested message on a code. *)
Variable exec : evmc_message → list Z → F evmc_result.

(** [EVMHost::call]: the code of [msg.recipient] runs, which the access inserts if missing. *)
Definition call (msg : evmc_message) : F evmc_result := λ h,
  match call_precompile msg with
  | Some m => Some (m h)
  | None =>
      let h := touch_account (recipient msg) h in
      exec msg (acc_code (account_at h (recipient msg))).2 h
  end.

Definition ok {A} (p : A * EVMHost) : option (result A * EVMHost) := Some (Ok p.1, p.2).

Definition host_do (op : host_op) : F (answer op) := λ h,
  match op with
  | HAccountExists addr => ok (account_exists addr h, h)
  | HGetStorage addr key => ok (get_storage addr key h, h)
  | HSetStorage addr key value => ok (set_storage addr key value h)
  | HGetBalance addr => ok (get_balance addr h, h)
  | HGetCodeSize addr => ok (get_code_size addr h, h)
  | HGetCodeHash addr => ok (get_code_hash addr h, h)
  | HCopyCode addr code_offset buffer_size => ok (copy_code addr code_offset buffer_size h, h)
  | HSelfdestruct _ _ => ok (selfdestruct h)
  | HCall msg => call msg h
  | HGetTxContext => ok (currentTxContext h, h)
  | HGetBlockHash number => ok (uint256ToEvmcUint256 number, h)
  | HEmitLog addr data topics => ok (tt, emit_log addr data topics h)
  | HAccessAccount _ | HAccessStorage _ _ => ok (tt, h)
  | HGetTransientStorage addr key => ok (get_transient_storage addr key h, h)
  | HSetTransientStorage addr key value => ok (tt, set_transient_storage addr key value h)
  end.

Fixpoint run_vm (p : vm_prog) : F evmc_result :=
  match p with
  | VmDone r => λ h, Some (Ok r, h)
  | VmOp op k => fbind (host_do op) (λ a, run_vm (k a))
  end.
End run.

Context `{EVMC}.

Fixpoint vm_execute (fuel : nat) (msg : evmc_message) (code : list Z) : F evmc_result :=
  match fuel with
  | O => λ _, None
  | S fuel => run_vm (vm_execute fuel) (evmc_execute msg code)
  end.

(** The nesting is at most 1024 levels, from depth 1: the fuel is never exhausted
    ([vm_execute_fuel] below). *)
Definition evmc_run (msg : evmc_message) (code : list Z) : M EVMHost evmc_result := λ h,
  match vm_execute 1024 msg code h with
  | Some p => p
  | None => (Throw Undefined, h)
  end.
End precompiles.

(** ** Transactions on the host *)

(** [static Address deriveContractAddress(const uint256_t& nonce, const Address& address)]. *)
Definition deriveContractAddress `{Keccak} (nonce : Z) (address : list Z) : list Z :=
  let rlpSize := byte_of (192 + 20 + (if nonce <? 128 then 1 else 1 + bytesRequired nonce)) in
  let rlp := [rlpSize] ++ address
    ++ [if nonce <? 128 then byte_of nonce else byte_of (128 + bytesRequired nonce)] in
  drop 12 (sha3 rlp).

(** Conversions of a checked 256-bit integer to the native types. *)
Definition to_u64 (z : Z) : result Z := if z <=? umax 64 then Ok z else Throw RangeError.
Definition to_i64 (z : Z) : result Z := if z <? 2 ^ 63 then Ok z else Throw RangeError.

(** The implementation-defined conversion from [uint64_t] to [int64_t]: two's complement. *)
Definition u64_as_i64 (z : Z) : Z := if z <? 2 ^ 63 then z else z - 2 ^ 64.

Section transactions.
Context {BB : BoostBits} {KC : Keccak} {LS : LibSecp256k1} {VM : EVMC}.

Definition setTxContext (tx : ethCallInfo) (blockHeight : Z) (blockCoinbase : list Z)
    (blockTimestamp blockGasLimit chainId : Z) (h : EVMHost) : EVMHost :=
  with_context h
    (mkTxContext (uint256ToEvmcUint256 (ci_gasPrice tx)) (ci_from tx) blockCoinbase blockHeight
      blockTimestamp blockGasLimit (uint256ToEvmcUint256 0) (uint256ToEvmcUint256 chainId)
      (uint256ToEvmcUint256 0) (uint256ToEvmcUint256 0))
    (currentTxHash h).

Definition createContract (tx : ethCallInfo) : M EVMHost evmc_result :=
  mmodify (touch_account (ci_from tx)) ;;;
  h <-- mget;;
  let contractAddress := deriveContractAddress (acc_nonce (account_at h (ci_from tx))).2 (ci_from tx) in
  g <-- mlift (to_u64 (ci_gasLimit tx));;
  let creationMsg := mkMessage EVMC_CREATE 0 1 (u64_as_i64 g) contractAddress (ci_from tx) []
    (uint256ToEvmcUint256 (ci_value tx)) zero_hash zero_address in
  creationResult <-- evmc_run creationMsg (ci_fullData tx);;
  if negb (status_code creationResult =? 0) then mret' creationResult
  else
    let code := output_data creationResult in
    mmodify (update_account contractAddress (λ a,
      set_code ((acc_code a).1, code) ((acc_codeHash a).1, sha3 code) a)) ;;;
    mmodify (λ h, with_created h (<[currentTxHash h := contractAddress]> (contractAddresses h))
      (recentlyCreatedContracts h ++ [currentTxHash h])) ;;;
    mmodify (λ h, with_accessed h (accessedAccountsBalances h) (accessedAccountsCode h ++ [contractAddress])
      (accessedAccountsNonces h)) ;;;
    mret' creationResult.

Definition execute (tx : ethCallInfo) : M EVMHost evmc_result :=
  if decide (ci_to tx = zero_address) then createContract tx
  else
    g <-- mlift (to_i64 (ci_gasLimit tx));;
    let msg := mkMessage EVMC_CALL 0 1 g (ci_to tx) (ci_from tx) (ci_fullData tx)
      (uint256ToEvmcUint256 (ci_value tx)) zero_hash (ci_to tx) in
    mmodify (touch_account (ci_to tx)) ;;;
    h <-- mget;;
    evmc_run msg (acc_code (account_at h (ci_to tx))).2.
End transactions.

(** ** Lemmas: accounts *)

Lemma account_at_update h a f b :
  account_at (update_account a f h) b = if decide (a = b) then f (account_at h b) else account_at h b.
Proof.
  unfold account_at at 1, update_account. cbn [accounts with_accounts].
  destruct (decide (a = b)) as [->|Hne]; [by rewrite lookup_insert_eq|by rewrite lookup_insert_ne].
Qed.

Lemma slot_set_slot key p a key' :
  slot (set_slot key p a) key' = if decide (key = key') then p else slot a key'.
Proof.
  unfold slot, set_slot. cbn [acc_storage set_slots].
  destruct (decide (key = key')) as [->|Hne]; [by rewrite lookup_insert_eq|by rewrite lookup_insert_ne].
Qed.

Definition slot_at (h : EVMHost) (a k : list Z) : list Z * list Z := slot (account_at h a) k.
Definition transients_at (h : EVMHost) (a : list Z) : gmap (list Z) (list Z) :=
  acc_transientStorage (account_at h a).

(** The fields no host call writes. *)
Definition host_fixed (h : EVMHost) :=
  (accessedAccountsBalances h, accessedAccountsCode h, accessedAccountsNonces h, contractAddresses h,
   recentlyCreatedContracts h, currentTxContext h, currentTxHash h).

(** What running the virtual machine may change: the current value of the storage slots it lists in
    [accessedStorages], the transient storage of the accounts it lists in [accessedTransients], and
    the results, events and flag; accounts may be inserted. *)
Record host_frame (h h' : EVMHost) : Prop := {
  hf_nonce a : acc_nonce (account_at h' a) = acc_nonce (account_at h a);
  hf_code a : acc_code (account_at h' a) = acc_code (account_at h a);
  hf_codeHash a : acc_codeHash (account_at h' a) = acc_codeHash (account_at h a);
  hf_balance a : acc_balance (account_at h' a) = acc_balance (account_at h a);
  hf_original a k : (slot_at h' a k).1 = (slot_at h a k).1;
  hf_slot a k : (a, k) ∉ accessedStorages h' → slot_at h' a k = slot_at h a k;
  hf_slots : accessedStorages h ⊆ accessedStorages h';
  hf_transient a : a ∉ accessedTransients h' → transients_at h' a = transients_at h a;
  hf_transients : accessedTransients h ⊆ accessedTransients h';
  hf_fixed : host_fixed h' = host_fixed h;
  hf_account a : is_Some (accounts h !! a) → is_Some (accounts h' !! a);
  hf_shouldRevert : shouldRevert h = true → shouldRevert h' = true
}.

#[export] Instance host_frame_preorder : PreOrder host_frame.
Proof.
  split; [by constructor|]. intros h1 h2 h3 H12 H23.
  assert (Hs : ∀ x, x ∉ accessedStorages h3 → x ∉ accessedStorages h2)
    by (intros x Hx Hin; apply Hx, (hf_slots _ _ H23), Hin).
  assert (Ht : ∀ x, x ∉ accessedTransients h3 → x ∉ accessedTransients h2)
    by (intros x Hx Hin; apply Hx, (hf_transients _ _ H23), Hin).
  destruct H12, H23. constructor; intros; try congruence; try (etrans; eassumption).
  - rewrite hf_slot1, hf_slot0; auto.
  - rewrite hf_transient1, hf_transient0; auto.
  - auto.
  - auto.
Qed.

(** Updating one account within the frame. *)
Lemma frame_update a f h h' :
  accounts h' = accounts h →
  (∀ acc, acc_nonce (f acc) = acc_nonce acc ∧ acc_code (f acc) = acc_code acc ∧
          acc_codeHash (f acc) = acc_codeHash acc ∧ acc_balance (f acc) = acc_balance acc) →
  (∀ k, (slot (f (account_at h a)) k).1 = (slot_at h a k).1) →
  (∀ k, (a, k) ∉ accessedStorages h' → slot (f (account_at h a)) k = slot_at h a k) →
  (a ∉ accessedTransients h' → acc_transientStorage (f (account_at h a)) = transients_at h a) →
  accessedStorages h ⊆ accessedStorages h' → accessedTransients h ⊆ accessedTransients h' →
  host_fixed h' = host_fixed h → shouldRevert h' = shouldRevert h →
  host_frame h (update_account a f h').
Proof.
  intros Hacc Hf Hs1 Hs2 Ht Hss Hts Hfix Hr.
  assert (He : ∀ b, account_at h' b = account_at h b) by (intros b; unfold account_at; by rewrite Hacc).
  constructor; unfold slot_at, transients_at; intros; rewrite ?account_at_update, ?He; try done.
  1-4: case_decide; [apply Hf|done].
  - case_decide as E; [subst; apply Hs1|done].
  - case_decide as E; [subst; by apply Hs2|done].
  - case_decide as E; [subst; by apply Ht|done].
  - cbn [accounts update_account with_accounts]. destruct (decide (a = a0)) as [->|Hne];
      [by rewrite lookup_insert_eq|by rewrite lookup_insert_ne, Hacc].
  - by rewrite <- Hr in *.
Qed.

Lemma frame_same_accounts h h' :
  accounts h' = accounts h → accessedStorages h' = accessedStorages h →
  accessedTransients h' = accessedTransients h → host_fixed h' = host_fixed h →
  (shouldRevert h = true → shouldRevert h' = true) → host_frame h h'.
Proof.
  intros Ha Hs Ht Hf Hr.
  constructor; intros; unfold slot_at, transients_at, account_at; rewrite ?Ha, ?Hs, ?Ht; auto.
Qed.

Lemma frame_touch a h : host_frame h (touch_account a h).
Proof. by apply frame_update. Qed.

Lemma frame_set_storage a k v h s h' : set_storage a k v h = (s, h') → host_frame h h'.
Proof.
  unfold set_storage. destruct (slot (account_at h a) k) as [o c] eqn:Ep.
  set (h1 := with_touched (update_account a (set_slot k (o, c)) h) _ _).
  assert (H1 : host_frame h h1).
  { assert (H : host_frame h (update_account a (set_slot k (o, c))
      (with_touched h (accessedStorages h ++ [(a, k)]) (accessedTransients h)))); [|exact H].
    apply frame_update; try done; cbn; try (intros; rewrite slot_set_slot; unfold slot_at; case_decide; subst; by rewrite ?Ep).
    set_solver. }
  case_decide; intros [= _ <-]; [done|]. etrans; [exact H1|].
  assert (Hs : slot_at h1 a k = (o, c)).
  { unfold slot_at, h1. change (account_at (with_touched ?x _ _) a) with (account_at x a).
    by rewrite account_at_update, decide_True, slot_set_slot, decide_True by done. }
  assert (Hin : (a, k) ∈ accessedStorages h1) by (unfold h1; cbn; set_solver).
  apply frame_update; try done.
  - intros k'. rewrite slot_set_slot. unfold slot_at. case_decide; [subst|done].
    unfold slot_at in Hs. by rewrite Hs.
  - intros k' Hk'. rewrite slot_set_slot. unfold slot_at. case_decide; [by subst|done].
Qed.

Lemma frame_set_transient a k v h : host_frame h (set_transient_storage a k v h).
Proof.
  apply frame_update; try done; cbn.
  - intros Ha. exfalso. apply Ha. set_solver.
  - set_solver.
Qed.

(** ** Lemmas: running the virtual machine *)

Section machine.
Context {BB : BoostBits} {KC : Keccak} {LS : LibSecp256k1} {VM : EVMC}.

Lemma frame_with_hashs {A} (m : M (list (list Z)) A) h r h' :
  with_hashs m h = (r, h') → host_frame h h'.
Proof.
  unfold with_hashs. destruct (m (m_ecrecover_results h)) as [r' results]. intros [= _ <-].
  by apply frame_same_accounts.
Qed.

Lemma frame_precompile msg m h r h' :
  call_precompile msg = Some m → m h = (r, h') → host_frame h h'.
Proof.
  unfold call_precompile.
  repeat case_decide; intros [= <-]; try apply frame_with_hashs;
    (case_match; [by intros [= _ <-]|]); try apply frame_with_hashs; try by intros [= _ <-].
  destruct (with_hashs _ h) as [[[r' seed]|e] h1] eqn:E; intros [= _ <-];
    apply frame_with_hashs in E; [|done]. etrans; [exact E|]. by apply frame_same_accounts.
Qed.

(** A relation kept by the nested executions is kept by a program. *)
Lemma frame_host_do exec op h r h' :
  (∀ msg code h r h', exec msg code h = Some (r, h') → host_frame h h') →
  host_do exec op h = Some (r, h') → host_frame h h'.
Proof.
  intros Hex. destruct op; cbn [host_do]; unfold ok; intros E; try (injection E as _ <-);
    try done; try (by apply frame_same_accounts).
  - destruct (set_storage addr key value h) as [s h1] eqn:Es. by eapply frame_set_storage.
  - unfold call in E. destruct (call_precompile msg) as [m|] eqn:Ep.
    + injection E as E. by eapply frame_precompile.
    + etrans; [apply frame_touch|]. by eapply Hex.
  - apply frame_set_transient.
Qed.

Lemma frame_run_vm exec p h r h' :
  (∀ msg code h r h', exec msg code h = Some (r, h') → host_frame h h') →
  run_vm exec p h = Some (r, h') → host_frame h h'.
Proof.
  intros Hex. revert h. induction p as [r0|op k IH]; intros h; cbn [run_vm]; [by intros [= _ <-]|].
  unfold fbind. destruct (host_do exec op h) as [[[a|e] h1]|] eqn:E; [| |done].
  - intros Hk. etrans; [by eapply frame_host_do|by eapply IH].
  - intros [= _ <-]. by eapply frame_host_do.
Qed.

Lemma frame_vm_execute fuel msg code h r h' :
  vm_execute fuel msg code h = Some (r, h') → host_frame h h'.
Proof.
  revert msg code h r h'. induction fuel as [|fuel IH]; intros msg code h r h'; cbn [vm_execute]; [done|].
  apply frame_run_vm. exact IH.
Qed.

Lemma run_vm_fuel d exec p h :
  (∀ msg code h, depth msg = d + 1 → depth msg ≤ 1024 → is_Some (exec msg code h)) →
  calls_deeper d p → is_Some (run_vm exec p h).
Proof.
  intros Hex. revert h. induction p as [r0|op k IH]; intros h; [by eexists|].
  cbn [calls_deeper run_vm]. intros [Hop Hk]. unfold fbind.
  assert (Hdo : is_Some (host_do exec op h)).
  { destruct op; cbn [host_do]; unfold ok; try by eexists. destruct Hop as [Hd1 Hd2].
    unfold call. destruct (call_precompile msg); [by eexists|by apply Hex]. }
  destruct Hdo as [[[a|e] h1] ->]; [by apply IH|by eexists].
Qed.

(** The virtual machine always returns: 1024 levels of nested calls are enough. *)
Lemma vm_execute_total fuel msg code h :
  depth msg ≤ 1024 → 1025 - depth msg ≤ Z.of_nat fuel → is_Some (vm_execute fuel msg code h).
Proof.
  revert msg code h. induction fuel as [|fuel IH]; intros msg code h Hd Hf; [lia|].
  cbn [vm_execute]. apply (run_vm_fuel (depth msg)); [|apply evmc_depth_limit].
  intros msg' code' h1 Hd1 Hd2. apply IH; lia.
Qed.

Lemma run_vm_ext d exec1 exec2 p h :
  (∀ msg code h, depth msg = d + 1 → depth msg ≤ 1024 → exec1 msg code h = exec2 msg code h) →
  calls_deeper d p → run_vm exec1 p h = run_vm exec2 p h.
Proof.
  intros Hex. revert h. induction p as [r0|op k IH]; intros h; [done|].
  cbn [calls_deeper run_vm]. intros [Hop Hk]. unfold fbind.
  assert (Hdo : host_do exec1 op h = host_do exec2 op h).
  { destruct op; cbn [host_do]; try done. destruct Hop as [Hd1 Hd2].
    unfold call. destruct (call_precompile msg); [done|by apply Hex]. }
  rewrite Hdo. destruct (host_do exec2 op h) as [[[a|e] h1]|]; [by apply IH|done..].
Qed.

Lemma vm_execute_fuel fuel1 fuel2 msg code h :
  depth msg ≤ 1024 → 1025 - depth msg ≤ Z.of_nat fuel1 → 1025 - depth msg ≤ Z.of_nat fuel2 →
  vm_execute fuel1 msg code h = vm_execute fuel2 msg code h.
Proof.
  revert fuel2 msg code h. induction fuel1 as [|fuel1 IH]; intros [|fuel2] msg code h Hd H1 H2; try lia.
  cbn [vm_execute]. apply (run_vm_ext (depth msg)); [|apply evmc_depth_limit].
  intros msg' code' h1 Hd1 Hd2. apply IH; lia.
Qed.

Lemma frame_evmc_run msg code h r h' : evmc_run msg code h = (r, h') → host_frame h h'.
Proof.
  unfold evmc_run. destruct (vm_execute 1024 msg code h) as [[r1 h1]|] eqn:E; intros [= _ <-]; [|done].
  by eapply frame_vm_execute.
Qed.
(** ** The virtual machine never throws

    A precompile catches what it throws; what is left is undefined behaviour. *)

Definition only_undefined {S A} (m : M S A) : Prop := ∀ s e s', m s = (Throw e, s') → e = Undefined.

Lemma only_undefined_ret {S A} (a : A) : only_undefined (S := S) (mret' a).
Proof. done. Qed.

Lemma only_undefined_catch m : only_undefined (precompile_catch m).
Proof. intros s e s'. unfold precompile_catch. destruct (m s) as [[r|[]] s1]; by intros [= <- _]. Qed.

Lemma only_undefined_hashs {A} (m : M (list (list Z)) A) : only_undefined m → only_undefined (with_hashs m).
Proof.
  intros Hm h e h'. unfold with_hashs. destruct (m (m_ecrecover_results h)) as [r results] eqn:E.
  intros [= -> _]. by eapply Hm.
Qed.

Lemma call_precompile_throws msg m : call_precompile msg = Some m → only_undefined m.
Proof.
  unfold call_precompile.
  repeat case_decide; intros [= <-]; try (case_match; [intros h e h' [= <- _]; done|]);
    try apply only_undefined_ret; try apply only_undefined_hashs;
    unfold ecrecover, packAndHash, keccakSolSign, keccak;
    try (case_match; [apply only_undefined_ret|apply only_undefined_catch]).
  intros h e h'. destruct (with_hashs (getRandom msg (randomGen h)) h) as [[[r seed]|e1] h1] eqn:E; [done|].
  intros [= <- _]. revert E. apply only_undefined_hashs. unfold getRandom.
  case_match; [apply only_undefined_ret|]. destruct (getNext _). done.
Qed.

(** The same for the steps with fuel. *)
Definition only_undefined_fuel {A} (m : F A) : Prop := ∀ h e h', m h = Some (Throw e, h') → e = Undefined.

Lemma host_do_throws exec op :
  (∀ msg code, only_undefined_fuel (exec msg code)) → only_undefined_fuel (host_do exec op).
Proof.
  intros Hex h e h'. destruct op; cbn [host_do]; unfold ok; try done.
  unfold call. destruct (call_precompile msg) as [m|] eqn:E; [|apply Hex].
  intros [= H]. by eapply call_precompile_throws.
Qed.

Lemma run_vm_throws exec p :
  (∀ msg code, only_undefined_fuel (exec msg code)) → only_undefined_fuel (run_vm exec p).
Proof.
  intros Hex. induction p as [r0|op k IH]; intros h e h'; cbn [run_vm]; [done|].
  unfold fbind. destruct (host_do exec op h) as [[[a|e1] h1]|] eqn:E; [apply IH| |done].
  intros [= <- _]. by eapply host_do_throws.
Qed.

Lemma vm_execute_throws fuel msg code : only_undefined_fuel (vm_execute fuel msg code).
Proof.
  revert msg code. induction fuel as [|fuel IH]; intros msg code; [done|]. by apply run_vm_throws.
Qed.

Lemma evmc_run_throws msg code : only_undefined (evmc_run msg code).
Proof.
  intros h e h'. unfold evmc_run. destruct (vm_execute 1024 msg code h) as [[r h1]|] eqn:E; [|by intros [= <- _]].
  intros [= -> <-]. by eapply vm_execute_throws.
Qed.

(** A transaction whose gas limit fits the EVM's type does not throw. *)
Lemma execute_throws tx : ci_gasLimit tx < 2 ^ 63 → only_undefined (execute tx).
Proof.
  intros Hg h e h'. unfold execute. case_decide.
  - unfold createContract, mbind', mmodify, mget, mlift. cbn zeta.
    unfold to_u64. rewrite (proj2 (Z.leb_le _ _)) by (unfold umax; lia).
    destruct (evmc_run _ _ _) as [[res|e1] h1] eqn:E.
    + case_match; done.
    + intros [= <- _]. by eapply evmc_run_throws.
  - unfold mbind', mmodify, mget, mlift. cbn zeta. unfold to_i64. rewrite (proj2 (Z.ltb_lt _ _)) by done.
    apply evmc_run_throws.
Qed.

(** Nonces and balances are not the virtual machine's, and it removes no account. *)
Lemma execute_money tx h r h' : execute tx h = (r, h') →
  ∀ a, acc_nonce (account_at h' a) = acc_nonce (account_at h a) ∧ acc_balance (account_at h' a) = acc_balance (account_at h a) ∧
    (is_Some (accounts h !! a) → is_Some (accounts h' !! a)).
Proof.
  assert (Hfr : ∀ h1, host_frame h h1 → ∀ a, acc_nonce (account_at h1 a) = acc_nonce (account_at h a) ∧
    acc_balance (account_at h1 a) = acc_balance (account_at h a) ∧ (is_Some (accounts h !! a) → is_Some (accounts h1 !! a)))
    by (intros h1 []; auto).
  unfold execute. case_decide.
  - unfold createContract, mbind', mmodify, mget, mlift. cbn zeta. set (h0 := touch_account (ci_from tx) h).
    destruct (to_u64 (ci_gasLimit tx)) as [g|e]; [|intros [= _ <-]; apply Hfr, frame_touch].
    set (addr := deriveContractAddress _ _).
    destruct (evmc_run _ _ h0) as [[res|e] h1] eqn:E; apply frame_evmc_run in E;
      assert (Hf : host_frame h h1) by (etrans; [apply frame_touch|exact E]); [|intros [= _ <-]; by apply Hfr].
    case_match; [intros [= _ <-]; by apply Hfr|]. intros [= _ <-] a.
    change (account_at (with_accessed ?x _ _ _) a) with (account_at x a).
    change (account_at (with_created ?x _ _) a) with (account_at x a).
    destruct (Hfr _ Hf a) as (F1 & F2 & F3). split; [|split].
    + rewrite account_at_update. by case_decide.
    + rewrite account_at_update. by case_decide.
    + intros Ha%F3. cbn [accounts with_accessed with_created update_account with_accounts].
      destruct (decide (addr = a)) as [->|Hne]; [by rewrite lookup_insert_eq|by rewrite lookup_insert_ne].
  - unfold mbind', mmodify, mget, mlift. cbn zeta.
    destruct (to_i64 (ci_gasLimit tx)) as [g|e]; [|intros [= _ <-]; by apply Hfr].
    intros E%frame_evmc_run. apply Hfr. etrans; [apply frame_touch|exact E].
Qed.
End machine.

(** ** Lemmas: commit and revert *)

(** The loops over accounts: [f] is applied once to each listed account. *)
Lemma account_at_on_accounts f l h a :
  (∀ x, f (f x) = f x) →
  account_at (on_accounts f l h) a = if decide (a ∈ l) then f (account_at h a) else account_at h a.
Proof.
  intros Hf. revert h. induction l as [|b l IH]; intros h; [by rewrite decide_False by set_solver|].
  unfold on_accounts in *. cbn [foldl]. rewrite IH, account_at_update.
  destruct (decide (a = b)) as [->|Hne].
  - rewrite (decide_True (P := b = b)), (decide_True (P := b ∈ b :: l)) by (done || left).
    case_decide; [apply Hf|done].
  - rewrite (decide_False (P := b = a)) by done.
    destruct (decide (a ∈ l)); [rewrite decide_True by by right|rewrite decide_False by (by intros [?|?]%elem_of_cons)]; done.
Qed.

(** The loops over slots; [g] is what they do to a slot. *)
Definition on_slots (g : list Z * list Z → list Z * list Z) (l : list (list Z * list Z)) (h : EVMHost) : EVMHost :=
  foldl (λ h '(addr, key), update_account addr (λ a, set_slot key (g (slot a key)) a) h) h l.

Lemma slot_at_on_slots g l h a k :
  (∀ p, g (g p) = g p) →
  slot_at (on_slots g l h) a k = if decide ((a, k) ∈ l) then g (slot_at h a k) else slot_at h a k.
Proof.
  intros Hg. revert h. induction l as [|[b key] l IH]; intros h; [by rewrite decide_False by set_solver|].
  unfold on_slots in *. cbn [foldl]. rewrite IH.
  assert (Hs : slot_at (update_account b (λ a, set_slot key (g (slot a key)) a) h) a k =
    if decide ((a, k) = (b, key)) then g (slot_at h a k) else slot_at h a k).
  { unfold slot_at. rewrite account_at_update. destruct (decide (b = a)) as [->|Hne].
    - rewrite slot_set_slot. destruct (decide (key = k)) as [->|Hk]; [by rewrite decide_True|].
      by rewrite decide_False by congruence.
    - by rewrite decide_False by congruence. }
  rewrite Hs. destruct (decide ((a, k) = (b, key))) as [E|E].
  - rewrite (decide_True (P := _ ∈ _ :: _)) by (rewrite E; left). by case_decide.
  - destruct (decide ((a, k) ∈ l)); [rewrite decide_True by by right|rewrite decide_False]; try done.
    by rewrite elem_of_cons; intros [?|?].
Qed.

Lemma account_proj_on_slots {X} (proj : EVMAccount → X) g l h a :
  (∀ key p acc, proj (set_slot key p acc) = proj acc) →
  proj (account_at (on_slots g l h) a) = proj (account_at h a).
Proof.
  intros Hp. revert h. induction l as [|[b key] l IH]; intros h; [done|].
  unfold on_slots in *. cbn [foldl]. rewrite IH, account_at_update. case_decide; [apply Hp|done].
Qed.

(** The loops only replace accounts: [rest] is everything else. *)
Definition rest (h : EVMHost) : EVMHost := with_accounts h ∅.

Lemma host_ext h h' : accounts h = accounts h' → rest h = rest h' → h = h'.
Proof. destruct h, h'. unfold rest, with_accounts. cbn. intros -> [=]. by subst. Qed.

Lemma rest_on_slots g l h : rest (on_slots g l h) = rest h.
Proof.
  unfold on_slots. revert h. induction l as [|[b key] l IH]; intros h; [done|]. cbn [foldl]. by rewrite IH.
Qed.

Lemma rest_on_accounts f l h : rest (on_accounts f l h) = rest h.
Proof.
  unfold on_accounts. revert h. induction l as [|b l IH]; intros h; [done|]. cbn [foldl]. by rewrite IH.
Qed.

(** Reads that see the same accounts. *)
Definition same_reads (h h' : EVMHost) : Prop :=
  (∀ a, acc_nonce (account_at h' a) = acc_nonce (account_at h a)) ∧
  (∀ a, (acc_code (account_at h' a)).2 = (acc_code (account_at h a)).2) ∧
  (∀ a, (acc_codeHash (account_at h' a)).2 = (acc_codeHash (account_at h a)).2) ∧
  (∀ a, acc_balance (account_at h' a) = acc_balance (account_at h a)) ∧
  (∀ a k, (slot_at h' a k).2 = (slot_at h a k).2).

(** Between transactions: nothing is listed, the original and current values agree and there is no
    transient storage. *)
Record settled (h : EVMHost) : Prop := {
  st_slots : accessedStorages h = [];
  st_transients : accessedTransients h = [];
  st_codes : accessedAccountsCode h = [];
  st_created : recentlyCreatedContracts h = [];
  st_slot a k : (slot_at h a k).1 = (slot_at h a k).2;
  st_code a : (acc_code (account_at h a)).1 = (acc_code (account_at h a)).2;
  st_codeHash a : (acc_codeHash (account_at h a)).1 = (acc_codeHash (account_at h a)).2;
  st_transient a : transients_at h a = ∅
}.

(** What a transaction leaves for [commit] or [revert] to settle. *)
Record pending (h h' : EVMHost) : Prop := {
  pd_nonce a : acc_nonce (account_at h' a) = acc_nonce (account_at h a);
  pd_balance a : acc_balance (account_at h' a) = acc_balance (account_at h a);
  pd_original a k : (slot_at h' a k).1 = (slot_at h a k).1;
  pd_slot a k : (a, k) ∉ accessedStorages h' → slot_at h' a k = slot_at h a k;
  pd_transient a : a ∉ accessedTransients h' → transients_at h' a = ∅;
  pd_code_original a : (acc_code (account_at h' a)).1 = (acc_code (account_at h a)).1;
  pd_codeHash_original a : (acc_codeHash (account_at h' a)).1 = (acc_codeHash (account_at h a)).1;
  pd_code a : a ∉ accessedAccountsCode h' → acc_code (account_at h' a) = acc_code (account_at h a);
  pd_codeHash a : a ∉ accessedAccountsCode h' → acc_codeHash (account_at h' a) = acc_codeHash (account_at h a);
  pd_created : recentlyCreatedContracts h' = [] ∧ contractAddresses h' = contractAddresses h ∨
    ∃ addr, recentlyCreatedContracts h' = [currentTxHash h] ∧
            contractAddresses h' = <[currentTxHash h := addr]> (contractAddresses h);
  pd_accessed : accessedAccountsBalances h' = accessedAccountsBalances h ∧
                accessedAccountsNonces h' = accessedAccountsNonces h
}.

Lemma frame_pending h h' : settled h → host_frame h h' → pending h h'.
Proof.
  intros [] []. constructor; intros; try done; try congruence.
  - by apply hf_slot0.
  - rewrite hf_transient0 by done. apply st_transient0.
  - left. unfold host_fixed in *. split; congruence.
  - unfold host_fixed in *. split; congruence.
Qed.

(** The base steps of commit and revert, in terms of the loops. *)
Lemma transients_at_clear l h a :
  transients_at (clear_transients l h) a = if decide (a ∈ l) then ∅ else transients_at h a.
Proof.
  unfold transients_at, clear_transients. fold (on_accounts (set_transients ∅) l h).
  rewrite account_at_on_accounts by done. by case_decide.
Qed.

Lemma account_proj_clear {X} (proj : EVMAccount → X) l h a :
  (∀ s acc, proj (set_transients s acc) = proj acc) →
  proj (account_at (clear_transients l h) a) = proj (account_at h a).
Proof.
  intros Hp. unfold clear_transients. fold (on_accounts (set_transients ∅) l h).
  rewrite account_at_on_accounts by done. case_decide; [apply Hp|done].
Qed.

Section settle.
Context {BB : BoostBits} {KC : Keccak} {LS : LibSecp256k1} {VM : EVMC}.

(** [createContract] registers the code of a new contract. *)
Lemma pending_register h h1 addr code ch :
  settled h → pending h h1 → host_fixed h1 = host_fixed h →
  let h2 := update_account addr (λ a, set_code ((acc_code a).1, code) ((acc_codeHash a).1, ch) a) h1 in
  let h3 := with_created h2 (<[currentTxHash h2 := addr]> (contractAddresses h2))
    (recentlyCreatedContracts h2 ++ [currentTxHash h2]) in
  pending h (with_accessed h3 (accessedAccountsBalances h3) (accessedAccountsCode h3 ++ [addr])
    (accessedAccountsNonces h3)).
Proof.
  intros Hs Hp Hfix h2 h3. set (h4 := with_accessed h3 _ _ _).
  assert (Hat : ∀ a, account_at h4 a = if decide (addr = a)
    then set_code ((acc_code (account_at h1 a)).1, code) ((acc_codeHash (account_at h1 a)).1, ch) (account_at h1 a)
    else account_at h1 a) by (intros a; change (account_at h4 a) with (account_at h2 a); unfold h2; by rewrite account_at_update).
  assert (Hacc : ∀ a, a ∉ accessedAccountsCode h4 → addr ≠ a ∧ a ∉ accessedAccountsCode h1).
  { intros a [H1 H2]%not_elem_of_app. split; [intros ->; apply H2; left|exact H1]. }
  constructor; unfold slot_at, transients_at; intros; rewrite ?Hat.
  - case_decide; apply (pd_nonce _ _ Hp).
  - case_decide; apply (pd_balance _ _ Hp).
  - case_decide; apply (pd_original _ _ Hp).
  - case_decide; by apply (pd_slot _ _ Hp).
  - case_decide; by apply (pd_transient _ _ Hp).
  - case_decide; apply (pd_code_original _ _ Hp).
  - case_decide; apply (pd_codeHash_original _ _ Hp).
  - rewrite decide_False by (by apply Hacc). by apply (pd_code _ _ Hp), Hacc.
  - rewrite decide_False by (by apply Hacc). by apply (pd_codeHash _ _ Hp), Hacc.
  - right. exists addr. unfold host_fixed in Hfix. destruct Hs.
    assert (Hc : currentTxHash h1 = currentTxHash h) by congruence.
    assert (Hr : recentlyCreatedContracts h1 = []) by congruence.
    assert (Ha : contractAddresses h1 = contractAddresses h) by congruence.
    subst h2 h3 h4. cbn. by rewrite Hr, Hc, Ha.
  - apply (pd_accessed _ _ Hp).
Qed.

Lemma execute_pending tx h r h' : settled h → execute tx h = (r, h') → pending h h'.
Proof.
  intros Hs. unfold execute. case_decide.
  - unfold createContract, mbind', mmodify, mget, mlift. cbn zeta.
    set (h0 := touch_account (ci_from tx) h).
    destruct (to_u64 (ci_gasLimit tx)) as [g|e]; [|intros [= _ <-]; apply frame_pending; [done|apply frame_touch]].
    set (addr := deriveContractAddress _ _).
    destruct (evmc_run _ _ h0) as [[res|e] h1] eqn:E; apply frame_evmc_run in E;
      assert (Hf : host_frame h h1) by (etrans; [apply frame_touch|exact E]);
      assert (Hp := frame_pending _ _ Hs Hf);
      [|by intros [= _ <-]].
    case_match; [by intros [= _ <-]|]. intros [= _ <-].
    by apply pending_register; [|exact Hp|apply hf_fixed].
  - unfold mbind', mmodify, mget, mlift. cbn zeta.
    destruct (to_i64 (ci_gasLimit tx)) as [g|e]; [|by intros [= _ <-]; apply frame_pending].
    intros E%frame_evmc_run. apply frame_pending; [done|].
    etrans; [apply frame_touch|exact E].
Qed.
End settle.

(** ** Settling a transaction *)

Definition to_current {A} (p : A * A) : A * A := (p.2, p.2).
Definition to_original {A} (p : A * A) : A * A := (p.1, p.1).

Lemma commit_slots_on l h : commit_slots l h = on_slots to_current l h.
Proof. done. Qed.

Lemma revert_slots_on l h : revert_slots l h = on_slots to_original l h.
Proof. done. Qed.

Section settled_lemmas.
Variable h : EVMHost.

Lemma slot_at_clear l h0 a k : slot_at (clear_transients l h0) a k = slot_at h0 a k.
Proof. apply (account_proj_clear (λ acc, slot acc k)). done. Qed.

Lemma transients_at_on_slots g l h0 a : transients_at (on_slots g l h0) a = transients_at h0 a.
Proof. by apply (account_proj_on_slots acc_transientStorage). Qed.

(** [g] applied to the listed slots, the transient storage of the listed accounts cleared. *)
Definition settle_storage (g : list Z * list Z → list Z * list Z) : EVMHost :=
  clear_transients (accessedTransients h) (on_slots g (accessedStorages h) h).

Lemma slot_at_settle g a k : (∀ p, g (g p) = g p) →
  slot_at (settle_storage g) a k = if decide ((a, k) ∈ accessedStorages h) then g (slot_at h a k) else slot_at h a k.
Proof. intros Hg. unfold settle_storage. by rewrite slot_at_clear, slot_at_on_slots. Qed.

Lemma transients_at_settle g a :
  transients_at (settle_storage g) a = if decide (a ∈ accessedTransients h) then ∅ else transients_at h a.
Proof. unfold settle_storage. by rewrite transients_at_clear, transients_at_on_slots. Qed.

Lemma account_proj_settle {X} (proj : EVMAccount → X) g a :
  (∀ key p acc, proj (set_slot key p acc) = proj acc) →
  (∀ s acc, proj (set_transients s acc) = proj acc) →
  proj (account_at (settle_storage g) a) = proj (account_at h a).
Proof. intros H1 H2. unfold settle_storage. by rewrite account_proj_clear, account_proj_on_slots. Qed.

(** Then [f] applied to the code of the listed accounts. *)
Definition settle_code (f : list Z * list Z → list Z * list Z) (acc : EVMAccount) : EVMAccount :=
  set_code (f (acc_code acc)) (f (acc_codeHash acc)) acc.

Definition settle (g f : list Z * list Z → list Z * list Z) : EVMHost :=
  on_accounts (settle_code f) (accessedAccountsCode h) (settle_storage g).

Lemma account_at_settle g f a : (∀ p, f (f p) = f p) →
  account_at (settle g f) a = if decide (a ∈ accessedAccountsCode h)
    then settle_code f (account_at (settle_storage g) a) else account_at (settle_storage g) a.
Proof.
  intros Hf. unfold settle. apply account_at_on_accounts.
  intros x. unfold settle_code. destruct x; unfold set_code; cbn. by rewrite !Hf.
Qed.
End settled_lemmas.

Lemma on_accounts_accounts f l h1 h2 :
  accounts h1 = accounts h2 → accounts (on_accounts f l h1) = accounts (on_accounts f l h2).
Proof.
  unfold on_accounts. revert h1 h2. induction l as [|b l IH]; intros h1 h2 E; [done|].
  cbn [foldl]. apply IH. unfold update_account, account_at. cbn. by rewrite E.
Qed.

Lemma rest_settle_storage h g : rest (settle_storage h g) = rest h.
Proof. etrans; [apply (rest_on_accounts (set_transients ∅))|apply rest_on_slots]. Qed.

(** [commit(); commitCode();] and [revert(); revertCode();]. *)
Definition settled_host (h : EVMHost) (m : gmap (list Z) EVMAccount) (created : gmap (list Z) (list Z)) : EVMHost :=
  with_context (with_touched (with_results (with_accessed (with_created (with_accounts h m) created [])
    (accessedAccountsBalances h) [] (accessedAccountsNonces h)) [] []) [] []) (currentTxContext h) zero_hash.

Lemma rest_proj {X} (P : EVMHost → X) h h' :
  (∀ h m, P (with_accounts h m) = P h) → rest h = rest h' → P h = P h'.
Proof. intros HP Hr. rewrite <- (HP h ∅), <- (HP h' ∅). change (P (rest h) = P (rest h')). by rewrite Hr. Qed.

Lemma commit_settles h :
  commitCode (commit h) = settled_host h (accounts (settle h to_current to_current)) (contractAddresses h).
Proof.
  unfold commitCode, commit. cbn zeta. rewrite commit_slots_on.
  assert (Ht : accessedTransients (on_slots to_current (accessedStorages h) h) = accessedTransients h)
    by (apply rest_proj; [done|apply rest_on_slots]).
  rewrite Ht. fold (settle_storage h to_current). set (x := settle_storage h to_current).
  assert (Hx : rest x = rest h) by apply rest_settle_storage.
  set (y := with_context _ _ _).
  assert (Hy : accessedAccountsCode y = accessedAccountsCode h)
    by (change (accessedAccountsCode x = accessedAccountsCode h); by apply rest_proj).
  rewrite Hy. apply host_ext.
  - change (accounts (on_accounts (settle_code to_current) (accessedAccountsCode h) y) =
      accounts (on_accounts (settle_code to_current) (accessedAccountsCode h) x)).
    by apply on_accounts_accounts.
  - set (z := on_accounts _ _ y). assert (Hz : rest z = rest y) by apply rest_on_accounts.
    clearbody z x. destruct z, x, h. unfold rest, with_accounts in *. cbn in *.
    injection Hz as <-. injection Hx as <-. by subst.
Qed.

Lemma revert_settles h :
  revertCode (revert h) = settled_host h (accounts (settle h to_original to_original))
    (foldl (λ m hash, delete hash m) (contractAddresses h) (recentlyCreatedContracts h)).
Proof.
  unfold revertCode, revert. cbn zeta. rewrite revert_slots_on.
  assert (Ht : accessedTransients (on_slots to_original (accessedStorages h) h) = accessedTransients h)
    by (apply rest_proj; [done|apply rest_on_slots]).
  rewrite Ht. fold (settle_storage h to_original). set (x := settle_storage h to_original).
  assert (Hx : rest x = rest h) by apply rest_settle_storage.
  set (y := with_context _ _ _).
  assert (Hy : accessedAccountsCode y = accessedAccountsCode h)
    by (change (accessedAccountsCode x = accessedAccountsCode h); by apply rest_proj).
  rewrite Hy. apply host_ext.
  - change (accounts (on_accounts (settle_code to_original) (accessedAccountsCode h) y) =
      accounts (on_accounts (settle_code to_original) (accessedAccountsCode h) x)).
    by apply on_accounts_accounts.
  - set (z := on_accounts _ _ y). assert (Hz : rest z = rest y) by apply rest_on_accounts.
    clearbody z x. destruct z, x, h. unfold rest, with_accounts in *. cbn in *.
    injection Hz as <-. injection Hx as <-. by subst.
Qed.

(** The reads of a settled host: [m] holds the accounts of [settle h g f]. *)
Lemma settled_host_settled h g created :
  (∀ p, g (g p) = g p) → (∀ p, (g p).1 = (g p).2) →
  (∀ a k, (a, k) ∉ accessedStorages h → (slot_at h a k).1 = (slot_at h a k).2) →
  (∀ a, a ∉ accessedTransients h → transients_at h a = ∅) →
  (∀ a, a ∉ accessedAccountsCode h →
     (acc_code (account_at h a)).1 = (acc_code (account_at h a)).2 ∧
     (acc_codeHash (account_at h a)).1 = (acc_codeHash (account_at h a)).2) →
  settled (settled_host h (accounts (settle h g g)) created).
Proof.
  intros Hg Hg' Hs Ht Hc. set (h' := settled_host _ _ _).
  assert (Hat : ∀ a, account_at h' a = account_at (settle h g g) a) by done.
  assert (Hslot : ∀ a k, slot_at h' a k = slot_at (settle_storage h g) a k).
  { intros a k. unfold slot_at. rewrite Hat, account_at_settle by done. by case_decide. }
  constructor; try done.
  - intros a k. rewrite Hslot, slot_at_settle by done. case_decide; [apply Hg'|by apply Hs].
  - intros a. rewrite Hat, account_at_settle by done. case_decide; [apply Hg'|].
    rewrite (account_proj_settle h acc_code) by done. by apply Hc.
  - intros a. rewrite Hat, account_at_settle by done. case_decide; [apply Hg'|].
    rewrite (account_proj_settle h acc_codeHash) by done. by apply Hc.
  - intros a. unfold transients_at. rewrite Hat, account_at_settle by done.
    assert (Htr : acc_transientStorage (account_at (settle_storage h g) a) = ∅).
    { change (transients_at (settle_storage h g) a = ∅). rewrite transients_at_settle.
      case_decide; [done|by apply Ht]. }
    by case_decide.
Qed.

Lemma settled_host_proj {X} (proj : EVMAccount → X) h g created a :
  (∀ p, g (g p) = g p) →
  (∀ key p acc, proj (set_slot key p acc) = proj acc) →
  (∀ s acc, proj (set_transients s acc) = proj acc) →
  (∀ c ch acc, proj (set_code c ch acc) = proj acc) →
  proj (account_at (settled_host h (accounts (settle h g g)) created) a) = proj (account_at h a).
Proof.
  intros Hg H1 H2 H3.
  change (account_at (settled_host h _ created) a) with (account_at (settle h g g) a).
  rewrite account_at_settle by done. rewrite <- (account_proj_settle h proj g a H1 H2).
  case_decide; [apply H3|done].
Qed.

Lemma settled_host_code h g created a :
  (∀ p, g (g p) = g p) →
  let acc := account_at (settled_host h (accounts (settle h g g)) created) a in
  acc_code acc = (if decide (a ∈ accessedAccountsCode h) then g (acc_code (account_at h a)) else acc_code (account_at h a)) ∧
  acc_codeHash acc = (if decide (a ∈ accessedAccountsCode h) then g (acc_codeHash (account_at h a)) else acc_codeHash (account_at h a)).
Proof.
  intros Hg. cbn zeta.
  change (account_at (settled_host h _ created) a) with (account_at (settle h g g) a).
  rewrite account_at_settle by done.
  rewrite <- (account_proj_settle h acc_code g a) by done.
  rewrite <- (account_proj_settle h acc_codeHash g a) by done. by case_decide.
Qed.

Lemma settled_host_slot h g created a k :
  (∀ p, g (g p) = g p) →
  slot_at (settled_host h (accounts (settle h g g)) created) a k =
    if decide ((a, k) ∈ accessedStorages h) then g (slot_at h a k) else slot_at h a k.
Proof.
  intros Hg. unfold slot_at at 1.
  change (account_at (settled_host h _ created) a) with (account_at (settle h g g) a).
  rewrite account_at_settle by done. rewrite <- (slot_at_settle h g a k) by done. by case_decide.
Qed.

Lemma pending_settled h h' :
  settled h → pending h h' →
  (∀ a k, (a, k) ∉ accessedStorages h' → (slot_at h' a k).1 = (slot_at h' a k).2) ∧
  (∀ a, a ∉ accessedAccountsCode h' →
     (acc_code (account_at h' a)).1 = (acc_code (account_at h' a)).2 ∧
     (acc_codeHash (account_at h' a)).1 = (acc_codeHash (account_at h' a)).2).
Proof.
  intros Hs Hp. split.
  - intros a k Hk. rewrite (pd_slot _ _ Hp) by done. apply (st_slot _ Hs).
  - intros a Ha. rewrite (pd_code _ _ Hp), (pd_codeHash _ _ Hp) by done.
    split; [apply (st_code _ Hs)|apply (st_codeHash _ Hs)].
Qed.

(** What [revert] and [revertCode] do to a pending transaction, ... *)
Lemma revert_restores h h' :
  settled h → contractAddresses h !! currentTxHash h = None → pending h h' →
  let h'' := revertCode (revert h') in
  settled h'' ∧ same_reads h h'' ∧ contractAddresses h'' = contractAddresses h.
Proof.
  intros Hs Hnew Hp. cbn zeta. rewrite revert_settles.
  destruct (pending_settled _ _ Hs Hp) as [H1 H2]. split; [|split].
  - apply settled_host_settled; try done. apply (pd_transient _ _ Hp).
  - split; [|split; [|split; [|split]]]; intros a.
    + rewrite (settled_host_proj acc_nonce) by done. apply (pd_nonce _ _ Hp).
    + destruct (settled_host_code h' to_original (foldl (λ m hash, delete hash m) (contractAddresses h') (recentlyCreatedContracts h')) a) as [-> _]; [done|].
      rewrite <- (st_code _ Hs a), <- (pd_code_original _ _ Hp a). case_decide; [done|]. symmetry. by apply H2.
    + destruct (settled_host_code h' to_original (foldl (λ m hash, delete hash m) (contractAddresses h') (recentlyCreatedContracts h')) a) as [_ ->]; [done|].
      rewrite <- (st_codeHash _ Hs a), <- (pd_codeHash_original _ _ Hp a). case_decide; [done|]. symmetry. by apply H2.
    + rewrite (settled_host_proj acc_balance) by done. apply (pd_balance _ _ Hp).
    + intros k. rewrite settled_host_slot, <- (st_slot _ Hs a k), <- (pd_original _ _ Hp a k) by done.
      case_decide; [done|]. symmetry. by apply H1.
  - cbn. destruct (pd_created _ _ Hp) as [[-> ->]|(addr & -> & ->)]; [done|]. cbn.
    by rewrite delete_insert_id.
Qed.

(** ... and [commit] and [commitCode]. *)
Lemma commit_keeps h h' :
  settled h → pending h h' →
  let h'' := commitCode (commit h') in
  settled h'' ∧ same_reads h' h'' ∧ contractAddresses h'' = contractAddresses h' ∧
  (∀ a, acc_balance (account_at h'' a) = acc_balance (account_at h a)).
Proof.
  intros Hs Hp. cbn zeta. rewrite commit_settles.
  destruct (pending_settled _ _ Hs Hp) as [H1 H2]. split; [|split; [|split]].
  - apply settled_host_settled; try done. apply (pd_transient _ _ Hp).
  - split; [|split; [|split; [|split]]]; intros a.
    + by rewrite (settled_host_proj acc_nonce).
    + destruct (settled_host_code h' to_current (contractAddresses h') a) as [-> _]; [done|]. by case_decide.
    + destruct (settled_host_code h' to_current (contractAddresses h') a) as [_ ->]; [done|]. by case_decide.
    + by rewrite (settled_host_proj acc_balance).
    + intros k. rewrite settled_host_slot by done. by case_decide.
  - done.
  - intros a. rewrite (settled_host_proj acc_balance) by done. apply (pd_balance _ _ Hp).
Qed.

Section atomic.
Context {BB : BoostBits} {KC : Keccak} {LS : LibSecp256k1} {VM : EVMC}.

(** C27: a transaction on the EVM can be undone. Whatever the virtual machine did, and however it
    ended, [revert] and [revertCode] bring every storage slot, code, code hash, balance and nonce back
    to what it was, clear the transient storage, forget a contract the transaction created and
    leave nothing listed. *)
Theorem evm_revert_restores tx h r h' :
  settled h → contractAddresses h !! currentTxHash h = None → execute tx h = (r, h') →
  let h'' := revertCode (revert h') in
  settled h'' ∧ same_reads h h'' ∧ contractAddresses h'' = contractAddresses h.
Proof.
  intros Hs Hnew Hex. apply revert_restores; [done..|]. by eapply execute_pending.
Qed.

(** a transaction on the EVM can be made permanent. [commit] and [commitCode] keep every storage
    slot, code and code hash as the virtual machine left it, change no balance and no nonce, keep the
    contract addresses, and leave nothing listed, so that a later revert cannot undo them. *)
Theorem evm_commit_keeps tx h r h' :
  settled h → execute tx h = (r, h') →
  let h'' := commitCode (commit h') in
  settled h'' ∧ same_reads h' h'' ∧ contractAddresses h'' = contractAddresses h' ∧
  (∀ a, acc_balance (account_at h'' a) = acc_balance (account_at h a)).
Proof.
  intros Hs Hex. apply commit_keeps; [done|]. by eapply execute_pending.
Qed.

(** The virtual machine always returns to the host: with the EVM's call depth limit, 1024 levels
    of nested calls are enough for any message, and more fuel gives the same result. *)
Theorem evm_terminates msg code h :
  depth msg ≤ 1024 → ∃ r h', ∀ fuel, 1025 - depth msg ≤ Z.of_nat fuel →
    vm_execute fuel msg code h = Some (r, h').
Proof.
  intros Hd. destruct (vm_execute_total (Z.to_nat (1025 - depth msg)) msg code h) as [[r h'] E]; [done|lia|].
  exists r, h'. intros fuel Hf. rewrite <- E. apply vm_execute_fuel; lia.
Qed.

(** the address of a new contract does not depend on the nonce beyond its number of bytes: all the
    nonces from 128 that need the same number of bytes give the sender the same contract address. *)
Theorem derived_addresses_collide (n m : Z) address :
  128 ≤ n → 128 ≤ m → bytesRequired n = bytesRequired m →
  deriveContractAddress n address = deriveContractAddress m address.
Proof.
  intros Hn Hm Hb. unfold deriveContractAddress. do 2 (zcase; [lia|]). by rewrite Hb.
Qed.
End atomic.

(** ** A concrete machine

    Code [1 :: _] writes a slot of the recipient and reverts with a third of its gas left; code [2 :: _] calls an address and
    succeeds; code [3 :: c] writes a slot and returns [c]. *)

Definition toy_addr (n : Z) : list Z := replicate 19 0 ++ [n].
Definition toy_key : list Z := replicate 31 0 ++ [1].
Definition toy_word (n : Z) : list Z := replicate 31 0 ++ [n].

Definition toy_execute (msg : evmc_message) (code : list Z) : vm_prog :=
  match code with
  | 1 :: _ => VmOp (HSetStorage (recipient msg) toy_key (toy_word 7)) (λ _, VmDone (mkResult EVMC_REVERT (gas msg / 3) []))
  | 2 :: _ =>
      if depth msg <? 1024 then
        VmOp (HCall (mkMessage EVMC_CALL 0 (depth msg + 1) (gas msg) (toy_addr 1) (recipient msg) []
          zero_hash zero_hash (toy_addr 1)))
          (λ _, VmDone (mkResult EVMC_SUCCESS (gas msg) []))
      else VmDone (mkResult 1 0 [])
  | 3 :: c => VmOp (HSetStorage (recipient msg) toy_key (toy_word 3)) (λ _, VmDone (mkResult EVMC_SUCCESS (gas msg) c))
  | _ => VmDone (mkResult EVMC_SUCCESS (gas msg) [])
  end.

Lemma toy_depth_limit msg code : calls_deeper (depth msg) (toy_execute msg code).
Proof.
  destruct code as [|[|p|p] code]; cbn; try done.
  repeat (destruct p as [p|p|]; cbn; try done); destruct (Z.ltb_spec (depth msg) 1024); cbn;
    (repeat split; (done || lia)).
Qed.

Definition toy_evm : EVMC := {| evmc_execute := toy_execute; evmc_depth_limit := toy_depth_limit |}.

Definition with_code (c : list Z) : EVMAccount := set_code (c, c) (zero_hash, zero_hash) EVMAccount_new.

Definition toy_host : EVMHost :=
  with_context (with_accounts EVMHost_new {[ toy_addr 1 := with_code [1]; toy_addr 2 := with_code [2] ]})
    tx_context_zero (toy_word 9).

Definition toy_call (to : list Z) (data : list Z) : ethCallInfo :=
  mkCallInfo (toy_addr 5) to 100000 1 0 (zero_bytes 4) [] data.

(** A nested call that reverts keeps its writes: [EVMHost::call] does not roll them back. *)
Lemma nested_revert_keeps_writes :
  let '(r, h) := @execute boost_ref toy_hash toy_secp toy_evm (toy_call (toy_addr 2) []) toy_host in
  r = Ok (mkResult EVMC_SUCCESS 100000 []) ∧ slot_at h (toy_addr 1) toy_key = (zero_hash, toy_word 7).
Proof. by vm_compute. Qed.

(** The settled hosts, by inspection of the accounts. *)
Definition settled_account (acc : EVMAccount) : Prop :=
  map_Forall (λ _ p, p.1 = p.2) (acc_storage acc) ∧ (acc_code acc).1 = (acc_code acc).2 ∧
  (acc_codeHash acc).1 = (acc_codeHash acc).2 ∧ acc_transientStorage acc = ∅.

#[export] Instance settled_account_dec acc : Decision (settled_account acc).
Proof. unfold settled_account. apply _. Defined.

Definition nothing_listed (h : EVMHost) : Prop :=
  accessedStorages h = [] ∧ accessedTransients h = [] ∧ accessedAccountsCode h = [] ∧
  recentlyCreatedContracts h = [].

Lemma settled_intro h :
  map_Forall (λ _ acc, settled_account acc) (accounts h) → nothing_listed h → settled h.
Proof.
  intros Hm (H1 & H2 & H3 & H4).
  assert (Ha : ∀ a, settled_account (account_at h a)).
  { intros a. unfold account_at. destruct (accounts h !! a) as [acc|] eqn:E; [by apply (Hm a)|].
    by split; [apply map_Forall_empty|]. }
  constructor; try done; intros a; destruct (Ha a) as (Hs & Hc & Hch & Ht); try done.
  intros k. unfold slot_at, slot. destruct (acc_storage (account_at h a) !! k) as [p|] eqn:E; [by apply (Hs k)|done].
Qed.

Lemma toy_host_settled : settled toy_host.
Proof. apply settled_intro; by_compute. Qed.

Definition toy_run (tx : ethCallInfo) : result evmc_result * EVMHost :=
  @execute boost_ref toy_hash toy_secp toy_evm tx toy_host.

Lemma evm_revert_restores_witness :
  let h' := (toy_run (toy_call zero_address [3; 8])).2 in
  slot_at h' (toy_addr 2) toy_key = (zero_hash, zero_hash) ∧ accessedStorages h' ≠ [] ∧
  let h'' := revertCode (revert h') in
  settled h'' ∧ same_reads toy_host h'' ∧ contractAddresses h'' = contractAddresses toy_host.
Proof.
  split; [by vm_compute|]. split; [by vm_compute|].
  apply (@evm_revert_restores boost_ref toy_hash toy_secp toy_evm (toy_call zero_address [3; 8]) toy_host
    (toy_run (toy_call zero_address [3; 8])).1); [apply toy_host_settled|done|by vm_compute].
Defined.

Lemma evm_commit_keeps_witness :
  let h' := (toy_run (toy_call (toy_addr 2) [])).2 in
  slot_at (commitCode (commit h')) (toy_addr 1) toy_key = (toy_word 7, toy_word 7) ∧
  let h'' := commitCode (commit h') in
  settled h'' ∧ same_reads h' h'' ∧ contractAddresses h'' = contractAddresses h' ∧
  (∀ a, acc_balance (account_at h'' a) = acc_balance (account_at toy_host a)).
Proof.
  split; [by vm_compute|].
  apply (@evm_commit_keeps boost_ref toy_hash toy_secp toy_evm (toy_call (toy_addr 2) []) toy_host
    (toy_run (toy_call (toy_addr 2) [])).1); [apply toy_host_settled|by vm_compute].
Defined.

Lemma evm_terminates_witness :
  let msg := mkMessage EVMC_CALL 0 1 1000 (toy_addr 2) (toy_addr 5) [] zero_hash zero_hash (toy_addr 2) in
  depth msg ≤ 1024 ∧ ∃ r h', ∀ fuel, 1025 - depth msg ≤ Z.of_nat fuel →
    @vm_execute boost_ref toy_hash toy_secp toy_evm fuel msg [2] toy_host = Some (r, h').
Proof.
  split; [by vm_compute|]. apply (@evm_terminates boost_ref toy_hash toy_secp toy_evm). by vm_compute.
Defined.

Lemma derived_addresses_collide_witness :
  bytesRequired 128 = bytesRequired 255 ∧
  @deriveContractAddress toy_hash 128 (toy_addr 5) = @deriveContractAddress toy_hash 255 (toy_addr 5).
Proof.
  split; [by vm_compute|].
  apply (@derived_addresses_collide toy_hash); [done|done|by vm_compute].
Defined.

(** [Precompile::keccak] refuses every input longer than its functor, and the functor alone has no
    argument to decode: it always reverts (a shorter input is read out of bounds). *)
Theorem keccak_never_succeeds {BB : BoostBits} {KC : Keccak} msg s :
  (keccak msg s).1 = Ok result_revert ∨
  (length (input_data msg) < 4)%nat ∧ (keccak msg s).1 = Throw Undefined.
Proof.
  unfold keccak. destruct (Nat.ltb_spec 4 (length (input_data msg))) as [Hl|Hl]; [by left|].
  unfold precompile_catch, mbind', mlift, subspan_from. zcase; [left|right; split; [lia|done]].
  assert (Hd : drop (Z.to_nat 4) (input_data msg) = []) by (apply nil_length_inv; rewrite length_drop; lia).
  by rewrite Hd.
Qed.
