(* ===== verification/EvmStore.v ===== *)
(** * EvmStore: the EVM's accounts in the database (src/core/evmhost.hpp)

    The constructor and the destructor of [EVMHost]: codes, code hashes, storage slots and the addresses of
    created contracts, under four prefixes; balances and nonces are the state's. *)

From S2P Require Import Prelude Bytes SizedInts Hashing ECDSA Tx TxValidator Randomness Block Abi DB Storage EvmHost.

Section store.
Context {DBI : RocksDB} {HO : HashOrder}.

Definition pfx_code : list Z := makeNewPrefix pfx_evmHost "accounts_code".
Definition pfx_hashcode : list Z := makeNewPrefix pfx_evmHost "accounts_hashcode".
Definition pfx_storage : list Z := makeNewPrefix pfx_evmHost "accounts_storage".
Definition pfx_addresses : list Z := makeNewPrefix pfx_evmHost "contract_addresses".

(** ** The destructor *)

Definition batch_account (b : DBBatch) (p : list Z * EVMAccount) : DBBatch :=
  let b := push_back b p.1 (acc_code p.2).1 pfx_code in
  let b := push_back b p.1 (acc_codeHash p.2).1 pfx_hashcode in
  foldl (λ b q, push_back b (p.1 ++ q.1) q.2.2 pfx_storage) b (in_order (acc_storage p.2)).

Definition EVMHost_save (sto : Storage) (h : EVMHost) (d : rdb) : result rdb :=
  latestBlock ← latest sto;
  let d := put d (string_bytes "latest") (uint64ToBytes (nHeight_ latestBlock)) pfx_evmHost in
  let b := foldl batch_account DBBatch_new (in_order (accounts h)) in
  let b := foldl (λ b p, push_back b p.1 p.2 pfx_addresses) b (in_order (contractAddresses h)) in
  Ok (putBatch d b).

(** ** The constructor *)

Definition load_code (h : EVMHost) (e : Entry) : result EVMHost :=
  a ← FixedBytes_of 20 e.1;
  Ok (update_account a (λ acc, set_code (e.2, e.2) (acc_codeHash acc) acc) h).
Definition load_codeHash (h : EVMHost) (e : Entry) : result EVMHost :=
  a ← FixedBytes_of 20 e.1;
  x ← FixedBytes_of 32 e.2;
  Ok (update_account a (λ acc, set_code (acc_code acc) (x, x) acc) h).
Definition load_address (h : EVMHost) (e : Entry) : result EVMHost :=
  k ← FixedBytes_of 32 e.1;
  a ← FixedBytes_of 20 e.2;
  Ok (with_created h (<[k := a]> (contractAddresses h)) (recentlyCreatedContracts h)).
Definition load_slot (h : EVMHost) (e : Entry) : result EVMHost :=
  a ← subspan e.1 0 20;
  addr ← FixedBytes_of 20 a;
  k ← (if decide (20 ≤ length e.1)%nat then Ok (drop 20 e.1) else Throw Undefined);
  realKey ← FixedBytes_of 32 k;
  x ← FixedBytes_of 32 e.2;
  Ok (update_account addr (set_slot realKey (x, x)) h).

(** A [std::runtime_error], like a DynamicException. *)
Definition height_mismatch : exn := DynamicException "EVMHost: Chain height mismatch, DB is corrupted".

Definition EVMHost_load (sto : Storage) (d : rdb) : result EVMHost :=
  if has d (string_bytes "latest") pfx_evmHost then
    latestSaved ← bytesToUint64 (get d (string_bytes "latest") pfx_evmHost);
    latestBlock ← latest sto;
    _ ← throw_if (negb (nHeight_ latestBlock =? latestSaved)) height_mismatch;
    h ← foldM load_code EVMHost_new (getBatch d pfx_code []);
    h ← foldM load_codeHash h (getBatch d pfx_hashcode []);
    h ← foldM load_address h (getBatch d pfx_addresses []);
    foldM load_slot h (getBatch d pfx_storage [])
  else Ok EVMHost_new.

(** ** The entries of the batch *)

Definition account_puts (p : list Z * EVMAccount) : list Entry :=
  (pfx_code ++ p.1, (acc_code p.2).1) :: (pfx_hashcode ++ p.1, (acc_codeHash p.2).1) ::
  map (λ q, (pfx_storage ++ p.1 ++ q.1, q.2.2)) (in_order (acc_storage p.2)).

Definition host_puts (h : EVMHost) : list Entry :=
  (in_order (accounts h) ≫= account_puts) ++ map (prefixed pfx_addresses) (in_order (contractAddresses h)).

Lemma batch_account_puts b p : batch_account b p = mkBatch (puts_ b ++ account_puts p) (dels_ b).
Proof.
  unfold batch_account. rewrite (foldl_push_back (λ q, p.1 ++ q.1) (λ q, q.2.2)). unfold account_puts. cbn.
  by rewrite <- !app_assoc.
Qed.

Lemma host_batch h :
  foldl (λ b p, push_back b p.1 p.2 pfx_addresses) (foldl batch_account DBBatch_new (in_order (accounts h))) (in_order (contractAddresses h)) =
  mkBatch (host_puts h) [].
Proof.
  assert (Hgen : ∀ l b, foldl batch_account b l = mkBatch (puts_ b ++ (l ≫= account_puts)) (dels_ b)).
  { induction l as [|p l IH]; intros b; cbn [foldl]; [cbn; rewrite app_nil_r; by destruct b|].
    rewrite IH, batch_account_puts, bind_cons. cbn. by rewrite <- app_assoc. }
  rewrite Hgen, (foldl_push_back fst snd). done.
Qed.

(** What the types of the host guarantee. *)
Definition storable_account (acc : EVMAccount) : Prop :=
  length (acc_codeHash acc).1 = 32%nat ∧ map_Forall (λ k p, length k = 32%nat ∧ length p.2 = 32%nat) (acc_storage acc).
Definition storable_host (h : EVMHost) : Prop :=
  map_Forall (λ a acc, length a = 20%nat ∧ storable_account acc) (accounts h) ∧
  map_Forall (λ k a, length k = 32%nat ∧ length a = 20%nat) (contractAddresses h).

(** Membership in the batch, prefix by prefix. *)
Ltac evm_prefix_tac := unfold pfx_code, pfx_hashcode, pfx_storage, pfx_addresses, makeNewPrefix;
  rewrite <- ?app_assoc; intros ?%app_inv_head; discriminate.

Lemma host_puts_elem h k v :
  (k, v) ∈ host_puts h ↔
  (∃ a acc, accounts h !! a = Some acc ∧ k = pfx_code ++ a ∧ v = (acc_code acc).1) ∨
  (∃ a acc, accounts h !! a = Some acc ∧ k = pfx_hashcode ++ a ∧ v = (acc_codeHash acc).1) ∨
  (∃ a acc q p, accounts h !! a = Some acc ∧ acc_storage acc !! q = Some p ∧ k = pfx_storage ++ a ++ q ∧ v = p.2) ∨
  (∃ t, contractAddresses h !! t = Some v ∧ k = pfx_addresses ++ t).
Proof.
  unfold host_puts. rewrite elem_of_app, list_elem_of_bind. split.
  - intros [([a acc] & Hin & Ha%in_order_elem)|Hin].
    + unfold account_puts in Hin. rewrite !elem_of_cons in Hin. destruct Hin as [[-> ->]%pair_eq|[[-> ->]%pair_eq|Hin]].
      * left. by exists a, acc.
      * right. left. by exists a, acc.
      * apply list_elem_of_fmap in Hin as ([q p] & [-> ->]%pair_eq & Hq%in_order_elem). right. right. left. by exists a, acc, q, p.
    + apply list_elem_of_fmap in Hin as ([t a] & [-> ->]%pair_eq & Ht%in_order_elem). right. right. right. by exists t.
  - intros [(a & acc & Ha & -> & ->)|[(a & acc & Ha & -> & ->)|[(a & acc & q & p & Ha & Hq & -> & ->)|(t & Ht & ->)]]].
    + left. exists (a, acc). split; [left|by apply in_order_elem].
    + left. exists (a, acc). split; [right; left|by apply in_order_elem].
    + left. exists (a, acc). split; [|by apply in_order_elem]. right. right. apply list_elem_of_fmap. exists (q, p). split; [done|by apply in_order_elem].
    + right. apply list_elem_of_fmap. exists (t, v). split; [done|by apply in_order_elem].
Qed.

Lemma account_puts_keys p : NoDup (account_puts p).*1.
Proof.
  unfold account_puts. rewrite !fmap_cons, !NoDup_cons. split_and!.
  - rewrite elem_of_cons. intros [H|H]; [revert H; cbn [fst]; evm_prefix_tac|].
    apply list_elem_of_fmap in H as (e & H & (q & -> & _)%list_elem_of_fmap). revert H. cbn [fst]. evm_prefix_tac.
  - intros H. apply list_elem_of_fmap in H as (e & H & (q & -> & _)%list_elem_of_fmap). revert H. cbn [fst]. evm_prefix_tac.
  - rewrite <- list_fmap_compose. replace (_ <$> _) with ((λ k, pfx_storage ++ p.1 ++ k) <$> (in_order (acc_storage p.2)).*1)
      by by rewrite <- list_fmap_compose.
    apply NoDup_fmap_2; [by intros x y ?%app_inv_head%app_inv_head|apply in_order_keys].
Qed.

Lemma host_puts_keys h : storable_host h → NoDup (host_puts h).*1.
Proof.
  intros [Ha _]. unfold host_puts. rewrite fmap_app. apply NoDup_app. split_and!.
  - replace ((in_order (accounts h) ≫= account_puts).*1) with (in_order (accounts h) ≫= λ p, (account_puts p).*1).
    2:{ induction (in_order (accounts h)) as [|p l IH]; [done|]. by rewrite !bind_cons, fmap_app, IH. }
    apply NoDup_bind; [|intros p _; apply account_puts_keys|apply (NoDup_fmap_1 fst), in_order_keys].
    intros [a acc] [a' acc'] k H1%in_order_elem H2%in_order_elem Hk Hk'.
    assert (a = a'); [|by simplify_eq]. destruct (Ha _ _ H1) as [L1 _], (Ha _ _ H2) as [L2 _].
    apply list_elem_of_fmap in Hk as ([k1 v1] & -> & Hk), Hk' as ([k2 v2] & E & Hk'). cbn [fst] in E. subst k2.
    unfold account_puts in Hk, Hk'. rewrite !elem_of_cons, list_elem_of_fmap in Hk, Hk'. cbn [fst snd] in Hk, Hk'.
    destruct Hk as [[E1 _]%pair_eq|[[E1 _]%pair_eq|([q p] & [E1 _]%pair_eq & _)]],
      Hk' as [[E2 _]%pair_eq|[[E2 _]%pair_eq|([q' p'] & [E2 _]%pair_eq & _)]];
      rewrite E1 in E2; try (exfalso; revert E2; evm_prefix_tac); apply app_inv_head in E2; [done..|].
    by apply app_inj_1 in E2 as [-> _]; [|congruence].
  - intros k Hk Hk'. apply list_elem_of_fmap in Hk as ([k1 v1] & -> & Hk), Hk' as ([k2 v2] & E & Hk'). cbn [fst] in E. subst k2.
    apply list_elem_of_bind in Hk as ([a acc] & Hk & _). unfold account_puts in Hk. rewrite !elem_of_cons, list_elem_of_fmap in Hk.
    apply list_elem_of_fmap in Hk' as ([t b] & [E _]%pair_eq & _). cbn [fst snd] in Hk.
    destruct Hk as [[E1 _]%pair_eq|[[E1 _]%pair_eq|([q p] & [E1 _]%pair_eq & _)]]; rewrite E1 in E; revert E; evm_prefix_tac.
  - apply prefixed_keys, in_order_keys.
Qed.

(** ** What the batch leaves in the database *)

(** The entries in [d], if any, are of what the host has. *)
Record evm_covers (h : EVMHost) (d : rdb) : Prop := {
  cov_code a : is_Some (rdb_map d !! (pfx_code ++ a)) → is_Some (accounts h !! a);
  cov_hashcode a : is_Some (rdb_map d !! (pfx_hashcode ++ a)) → is_Some (accounts h !! a);
  cov_addresses t : is_Some (rdb_map d !! (pfx_addresses ++ t)) → is_Some (contractAddresses h !! t);
  cov_storage k : is_Some (rdb_map d !! (pfx_storage ++ k)) →
    ∃ a acc q, k = a ++ q ∧ accounts h !! a = Some acc ∧ is_Some (acc_storage acc !! q)
}.

Definition host_slots (h : EVMHost) : list (list Z * list Z * list Z) :=
  in_order (accounts h) ≫= λ p, map (λ q, (p.1, q.1, q.2.2)) (in_order (acc_storage p.2)).
Definition slot_entry (t : list Z * list Z * list Z) : Entry := (t.1.1 ++ t.1.2, t.2).

Lemma host_slots_elem h a q x :
  (a, q, x) ∈ host_slots h ↔ ∃ acc p, accounts h !! a = Some acc ∧ acc_storage acc !! q = Some p ∧ x = p.2.
Proof.
  unfold host_slots. rewrite list_elem_of_bind. split.
  - intros ([a' acc] & Hin & Ha%in_order_elem). apply list_elem_of_fmap in Hin as ([q' p] & [= -> -> ->] & Hq%in_order_elem). by exists acc, p.
  - intros (acc & p & Ha & Hq & ->). exists (a, acc). split; [|by apply in_order_elem]. apply list_elem_of_fmap. exists (q, p).
    split; [done|by apply in_order_elem].
Qed.

Lemma host_slots_typed h a q x : storable_host h → (a, q, x) ∈ host_slots h → length a = 20%nat ∧ length q = 32%nat ∧ length x = 32%nat.
Proof.
  intros [Hh _] (acc & p & Ha & Hq & ->)%host_slots_elem. destruct (Hh _ _ Ha) as (L & _ & Hs). by destruct (Hs _ _ Hq).
Qed.

Lemma slot_entry_keys h : storable_host h → NoDup (map slot_entry (host_slots h)).*1.
Proof.
  intros Hh. rewrite <- list_fmap_compose. apply NoDup_fmap_2_strong.
  - intros [[a q] x] [[a' q'] x'] H1 H2 Hk. cbn in Hk. destruct (host_slots_typed _ _ _ _ Hh H1) as (L1 & _).
    destruct (host_slots_typed _ _ _ _ Hh H2) as (L2 & _). apply app_inj_1 in Hk as [-> ->]; [|congruence].
    apply host_slots_elem in H1 as (acc & p & E1 & E2 & ->), H2 as (acc' & p' & E3 & E4 & ->). congruence.
  - unfold host_slots. apply NoDup_bind.
    + intros [a acc] [a' acc'] y H1%in_order_elem H2%in_order_elem Hy Hy'. apply list_elem_of_fmap in Hy as (q & -> & _), Hy' as (q' & [= -> _ _] & _).
      congruence.
    + intros [a acc] _. apply NoDup_fmap_2_strong; [|apply (NoDup_fmap_1 fst), in_order_keys].
      intros [q p] [q' p'] H1%in_order_elem H2%in_order_elem [= -> _]. congruence.
    + apply (NoDup_fmap_1 fst), in_order_keys.
Qed.

Definition host_codes (h : EVMHost) : list Entry := map (λ p, (p.1, (acc_code p.2).1)) (in_order (accounts h)).
Definition host_hashcodes (h : EVMHost) : list Entry := map (λ p, (p.1, (acc_codeHash p.2).1)) (in_order (accounts h)).

Lemma mapped_keys {A} (f : list Z * A → list Z) (l : list (list Z * A)) : NoDup l.*1 → NoDup (map (λ p, (p.1, f p)) l).*1.
Proof. by rewrite <- list_fmap_compose. Qed.

Lemma mapped_elem {A} (f : list Z * A → list Z) (m : gmap (list Z) A) k v :
  (k, v) ∈ map (λ p, (p.1, f p)) (in_order m) ↔ ∃ x, m !! k = Some x ∧ v = f (k, x).
Proof.
  rewrite list_elem_of_fmap. split.
  - intros ([k' x] & [-> ->]%pair_eq & Hx%in_order_elem). by exists x.
  - intros (x & Hx & ->). exists (k, x). split; [done|by apply in_order_elem].
Qed.

Section saved.
Variables (h : EVMHost) (d : rdb).
Hypothesis Hh : storable_host h.
Hypothesis Hd : evm_covers h d.
Abbreviation saved pfx := (getBatch (putBatch d (mkBatch (host_puts h) [])) pfx []).

Lemma saved_codes : saved pfx_code ≡ₚ host_codes h.
Proof.
  apply putBatch_getBatch; [by apply host_puts_keys|by apply mapped_keys, in_order_keys| |].
  - intros k v. rewrite host_puts_elem. unfold host_codes. rewrite mapped_elem. split.
    + intros [(a & acc & Ha & E & ->)|[(a & acc & _ & E & _)|[(a & acc & q & p & _ & _ & E & _)|(t & _ & E)]]];
        [apply app_inv_head in E as ->; by exists acc|exfalso; revert E; evm_prefix_tac..].
    + intros (acc & Ha & ->). left. by exists k, acc.
  - intros k [acc Ha]%(cov_code _ _ Hd). apply list_elem_of_fmap. exists (k, (acc_code acc).1). split; [done|].
    apply mapped_elem. by exists acc.
Qed.

Lemma saved_hashcodes : saved pfx_hashcode ≡ₚ host_hashcodes h.
Proof.
  apply putBatch_getBatch; [by apply host_puts_keys|by apply mapped_keys, in_order_keys| |].
  - intros k v. rewrite host_puts_elem. unfold host_hashcodes. rewrite mapped_elem. split.
    + intros [(a & acc & _ & E & _)|[(a & acc & Ha & E & ->)|[(a & acc & q & p & _ & _ & E & _)|(t & _ & E)]]];
        [|apply app_inv_head in E as ->; by exists acc|..]; exfalso; revert E; evm_prefix_tac.
    + intros (acc & Ha & ->). right. left. by exists k, acc.
  - intros k [acc Ha]%(cov_hashcode _ _ Hd). apply list_elem_of_fmap. exists (k, (acc_codeHash acc).1). split; [done|].
    apply mapped_elem. by exists acc.
Qed.

Lemma saved_addresses : saved pfx_addresses ≡ₚ in_order (contractAddresses h).
Proof.
  apply putBatch_getBatch; [by apply host_puts_keys|apply in_order_keys| |].
  - intros k v. rewrite host_puts_elem, in_order_elem. split.
    + intros [(a & acc & _ & E & _)|[(a & acc & _ & E & _)|[(a & acc & q & p & _ & _ & E & _)|(t & Ht & E)]]];
        [..|by apply app_inv_head in E as ->]; exfalso; revert E; evm_prefix_tac.
    + intros Ht. right. right. right. by exists k.
  - intros k [a Ha]%(cov_addresses _ _ Hd). apply list_elem_of_fmap. exists (k, a). split; [done|by apply in_order_elem].
Qed.

Lemma saved_slots : saved pfx_storage ≡ₚ map slot_entry (host_slots h).
Proof.
  apply putBatch_getBatch; [by apply host_puts_keys|by apply slot_entry_keys| |].
  - intros k v. rewrite host_puts_elem, list_elem_of_fmap. split.
    + intros [(a & acc & _ & E & _)|[(a & acc & _ & E & _)|[(a & acc & q & p & Ha & Hq & E & ->)|(t & _ & E)]]];
        [exfalso; revert E; evm_prefix_tac..| |exfalso; revert E; evm_prefix_tac].
      apply app_inv_head in E as ->. exists (a, q, p.2). split; [done|]. apply host_slots_elem. by exists acc, p.
    + intros ([[a q] x] & [-> ->]%pair_eq & (acc & p & Ha & Hq & ->)%host_slots_elem). right. right. left. by exists a, acc, q, p.
  - intros k (a & acc & q & -> & Ha & [p Hq])%(cov_storage _ _ Hd). apply list_elem_of_fmap. exists (slot_entry (a, q, p.2)). split; [done|].
    apply list_elem_of_fmap. exists (a, q, p.2). split; [done|]. apply host_slots_elem. by exists acc, p.
Qed.
End saved.

(** ** What the loops of the constructor build *)

(** A loop that changes the account of each entry, once. *)
Lemma load_accounts_loop (step : EVMHost → Entry → result EVMHost) (g : list Z → EVMAccount → EVMAccount) (l : list Entry) (h : EVMHost) :
  (∀ e h, e ∈ l → step h e = Ok (update_account e.1 (g e.2) h)) → NoDup l.*1 →
  ∃ h', foldM step h l = Ok h' ∧ rest h' = rest h ∧
    ∀ a, account_at h' a = match (list_to_map l : gmap (list Z) (list Z)) !! a with Some v => g v (account_at h a) | None => account_at h a end.
Proof.
  revert h. induction l as [|[a v] l IH]; intros h Hs Hnd; [by exists h|].
  rewrite fmap_cons in Hnd. apply NoDup_cons in Hnd as [Ha Hnd].
  destruct (IH (update_account a (g v) h)) as (h' & E & Hr & Hat); [intros; apply Hs; by right|done|].
  exists h'. split; [cbn [foldM]; by rewrite (Hs (a, v)), result_bind_Ok by left|]. split; [by rewrite Hr|].
  intros b. rewrite Hat, account_at_update. change (list_to_map ((a, v) :: l)) with (<[a := v]> (list_to_map l : gmap (list Z) (list Z))).
  destruct (decide (a = b)) as [->|Hne].
  - rewrite lookup_insert_eq. by rewrite not_elem_of_list_to_map_1.
  - by rewrite lookup_insert_ne.
Qed.

Lemma load_addresses_loop (l : list Entry) (h : EVMHost) :
  Forall (λ e, length e.1 = 32%nat ∧ length e.2 = 20%nat) l →
  foldM load_address h l = Ok (with_created h (foldl (λ t p, <[p.1 := p.2]> t) (contractAddresses h) l) (recentlyCreatedContracts h)).
Proof.
  intros Hl. revert h. induction Hl as [|[k a] l [Hk Ha] _ IH]; intros h; [by destruct h|].
  assert (E : load_address h (k, a) = Ok (with_created h (<[k := a]> (contractAddresses h)) (recentlyCreatedContracts h))).
  { unfold load_address, FixedBytes_of. cbn [fst snd] in *. rewrite (decide_True (P := length k = 32%nat)), result_bind_Ok by done.
    by rewrite (decide_True (P := length a = 20%nat)), result_bind_Ok. }
  cbn [foldM foldl]. by rewrite E, result_bind_Ok, IH.
Qed.

(** An account without its slots. *)
Definition no_slots (acc : EVMAccount) : EVMAccount := set_slots ∅ acc.

Lemma load_slot_entry h a q x :
  length a = 20%nat → length q = 32%nat → length x = 32%nat →
  load_slot h (slot_entry (a, q, x)) = Ok (update_account a (set_slot q (x, x)) h).
Proof.
  intros Ha Hq Hx. unfold load_slot, slot_entry. cbn [fst snd].
  rewrite (subspan_drop _ 0 20 a q), result_bind_Ok by (done || lia). unfold FixedBytes_of.
  rewrite (decide_True (P := length a = 20%nat)), result_bind_Ok by done.
  rewrite (decide_True (P := (20 ≤ length (a ++ q))%nat)), result_bind_Ok by (rewrite length_app; lia).
  rewrite drop_app_length' by done. rewrite (decide_True (P := length q = 32%nat)), result_bind_Ok by done.
  by rewrite (decide_True (P := length x = 32%nat)), result_bind_Ok by done.
Qed.

Lemma load_slots_loop (l : list (list Z * list Z * list Z)) (h : EVMHost) :
  Forall (λ t, length t.1.1 = 20%nat ∧ length t.1.2 = 32%nat ∧ length t.2 = 32%nat) l → NoDup l.*1 →
  ∃ h', foldM load_slot h (map slot_entry l) = Ok h' ∧ rest h' = rest h ∧
    (∀ a, no_slots (account_at h' a) = no_slots (account_at h a)) ∧
    ∀ a q, acc_storage (account_at h' a) !! q =
      match (list_to_map l : gmap (list Z * list Z) (list Z)) !! (a, q) with Some x => Some (x, x) | None => acc_storage (account_at h a) !! q end.
Proof.
  intros Hl. revert h. induction Hl as [|[[a q] x] l (Ha & Hq & Hx) _ IH]; intros h Hnd; [by exists h|].
  rewrite fmap_cons in Hnd. apply NoDup_cons in Hnd as [Hn Hnd]. cbn [fst snd] in *.
  destruct (IH (update_account a (set_slot q (x, x)) h) Hnd) as (h' & E & Hr & Hns & Hat).
  exists h'. split; [cbn [map foldM]; by rewrite load_slot_entry, result_bind_Ok|]. split; [by rewrite Hr|]. split.
  - intros b. rewrite Hns, account_at_update. by destruct (decide (a = b)) as [->|].
  - intros b r. rewrite Hat, account_at_update. change (list_to_map ((a, q, x) :: l)) with (<[(a, q) := x]> (list_to_map l : gmap (list Z * list Z) (list Z))).
    destruct (decide ((a, q) = (b, r))) as [[= -> ->]|Hne].
    + rewrite lookup_insert_eq, not_elem_of_list_to_map_1, decide_True by done. cbn. by rewrite lookup_insert_eq.
    + rewrite lookup_insert_ne by done. destruct (_ !! (b, r)); [done|]. destruct (decide (a = b)) as [->|]; [|done].
      cbn. rewrite lookup_insert_ne; [done|]. congruence.
Qed.

(** ** The restart *)

(** What this part of the database keeps of an account: all but its nonce and balance. *)
Definition evm_part (acc : EVMAccount) : EVMAccount := set_nonce (0, 0) (set_balance (0, 0) acc).

Lemma latest_put sto (h : EVMHost) d l :
  latest sto = Ok l → EVMHost_save sto h d =
    Ok (putBatch (put d (string_bytes "latest") (uint64ToBytes (nHeight_ l)) pfx_evmHost) (mkBatch (host_puts h) [])).
Proof. intros Hl. unfold EVMHost_save. by rewrite Hl, result_bind_Ok, host_batch. Qed.

Lemma latest_other d v pfx k : 
  pfx_evmHost ++ string_bytes "latest" ≠ pfx ++ k → rdb_map (put d (string_bytes "latest") v pfx_evmHost) !! (pfx ++ k) = rdb_map d !! (pfx ++ k).
Proof. intros Hne. rewrite put_map. by apply lookup_insert_ne. Qed.

Lemma latest_covers h d v : evm_covers h d → evm_covers h (put d (string_bytes "latest") v pfx_evmHost).
Proof. intros [H1 H2 H3 H4]. constructor; intros k; rewrite latest_other by evm_prefix_tac; auto. Qed.

Lemma latest_kept h d v :
  storable_host h → rdb_map (putBatch (put d (string_bytes "latest") v pfx_evmHost) (mkBatch (host_puts h) [])) !! (pfx_evmHost ++ string_bytes "latest") = Some v.
Proof.
  intros Hh. rewrite putBatch_lookup by by apply host_puts_keys. rewrite not_elem_of_list_to_map_1.
  - by rewrite put_map, lookup_insert_eq.
  - intros ([k w] & E & Hin)%list_elem_of_fmap. cbn [fst] in E. subst k. apply host_puts_elem in Hin.
    destruct Hin as [(a & acc & _ & E & _)|[(a & acc & _ & E & _)|[(a & acc & q & p & _ & _ & E & _)|(t & _ & E)]]];
      revert E; evm_prefix_tac.
Qed.

(** The loops over the codes and the hashes, one after the other. *)
Lemma load_codes_loops (h h0 : EVMHost) lc lh :
  storable_host h → lc ≡ₚ host_codes h → lh ≡ₚ host_hashcodes h →
  ∃ h1 h2, foldM load_code h0 lc = Ok h1 ∧ foldM load_codeHash h1 lh = Ok h2 ∧ rest h2 = rest h0 ∧
    ∀ a, account_at h2 a = match accounts h !! a with
      | Some acc => set_code ((acc_code acc).1, (acc_code acc).1) ((acc_codeHash acc).1, (acc_codeHash acc).1) (account_at h0 a)
      | None => account_at h0 a end.
Proof.
  intros [Hh _] Hc Hch.
  assert (Hnc : NoDup lc.*1) by (rewrite Hc; apply mapped_keys, in_order_keys).
  assert (Hnh : NoDup lh.*1) by (rewrite Hch; apply mapped_keys, in_order_keys).
  destruct (load_accounts_loop load_code (λ v acc, set_code (v, v) (acc_codeHash acc) acc) lc h0) as (h1 & E1 & R1 & A1); [|done|].
  { intros [a v] h' Hin. rewrite Hc in Hin. apply mapped_elem in Hin as (acc & Ha & _). destruct (Hh _ _ Ha) as [L _].
    unfold load_code, FixedBytes_of. cbn [fst snd]. by rewrite decide_True, result_bind_Ok. }
  destruct (load_accounts_loop load_codeHash (λ v acc, set_code (acc_code acc) (v, v) acc) lh h1) as (h2 & E2 & R2 & A2); [|done|].
  { intros [a v] h' Hin. rewrite Hch in Hin. apply mapped_elem in Hin as (acc & Ha & ->). destruct (Hh _ _ Ha) as (L & L2 & _).
    unfold load_codeHash, FixedBytes_of. cbn [fst snd]. rewrite (decide_True (P := length a = 20%nat)), result_bind_Ok by done.
    by rewrite decide_True, result_bind_Ok. }
  exists h1, h2. split; [done|]. split; [done|]. split; [by rewrite R2|]. intros a. rewrite A2, A1.
  assert (Hlook : ∀ (l : list Entry) f, NoDup l.*1 → l ≡ₚ map (λ p : list Z * EVMAccount, (p.1, f p)) (in_order (accounts h)) →
    (list_to_map l : gmap (list Z) (list Z)) !! a = match accounts h !! a with Some acc => Some (f (a, acc)) | None => None end).
  { intros l f Hnd Hl. destruct (accounts h !! a) as [acc|] eqn:Ea.
    - apply elem_of_list_to_map_1; [done|]. rewrite Hl. apply mapped_elem. by exists acc.
    - apply not_elem_of_list_to_map_1. intros ([b v] & -> & Hin)%list_elem_of_fmap. rewrite Hl in Hin. apply mapped_elem in Hin as (acc & Hb & _).
      cbn in Ea. congruence. }
  rewrite (Hlook lc (λ p, (acc_code p.2).1) Hnc Hc), (Hlook lh (λ p, (acc_codeHash p.2).1) Hnh Hch). by destruct (accounts h !! a).
Qed.

Lemma account_ext x y : no_slots x = no_slots y → acc_storage x = acc_storage y → x = y.
Proof. destruct x, y. unfold no_slots, set_slots. cbn. by intros [= -> -> -> -> ->] ->. Qed.

Lemma host_slots_keys h : storable_host h → NoDup (host_slots h).*1.
Proof.
  intros Hh. assert (H := slot_entry_keys h Hh). rewrite <- list_fmap_compose in H.
  replace (_ <$> _) with ((λ k : list Z * list Z, k.1 ++ k.2) <$> (host_slots h).*1) in H by by rewrite <- list_fmap_compose.
  by apply NoDup_fmap_1 in H.
Qed.

(** The accounts after all the loops: the slots of [ls] over what the codes left. *)
Lemma loaded_account h h2 h' ls a :
  settled h → ls ≡ₚ host_slots h → NoDup ls.*1 →
  account_at h2 a = match accounts h !! a with
    | Some acc => set_code ((acc_code acc).1, (acc_code acc).1) ((acc_codeHash acc).1, (acc_codeHash acc).1) EVMAccount_new
    | None => EVMAccount_new end →
  no_slots (account_at h' a) = no_slots (account_at h2 a) →
  (∀ q, acc_storage (account_at h' a) !! q =
    match (list_to_map ls : gmap (list Z * list Z) (list Z)) !! (a, q) with Some x => Some (x, x) | None => acc_storage (account_at h2 a) !! q end) →
  account_at h' a = evm_part (account_at h a).
Proof.
  intros Hs Hp Hnd H2 Hns Hst. apply account_ext.
  - rewrite Hns, H2. assert (C1 := st_code _ Hs a). assert (C2 := st_codeHash _ Hs a). assert (C3 := st_transient _ Hs a).
    unfold transients_at, account_at in *. destruct (accounts h !! a) as [[n c ch b st ts]|]; [|done].
    cbn in *. destruct c, ch. cbn in *. by subst.
  - apply map_eq. intros q. rewrite Hst.
    assert (H0 : acc_storage (account_at h2 a) = ∅) by (rewrite H2; by destruct (accounts h !! a)). rewrite H0, lookup_empty.
    assert (Hq : acc_storage (evm_part (account_at h a)) !! q = acc_storage (account_at h a) !! q) by done. rewrite Hq. clear Hq.
    assert (Hsl := st_slot _ Hs a q). unfold slot_at, slot, account_at in *. destruct (accounts h !! a) as [acc|] eqn:Ea.
    + cbn [default from_option id] in *. destruct (acc_storage acc !! q) as [[x y]|] eqn:Eq; cbn in Hsl.
      * subst y. rewrite (elem_of_list_to_map_1 ls (a, q) x); [done|done|]. rewrite Hp. apply host_slots_elem. by exists acc, (x, x).
      * rewrite not_elem_of_list_to_map_1; [done|]. intros ([k x] & E & Hin)%list_elem_of_fmap. cbn in E. subst k. rewrite Hp in Hin.
        apply host_slots_elem in Hin as (acc' & p & E1 & E2 & _). congruence.
    + rewrite not_elem_of_list_to_map_1; [done|]. intros ([k x] & E & Hin)%list_elem_of_fmap. cbn in E. subst k. rewrite Hp in Hin.
      apply host_slots_elem in Hin as (acc' & p & E1 & E2 & _). congruence.
Qed.

Lemma settled_evm_part h h' :
  settled h → nothing_listed h' → (∀ a, account_at h' a = evm_part (account_at h a)) → settled h'.
Proof.
  intros Hs (L1 & L2 & L3 & L4) Ha. constructor; try done; intros a.
  - intros k. unfold slot_at. rewrite Ha. apply (st_slot _ Hs).
  - rewrite Ha. apply (st_code _ Hs).
  - rewrite Ha. apply (st_codeHash _ Hs).
  - unfold transients_at. rewrite Ha. apply (st_transient _ Hs).
Qed.

(** C21: Codes, code hashes, storage slots and the addresses of created contracts survive a restart. What the
    destructor saves at the end of a transaction, the constructor over the same chain builds again, with
    nothing pending; an account that was not there is not there. *)
Theorem evm_state_persists sto l h d :
  latest sto = Ok l → in_uint 64 (nHeight_ l) → settled h → storable_host h → evm_covers h d →
  ∃ d' h', EVMHost_save sto h d = Ok d' ∧ EVMHost_load sto d' = Ok h' ∧ settled h' ∧
    contractAddresses h' = contractAddresses h ∧ (∀ a, account_at h' a = evm_part (account_at h a)).
Proof.
  intros Hl Hn Hs Hh Hc. rewrite (latest_put sto h d l Hl). set (d0 := put d _ _ _). set (d' := putBatch d0 _).
  assert (Hc0 : evm_covers h d0) by by apply latest_covers.
  destruct (Permutation_map_inv slot_entry _ (saved_slots h d0 Hh Hc0)) as (ls & Es & Ps). symmetry in Ps.
  destruct (load_codes_loops h EVMHost_new _ _ Hh (saved_codes h d0 Hh Hc0) (saved_hashcodes h d0 Hh Hc0)) as (h1 & h2 & E1 & E2 & R2 & A2).
  assert (Hla := saved_addresses h d0 Hh Hc0). fold d' in Es, E1, E2, Hla. set (la := getBatch d' pfx_addresses []) in *.
  assert (E3 : foldM load_address h2 la = Ok (with_created h2 (contractAddresses h) [])).
  { rewrite load_addresses_loop.
    - rewrite (rest_proj contractAddresses h2 EVMHost_new), (rest_proj recentlyCreatedContracts h2 EVMHost_new) by done.
      rewrite (foldl_insert_entries (contractAddresses h)); [done|]. by rewrite Hla, in_order_perm.
    - rewrite Hla. apply Forall_forall. intros [k a] Hin%in_order_elem. by apply (proj2 Hh k). }
  assert (Hnd : NoDup ls.*1) by (rewrite Ps; by apply host_slots_keys).
  destruct (load_slots_loop ls (with_created h2 (contractAddresses h) [])) as (h' & E4 & R4 & N4 & S4); [|done|].
  { rewrite Ps. apply Forall_forall. intros [[a q] x] Hin. by apply (host_slots_typed h). }
  assert (Hacc : ∀ a, account_at h' a = evm_part (account_at h a)) by (intros a; apply (loaded_account h h2 h' ls); auto).
  assert (Hrest : rest h' = with_created EVMHost_new (contractAddresses h) []).
  { rewrite R4. change (rest (with_created h2 (contractAddresses h) [])) with (with_created (rest h2) (contractAddresses h) []). by rewrite R2. }
  exists d', h'. split; [done|]. split; [|split; [|split; [|done]]].
  - assert (Hk : rdb_map d' !! (pfx_evmHost ++ string_bytes "latest") = Some (uint64ToBytes (nHeight_ l))) by by apply latest_kept.
    unfold EVMHost_load. rewrite has_spec, get_spec, Hk.
    rewrite bool_decide_true by by eexists. cbn [default from_option id]. rewrite bytesToUint64_roundtrip, result_bind_Ok, Hl, result_bind_Ok by done.
    rewrite Z.eqb_refl. cbn [negb throw_if]. rewrite result_bind_Ok, E1, result_bind_Ok, E2, result_bind_Ok. fold la. rewrite E3, result_bind_Ok. by rewrite Es.
  - apply (settled_evm_part h); [done| |done].
    by rewrite <- (rest_proj nothing_listed (with_created EVMHost_new (contractAddresses h) []) h') by (done || by rewrite Hrest).
  - by rewrite (rest_proj contractAddresses h' (with_created EVMHost_new (contractAddresses h) [])) by (done || by rewrite Hrest).
Qed.
End store.

(** ** A contract with a slot *)

Definition toy_stored : EVMHost :=
  with_created (with_accounts EVMHost_new
    {[ toy_addr 1 := set_slot toy_key (toy_word 7, toy_word 7) (with_code [1]); toy_addr 3 := set_balance (5, 5) EVMAccount_new ]})
    {[ toy_word 4 := toy_addr 1 ]} [].

Lemma evm_state_persists_witness :
  ∃ d' h', @EVMHost_save ref_db order_ref toy_chain toy_stored (∅ : gmap _ _) = Ok d' ∧
    @EVMHost_load ref_db toy_chain d' = Ok h' ∧ settled h' ∧
    contractAddresses h' = contractAddresses toy_stored ∧ (∀ a, account_at h' a = evm_part (account_at toy_stored a)).
Proof.
  apply (@evm_state_persists ref_db order_ref toy_chain toy_block toy_stored (∅ : gmap _ _)).
  - by vm_compute.
  - by_compute.
  - apply settled_intro; by_compute.
  - split; by_compute.
  - constructor; intros k [x Hx]; cbn [rdb_map ref_db] in Hx; by rewrite lookup_empty in Hx.
Defined.
