(* ===== verification/ContractManager.v ===== *)
(** * ContractManager: contracts written in C++ (src/contract/)

    [ContractManager], its interface to the contracts, [ContractFactory], [DynamicContract] and
    [ContractCallLogger].  A contract's C++ code is a tree of its uses of the interface ([code]): member
    functions of its variables, balances, transfers, events, nested calls and creations, each with what
    the code does next for the value returned or the exception thrown.  [exec] runs it.  The contracts'
    variables are those of SafeBase; the classes [ContractTypes] and [PayableState] are the contract
    classes compiled into the node and what the manager needs of [State]. *)

From S2P Require Import Prelude Bytes SizedInts Hashing SafeBase SafeCell Tx Randomness Abi Hex Event EvmHost.

Definition failed (msg : string) : exn := DynamicException msg.

Definition rethrow {S A} (m : M S A) : M S A :=
  mtry m (λ r, match r with Ok a => mret' a | Throw _ => mthrow (failed "call") end).

(** ** Checked balances

    A compound assignment to a checked [uint256_t] that throws leaves a value of the type that Boost
    does not specify. *)
Class BoostResidue := {
  sub_residue : Z → Z → Z;
  add_residue : Z → Z → Z;
  sub_residue_range a b : in_uint 256 (sub_residue a b);
  add_residue_range a b : in_uint 256 (add_residue a b)
}.

Definition checked_sub `{BoostResidue} (a b : Z) : result unit * Z :=
  if b <=? a then (Ok tt, a - b) else (Throw RangeError, sub_residue a b).

Definition checked_add `{BoostResidue} (a b : Z) : result unit * Z :=
  if a + b <=? umax 256 then (Ok tt, a + b) else (Throw OverflowError, add_residue a b).

Program Definition residue_ref : BoostResidue := {|
  sub_residue a b := (b - a) mod 2 ^ 256;
  add_residue a b := (a + b) mod 2 ^ 256
|}.
Next Obligation. intros a b. by apply Z.mod_pos_bound. Qed.
Next Obligation. intros a b. by apply Z.mod_pos_bound. Qed.

Lemma checked_sub_range `{BoostResidue} a b r x :
  in_uint 256 a → 0 ≤ b → checked_sub a b = (r, x) → in_uint 256 x.
Proof.
  unfold checked_sub, in_uint. intros Ha Hb. zcase; intros [= _ <-]; [lia|apply sub_residue_range].
Qed.

Lemma checked_add_range `{BoostResidue} a b r x :
  in_uint 256 a → 0 ≤ b → checked_add a b = (r, x) → in_uint 256 x.
Proof.
  unfold checked_add, in_uint, umax. intros Ha Hb. zcase; intros [= _ <-]; [lia|apply add_residue_range].
Qed.

(** ** What a contract reads *)

Record ContractLocals := mkLocals { origin_ : list Z; caller_ : list Z; loc_value_ : Z }.

Definition no_locals : ContractLocals := mkLocals zero_address zero_address 0.

Record ContractGlobals := mkGlobals {
  coinbase_ : list Z;
  g_blockHash_ : list Z;
  g_blockHeight_ : Z;
  g_blockTimestamp_ : Z;
  g_randomGen_ : list Z   (* the seed of the shared generator *)
}.

Section contracts.
Context {V T : Type} {SV : SafeVariable V T}.

(** The code of a contract's function that returns a [B].  The function called of another contract is given the
    index of that contract's first variable. *)
Inductive code : Type → Type :=
| CRet {B : Type} (b : B) : code B
| CThrow {B : Type} (e : exn) : code B
| CVar {B C : Type} (i : nat) (op : M V C) (k : result C → code B) : code B
| CLocals {B : Type} (self : list Z) (k : ContractLocals → code B) : code B
| CGlobals {B : Type} (k : ContractGlobals → code B) : code B
| CRandom {B : Type} (k : Z → code B) : code B
| CGetBalance {B : Type} (addr : list Z) (k : result Z → code B) : code B
| CSendTokens {B : Type} (from to : list Z) (amount : Z) (k : result unit → code B) : code B
| CEmit {B : Type} (e : Event) (k : result unit → code B) : code B
| CView {B C : Type} (target : list Z) (cast : string → bool) (body : nat → code C) (k : result C → code B) : code B
| CCall {B C : Type} (txOrigin from target : list Z) (value : Z) (cast : string → bool)
    (body : nat → code C) (k : result C → code B) : code B
| CCreate {B : Type} (txOrigin from : list Z) (value : Z) (functor encoder : list Z)
    (k : result (list Z) → code B) : code B.

(** What follows the value a piece of code returns. *)
Fixpoint code_bind {A B : Type} (c : code A) : (A → code B) → code B :=
  match c in code A return (A → code B) → code B with
  | CRet b => λ f, f b
  | CThrow e => λ _, CThrow e
  | CVar i op k => λ f, CVar i op (λ r, code_bind (k r) f)
  | CLocals self k => λ f, CLocals self (λ l, code_bind (k l) f)
  | CGlobals k => λ f, CGlobals (λ g, code_bind (k g) f)
  | CRandom k => λ f, CRandom (λ x, code_bind (k x) f)
  | CGetBalance a k => λ f, CGetBalance a (λ r, code_bind (k r) f)
  | CSendTokens from to amount k => λ f, CSendTokens from to amount (λ r, code_bind (k r) f)
  | CEmit e k => λ f, CEmit e (λ r, code_bind (k r) f)
  | CView target cast body k => λ f, CView target cast body (λ r, code_bind (k r) f)
  | CCall txOrigin from target value cast body k =>
      λ f, CCall txOrigin from target value cast body (λ r, code_bind (k r) f)
  | CCreate txOrigin from value functor encoder k =>
      λ f, CCreate txOrigin from value functor encoder (λ r, code_bind (k r) f)
  end.

(** What follows the value or the exception of a piece of code: a destructor at the end of the block it is in. *)
Fixpoint code_try {A B : Type} (c : code A) : (result A → code B) → code B :=
  match c in code A return (result A → code B) → code B with
  | CRet b => λ f, f (Ok b)
  | CThrow e => λ f, match e with Undefined => CThrow Undefined | _ => f (Throw e) end
  | CVar i op k => λ f, CVar i op (λ r, code_try (k r) f)
  | CLocals self k => λ f, CLocals self (λ l, code_try (k l) f)
  | CGlobals k => λ f, CGlobals (λ g, code_try (k g) f)
  | CRandom k => λ f, CRandom (λ x, code_try (k x) f)
  | CGetBalance a k => λ f, CGetBalance a (λ r, code_try (k r) f)
  | CSendTokens from to amount k => λ f, CSendTokens from to amount (λ r, code_try (k r) f)
  | CEmit e k => λ f, CEmit e (λ r, code_try (k r) f)
  | CView target cast body k => λ f, CView target cast body (λ r, code_try (k r) f)
  | CCall txOrigin from target value cast body k =>
      λ f, CCall txOrigin from target value cast body (λ r, code_try (k r) f)
  | CCreate txOrigin from value functor encoder k =>
      λ f, CCreate txOrigin from value functor encoder (λ r, code_try (k r) f)
  end.

(** ** Contracts *)

Record DynamicContract := mkContract {
  contractName_ : string;
  first_var_ : nat;   (* the index of the object's first variable *)
  publicFunctions_ : gmap (list Z) (ethCallInfo → code unit);
  payableFunctions_ : gmap (list Z) (ethCallInfo → code unit);
  viewFunctions_ : gmap (list Z) (ethCallInfo → code (list Z))
}.

Inductive FunctionTypes := View | NonPayable | Payable.

(** [registerMemberFunction]: the functor is that of the signature; the registered function decodes the
    arguments and, for a view, encodes the result. *)
Definition registerMemberFunction `{BoostBits} `{Keccak} (name : string) (args rets : list abi_ty)
    (memFunc : list abi_val → code (list abi_val)) (mutability : FunctionTypes) (c : DynamicContract) : DynamicContract :=
  let functor := functor_encode name args in
  let call (ci : ethCallInfo) : code (list abi_val) :=
    match decodeData args (ci_data ci) 0 with Ok vs => memFunc vs | Throw e => CThrow e end in
  let run ci := code_bind (call ci) (λ _, CRet tt) in
  let view ci := code_bind (call ci) (λ vs, CRet (encodeData rets vs)) in
  match mutability with
  | View => mkContract (contractName_ c) (first_var_ c) (publicFunctions_ c) (payableFunctions_ c)
              (<[functor := view]> (viewFunctions_ c))
  | NonPayable => mkContract (contractName_ c) (first_var_ c) (<[functor := run]> (publicFunctions_ c)) (payableFunctions_ c)
              (viewFunctions_ c)
  | Payable => mkContract (contractName_ c) (first_var_ c) (publicFunctions_ c) (<[functor := run]> (payableFunctions_ c))
              (viewFunctions_ c)
  end.

Definition isPayableFunction (c : DynamicContract) (functor : list Z) : bool :=
  bool_decide (is_Some (payableFunctions_ c !! functor)).

(** A contract class: its constructor's arguments, and what constructing it at an address gives, its
    variables, which follow those there are, and its functions, or an exception. *)
Record ContractTemplate := mkTemplate {
  ct_args : list abi_ty;
  ct_construct : list abi_val → list Z → list Z → Z → nat → result (list V * DynamicContract)
}.

Class ContractTypes := { createContractFuncs_ : gmap (list Z) ContractTemplate }.

(** ** The manager *)

Record ContractManager := mkManager {
  contracts_ : gmap (list Z) DynamicContract;
  locals_ : gmap (list Z) ContractLocals;      (* of every contract, the manager and rdPoS included *)
  call_ : CallState (V := V);                  (* the variables, and [usedVars_] *)
  callLogger_ : option (gmap (list Z) Z);      (* [balances_] of the active logger *)
  recentContracts_ : list (list Z);
  eventManager_ : EventManager;
  globals_ : ContractGlobals
}.

Section setters.
Variable s : ContractManager.
Definition with_contracts (cs : gmap (list Z) DynamicContract) (recent : list (list Z)) : ContractManager :=
  mkManager cs (locals_ s) (call_ s) (callLogger_ s) recent (eventManager_ s) (globals_ s).
Definition with_locals (ls : gmap (list Z) ContractLocals) : ContractManager :=
  mkManager (contracts_ s) ls (call_ s) (callLogger_ s) (recentContracts_ s) (eventManager_ s) (globals_ s).
Definition with_call (c : CallState) : ContractManager :=
  mkManager (contracts_ s) (locals_ s) c (callLogger_ s) (recentContracts_ s) (eventManager_ s) (globals_ s).
Definition with_logger (l : option (gmap (list Z) Z)) : ContractManager :=
  mkManager (contracts_ s) (locals_ s) (call_ s) l (recentContracts_ s) (eventManager_ s) (globals_ s).
Definition with_events (em : EventManager) : ContractManager :=
  mkManager (contracts_ s) (locals_ s) (call_ s) (callLogger_ s) (recentContracts_ s) em (globals_ s).
Definition with_globals (g : ContractGlobals) : ContractManager :=
  mkManager (contracts_ s) (locals_ s) (call_ s) (callLogger_ s) (recentContracts_ s) (eventManager_ s) g.
End setters.

Definition hex_address (s : string) : list Z := match toBytes (string_bytes s) with Ok b => b | _ => [] end.

(** [ProtocolContractAddresses]. *)
Definition rdPoS_address : list Z := Eval vm_compute in hex_address "0xb23aa52dbeda59277ab8a962c69f5971f22904cf".
Definition ContractManager_address : list Z :=
  Eval vm_compute in hex_address "0x0001cb47ea6d8b55fe44fdd6b1bdb579efb43e61".
Definition ProtocolContractAddresses : list (list Z) := [rdPoS_address; ContractManager_address].

(** *** The logger *)

(** [~ContractCallLogger]. *)
Definition logger_destroy (commitCall : bool) (s : ContractManager) : ContractManager :=
  let s := with_call s (logger_end commitCall (call_ s)) in
  let cs := if commitCall then contracts_ s else foldl (λ m a, delete a m) (contracts_ s) (recentContracts_ s) in
  with_logger (with_contracts s cs []) None.

(** [callLogger_.reset()]. *)
Definition logger_reset (commitCall : bool) (s : ContractManager) : ContractManager :=
  match callLogger_ s with None => s | Some _ => logger_destroy commitCall s end.

(** [callLogger_ = std::make_unique<ContractCallLogger>(manager)]: the logger there was is destroyed. *)
Definition logger_new (s : ContractManager) : ContractManager := with_logger (logger_reset false s) (Some ∅).

Definition setContractVars (contract origin caller : list Z) (value : Z) (s : ContractManager) : ContractManager :=
  with_locals s (<[contract := mkLocals origin caller value]> (locals_ s)).

Definition locals_of (s : ContractManager) (contract : list Z) : ContractLocals :=
  default no_locals (locals_ s !! contract).

Context {BB : BoostBits} {KC : Keccak} {BR : BoostResidue} {CT : ContractTypes}.

Definition haywire : exn := DynamicException "Contracts going haywire!".

(** The balances of the active logger, or the exception of the interface when there is none. *)
Definition with_balances {A} (f : gmap (list Z) Z → M ContractManager A) : M ContractManager A := λ s,
  match callLogger_ s with None => (Throw haywire, s) | Some m => f m s end.

Definition set_balances (m : gmap (list Z) Z) : M ContractManager unit := mmodify (λ s, with_logger s (Some m)).

Definition balanceAt (m : gmap (list Z) Z) (a : list Z) : Z := default 0 (m !! a).

(** [balances_\[to\] += value] and [-= value]. *)
Definition addBalance (to : list Z) (value : Z) : M ContractManager unit :=
  with_balances (λ m, let '(r, x) := checked_add (balanceAt m to) value in
    set_balances (<[to := x]> m) ;;; mlift r).
Definition subBalance (to : list Z) (value : Z) : M ContractManager unit :=
  with_balances (λ m, let '(r, x) := checked_sub (balanceAt m to) value in
    set_balances (<[to := x]> m) ;;; mlift r).

Section interface.
(** The balance [State] holds for an address, 0 when it has none. *)
Variable state_balance : list Z → Z.
Variables (chainOwner : list Z) (chainId : Z).

Definition populateBalance (a : list Z) : M ContractManager unit :=
  with_balances (λ m, match m !! a with
    | Some _ => mret' tt
    | None => set_balances (<[a := state_balance a]> m)
    end).

Definition getBalanceFromAddress (a : list Z) : M ContractManager Z :=
  populateBalance a ;;; with_balances (λ m, mret' (balanceAt m a)).

Definition sendTokens (from to : list Z) (amount : Z) : M ContractManager unit :=
  populateBalance from ;;;
  populateBalance to ;;;
  with_balances (λ m,
    if balanceAt m from <? amount then mthrow (failed "ContractManager::sendTokens: Not enough balance")
    else subBalance from amount ;;; addBalance to amount).

Definition emitContractEvent (e : Event) : M ContractManager unit :=
  with_balances (λ _, mmodify (λ s, with_events s (registerEvent e (eventManager_ s)))).

(** A member function of a variable; registering it without an active logger dereferences null. *)
Definition use_variable {A} (i : nat) (op : M V A) : M ContractManager A := λ s,
  let '(r, c) := run_on i op (call_ s) in
  match callLogger_ s with
  | None => if decide (length (usedVars_ c) = length (usedVars_ (call_ s))) then (r, with_call s c)
            else (Throw Undefined, s)
  | Some _ => (r, with_call s c)
  end.

(** [ContractManagerInterface::getContract<C>]: the contract must exist and be of the class. *)
Definition getContract (target : list Z) (cast : string → bool) : M ContractManager DynamicContract := λ s,
  match contracts_ s !! target with
  | None => (Throw (failed "ContractManager::getContract: contract not found"), s)
  | Some c => if cast (contractName_ c) then (Ok c, s)
              else (Throw (failed "ContractManager::getContract: not of the requested type"), s)
  end.

Definition random_next : M ContractManager Z := λ s,
  let g := globals_ s in
  let '(x, seed) := getNext (g_randomGen_ g) in
  (Ok x, with_globals s (mkGlobals (coinbase_ g) (g_blockHash_ g) (g_blockHeight_ g) (g_blockTimestamp_ g) seed)).

(** *** Creation *)

(** [ContractManager::deriveContractAddress]: the number of contracts stands for the nonce. *)
Definition cm_deriveContractAddress (s : ContractManager) : list Z :=
  deriveContractAddress (Z.of_nat (size (contracts_ s))) (caller_ (locals_of s ContractManager_address)).

(** [setupNewContract<TContract>]. *)
Definition setupNewContract (t : ContractTemplate) (ci : ethCallInfo) : M ContractManager (list Z * list abi_val) :=
  s <-- mget;;
  mthrow_if (bool_decide (origin_ (locals_of s ContractManager_address) ≠ chainOwner))
    (failed "Only contract creator can create new contracts") ;;;
  let derivedAddress := cm_deriveContractAddress s in
  mthrow_if (bool_decide (is_Some (contracts_ s !! derivedAddress)))
    (failed "Contract already exists as a Dynamic Contract") ;;;
  mthrow_if (bool_decide (derivedAddress ∈ ProtocolContractAddresses))
    (failed "Contract already exists as a Protocol Contract") ;;;
  args <-- mlift (decodeData (ct_args t) (ci_data ci) 0);;
  mret' (derivedAddress, args).

(** [createNewContract<TContract>] with [createContractWithTuple]. *)
Definition createNewContract (t : ContractTemplate) (ci : ethCallInfo) : M ContractManager unit :=
  setup <-- setupNewContract t ci;;
  let '(derivedAddress, decodedData) := setup in
  s <-- mget;;
  obj <-- rethrow (mlift (ct_construct t decodedData (ci_from ci) derivedAddress chainId (length (vars (call_ s)))));;
  mmodify (λ s, with_call s (mkCall (vars (call_ s) ++ obj.1) (usedVars_ (call_ s)))) ;;;
  mmodify (λ s, with_contracts s (<[derivedAddress := obj.2]> (contracts_ s)) (recentContracts_ s ++ [derivedAddress])).

(** [ContractManager::ethCall]. *)
Definition cm_ethCall (ci : ethCallInfo) : M ContractManager unit :=
  mthrow_if (bool_decide (ci_from ci ≠ chainOwner)) (failed "Only chainOwner can call ContractManager functions") ;;;
  match createContractFuncs_ !! ci_functor ci with
  | None => mthrow (failed "Invalid function call with functor")
  | Some t => createNewContract t ci
  end.

(** [callCreateContract<TContract>]. *)
Definition callCreateContract (txOrigin from : list Z) (value : Z) (functor encoder : list Z) :
    M ContractManager (list Z) :=
  with_balances (λ _,
    mmodify (setContractVars ContractManager_address txOrigin from value) ;;;
    newContractAddress <-- mgets cm_deriveContractAddress;;
    cm_ethCall (mkCallInfo from ContractManager_address 0 0 value functor encoder []) ;;;
    mret' newContractAddress).

(** *** Running code *)

(** [callContractFunction], around the run of the function. *)
Definition call_function {A} (txOrigin from target : list Z) (value : Z) (cast : string → bool)
    (run : nat → M ContractManager A) : M ContractManager A :=
  with_balances (λ _,
    (if value =? 0 then mret' tt else sendTokens from target value) ;;;
    s <-- mget;;
    mthrow_if (negb (bool_decide (is_Some (contracts_ s !! target)))) (failed "Contract does not exist") ;;;
    c <-- getContract target cast;;
    mmodify (setContractVars target txOrigin from value) ;;;
    rethrow (run (first_var_ c))).

Fixpoint exec {B} (c : code B) : M ContractManager B :=
  match c with
  | CRet b => mret' b
  | CThrow e => mthrow e
  | CVar i op k => mtry (use_variable i op) (λ r, exec (k r))
  | CLocals self k => s <-- mget;; exec (k (locals_of s self))
  | CGlobals k => s <-- mget;; exec (k (globals_ s))
  | CRandom k => x <-- random_next;; exec (k x)
  | CGetBalance a k => mtry (getBalanceFromAddress a) (λ r, exec (k r))
  | CSendTokens from to amount k => mtry (sendTokens from to amount) (λ r, exec (k r))
  | CEmit e k => mtry (emitContractEvent e) (λ r, exec (k r))
  | CView target cast body k => mtry (c <-- getContract target cast;; exec (body (first_var_ c))) (λ r, exec (k r))
  | CCall txOrigin from target value cast body k =>
      mtry (call_function txOrigin from target value cast (λ first, exec (body first))) (λ r, exec (k r))
  | CCreate txOrigin from value functor encoder k =>
      mtry (callCreateContract txOrigin from value functor encoder) (λ r, exec (k r))
  end.

(** [DynamicContract::ethCall] and [ethCallView]. *)
Definition dynamic_ethCall (c : DynamicContract) (ci : ethCallInfo) : M ContractManager unit :=
  rethrow (
    let funcName := ci_functor ci in
    if isPayableFunction c funcName then
      match payableFunctions_ c !! funcName with
      | None => mthrow (failed "Functor not found for payable function")
      | Some f => exec (f ci)
      end
    else
      match publicFunctions_ c !! funcName with
      | None => mthrow (failed "Functor not found for non-payable function")
      | Some f => exec (f ci)
      end).

Definition dynamic_ethCallView (c : DynamicContract) (ci : ethCallInfo) : M ContractManager (list Z) :=
  rethrow (match viewFunctions_ c !! ci_functor ci with
           | None => mthrow (failed "Functor not found")
           | Some f => exec (f ci)
           end).

(** [BaseContract::ethCall], which [rdPoS] does not override. *)
Definition rdPoS_ethCall (ci : ethCallInfo) : M ContractManager unit :=
  mthrow (failed "Derived Class from Contract does not override ethCall()").
End interface.

(** ** Calls from transactions and from RPC *)

(** What [State] offers: the balance of an address, and [processContractPayable]. *)
Class PayableState (St : Type) := {
  balance_of : St → list Z → Z;
  processContractPayable : gmap (list Z) Z → M St unit
}.

Section calls.
Context {HO : HashOrder} {St : Type} {PS : PayableState St}.
Variables (chainOwner : list Z) (chainId : Z).

Definition on_manager {A} (m : (list Z → Z) → M ContractManager A) : M (ContractManager * St) A := λ s,
  let '(r, cm) := m (balance_of s.2) s.1 in (r, (cm, s.2)).

Definition on_state {A} (m : M St A) : M (ContractManager * St) A := λ s,
  let '(r, st) := m s.2 in (r, (s.1, st)).

Definition revert_events (s : ContractManager) : ContractManager := with_events s (revertEvents (eventManager_ s)).

(** The end of a failed call and of a successful one. *)
Definition call_failed (s : ContractManager) : ContractManager := revert_events (logger_reset false s).

Definition call_succeeded (txHash : list Z) (txIndex : Z) (s : ContractManager) : ContractManager :=
  let s := logger_reset true s in
  with_events s (commitEvents txHash txIndex (g_blockHash_ (globals_ s)) (g_blockHeight_ (globals_ s)) (eventManager_ s)).

(** [try { contract call } catch (std::exception &e) { reset; revertEvents; throw }]. *)
Definition guarded (m : M ContractManager unit) : M ContractManager unit :=
  mtry m (λ r, match r with
    | Ok _ => mret' tt
    | Throw e => mmodify call_failed ;;; mthrow (failed "what")
    end).

(** [void callContract(const TxBlock& tx, const Hash&, const uint64_t& txIndex)]. *)
Definition callContract (tx : TxBlock) (txIndex : Z) : M (ContractManager * St) unit :=
  on_manager (λ _, mmodify logger_new) ;;;
  let callInfo := txToCallInfo tx in
  let from := ci_from callInfo in
  let to := ci_to callInfo in
  let value := ci_value callInfo in
  if decide (to = ContractManager_address) then
    on_manager (λ _, mmodify (setContractVars ContractManager_address from from value)) ;;;
    on_manager (λ _, guarded (cm_ethCall chainOwner chainId callInfo)) ;;;
    on_manager (λ _, mmodify (call_succeeded (hash_ tx) txIndex))
  else if decide (to = rdPoS_address) then
    on_manager (λ _, mmodify (setContractVars rdPoS_address from from value)) ;;;
    on_manager (λ _, guarded (rdPoS_ethCall callInfo)) ;;;
    on_manager (λ _, mmodify (call_succeeded (hash_ tx) txIndex))
  else
    s <-- mget;;
    match contracts_ s.1 !! to with
    | None =>
        on_manager (λ _, mmodify call_failed) ;;;
        mthrow (failed "callContract(void): Contract does not exist")
    | Some contract =>
        on_manager (λ _, mmodify (setContractVars to from from value)) ;;;
        on_manager (λ bal, guarded (dynamic_ethCall bal chainOwner chainId contract callInfo)) ;;;
        (if isPayableFunction contract (ci_functor callInfo) then
           s <-- mget;;
           match callLogger_ s.1 with
           | None => mthrow Undefined
           | Some balances => on_state (processContractPayable balances)
           end
         else mret' tt) ;;;
        on_manager (λ _, mmodify (call_succeeded (hash_ tx) txIndex))
    end.

(** [getContracts] and [getDeployedContracts]. *)
Definition getContracts (s : ContractManager) : list (string * list Z) :=
  map (λ p : list Z * DynamicContract, (contractName_ p.2, p.1)) (in_order (contracts_ s)).

Definition getDeployedContracts (s : ContractManager) : list Z :=
  let cs := getContracts s in
  encodeData [TVector TString; TVector TAddress]
    [VList (map (λ p, VBytes (string_bytes p.1)) cs); VList (map (λ p, VBytes p.2) cs)].

(** [ContractManager::ethCallView]. *)
Definition cm_ethCallView (ci : ethCallInfo) : M ContractManager (list Z) :=
  s <-- mget;;
  if decide (ci_functor ci = [170; 154; 6; 143]) then mret' (getDeployedContracts s)
  else mthrow (failed "Invalid function call").

(** [Bytes callContract(const ethCallInfo& callInfo) const]. *)
Definition callContract_view (ci : ethCallInfo) : M (ContractManager * St) (list Z) :=
  if decide (ci_to ci = ContractManager_address) then on_manager (λ _, cm_ethCallView ci)
  else if decide (ci_to ci = rdPoS_address) then mthrow (failed "Derived Class from Contract does not override ethCallView()")
  else
    s <-- mget;;
    match contracts_ s.1 !! ci_to ci with
    | None => mthrow (failed "callContract(Bytes): Contract does not exist")
    | Some c => on_manager (λ bal, dynamic_ethCallView bal chainOwner chainId c ci)
    end.

Definition isPayable (s : ContractManager) (ci : ethCallInfo) : bool :=
  match contracts_ s !! ci_to ci with
  | None => false
  | Some c => isPayableFunction c (ci_functor ci)
  end.

Definition isContractAddress (s : ContractManager) (address : list Z) : bool :=
  bool_decide (address ∈ ProtocolContractAddresses) || bool_decide (is_Some (contracts_ s !! address)).

Definition isContractCall (s : ContractManager) (tx : TxBlock) : bool :=
  bool_decide (to_ tx = ContractManager_address) || isContractAddress s (to_ tx).

(** [validateCallContractWithTx]: the dry run of [estimateGas]. Its body, ... *)
Definition validate_body (ci : ethCallInfo) (bal : list Z → Z) : M ContractManager bool :=
  let from := ci_from ci in
  let to := ci_to ci in
  let value := ci_value ci in
  (if value =? 0 then mret' tt
   else populateBalance bal from ;;; populateBalance bal to ;;; subBalance from value ;;; addBalance to value) ;;;
  if decide (to = ContractManager_address) then
    mmodify (setContractVars ContractManager_address from from value) ;;;
    cm_ethCall chainOwner chainId ci ;;;
    mret' true
  else if decide (to = rdPoS_address) then
    mmodify (setContractVars rdPoS_address from from value) ;;;
    rdPoS_ethCall ci ;;;
    mret' true
  else
    s <-- mget;;
    match contracts_ s !! to with
    | None => mret' false
    | Some c =>
        mmodify (setContractVars to from from value) ;;;
        dynamic_ethCall bal chainOwner chainId c ci ;;;
        mret' true
    end.

(** ... after which everything is reverted, whether it returned or threw. *)
Definition validateCallContractWithTx (ci : ethCallInfo) : M (ContractManager * St) bool :=
  on_manager (λ _, mmodify logger_new) ;;;
  on_manager (λ bal, mtry (validate_body ci bal) (λ r,
    mmodify call_failed ;;;
    match r with Ok b => mret' b | Throw _ => mthrow (failed "what") end)).

Definition updateContractGlobals (coinbase blockHash : list Z) (blockHeight blockTimestamp : Z)
    (s : ContractManager) : ContractManager :=
  with_globals s (mkGlobals coinbase blockHash blockHeight blockTimestamp (g_randomGen_ (globals_ s))).

Definition updateRandomGen (seed : list Z) (s : ContractManager) : ContractManager :=
  let g := globals_ s in
  with_globals s (mkGlobals (coinbase_ g) (g_blockHash_ g) (g_blockHeight_ g) (g_blockTimestamp_ g) seed).

(** [ContractManager::commitEvent]. *)
Definition cm_commitEvent (e : Event) (s : ContractManager) : ContractManager :=
  with_events s (commitEvent e (eventManager_ s)).
End calls.
End contracts.

(** ** Lemmas: what running code keeps *)

Section keeps.
Context {V T : Type} {SV : SafeVariable V T}.
Abbreviation CM := (ContractManager (V := V)).

Section combinators.
Variable I : CM → Prop.

Lemma keeps_rethrow {A} (m : M CM A) : keeps I m → keeps I (rethrow m).
Proof.
  intros Hm. apply keeps_mtry; [done|]. intros [a|e]; [apply keeps_ret|apply keeps_throw].
Qed.

Lemma keeps_with_balances {A} (f : gmap (list Z) Z → M CM A) :
  (∀ m s, callLogger_ s = Some m → I s → I (f m s).2) → keeps I (with_balances f).
Proof. intros Hf s Hs. unfold with_balances. destruct (callLogger_ s) as [m|] eqn:E; [by apply Hf|done]. Qed.
End combinators.

#[local] Hint Resolve keeps_rethrow : keeps.

Lemma keeps_getContract (I : CM → Prop) target cast : keeps I (getContract target cast).
Proof.
  intros s Hs. unfold getContract. destruct (contracts_ s !! target) as [c|]; [|done]. by destruct (cast _).
Qed.
#[local] Hint Resolve keeps_getContract : keeps.

(** Every member function the code may run is honest, and amounts are unsigned. *)
Fixpoint honest_code {B} (c : code (V := V) B) : Prop :=
  match c with
  | CRet _ | CThrow _ => True
  | CVar _ op k => honest op ∧ ∀ r, honest_code (k r)
  | CLocals _ k => ∀ l, honest_code (k l)
  | CGlobals k => ∀ g, honest_code (k g)
  | CRandom k => ∀ x, honest_code (k x)
  | CGetBalance _ k => ∀ r, honest_code (k r)
  | CSendTokens _ _ amount k => 0 ≤ amount ∧ ∀ r, honest_code (k r)
  | CEmit _ k => ∀ r, honest_code (k r)
  | CView _ _ body k => (∀ first, honest_code (body first)) ∧ ∀ r, honest_code (k r)
  | CCall _ _ _ value _ body k => 0 ≤ value ∧ (∀ first, honest_code (body first)) ∧ ∀ r, honest_code (k r)
  | CCreate _ _ _ _ _ k => ∀ r, honest_code (k r)
  end.

Context {BB : BoostBits} {KC : Keccak} {BR : BoostResidue} {CT : ContractTypes (V := V)}.

Section closed.
Variables (bal : list Z → Z) (chainOwner : list Z) (chainId : Z).

(** An invariant closed under the interface's operations. *)
Record exec_closed (I : CM → Prop) : Prop := {
  closed_var A i (op : M V A) : honest op → keeps I (use_variable i op);
  closed_locals c o f v : keeps I (mmodify (setContractVars c o f v));
  closed_random : keeps I random_next;
  closed_populate a : keeps I (populateBalance bal a);
  closed_send from to amount : 0 ≤ amount → keeps I (sendTokens bal from to amount);
  closed_emit e : keeps I (emitContractEvent e);
  closed_create t ci functor : createContractFuncs_ !! functor = Some t → keeps I (createNewContract chainOwner chainId t ci)
}.

Lemma cm_ethCall_keeps I ci : exec_closed I → keeps I (cm_ethCall chainOwner chainId ci).
Proof.
  intros Hc. unfold cm_ethCall. apply keeps_bind; [auto with keeps|]. intros _.
  destruct (createContractFuncs_ !! ci_functor ci) as [t|] eqn:E; [|auto with keeps].
  eapply closed_create; [exact Hc|exact E].
Qed.

Lemma exec_keeps {B} (c : code B) I : exec_closed I → honest_code c → keeps I (exec bal chainOwner chainId c).
Proof.
  intros HI. destruct HI as [Hvar Hloc Hrnd Hpop Hsend Hemit Hcreate] eqn:EI. clear EI.
  induction c as [B b|B e|B C i op k IH|B self k IH|B k IH|B k IH|B a k IH|B from to amount k IH|B e k IH
    |B C target cast body IHb k IH|B C o from target value cast body IHb k IH|B o from value functor encoder k IH];
    cbn [honest_code exec]; intros Hh.
  - auto with keeps.
  - auto with keeps.
  - destruct Hh as [Hop Hk]. apply keeps_mtry; auto.
  - apply keeps_bind; [auto with keeps|]. auto.
  - apply keeps_bind; [auto with keeps|]. auto.
  - apply keeps_bind; auto.
  - apply keeps_mtry; [|auto]. unfold getBalanceFromAddress. apply keeps_bind; [auto|]. intros _.
    by apply keeps_with_balances.
  - destruct Hh as [Ha Hk]. apply keeps_mtry; auto.
  - apply keeps_mtry; auto.
  - destruct Hh as [Hb Hk]. apply keeps_mtry; [|auto]. apply keeps_bind; auto with keeps.
  - destruct Hh as (Hv & Hb & Hk). apply keeps_mtry; [|auto]. unfold call_function. apply keeps_with_balances.
    intros m s _ Hs. revert s Hs. change (keeps I (
      (if value =? 0 then mret' tt else sendTokens bal from target value) ;;;
      s <-- mget;;
      mthrow_if (negb (bool_decide (is_Some (contracts_ s !! target)))) (failed "Contract does not exist") ;;;
      c <-- getContract target cast;;
      mmodify (setContractVars target o from value) ;;;
      rethrow (exec bal chainOwner chainId (body (first_var_ c))))).
    apply keeps_bind; [destruct (value =? 0); auto with keeps|]. intros _.
    apply keeps_bind; [auto with keeps|]. intros s0. apply keeps_bind; [auto with keeps|]. intros _.
    apply keeps_bind; [auto with keeps|]. intros c. apply keeps_bind; [auto|]. intros _. apply keeps_rethrow. auto.
  - apply keeps_mtry; [|auto]. unfold callCreateContract. apply keeps_with_balances.
    intros m s _ Hs. revert s Hs. apply keeps_bind; [auto|]. intros _.
    apply keeps_bind; [auto with keeps|]. intros a. apply keeps_bind; [|auto with keeps].
    by apply cm_ethCall_keeps.
Qed.
End closed.

(** ** Lemmas: the variables during a call *)

Definition used_bounded (c : CallState (V := V)) : Prop := Forall (λ i, (i < length (vars c))%nat) (usedVars_ c).

Lemma run_on_bounded {A} i (op : M V A) c r c' :
  used_bounded c → run_on i op c = (r, c') → used_bounded c' ∧ length (vars c') = length (vars c).
Proof.
  unfold used_bounded, run_on. intros Hb. destruct (vars c !! i) as [v|] eqn:Hv; [|by intros [= _ <-]].
  destruct (op v) as [r' v']. intros [= _ <-]. apply lookup_lt_Some in Hv.
  destruct (negb _ && _); cbn; rewrite length_insert; split; try done.
  apply Forall_app. split; [done|]. by apply Forall_singleton.
Qed.

Context {LAWS : SafeVariableLaws V T}.

(** During a call: the variables there were, [vs0], and those of the contracts it created. *)
Definition call_ok (vs0 : list V) (c : CallState) : Prop :=
  used_bounded c ∧ ∃ new, Forall idle new ∧ call_inv (vs0 ++ new) c.

Lemma call_inv_extend vs (c : CallState) new :
  used_bounded c → Forall idle new → call_inv vs c → call_inv (vs ++ new) (mkCall (vars c ++ new) (usedVars_ c)).
Proof.
  intros Hb Hnew (Hl & Hnd & Hinv). split; [cbn; rewrite !length_app; lia|]. split; [done|].
  intros i v Hv. cbn [vars usedVars_] in *. apply lookup_app_Some in Hv as [Hv|[Hge Hv]].
  - destruct (Hinv _ _ Hv) as (v0 & Hv0 & H'). exists v0. split; [by apply lookup_app_l_Some|done].
  - exists v. split; [rewrite lookup_app_r by lia; by rewrite <- Hl|].
    rewrite Forall_lookup in Hnew. destruct (Hnew _ _ Hv) as (Hw & Ht & Hr & Hg).
    split; [done|]. split; [done|]. split; [done|]. rewrite Hr. split; [|done]. split; [|done].
    intros Hi. unfold used_bounded in Hb. rewrite Forall_forall in Hb. specialize (Hb _ Hi). lia.
Qed.

Lemma call_ok_extend vs0 c new :
  Forall idle new → call_ok vs0 c → call_ok vs0 (mkCall (vars c ++ new) (usedVars_ c)).
Proof.
  intros Hnew (Hb & new0 & Hnew0 & Hinv). split.
  - unfold used_bounded in *. cbn. eapply Forall_impl; [exact Hb|]. intros i Hi. cbn in *. rewrite length_app. lia.
  - exists (new0 ++ new). rewrite app_assoc. split; [by apply Forall_app|]. by apply call_inv_extend.
Qed.

(** At the end of the call the variables there were are idle again, and on a revert they read as before. *)
Lemma call_ok_end vs0 c commitCall :
  Forall idle vs0 → call_ok vs0 c →
  Forall idle (vars (logger_end commitCall c)) ∧ usedVars_ (logger_end commitCall c) = [] ∧
  (length vs0 ≤ length (vars (logger_end commitCall c)))%nat ∧
  take (length vs0) (sv_get <$> vars (logger_end commitCall c)) =
    if commitCall then take (length vs0) (sv_get <$> vars c) else sv_get <$> vs0.
Proof.
  intros H0 (_ & new & Hnew & Hinv).
  assert (Hg : ∀ l : list V, Forall idle l → sv_get <$> l = sv_value <$> l).
  { induction 1 as [|v l (_ & _ & _ & Hv) _ IH]; [done|]. cbn. by rewrite Hv, IH. }
  assert (Hlen : length (vs0 ++ new) = length (vars c)) by (by destruct Hinv).
  rewrite length_app in Hlen.
  destruct commitCall; cbn [logger_end].
  - destruct (commit_call _ _ Hinv) as [Hi Hv].
    assert (Hl := f_equal length Hv). rewrite !length_fmap in Hl.
    split; [done|]. split; [done|]. split; [lia|]. by rewrite (Hg _ Hi), Hv.
  - destruct (revert_call _ _ Hinv) as [Hi Hv].
    assert (Hl := f_equal length Hv). rewrite !length_fmap, length_app in Hl.
    split; [done|]. split; [done|]. split; [lia|].
    rewrite (Hg _ Hi), Hv, fmap_app, take_app_le by (rewrite length_fmap; lia).
    rewrite take_ge by (rewrite length_fmap; lia). symmetry. by apply Hg.
Qed.

(** ** Atomicity of a contract call *)

Definition honest_contract (c : DynamicContract (V := V)) : Prop :=
  (∀ f g ci, publicFunctions_ c !! f = Some g → honest_code (g ci)) ∧
  (∀ f g ci, payableFunctions_ c !! f = Some g → honest_code (g ci)) ∧
  (∀ f g ci, viewFunctions_ c !! f = Some g → honest_code (g ci)).

(** The constructors give idle variables and honest functions. *)
Definition honest_types : Prop := ∀ f t args creator derived chainId n vs c,
  createContractFuncs_ !! f = Some t → ct_construct t args creator derived chainId n = Ok (vs, c) →
  Forall idle vs ∧ honest_contract c.

(** Between calls: nothing is registered, created or emitted that is not committed. *)
Record quiet (s : CM) : Prop := {
  quiet_vars : Forall idle (vars (call_ s));
  quiet_used : usedVars_ (call_ s) = [];
  quiet_recent : recentContracts_ s = [];
  quiet_events : tempEvents_ (eventManager_ s) = [];
  quiet_contracts : ∀ a c, contracts_ s !! a = Some c → honest_contract c
}.

(** During a call that began in the quiet state [s0]. *)
Record in_call (s0 s : CM) : Prop := {
  call_vars : call_ok (vars (call_ s0)) (call_ s);
  call_contracts a : a ∉ recentContracts_ s → contracts_ s !! a = contracts_ s0 !! a;
  call_recent a : a ∈ recentContracts_ s → contracts_ s0 !! a = None;
  call_honest a c : contracts_ s !! a = Some c → honest_contract c;
  call_events : events_ (eventManager_ s) = events_ (eventManager_ s0);
  call_logger : is_Some (callLogger_ s)
}.

Lemma erase_lookup (l : list (list Z)) (m : gmap (list Z) (DynamicContract (V := V))) a :
  foldl (λ m a, delete a m) m l !! a = if decide (a ∈ l) then None else m !! a.
Proof.
  revert m. induction l as [|b l IH]; intros m; cbn [foldl].
  - by rewrite decide_False by apply not_elem_of_nil.
  - rewrite IH. destruct (decide (a = b)) as [->|Hne].
    + rewrite (decide_True (P := b ∈ b :: l)) by left. by case_decide; [|apply lookup_delete_eq].
    + rewrite lookup_delete_ne by done. destruct (decide (a ∈ l)).
      * by rewrite decide_True by by right.
      * rewrite decide_False by (rewrite elem_of_cons; tauto). done.
Qed.

(** What is observable of the manager between calls. *)
Definition same_world (s0 s : CM) : Prop :=
  contracts_ s = contracts_ s0 ∧ eventManager_ s = eventManager_ s0 ∧
  take (length (vars (call_ s0))) (sv_get <$> vars (call_ s)) = sv_get <$> vars (call_ s0).

Lemma call_failed_world s0 s : quiet s0 → in_call s0 s → quiet (call_failed s) ∧ same_world s0 (call_failed s) ∧ callLogger_ (call_failed s) = None.
Proof.
  intros Hq Hs. destruct (call_ok_end _ _ false (quiet_vars _ Hq) (call_vars _ _ Hs)) as (Hi & Hu & Hl & Hv).
  unfold call_failed, logger_reset. destruct (call_logger _ _ Hs) as [m ->].
  assert (Hc : foldl (λ m a, delete a m) (contracts_ s) (recentContracts_ s) = contracts_ s0).
  { apply map_eq. intros a. rewrite erase_lookup. case_decide as Ha.
    - symmetry. by apply (call_recent _ _ Hs).
    - by apply (call_contracts _ _ Hs). }
  split; [|split; [|done]].
  - constructor; try done. cbn. rewrite Hc. apply Hq.
  - unfold same_world, logger_destroy, revert_events. cbn [contracts_ eventManager_ call_ with_events with_logger with_contracts with_call].
    split; [done|]. split; [|done].
    unfold revertEvents. rewrite (call_events _ _ Hs). destruct (quiet_events _ Hq). by destruct (eventManager_ s0).
Qed.

Lemma call_succeeded_world s0 s txHash txIndex :
  quiet s0 → in_call s0 s →
  let s' := call_succeeded txHash txIndex s in
  quiet s' ∧ callLogger_ s' = None ∧ contracts_ s' = contracts_ s ∧
  take (length (vars (call_ s0))) (sv_get <$> vars (call_ s')) = take (length (vars (call_ s0))) (sv_get <$> vars (call_ s)) ∧
  ∃ es, events_ (eventManager_ s') = events_ (eventManager_ s0) ++ es ∧
    Forall (λ e, evt_txHash_ e = txHash ∧ evt_txIndex_ e = txIndex) es.
Proof.
  intros Hq Hs. destruct (call_ok_end _ _ true (quiet_vars _ Hq) (call_vars _ _ Hs)) as (Hi & Hu & Hl & Hv).
  unfold call_succeeded, logger_reset. destruct (call_logger _ _ Hs) as [m ->].
  split; [constructor; try done; apply Hs|]. split; [done|]. split; [done|]. split; [done|].
  eexists. split; [cbn; by rewrite (call_events _ _ Hs)|].
  apply Forall_lookup. intros i e He. rewrite list_lookup_imap in He. by apply fmap_Some in He as (e' & _ & ->).
Qed.

(** What a committed call leaves: every variable's value is what the code left in it. *)
Lemma call_succeeded_commits s0 s txHash txIndex :
  quiet s0 → in_call s0 s →
  let s' := call_succeeded txHash txIndex s in
  sv_value <$> vars (call_ s') = sv_get <$> vars (call_ s) ∧
  events_ (eventManager_ s') = events_ (eventManager_ s0) ++
    imap (λ i e, setStateData e (Z.of_nat i) txHash txIndex (g_blockHash_ (globals_ s)) (g_blockHeight_ (globals_ s)))
      (by_block (tempEvents_ (eventManager_ s))).
Proof.
  intros Hq Hs. unfold call_succeeded, logger_reset. destruct (call_logger _ _ Hs) as [m ->].
  destruct (call_vars _ _ Hs) as (_ & new & _ & Hinv). destruct (commit_call _ _ Hinv) as [_ Hv].
  split; [exact Hv|]. cbn. by rewrite (call_events _ _ Hs).
Qed.

Lemma createNewContract_cases chainOwner chainId (t : ContractTemplate (V := V)) ci (s : CM) :
  let r := createNewContract chainOwner chainId t ci s in
  (is_ok r.1 = false ∧ r.2 = s) ∨
  ∃ args new c, ct_construct t args (ci_from ci) (cm_deriveContractAddress s) chainId (length (vars (call_ s))) = Ok (new, c) ∧
    contracts_ s !! cm_deriveContractAddress s = None ∧
    r.2 = with_contracts (with_call s (mkCall (vars (call_ s) ++ new) (usedVars_ (call_ s))))
      (<[cm_deriveContractAddress s := c]> (contracts_ s)) (recentContracts_ s ++ [cm_deriveContractAddress s]).
Proof.
  unfold createNewContract, setupNewContract, rethrow, mtry, mbind', mget, mthrow_if, mthrow, mlift, mret', mmodify.
  case_bool_decide; [by left|]. case_bool_decide as Hex; [by left|]. case_bool_decide; [by left|].
  destruct (decodeData _ _ _) as [args|e]; [|by left].
  destruct (ct_construct _ _ _ _ _ _) as [[new c]|e] eqn:Hct; [|left; by destruct e].
  right. exists args, new, c. split; [done|]. split; [by apply eq_None_not_Some|]. done.
Qed.

Section atomic.
Variables (bal : list Z → Z) (chainOwner : list Z) (chainId : Z).
Hypothesis TYPES : honest_types.

Lemma in_call_new s : quiet s → in_call s (logger_new s).
Proof.
  intros [Hv Hu Hr He Hc].
  assert (Hd : call_ok (vars (call_ s)) (logger_end false (call_ s))).
  { assert (Heq : logger_end false (call_ s) = call_ s).
    { unfold logger_end, logger_revert, end_call. rewrite Hu. cbn. destruct (call_ s); cbn in *. by subst. }
    rewrite Heq. split; [unfold used_bounded; by rewrite Hu|]. exists []. split; [constructor|]. rewrite app_nil_r.
    assert (Hs := call_start_inv _ Hv). unfold call_start in Hs. rewrite <- Hu in Hs at 1.
    by destruct (call_ s). }
  assert (Hd0 : call_ok (vars (call_ s)) (call_ s)).
  { split; [unfold used_bounded; by rewrite Hu|]. exists []. split; [constructor|]. rewrite app_nil_r.
    assert (Hs := call_start_inv _ Hv). unfold call_start in Hs. rewrite <- Hu in Hs at 1. by destruct (call_ s). }
  unfold logger_new, logger_reset. destruct (callLogger_ s).
  - unfold logger_destroy. constructor; cbn; try done; rewrite ?Hr; cbn; try done.
    by intros a ?%not_elem_of_nil.
  - constructor; cbn; try done; rewrite ?Hr; try done. by intros a ?%not_elem_of_nil.
Qed.

(** The steps that only change the balances, the locals or the pending events. *)
Lemma in_call_same s0 s s' :
  call_ s' = call_ s → contracts_ s' = contracts_ s → recentContracts_ s' = recentContracts_ s →
  events_ (eventManager_ s') = events_ (eventManager_ s) → is_Some (callLogger_ s') →
  in_call s0 s → in_call s0 s'.
Proof. intros Hc Hcs Hr He Hl [? ? ? ? ? ?]. constructor; rewrite ?Hc, ?Hcs, ?Hr, ?He; done. Qed.

Lemma in_call_set s0 s m : in_call s0 s → in_call s0 (with_logger s (Some m)).
Proof. by apply in_call_same. Qed.

Lemma in_call_populate s0 a : keeps (in_call s0) (populateBalance bal a).
Proof.
  apply keeps_with_balances. intros m s Hm Hs. destruct (m !! a); [done|]. by apply in_call_set.
Qed.

Lemma in_call_add s0 a x : keeps (in_call s0) (addBalance a x).
Proof.
  apply keeps_with_balances. intros m s Hm Hs. destruct (checked_add _ _) as [r y]. by apply in_call_set.
Qed.

Lemma in_call_sub s0 a x : keeps (in_call s0) (subBalance a x).
Proof.
  apply keeps_with_balances. intros m s Hm Hs. destruct (checked_sub _ _) as [r y]. by apply in_call_set.
Qed.

Lemma in_call_send s0 from to amount : keeps (in_call s0) (sendTokens bal from to amount).
Proof.
  apply keeps_bind; [apply in_call_populate|]. intros _. apply keeps_bind; [apply in_call_populate|]. intros _.
  apply keeps_with_balances. intros m s Hm Hs. destruct (_ <? _); [done|].
  revert s Hm Hs. intros s _. revert s. change (keeps (in_call s0) (subBalance from amount ;;; addBalance to amount)).
  apply keeps_bind; [apply in_call_sub|]. intros _. apply in_call_add.
Qed.

Lemma in_call_create s0 t ci functor :
  createContractFuncs_ !! functor = Some t → keeps (in_call s0) (createNewContract chainOwner chainId t ci).
Proof.
  intros Ht s Hs. destruct (createNewContract_cases chainOwner chainId t ci s)
    as [[_ ->]|(args & new & c & Hct & Hex & ->)]; [done|].
  destruct (TYPES _ _ _ _ _ _ _ _ _ Ht Hct) as [Hnew Hcon].
  destruct Hs as [Hv Hc Hr Hh He Hl]. constructor; cbn.
  - by apply call_ok_extend.
  - intros a Ha. rewrite elem_of_app, list_elem_of_singleton in Ha.
    rewrite lookup_insert_ne by (intros <-; apply Ha; by right). apply Hc. tauto.
  - intros a. rewrite elem_of_app, list_elem_of_singleton. intros [Ha| ->]; [by apply Hr|].
    destruct (decide (cm_deriveContractAddress s ∈ recentContracts_ s)) as [Hin|Hin]; [by apply Hr|].
    by rewrite <- Hc.
  - intros a c'. destruct (decide (a = cm_deriveContractAddress s)) as [->|Hne].
    + rewrite lookup_insert_eq. by intros [= <-].
    + rewrite lookup_insert_ne by done. apply Hh.
  - done.
  - done.
Qed.

Lemma in_call_closed s0 : exec_closed bal chainOwner chainId (in_call s0).
Proof.
  constructor.
  - intros A i op Hop s Hs. unfold use_variable.
    destruct (run_on i op (call_ s)) as [r c] eqn:Hr.
    assert (Hc : in_call s0 (with_call s c)).
    { destruct Hs as [(Hb & new & Hnew & Hinv) ? ? ? ? ?]. constructor; try done. cbn.
      destruct (run_on_bounded _ _ _ _ _ Hb Hr) as [Hb' _]. split; [done|]. exists new. split; [done|].
      by eapply run_on_inv. }
    destruct (callLogger_ s); [done|]. case_decide; done.
  - intros c o f v s Hs. by apply (in_call_same _ s); try apply Hs.
  - intros s Hs. unfold random_next. destruct (getNext _). by apply (in_call_same _ s); try apply Hs.
  - apply in_call_populate.
  - intros from to amount _. apply in_call_send.
  - intros e. apply keeps_with_balances. intros m s Hm Hs. by apply (in_call_same _ s); try apply Hs.
  - apply in_call_create.
Qed.


Lemma guarded_cases s0 (m : M CM unit) s r s' :
  keeps (in_call s0) m → in_call s0 s → guarded m s = (r, s') → r ≠ Throw Undefined →
  (r = Ok tt ∧ in_call s0 s' ∧ m s = (Ok tt, s')) ∨
  (∃ e s1, r = Throw e ∧ in_call s0 s1 ∧ s' = call_failed s1 ∧ is_ok (m s).1 = false).
Proof.
  intros Hm Hs Hg Hr. specialize (Hm s Hs). unfold guarded, mtry in Hg.
  destruct (m s) as [[[]|e] s1]; cbn in Hg, Hm.
  - injection Hg as <- <-. by left.
  - right. destruct e; injection Hg as <- <-; try done; by eexists _, s1.
Qed.

Lemma in_call_locals s0 c o f v : keeps (in_call s0) (mmodify (setContractVars c o f v)).
Proof. intros s Hs. by apply (in_call_same _ s); try apply Hs. Qed.

Lemma dynamic_ethCall_closed (I : CM → Prop) c ci :
  exec_closed bal chainOwner chainId I → honest_contract c → keeps I (dynamic_ethCall bal chainOwner chainId c ci).
Proof.
  intros HI (Hpub & Hpay & _). apply keeps_rethrow. cbv zeta. destruct (isPayableFunction c (ci_functor ci)).
  - destruct (payableFunctions_ c !! ci_functor ci) eqn:E; [|apply keeps_throw].
    apply exec_keeps; [exact HI|]. by eapply Hpay.
  - destruct (publicFunctions_ c !! ci_functor ci) eqn:E; [|apply keeps_throw].
    apply exec_keeps; [exact HI|]. by eapply Hpub.
Qed.

Lemma dynamic_ethCall_keeps s0 c ci :
  honest_contract c → keeps (in_call s0) (dynamic_ethCall bal chainOwner chainId c ci).
Proof. apply dynamic_ethCall_closed, in_call_closed. Qed.
End atomic.

(** ** Conservation of the native tokens *)

Section conservation.
Variables (bal : list Z → Z) (chainOwner : list Z) (chainId : Z).

Fixpoint total (f : list Z → Z) (l : list (list Z)) : Z :=
  match l with [] => 0 | a :: l => f a + total f l end.

(** The balance the call sees: the logger's, or the state's when the call has not looked at it. *)
Definition effective (m : gmap (list Z) Z) (a : list Z) : Z := default (bal a) (m !! a).

(** [k] tokens are missing from the logger's balances. *)
Definition balanced (k : Z) (m : gmap (list Z) Z) : Prop :=
  (∀ a x, m !! a = Some x → 0 ≤ x) ∧
  ∀ l, NoDup l → (∀ a, is_Some (m !! a) → a ∈ l) → total (effective m) l = total bal l - k.

(** All the tokens there are fit a [uint256_t]. *)
Definition supply_ok : Prop := (∀ a, 0 ≤ bal a) ∧ ∀ l, NoDup l → total bal l ≤ umax 256.

Lemma total_ext f g l : (∀ a, a ∈ l → f a = g a) → total f l = total g l.
Proof.
  induction l as [|b l IH]; intros Hfg; [done|]. cbn. rewrite (Hfg b) by left.
  rewrite IH; [done|]. intros a Ha. apply Hfg. by right.
Qed.

Lemma total_nonneg f l : (∀ a, 0 ≤ f a) → 0 ≤ total f l.
Proof. intros Hf. induction l as [|b l IH]; cbn; [done|]. specialize (Hf b). lia. Qed.

Lemma total_elem f l a : (∀ a, 0 ≤ f a) → a ∈ l → f a ≤ total f l.
Proof.
  intros Hf. induction l as [|b l IH]; [by intros ?%not_elem_of_nil|].
  assert (Hb := Hf b). assert (Hl := total_nonneg f l Hf). intros [->|Ha]%elem_of_cons; cbn; [lia|].
  specialize (IH Ha). lia.
Qed.

Lemma total_insert m a x l :
  NoDup l → a ∈ l → total (effective (<[a := x]> m)) l = total (effective m) l - effective m a + x.
Proof.
  intros Hnd Ha. induction Hnd as [|b l Hb Hnd IH]; [by apply not_elem_of_nil in Ha|]. cbn.
  destruct (decide (a = b)) as [->|Hne].
  - rewrite (total_ext (effective (<[b := x]> m)) (effective m)).
    + unfold effective at 1. rewrite lookup_insert_eq. cbn. lia.
    + intros c Hc. unfold effective. rewrite lookup_insert_ne; [done|]. by intros ->.
  - apply elem_of_cons in Ha as [Ha|Ha]; [done|]. rewrite IH by done.
    unfold effective at 1. rewrite lookup_insert_ne by done. fold (effective m b). lia.
Qed.

Lemma balanced_empty : balanced 0 ∅.
Proof. split; [by intros a x ?|]. intros l _ _. rewrite Z.sub_0_r. by apply total_ext. Qed.

Lemma balanced_insert k m a x :
  0 ≤ x → balanced k m → balanced (k + effective m a - x) (<[a := x]> m).
Proof.
  intros Hx [Hn Ht]. split.
  - intros b y. destruct (decide (a = b)) as [->|Hne];
      [rewrite lookup_insert_eq; by intros [= <-]|rewrite lookup_insert_ne by done; apply Hn].
  - intros l Hnd Hl. assert (Ha : a ∈ l) by (apply Hl; by rewrite lookup_insert_eq).
    rewrite total_insert by done. rewrite Ht; [lia|done|].
    intros b Hb. apply Hl. destruct (decide (a = b)) as [->|Hne]; [by rewrite lookup_insert_eq|by rewrite lookup_insert_ne].
Qed.

Lemma balanced_bound k m a : supply_ok → balanced k m → effective m a ≤ umax 256 - k.
Proof.
  intros [Hb Hs] [Hn Ht]. set (l := a :: remove_dups (filter (λ b, b ≠ a) (map_to_list m).*1)).
  assert (Hnd : NoDup l).
  { constructor; [|apply NoDup_remove_dups]. rewrite elem_of_remove_dups, list_elem_of_filter. tauto. }
  assert (Hl : ∀ b, is_Some (m !! b) → b ∈ l).
  { intros b [x Hx]. destruct (decide (b = a)) as [->|Hne]; [left|right].
    rewrite elem_of_remove_dups, list_elem_of_filter. split; [done|]. apply list_elem_of_fmap.
    exists (b, x). split; [done|]. by apply elem_of_map_to_list. }
  specialize (Ht l Hnd Hl). specialize (Hs l Hnd).
  assert (He : ∀ b, 0 ≤ effective m b).
  { intros b. unfold effective. destruct (m !! b) eqn:E; [by eapply Hn|apply Hb]. }
  assert (Hm : a ∈ l) by left. assert (Hel := total_elem _ _ a He Hm). lia.
Qed.

Definition conserving (s : CM) : Prop := ∀ m, callLogger_ s = Some m → balanced 0 m.

Lemma conserving_same (s s' : CM) : callLogger_ s' = callLogger_ s → conserving s → conserving s'.
Proof. intros He Hs m. rewrite He. apply Hs. Qed.

Hypothesis SUPPLY : supply_ok.

Lemma populate_balanced (s : CM) a m :
  callLogger_ s = Some m → balanced 0 m →
  ∃ m', populateBalance bal a s = (Ok tt, with_logger s (Some m')) ∧ balanced 0 m' ∧
    m' !! a = Some (effective m a) ∧ (∀ b, effective m' b = effective m b) ∧
    ∀ b, is_Some (m !! b) → is_Some (m' !! b).
Proof.
  intros Hm Hb. unfold populateBalance, with_balances. rewrite Hm. unfold effective.
  destruct (m !! a) as [x|] eqn:E; cbn.
  - exists m. split; [by destruct s; cbn in *; subst|]. by rewrite E.
  - exists (<[a := bal a]> m). split; [done|]. rewrite lookup_insert_eq. split_and!; try done.
    + assert (Hi := balanced_insert 0 m a (bal a) (proj1 SUPPLY a) Hb). unfold effective in Hi. rewrite E in Hi.
      cbn in Hi. by replace (0 + bal a - bal a) with 0 in Hi by lia.
    + intros b. destruct (decide (a = b)) as [->|Hne]; [by rewrite lookup_insert_eq, E|by rewrite lookup_insert_ne].
    + intros b Hs. destruct (decide (a = b)) as [->|Hne]; [by rewrite lookup_insert_eq|by rewrite lookup_insert_ne].
Qed.

Lemma balanceAt_effective m a : is_Some (m !! a) → balanceAt m a = effective m a.
Proof. intros [x Hx]. unfold balanceAt, effective. by rewrite Hx. Qed.

(** [sendTokens] moves exactly the amount between the two balances or throws; it cannot overflow. *)
Lemma sendTokens_spec (s : CM) from to amount m :
  0 ≤ amount → callLogger_ s = Some m → balanced 0 m →
  let poor := effective m from <? amount in
  ∃ m', balanced 0 m' ∧
    sendTokens bal from to amount s =
      (if poor then Throw (failed "ContractManager::sendTokens: Not enough balance") else Ok tt, with_logger s (Some m')) ∧
    ∀ a, effective m' a = if poor then effective m a
      else effective m a - (if decide (a = from) then amount else 0) + (if decide (a = to) then amount else 0).
Proof.
  intros Ha Hm Hb poor. unfold sendTokens.
  destruct (populate_balanced s from m Hm Hb) as (m1 & E1 & Hb1 & Hf1 & He1 & _).
  destruct (populate_balanced (with_logger s (Some m1)) to m1 eq_refl Hb1) as (m2 & E2 & Hb2 & Ht2 & He2 & Hs2).
  assert (Hf2 : is_Some (m2 !! from)) by (apply Hs2; by rewrite Hf1).
  unfold mbind' at 1. rewrite E1. unfold mbind' at 1. rewrite E2.
  unfold with_balances at 1. cbn [callLogger_ with_logger].
  rewrite balanceAt_effective, He2, He1 by done. fold poor. destruct poor eqn:Ep.
  - exists m2. split; [done|]. split; [done|]. intros a. by rewrite He2, He1.
  - apply Z.ltb_ge in Ep.
    set (m3 := <[from := effective m from - amount]> m2).
    assert (Hb3 : balanced amount m3).
    { assert (Hi := balanced_insert 0 m2 from (effective m from - amount) ltac:(lia) Hb2).
      rewrite He2, He1 in Hi. by replace (0 + effective m from - (effective m from - amount)) with amount in Hi by lia. }
    assert (He3 : ∀ a, effective m3 a = effective m a - if decide (a = from) then amount else 0).
    { intros a. unfold m3. unfold effective at 1. destruct (decide (a = from)) as [->|Hne].
      - by rewrite lookup_insert_eq.
      - rewrite lookup_insert_ne by congruence. fold (effective m2 a). rewrite He2, He1. lia. }
    assert (Ht3 : is_Some (m3 !! to)).
    { unfold m3. destruct (decide (from = to)) as [->|]; [by rewrite lookup_insert_eq|]. by rewrite lookup_insert_ne, Ht2. }
    assert (Hbd := balanced_bound _ _ to SUPPLY Hb3).
    exists (<[to := effective m3 to + amount]> m3). split_and!.
    + assert (Hn : 0 ≤ effective m3 to + amount).
      { destruct Ht3 as [x Hx]. unfold effective. rewrite Hx. apply Hb3 in Hx. cbn. lia. }
      assert (Hi := balanced_insert _ _ to _ Hn Hb3).
      by replace (amount + effective m3 to - (effective m3 to + amount)) with 0 in Hi by lia.
    + unfold mbind', subBalance, addBalance, with_balances. cbn [callLogger_ with_logger].
      rewrite balanceAt_effective, He2, He1 by done.
      unfold checked_sub. rewrite (proj2 (Z.leb_le _ _)) by lia. cbn [set_balances mmodify mlift mbind'].
      fold m3. cbn [callLogger_ with_logger].
      rewrite balanceAt_effective by done. unfold checked_add. rewrite (proj2 (Z.leb_le _ _)) by lia. done.
    + intros a. rewrite <- He3. unfold effective at 1. destruct (decide (a = to)) as [->|Hne].
      * by rewrite lookup_insert_eq.
      * rewrite lookup_insert_ne by congruence. fold (effective m3 a). lia.
Qed.

Lemma conserving_closed : exec_closed bal chainOwner chainId conserving.
Proof.
  constructor.
  - intros A i op _ s Hs. unfold use_variable. destruct (run_on i op (call_ s)) as [r c].
    destruct (callLogger_ s) eqn:E; [by apply (conserving_same s)|]. case_decide; [by apply (conserving_same s)|done].
  - intros c o f v s Hs. by apply (conserving_same s).
  - intros s Hs. unfold random_next. destruct (getNext _). by apply (conserving_same s).
  - intros a s Hs. unfold populateBalance. destruct (callLogger_ s) as [m|] eqn:E.
    + destruct (populate_balanced s a m E (Hs m E)) as (m' & E' & Hb & _). unfold populateBalance in E'. rewrite E'.
      by intros ? [= <-].
    + unfold with_balances. by rewrite E.
  - intros from to amount Ha s Hs. destruct (callLogger_ s) as [m|] eqn:E.
    + destruct (sendTokens_spec s from to amount m Ha E (Hs m E)) as (m' & Hb & -> & _). by intros ? [= <-].
    + unfold sendTokens, mbind', populateBalance, with_balances. by rewrite E.
  - intros e. apply keeps_with_balances. intros m s _ Hs. by apply (conserving_same s).
  - intros t ci functor _ s Hs. destruct (createNewContract_cases chainOwner chainId t ci s)
      as [[_ ->]|(args & new & c & _ & _ & ->)]; [done|]. by apply (conserving_same s).
Qed.

(** C13: contract code can neither create nor destroy tokens. Whatever the contracts run in a call,
    nested calls and transfers included, and whatever exceptions they catch, the balances in the call's
    books add up to what the state holds for the same addresses, over any set of addresses that has them
    all, and none is negative; a transfer never overflows. *)
Theorem contract_code_conserves {B} (c : code B) (s : CM) m s' m' r :
  honest_code c → callLogger_ s = Some m → balanced 0 m →
  exec bal chainOwner chainId c s = (r, s') → callLogger_ s' = Some m' →
  (∀ a x, m' !! a = Some x → 0 ≤ x ≤ umax 256) ∧
  ∀ l, NoDup l → (∀ a, is_Some (m' !! a) → a ∈ l) → total (balanceAt m') l = total (λ a, if decide (is_Some (m' !! a)) then bal a else 0) l.
Proof.
  intros Hc Hm Hb He Hm'.
  assert (Hk := exec_keeps bal chainOwner chainId c _ conserving_closed Hc s).
  rewrite He in Hk. cbn in Hk. specialize (Hk ltac:(intros ? E; congruence) _ Hm').
  split.
  - intros a x Hx. split; [by eapply Hk|]. assert (Hbd := balanced_bound 0 m' a SUPPLY Hk).
    unfold effective in Hbd. rewrite Hx in Hbd. cbn in Hbd. lia.
  - intros l Hnd Hl. destruct Hk as [_ Hk]. specialize (Hk l Hnd Hl). rewrite Z.sub_0_r in Hk.
    set (rest := λ a, if decide (is_Some (m' !! a)) then 0 else bal a).
    assert (Hsum : ∀ f g h, (∀ a, f a = g a + h a) → ∀ l, total f l = total g l + total h l).
    { intros f g h Hf l'. induction l' as [|a l' IH]; cbn; [done|]. rewrite IH, Hf. lia. }
    rewrite (Hsum (effective m') (balanceAt m') rest) in Hk.
    2:{ intros a. unfold effective, balanceAt, rest. destruct (m' !! a); cbn; [rewrite decide_True by eauto|rewrite decide_False by (by intros [? ?])]; lia. }
    rewrite (Hsum bal (λ a, if decide (is_Some (m' !! a)) then bal a else 0) rest) in Hk.
    2:{ intros a. unfold rest. case_decide; lia. }
    lia.
Qed.
End conservation.

Section calls.
Context {St : Type} {PS : PayableState St}.
Variables (chainOwner : list Z) (chainId : Z).
Hypothesis TYPES : honest_types.

(** What the contract's code does in a call, before anything is committed or undone. *)
Definition code_run (tx : TxBlock) (s0 : CM) (st0 : St) : result unit * CM :=
  let ci := txToCallInfo tx in
  let start a := setContractVars a (from_ tx) (from_ tx) (value_ tx) (logger_new s0) in
  if decide (to_ tx = ContractManager_address) then cm_ethCall chainOwner chainId ci (start ContractManager_address)
  else if decide (to_ tx = rdPoS_address) then rdPoS_ethCall ci (start rdPoS_address)
  else match contracts_ s0 !! to_ tx with
       | None => (Throw (failed "callContract(void): Contract does not exist"), logger_new s0)
       | Some c => dynamic_ethCall (balance_of st0) chainOwner chainId c ci (start (to_ tx))
       end.

(** Whether the balances of the call are written to the state. *)
Definition pays_out (tx : TxBlock) (s0 : CM) : bool :=
  negb (bool_decide (to_ tx ∈ ProtocolContractAddresses)) && isPayable s0 (txToCallInfo tx).

(** Everything the code left in [s2] is committed in [s] and [st]. *)
Definition committed (tx : TxBlock) (txIndex : Z) (s0 : CM) (st0 : St) (s2 s : CM) (st : St) : Prop :=
  contracts_ s0 ⊆ contracts_ s ∧ contracts_ s = contracts_ s2 ∧
  sv_value <$> vars (call_ s) = sv_get <$> vars (call_ s2) ∧
  events_ (eventManager_ s) = events_ (eventManager_ s0) ++
    imap (λ i e, setStateData e (Z.of_nat i) (hash_ tx) txIndex (g_blockHash_ (globals_ s2)) (g_blockHeight_ (globals_ s2)))
      (by_block (tempEvents_ (eventManager_ s2))) ∧
  if pays_out tx s0 then ∃ balances, callLogger_ s2 = Some balances ∧ processContractPayable balances st0 = (Ok tt, st)
  else st = st0.

(** The outcome of a call that began in the quiet state [s0] with the state [st0]. *)
Definition call_outcome (tx : TxBlock) (txIndex : Z) (s0 : CM) (st0 : St) (r : result unit) (s : CM) (st : St) : Prop :=
  quiet s ∧ callLogger_ s = None ∧
  match r with
  | Throw _ => is_ok (code_run tx s0 st0).1 = false ∧ same_world s0 s ∧ st = st0
  | Ok _ => ∃ s2, code_run tx s0 st0 = (Ok tt, s2) ∧ committed tx txIndex s0 st0 s2 s st
  end.

Lemma outcome_failed tx txIndex s0 st0 e s :
  quiet s0 → in_call s0 s → is_ok (code_run tx s0 st0).1 = false →
  call_outcome tx txIndex s0 st0 (Throw e) (call_failed s) st0.
Proof. intros Hq Hs Hr. destruct (call_failed_world _ _ Hq Hs) as (? & ? & ?). by split_and!. Qed.

Lemma outcome_succeeded tx txIndex s0 st0 s st :
  quiet s0 → in_call s0 s → code_run tx s0 st0 = (Ok tt, s) →
  (if pays_out tx s0 then ∃ balances, callLogger_ s = Some balances ∧ processContractPayable balances st0 = (Ok tt, st)
   else st = st0) →
  call_outcome tx txIndex s0 st0 (Ok tt) (call_succeeded (hash_ tx) txIndex s) st.
Proof.
  intros Hq Hs Hrun Hpay. destruct (call_succeeded_world _ _ (hash_ tx) txIndex Hq Hs) as (? & ? & Hc & _).
  destruct (call_succeeded_commits _ _ (hash_ tx) txIndex Hq Hs) as [Hv He]. split_and!; try done.
  exists s. split; [done|]. split_and!; try done. rewrite Hc. apply map_subseteq_spec. intros a c Ha.
  destruct (decide (a ∈ recentContracts_ s)) as [Hin|Hin].
  - by rewrite (call_recent _ _ Hs) in Ha.
  - by rewrite (call_contracts _ _ Hs).
Qed.

(** The two branches of the contracts that are not dynamic. *)
Lemma protocol_call_outcome tx txIndex s0 st0 (m : M CM unit) a r s st :
  quiet s0 → keeps (in_call s0) m → a ∈ ProtocolContractAddresses → to_ tx = a →
  code_run tx s0 st0 = m (setContractVars a (from_ tx) (from_ tx) (value_ tx) (logger_new s0)) →
  (on_manager (λ _, mmodify (setContractVars a (from_ tx) (from_ tx) (value_ tx))) ;;;
   on_manager (λ _, guarded m) ;;;
   on_manager (λ _, mmodify (call_succeeded (hash_ tx) txIndex))) (logger_new s0, st0) = (r, (s, st)) →
  r ≠ Throw Undefined → call_outcome tx txIndex s0 st0 r s st.
Proof.
  intros Hq Hm Ha Hto Hcr. unfold mbind', on_manager. cbn [mmodify fst snd].
  assert (Hs0 := in_call_locals s0 a (from_ tx) (from_ tx) (value_ tx) _ (in_call_new _ Hq)). cbn [mmodify snd] in Hs0.
  destruct (guarded m _) as [r1 s1] eqn:Hg. intros Hrun Hr.
  assert (Hr1 : r1 ≠ Throw Undefined) by (intros ->; injection Hrun as <- _ _; done).
  destruct (guarded_cases _ _ _ _ _ Hm Hs0 Hg Hr1) as [(-> & Hs1 & Em)|(e & s2 & -> & Hs2 & -> & Em)]; injection Hrun as <- <- <-.
  - apply outcome_succeeded; [done|done|by rewrite Hcr|]. unfold pays_out. by rewrite bool_decide_true by by subst a.
  - apply outcome_failed; [done|done|by rewrite Hcr].
Qed.

(** The outcome of [callContract], used by the property below and by State. *)
Lemma callContract_outcome tx txIndex s0 st0 r s st :
  quiet s0 →
  (isPayable s0 (txToCallInfo tx) = true → ∀ m, ∃ st', processContractPayable m st0 = (Ok tt, st')) →
  callContract chainOwner chainId tx txIndex (s0, st0) = (r, (s, st)) → r ≠ Throw Undefined →
  call_outcome tx txIndex s0 st0 r s st.
Proof.
  intros Hq Hpay. unfold callContract. unfold mbind' at 1. unfold on_manager at 1. cbn [mmodify fst snd].
  change (ci_from (txToCallInfo tx)) with (from_ tx). change (ci_to (txToCallInfo tx)) with (to_ tx).
  change (ci_value (txToCallInfo tx)) with (value_ tx).
  case_decide as Hcm; [|case_decide as Hrd].
  - apply protocol_call_outcome; [done| |by right; left|done|unfold code_run; by rewrite decide_True].
    by apply (cm_ethCall_keeps (λ _, 0)), in_call_closed.
  - apply protocol_call_outcome; [done|apply keeps_throw|by left|done|unfold code_run; by rewrite decide_False, decide_True].
  - unfold mbind' at 1. cbn [mget fst snd].
    assert (Hc0 : contracts_ (logger_new s0) = contracts_ s0).
    { destruct Hq as [_ _ Hr _ _]. unfold logger_new, logger_reset. destruct (callLogger_ s0); cbn; [by rewrite Hr|done]. }
    assert (Hcr : code_run tx s0 st0 = match contracts_ s0 !! to_ tx with
       | None => (Throw (failed "callContract(void): Contract does not exist"), logger_new s0)
       | Some c => dynamic_ethCall (balance_of st0) chainOwner chainId c (txToCallInfo tx)
           (setContractVars (to_ tx) (from_ tx) (from_ tx) (value_ tx) (logger_new s0))
       end) by (unfold code_run; by rewrite !decide_False).
    assert (Hpo : pays_out tx s0 = match contracts_ s0 !! to_ tx with
       | None => false
       | Some c => isPayableFunction c (ci_functor (txToCallInfo tx))
       end).
    { unfold pays_out. rewrite bool_decide_false; [done|]. unfold ProtocolContractAddresses. rewrite !elem_of_cons, elem_of_nil. tauto. }
    rewrite Hc0. destruct (contracts_ s0 !! to_ tx) as [c|] eqn:Hto.
    + assert (Hhc := quiet_contracts _ Hq _ _ Hto). unfold mbind', on_manager. cbn [mmodify fst snd].
      assert (Hs0 := in_call_locals s0 (to_ tx) (from_ tx) (from_ tx) (value_ tx) _ (in_call_new _ Hq)).
      cbn [mmodify snd] in Hs0.
      destruct (guarded (dynamic_ethCall _ _ _ _ _) _) as [r1 s1] eqn:Hg. intros Hrun Hr.
      assert (Hr1 : r1 ≠ Throw Undefined) by (intros ->; injection Hrun as <- _ _; done).
      assert (Hk := dynamic_ethCall_keeps (balance_of st0) chainOwner chainId TYPES s0 c (txToCallInfo tx) Hhc).
      destruct (guarded_cases _ _ _ _ _ Hk Hs0 Hg Hr1) as [(-> & Hs1 & Em)|(e & s2 & -> & Hs2 & -> & Em)];
        [rewrite Em in Hcr|injection Hrun as <- <- <-; apply outcome_failed; [done|done|by rewrite Hcr]].
      destruct (isPayableFunction c (ci_functor (txToCallInfo tx))) eqn:Hp.
      * unfold mget in Hrun. cbn [fst snd] in Hrun. destruct (call_logger _ _ Hs1) as [bal Hbal].
        rewrite Hbal in Hrun. unfold on_state in Hrun. cbn [fst snd] in Hrun.
        destruct (Hpay ltac:(unfold isPayable; change (ci_to (txToCallInfo tx)) with (to_ tx); by rewrite Hto) bal) as [st' Hst'].
        rewrite Hst' in Hrun. injection Hrun as <- <- <-. apply outcome_succeeded; [done..|]. rewrite Hpo. eauto.
      * injection Hrun as <- <- <-. apply outcome_succeeded; [done..|]. by rewrite Hpo.
    + unfold mbind', on_manager. cbn [mmodify mthrow fst snd]. intros [= <- <- <-] _.
      apply outcome_failed; [done|by apply in_call_new|by rewrite Hcr].
Qed.

(** What a call pays out are the books of its logger: they have every property the interface keeps. *)
Lemma callContract_books (I : CM → Prop) tx txIndex s0 st0 r s st :
  quiet s0 → exec_closed (balance_of st0) chainOwner chainId I →
  I (setContractVars (to_ tx) (from_ tx) (from_ tx) (value_ tx) (logger_new s0)) →
  callContract chainOwner chainId tx txIndex (s0, st0) = (r, (s, st)) →
  st = st0 ∨ ∃ m s2 r', I s2 ∧ callLogger_ s2 = Some m ∧ isPayable s0 (txToCallInfo tx) = true ∧
    processContractPayable m st0 = (r', st) ∧ (r = Ok tt → r' = Ok tt).
Proof.
  intros Hq HI Hs1. unfold callContract. unfold mbind' at 1. unfold on_manager at 1. cbn [mmodify fst snd].
  change (ci_from (txToCallInfo tx)) with (from_ tx). change (ci_to (txToCallInfo tx)) with (to_ tx).
  change (ci_value (txToCallInfo tx)) with (value_ tx).
  assert (Hpro : ∀ (m : M CM unit) a s1,
    (on_manager (λ _, mmodify (setContractVars a (from_ tx) (from_ tx) (value_ tx))) ;;;
     on_manager (λ _, guarded m) ;;;
     on_manager (λ _, mmodify (call_succeeded (hash_ tx) txIndex))) (s1, st0) = (r, (s, st)) → st = st0).
  { intros m a s1. unfold mbind', on_manager. cbn [mmodify fst snd]. destruct (guarded m _) as [[[]|e] s2];
      by intros [= _ _ <-]. }
  case_decide as Hcm; [intros H; left; by eapply Hpro|]. case_decide as Hrd; [intros H; left; by eapply Hpro|].
  unfold mbind' at 1. cbn [mget fst snd].
  assert (Hc0 : contracts_ (logger_new s0) = contracts_ s0).
  { destruct Hq as [_ _ Hr _ _]. unfold logger_new, logger_reset. destruct (callLogger_ s0); cbn; [by rewrite Hr|done]. }
  rewrite Hc0. destruct (contracts_ s0 !! to_ tx) as [c|] eqn:Hto;
    [|unfold mbind', on_manager; cbn; intros [= _ _ <-]; by left].
  assert (Hhc := quiet_contracts _ Hq _ _ Hto). unfold mbind', on_manager. cbn [mmodify fst snd].
  set (s1 := setContractVars _ _ _ _ _) in *.
  assert (Hk := dynamic_ethCall_closed (balance_of st0) chainOwner chainId _ c (txToCallInfo tx) HI Hhc s1 Hs1).
  unfold guarded, mtry. destruct (dynamic_ethCall _ _ _ _ _ s1) as [[[]|e] s2]; cbn in Hk;
    [|destruct e; intros [= _ _ <-]; by left].
  cbn [mret']. destruct (isPayableFunction c (ci_functor (txToCallInfo tx))) eqn:Hp; [|intros [= _ _ <-]; by left].
  unfold mget. cbn [fst snd]. destruct (callLogger_ s2) as [m|] eqn:Em; [|intros [= _ _ <-]; by left].
  unfold on_state. cbn [fst snd]. destruct (processContractPayable m st0) as [r1 st1] eqn:Est. intros Hrun.
  right. exists m, s2, r1. assert (st = st1 ∧ (r = Ok tt → r1 = Ok tt)) as [-> Hr].
  { destruct r1 as [[]|e]; injection Hrun as <- _ <-; done. }
  split_and!; try done. unfold isPayable. change (ci_to (txToCallInfo tx)) with (to_ tx). by rewrite Hto.
Qed.

Lemma callContract_pays tx txIndex s0 st0 s st :
  quiet s0 → supply_ok (balance_of st0) →
  callContract chainOwner chainId tx txIndex (s0, st0) = (Ok tt, (s, st)) →
  st = st0 ∨ ∃ m, isPayable s0 (txToCallInfo tx) = true ∧ balanced (balance_of st0) 0 m ∧
    processContractPayable m st0 = (Ok tt, st).
Proof.
  intros Hq Hsup Hrun. eapply (callContract_books (conserving (balance_of st0))) in Hrun
    as [->|(m & s2 & r' & HI & Hm & Hp & Hpay & Hr)]; [by left| |done|by apply conserving_closed|].
  - right. exists m. split; [done|]. split; [by apply HI|]. by rewrite Hr in Hpay.
  - intros m [= <-]. apply balanced_empty.
Qed.

(** Every balance in the books is a [uint256_t]. *)
Definition books_typed (s : CM) : Prop := ∀ m a x, callLogger_ s = Some m → m !! a = Some x → in_uint 256 x.

Lemma books_typed_insert (s : CM) m a x :
  callLogger_ s = Some m → books_typed s → in_uint 256 x → books_typed (with_logger s (Some (<[a := x]> m))).
Proof.
  intros Hm Hs Hx m' b y [= <-]. destruct (decide (a = b)) as [->|Hne];
    [rewrite lookup_insert_eq; by intros [= <-]|rewrite lookup_insert_ne by done; by eapply Hs].
Qed.

Lemma books_balanceAt (s : CM) m a : callLogger_ s = Some m → books_typed s → in_uint 256 (balanceAt m a).
Proof. intros Hm Hs. unfold balanceAt. destruct (m !! a) eqn:E; [by eapply Hs|done]. Qed.

Lemma books_same (s s' : CM) : callLogger_ s' = callLogger_ s → books_typed s → books_typed s'.
Proof. intros He Hs m a x. rewrite He. apply Hs. Qed.

Lemma books_closed (bal : list Z → Z) : (∀ a, in_uint 256 (bal a)) → exec_closed bal chainOwner chainId books_typed.
Proof.
  intros Hbal.
  assert (Hpop : ∀ a, keeps books_typed (populateBalance bal a)).
  { intros a. apply keeps_with_balances. intros m s Hm Hs. destruct (m !! a); [done|]. by apply books_typed_insert. }
  assert (Hadd : ∀ a x, 0 ≤ x → keeps books_typed (addBalance a x)).
  { intros a x Hx. apply keeps_with_balances. intros m s Hm Hs. destruct (checked_add _ _) as [r y] eqn:E.
    apply books_typed_insert; try done. eapply checked_add_range; [|exact Hx|exact E]. by eapply books_balanceAt. }
  assert (Hsub : ∀ a x, 0 ≤ x → keeps books_typed (subBalance a x)).
  { intros a x Hx. apply keeps_with_balances. intros m s Hm Hs. destruct (checked_sub _ _) as [r y] eqn:E.
    apply books_typed_insert; try done. eapply checked_sub_range; [|exact Hx|exact E]. by eapply books_balanceAt. }
  constructor.
  - intros A i op _ s Hs. unfold use_variable. destruct (run_on i op (call_ s)) as [r c].
    destruct (callLogger_ s) eqn:E; [by apply (books_same s)|]. case_decide; [by apply (books_same s)|done].
  - intros c o f v s Hs. by apply (books_same s).
  - intros s Hs. unfold random_next. destruct (getNext _). by apply (books_same s).
  - done.
  - intros from to amount Ha. unfold sendTokens. do 2 (apply keeps_bind; [done|]; intros _).
    apply keeps_with_balances. intros m s _ Hs. destruct (_ <? _); [done|].
    revert s Hs. change (keeps books_typed (subBalance from amount ;;; addBalance to amount)).
    apply keeps_bind; auto.
  - intros e. apply keeps_with_balances. intros m s _ Hs. by apply (books_same s).
  - intros t ci functor _ s Hs. destruct (createNewContract_cases chainOwner chainId t ci s)
      as [[_ ->]|(args & new & c & _ & _ & ->)]; [done|]. by apply (books_same s).
Qed.


(** The creation of a contract by a contract always throws: the manager compares the caller, the creating
    contract, with the owner of the chain. Only the manager's locals have changed. *)
Theorem contract_cannot_create txOrigin from value functor encoder (s : CM) :
  from ≠ chainOwner →
  ∃ e, (callCreateContract chainOwner chainId txOrigin from value functor encoder s).1 = Throw e ∧
    contracts_ (callCreateContract chainOwner chainId txOrigin from value functor encoder s).2 = contracts_ s.
Proof.
  intros Hne. unfold callCreateContract, with_balances. destruct (callLogger_ s); [|by eexists].
  unfold cm_ethCall, mbind', mmodify, mgets, mthrow_if. cbn [ci_from]. rewrite bool_decide_true by done. by eexists.
Qed.
End calls.
End keeps.

(** ** A node with one contract *)

Definition toy_owner : list Z := zero_bytes 19 ++ [7].
Definition toy_contract_address : list Z := zero_bytes 19 ++ [9].
Definition toy_functor : list Z := [1; 2; 3; 4].

(** The contract's function writes a variable, sends a token and throws when the first byte of its
    arguments is not zero. *)
Definition toy_code (ci : ethCallInfo) : code (V := SafeCell Z) unit :=
  CVar 0 (cell_update (λ _, Ok 5)) (λ _,
  CSendTokens toy_contract_address (ci_from ci) 1 (λ _,
  if decide (ci_data ci = []) then CRet tt else CThrow (failed "toy"))).

Definition toy_contract : DynamicContract (V := SafeCell Z) :=
  mkContract "Toy" 0 ∅ {[ toy_functor := toy_code ]} ∅.

Definition toy_types : ContractTypes (V := SafeCell Z) := {| createContractFuncs_ := ∅ |}.

Definition toy_cell : SafeCell Z := mkCell (mkSafeBase true false true) 3 None.

Definition toy_manager : ContractManager (V := SafeCell Z) :=
  mkManager {[ toy_contract_address := toy_contract ]} ∅ (call_start [toy_cell]) None [] (mkEventManager [] [])
    (mkGlobals zero_address zero_hash 1 2 zero_hash).

(** A state that holds ten tokens for every address and pays nothing out. *)
#[local] Instance toy_state : PayableState unit := {|
  balance_of _ _ := 10;
  processContractPayable _ := mret' tt
|}.

Definition toy_tx (args : list Z) : TxBlock :=
  mkTxBlock toy_contract_address toy_owner (toy_functor ++ args) 8080 0 0 1 1 21000 0 0 0 (zero_bytes 32).

Lemma toy_code_honest ci : honest_code (toy_code ci).
Proof.
  split; [apply honest_update|]. intros r. split; [done|]. intros r'. cbn. by destruct (decide _).
Qed.

Lemma toy_types_honest : @honest_types _ _ cell_SafeVariable toy_types.
Proof. intros f t args creator derived chainId n vs c Hf. cbn in Hf. by rewrite lookup_empty in Hf. Qed.

Lemma toy_manager_quiet : quiet toy_manager.
Proof.
  constructor; try done.
  - by repeat constructor.
  - intros a c Hc. cbn in Hc. apply lookup_singleton_Some in Hc as [<- <-]. split_and!; intros f g ci Hf;
      cbn in Hf; try by rewrite lookup_empty in Hf.
    apply lookup_singleton_Some in Hf as [_ <-]. apply toy_code_honest.
Qed.

Definition toy_call_contract (args : list Z) :=
  @callContract (SafeCell Z) Z cell_SafeVariable boost_ref toy_hash residue_ref toy_types unit toy_state
    toy_owner 8080 (toy_tx args) 0 (toy_manager, tt).

Abbreviation toy_outcome := (@call_outcome (SafeCell Z) Z cell_SafeVariable boost_ref toy_hash residue_ref toy_types
  unit toy_state toy_owner 8080).


(** Ten tokens, held by the contract. *)
Definition toy_balances (a : list Z) : Z := if decide (a = toy_contract_address) then 10 else 0.

Lemma toy_supply : supply_ok toy_balances.
Proof.
  split; [intros a; unfold toy_balances; by case_decide|].
  assert (Hz : ∀ l, toy_contract_address ∉ l → total toy_balances l = 0).
  { induction l as [|a l IH]; intros Hn; [done|]. rewrite not_elem_of_cons in Hn. destruct Hn as [Ha Hl]. cbn.
    unfold toy_balances at 1. rewrite decide_False by congruence. by rewrite IH. }
  intros l Hnd. transitivity 10; [|by vm_compute].
  induction Hnd as [|a l Ha _ IH]; cbn; [done|]. unfold toy_balances at 1. case_decide as E; [|lia].
  subst. by rewrite Hz.
Qed.

Definition toy_exec : result unit * ContractManager (V := SafeCell Z) :=
  @exec (SafeCell Z) Z cell_SafeVariable boost_ref toy_hash residue_ref toy_types toy_balances toy_owner 8080
    unit (toy_code (txToCallInfo (toy_tx []))) (logger_new toy_manager).

Lemma contract_code_conserves_witness :
  let m' := {[ toy_contract_address := 9; toy_owner := 1 ]} : gmap (list Z) Z in
  callLogger_ toy_exec.2 = Some m' ∧
  (∀ a x, m' !! a = Some x → 0 ≤ x ≤ umax 256) ∧
  ∀ l, NoDup l → (∀ a, is_Some (m' !! a) → a ∈ l) →
    total (balanceAt m') l = total (λ a, if decide (is_Some (m' !! a)) then toy_balances a else 0) l.
Proof.
  split; [by vm_compute|].
  apply (@contract_code_conserves (SafeCell Z) Z cell_SafeVariable boost_ref toy_hash residue_ref toy_types
    toy_balances toy_owner 8080 toy_supply unit (toy_code (txToCallInfo (toy_tx []))) (logger_new toy_manager) ∅
    toy_exec.2 {[ toy_contract_address := 9; toy_owner := 1 ]} toy_exec.1).
  - apply toy_code_honest.
  - done.
  - apply balanced_empty.
  - exact (surjective_pairing toy_exec).
  - by vm_compute.
Defined.

Lemma contract_cannot_create_witness :
  toy_contract_address ≠ toy_owner ∧
  ∃ e, (@callCreateContract (SafeCell Z) boost_ref toy_hash toy_types toy_owner 8080 toy_owner
          toy_contract_address 0 toy_functor [] (logger_new toy_manager)).1 = Throw e ∧
    contracts_ (@callCreateContract (SafeCell Z) boost_ref toy_hash toy_types toy_owner 8080 toy_owner
          toy_contract_address 0 toy_functor [] (logger_new toy_manager)).2 = contracts_ (logger_new toy_manager).
Proof.
  split; [done|]. by apply (@contract_cannot_create (SafeCell Z) boost_ref toy_hash toy_types toy_owner 8080).
Defined.
