(* ===== verification/ContractStore.v ===== *)
(** * ContractStore: the contracts across a restart

    [BaseContract] (src/contract/contract.h) keeps a contract's name, creator and chain in the database;
    the destructor of [ContractManager] (src/contract/contractmanager.cpp) saves the list of contracts, and
    those of its members the events and the variables of each contract; its constructor loads them.  The
    classes compiled into the node, with their loading constructors and destructors, are the class
    [ContractClasses]. *)

From stdpp Require Import sorting.
From S2P Require Import Prelude Bytes SizedInts Hashing SafeBase Tx Randomness Abi Hex DB Event EvmHost ContractManager.

Definition pfx_contracts : list Z := [0; 6].
Definition pfx_contractManager : list Z := [0; 7].

(** [Utils::bytesToString]. *)
Fixpoint bytesToString (b : list Z) : string :=
  match b with [] => EmptyString | x :: b => String (Ascii.ascii_of_nat (Z.to_nat x)) (bytesToString b) end.

Lemma bytesToString_bytes s : bytesToString (string_bytes s) = s.
Proof.
  induction s as [|c s IH]; [done|]. cbn. rewrite Nat2Z.id, Ascii.ascii_nat_embedding. f_equal. exact IH.
Qed.

(** [getDBPrefix] and [getNewPrefix] of [BaseContract]. *)
Definition getDBPrefix (address : list Z) : list Z := pfx_contracts ++ address.
Definition getNewPrefix (address : list Z) (newPrefix : string) : list Z := getDBPrefix address ++ string_bytes newPrefix.

Record BaseContract := mkBase {
  base_name : string;
  base_address : list Z;
  base_creator : list Z;
  base_chainId : Z
}.

Section base.
Context {DBI : RocksDB}.

(** What the constructor from scratch puts in the database. *)
Definition BaseContract_put (b : BaseContract) (d : rdb) : rdb :=
  let pfx := getDBPrefix (base_address b) in
  let d := put d (string_bytes "contractName_") (string_bytes (base_name b)) pfx in
  let d := put d (string_bytes "contractAddress_") (base_address b) pfx in
  let d := put d (string_bytes "contractCreator_") (base_creator b) pfx in
  put d (string_bytes "contractChainId_") (uint64ToBytes (base_chainId b)) pfx.

(** The constructor from load. *)
Definition BaseContract_load (address : list Z) (d : rdb) : result BaseContract :=
  let pfx := getDBPrefix address in
  let name := bytesToString (get d (string_bytes "contractName_") pfx) in
  creator ← FixedBytes_of 20 (get d (string_bytes "contractCreator_") pfx);
  chainId ← bytesToUint64 (get d (string_bytes "contractChainId_") pfx);
  Ok (mkBase name address creator chainId).

(** The entries of [b] are in the database. *)
Definition base_saved (b : BaseContract) (d : rdb) : Prop :=
  let pfx := getDBPrefix (base_address b) in
  get d (string_bytes "contractName_") pfx = string_bytes (base_name b) ∧
  get d (string_bytes "contractCreator_") pfx = base_creator b ∧
  get d (string_bytes "contractChainId_") pfx = uint64ToBytes (base_chainId b).

Definition base_typed (b : BaseContract) : Prop :=
  length (base_address b) = 20%nat ∧ length (base_creator b) = 20%nat ∧ in_uint 64 (base_chainId b).

Lemma base_put_saved b d : base_saved b (BaseContract_put b d).
Proof.
  unfold base_saved, BaseContract_put. cbv zeta. rewrite !get_spec, !put_map.
  split_and!; repeat (rewrite lookup_insert_ne by (intros ?%app_inv_head; discriminate)); by rewrite lookup_insert_eq.
Qed.

Lemma base_saved_load b d : base_typed b → base_saved b d → BaseContract_load (base_address b) d = Ok b.
Proof.
  intros (_ & Hc & Hi) (H1 & H2 & H3). unfold BaseContract_load. cbv zeta. rewrite H1, H2, H3. unfold FixedBytes_of. rewrite decide_True, result_bind_Ok by done.
  rewrite bytesToUint64_roundtrip, result_bind_Ok, bytesToString_bytes by done. by destruct b.
Qed.

Lemma base_saved_agree b d d' : agree (getDBPrefix (base_address b)) d d' → base_saved b d → base_saved b d'.
Proof. intros Ha (H1 & H2 & H3). unfold base_saved. by rewrite <- !(get_agree _ _ _ _ Ha). Qed.
End base.

(** Distinct contracts, and the other components, keep apart in the database. *)
Lemma contract_prefix_inj a b k k' :
  length a = 20%nat → length b = 20%nat → getDBPrefix a ++ k = getDBPrefix b ++ k' → a = b.
Proof.
  unfold getDBPrefix. intros Ha Hb. rewrite <- !app_assoc. intros H%app_inv_head. apply app_inj_1 in H as [-> _]; [done|congruence].
Qed.

Section store.
Context {V T : Type} {SV : SafeVariable V T} {DBI : RocksDB} {JS : Json} {HO : HashOrder}.
Implicit Types (s : ContractManager (V := V)) (c : DynamicContract (V := V)) (d : rdb).

(** A class of [ContractTypes]: the name [getRealTypeName] gives it, and its constructor from load, after
    the base: the object's variables, which follow those there are, and its functions. *)
Record ContractClass := mkClass {
  cc_name : string;
  cc_load : BaseContract → rdb → nat → result (list V * DynamicContract (V := V))
}.

Class ContractClasses := {
  classes_ : list ContractClass;
  (* the virtual destructor: what the contract at an address saves of its variables *)
  destroy_contract : list Z → DynamicContract (V := V) → list V → rdb → rdb
}.

Context {CC : ContractClasses}.

(** ** The constructor *)

Definition loadFromDBT (contract : Entry) (address : list Z) (d : rdb) (cc : ContractClass) s : result (bool * ContractManager (V := V)) :=
  if bool_decide (bytesToString contract.2 = cc_name cc) then
    b ← BaseContract_load address d;
    '(new, obj) ← cc_load cc b d (length (vars (call_ s)));
    let s := with_call s (mkCall (vars (call_ s) ++ new) (usedVars_ (call_ s))) in
    Ok (true, with_contracts s (insert_new address obj (contracts_ s)) (recentContracts_ s))
  else Ok (false, s).

(** The fold over [||]. *)
Fixpoint loadFromDB (contract : Entry) (address : list Z) (d : rdb) (ccs : list ContractClass) s : result (bool * ContractManager (V := V)) :=
  match ccs with
  | [] => Ok (false, s)
  | cc :: ccs =>
      '(found, s) ← loadFromDBT contract address d cc s;
      if found : bool then Ok (true, s) else loadFromDB contract address d ccs s
  end.

Definition load_contract (d : rdb) s (contract : Entry) : result (ContractManager (V := V)) :=
  address ← FixedBytes_of 20 contract.1;
  '(found, s) ← loadFromDB contract address d classes_ s;
  _ ← throw_if (negb found) (DynamicException "Unknown contract: ");
  Ok s.

(** The globals are static members, which another manager may have set before. *)
Definition ContractManager_load (chainOwner : list Z) (g : ContractGlobals) (d : rdb) : result (ContractManager (V := V) * rdb) :=
  let d := BaseContract_put (mkBase "ContractManager" ContractManager_address chainOwner 0) d in
  em ← EventManager_load d;
  let s := logger_new (mkManager ∅ ∅ (mkCall [] []) None [] em g) in
  s ← foldM (load_contract d) s (getBatch d pfx_contractManager []);
  Ok (s, d).

(** ** The destructor, then those of its members, in the reverse order of their declarations *)

Definition ContractManager_save s (d : rdb) : result rdb :=
  let contractsBatch := foldl (λ b p, push_back b p.1 (string_bytes (contractName_ p.2)) pfx_contractManager)
    DBBatch_new (in_order (contracts_ s)) in
  let d := putBatch d contractsBatch in
  let s := logger_reset false s in
  d ← EventManager_save (eventManager_ s) d;
  Ok (foldl (λ d p, destroy_contract p.1 p.2 (vars (call_ s)) d) d (in_order (contracts_ s))).

(** ** What a class must do *)

Definition find_class (name : string) : option ContractClass := List.find (λ cc, bool_decide (name = cc_name cc)) classes_.

(** The destructor of [c] writes under its own prefix only, and keeps the base's entries. *)
Definition writes_own (a : list Z) c (vs : list V) (d0 : rdb) : Prop :=
  ∀ d, agree (getDBPrefix a) d d0 → ∀ k, (∀ r, k ≠ getDBPrefix a ++ r) → rdb_map (destroy_contract a c vs d) !! k = rdb_map d !! k.

(** What the class loads after the destructor of [c] reads as [stored], whatever lies under other prefixes. *)
Definition persistent (b : BaseContract) (stored : list T) c (vs : list V) (d0 : rdb) : Prop :=
  writes_own (base_address b) c vs d0 ∧ contractName_ c = base_name b ∧
  ∃ cc, find_class (base_name b) = Some cc ∧
    ∀ d, agree (getDBPrefix (base_address b)) d d0 →
      base_saved b (destroy_contract (base_address b) c vs d) ∧
      ∀ d' n, agree (getDBPrefix (base_address b)) (destroy_contract (base_address b) c vs d) d' →
        ∃ new c', cc_load cc b d' n = Ok (new, c') ∧ contractName_ c' = base_name b ∧ first_var_ c' = n ∧ sv_get <$> new = stored.

Lemma agree_trans pfx d1 d2 d3 : agree pfx d1 d2 → agree pfx d2 d3 → agree pfx d1 d3.
Proof. intros H1 H2 k. by rewrite H1. Qed.

Lemma destroy_loop (vs : list V) (l : list (list Z * DynamicContract (V := V))) d :
  NoDup l.*1 → Forall (λ p, length p.1 = 20%nat ∧ writes_own p.1 p.2 vs d) l →
  let D := foldl (λ d p, destroy_contract p.1 p.2 vs d) d l in
  (∀ k, (∀ p r, p ∈ l → k ≠ getDBPrefix p.1 ++ r) → rdb_map D !! k = rdb_map d !! k) ∧
  ∀ p, p ∈ l → ∃ d1, agree (getDBPrefix p.1) d1 d ∧ agree (getDBPrefix p.1) (destroy_contract p.1 p.2 vs d1) D.
Proof.
  revert d. induction l as [|p l IH]; intros d Hnd Hl; cbn [foldl].
  { split; [done|]. by intros p ?%not_elem_of_nil. }
  rewrite fmap_cons in Hnd. apply NoDup_cons in Hnd as [Hp Hnd]. apply Forall_cons in Hl as [[Hlen Hw] Hl].
  set (d2 := destroy_contract p.1 p.2 vs d).
  assert (Hout : ∀ k, (∀ r, k ≠ getDBPrefix p.1 ++ r) → rdb_map d2 !! k = rdb_map d !! k) by by apply Hw.
  assert (Hag : ∀ q, q ∈ l → agree (getDBPrefix q.1) d2 d).
  { intros q Hq k. apply Hout. intros r Hr. rewrite Forall_forall in Hl. destruct (Hl _ Hq) as [Hlq _].
    apply contract_prefix_inj in Hr; [|done..]. apply Hp. rewrite <- Hr. by apply list_elem_of_fmap_2. }
  destruct (IH d2 Hnd) as [H1 H2].
  { apply Forall_forall. intros q Hq. rewrite Forall_forall in Hl. destruct (Hl _ Hq) as [Hlq Hwq]. split; [done|].
    intros d1 Ha. apply Hwq. eapply agree_trans; [exact Ha|by apply Hag]. }
  split.
  - intros k Hk. rewrite H1 by (intros q r Hq; apply Hk; by right). apply Hout. intros r. apply Hk. left.
  - intros q [->|Hq]%elem_of_cons.
    + exists d. split; [done|]. intros k. symmetry. apply H1. intros q r Hq Hk. apply Hp. rewrite Forall_forall in Hl.
      destruct (Hl _ Hq) as [Hlq _]. apply contract_prefix_inj in Hk; [|done..]. rewrite Hk. by apply list_elem_of_fmap_2.
    + destruct (H2 _ Hq) as (d1 & A1 & A2). exists d1. split; [|done]. eapply agree_trans; [exact A1|by apply Hag].
Qed.

(** ** The loop of the constructor *)

(** The entry [e] is of a contract that the database [d] holds. *)
Definition loads (d : rdb) (stored : list Z → list T) (e : Entry) : Prop :=
  length e.1 = 20%nat ∧ ∃ b cc, BaseContract_load e.1 d = Ok b ∧ find_class (bytesToString e.2) = Some cc ∧
    ∀ n, ∃ new c', cc_load cc b d n = Ok (new, c') ∧ contractName_ c' = bytesToString e.2 ∧ first_var_ c' = n ∧ sv_get <$> new = stored e.1.

(** The variables of a contract, among all. *)
Definition own_values (len : nat) c (vs : list V) : list T := take len (drop (first_var_ c) (sv_get <$> vs)).

Lemma load_one d stored e s :
  loads d stored e → contracts_ s !! e.1 = None →
  ∃ c' new, load_contract d s e = Ok (with_contracts (with_call s (mkCall (vars (call_ s) ++ new) (usedVars_ (call_ s))))
      (<[e.1 := c']> (contracts_ s)) (recentContracts_ s)) ∧
    contractName_ c' = bytesToString e.2 ∧ first_var_ c' = length (vars (call_ s)) ∧ sv_get <$> new = stored e.1.
Proof.
  intros (Hl & b & cc & Hb & Hcc & Hload) Hnone.
  destruct (Hload (length (vars (call_ s)))) as (new & c' & Hld & Hn & Hf & Hv). exists c', new. split; [|done].
  unfold load_contract, FixedBytes_of. rewrite decide_True, result_bind_Ok by done.
  unfold find_class in Hcc. revert Hcc. induction classes_ as [|x ccs IH]; [done|]. cbn [List.find loadFromDB]. unfold loadFromDBT.
  destruct (bool_decide _) eqn:E.
  - intros [= ->]. rewrite Hb, !result_bind_Ok, Hld, !result_bind_Ok. cbv beta iota zeta. cbn [negb throw_if]. rewrite result_bind_Ok.
    cbn [contracts_ with_call recentContracts_]. unfold insert_new. by rewrite Hnone.
  - intros Hf'. rewrite result_bind_Ok. by apply IH.
Qed.

Lemma load_contracts_loop d stored (l : list Entry) s :
  Forall (loads d stored) l → NoDup l.*1 → (∀ k, k ∈ l.*1 → contracts_ s !! k = None) →
  ∃ s', foldM (load_contract d) s l = Ok s' ∧ eventManager_ s' = eventManager_ s ∧
    (∃ ext, vars (call_ s') = vars (call_ s) ++ ext) ∧
    (∀ a, a ∉ l.*1 → contracts_ s' !! a = contracts_ s !! a) ∧
    ∀ e, e ∈ l → ∃ c', contracts_ s' !! e.1 = Some c' ∧ contractName_ c' = bytesToString e.2 ∧
      own_values (length (stored e.1)) c' (vars (call_ s')) = stored e.1.
Proof.
  intros Hl. revert s. induction Hl as [|e l He Hl IH]; intros s Hnd Hs.
  { exists s. split_and!; try done; [by exists []; rewrite app_nil_r|]. by intros e ?%not_elem_of_nil. }
  rewrite fmap_cons in *. apply NoDup_cons in Hnd as [Hne Hnd].
  destruct (load_one d stored e s He) as (c' & new & Hld & Hn & Hf & Hv); [apply Hs; by left|].
  set (s1 := with_contracts _ _ _) in Hld. destruct (IH s1 Hnd) as (s' & E & Hev & [ext Hext] & Hout & Hin).
  { intros k Hk. unfold s1. cbn [contracts_ with_contracts with_call]. rewrite lookup_insert_ne by (intros <-; done). apply Hs. by right. }
  exists s'. cbn [foldM]. rewrite Hld, result_bind_Ok. split; [done|]. split; [done|]. unfold s1 in Hext. cbn [call_ with_contracts with_call vars] in Hext.
  split; [exists (new ++ ext); by rewrite Hext, app_assoc|]. split.
  - intros a Ha. rewrite not_elem_of_cons in Ha. destruct Ha as [Ha1 Ha2]. rewrite Hout by done. unfold s1. cbn [contracts_ with_contracts with_call].
    by rewrite lookup_insert_ne.
  - intros e' [->|He']%elem_of_cons; [|by apply Hin]. exists c'. rewrite Hout by done. unfold s1. cbn [contracts_ with_contracts with_call].
    rewrite lookup_insert_eq. split; [done|]. split; [done|]. unfold own_values. rewrite Hext, Hf, !fmap_app, <- app_assoc.
    rewrite drop_app_length' by by rewrite length_fmap. rewrite Hv. by rewrite take_app_length.
Qed.

(** ** The restart *)

Definition contract_entries s : list Entry := map (λ p, (p.1, string_bytes (contractName_ p.2))) (in_order (contracts_ s)).

Lemma contract_entries_keys s : NoDup (contract_entries s).*1.
Proof. unfold contract_entries. rewrite <- list_fmap_compose. apply in_order_keys. Qed.

Lemma save_batch_entries s d :
  putBatch d (foldl (λ b p, push_back b p.1 (string_bytes (contractName_ p.2)) pfx_contractManager) DBBatch_new (in_order (contracts_ s)))
  = putBatch d (mkBatch (map (prefixed pfx_contractManager) (contract_entries s)) []).
Proof.
  rewrite (foldl_push_back fst (λ p, string_bytes (contractName_ p.2))). unfold contract_entries. by rewrite map_map.
Qed.

(** The list of contracts after the batch. *)
Lemma saved_entries s d :
  (∀ k, is_Some (rdb_map d !! (pfx_contractManager ++ k)) → is_Some (contracts_ s !! k)) →
  getBatch (putBatch d (mkBatch (map (prefixed pfx_contractManager) (contract_entries s)) [])) pfx_contractManager [] ≡ₚ contract_entries s.
Proof.
  intros Hd. apply putBatch_getBatch; [apply prefixed_keys, contract_entries_keys|apply contract_entries_keys|intros; apply prefixed_elem|].
  intros k [c Hc]%Hd. apply list_elem_of_fmap. exists (k, string_bytes (contractName_ c)). split; [done|].
  apply list_elem_of_fmap. exists (k, c). split; [done|]. by apply in_order_elem.
Qed.

Lemma logger_reset_quiet s : callLogger_ s = None → logger_reset false s = s.
Proof. intros H. unfold logger_reset. by rewrite H. Qed.

Lemma base_put_out b d k : (∀ r, k ≠ getDBPrefix (base_address b) ++ r) → rdb_map (BaseContract_put b d) !! k = rdb_map d !! k.
Proof. intros Hk. unfold BaseContract_put. cbv zeta. rewrite !put_map. by repeat (rewrite lookup_insert_ne by (intros H; by eapply Hk)). Qed.

(** The prefixes of the components and of the contracts. *)
Ltac apart := intros; unfold getDBPrefix, pfx_contracts, pfx_contractManager, pfx_events; rewrite <- ?app_assoc; discriminate.

(** What a restart needs of the contracts [s] holds, when the database is [d]. *)
Definition contracts_ready (base : list Z → BaseContract) (stored : list Z → list T) s (d : rdb) : Prop :=
  map_Forall (λ a c, base_typed (base a) ∧ base_address (base a) = a ∧ a ≠ ContractManager_address ∧
    persistent (base a) (stored a) c (vars (call_ s)) d) (contracts_ s).

Lemma contracts_ready_agree base stored s d d' :
  (∀ a, agree (getDBPrefix a) d' d) → contracts_ready base stored s d → contracts_ready base stored s d'.
Proof.
  intros Ha Hr a c Hc. destruct (Hr a c Hc) as (H1 & H2 & H3 & H4 & H5 & cc & H6 & H7). unfold persistent. split_and!; try done.
  - intros d1 Hd1. apply H4. eapply agree_trans; [exact Hd1|apply Ha].
  - exists cc. split; [done|]. intros d1 Hd1. apply H7. eapply agree_trans; [exact Hd1|apply Ha].
Qed.

(** After the destructors every contract loads. *)
Lemma destroyed_loads base stored s d0 d :
  contracts_ready base stored s d0 →
  (∀ a, a ≠ ContractManager_address → length a = 20%nat →
     agree (getDBPrefix a) (foldl (λ d p, destroy_contract p.1 p.2 (vars (call_ s)) d) d0 (in_order (contracts_ s))) d) →
  Forall (loads d stored) (contract_entries s).
Proof.
  intros Hr Ha. destruct (destroy_loop (vars (call_ s)) (in_order (contracts_ s)) d0) as [_ H]; [apply in_order_keys| |].
  { apply Forall_forall. intros [a c] Hin%in_order_elem. destruct (Hr a c Hin) as ((Hl & _) & E & _ & H4 & _). rewrite E in Hl, H4. by split. }
  apply Forall_forall. intros e Hin. apply list_elem_of_In, in_map_iff in Hin as ([a c] & <- & Hin%list_elem_of_In). cbn [fst snd].
  destruct (H _ Hin) as (d1 & A1 & A2). apply in_order_elem in Hin. cbn [fst snd] in *.
  destruct (Hr a c Hin) as (Ht & Hb & Hne & _ & Hn & cc & Hcc & Hp). rewrite Hb in *.
  assert (Hl : length a = 20%nat) by (by destruct Ht as (Hl & _); rewrite Hb in Hl).
  destruct (Hp d1 A1) as [Hs Hl']. assert (A3 := agree_trans _ _ _ _ A2 (Ha a Hne Hl)).
  split; [done|]. exists (base a), cc. cbn [fst snd]. rewrite bytesToString_bytes. split; [|split; [by rewrite Hn|]].
  - rewrite <- Hb at 1. apply base_saved_load; [done|]. eapply base_saved_agree; [|exact Hs]. by rewrite Hb.
  - intros n. rewrite Hn. by apply Hl'.
Qed.

(** What the destructors leave: the list, the events, and contracts that load, whatever is under the manager's prefix. *)
Lemma saved_manager base stored s d :
  callLogger_ s = None → Forall wf_event (events_ (eventManager_ s)) → NoDup (map event_key (events_ (eventManager_ s))) →
  events_covered (events_ (eventManager_ s)) d →
  (∀ k, is_Some (rdb_map d !! (pfx_contractManager ++ k)) → is_Some (contracts_ s !! k)) →
  contracts_ready base stored s d →
  ∃ d' em, ContractManager_save s d = Ok d' ∧ events_ em ≡ₚ events_ (eventManager_ s) ∧
    ∀ d2, (∀ k, (∀ r, k ≠ getDBPrefix ContractManager_address ++ r) → rdb_map d2 !! k = rdb_map d' !! k) →
      EventManager_load d2 = Ok em ∧ getBatch d2 pfx_contractManager [] ≡ₚ contract_entries s ∧ Forall (loads d2 stored) (contract_entries s).
Proof.
  intros Hq Hwf Hnd He Hd Hr. unfold ContractManager_save. rewrite save_batch_entries, logger_reset_quiet by done.
  set (d1 := putBatch d _).
  assert (O1 : ∀ k, (∀ r, k ≠ pfx_contractManager ++ r) → rdb_map d1 !! k = rdb_map d !! k).
  { intros k Hk. apply putBatch_out. intros [r Hr']%prefixed_in. by apply (Hk r). }
  destruct (events_saved_load (eventManager_ s) d1 Hwf Hnd) as (d2 & em & Hsave & Hload & Hev).
  { intros k. rewrite O1 by apart. apply He. }
  cbv zeta. rewrite Hsave, result_bind_Ok. assert (O2 := λ k, EventManager_save_out _ _ _ k Hsave).
  set (d3 := foldl _ d2 _). exists d3, em. split; [done|]. split; [by rewrite Hev|].
  assert (Hr2 : contracts_ready base stored s d2).
  { eapply contracts_ready_agree; [|exact Hr]. intros a k. rewrite O2, O1 by apart. done. }
  assert (O3 : ∀ k, (∀ a r, length a = 20%nat → k ≠ getDBPrefix a ++ r) → rdb_map d3 !! k = rdb_map d2 !! k).
  { intros k Hk. apply destroy_loop; [apply in_order_keys| |].
    - apply Forall_forall. intros [a c] Hin%in_order_elem. destruct (Hr2 a c Hin) as ((Hl & _) & E & _ & H4 & _). rewrite E in Hl, H4. by split.
    - intros [a c] r Hin%in_order_elem. destruct (Hr2 a c Hin) as ((Hl & _) & E & _). rewrite E in Hl. by apply Hk. }
  intros d4 O4. split; [|split].
  - unfold EventManager_load in *. rewrite (getBatch_agree pfx_events d4 d2); [done|]. intros k. rewrite O4, O3 by apart. done.
  - rewrite <- (saved_entries s d Hd). fold d1. rewrite (getBatch_agree _ d4 d1); [done|]. intros k. rewrite O4, O3, O2 by apart. done.
  - eapply destroyed_loads; [exact Hr2|]. intros a Hne Hl k. fold d3. symmetry. apply O4. intros r Hk. by apply contract_prefix_inj in Hk.
Qed.

(** The contracts of a manager that is destroyed are those the next one loads: the same addresses and classes, and the
    variables each class saves; the events are there too. *)
Theorem contracts_persist chainOwner g base stored s d :
  callLogger_ s = None → Forall wf_event (events_ (eventManager_ s)) → NoDup (map event_key (events_ (eventManager_ s))) →
  events_covered (events_ (eventManager_ s)) d →
  (∀ k, is_Some (rdb_map d !! (pfx_contractManager ++ k)) → is_Some (contracts_ s !! k)) →
  contracts_ready base stored s d →
  ∃ d' s' d'', ContractManager_save s d = Ok d' ∧ ContractManager_load chainOwner g d' = Ok (s', d'') ∧
    events_ (eventManager_ s') ≡ₚ events_ (eventManager_ s) ∧ dom (contracts_ s') = dom (contracts_ s) ∧
    ∀ a c, contracts_ s !! a = Some c → ∃ c', contracts_ s' !! a = Some c' ∧ contractName_ c' = contractName_ c ∧
      own_values (length (stored a)) c' (vars (call_ s')) = stored a.
Proof.
  intros Hq Hwf Hnd He Hd Hr. destruct (saved_manager base stored s d) as (d' & em & Hs & Hev & Hl); [done..|].
  exists d'. unfold ContractManager_load. set (d4 := BaseContract_put _ d').
  destruct (Hl d4) as (Hem & Hp & Hloads); [intros k Hk; by apply base_put_out|].
  rewrite Hem, result_bind_Ok. set (s0 := logger_new _).
  destruct (load_contracts_loop d4 stored (getBatch d4 pfx_contractManager []) s0) as (s' & Hs' & Hem' & _ & Hout & Hin);
    [by rewrite Hp|rewrite Hp; apply contract_entries_keys|done|].
  rewrite Hs', result_bind_Ok. exists s', d4. split; [done|]. split; [done|]. split; [by rewrite Hem'|].
  assert (Hall : ∀ a c, contracts_ s !! a = Some c → ∃ c', contracts_ s' !! a = Some c' ∧ contractName_ c' = contractName_ c ∧
      own_values (length (stored a)) c' (vars (call_ s')) = stored a).
  { intros a c Hc. destruct (Hin (a, string_bytes (contractName_ c))) as (c' & E1 & E2 & E3).
    - rewrite Hp. apply list_elem_of_In, in_map_iff. exists (a, c). split; [done|]. apply list_elem_of_In. by apply in_order_elem.
    - cbn [fst snd] in E1, E2, E3. exists c'. split; [done|]. split; [by rewrite E2, bytesToString_bytes|done]. }
  split; [|exact Hall]. apply set_eq. intros a. rewrite !elem_of_dom. split.
  - intros [c' Hc']. destruct (decide (a ∈ (getBatch d4 pfx_contractManager []).*1)) as [Hk|Hk]; [|by rewrite Hout in Hc'].
    rewrite Hp in Hk. apply list_elem_of_fmap in Hk as (e & -> & Hk). apply list_elem_of_In, in_map_iff in Hk as ([b c] & <- & Hk%list_elem_of_In).
    exists c. cbn. by apply in_order_elem.
  - intros [c Hc]. destruct (Hall a c Hc) as (c' & ? & _). by eexists.
Qed.
End store.
