(* ===== verification/ContractVars.v ===== *)
(** * ContractVars: the variables of the contract templates

    The templates of src/contract/templates/ hold strings, integers and maps.  [contract_var] is the
    sum of their classes, an instance of the interface of SafeBase; [on_uint], [on_map] and the others run
    a member function of one class on it.  [use] is a statement of a contract's function that uses a
    variable; its exception leaves the function.  The lemmas compute what a function that only uses
    variables does to the values that are read ([reads]). *)

From S2P Require Import Prelude Bytes SizedInts Hashing SafeBase SafeCell SafeString SafeVector SafeMap Tx Randomness Abi Hex Event EvmHost ContractManager.

(** [SafeAddress] with the condition under which it keeps the interface: [commit] and [revert] leave it registered, so
    only an address that is not registered is in order. [ReentrancyGuard]'s lock is a plain [bool] of the contract that is neither
    registered nor committed; what is read leaves it out. *)
Definition address_wf (v : SafeAddress) : Prop := registered_ (base_ v) = false.

Inductive contract_var :=
| UintVar (v : SafeCell Z)
| StringVar (v : SafeString)
| MapVar (v : SafeUnorderedMap Z)
| NestedVar (v : SafeUnorderedMap (gmap (list Z) Z))
| AddressVar (v : SafeAddress)
| VectorVar (v : SafeVector (list Z))
| AddressMapVar (v : SafeUnorderedMap (gmap (list Z) (list Z)))
| TokenMapVar (v : SafeIntMap (list Z))
| OperatorsVar (v : SafeUnorderedMap (gmap (list Z) bool))
| LockVar (lock : bool).

Inductive contract_value :=
| UintVal (x : Z)
| StringVal (x : list Z)
| MapVal (x : gmap (list Z) Z)
| NestedVal (x : gmap (list Z) (gmap (list Z) Z))
| AddressVal (x : list Z)
| VectorVal (x : list (list Z))
| AddressMapVal (x : gmap (list Z) (gmap (list Z) (list Z)))
| TokenMapVal (x : gmap Z (list Z))
| OperatorsVal (x : gmap (list Z) (gmap (list Z) bool))
| LockVal.

#[export] Instance contract_value_eq_dec : EqDecision contract_value.
Proof. solve_decision. Defined.

#[export] Instance contract_variable : SafeVariable contract_var contract_value := {|
  sv_base v := match v with UintVar v => sv_base v | StringVar v => sv_base v | MapVar v => sv_base v | NestedVar v => sv_base v
    | AddressVar v => sv_base v | VectorVar v => sv_base v | AddressMapVar v => sv_base v | TokenMapVar v => sv_base v | OperatorsVar v => sv_base v | LockVar _ => mkSafeBase true false true end;
  sv_wf v := match v with UintVar v => sv_wf v | StringVar v => sv_wf v | MapVar v => sv_wf v | NestedVar v => sv_wf v
    | AddressVar v => address_wf v | VectorVar v => sv_wf v | AddressMapVar v => sv_wf v | TokenMapVar v => sv_wf v | OperatorsVar v => sv_wf v | LockVar _ => True end;
  sv_get v := match v with UintVar v => UintVal (sv_get v) | StringVar v => StringVal (sv_get v)
    | MapVar v => MapVal (sv_get v) | NestedVar v => NestedVal (sv_get v) | AddressVar v => AddressVal (sv_get v)
    | VectorVar v => VectorVal (sv_get v) | AddressMapVar v => AddressMapVal (sv_get v)
    | TokenMapVar v => TokenMapVal (sv_get v) | OperatorsVar v => OperatorsVal (sv_get v) | LockVar _ => LockVal end;
  sv_value v := match v with UintVar v => UintVal (sv_value v) | StringVar v => StringVal (sv_value v)
    | MapVar v => MapVal (sv_value v) | NestedVar v => NestedVal (sv_value v) | AddressVar v => AddressVal (sv_value v)
    | VectorVar v => VectorVal (sv_value v) | AddressMapVar v => AddressMapVal (sv_value v)
    | TokenMapVar v => TokenMapVal (sv_value v) | OperatorsVar v => OperatorsVal (sv_value v) | LockVar _ => LockVal end;
  sv_commit v := match v with UintVar v => UintVar (sv_commit v) | StringVar v => StringVar (SafeString_commit v)
    | MapVar v => MapVar (sv_commit v) | NestedVar v => NestedVar (sv_commit v) | AddressVar v => AddressVar (SafeAddress_commit v)
    | VectorVar v => VectorVar (sv_commit v) | AddressMapVar v => AddressMapVar (sv_commit v)
    | TokenMapVar v => TokenMapVar (sv_commit v) | OperatorsVar v => OperatorsVar (sv_commit v) | LockVar b => LockVar b end;
  sv_revert v := match v with UintVar v => UintVar (sv_revert v) | StringVar v => StringVar (SafeString_revert v)
    | MapVar v => MapVar (sv_revert v) | NestedVar v => NestedVar (sv_revert v) | AddressVar v => AddressVar (SafeAddress_revert v)
    | VectorVar v => VectorVar (sv_revert v) | AddressMapVar v => AddressMapVar (sv_revert v)
    | TokenMapVar v => TokenMapVar (sv_revert v) | OperatorsVar v => OperatorsVar (sv_revert v) | LockVar b => LockVar b end
|}.

#[export] Instance contract_var_laws : SafeVariableLaws contract_var contract_value.
Proof.
  constructor; intros [v|v|v|v|v|v|v|v|v|v]; cbn [sv_base sv_wf sv_get sv_value sv_commit sv_revert contract_variable];
    intros; repeat match goal with |- UintVal _ = UintVal _ => f_equal | |- StringVal _ = StringVal _ => f_equal
      | |- MapVal _ = MapVal _ => f_equal | |- NestedVal _ = NestedVal _ => f_equal
      | |- VectorVal _ = VectorVal _ => f_equal | |- AddressMapVal _ = AddressMapVal _ => f_equal
      | |- TokenMapVal _ = TokenMapVal _ => f_equal | |- OperatorsVal _ = OperatorsVal _ => f_equal end;
    first [done|by apply commit_wf|by apply revert_wf|by apply commit_value|by apply commit_get|by apply revert_get
      |by apply revert_value|by apply commit_base|by apply revert_base
      |by (symmetry; apply set_registered_same)].
Qed.

(** A member function of the class a variable has. *)
Definition on_uint {A} (op : M (SafeCell Z) A) : M contract_var A := λ v,
  match v with UintVar v => let '(r, v) := op v in (r, UintVar v) | _ => (Throw Undefined, v) end.
Definition on_string {A} (op : M SafeString A) : M contract_var A := λ v,
  match v with StringVar v => let '(r, v) := op v in (r, StringVar v) | _ => (Throw Undefined, v) end.
Definition on_map {A} (op : M (SafeUnorderedMap Z) A) : M contract_var A := λ v,
  match v with MapVar v => let '(r, v) := op v in (r, MapVar v) | _ => (Throw Undefined, v) end.
Definition on_nested {A} (op : M (SafeUnorderedMap (gmap (list Z) Z)) A) : M contract_var A := λ v,
  match v with NestedVar v => let '(r, v) := op v in (r, NestedVar v) | _ => (Throw Undefined, v) end.
Definition on_address {A} (op : M SafeAddress A) : M contract_var A := λ v,
  match v with AddressVar v => let '(r, v) := op v in (r, AddressVar v) | _ => (Throw Undefined, v) end.
Definition on_vector {A} (op : M (SafeVector (list Z)) A) : M contract_var A := λ v,
  match v with VectorVar v => let '(r, v) := op v in (r, VectorVar v) | _ => (Throw Undefined, v) end.
Definition on_address_map {A} (op : M (SafeUnorderedMap (gmap (list Z) (list Z))) A) : M contract_var A := λ v,
  match v with AddressMapVar v => let '(r, v) := op v in (r, AddressMapVar v) | _ => (Throw Undefined, v) end.
Definition on_token_map {A} (op : M (SafeIntMap (list Z)) A) : M contract_var A := λ v,
  match v with TokenMapVar v => let '(r, v') := op v in (r, TokenMapVar v') | _ => (Throw Undefined, v) end.
Definition on_operators {A} (op : M (SafeUnorderedMap (gmap (list Z) bool)) A) : M contract_var A := λ v,
  match v with OperatorsVar v => let '(r, v') := op v in (r, OperatorsVar v') | _ => (Throw Undefined, v) end.

(** The constructor of [ReentrancyGuard], and its destructor. *)
Definition guard_lock : M contract_var unit := λ v,
  match v with
  | LockVar true => (Throw (DynamicException "ReentrancyGuard: reentrancy attack detected"), v)
  | LockVar false => (Ok tt, LockVar true)
  | _ => (Throw Undefined, v)
  end.
Definition guard_unlock : M contract_var unit := λ v,
  match v with LockVar _ => (Ok tt, LockVar false) | _ => (Throw Undefined, v) end.

Lemma honest_other {A} (v : contract_var) (r : result A) v' : sv_wf v → (Throw Undefined, v) = (r, v') →
  sv_wf v' ∧ sv_value v' = sv_value v ∧ owner_ (sv_base v') = owner_ (sv_base v) ∧
  shouldRegister_ (sv_base v') = shouldRegister_ (sv_base v) ∧
  (registered_ (sv_base v) = true → registered_ (sv_base v') = true) ∧
  (tracked (sv_base v) = true → registered_ (sv_base v') = false → sv_get v' = sv_get v).
Proof. by intros ? [= _ <-]. Qed.

(** An honest member function of a class is one of the sum. *)
Ltac honest_on Hop op :=
  let v := fresh "v" in let r := fresh "r" in let v' := fresh "v'" in let Hwf := fresh "Hwf" in
  intros v r v' Hwf; destruct v as [v|v|v|v|v|v|v|v|v|v]; try (by apply honest_other);
  let r0 := fresh "r0" in let v0 := fresh "v0" in let E := fresh "E" in
  destruct (op v) as [r0 v0] eqn:E;
  let H1 := fresh "H1" in let H2 := fresh "H2" in
  destruct (Hop _ _ _ Hwf E) as (? & H1 & ? & ? & ? & H2);
  cbn [sv_wf sv_value sv_base sv_get contract_variable] in *;
  intros Hr; match type of Hr with ?t = _ => let t' := eval lazy beta iota delta [on_uint on_string on_map on_nested on_address on_vector on_address_map on_token_map on_operators] in t in change t with t' in Hr end;
  rewrite ?E in Hr; injection Hr as <- <-;
  cbn [sv_wf sv_value sv_base sv_get contract_variable] in *; split_and!; try done; [by f_equal|]; intros; f_equal; by apply H2.

Lemma honest_on_uint {A} (op : M (SafeCell Z) A) : honest op → honest (on_uint op).
Proof. intros Hop. honest_on Hop op. Qed.
Lemma honest_on_string {A} (op : M SafeString A) : honest op → honest (on_string op).
Proof. intros Hop. honest_on Hop op. Qed.
Lemma honest_on_map {A} (op : M (SafeUnorderedMap Z) A) : honest op → honest (on_map op).
Proof. intros Hop. honest_on Hop op. Qed.
Lemma honest_on_nested {A} (op : M (SafeUnorderedMap (gmap (list Z) Z)) A) : honest op → honest (on_nested op).
Proof. intros Hop. honest_on Hop op. Qed.
Lemma honest_on_token_map {A} (op : M (SafeIntMap (list Z)) A) : honest op → honest (on_token_map op).
Proof. intros Hop. honest_on Hop op. Qed.
Lemma honest_on_operators {A} (op : M (SafeUnorderedMap (gmap (list Z) bool)) A) : honest op → honest (on_operators op).
Proof. intros Hop. honest_on Hop op. Qed.
#[export] Hint Resolve honest_on_uint honest_on_string honest_on_map honest_on_nested honest_on_token_map honest_on_operators : code.

(** Reading an address, the vector or the map of addresses is honest; writing the former two is not. *)
Lemma honest_address_get : honest (on_address SafeAddress_get).
Proof.
  intros v r v' Hwf. destruct v as [v|v|v|v|v|v|v|v|v|v]; try (by apply honest_other). cbn. destruct v as [b x [y|]]; by intros [= <- <-].
Qed.
Lemma honest_guard_lock : honest guard_lock.
Proof. intros v r v' Hwf. destruct v as [v|v|v|v|v|v|v|v|v|[]]; by intros [= <- <-]. Qed.
Lemma honest_guard_unlock : honest guard_unlock.
Proof. intros v r v' Hwf. destruct v as [v|v|v|v|v|v|v|v|v|[]]; by intros [= <- <-]. Qed.
#[export] Hint Resolve honest_address_get honest_guard_lock honest_guard_unlock : code.

(** ** Functions that use variables *)

(** A statement that uses variable [i]. *)
Definition use {B C : Type} (i : nat) (op : M contract_var C) (k : C → code (V := contract_var) B) : code B :=
  CVar i op (λ r, match r with Ok c => k c | Throw e => CThrow e end).

(** What every variable reads as. *)
Definition reads (s : ContractManager (V := contract_var)) : list contract_value := sv_get <$> vars (call_ s).

(** The locks, which are not read. *)
Definition lock_of (v : contract_var) : option bool := match v with LockVar b => Some b | _ => None end.
Definition locks (s : ContractManager (V := contract_var)) : list (option bool) := lock_of <$> vars (call_ s).

(** [s1] is [s] but for its variables, and with the same locks. *)
Definition only_vars (s s1 : ContractManager (V := contract_var)) : Prop := s1 = with_call s (call_ s1) ∧ locks s1 = locks s.

#[export] Instance only_vars_preorder : PreOrder only_vars.
Proof.
  split; [by intros []|]. unfold only_vars. intros s1 s2 s3 [H1 L1] [H2 L2]. split; [|congruence].
  destruct s1, s2, s3. rewrite H2, H1. done.
Qed.

Section uses.
Context {BB : BoostBits} {KC : Keccak} {BR : BoostResidue} {CT : ContractTypes (V := contract_var)}.
Variables (bal : list Z → Z) (chainOwner : list Z) (chainId : Z).
Implicit Types s : ContractManager (V := contract_var).
Abbreviation run := (exec bal chainOwner chainId).

(** An exception of the code leaves the function, whatever kind it is. *)
Lemma exec_use {B C : Type} i (op : M contract_var C) (k : C → code B) s v r v' :
  is_Some (callLogger_ s) → vars (call_ s) !! i = Some v → op v = (r, v') → lock_of v' = lock_of v →
  ∃ s1, only_vars s s1 ∧ reads s1 = <[i := sv_get v']> (reads s) ∧
    (r ≠ Throw Undefined → run (use i op k) s = match r with Ok c => run (k c) s1 | Throw e => (Throw e, s1) end).
Proof.
  intros [m Hm] Hv Hop Hlock. cbn [exec use]. unfold mtry, use_variable, run_on. rewrite Hv, Hop, Hm.
  set (c0 := mkCall (<[i := v']> (vars (call_ s))) (usedVars_ (call_ s))).
  set (c' := if negb _ && _ then addUsedVar c0 i else c0). assert (Hc' : vars c' = <[i := v']> (vars (call_ s))) by (unfold c'; by destruct (_ && _)).
  exists (with_call s c'). split; [split; [done|]|split].
  - unfold locks. cbn [call_ with_call]. rewrite Hc', list_fmap_insert, Hlock. apply list_insert_id.
    by rewrite list_lookup_fmap, Hv.
  - unfold reads. cbn [call_ with_call]. rewrite <- list_fmap_insert. f_equal. unfold c'. by destruct (_ && _).
  - intros Hr. destruct r as [c|e]; [done|]. by destruct e.
Qed.

Lemma reads_lookup s i x : reads s !! i = Some x → ∃ v, vars (call_ s) !! i = Some v ∧ sv_get v = x.
Proof. unfold reads. rewrite list_lookup_fmap. intros (v & -> & ->)%fmap_Some. by exists v. Qed.

(** The statements of the templates: [map\[key\] op= ...], [map.find(key)], [value op= ...], a getter. *)
Lemma exec_use_map {B C : Type} i d key (f : Z → result C * Z) (k : C → code B) s b r x :
  is_Some (callLogger_ s) → reads s !! i = Some (MapVal b) → f (default d (b !! key)) = (r, x) → r ≠ Throw Undefined →
  ∃ s1, only_vars s s1 ∧ reads s1 = <[i := MapVal (<[key := x]> b)]> (reads s) ∧
    run (use i (on_map (sm_modify d key f)) k) s = match r with Ok c => run (k c) s1 | Throw e => (Throw e, s1) end.
Proof.
  intros Hm (v & Hv & Hb)%reads_lookup Hf Hr. destruct v as [v|v|v|v|v|v|v|v|v|v]; try done. injection Hb as <-.
  assert (H := sm_modify_spec d key f v). cbn [sv_get SafeMap_variable] in Hf. rewrite Hf in H. cbv zeta in H.
  destruct H as (H1 & H2 & _). destruct (sm_modify d key f v) as [r0 v'] eqn:E. cbn [fst snd] in *. subst r0.
  destruct (exec_use i (on_map (sm_modify d key f)) k s (MapVar v) r (MapVar v') Hm Hv) as (s1 & A1 & A2 & A3).
  { cbn [on_map]. by rewrite E. } { done. }
  exists s1. split; [done|]. split; [|by apply A3]. rewrite A2. cbn. by rewrite H2.
Qed.

Lemma exec_use_nested {B C : Type} (i : nat) (d : gmap (list Z) Z) (key : list Z) (f : gmap (list Z) Z → result C * gmap (list Z) Z) (k : C → code B) s b r x :
  is_Some (callLogger_ s) → reads s !! i = Some (NestedVal b) → f (default d (b !! key)) = (r, x) → r ≠ Throw Undefined →
  ∃ s1, only_vars s s1 ∧ reads s1 = <[i := NestedVal (<[key := x]> b)]> (reads s) ∧
    run (use i (on_nested (sm_modify d key f)) k) s = match r with Ok c => run (k c) s1 | Throw e => (Throw e, s1) end.
Proof.
  intros Hm (v & Hv & Hb)%reads_lookup Hf Hr. destruct v as [v|v|v|v|v|v|v|v|v|v]; try done. injection Hb as <-.
  assert (H := sm_modify_spec d key f v). cbn [sv_get SafeMap_variable] in Hf. rewrite Hf in H. cbv zeta in H.
  destruct H as (H1 & H2 & _). destruct (sm_modify d key f v) as [r0 v'] eqn:E. cbn [fst snd] in *. subst r0.
  destruct (exec_use i (on_nested (sm_modify d key f)) k s (NestedVar v) r (NestedVar v') Hm Hv) as (s1 & A1 & A2 & A3).
  { cbn [on_nested]. by rewrite E. } { done. }
  exists s1. split; [done|]. split; [|by apply A3]. rewrite A2. cbn. by rewrite H2.
Qed.

Lemma exec_use_uint {B : Type} (i : nat) (f : Z → result Z) (k : unit → code B) s x :
  is_Some (callLogger_ s) → reads s !! i = Some (UintVal x) → f x ≠ Throw Undefined →
  ∃ s1, only_vars s s1 ∧ reads s1 = <[i := UintVal (match f x with Ok y => y | Throw _ => x end)]> (reads s) ∧
    run (use i (on_uint (cell_update f)) k) s = match f x with Ok _ => run (k tt) s1 | Throw e => (Throw e, s1) end.
Proof.
  intros Hm (v & Hv & Hb)%reads_lookup Hr. destruct v as [v|v|v|v|v|v|v|v|v|v]; try done. injection Hb as <-.
  assert (H := cell_update_spec f v). cbn [sv_get cell_SafeVariable] in Hr |- *.
  destruct (cell_update f v) as [r v'] eqn:E.
  destruct (exec_use i (on_uint (cell_update f)) k s (UintVar v) r (UintVar v') Hm Hv) as (s1 & A1 & A2 & A3).
  { cbn [on_uint]. by rewrite E. } { done. }
  exists s1. split; [done|]. cbn [sv_get contract_variable cell_SafeVariable] in A2. destruct (f (cell_get v)) as [y|e]; destruct H as [-> H].
  - split; [by rewrite A2, H|]. by apply A3.
  - split; [by rewrite A2, H|]. apply A3. intros [= ->]. by apply Hr.
Qed.
End uses.

(** ** The call of a function by a transaction *)

Section called.
Context {BB : BoostBits} {KC : Keccak} {BR : BoostResidue} {CT : ContractTypes (V := contract_var)} {St : Type} {PS : PayableState St}.
Variables (chainOwner : list Z) (chainId : Z).
Implicit Types s : ContractManager (V := contract_var).

(** The manager when the function starts. *)
Definition called (tx : TxBlock) s : ContractManager (V := contract_var) :=
  setContractVars (to_ tx) (from_ tx) (from_ tx) (value_ tx) (logger_new s).

(** The function that a call of [c] runs, and whether it may send and receive tokens. *)
Definition function_of (c : DynamicContract (V := contract_var)) (tx : TxBlock) : option (ethCallInfo → code (V := contract_var) unit) :=
  if isPayableFunction c (ci_functor (txToCallInfo tx)) then payableFunctions_ c !! ci_functor (txToCallInfo tx)
  else publicFunctions_ c !! ci_functor (txToCallInfo tx).

Definition called_result (tx : TxBlock) (st : St) (c : DynamicContract (V := contract_var)) s : result unit * ContractManager :=
  match function_of c tx with
  | None => (Throw (failed "no function"), called tx s)
  | Some f => exec (balance_of st) chainOwner chainId (f (txToCallInfo tx)) (called tx s)
  end.

Lemma called_logger tx s : callLogger_ (called tx s) = Some ∅.
Proof. done. Qed.

(** A logger left from before, as by the constructor of the manager, has nothing to undo. *)
Lemma logger_new_quiet s : quiet s → logger_new s = with_logger s (Some ∅).
Proof.
  intros [_ Hu Hr _ _]. unfold logger_new, logger_reset. destruct (callLogger_ s); [|done].
  unfold logger_destroy. destruct s as [cs ls [vs used] l recent em gl]. cbn in *. subst used recent. done.
Qed.

Lemma called_call tx s : quiet s → call_ (called tx s) = call_ s.
Proof. intros Hq. unfold called. by rewrite logger_new_quiet. Qed.

Lemma called_locals tx s : locals_of (called tx s) (to_ tx) = mkLocals (from_ tx) (from_ tx) (value_ tx).
Proof. unfold locals_of, called, setContractVars. cbn. by rewrite lookup_insert_eq. Qed.

(** A call of a deployed contract is the run of its function between the start and the end of the call. *)
Lemma callContract_function tx txIndex s st c :
  to_ tx ∉ ProtocolContractAddresses → quiet s → contracts_ s !! to_ tx = Some c →
  callContract chainOwner chainId tx txIndex (s, st) =
  match called_result tx st c s with
  | (Throw Undefined, s2) => (Throw Undefined, (s2, st))
  | (Throw _, s2) => (Throw (failed "what"), (call_failed s2, st))
  | (Ok _, s2) =>
      if isPayableFunction c (ci_functor (txToCallInfo tx)) then
        match callLogger_ s2 with
        | None => (Throw Undefined, (s2, st))
        | Some balances =>
            let '(r, st') := processContractPayable balances st in
            (r, (match r with Ok _ => call_succeeded (hash_ tx) txIndex s2 | Throw _ => s2 end, st'))
        end
      else (Ok tt, (call_succeeded (hash_ tx) txIndex s2, st))
  end.
Proof.
  intros Hp Hl Hc.
  assert (H1 : to_ tx ≠ ContractManager_address) by (intros E; apply Hp; rewrite E; right; left).
  assert (H2 : to_ tx ≠ rdPoS_address) by (intros E; apply Hp; rewrite E; left).
  unfold callContract. unfold mbind' at 1, on_manager at 1. cbn [mmodify fst snd].
  change (ci_to (txToCallInfo tx)) with (to_ tx). change (ci_from (txToCallInfo tx)) with (from_ tx).
  change (ci_value (txToCallInfo tx)) with (value_ tx).
  rewrite !decide_False by done. unfold mbind' at 1, mget at 1. cbn [fst].
  assert (Hc' : contracts_ (logger_new s) = contracts_ s) by by rewrite logger_new_quiet.
  rewrite Hc', Hc. clear Hc'. unfold mbind' at 1, on_manager at 1. cbn [mmodify fst snd]. fold (called tx s).
  unfold mbind' at 1, on_manager at 1. cbn [fst snd]. unfold called_result, function_of, guarded, dynamic_ethCall.
  destruct (isPayableFunction c (ci_functor (txToCallInfo tx))) eqn:Ep.
  - destruct (payableFunctions_ c !! ci_functor (txToCallInfo tx)) as [f|]; [|done]. unfold rethrow, mtry.
    destruct (exec _ _ _ (f _) (called tx s)) as [[u|e] s2]; cbn [fst]; [|by destruct e].
    cbn [mret']. unfold mbind' at 1. unfold mbind' at 1, mget at 1. cbn [fst].
    destruct (callLogger_ s2) as [b|]; [|done]. unfold on_state. cbn [fst snd].
    destruct (processContractPayable b st) as [[[]|] st']; done.
  - destruct (publicFunctions_ c !! ci_functor (txToCallInfo tx)) as [f|]; [|done]. unfold rethrow, mtry.
    destruct (exec _ _ _ (f _) (called tx s)) as [[u|e] s2]; [done|by destruct e].
Qed.

(** [s1] is [s] but for its variables and the balances of the call. *)
Definition only_books s s1 : Prop := s1 = with_logger (with_call s (call_ s1)) (callLogger_ s1) ∧ is_Some (callLogger_ s1).

Lemma only_vars_books s s1 : is_Some (callLogger_ s) → only_vars s s1 → only_books s s1.
Proof. intros Hl [-> _]. split; [by destruct s|done]. Qed.

Lemma only_books_trans s1 s2 s3 : only_books s1 s2 → only_books s2 s3 → only_books s1 s3.
Proof. intros [H1 _] [H2 Hl]. split; [|done]. by rewrite H2, H1. Qed.

(** The function runs inside the call. *)
Lemma called_in_call tx s st c r s2 :
  honest_types → quiet s → contracts_ s !! to_ tx = Some c → called_result tx st c s = (r, s2) → in_call s s2.
Proof.
  intros HT Hq Hc. assert (H0 : in_call s (called tx s)).
  { exact (in_call_locals s (to_ tx) (from_ tx) (from_ tx) (value_ tx) _ (in_call_new s Hq)). }
  unfold called_result. destruct (function_of c tx) as [f|] eqn:Ef; [|by intros [= _ <-]].
  assert (Hh : honest_code (f (txToCallInfo tx))).
  { destruct (quiet_contracts _ Hq _ _ Hc) as (Hpub & Hpay & _). revert Ef. unfold function_of.
    destruct (isPayableFunction _ _); intros Ef; [by eapply Hpay|by eapply Hpub]. }
  intros Hr. assert (Hk := exec_keeps (balance_of st) chainOwner chainId _ _ (in_call_closed (balance_of st) chainOwner chainId HT s) Hh _ H0).
  by rewrite Hr in Hk.
Qed.

(** The manager between calls: [s0] with other values. *)
Definition between s0 s (vals : list contract_value) : Prop :=
  quiet s ∧ callLogger_ s = None ∧ contracts_ s = contracts_ s0 ∧ eventManager_ s = eventManager_ s0 ∧ reads s = vals.

(** The end of a call that has created no contract and emitted no event. *)
Lemma call_end tx txIndex s s2 :
  quiet s → in_call s s2 → only_books (called tx s) s2 → length (reads s2) = length (reads s) →
  between s (call_succeeded (hash_ tx) txIndex s2) (reads s2) ∧ between s (call_failed s2) (reads s).
Proof.
  intros Hq Hin [Hv [m Hm]] Hlen.
  assert (Hc2 : contracts_ s2 = contracts_ s) by (rewrite Hv; unfold called; by rewrite logger_new_quiet).
  assert (He2 : eventManager_ s2 = eventManager_ s) by (rewrite Hv; unfold called; by rewrite logger_new_quiet).
  assert (Hlv : length (vars (call_ s2)) = length (vars (call_ s))) by (unfold reads in Hlen; by rewrite !length_fmap in Hlen).
  destruct (call_vars _ _ Hin) as (_ & new & _ & Hinv). split.
  - destruct (call_succeeded_world _ _ (hash_ tx) txIndex Hq Hin) as (Hq' & Hl' & Hc' & _).
    split; [done|]. split; [done|]. split; [by rewrite Hc'|]. split.
    + unfold call_succeeded, logger_reset. rewrite Hm. cbn. rewrite He2. unfold commitEvents.
      rewrite (quiet_events _ Hq). cbn. rewrite app_nil_r. destruct (quiet_events _ Hq). by destruct (eventManager_ s).
    + destruct (call_ok_end _ _ true (quiet_vars _ Hq) (call_vars _ _ Hin)) as (_ & _ & Hge & Hval).
      revert Hval. unfold reads, call_succeeded, logger_reset. rewrite Hm. cbn [logger_destroy call_ with_events with_logger with_contracts with_call].
      assert (Hle : length (vars (logger_end true (call_ s2))) = length (vars (call_ s2))).
      { destruct (commit_call _ _ Hinv) as [_ Hvv]. apply (f_equal length) in Hvv. by rewrite !length_fmap in Hvv. }
      rewrite !take_ge by (rewrite length_fmap; lia). done.
  - destruct (call_failed_world _ _ Hq Hin) as (Hq' & (Hc' & He' & Hv') & Hl').
    split; [done|]. split; [done|]. split; [done|]. split; [done|]. unfold reads. rewrite <- Hv'.
    assert (Hle : length (vars (call_ (call_failed s2))) = length (vars (call_ s2))).
    { unfold call_failed, logger_reset. rewrite Hm. cbn [logger_destroy call_ with_events with_logger with_contracts with_call revert_events].
      destruct (revert_call _ _ Hinv) as [_ Hvv].
      apply (f_equal length) in Hvv. rewrite !length_fmap in Hvv. destruct Hinv as [Hl3 _]. cbn [logger_end]. congruence. }
    rewrite take_ge by (rewrite length_fmap; lia). done.
Qed.

(** When the function has only used the variables there are, the call leaves its values or, if it throws, the
    old ones. *)
Lemma nonpayable_call tx txIndex s st c r s2 :
  honest_types → quiet s → to_ tx ∉ ProtocolContractAddresses → contracts_ s !! to_ tx = Some c →
  isPayableFunction c (ci_functor (txToCallInfo tx)) = false →
  called_result tx st c s = (r, s2) → r ≠ Throw Undefined → only_vars (called tx s) s2 →
  length (reads s2) = length (reads s) →
  ∃ s', callContract chainOwner chainId tx txIndex (s, st) =
      (match r with Ok _ => Ok tt | Throw _ => Throw (failed "what") end, (s', st)) ∧
    between s s' (match r with Ok _ => reads s2 | Throw _ => reads s end).
Proof.
  intros HT Hq Hp Hc Hpay Hr Hu Hv Hlen. assert (Hin := called_in_call _ _ _ _ _ _ HT Hq Hc Hr).
  apply only_vars_books in Hv; [|by eexists].
  destruct (call_end tx txIndex s s2 Hq Hin Hv Hlen) as [Hs Hf].
  rewrite (callContract_function tx txIndex s st c) by done. rewrite Hr, Hpay.
  destruct r as [u|e]; [by eexists|]. eexists. split; [by destruct e|done].
Qed.

(** A payable function also pays out the balances of the call. *)
Lemma payable_call tx txIndex s st c r s2 m st' :
  honest_types → quiet s → to_ tx ∉ ProtocolContractAddresses → contracts_ s !! to_ tx = Some c →
  isPayableFunction c (ci_functor (txToCallInfo tx)) = true →
  called_result tx st c s = (r, s2) → r ≠ Throw Undefined → only_books (called tx s) s2 →
  length (reads s2) = length (reads s) → callLogger_ s2 = Some m → processContractPayable m st = (Ok tt, st') →
  ∃ s', callContract chainOwner chainId tx txIndex (s, st) =
      (match r with Ok _ => Ok tt | Throw _ => Throw (failed "what") end, (s', match r with Ok _ => st' | Throw _ => st end)) ∧
    between s s' (match r with Ok _ => reads s2 | Throw _ => reads s end).
Proof.
  intros HT Hq Hp Hc Hpay Hr Hu Hv Hlen Hm Hst. assert (Hin := called_in_call _ _ _ _ _ _ HT Hq Hc Hr).
  destruct (call_end tx txIndex s s2 Hq Hin Hv Hlen) as [Hs Hf].
  rewrite (callContract_function tx txIndex s st c) by done. rewrite Hr, Hpay.
  destruct r as [u|e]; [rewrite Hm, Hst; by eexists|]. eexists. split; [by destruct e|done].
Qed.
End called.

(** ** Code in sequence *)

Section sequence.
Context {BB : BoostBits} {KC : Keccak} {BR : BoostResidue} {CT : ContractTypes (V := contract_var)}.
Variables (bal : list Z → Z) (chainOwner : list Z) (chainId : Z).

Lemma exec_code_bind {A B : Type} (c : code (V := contract_var) A) (f : A → code B) s :
  exec bal chainOwner chainId (code_bind c f) s =
  let '(r, s') := exec bal chainOwner chainId c s in
  match r with Ok a => exec bal chainOwner chainId (f a) s' | Throw e => (Throw e, s') end.
Proof.
  revert s. induction c as [A b|A e|A C i op k IH|A self k IH|A k IH|A k IH|A a k IH|A from to amount k IH|A e k IH
    |A C target cast body IHb k IH|A C o from target value cast body IHb k IH|A o from value functor encoder k IH];
    intros s; cbn [code_bind exec]; try done; unfold mtry, mbind', mget.
  - destruct (use_variable i op s) as [r s']. destruct r as [|[]]; by rewrite ?IH.
  - by rewrite IH.
  - by rewrite IH.
  - destruct (random_next s) as [[|] s']; by rewrite ?IH.
  - destruct (getBalanceFromAddress _ a s) as [r s']. destruct r as [|[]]; by rewrite ?IH.
  - destruct (sendTokens _ _ _ _ s) as [r s']. destruct r as [|[]]; by rewrite ?IH.
  - destruct (emitContractEvent e s) as [r s']. destruct r as [|[]]; by rewrite ?IH.
  - destruct (getContract target cast s) as [[c|[]] s']; rewrite ?IH; try done.
    destruct (exec _ _ _ (body _) s') as [r s'']. destruct r as [|[]]; by rewrite ?IH.
  - destruct (call_function _ _ _ _ _ _ _ s) as [r s']. destruct r as [|[]]; by rewrite ?IH.
  - destruct (callCreateContract _ _ _ _ _ _ _ s) as [r s']. destruct r as [|[]]; by rewrite ?IH.
Qed.

(** A destructor that runs also when the code throws: [f] follows the value or the exception. *)
Lemma exec_code_try {A B : Type} (c : code (V := contract_var) A) (f : result A → code B) s :
  exec bal chainOwner chainId (code_try c f) s = mtry (exec bal chainOwner chainId c) (λ r, exec bal chainOwner chainId (f r)) s.
Proof.
  unfold mtry. revert s. induction c as [A b|A e|A C i op k IH|A self k IH|A k IH|A k IH|A a k IH|A from to amount k IH|A e k IH
    |A C target cast body IHb k IH|A C o from target value cast body IHb k IH|A o from value functor encoder k IH];
    intros s; cbn [code_try exec]; try done; unfold mtry, mbind', mget.
  - by destruct e.
  - destruct (use_variable i op s) as [r s']. destruct r as [|[]]; by rewrite ?IH.
  - by rewrite IH.
  - by rewrite IH.
  - unfold random_next. destruct (getNext _) as [x seed]. by rewrite IH.
  - destruct (getBalanceFromAddress _ a s) as [r s']. destruct r as [|[]]; by rewrite ?IH.
  - destruct (sendTokens _ _ _ _ s) as [r s']. destruct r as [|[]]; by rewrite ?IH.
  - destruct (emitContractEvent e s) as [r s']. destruct r as [|[]]; by rewrite ?IH.
  - destruct (getContract target cast s) as [[c|[]] s']; rewrite ?IH; try done.
    destruct (exec _ _ _ (body _) s') as [r s'']. destruct r as [|[]]; by rewrite ?IH.
  - destruct (call_function _ _ _ _ _ _ _ s) as [r s']. destruct r as [|[]]; by rewrite ?IH.
  - destruct (callCreateContract _ _ _ _ _ _ _ s) as [r s']. destruct r as [|[]]; by rewrite ?IH.
Qed.

Lemma honest_code_try {A B : Type} (c : code (V := contract_var) A) (f : result A → code B) :
  honest_code c → (∀ a, honest_code (f a)) → honest_code (code_try c f).
Proof.
  intros Hc Hf. revert f Hf Hc. induction c as [A b|A e|A C i op k IH|A self k IH|A k IH|A k IH|A a k IH|A from to amount k IH|A e k IH
    |A C target cast body IHb k IH|A C o from target value cast body IHb k IH|A o from value functor encoder k IH];
    intros f Hf Hc; cbn [code_try honest_code] in *; try (by apply Hf); try (by destruct e; try done; apply Hf);
    repeat match goal with H : _ ∧ _ |- _ => destruct H | |- _ ∧ _ => split end; try done; intros; eauto.
Qed.

Lemma honest_code_bind {A B : Type} (c : code (V := contract_var) A) (f : A → code B) :
  honest_code c → (∀ a, honest_code (f a)) → honest_code (code_bind c f).
Proof.
  intros Hc Hf. revert f Hf Hc. induction c; intros f Hf Hc; cbn [code_bind honest_code] in *; try done; try (by apply Hf);
    repeat match goal with H : _ ∧ _ |- _ => destruct H | |- _ ∧ _ => split end; try done; intros; eauto.
Qed.

Lemma honest_use {B C : Type} i (op : M contract_var C) (k : C → code (V := contract_var) B) :
  honest op → (∀ c, honest_code (k c)) → honest_code (use i op k).
Proof. intros Hop Hk. cbn. split; [done|]. intros [c|e]; [apply Hk|done]. Qed.

(** The registered function: decode, run, drop or encode the result. *)
Lemma honest_registered (args : list abi_ty) (memFunc : list abi_val → code (V := contract_var) (list abi_val)) {B : Type}
    (f : list abi_val → code (V := contract_var) B) ci :
  (∀ vs, decodeData args (ci_data ci) 0 = Ok vs → honest_code (memFunc vs)) → (∀ vs, honest_code (f vs)) →
  honest_code (code_bind (match decodeData args (ci_data ci) 0 with Ok vs => memFunc vs | Throw e => CThrow e end) f).
Proof. intros Hm Hf. apply honest_code_bind; [|done]. destruct (decodeData _ _ _) as [vs|]; [by apply Hm|done]. Qed.

Lemma registerMemberFunction_honest name args rets memFunc mutability c :
  (∀ data vs, decodeData args data 0 = Ok vs → honest_code (memFunc vs)) → honest_contract c → honest_contract (registerMemberFunction name args rets memFunc mutability c).
Proof.
  intros Hm (H1 & H2 & H3).
  assert (Hins : ∀ (R : Type) (m : gmap (list Z) (ethCallInfo → code (V := contract_var) R)) g0 f0,
    (∀ ci, honest_code (g0 ci)) → (∀ f g ci, m !! f = Some g → honest_code (g ci)) →
    ∀ f g ci, <[f0 := g0]> m !! f = Some g → honest_code (g ci)).
  { intros R m g0 f0 Hg0 Hall f g ci Hf. apply lookup_insert_Some in Hf as [[_ <-]|[_ Hf]]; [done|by eapply Hall]. }
  unfold registerMemberFunction. destruct mutability; (split; [|split]); cbn [publicFunctions_ payableFunctions_ viewFunctions_]; try done;
    apply Hins; try done; intros ci; apply honest_registered; try done; intros vs; apply Hm.
Qed.
End sequence.

#[export] Hint Resolve honest_use : code.
