(* ===== verification/ContractLogic.v ===== *)
(** * ContractLogic: reasoning about the functions of contracts

    The statements the larger contracts are written with, as [code], and two judgements about a run: [returns],
    what holds when the code returns, and [ends], that it returns and what holds then.  Their rules follow the
    statements; they speak of what the variables read as ([reads]) and of the locks. *)

From S2P Require Import Prelude Bytes SizedInts Hashing SafeBase SafeCell SafeUint SafeVector SafeMap Tx Randomness Abi Hex Event EvmHost ContractManager ContractVars.

Abbreviation ccode := (code (V := contract_var)).

Declare Scope code_scope.
Delimit Scope code_scope with code.
Notation "x <~ c ;; k" := (code_bind c (λ x, k%code)) (at level 100, c at next level, right associativity) : code_scope.
Notation "c ;;~ k" := (code_bind c (λ _, k%code)) (at level 100, right associativity) : code_scope.

(** ** Statements *)

Definition lift_code {A} (r : result A) : ccode A := match r with Ok a => CRet a | Throw e => CThrow e end.
Definition code_throw_if (b : bool) (e : exn) : ccode unit := lift_code (throw_if b e).

Definition get_uint (i : nat) : ccode Z := use i (on_uint SafeUint_get) CRet.
Definition update_uint (i : nat) (f : Z → result Z) : ccode unit := use i (on_uint (cell_update f)) CRet.
Definition set_uint (i : nat) (x : Z) : ccode unit := use i (on_uint (assign_u x)) CRet.
Definition get_address (i : nat) : ccode (list Z) := use i (on_address SafeAddress_get) CRet.
Definition set_address (i : nat) (a : list Z) : ccode unit := use i (on_address (SafeAddress_assign a)) CRet.

(** [ReentrancyGuard reentrancyGuard(this->reentrancyLock_)] and the rest of the block. *)
Definition in_guard {A} (i : nat) (c : ccode A) : ccode A :=
  use i guard_lock (λ _, code_try c (λ r, use i guard_unlock (λ _, lift_code r))).

(** The member templates of [DynamicContract]: a call, without value, of a function of the contract at [target] by the contract at
    [self], and a view. *)
Definition callContractFunction {A} (self target : list Z) (cast : string → bool) (body : nat → ccode A) : ccode A :=
  CLocals self (λ l, CCall (origin_ l) self target 0 cast body lift_code).
Definition callContractViewFunction {A} (target : list Z) (cast : string → bool) (body : nat → ccode A) : ccode A :=
  CView target cast body lift_code.

(** ** The judgements *)

(** Values that are not maps. *)
Definition is_scalar (x : contract_value) : bool :=
  match x with UintVal _ | AddressVal _ | StringVal _ => true | _ => false end.

Section logic.
Context {BB : BoostBits} {KC : Keccak} {BR : BoostResidue} {CT : ContractTypes (V := contract_var)}.
Variables (bal : list Z → Z) (chainOwner : list Z) (chainId : Z).
Implicit Types s : ContractManager (V := contract_var).
Abbreviation run := (exec bal chainOwner chainId).

Definition returns {A} (c : ccode A) s (Q : A → ContractManager (V := contract_var) → Prop) : Prop :=
  ∀ a s', run c s = (Ok a, s') → Q a s'.
Definition ends {A} (c : ccode A) s (Q : A → ContractManager (V := contract_var) → Prop) : Prop :=
  ∃ a s', run c s = (Ok a, s') ∧ Q a s'.

(** What a statement leaves as it is. *)
Record steady s s1 : Prop := {
  steady_contracts : contracts_ s1 = contracts_ s;
  steady_globals : globals_ s1 = globals_ s;
  steady_logger : callLogger_ s1 = callLogger_ s
}.

#[export] Instance steady_preorder : PreOrder steady.
Proof. split; [by intros s; constructor|]. intros s1 s2 s3 [] []. constructor; congruence. Qed.

Lemma only_vars_steady s s1 : only_vars s s1 → steady s s1.
Proof. intros [-> _]. by constructor. Qed.

(** *** Sequencing *)

Lemma returns_ret {A} (a : A) s Q : Q a s → returns (CRet a) s Q.
Proof. by intros H b s' [= <- <-]. Qed.

Lemma returns_mono {A} (c : ccode A) s (P Q : A → _ → Prop) : returns c s P → (∀ a s1, P a s1 → Q a s1) → returns c s Q.
Proof. intros H HQ a s' E. by apply HQ, H. Qed.

Lemma returns_bind {A B} (c : ccode A) (f : A → ccode B) s Q :
  returns c s (λ a s1, returns (f a) s1 Q) → returns (code_bind c f) s Q.
Proof.
  intros H b s' E. rewrite exec_code_bind in E. destruct (run c s) as [[a|e] s1] eqn:E1; [|done]. exact (H _ _ E1 _ _ E).
Qed.

Lemma returns_lift {A} (r : result A) s Q : (∀ a, r = Ok a → Q a s) → returns (lift_code r) s Q.
Proof. intros H a s' E. destruct r; [|done]. injection E as <- <-. by apply H. Qed.

Lemma returns_throw_if b e s Q : (b = false → Q tt s) → returns (code_throw_if b e) s Q.
Proof. intros H. apply returns_lift. intros [] Hb%throw_if_ok. by apply H. Qed.

Lemma ends_ret {A} (a : A) s Q : Q a s → ends (CRet a) s Q.
Proof. intros H. by exists a, s. Qed.

Lemma ends_mono {A} (c : ccode A) s (P Q : A → _ → Prop) : ends c s P → (∀ a s1, P a s1 → Q a s1) → ends c s Q.
Proof. intros (a & s' & H & HP) HQ. exists a, s'. auto. Qed.

Lemma ends_bind {A B} (c : ccode A) (f : A → ccode B) s Q :
  ends c s (λ a s1, ends (f a) s1 Q) → ends (code_bind c f) s Q.
Proof. intros (a & s1 & E & b & s' & E' & H). exists b, s'. by rewrite exec_code_bind, E. Qed.

Lemma ends_lift {A} (r : result A) a s Q : r = Ok a → Q a s → ends (lift_code r) s Q.
Proof. intros -> H. by exists a, s. Qed.

Lemma ends_throw_if b e s Q : b = false → Q tt s → ends (code_throw_if b e) s Q.
Proof. intros -> H. by exists tt, s. Qed.

(** *** Variables *)

Lemma returns_use {A} i (op : M contract_var A) s Q :
  (∀ a v v' s1, vars (call_ s) !! i = Some v → op v = (Ok a, v') → reads s1 = <[i := sv_get v']> (reads s) →
    steady s s1 → Q a s1) → returns (use i op CRet) s Q.
Proof.
  intros H a s' E. cbn [exec use] in E. unfold mtry, use_variable, run_on in E.
  destruct (vars (call_ s) !! i) as [v|] eqn:Hv; [|by destruct (callLogger_ s); [|case_decide]].
  destruct (op v) as [r v'] eqn:Ho. set (c0 := if _ && _ then _ else _) in E.
  assert (Hr : reads (with_call s c0) = <[i := sv_get v']> (reads s)).
  { unfold reads. cbn [call_ with_call]. rewrite <- list_fmap_insert. f_equal. unfold c0. by destruct (_ && _). }
  assert (E' : (match r with Ok c => (Ok c, with_call s c0) | Throw e => (Throw e, with_call s c0) end) = (Ok a, s')).
  { destruct (callLogger_ s); [|case_decide; [|done]]; by destruct r as [|[]]. }
  destruct r as [b|e]; [|done]. injection E' as <- <-. by apply (H b v v' (with_call s c0)).
Qed.

Lemma reads_same s s1 i v v' :
  vars (call_ s) !! i = Some v → sv_get v' = sv_get v → reads s1 = <[i := sv_get v']> (reads s) → reads s1 = reads s.
Proof. intros Hv -> ->. apply list_insert_id. unfold reads. by rewrite list_lookup_fmap, Hv. Qed.

Lemma returns_get_uint i s Q :
  (∀ x s1, reads s !! i = Some (UintVal x) → reads s1 = reads s → steady s s1 → Q x s1) → returns (get_uint i) s Q.
Proof.
  intros H. apply returns_use. intros a v v' s1 Hv Ho Hr Hs. destruct v as [v|v|v|v|v|v|v|v|v|v]; try done.
  cbn in Ho. injection Ho as <- <-. apply H; [|apply (reads_same s s1 i _ _ Hv) in Hr; [done|]|done].
  - unfold reads. by rewrite list_lookup_fmap, Hv.
  - cbn. by rewrite cell_get_check.
Qed.

Lemma returns_update_uint i (f : Z → result Z) s Q :
  (∀ x y s1, reads s !! i = Some (UintVal x) → f x = Ok y → reads s1 = <[i := UintVal y]> (reads s) → steady s s1 → Q tt s1) →
  returns (update_uint i f) s Q.
Proof.
  intros H. apply returns_use. intros a v v' s1 Hv Ho Hr Hs. destruct v as [v|v|v|v|v|v|v|v|v|v]; try done. cbn [on_uint] in Ho.
  assert (Hsp := cell_update_spec f v). destruct (cell_update f v) as [r v1]. injection Ho as -> <-.
  destruct (f (cell_get v)) as [y|e] eqn:Ef; destruct Hsp as [E Hg]; [|done]. destruct a.
  apply (H (cell_get v) y); [|done| |done].
  - unfold reads. by rewrite list_lookup_fmap, Hv.
  - by rewrite Hr; cbn; rewrite Hg.
Qed.

Lemma returns_set_uint i x s Q :
  (∀ s1, reads s1 = <[i := UintVal x]> (reads s) → steady s s1 → Q tt s1) → returns (set_uint i x) s Q.
Proof. intros H. apply (returns_update_uint i (λ _, Ok x)). intros z y s1 _ [= <-] Hr Hs. by apply H. Qed.

Lemma returns_get_address i s Q :
  (∀ x s1, reads s !! i = Some (AddressVal x) → reads s1 = reads s → steady s s1 → Q x s1) → returns (get_address i) s Q.
Proof.
  intros H. apply returns_use. intros a v v' s1 Hv Ho Hr Hs. destruct v as [v|v|v|v|v|v|v|v|v|v]; try done.
  cbn in Ho. injection Ho as <- <-. apply H; [|apply (reads_same s s1 i _ _ Hv) in Hr; [done|]|done].
  - unfold reads. by rewrite list_lookup_fmap, Hv.
  - cbn. by rewrite cell_get_check.
Qed.

Lemma ends_use {A} i (op : M contract_var A) s a v v' Q :
  is_Some (callLogger_ s) → vars (call_ s) !! i = Some v → op v = (Ok a, v') →
  (∀ s1, reads s1 = <[i := sv_get v']> (reads s) → locks s1 = <[i := lock_of v']> (locks s) → steady s s1 →
    locals_ s1 = locals_ s → Q a s1) → ends (use i op CRet) s Q.
Proof.
  intros [m Hm] Hv Ho H. unfold ends. cbn [exec use]. unfold mtry, use_variable, run_on. rewrite Hv, Ho, Hm.
  set (c0 := if _ && _ then _ else _). exists a, (with_call s c0). split; [done|].
  assert (Hc : vars c0 = <[i := v']> (vars (call_ s))) by (unfold c0; by destruct (_ && _)).
  apply H; try done; unfold reads, locks; cbn [call_ with_call]; by rewrite Hc, list_fmap_insert.
Qed.

Lemma reads_var s i x : reads s !! i = Some x → ∃ v, vars (call_ s) !! i = Some v ∧ sv_get v = x.
Proof. apply reads_lookup. Qed.

Lemma locks_same s s1 i v v' :
  vars (call_ s) !! i = Some v → lock_of v' = lock_of v → locks s1 = <[i := lock_of v']> (locks s) → locks s1 = locks s.
Proof. intros Hv -> ->. apply list_insert_id. unfold locks. by rewrite list_lookup_fmap, Hv. Qed.

(** A state like [s] in everything a contract can see. *)
Record like s s1 : Prop := {
  like_reads : reads s1 = reads s;
  like_locks : locks s1 = locks s;
  like_steady : steady s s1;
  like_locals : locals_ s1 = locals_ s
}.

#[export] Instance like_preorder : PreOrder like.
Proof.
  split; [by intros s; constructor|]. intros s1 s2 s3 [? ? H1 ?] [? ? H2 ?].
  constructor; [congruence|congruence|by transitivity s2|congruence].
Qed.

Lemma ends_get_uint i x s Q :
  is_Some (callLogger_ s) → reads s !! i = Some (UintVal x) → (∀ s1, like s s1 → Q x s1) → ends (get_uint i) s Q.
Proof.
  intros Hm (v & Hv & Hx)%reads_var H. destruct v as [v|v|v|v|v|v|v|v|v|v]; try done. injection Hx as <-.
  eapply (ends_use _ _ _ _ (UintVar v) (UintVar (cell_check v))); [done|done|done|]. intros s1 Hr Hk Hs Hl.
  apply H. constructor; [|by apply (locks_same s s1 i _ _ Hv) in Hk|done|done].
  apply (reads_same s s1 i _ _ Hv) in Hr; [done|]. cbn. by rewrite cell_get_check.
Qed.

Lemma ends_get_address i x s Q :
  is_Some (callLogger_ s) → reads s !! i = Some (AddressVal x) → (∀ s1, like s s1 → Q x s1) → ends (get_address i) s Q.
Proof.
  intros Hm (v & Hv & Hx)%reads_var H. destruct v as [v|v|v|v|v|v|v|v|v|v]; try done. injection Hx as <-.
  eapply (ends_use _ _ _ _ (AddressVar v) (AddressVar (cell_check v))); [done|done|done|]. intros s1 Hr Hk Hs Hl.
  apply H. constructor; [|by apply (locks_same s s1 i _ _ Hv) in Hk|done|done].
  apply (reads_same s s1 i _ _ Hv) in Hr; [done|]. cbn. by rewrite cell_get_check.
Qed.

Lemma ends_update_uint i (f : Z → result Z) x y s Q :
  is_Some (callLogger_ s) → reads s !! i = Some (UintVal x) → f x = Ok y →
  (∀ s1, reads s1 = <[i := UintVal y]> (reads s) → locks s1 = locks s → steady s s1 → locals_ s1 = locals_ s → Q tt s1) →
  ends (update_uint i f) s Q.
Proof.
  intros Hm (v & Hv & Hx)%reads_var Hf H. destruct v as [v|v|v|v|v|v|v|v|v|v]; try done. injection Hx as <-.
  assert (Hsp := cell_update_spec f v). cbn [sv_get cell_SafeVariable] in Hf. destruct (cell_update f v) as [r v1] eqn:E.
  rewrite Hf in Hsp. destruct Hsp as [-> Hg].
  eapply (ends_use _ _ _ _ (UintVar v) (UintVar v1)); [done|done|by cbn [on_uint]; rewrite E|]. intros s1 Hr Hk Hs Hl.
  apply H; [|by apply (locks_same s s1 i _ _ Hv) in Hk|done|done]. by rewrite Hr; cbn; rewrite Hg.
Qed.

Lemma ends_set_uint i x z s Q :
  is_Some (callLogger_ s) → reads s !! i = Some (UintVal z) →
  (∀ s1, reads s1 = <[i := UintVal x]> (reads s) → locks s1 = locks s → steady s s1 → locals_ s1 = locals_ s → Q tt s1) →
  ends (set_uint i x) s Q.
Proof. intros Hm Hz H. by apply (ends_update_uint i (λ _, Ok x) z x). Qed.

(** A lookup in a map. *)
Lemma returns_find i key s Q :
  (∀ m s1, reads s !! i = Some (MapVal m) → reads s1 = reads s → steady s s1 → Q (m !! key) s1) →
  returns (use i (on_map (sm_find_const key)) CRet) s Q.
Proof.
  intros H. apply returns_use. intros a v v' s1 Hv Ho Hr Hs. destruct v as [v|v|v|v|v|v|v|v|v|v]; try done.
  destruct (checkKeyAndCopy_spec key v) as (C1 & C2 & _). cbn [on_map sm_find_const] in Ho. rewrite C2 in Ho. injection Ho as <- <-.
  apply H; [|apply (reads_same s s1 i _ _ Hv) in Hr; [done|]|done].
  - unfold reads. by rewrite list_lookup_fmap, Hv.
  - cbn. by rewrite C1.
Qed.

Lemma ends_find i key m s Q :
  is_Some (callLogger_ s) → reads s !! i = Some (MapVal m) → (∀ s1, like s s1 → Q (m !! key) s1) →
  ends (use i (on_map (sm_find_const key)) CRet) s Q.
Proof.
  intros Hm (v & Hv & Hx)%reads_var H. destruct v as [v|v|v|v|v|v|v|v|v|v]; try done. injection Hx as <-.
  destruct (checkKeyAndCopy_spec key v) as (C1 & C2 & _).
  eapply (ends_use _ _ _ _ (MapVar v) (MapVar (checkKeyAndCopy key v))); [done|done|by cbn [on_map sm_find_const]; rewrite C2|].
  intros s1 Hr Hk Hs Hl. apply H. constructor; [|by apply (locks_same s s1 i _ _ Hv) in Hk|done|done].
  apply (reads_same s s1 i _ _ Hv) in Hr; [done|]. cbn. by rewrite C1.
Qed.

(** *** The guard *)

Lemma run_use {A B} i (op : M contract_var A) (k : A → ccode B) s : run (use i op k) s = run (code_bind (use i op CRet) k) s.
Proof.
  rewrite exec_code_bind. cbn [exec use]. unfold mtry. destruct (use_variable i op s) as [r s1]. destruct r as [a|[]]; done.
Qed.

Lemma returns_lock_op i (op : M contract_var unit) s Q :
  op = guard_lock ∨ op = guard_unlock → (∀ s1, reads s1 = reads s → steady s s1 → Q tt s1) → returns (use i op CRet) s Q.
Proof.
  intros Hop H. apply returns_use. intros [] v v' s1 Hv Ho Hr Hs.
  assert (Hg : sv_get v' = sv_get v) by (destruct Hop as [-> | ->]; destruct v as [v|v|v|v|v|v|v|v|v|[]]; cbn in Ho; by simplify_eq).
  apply H; [|done]. by apply (reads_same s s1 i _ _ Hv) in Hr.
Qed.

(** What the guarded code establishes of the values holds at the end. *)
Lemma returns_guard {A} i (c : ccode A) s (Q : A → _ → Prop) :
  (∀ s1, reads s1 = reads s → steady s s1 → returns c s1 (λ a s2, ∀ s3, reads s3 = reads s2 → steady s2 s3 → Q a s3)) →
  returns (in_guard i c) s Q.
Proof.
  intros H a s' E. unfold in_guard in E. rewrite run_use in E. revert a s' E. apply returns_bind.
  apply returns_lock_op; [by left|]. intros s1 Hr Hs a s' E. rewrite exec_code_try in E. unfold mtry in E.
  destruct (run c s1) as [r s2] eqn:E1.
  assert (Hu : ∀ r : result A, run (use i guard_unlock (λ _, lift_code r)) s2 = (Ok a, s') →
    r = Ok a ∧ reads s' = reads s2 ∧ steady s2 s').
  { intros r0 E0. rewrite run_use, exec_code_bind in E0.
    destruct (run (use i guard_unlock CRet) s2) as [[[]|e] s3] eqn:E3; [|done].
    destruct r0 as [b|e]; [|done]. injection E0 as <- <-. split; [done|].
    revert E3. apply (returns_lock_op i guard_unlock s2 (λ _ s3, reads s3 = reads s2 ∧ steady s2 s3)); [by right|done]. }
  destruct r as [b|e].
  - apply Hu in E as ([= ->] & ? & ?). by apply (H s1 Hr Hs _ _ E1).
  - by destruct e; first [done|apply Hu in E as ([=] & _)].
Qed.

Lemma lock_reads s i b : locks s !! i = Some (Some b) → vars (call_ s) !! i = Some (LockVar b).
Proof. unfold locks. rewrite list_lookup_fmap. intros (v & -> & Hb)%fmap_Some. destruct v; try done. by injection Hb as ->. Qed.

Lemma ends_guard {A} i (c : ccode A) s (Q : A → _ → Prop) :
  is_Some (callLogger_ s) → locks s !! i = Some (Some false) →
  (∀ s1, reads s1 = reads s → locks s1 = <[i := Some true]> (locks s) → steady s s1 → locals_ s1 = locals_ s →
    ends c s1 (λ a s2, is_Some (callLogger_ s2) ∧ locks s2 = locks s1 ∧
      ∀ s3, reads s3 = reads s2 → locks s3 = locks s → steady s2 s3 → locals_ s3 = locals_ s2 → Q a s3)) →
  ends (in_guard i c) s Q.
Proof.
  intros Hm Hl H. assert (Hv := lock_reads _ _ _ Hl).
  assert (H1 : ends (use i guard_lock CRet) s (λ _ s1, reads s1 = reads s ∧ locks s1 = <[i := Some true]> (locks s) ∧ steady s s1 ∧ locals_ s1 = locals_ s)).
  { eapply (ends_use _ _ _ _ (LockVar false) (LockVar true)); [done|done|done|]. intros s1 Hr Hk Hs Hlo. split_and!; try done.
    by apply (reads_same s s1 i _ _ Hv) in Hr. }
  destruct H1 as ([] & s1 & E1 & Hr & Hk & Hs & Hlo). destruct (H s1 Hr Hk Hs Hlo) as (a & s2 & E2 & Hm2 & Hk2 & HQ).
  assert (Hv2 : vars (call_ s2) !! i = Some (LockVar true)).
  { apply lock_reads. rewrite Hk2, Hk. apply list_lookup_insert_eq. by eapply lookup_lt_Some. }
  assert (H3 : ends (use i guard_unlock CRet) s2 (λ _ s3, reads s3 = reads s2 ∧ locks s3 = locks s ∧ steady s2 s3 ∧ locals_ s3 = locals_ s2)).
  { eapply (ends_use _ _ _ _ (LockVar true) (LockVar false)); [done|done|done|]. intros s3 Hr3 Hk3 Hs3 Hlo3. split_and!; try done.
    - by apply (reads_same s2 s3 i _ _ Hv2) in Hr3.
    - rewrite Hk3, Hk2, Hk. cbn. rewrite list_insert_insert_eq. by apply list_insert_id. }
  destruct H3 as ([] & s3 & E3 & Hr3 & Hk3 & Hs3 & Hlo3). exists a, s3. split; [|by apply HQ].
  unfold in_guard. rewrite run_use, exec_code_bind, E1. rewrite exec_code_try. unfold mtry. rewrite E2.
  rewrite run_use, exec_code_bind, E3. done.
Qed.

Lemma run_lock_op i (op : M contract_var unit) s b r b' :
  vars (call_ s) !! i = Some (LockVar b) → op (LockVar b) = (r, LockVar b') →
  ∃ s1, run (use i op CRet) s = (r, s1) ∧ vars (call_ s1) !! i = Some (LockVar b').
Proof.
  intros Hv Ho. exists (with_call s (mkCall (<[i := LockVar b']> (vars (call_ s))) (usedVars_ (call_ s)))). split.
  - cbn [exec use]. unfold mtry, use_variable, run_on. rewrite Hv, Ho. cbn [sv_base contract_variable registered_ negb andb vars usedVars_].
    destruct (callLogger_ s); [|rewrite decide_True by done]; by destruct r as [[]|[]].
  - cbn. apply list_lookup_insert_eq. by eapply lookup_lt_Some.
Qed.

(** The guard is free again however the guarded code leaves, and code that enters it again throws. *)
Theorem guard_freed {A} i (c : ccode A) s :
  (locks s !! i = Some (Some false) → ∀ r s', run (in_guard i c) s = (r, s') → r ≠ Throw Undefined → locks s' !! i = Some (Some false)) ∧
  (locks s !! i = Some (Some true) →
   (run (in_guard i c) s).1 = Throw (DynamicException "ReentrancyGuard: reentrancy attack detected")).
Proof.
  split; intros Hl%lock_reads.
  - intros r s' E Hr. destruct (run_lock_op i guard_lock s false (Ok tt) true Hl eq_refl) as (s1 & E1 & _).
    unfold in_guard in E. rewrite run_use, exec_code_bind, E1, exec_code_try in E. unfold mtry in E.
    destruct (run c s1) as [r1 s2].
    assert (Hu : ∀ r1 : result A, run (use i guard_unlock (λ _, lift_code r1)) s2 = (r, s') → locks s' !! i = Some (Some false)).
    { intros r0 E0. rewrite run_use, exec_code_bind in E0. destruct (vars (call_ s2) !! i) as [v|] eqn:Hv.
      2:{ cbn [exec use] in E0. unfold mtry, use_variable, run_on in E0. rewrite Hv in E0.
          destruct (callLogger_ s2); [|rewrite decide_True in E0 by done]; by injection E0 as <- <-. }
      destruct (lock_of v) as [b|] eqn:Hb.
      - destruct v; try done. destruct (run_lock_op i guard_unlock s2 lock (Ok tt) false Hv eq_refl) as (s3 & E3 & H3).
        rewrite E3 in E0. assert (s' = s3) as -> by (destruct r0; by injection E0 as _ <-). unfold locks. by rewrite list_lookup_fmap, H3.
      - cbn [exec use] in E0. unfold mtry, use_variable, run_on in E0. rewrite Hv in E0.
        assert (Ho : guard_unlock v = (Throw Undefined, v)) by by destruct v. rewrite Ho in E0.
        destruct (callLogger_ s2); [|case_decide]; by injection E0 as <- <-. }
    destruct r1 as [a|e]; [by apply (Hu (Ok a))|]. destruct e; try (by eapply Hu). by injection E as <- _.
  - destruct (run_lock_op i guard_lock s true (Throw (DynamicException "ReentrancyGuard: reentrancy attack detected")) true Hl eq_refl) as (s1 & E1 & _).
    unfold in_guard. by rewrite run_use, exec_code_bind, E1.
Qed.

(** *** Calls of other contracts *)

Lemma with_locals_like s ls : reads (with_locals s ls) = reads s ∧ locks (with_locals s ls) = locks s ∧ steady s (with_locals s ls).
Proof. done. Qed.

Lemma returns_call {A} self target cast (body : nat → ccode A) s Q :
  (∀ c s1, contracts_ s !! target = Some c → cast (contractName_ c) = true → reads s1 = reads s → steady s s1 →
    caller_ (locals_of s1 target) = self → returns (body (first_var_ c)) s1 Q) →
  returns (callContractFunction self target cast body) s Q.
Proof.
  intros H a s' E. unfold callContractFunction in E. cbn [exec] in E. unfold mbind' at 1, mget at 1, mtry in E.
  set (o := origin_ (locals_of s self)) in *. unfold call_function, with_balances in E.
  destruct (callLogger_ s) as [m|]; [|done]. cbn [Z.eqb mret' mbind' mget] in E. unfold mbind', mret', mget in E.
  destruct (contracts_ s !! target) as [c|] eqn:Hc.
  2:{ unfold mthrow_if in E. rewrite bool_decide_eq_false_2 in E by by intros []. done. }
  unfold mthrow_if in E. rewrite bool_decide_eq_true_2 in E by done. cbn [negb] in E. unfold mret' in E. unfold getContract in E. rewrite Hc in E.
  destruct (cast (contractName_ c)) eqn:Hcast; [|done]. cbn [mmodify] in E. unfold rethrow, mtry in E.
  set (s1 := setContractVars target o self 0 s) in *.
  assert (Hloc : caller_ (locals_of s1 target) = self).
  { unfold s1, setContractVars, locals_of. cbn. by rewrite lookup_insert_eq. }
  destruct (run (body (first_var_ c)) s1) as [r s2] eqn:E2. destruct r as [b|e]; [|by destruct e].
  injection E as <- <-. exact (H c s1 eq_refl Hcast eq_refl ltac:(by constructor) Hloc _ _ E2).
Qed.

Lemma ends_call {A} self target cast (body : nat → ccode A) c s Q :
  is_Some (callLogger_ s) → contracts_ s !! target = Some c → cast (contractName_ c) = true →
  (∀ s1, reads s1 = reads s → locks s1 = locks s → steady s s1 → caller_ (locals_of s1 target) = self →
    ends (body (first_var_ c)) s1 Q) →
  ends (callContractFunction self target cast body) s Q.
Proof.
  intros [m Hm] Hc Hcast H. set (s1 := setContractVars target (origin_ (locals_of s self)) self 0 s).
  destruct (H s1) as (a & s2 & E2 & HQ); [done|done|by constructor|..].
  { unfold s1, setContractVars, locals_of. cbn. by rewrite lookup_insert_eq. }
  exists a, s2. split; [|done]. unfold callContractFunction. cbn [exec]. unfold mbind' at 1, mget at 1, mtry.
  unfold call_function, with_balances. rewrite Hm. cbn [Z.eqb]. unfold mbind', mret', mget. unfold mthrow_if.
  rewrite Hc, bool_decide_eq_true_2 by done. cbn [negb]. unfold mret', getContract. rewrite Hc, Hcast. cbn [mmodify].
  unfold rethrow, mtry. fold s1. rewrite E2. done.
Qed.

Lemma returns_view {A} target cast (body : nat → ccode A) s Q :
  (∀ c, contracts_ s !! target = Some c → cast (contractName_ c) = true → returns (body (first_var_ c)) s Q) →
  returns (callContractViewFunction target cast body) s Q.
Proof.
  intros H a s' E. unfold callContractViewFunction in E. cbn [exec] in E. unfold mtry, mbind', getContract in E.
  destruct (contracts_ s !! target) as [c|] eqn:Hc; [|done]. destruct (cast (contractName_ c)) eqn:Hcast; [|done].
  destruct (run (body (first_var_ c)) s) as [r s2] eqn:E2. destruct r as [b|e]; [|by destruct e]. injection E as <- <-.
  exact (H c eq_refl Hcast _ _ E2).
Qed.

Lemma ends_view {A} target cast (body : nat → ccode A) c s Q :
  contracts_ s !! target = Some c → cast (contractName_ c) = true → ends (body (first_var_ c)) s Q →
  ends (callContractViewFunction target cast body) s Q.
Proof.
  intros Hc Hcast (a & s2 & E2 & HQ). exists a, s2. split; [|done]. unfold callContractViewFunction. cbn [exec].
  unfold mtry, mbind', getContract. rewrite Hc, Hcast, E2. done.
Qed.

(** *** Code that only reads

    [gives c s r]: the code ends with the result [r], whatever it is, in a state like [s]. *)
Definition gives {A} (c : ccode A) s (r : result A) : Prop := ∃ s1, run c s = (r, s1) ∧ like s s1.

Lemma gives_ret {A} (a : A) s : gives (CRet a) s (Ok a).
Proof. by exists s. Qed.

Lemma gives_lift {A} (r : result A) s : gives (lift_code r) s r.
Proof. exists s. by destruct r. Qed.

Lemma gives_bind {A B} (c : ccode A) (f : A → ccode B) s r (g : A → result B) :
  gives c s r → (∀ a s1, r = Ok a → like s s1 → gives (f a) s1 (g a)) → gives (code_bind c f) s (x ← r; g x).
Proof.
  intros (s1 & E & L) H. unfold gives. rewrite exec_code_bind, E. destruct r as [a|e]; [|by exists s1].
  destruct (H a s1 eq_refl L) as (s2 & E2 & L2). exists s2. split; [done|by transitivity s1].
Qed.

Lemma gives_throw_if b e s : gives (code_throw_if b e) s (throw_if b e).
Proof. apply gives_lift. Qed.

(** What [getContract] finds. *)
Definition contract_of s (target : list Z) (cast : string → bool) : result (DynamicContract (V := contract_var)) := (getContract target cast s).1.

Lemma gives_view {A} target cast (body : nat → ccode A) s (r : nat → result A) :
  (∀ n, gives (body n) s (r n)) → gives (callContractViewFunction target cast body) s (c ← contract_of s target cast; r (first_var_ c)).
Proof.
  intros H. unfold gives, callContractViewFunction, contract_of, getContract. cbn [exec]. unfold mtry, mbind', getContract.
  destruct (contracts_ s !! target) as [c|]; [|by exists s]. destruct (cast (contractName_ c)); [|by exists s].
  destruct (H (first_var_ c)) as (s1 & -> & L). exists s1. cbn. split; [|done]. by destruct (r (first_var_ c)) as [|[]].
Qed.

(** An operation on a variable that does not change what it reads as. *)
Lemma gives_use {A} i (op : M contract_var A) s (rd : contract_value → result A) :
  is_Some (callLogger_ s) → (∀ v r v', op v = (r, v') → r = rd (sv_get v) ∧ sv_get v' = sv_get v ∧ lock_of v' = lock_of v) →
  gives (use i op CRet) s (match reads s !! i with Some x => rd x | None => Throw Undefined end).
Proof.
  intros [m Hm] Hop. unfold gives. cbn [exec use]. unfold mtry, use_variable, run_on, reads at 1. rewrite list_lookup_fmap.
  destruct (vars (call_ s) !! i) as [v|] eqn:Hv; [|rewrite Hm; by exists s; destruct s].
  cbn [fmap option_fmap option_map]. destruct (op v) as [r v'] eqn:Ho. destruct (Hop _ _ _ Ho) as (-> & Hg & Hl).
  set (c0 := if _ && _ then _ else _). rewrite Hm. exists (with_call s c0).
  assert (Hc : vars c0 = <[i := v']> (vars (call_ s))) by (unfold c0; by destruct (_ && _)).
  split; [by destruct (rd (sv_get v)) as [|[]]|]. constructor; [..|by constructor|done].
  - apply (reads_same s _ i v v' Hv Hg). unfold reads. cbn [call_ with_call]. by rewrite Hc, list_fmap_insert.
  - apply (locks_same s _ i v v' Hv Hl). unfold locks. cbn [call_ with_call]. by rewrite Hc, list_fmap_insert.
Qed.

Definition read_uint s (i : nat) : result Z :=
  match reads s !! i with Some (UintVal x) => Ok x | _ => Throw Undefined end.
Definition read_address s (i : nat) : result (list Z) :=
  match reads s !! i with Some (AddressVal a) => Ok a | _ => Throw Undefined end.

Lemma gives_get_uint i s : is_Some (callLogger_ s) → gives (get_uint i) s (read_uint s i).
Proof.
  intros Hm. assert (H := gives_use i (on_uint SafeUint_get) s (λ x, match x with UintVal x => Ok x | _ => Throw Undefined end) Hm).
  unfold read_uint. destruct (reads s !! i) as [[]|]; apply H; intros [v|v|v|v|v|v|v|v|v|v] r v'; cbn; intros [= <- <-]; cbn; by rewrite ?cell_get_check.
Qed.
Lemma gives_get_address i s : is_Some (callLogger_ s) → gives (get_address i) s (read_address s i).
Proof.
  intros Hm. assert (H := gives_use i (on_address SafeAddress_get) s (λ x, match x with AddressVal x => Ok x | _ => Throw Undefined end) Hm).
  unfold read_address. destruct (reads s !! i) as [[]|]; apply H; intros [v|v|v|v|v|v|v|v|v|v] r v'; cbn; intros [= <- <-]; cbn; by rewrite ?cell_get_check.
Qed.

Lemma like_logger s s1 : like s s1 → is_Some (callLogger_ s) → is_Some (callLogger_ s1).
Proof. intros H. by rewrite (steady_logger _ _ (like_steady _ _ H)). Qed.

(** The two other judgements, for code that only reads. *)
Lemma returns_gives {A} (c : ccode A) r s (Q : A → _ → Prop) : gives c s r → (∀ a s1, r = Ok a → like s s1 → Q a s1) → returns c s Q.
Proof. intros (s1 & E & L) H a s' E'. rewrite E in E'. injection E' as -> <-. by apply H. Qed.

Lemma ends_gives {A} (c : ccode A) a s (Q : A → _ → Prop) : gives c s (Ok a) → (∀ s1, like s s1 → Q a s1) → ends c s Q.
Proof. intros (s1 & E & L) H. exists a, s1. auto. Qed.

Lemma like_contract_of s s1 target cast : like s s1 → contract_of s1 target cast = contract_of s target cast.
Proof.
  intros L. unfold contract_of, getContract. rewrite (steady_contracts _ _ (like_steady _ _ L)).
  destruct (contracts_ s !! target) as [c|]; [by destruct (cast (contractName_ c))|done].
Qed.
Lemma like_read_uint s s1 i : like s s1 → read_uint s1 i = read_uint s i.
Proof. intros L. unfold read_uint. by rewrite (like_reads _ _ L). Qed.
Lemma like_read_address s s1 i : like s s1 → read_address s1 i = read_address s i.
Proof. intros L. unfold read_address. by rewrite (like_reads _ _ L). Qed.

Lemma gives_globals s : gives (CGlobals CRet) s (Ok (globals_ s)).
Proof. by exists s. Qed.
Lemma gives_locals {A} self (f : ContractLocals → A) s : gives (CLocals self (λ l, CRet (f l))) s (Ok (f (locals_of s self))).
Proof. by exists s. Qed.
Lemma like_globals s s1 : like s s1 → globals_ s1 = globals_ s.
Proof. intros L. by rewrite (steady_globals _ _ (like_steady _ _ L)). Qed.
Lemma like_locals_of s s1 self : like s s1 → locals_of s1 self = locals_of s self.
Proof. intros L. unfold locals_of. by rewrite (like_locals _ _ L). Qed.
End logic.
