(* ===== verification/CodeSpec.v ===== *)
(** * CodeSpec: code against the steps of a specification

    A contract keeps some of the variables of a call; [abs] reads what they stand for, an element of [X], off the values, and
    [own] says which indices are the contract's.  [does c s o]: run in [s], the code does what [o] says, [Some (a, x)] that it
    returns [a] and leaves [x], [None] that it throws; nothing else changes.  The functions of a contract are compared with pure functions
    through the rules of this file. *)

From S2P Require Import Prelude Bytes SizedInts Hashing SafeBase SafeCell SafeUint SafeVector SafeMap Tx Randomness Abi Hex Event EvmHost ContractManager ContractVars ContractLogic.

(** ** The kinds of map *)

(** A class of maps among the variables: the constructor of the variable, the operations on it, and what it reads as. *)
Record map_kind (K : Type) `{Countable K} (T : Type) := {
  mk_wrap : SafeMapOf K T → contract_var;
  mk_on : ∀ A, M (SafeMapOf K T) A → M contract_var A;
  mk_val : gmap K T → contract_value;
  mk_get : ∀ v, sv_get (mk_wrap v) = mk_val (sm_view v);
  mk_lock : ∀ v, lock_of (mk_wrap v) = None;
  mk_on_wrap : ∀ A (op : M (SafeMapOf K T) A) v, mk_on A op (mk_wrap v) = let '(r, v') := op v in (r, mk_wrap v');
  mk_inv : ∀ v m, sv_get v = mk_val m → ∃ u, v = mk_wrap u ∧ sm_view u = m
}.
Arguments mk_wrap {K _ _ T}.
Arguments mk_on {K _ _ T} _ {A}.
Arguments mk_val {K _ _ T}.
Arguments mk_get {K _ _ T}.
Arguments mk_lock {K _ _ T}.
Arguments mk_on_wrap {K _ _ T}.
Arguments mk_inv {K _ _ T}.

Ltac map_kind_laws := first [done | intros [v|v|v|v|v|v|v|v|v|v] m; cbn; intros [= <-]; eexists; done].
Definition balances_kind : map_kind (list Z) Z.
Proof. refine {| mk_wrap := MapVar; mk_on A op := on_map op; mk_val := MapVal |}; abstract map_kind_laws. Defined.
Definition nested_kind : map_kind (list Z) (gmap (list Z) Z).
Proof. refine {| mk_wrap := NestedVar; mk_on A op := on_nested op; mk_val := NestedVal |}; abstract map_kind_laws. Defined.
Definition address_map_kind : map_kind (list Z) (gmap (list Z) (list Z)).
Proof. refine {| mk_wrap := AddressMapVar; mk_on A op := on_address_map op; mk_val := AddressMapVal |}; abstract map_kind_laws. Defined.
Definition token_map_kind : map_kind Z (list Z).
Proof. refine {| mk_wrap := TokenMapVar; mk_on A op := on_token_map op; mk_val := TokenMapVal |}; abstract map_kind_laws. Defined.
Definition operators_kind : map_kind (list Z) (gmap (list Z) bool).
Proof. refine {| mk_wrap := OperatorsVar; mk_on A op := on_operators op; mk_val := OperatorsVal |}; abstract map_kind_laws. Defined.

Section does.
Context {BB : BoostBits} {KC : Keccak} {BR : BoostResidue} {CT : ContractTypes (V := contract_var)}.
Variables (bal : list Z → Z) (chainOwner : list Z) (chainId : Z).
Context {X : Type} (abs : list contract_value → option X) (own : nat → bool).
Implicit Types s : ContractManager (V := contract_var).
Abbreviation run := (exec bal chainOwner chainId).

(** Only the contract's variables have changed. *)
Record framed s s1 : Prop := {
  framed_only : only_vars s s1;
  framed_length : length (reads s1) = length (reads s);
  framed_reads : ∀ i, own i = false → reads s1 !! i = reads s !! i
}.

#[export] Instance framed_preorder : PreOrder framed.
Proof.
  split; [by intros s|]. intros s1 s2 s3 [S1 L1 R1] [S2 L2 R2].
  constructor; [by transitivity s2|congruence|intros i Hi; by rewrite R2, R1].
Qed.

Lemma framed_steady s s1 : framed s s1 → steady s s1.
Proof. intros [H _ _]. by apply only_vars_steady. Qed.
Lemma framed_locals s s1 : framed s s1 → locals_ s1 = locals_ s.
Proof. intros [[-> _] _ _]. done. Qed.

Definition sees s (x : X) : Prop := is_Some (callLogger_ s) ∧ abs (reads s) = Some x.

Definition does {A} (c : ccode A) s (o : option (A * X)) : Prop :=
  ∃ r s1, run c s = (r, s1) ∧ framed s s1 ∧
    match o with Some (a, x) => r = Ok a ∧ sees s1 x | None => ∃ e, r = Throw e ∧ e ≠ Undefined end.

Lemma framed_logger s s1 : framed s s1 → is_Some (callLogger_ s) → is_Some (callLogger_ s1).
Proof. intros H%framed_steady. by rewrite (steady_logger _ _ H). Qed.

Lemma does_ret {A} (a : A) s x : sees s x → does (CRet a) s (Some (a, x)).
Proof. intros H. by exists (Ok a), s. Qed.

Lemma does_throw {A} e s : e ≠ Undefined → does (CThrow e : ccode A) s None.
Proof. intros H. exists (Throw e), s. split; [done|]. split; [done|]. by exists e. Qed.

Lemma does_bind {A B} (c : ccode A) (f : A → ccode B) s o (g : A → X → option (B * X)) :
  does c s o → (∀ a x s1, o = Some (a, x) → framed s s1 → sees s1 x → does (f a) s1 (g a x)) →
  does (code_bind c f) s (match o with Some (a, x) => g a x | None => None end).
Proof.
  intros (r & s1 & E & F & H) Hf. unfold does. rewrite exec_code_bind, E. destruct o as [[a x]|].
  - destruct H as [-> H]. destruct (Hf a x s1 eq_refl F H) as (r2 & s2 & E2 & F2 & H2). exists r2, s2.
    split; [done|]. split; [by transitivity s1|done].
  - destruct H as (e & -> & He). exists (Throw e), s1. split; [done|]. split; [done|]. by exists e.
Qed.

(** When the first part returns, the rest decides. *)
Lemma does_then {A B} (c : ccode A) (f : A → ccode B) s a x o :
  does c s (Some (a, x)) → (∀ s1, framed s s1 → sees s1 x → does (f a) s1 o) → does (code_bind c f) s o.
Proof. intros H Hf. apply (does_bind c f s (Some (a, x)) (λ _ _, o)); [done|]. intros a' x' s1 [= <- <-]. apply Hf. Qed.

Lemma does_unless {A B} (c : ccode A) (f : A → ccode B) s : does c s None → does (code_bind c f) s None.
Proof. intros H. by apply (does_bind c f s None (λ _ _, None)). Qed.

Lemma does_throw_if b e s x : e ≠ Undefined → sees s x → does (code_throw_if b e) s (if b then None else Some (tt, x)).
Proof. intros He H. destruct b; [by apply does_throw|by apply does_ret]. Qed.

Lemma does_locals {A} self (k : ContractLocals → ccode A) s o : does (k (locals_of s self)) s o → does (CLocals self k) s o.
Proof. done. Qed.

(** An operation on one of the contract's variables. *)
Lemma does_use {A} i (op : M contract_var A) s v r v' o :
  own i = true → is_Some (callLogger_ s) → vars (call_ s) !! i = Some v → op v = (r, v') → lock_of v' = lock_of v →
  match r, o with
  | Ok a, Some (a', x) => a = a' ∧ abs (<[i := sv_get v']> (reads s)) = Some x
  | Throw e, None => e ≠ Undefined
  | _, _ => False
  end → does (use i op CRet) s o.
Proof.
  intros Hi Hm Hv Ho Hlk H. destruct (exec_use bal chainOwner chainId i op CRet s v r v' Hm Hv Ho Hlk) as (s1 & A1 & A2 & A3).
  assert (F : framed s s1).
  { constructor; [done|by rewrite A2, length_insert|]. intros j Hj. rewrite A2. apply list_lookup_insert_ne. intros ->. congruence. }
  unfold does. destruct r as [a|e], o as [[a' x]|]; try done; rewrite A3 by (done || by intros [= ->]).
  - destruct H as [<- H]. exists (Ok a), s1. split; [done|]. split; [done|]. split; [done|]. split; [by eapply framed_logger|by rewrite A2].
  - exists (Throw e), s1. split; [done|]. split; [done|]. by exists e.
Qed.

(** An operation that leaves what its variable reads as, and what is made of its result. *)
Lemma does_look {A B} i (op : M contract_var A) (g : A → B) s v a v' x :
  sees s x → vars (call_ s) !! i = Some v → op v = (Ok a, v') → sv_get v' = sv_get v → lock_of v' = lock_of v →
  does (use i op (λ a, CRet (g a))) s (Some (g a, x)).
Proof.
  intros [Hm Hx] Hv Ho Hg Hlk. destruct (exec_use bal chainOwner chainId i op (λ a, CRet (g a)) s v (Ok a) v' Hm Hv Ho Hlk) as (s1 & A1 & A2 & A3).
  assert (Hr : reads s1 = reads s).
  { rewrite A2, Hg. apply list_insert_id. unfold reads. by rewrite list_lookup_fmap, Hv. }
  assert (F : framed s s1) by (constructor; [done|by rewrite Hr|by intros; rewrite Hr]).
  exists (Ok (g a)), s1. split; [by apply A3|]. split; [done|]. split; [done|]. split; [by eapply framed_logger|by rewrite Hr].
Qed.

(** [operator\[\]] and an assignment through it. *)
Lemma does_modify {K} {EK : EqDecision K} {CK : Countable K} {T A : Type} (kd : map_kind K T) i m d k (f : T → result A * T) s o :
  reads s !! i = Some (mk_val kd m) → own i = true → is_Some (callLogger_ s) →
  match f (default d (m !! k)), o with
  | (Ok a, y), Some (a', x) => a = a' ∧ abs (<[i := mk_val kd (<[k := y]> m)]> (reads s)) = Some x
  | (Throw e, _), None => e ≠ Undefined
  | _, _ => False
  end → does (use i (mk_on kd (sm_modify d k f)) CRet) s o.
Proof.
  intros (w & Hw & (v & -> & Hm)%(mk_inv kd))%reads_var Hi Hlog H.
  assert (Hsp := sm_modify_spec d k f v). rewrite Hm in Hsp. destruct (f (default d (m !! k))) as [r y].
  destruct (sm_modify d k f v) as [r' v'] eqn:E. cbn [fst snd] in Hsp. destruct Hsp as (-> & Hv' & _).
  eapply (does_use i _ s (mk_wrap kd v) r (mk_wrap kd v') o); [done|done|done|by rewrite mk_on_wrap, E|by rewrite !mk_lock|].
  destruct r as [a|e]; [|done]. destruct o as [[a' x]|]; [|done]. by rewrite mk_get, Hv'.
Qed.

(** A lookup, and what is made of it. *)
Lemma does_find {K} {EK : EqDecision K} {CK : Countable K} {T A : Type} (kd : map_kind K T) i m k (g : option T → A) s x :
  sees s x → reads s !! i = Some (mk_val kd m) →
  does (use i (mk_on kd (sm_find_const k)) (λ it, CRet (g it))) s (Some (g (m !! k), x)).
Proof.
  intros H (w & Hw & (v & -> & Hm)%(mk_inv kd))%reads_var. destruct (checkKeyAndCopy_spec k v) as (C1 & C2 & _).
  apply (does_look i _ g s (mk_wrap kd v) (m !! k) (mk_wrap kd (checkKeyAndCopy k v))); [done|done| |by rewrite !mk_get, C1|by rewrite !mk_lock].
  rewrite mk_on_wrap. unfold sm_find_const. by rewrite C2, Hm.
Qed.

(** The lookup that marks the variable as used. *)
Lemma does_find_mut {K} {EK : EqDecision K} {CK : Countable K} {T : Type} (kd : map_kind K T) i m k s x :
  sees s x → reads s !! i = Some (mk_val kd m) → does (use i (mk_on kd (sm_find k)) CRet) s (Some (m !! k, x)).
Proof.
  intros H (w & Hw & (v & -> & Hm)%(mk_inv kd))%reads_var. destruct (checkKeyAndCopy_spec k v) as (C1 & C2 & _).
  apply (does_look i (mk_on kd (sm_find k)) (λ a, a) s (mk_wrap kd v) (m !! k) (mk_wrap kd (sm_mark (checkKeyAndCopy k v)))); [done|done| | |by rewrite !mk_lock].
  - rewrite mk_on_wrap. unfold sm_find. change (sm_tmp (sm_mark ?m)) with (sm_tmp m). by rewrite C2, Hm.
  - rewrite !mk_get. change (sm_view (sm_mark ?m)) with (sm_view m). by rewrite C1.
Qed.

(** The value of an unsigned integer. *)
Lemma does_get_uint i z s x : sees s x → reads s !! i = Some (UintVal z) → does (get_uint i) s (Some (z, x)).
Proof.
  intros H (v & Hv & Hx)%reads_var. destruct v as [v|v|v|v|v|v|v|v|v|v]; try done. injection Hx as <-.
  apply (does_look i (on_uint SafeUint_get) id s (UintVar v) (cell_get v) (UintVar (cell_check v))); [done|done| |by cbn; rewrite cell_get_check|done].
  cbn. by rewrite ?cell_get_check.
Qed.

(** An unsigned integer of the contract. *)
Lemma does_update_uint i (f : Z → result Z) z s o :
  reads s !! i = Some (UintVal z) → own i = true → is_Some (callLogger_ s) →
  match f z, o with
  | Ok y, Some (_, x) => abs (<[i := UintVal y]> (reads s)) = Some x
  | Throw e, None => e ≠ Undefined
  | _, _ => False
  end → does (update_uint i f) s o.
Proof.
  intros (v & Hv & Hx)%reads_var Hi Hlog H. destruct v as [v|v|v|v|v|v|v|v|v|v]; try done. injection Hx as <-.
  assert (Hsp := cell_update_spec f v). cbn [sv_get cell_SafeVariable] in H. destruct (cell_update f v) as [r v1] eqn:E.
  destruct (f (cell_get v)) as [y|e] eqn:Ef; destruct Hsp as [-> Hg].
  - eapply (does_use i _ s (UintVar v) (Ok tt) (UintVar v1) o); [done|done|done|by cbn [on_uint]; rewrite E|done|].
    destruct o as [[[] x]|]; [|done]. split; [done|]. cbn. by rewrite Hg.
  - eapply (does_use i _ s (UintVar v) (Throw e) (UintVar v1) o); [done|done|done|by cbn [on_uint]; rewrite E|done|].
    by destruct o as [[[] x]|].
Qed.
End does.
