(* ===== verification/ERC20.v ===== *)
(** * ERC20: the token contract (src/contract/templates/erc20.{h,cpp})

    The contract as the manager runs it: its functions are [code], its six variables follow each other in
    the list of the manager from the index [n].  [token] is what the contract promises, a supply with
    balances and allowances; the functions refine its operations. *)

From S2P Require Import Prelude Bytes SizedInts Hashing SafeBase SafeCell SafeString SafeUint SafeMap Tx Randomness Abi DB Hex Event EvmHost ContractManager ContractStore ContractVars.

Section erc20.
Context {BB : BoostBits} {KC : Keccak} {BR : BoostResidue}.
Abbreviation code := (code (V := contract_var)).

Section functions.
(** The index of [name_], and the address of the contract. *)
Variables (n : nat) (self : list Z).

Definition v_name : nat := n.
Definition v_symbol : nat := (n + 1)%nat.
Definition v_decimals : nat := (n + 2)%nat.
Definition v_totalSupply : nat := (n + 3)%nat.
Definition v_balances : nat := (n + 4)%nat.
Definition v_allowed : nat := (n + 5)%nat.

(** [balances_\[address\] += value] and [-= value]. *)
Definition add_balance {B} (address : list Z) (value : Z) (k : code B) : code B :=
  use v_balances (on_map (sm_modify 0 address (λ b, checked_add b value))) (λ _, k).
Definition sub_balance {B} (address : list Z) (value : Z) (k : code B) : code B :=
  use v_balances (on_map (sm_modify 0 address (λ b, checked_sub b value))) (λ _, k).

(** [allowed_\[owner\]\[spender\] -= value] and [= value]. *)
Definition sub_allowance {B} (owner spender : list Z) (value : Z) (k : code B) : code B :=
  use v_allowed (on_nested (sm_modify ∅ owner (λ inner,
    let '(r, x) := checked_sub (default 0 (inner !! spender)) value in (r, <[spender := x]> inner)))) (λ _, k).
Definition set_allowance {B} (owner spender : list Z) (value : Z) (k : code B) : code B :=
  use v_allowed (on_nested (sm_modify ∅ owner (λ inner, (Ok tt, <[spender := value]> inner)))) (λ _, k).

Definition mintValue_ {B} (address : list Z) (value : Z) (k : code B) : code B :=
  add_balance address value (use v_totalSupply (on_uint (add_assign_u 256 value)) (λ _, k)).
Definition burnValue_ {B} (address : list Z) (value : Z) (k : code B) : code B :=
  sub_balance address value (use v_totalSupply (on_uint (sub_assign_u 256 value)) (λ _, k)).

(** The views. *)
Definition erc20_name : code (list abi_val) := use v_name (on_string SafeString_get) (λ x, CRet [VBytes x]).
Definition erc20_symbol : code (list abi_val) := use v_symbol (on_string SafeString_get) (λ x, CRet [VBytes x]).
Definition erc20_decimals : code (list abi_val) := use v_decimals (on_uint SafeUint_get) (λ x, CRet [VInt x]).
Definition erc20_totalSupply : code (list abi_val) := use v_totalSupply (on_uint SafeUint_get) (λ x, CRet [VInt x]).
Definition erc20_balanceOf (owner : list Z) : code (list abi_val) :=
  use v_balances (on_map (sm_find_const owner)) (λ it, CRet [VInt (match it with None => 0 | Some x => x end)]).
Definition erc20_allowance (owner spender : list Z) : code (list abi_val) :=
  use v_allowed (on_nested (sm_find_const owner)) (λ it,
    CRet [VInt (match it with None => 0 | Some inner => match inner !! spender with None => 0 | Some x => x end end)]).

Definition erc20_transfer (to : list Z) (value : Z) : code (list abi_val) :=
  CLocals self (λ l, sub_balance (caller_ l) value (add_balance to value (CRet []))).
Definition erc20_approve (spender : list Z) (value : Z) : code (list abi_val) :=
  CLocals self (λ l, set_allowance (caller_ l) spender value (CRet [])).
Definition erc20_transferFrom (from to : list Z) (value : Z) : code (list abi_val) :=
  CLocals self (λ l, sub_allowance from (caller_ l) value
    (sub_balance from value (add_balance to value (CRet [])))).

(** The arguments come decoded for the function's types: the other cases do not occur. *)
Definition args0 (f : code (list abi_val)) (vs : list abi_val) : code (list abi_val) :=
  match vs with [] => f | _ => CThrow Undefined end.
Definition args_address (f : list Z → code (list abi_val)) (vs : list abi_val) : code (list abi_val) :=
  match vs with [VBytes a] => f a | _ => CThrow Undefined end.
Definition args_address2 (f : list Z → list Z → code (list abi_val)) (vs : list abi_val) : code (list abi_val) :=
  match vs with [VBytes a; VBytes b] => f a b | _ => CThrow Undefined end.
Definition args_address_uint (f : list Z → Z → code (list abi_val)) (vs : list abi_val) : code (list abi_val) :=
  match vs with [VBytes a; VInt x] => f a x | _ => CThrow Undefined end.
Definition args_address2_uint (f : list Z → list Z → Z → code (list abi_val)) (vs : list abi_val) : code (list abi_val) :=
  match vs with [VBytes a; VBytes b; VInt x] => f a b x | _ => CThrow Undefined end.

Definition erc20_registerContractFunctions (c : DynamicContract (V := contract_var)) : DynamicContract (V := contract_var) :=
  let c := registerMemberFunction "name" [] [TString] (args0 erc20_name) View c in
  let c := registerMemberFunction "symbol" [] [TString] (args0 erc20_symbol) View c in
  let c := registerMemberFunction "decimals" [] [TUint 8] (args0 erc20_decimals) View c in
  let c := registerMemberFunction "totalSupply" [] [TUint 256] (args0 erc20_totalSupply) View c in
  let c := registerMemberFunction "balanceOf" [TAddress] [TUint 256] (args_address erc20_balanceOf) View c in
  let c := registerMemberFunction "allowance" [TAddress; TAddress] [TUint 256] (args_address2 erc20_allowance) View c in
  let c := registerMemberFunction "transfer" [TAddress; TUint 256] [] (args_address_uint erc20_transfer) NonPayable c in
  let c := registerMemberFunction "approve" [TAddress; TUint 256] [] (args_address_uint erc20_approve) NonPayable c in
  registerMemberFunction "transferFrom" [TAddress; TAddress; TUint 256] [] (args_address2_uint erc20_transferFrom) NonPayable c.

Definition erc20_contract (derivedTypeName : string) : DynamicContract (V := contract_var) :=
  erc20_registerContractFunctions (mkContract derivedTypeName n ∅ ∅ ∅).
End functions.

(** ** Construction *)

(** A variable of a contract after [commit] and [enableRegister]. *)
Definition ready_cell {A} (v : SafeCell A) : SafeCell A :=
  let v := cell_commit v in mkCell (enableRegister (base_ v)) (SafeCell.value_ v) (valuePtr_ v).
Definition ready_string (v : SafeString) : SafeString :=
  let v := SafeString_commit v in mkCell (enableRegister (base_ v)) (SafeCell.value_ v) (valuePtr_ v).
Definition ready_map {K} {EK : EqDecision K} {CK : Countable K} {A} (v : SafeMapOf K A) : SafeMapOf K A :=
  let v := sm_commit v in mkSafeMap (enableRegister (sm_base v)) (map_ v) (mapPtr_ v) (erasedKeys_ v).

Definition ready_vars (name symbol : SafeString) (decimals totalSupply : SafeCell Z) (balances : SafeUnorderedMap Z)
    (allowed : SafeUnorderedMap (gmap (list Z) Z)) : list contract_var :=
  [StringVar (ready_string name); StringVar (ready_string symbol); UintVar (ready_cell decimals);
   UintVar (ready_cell totalSupply); MapVar (ready_map balances); NestedVar (ready_map allowed)].

(** The constructor with [derivedTypeName]; the functor of the plain one is the same with ERC20. *)
Definition erc20_construct (derivedTypeName : string) (erc20name_ erc20symbol_ : list Z) (erc20decimals_ mintValue : Z)
    (creator address : list Z) (n : nat) : result (list contract_var * DynamicContract) :=
  let name := (SafeString_assign erc20name_ (SafeString_owned [])).2 in
  let symbol := (SafeString_assign erc20symbol_ (SafeString_owned [])).2 in
  let '(r, decimals) := assign_u erc20decimals_ (SafeUint_owned 0) in
  _ ← r;
  let '(r, balances) := sm_modify 0 creator (λ b, checked_add b mintValue) (SafeMap_owned ∅) in
  _ ← r;
  let '(r, totalSupply) := add_assign_u 256 mintValue (SafeUint_owned 0) in
  _ ← r;
  Ok (ready_vars name symbol decimals totalSupply balances (SafeMap_owned ∅), erc20_contract n address derivedTypeName).

(** [ContractFactory]'s entry of the class. *)
Definition erc20_template : ContractTemplate (V := contract_var) :=
  mkTemplate [TString; TString; TUint 8; TUint 256] (λ args creator address _ n,
    match args with
    | [VBytes name; VBytes symbol; VInt decimals; VInt mintValue] =>
        erc20_construct "ERC20" name symbol decimals mintValue creator address n
    | _ => Throw Undefined
    end).
End erc20.

(** ** The database *)

Section database.
Context {DBI : RocksDB} {BB : BoostBits} {HO : HashOrder} {BR : BoostResidue}.

(** The destructor: the getters read the temporary values, the iterators the committed maps. *)
Definition erc20_save (address : list Z) (name symbol : SafeString) (decimals totalSupply : SafeCell Z)
    (balances : SafeUnorderedMap Z) (allowed : SafeUnorderedMap (gmap (list Z) Z)) (d : rdb) : rdb :=
  let pfx := getDBPrefix address in
  let d := put d (string_bytes "name_") (cell_get name) pfx in
  let d := put d (string_bytes "symbol_") (cell_get symbol) pfx in
  let d := put d (string_bytes "decimals_") (uint8ToBytes (cell_get decimals)) pfx in
  let d := put d (string_bytes "totalSupply_") (uint256ToBytes (cell_get totalSupply)) pfx in
  let b := foldl (λ b p, push_back b p.1 (uintToBytes p.2) (getNewPrefix address "balances_"))
    DBBatch_new (sm_committed_entries balances) in
  let b := foldl (λ b p, foldl (λ b q, push_back b (p.1 ++ q.1) (uint256ToBytes q.2) (getNewPrefix address "allowed_"))
    b (in_order p.2)) b (sm_committed_entries allowed) in
  putBatch d b.

(** The loops of the constructor over the saved entries. *)
Definition load_balance (m : SafeUnorderedMap Z) (e : Entry) : result (SafeUnorderedMap Z) :=
  a ← FixedBytes_of 20 e.1;
  x ← fromBigEndian 256 e.2;
  Ok (sm_modify 0 a (λ _, (Ok tt, x)) m).2.
Definition load_allowance (m : SafeUnorderedMap (gmap (list Z) Z)) (e : Entry) : result (SafeUnorderedMap (gmap (list Z) Z)) :=
  o ← subspan e.1 0 20;
  owner ← FixedBytes_of 20 o;
  s ← (if decide (20 ≤ length e.1)%nat then Ok (drop 20 e.1) else Throw Undefined);
  spender ← FixedBytes_of 20 s;
  x ← bytesToUint256 e.2;
  Ok (sm_modify ∅ owner (λ inner, (Ok tt, <[spender := x]> inner)) m).2.

(** The constructor that loads a contract: its variables. *)
Definition erc20_load (address : list Z) (d : rdb) : result (list contract_var) :=
  let pfx := getDBPrefix address in
  let name := (SafeString_assign (get d (string_bytes "name_") pfx) (SafeString_owned [])).2 in
  let symbol := (SafeString_assign (get d (string_bytes "symbol_") pfx) (SafeString_owned [])).2 in
  x ← bytesToUint8 (get d (string_bytes "decimals_") pfx);
  let decimals := (assign_u x (SafeUint_owned 0)).2 in
  y ← bytesToUint256 (get d (string_bytes "totalSupply_") pfx);
  let totalSupply := (assign_u y (SafeUint_owned 0)).2 in
  balances ← foldM load_balance (SafeMap_owned ∅) (getBatch d (getNewPrefix address "balances_") []);
  allowed ← foldM load_allowance (SafeMap_owned ∅) (getBatch d (getNewPrefix address "allowed_") []);
  Ok (ready_vars name symbol decimals totalSupply balances allowed).
End database.

(** ** What the contract promises *)

Record token := mkToken {
  supply : Z;
  balances : gmap (list Z) Z;
  allowances : gmap (list Z) (gmap (list Z) Z)
}.

#[export] Instance token_eq_dec : EqDecision token.
Proof. solve_decision. Defined.

Definition balance (t : token) (a : list Z) : Z := default 0 (balances t !! a).
Definition allowed (t : token) (owner spender : list Z) : Z := default 0 (default ∅ (allowances t !! owner) !! spender).

Definition set_balance_of (t : token) (a : list Z) (x : Z) : token := mkToken (supply t) (<[a := x]> (balances t)) (allowances t).
Definition set_allowed (t : token) (owner spender : list Z) (x : Z) : token :=
  mkToken (supply t) (balances t) (<[owner := <[spender := x]> (default ∅ (allowances t !! owner))]> (allowances t)).

(** A transfer, the use of an allowance, and what it leads to. *)
Definition move (from to : list Z) (value : Z) (t : token) : option token :=
  if value <=? balance t from then
    let t := set_balance_of t from (balance t from - value) in
    if balance t to + value <=? umax 256 then Some (set_balance_of t to (balance t to + value)) else None
  else None.

Inductive token_call :=
| Transfer (to : list Z) (value : Z)
| Approve (spender : list Z) (value : Z)
| TransferFrom (from to : list Z) (value : Z).

Definition token_step (caller : list Z) (c : token_call) (t : token) : option token :=
  match c with
  | Transfer to value => move caller to value t
  | Approve spender value => Some (set_allowed t caller spender value)
  | TransferFrom from to value =>
      if value <=? allowed t from caller
      then move from to value (set_allowed t from caller (allowed t from caller - value))
      else None
  end.

(** The sum of the balances. *)
Definition circulation (m : gmap (list Z) Z) : Z := map_fold (λ _ x acc, x + acc) 0 m.

Definition token_ok (t : token) : Prop :=
  in_uint 256 (supply t) ∧ map_Forall (λ _ x, 0 ≤ x) (balances t) ∧ circulation (balances t) = supply t.

(** ** The token a manager holds *)

Definition token_at (n : nat) (vals : list contract_value) : option token :=
  match vals !! v_totalSupply n, vals !! v_balances n, vals !! v_allowed n with
  | Some (UintVal s), Some (MapVal b), Some (NestedVal a) => Some (mkToken s b a)
  | _, _, _ => None
  end.

(** [vals'] is [vals] but for the token's supply, balances and allowances. *)
Definition only_token (n : nat) (vals vals' : list contract_value) : Prop :=
  length vals' = length vals ∧
  ∀ i, i ≠ v_totalSupply n → i ≠ v_balances n → i ≠ v_allowed n → vals' !! i = vals !! i.

#[export] Instance only_token_preorder n : PreOrder (only_token n).
Proof.
  split; [done|]. intros l1 l2 l3 [H1 H2] [H3 H4]. split; [congruence|]. intros i ? ? ?. by rewrite H4, H2.
Qed.

Lemma token_at_inv n vals t :
  token_at n vals = Some t → vals !! v_totalSupply n = Some (UintVal (supply t)) ∧
  vals !! v_balances n = Some (MapVal (balances t)) ∧ vals !! v_allowed n = Some (NestedVal (allowances t)).
Proof. unfold token_at. intros H. by repeat (case_match; try done; simplify_eq/=). Qed.

Lemma token_at_intro n vals s b a :
  vals !! v_totalSupply n = Some (UintVal s) → vals !! v_balances n = Some (MapVal b) →
  vals !! v_allowed n = Some (NestedVal a) → token_at n vals = Some (mkToken s b a).
Proof. unfold token_at. by intros -> -> ->. Qed.

Lemma only_token_insert n vals i x :
  i = v_totalSupply n ∨ i = v_balances n ∨ i = v_allowed n → only_token n vals (<[i := x]> vals).
Proof.
  intros Hi. split; [apply length_insert|]. intros j ? ? ?. apply list_lookup_insert_ne.
  destruct Hi as [->|[->| ->]]; congruence.
Qed.

Lemma token_put_balances n vals t x :
  token_at n vals = Some t → token_at n (<[v_balances n := MapVal x]> vals) = Some (mkToken (supply t) x (allowances t)).
Proof.
  intros (H1 & H2 & H3)%token_at_inv. assert (Hl := lookup_lt_Some _ _ _ H2). apply token_at_intro.
  - rewrite list_lookup_insert_ne by (unfold v_balances, v_totalSupply; lia). done.
  - by rewrite list_lookup_insert_eq.
  - rewrite list_lookup_insert_ne by (unfold v_balances, v_allowed; lia). done.
Qed.

Lemma token_put_supply n vals t x :
  token_at n vals = Some t → token_at n (<[v_totalSupply n := UintVal x]> vals) = Some (mkToken x (balances t) (allowances t)).
Proof.
  intros (H1 & H2 & H3)%token_at_inv. assert (Hl := lookup_lt_Some _ _ _ H1). apply token_at_intro.
  - by rewrite list_lookup_insert_eq.
  - rewrite list_lookup_insert_ne by (unfold v_balances, v_totalSupply; lia). done.
  - rewrite list_lookup_insert_ne by (unfold v_totalSupply, v_allowed; lia). done.
Qed.

Lemma token_put_allowed n vals t x :
  token_at n vals = Some t → token_at n (<[v_allowed n := NestedVal x]> vals) = Some (mkToken (supply t) (balances t) x).
Proof.
  intros (H1 & H2 & H3)%token_at_inv. assert (Hl := lookup_lt_Some _ _ _ H3). apply token_at_intro.
  - rewrite list_lookup_insert_ne by (unfold v_allowed, v_totalSupply; lia). done.
  - rewrite list_lookup_insert_ne by (unfold v_allowed, v_balances; lia). done.
  - by rewrite list_lookup_insert_eq.
Qed.

(** ** The statements *)

Section statements.
Context {BB : BoostBits} {KC : Keccak} {BR : BoostResidue} {CT : ContractTypes (V := contract_var)}.
Variables (bal : list Z → Z) (chainOwner : list Z) (chainId : Z) (n : nat).
Implicit Types (s : ContractManager (V := contract_var)) (t : token).
Abbreviation run := (exec bal chainOwner chainId).

(** During a call the manager [s] holds the token [t]. *)
Definition holds s (t : token) : Prop := is_Some (callLogger_ s) ∧ token_at n (reads s) = Some t.

(** What a statement that changes the token leads to: the new token, or an exception. *)
Definition step_to {B} s (c : code B) (k : code B) (t' : option token) : Prop :=
  ∃ s1, only_vars s s1 ∧ only_token n (reads s) (reads s1) ∧
    match t' with
    | Some t' => holds s1 t' ∧ run c s = run k s1
    | None => ∃ e, e ≠ Undefined ∧ run c s = (Throw e, s1)
    end.

Lemma holds_after s s1 t : is_Some (callLogger_ s) → only_vars s s1 → token_at n (reads s1) = Some t → holds s1 t.
Proof. intros Hl [-> _] Ht. by split. Qed.

Lemma step_trans {B} s (c1 c2 k : code B) t (t' : option token) :
  step_to s c1 c2 (Some t) → (∀ s1, holds s1 t → step_to s1 c2 k t') → step_to s c1 k t'.
Proof.
  intros (s1 & H1 & H2 & Hh & Hr) H. destruct (H s1 Hh) as (s2 & H3 & H4 & H5). exists s2.
  split; [by transitivity s1|]. split; [by transitivity (reads s1)|]. by rewrite Hr.
Qed.

Lemma checked_sub_cases a b :
  checked_sub a b = if b <=? a then (Ok tt, a - b) else (Throw RangeError, sub_residue a b).
Proof. done. Qed.

Lemma step_balances {B} s t a (f : Z → result unit * Z) (k : code B) (t' : option token) :
  holds s t → (f (balance t a)).1 ≠ Throw Undefined →
  t' = match f (balance t a) with (Ok _, x) => Some (set_balance_of t a x) | (Throw _, _) => None end →
  step_to s (use (v_balances n) (on_map (sm_modify 0 a f)) (λ _, k)) k t'.
Proof.
  intros [Hl Ht] Hu ->. destruct (f (balance t a)) as [r x] eqn:Ef. cbn [fst] in Hu.
  destruct (token_at_inv _ _ _ Ht) as (_ & Hb & _).
  destruct (exec_use_map bal chainOwner chainId (v_balances n) 0 a f (λ _, k) s _ r x Hl Hb Ef Hu) as (s1 & A1 & A2 & A3).
  exists s1. split; [done|]. split; [rewrite A2; apply only_token_insert; tauto|].
  destruct r as [u|e]; [|exists e; split; [by intros ->|done]]. split; [|done].
  apply (holds_after s); [done|done|]. rewrite A2. by apply token_put_balances.
Qed.

Lemma step_sub {B} s t a v (k : code B) :
  holds s t → step_to s (sub_balance n a v k) k
    (if v <=? balance t a then Some (set_balance_of t a (balance t a - v)) else None).
Proof.
  intros Ht. apply (step_balances s t); [done|..]; unfold checked_sub; by destruct (_ <=? _).
Qed.

Lemma step_add {B} s t a v (k : code B) :
  holds s t → step_to s (add_balance n a v k) k
    (if balance t a + v <=? umax 256 then Some (set_balance_of t a (balance t a + v)) else None).
Proof.
  intros Ht. apply (step_balances s t); [done|..]; unfold checked_add; by destruct (_ <=? _).
Qed.

Lemma step_allowances {B : Type} s t (o : list Z) (f : gmap (list Z) Z → result unit * gmap (list Z) Z) (k : code B) (t' : option token) :
  holds s t → (f (default ∅ (allowances t !! o))).1 ≠ Throw Undefined →
  t' = match f (default ∅ (allowances t !! o)) with
       | (Ok _, x) => Some (mkToken (supply t) (balances t) (<[o := x]> (allowances t))) | (Throw _, _) => None end →
  step_to s (use (v_allowed n) (on_nested (sm_modify ∅ o f)) (λ _, k)) k t'.
Proof.
  intros [Hl Ht] Hu ->. destruct (f _) as [r x] eqn:Ef. cbn [fst] in Hu.
  destruct (token_at_inv _ _ _ Ht) as (_ & _ & Hb).
  destruct (exec_use_nested bal chainOwner chainId (v_allowed n) ∅ o f (λ _, k) s _ r x Hl Hb Ef Hu) as (s1 & A1 & A2 & A3).
  exists s1. split; [done|]. split; [rewrite A2; apply only_token_insert; tauto|].
  destruct r as [u|e]; [|exists e; split; [by intros ->|done]]. split; [|done].
  apply (holds_after s); [done|done|]. rewrite A2. by apply token_put_allowed.
Qed.

Lemma step_sub_allowance {B} s t (o p : list Z) v (k : code B) :
  holds s t → step_to s (sub_allowance n o p v k) k
    (if v <=? allowed t o p then Some (set_allowed t o p (allowed t o p - v)) else None).
Proof.
  intros Ht. apply (step_allowances s t); [done|..]; unfold checked_sub, allowed; by destruct (_ <=? _).
Qed.

Lemma step_set_allowance {B} s t (o p : list Z) v (k : code B) :
  holds s t → step_to s (set_allowance n o p v k) k (Some (set_allowed t o p v)).
Proof. intros Ht. by apply (step_allowances s t). Qed.

Lemma step_supply {B} s t (f : Z → result Z) (k : code B) :
  holds s t → f (supply t) ≠ Throw Undefined →
  step_to s (use (v_totalSupply n) (on_uint (cell_update f)) (λ _, k)) k
    (match f (supply t) with Ok x => Some (mkToken x (balances t) (allowances t)) | Throw _ => None end).
Proof.
  intros [Hl Ht] Hu. destruct (token_at_inv _ _ _ Ht) as (Hb & _ & _).
  destruct (exec_use_uint bal chainOwner chainId (v_totalSupply n) f (λ _, k) s _ Hl Hb Hu) as (s1 & A1 & A2 & A3).
  exists s1. split; [done|]. split; [rewrite A2; apply only_token_insert; tauto|].
  destruct (f (supply t)) as [x|e]; [|exists e; split; [intros ->; by apply Hu|done]]. split; [|done].
  apply (holds_after s); [done|done|]. rewrite A2. by apply token_put_supply.
Qed.

Lemma step_move {B} s t from to v (k : code B) :
  holds s t → step_to s (sub_balance n from v (add_balance n to v k)) k (move from to v t).
Proof.
  intros Ht. assert (H := step_sub s t from v (add_balance n to v k) Ht). unfold move.
  destruct (v <=? balance t from).
  - eapply step_trans; [exact H|]. intros s1 H1. by apply step_add.
  - destruct H as (s1 & ? & ? & ?). by exists s1.
Qed.

(** The code of a call, and the caller it sees. *)
Definition call_code (self : list Z) (c : token_call) : code (V := contract_var) (list abi_val) :=
  match c with
  | Transfer to value => erc20_transfer n self to value
  | Approve spender value => erc20_approve n self spender value
  | TransferFrom from to value => erc20_transferFrom n self from to value
  end.

(** Each function does what the token's step does, or throws when there is no step. *)
Lemma call_code_step self c s t :
  holds s t → step_to s (call_code self c) (CRet []) (token_step (caller_ (locals_of s self)) c t).
Proof.
  intros Ht. set (caller := caller_ (locals_of s self)).
  assert (Hloc : ∀ B (k : ContractLocals → code B) k' (t' : option token), step_to s (k (locals_of s self)) k' t' → step_to s (CLocals self k) k' t') by done.
  destruct c as [to v|sp v|from to v]; apply Hloc; fold caller; cbn [token_step].
  - by apply step_move.
  - by apply step_set_allowance.
  - assert (H := step_sub_allowance s t from caller v (sub_balance n from v (add_balance n to v (CRet ([] : list abi_val)))) Ht).
    destruct (v <=? allowed t from caller).
    + eapply step_trans; [exact H|]. intros s1 H1. by apply step_move.
    + destruct H as (s1 & ? & ? & ?). by exists s1.
Qed.
End statements.

(** ** The token's invariant *)

Lemma circulation_delete m a : circulation m = default 0 (m !! a) + circulation (delete a m).
Proof.
  destruct (m !! a) as [x|] eqn:E; [|by rewrite delete_id].
  unfold circulation. rewrite <- (insert_delete_id m a x E) at 1.
  rewrite map_fold_insert_L; [done| |apply lookup_delete_eq]. intros. lia.
Qed.

Lemma circulation_insert m a x : circulation (<[a := x]> m) = circulation m - default 0 (m !! a) + x.
Proof.
  rewrite (circulation_delete (<[a := x]> m) a), (circulation_delete m a), lookup_insert_eq, delete_insert_eq. cbn. lia.
Qed.

Lemma circulation_nonneg m : map_Forall (λ _ x, 0 ≤ x) m → 0 ≤ circulation m.
Proof.
  unfold circulation. induction m as [|a x m Ha IH] using map_ind; intros Hm; [by rewrite map_fold_empty|].
  rewrite map_fold_insert_L by (done || (intros; lia)). apply map_Forall_insert in Hm as [Hx Hm]; [|done].
  specialize (IH Hm). lia.
Qed.

Lemma balance_range t a : token_ok t → 0 ≤ balance t a ≤ supply t.
Proof.
  intros (Hs & Hm & Hc). unfold balance. rewrite <- Hc, (circulation_delete _ a).
  assert (0 ≤ circulation (delete a (balances t))) by by apply circulation_nonneg, map_Forall_delete.
  destruct (balances t !! a) as [x|] eqn:E; cbn; [|lia]. specialize (Hm _ _ E). cbn in Hm. lia.
Qed.

Lemma balance_set t a x b : balance (set_balance_of t a x) b = if decide (a = b) then x else balance t b.
Proof.
  unfold balance. cbn. case_decide as E; [subst; by rewrite lookup_insert_eq|by rewrite lookup_insert_ne].
Qed.

(** A transfer succeeds exactly when the sender has the amount; no balance overflows. *)
Lemma move_spec t from to v :
  token_ok t → 0 ≤ v →
  match move from to v t with
  | Some t' => v ≤ balance t from ∧ token_ok t' ∧ supply t' = supply t ∧ allowances t' = allowances t ∧
      ∀ a, balance t' a = balance t a - (if decide (a = from) then v else 0) + (if decide (a = to) then v else 0)
  | None => balance t from < v
  end.
Proof.
  intros Hok Hv. unfold move. destruct (Z.leb_spec v (balance t from)) as [Hle|Hlt]; [|done].
  assert (Hf := balance_range t from Hok). assert (Ht := balance_range t to Hok). destruct Hok as (Hs & Hm & Hc).
  set (t1 := set_balance_of t from (balance t from - v)).
  assert (Hok1 : 0 ≤ balance t1 to ≤ supply t - v).
  { unfold t1. rewrite balance_set. case_decide as E; [lia|].
    assert (balance t from + balance t to ≤ supply t); [|lia].
    rewrite <- Hc, (circulation_delete _ from), (circulation_delete _ to). rewrite lookup_delete_ne by done. unfold balance.
    assert (0 ≤ circulation (delete to (delete from (balances t)))) by by apply circulation_nonneg, map_Forall_delete, map_Forall_delete.
    lia. }
  assert (Hmax : balance t1 to + v ≤ umax 256) by (unfold in_uint, umax in *; lia).
  rewrite (proj2 (Z.leb_le _ _) Hmax). split; [done|]. split; [|split; [done|split; [done|]]].
  - split; [done|]. cbn [supply balances set_balance_of t1]. split.
    + apply map_Forall_insert_2; [lia|]. apply map_Forall_insert_2; [lia|done].
    + rewrite !circulation_insert. fold (balance t from). change (default 0 (<[from := _]> (balances t) !! to)) with (balance t1 to). lia.
  - intros a. rewrite balance_set. unfold t1 at 1. repeat case_decide; subst; try congruence; unfold t1; rewrite ?balance_set;
      repeat case_decide; try congruence; lia.
Qed.

Definition call_typed (c : token_call) : Prop :=
  match c with Transfer _ v | Approve _ v | TransferFrom _ _ v => in_uint 256 v end.

Lemma token_step_ok caller c t t' :
  token_ok t → call_typed c → token_step caller c t = Some t' → token_ok t' ∧ supply t' = supply t.
Proof.
  intros Hok Hc. destruct c as [to v|sp v|from to v]; cbn [token_step call_typed] in *.
  - intros Hm. assert (H := move_spec t caller to v Hok ltac:(unfold in_uint in *; lia)). rewrite Hm in H.
    destruct H as (_ & ? & ? & _). done.
  - by intros [= <-].
  - destruct (_ <=? _); [|done]. intros Hm.
    assert (H := move_spec (set_allowed t from caller (allowed t from caller - v)) from to v Hok ltac:(unfold in_uint in *; lia)).
    rewrite Hm in H. destruct H as (_ & ? & ? & _). done.
Qed.

(** ** Calls of the token by transactions *)

Section calls.
Context {BB : BoostBits} {KC : Keccak} {BR : BoostResidue} {CT : ContractTypes (V := contract_var)} {St : Type} {PS : PayableState St}.
Implicit Types (s : ContractManager (V := contract_var)) (t : token).

Definition call_name (c : token_call) : string :=
  match c with Transfer _ _ => "transfer" | Approve _ _ => "approve" | TransferFrom _ _ _ => "transferFrom" end.
Definition call_types (c : token_call) : list abi_ty :=
  match c with TransferFrom _ _ _ => [TAddress; TAddress; TUint 256] | _ => [TAddress; TUint 256] end.
Definition call_args (c : token_call) : list abi_val :=
  match c with
  | Transfer a v | Approve a v => [VBytes a; VInt v]
  | TransferFrom a b v => [VBytes a; VBytes b; VInt v]
  end.

(** The data of a transaction that makes the call. *)
Definition call_data (c : token_call) : list Z :=
  functor_encode (call_name c) (call_types c) ++ encodeData (call_types c) (call_args c).

Definition erc20_functors : list (list Z) :=
  [functor_encode "transfer" [TAddress; TUint 256]; functor_encode "approve" [TAddress; TUint 256];
   functor_encode "transferFrom" [TAddress; TAddress; TUint 256]].

(** The function registered for a member function. *)
Definition registered (args : list abi_ty) (memFunc : list abi_val → code (V := contract_var) (list abi_val)) (ci : ethCallInfo) :
    code (V := contract_var) unit :=
  code_bind (match decodeData args (ci_data ci) 0 with Ok vs => memFunc vs | Throw e => CThrow e end) (λ _, CRet tt).

Lemma erc20_public n self name :
  publicFunctions_ (erc20_contract n self name) =
  <[functor_encode "transferFrom" [TAddress; TAddress; TUint 256] :=
      registered [TAddress; TAddress; TUint 256] (args_address2_uint (erc20_transferFrom n self))]>
  (<[functor_encode "approve" [TAddress; TUint 256] := registered [TAddress; TUint 256] (args_address_uint (erc20_approve n self))]>
  (<[functor_encode "transfer" [TAddress; TUint 256] := registered [TAddress; TUint 256] (args_address_uint (erc20_transfer n self))]> ∅)).
Proof. reflexivity. Qed.

Lemma erc20_not_payable n self name f : isPayableFunction (erc20_contract n self name) f = false.
Proof. unfold isPayableFunction. apply bool_decide_eq_false. change (payableFunctions_ _) with (∅ : gmap (list Z) (ethCallInfo → code (V := contract_var) unit)).
  rewrite lookup_empty. by intros [? ?]. Qed.

Lemma erc20_public_call n self name c :
  NoDup erc20_functors →
  ∃ memFunc, publicFunctions_ (erc20_contract n self name) !! functor_encode (call_name c) (call_types c) = Some (registered (call_types c) memFunc) ∧
    memFunc (call_args c) = call_code n self c.
Proof.
  unfold erc20_functors. rewrite !NoDup_cons, !not_elem_of_cons. intros ((H1 & H2 & _) & (H3 & _) & _).
  rewrite erc20_public. destruct c; cbn [call_name call_types]; eexists.
  - rewrite lookup_insert_ne, lookup_insert_ne, lookup_insert_eq by done. done.
  - rewrite lookup_insert_ne, lookup_insert_eq by done. done.
  - rewrite lookup_insert_eq. done.
Qed.

(** Whatever the data, what is decoded for a function's types fits it. *)
Lemma decode_address_shape bytes i v j : decode TAddress bytes i = Ok (v, j) → ∃ a, v = VBytes a.
Proof.
  cbn [decode]. destruct (too_short _ _) as [[]|]; [|done]. destruct (range _ _ _) as [a|]; [|done]. intros [= <- _]. by exists a.
Qed.

Lemma decode_uint_shape bytes i v j : decode (TUint 256) bytes i = Ok (v, j) → ∃ z, v = VInt z ∧ in_uint 256 z.
Proof.
  cbn [decode]. destruct (decodeUint _ _) as [[z k]|]; [|done]. rewrite result_bind_Ok. cbv iota.
  change (cast_uint 256 z) with (ustore 256 z). destruct (ustore 256 z) as [z'|] eqn:E; [|done]. intros [= <- _].
  exists z'. split; [done|]. by eapply ustore_range.
Qed.

Lemma decode_address_uint data vs :
  decodeData [TAddress; TUint 256] data 0 = Ok vs → ∃ a z, vs = [VBytes a; VInt z] ∧ in_uint 256 z.
Proof.
  unfold decodeData. cbn [decode_seq]. destruct (decode TAddress data 0) as [[v1 i1]|] eqn:E1; [|done].
  rewrite result_bind_Ok. cbv iota. destruct (decode (TUint 256) data i1) as [[v2 i2]|] eqn:E2; [|done].
  intros [= <-]. apply decode_address_shape in E1 as [a ->]. apply decode_uint_shape in E2 as (z & -> & Hz). eauto.
Qed.

Lemma decode_address2_uint data vs :
  decodeData [TAddress; TAddress; TUint 256] data 0 = Ok vs → ∃ a b z, vs = [VBytes a; VBytes b; VInt z] ∧ in_uint 256 z.
Proof.
  unfold decodeData. cbn [decode_seq]. destruct (decode TAddress data 0) as [[v1 i1]|] eqn:E1; [|done].
  rewrite result_bind_Ok. cbv iota. destruct (decode TAddress data i1) as [[v2 i2]|] eqn:E2; [|done].
  rewrite result_bind_Ok. cbv iota. destruct (decode (TUint 256) data i2) as [[v3 i3]|] eqn:E3; [|done].
  intros [= <-]. apply decode_address_shape in E1 as [a ->]. apply decode_address_shape in E2 as [b ->].
  apply decode_uint_shape in E3 as (z & -> & Hz). eauto 6.
Qed.

(** A function of the token is one of the three, on arguments of its types, or fails to decode. *)
Lemma erc20_function n self name f g ci :
  publicFunctions_ (erc20_contract n self name) !! f = Some g →
  (∃ c, call_typed c ∧ g ci = code_bind (call_code n self c) (λ _, CRet tt)) ∨ ∃ e, g ci = CThrow e.
Proof.
  rewrite erc20_public.
  intros [[_ <-]|[_ [[_ <-]|[_ [[_ <-]|[_ H]]%lookup_insert_Some]]%lookup_insert_Some]]%lookup_insert_Some.
  - unfold registered. destruct (decodeData _ _ _) as [vs|e] eqn:E; [left|right; by exists e].
    apply decode_address2_uint in E as (a & b & z & -> & Hz). by exists (TransferFrom a b z).
  - unfold registered. destruct (decodeData _ _ _) as [vs|e] eqn:E; [left|right; by exists e].
    apply decode_address_uint in E as (a & z & -> & Hz). by exists (Approve a z).
  - unfold registered. destruct (decodeData _ _ _) as [vs|e] eqn:E; [left|right; by exists e].
    apply decode_address_uint in E as (a & z & -> & Hz). by exists (Transfer a z).
  - by rewrite lookup_empty in H.
Qed.

(** The parts of the data of a call. *)
Lemma call_data_functor c tx :
  all2 has_type (call_types c) (call_args c) = true → data_ tx = call_data c →
  ci_functor (txToCallInfo tx) = functor_encode (call_name c) (call_types c) ∧
  decodeData (call_types c) (ci_data (txToCallInfo tx)) 0 = Ok (call_args c).
Proof.
  intros Htyp Hdata. set (fn := functor_encode (call_name c) (call_types c)).
  set (ed := encodeData (call_types c) (call_args c)).
  assert (Hf4 : length fn = 4%nat) by (unfold fn, functor_encode; by rewrite length_take, sha3_length).
  assert (Hed : length ed = (32 * length (call_types c))%nat).
  { unfold ed, encodeData. fold (abi_items (call_types c) (call_args c)).
    assert (Hs : existsb isDynamic (call_types c) = false) by by destruct c.
    rewrite encode_items_layout, tails_static, app_nil_r by done. rewrite heads_length.
    - by destruct c.
    - by apply all2_Forall2.
    - rewrite tails_static by done. by destruct c. }
  cbn [txToCallInfo ci_functor ci_data]. rewrite Hdata. unfold call_data. fold fn ed.
  rewrite length_app, Hf4, Hed. split.
  - rewrite take_app_le, take_ge by lia. done.
  - destruct (4 <? _)%nat eqn:E; [|apply Nat.ltb_ge in E; destruct c; cbn in E; lia].
    rewrite drop_app_length' by done. apply decodeData_encodeData; try done.
    + by destruct c.
    + by destruct c.
    + fold ed. rewrite Hed. by destruct c.
Qed.

Variables (chainOwner : list Z) (chainId : Z).

(** The run of a call's code at the start of the transaction's call. *)
Lemma called_step n self tx s st t c :
  quiet s → to_ tx = self → token_at n (reads s) = Some t →
  ∃ s2, only_vars (called tx s) s2 ∧ only_token n (reads s) (reads s2) ∧
    match token_step (from_ tx) c t with
    | Some t' => exec (balance_of st) chainOwner chainId (code_bind (call_code n self c) (λ _, CRet tt)) (called tx s) = (Ok tt, s2) ∧
        token_at n (reads s2) = Some t'
    | None => ∃ e, e ≠ Undefined ∧
        exec (balance_of st) chainOwner chainId (code_bind (call_code n self c) (λ _, CRet tt)) (called tx s) = (Throw e, s2)
    end.
Proof.
  intros Hq <- Ht. assert (Hr : reads (called tx s) = reads s) by (unfold reads; by rewrite called_call).
  assert (Hh : holds n (called tx s) t) by (split; [by eexists|by rewrite Hr]).
  destruct (call_code_step (balance_of st) chainOwner chainId n (to_ tx) c _ _ Hh) as (s2 & H1 & H2 & H3).
  rewrite called_locals in H3. rewrite Hr in H2. cbn [caller_] in H3. exists s2. split; [done|]. split; [done|]. rewrite exec_code_bind.
  destruct (token_step (from_ tx) c t) as [t'|].
  - destruct H3 as [[_ H3] ->]. done.
  - destruct H3 as (e & He & ->). by exists e.
Qed.

(** C17: A token's function runs the token's step. A transaction that calls [transfer], [approve] or
    [transferFrom] with any arguments leaves the manager with the token the specification gives, or throws,
    with every variable as before, where it gives none; the other variables, the contracts and the events
    are the same, and nothing is pending. *)
Theorem erc20_call_refines n name c tx txIndex s st t :
  honest_types → quiet s → NoDup erc20_functors →
  to_ tx ∉ ProtocolContractAddresses → contracts_ s !! to_ tx = Some (erc20_contract n (to_ tx) name) →
  token_at n (reads s) = Some t → data_ tx = call_data c → all2 has_type (call_types c) (call_args c) = true →
  ∃ s', quiet s' ∧ callLogger_ s' = None ∧ contracts_ s' = contracts_ s ∧ eventManager_ s' = eventManager_ s ∧
    only_token n (reads s) (reads s') ∧
    match token_step (from_ tx) c t with
    | Some t' => callContract chainOwner chainId tx txIndex (s, st) = (Ok tt, (s', st)) ∧ token_at n (reads s') = Some t'
    | None => callContract chainOwner chainId tx txIndex (s, st) = (Throw (failed "what"), (s', st)) ∧ reads s' = reads s
    end.
Proof.
  intros HT Hq Hnd Hp Hc Ht Hdata Htyp.
  assert (Hfun := call_data_functor c tx Htyp Hdata). destruct Hfun as [Hfun Hargs].
  destruct (erc20_public_call n (to_ tx) name c Hnd) as (memFunc & Hpub & Hmem).
  assert (Hrun : called_result chainOwner chainId tx st (erc20_contract n (to_ tx) name) s =
    exec (balance_of st) chainOwner chainId (code_bind (call_code n (to_ tx) c) (λ _, CRet tt)) (called tx s)).
  { unfold called_result, function_of. rewrite erc20_not_payable, Hfun, Hpub. unfold registered. by rewrite Hargs, Hmem. }
  destruct (called_step n (to_ tx) tx s st t c Hq eq_refl Ht) as (s2 & H1 & H2 & H3).
  assert (Hcall : ∀ r, exec (balance_of st) chainOwner chainId (code_bind (call_code n (to_ tx) c) (λ _, CRet tt)) (called tx s) = (r, s2) →
    r ≠ Throw Undefined → ∃ s', callContract chainOwner chainId tx txIndex (s, st) =
      (match r with Ok _ => Ok tt | Throw _ => Throw (failed "what") end, (s', st)) ∧
    between s s' (match r with Ok _ => reads s2 | Throw _ => reads s end)).
  { intros r Hr Hu. apply (nonpayable_call chainOwner chainId tx txIndex s st (erc20_contract n (to_ tx) name) r s2); try done.
    - by rewrite Hrun.
    - apply H2. }
  destruct (token_step (from_ tx) c t) as [t'|].
  - destruct H3 as [H3 H4]. destruct (Hcall _ H3) as (s' & A1 & A2 & A3 & A4 & A5 & A6); [done|].
    exists s'. rewrite A6. by split_and!.
  - destruct H3 as (e & He & H3). destruct (Hcall _ H3) as (s' & A1 & A2 & A3 & A4 & A5 & A6); [by intros [= ->]|].
    exists s'. rewrite A6. by split_and!.
Qed.

(** C18: No transaction to a token's address creates or destroys tokens. Whatever its data, when [callContract]
    returns or throws, the balances are non-negative and sum to the supply there was. *)
Theorem erc20_supply_kept n name tx txIndex s st t r s' st' :
  honest_types → quiet s →
  to_ tx ∉ ProtocolContractAddresses → contracts_ s !! to_ tx = Some (erc20_contract n (to_ tx) name) →
  token_at n (reads s) = Some t → token_ok t →
  callContract chainOwner chainId tx txIndex (s, st) = (r, (s', st')) → r ≠ Throw Undefined →
  (∃ t', token_at n (reads s') = Some t' ∧ token_ok t' ∧ supply t' = supply t) ∧
  only_token n (reads s) (reads s') ∧ contracts_ s' = contracts_ s ∧ quiet s' ∧ callLogger_ s' = None ∧ st' = st.
Proof.
  intros HT Hq Hp Hc Ht Hok Hrun Hu. set (c := erc20_contract n (to_ tx) name) in *.
  assert (Hsame : ∀ e s2, e ≠ Undefined → called_result chainOwner chainId tx st c s = (Throw e, s2) → only_vars (called tx s) s2 →
    length (reads s2) = length (reads s) →
    (∃ t', token_at n (reads s') = Some t' ∧ token_ok t' ∧ supply t' = supply t) ∧
    only_token n (reads s) (reads s') ∧ contracts_ s' = contracts_ s ∧ quiet s' ∧ callLogger_ s' = None ∧ st' = st).
  { intros e s2 He Hr Hv Hlen.
    destruct (nonpayable_call chainOwner chainId tx txIndex s st c (Throw e) s2) as (s1 & A1 & A2 & A3 & A4 & A5 & A6);
      try done; [by intros [= ->]|].
    rewrite A1 in Hrun. injection Hrun as _ <- <-. rewrite A6. split; [by exists t|]. by split_and!. }
  assert (Hreads : reads (called tx s) = reads s) by (unfold reads; by rewrite called_call).
  destruct (function_of c tx) as [f|] eqn:Ef.
  2:{ apply (Hsame (failed "no function") (called tx s)); [done| |done|by rewrite Hreads]. unfold called_result. by rewrite Ef. }
  assert (Hres : called_result chainOwner chainId tx st c s = exec (balance_of st) chainOwner chainId (f (txToCallInfo tx)) (called tx s))
    by (unfold called_result; by rewrite Ef).
  assert (Hpub : publicFunctions_ c !! ci_functor (txToCallInfo tx) = Some f).
  { revert Ef. unfold function_of, c. by rewrite erc20_not_payable. }
  destruct (erc20_function n (to_ tx) name _ f (txToCallInfo tx) Hpub) as [(tc & Htc & E)|(e & E)]; rewrite E in Hres.
  - destruct (called_step n (to_ tx) tx s st t tc Hq eq_refl Ht) as (s2 & H1 & H2 & H3).
    destruct (token_step (from_ tx) tc t) as [t'|] eqn:Es.
    + destruct H3 as [H3 H4]. rewrite H3 in Hres.
      destruct (nonpayable_call chainOwner chainId tx txIndex s st c (Ok tt) s2) as (s1 & A1 & A2 & A3 & A4 & A5 & A6);
        try done; [apply H2|].
      rewrite A1 in Hrun. injection Hrun as _ <- <-. rewrite A6. destruct (token_step_ok _ _ _ _ Hok Htc Es).
      split; [by exists t'|]. by split_and!.
    + destruct H3 as (e & He & H3). rewrite H3 in Hres. apply (Hsame e s2); try done. apply H2.
  - destruct (decide (e = Undefined)) as [->|He].
    + exfalso. apply Hu. rewrite (callContract_function chainOwner chainId tx txIndex s st c) in Hrun by done.
      rewrite Hres in Hrun. by injection Hrun.
    + apply (Hsame e (called tx s)); try done. by rewrite Hreads.
Qed.
End calls.

(** ** The contract class *)

Section class.
Context {BB : BoostBits} {KC : Keccak} {BR : BoostResidue}.

#[local] Hint Resolve honest_read honest_update honest_use honest_on_uint honest_on_string honest_on_map honest_on_nested
  honest_find_const honest_modify : code.

Ltac honest_tac := repeat (apply honest_use; [eauto with code|intros ?]); done.

Lemma erc20_transfer_honest n self to v : honest_code (erc20_transfer n self to v).
Proof. intros l. unfold sub_balance, add_balance. honest_tac. Qed.
Lemma erc20_approve_honest n self sp v : honest_code (erc20_approve n self sp v).
Proof. intros l. unfold set_allowance. honest_tac. Qed.
Lemma erc20_transferFrom_honest n self from to v : honest_code (erc20_transferFrom n self from to v).
Proof. intros l. unfold sub_allowance, sub_balance, add_balance. honest_tac. Qed.
Lemma erc20_balanceOf_honest n o : honest_code (erc20_balanceOf n o).
Proof. unfold erc20_balanceOf. honest_tac. Qed.
Lemma erc20_allowance_honest n o sp : honest_code (erc20_allowance n o sp).
Proof. unfold erc20_allowance. honest_tac. Qed.
Lemma erc20_getters_honest n :
  honest_code (erc20_name n) ∧ honest_code (erc20_symbol n) ∧ honest_code (erc20_decimals n) ∧ honest_code (erc20_totalSupply n).
Proof. unfold erc20_name, erc20_symbol, erc20_decimals, erc20_totalSupply. split_and!; honest_tac. Qed.

(** Applying a function to its decoded arguments. *)
Ltac honest_args := intros ? vs _; unfold args0, args_address, args_address2, args_address_uint, args_address2_uint;
  repeat case_match; try done.

Lemma erc20_register_honest n self c : honest_contract c → honest_contract (erc20_registerContractFunctions n self c).
Proof.
  intros Hc. destruct (erc20_getters_honest n) as (? & ? & ? & ?). unfold erc20_registerContractFunctions.
  repeat (apply registerMemberFunction_honest; [honest_args|]); try done.
  - apply erc20_transferFrom_honest.
  - apply erc20_approve_honest.
  - apply erc20_transfer_honest.
  - apply erc20_allowance_honest.
  - apply erc20_balanceOf_honest.
Qed.

Lemma erc20_contract_honest n self name : honest_contract (erc20_contract n self name).
Proof. apply erc20_register_honest. split_and!; intros f g ci Hf; cbn in Hf; by rewrite lookup_empty in Hf. Qed.

(** A variable between calls. *)
Lemma ready_cell_idle {A} (v : SafeCell A) :
  owner_ (base_ v) = true → tracked (base_ (ready_cell v)) = true ∧ registered_ (base_ (ready_cell v)) = false ∧
  cell_get (ready_cell v) = cell_get v ∧ SafeCell.value_ (ready_cell v) = cell_get v.
Proof. destruct v as [[o r sr] x p]. cbn. intros ->. done. Qed.

Lemma ready_string_idle (v : SafeString) :
  owner_ (base_ v) = true → tracked (base_ (ready_string v)) = true ∧ registered_ (base_ (ready_string v)) = false ∧
  cell_get (ready_string v) = cell_get v ∧ SafeCell.value_ (ready_string v) = cell_get v.
Proof. destruct v as [[o r sr] x p]. cbn. intros ->. done. Qed.

Lemma ready_map_idle {K} {EK : EqDecision K} {CK : Countable K} {A} (v : SafeMapOf K A) :
  owner_ (sm_base v) = true → sm_erased v = ∅ → tracked (sm_base (ready_map v)) = true ∧ registered_ (sm_base (ready_map v)) = false ∧
  sm_erased (ready_map v) = ∅ ∧ sm_view (ready_map v) = sm_view v ∧ map_ (ready_map v) = sm_view v.
Proof.
  intros Ho He. assert (Hg := commit_get v He). assert (Hv := commit_value v He).
  cbn [sv_get sv_value sv_commit SafeMap_variable] in Hg, Hv. unfold ready_map, tracked. cbn [sm_base enableRegister owner_ shouldRegister_ registered_ map_].
  split; [unfold sm_commit; cbn; by rewrite Ho|]. split; [done|]. split; [done|]. split; [exact Hg|exact Hv].
Qed.

Lemma ready_vars_idle name symbol decimals totalSupply balances allowed :
  owner_ (base_ name) = true → owner_ (base_ symbol) = true → owner_ (base_ decimals) = true → owner_ (base_ totalSupply) = true →
  owner_ (sm_base balances) = true → owner_ (sm_base allowed) = true → sm_erased balances = ∅ → sm_erased allowed = ∅ →
  Forall idle (ready_vars name symbol decimals totalSupply balances allowed) ∧
  sv_get <$> ready_vars name symbol decimals totalSupply balances allowed =
    [StringVal (cell_get name); StringVal (cell_get symbol); UintVal (cell_get decimals); UintVal (cell_get totalSupply);
     MapVal (sm_view balances); NestedVal (sm_view allowed)].
Proof.
  intros H1 H2 H3 H4 H5 H6 H7 H8. unfold ready_vars.
  destruct (ready_string_idle name H1) as (A1 & B1 & C1 & D1). destruct (ready_string_idle symbol H2) as (A2 & B2 & C2 & D2).
  destruct (ready_cell_idle decimals H3) as (A3 & B3 & C3 & D3). destruct (ready_cell_idle totalSupply H4) as (A4 & B4 & C4 & D4).
  destruct (ready_map_idle balances H5 H7) as (A5 & B5 & E5 & C5 & D5). destruct (ready_map_idle allowed H6 H8) as (A6 & B6 & E6 & C6 & D6).
  split.
  - repeat (apply Forall_cons; split); try apply Forall_nil; try done;
      unfold idle; cbn [sv_wf sv_base sv_get sv_value contract_variable cell_SafeVariable SafeMap_variable]; split_and!; try done; congruence.
  - cbn [fmap list_fmap sv_get contract_variable cell_SafeVariable SafeMap_variable]. by rewrite C1, C2, C3, C4, C5, C6.
Qed.

(** What the constructor builds, when it does not throw: the supply belongs to the creator. *)
Lemma erc20_construct_spec name nm sy decimals mintValue creator address n vs c :
  erc20_construct name nm sy decimals mintValue creator address n = Ok (vs, c) →
  c = erc20_contract n address name ∧ Forall idle vs ∧
  sv_get <$> vs = [StringVal nm; StringVal sy; UintVal decimals; UintVal mintValue; MapVal {[creator := mintValue]}; NestedVal ∅].
Proof.
  unfold erc20_construct.
  assert (Hd := cell_update_spec (λ _ : Z, Ok decimals) (SafeUint_owned 0)).
  assert (Hs := cell_update_spec (λ a : Z, _ ← throw_if (umax 256 - mintValue <? a) OverflowError; ustore 256 (a + mintValue)) (SafeUint_owned 0)).
  assert (Hb := sm_modify_spec 0 creator (λ b, checked_add b mintValue) (SafeMap_owned ∅)).
  fold (assign_u decimals) in Hd. fold (add_assign_u 256 mintValue) in Hs.
  assert (Hbase : ∀ f, base_ (cell_update f (SafeUint_owned 0)).2 = SafeBase_owned).
  { intros f. unfold cell_update. by destruct (f _). }
  assert (Hd0 := Hbase (λ _, Ok decimals)). fold (assign_u decimals) in Hd0.
  assert (Hs0 := Hbase (λ a : Z, _ ← throw_if (umax 256 - mintValue <? a) OverflowError; ustore 256 (a + mintValue))).
  fold (add_assign_u 256 mintValue) in Hs0.
  destruct (assign_u decimals _) as [rd d]. destruct Hd as [-> Hd]. rewrite result_bind_Ok. cbn [snd] in *.
  destruct (sm_modify 0 creator _ _) as [rb b]. cbn [fst snd] in Hb.
  assert (Hb' : rb = Ok tt → sm_view b = {[creator := mintValue]} ∧ sm_erased b = ∅ ∧ owner_ (sm_base b) = true).
  { intros ->. revert Hb. change (default 0 (sm_view (SafeMap_owned ∅) !! creator)) with 0. unfold checked_add.
    destruct (0 + mintValue <=? umax 256); [|by intros [[=] _]]. intros (_ & Hv & _ & He & Hbs). rewrite Hv, He, Hbs. done. }
  destruct rb as [[]|]; [|done]. rewrite result_bind_Ok. destruct (Hb' eq_refl) as (Hv & He & Ho).
  destruct (add_assign_u 256 mintValue _) as [rs su]. cbn [snd] in Hs0.
  change (cell_get (SafeUint_owned 0)) with 0 in Hs. destruct (throw_if _ _) as [[]|] eqn:Et; [|by destruct Hs as [-> _]].
  rewrite result_bind_Ok in Hs. destruct (ustore 256 (0 + mintValue)) as [y|] eqn:Eu; [|by destruct Hs as [-> _]].
  destruct Hs as [-> Hs]. rewrite result_bind_Ok. intros [= <- <-]. split; [done|].
  assert (Hy : y = mintValue).
  { revert Eu. unfold ustore. change (native_width 256) with false. cbv iota. repeat case_match; try done. intros [= <-]. lia. }
  destruct (ready_vars_idle (SafeString_assign nm (SafeString_owned [])).2 (SafeString_assign sy (SafeString_owned [])).2 d su b (SafeMap_owned ∅))
    as [H1 H2]; try done; rewrite ?Hd0, ?Hs0; try done.
  split; [exact H1|]. etransitivity; [exact H2|]. by rewrite Hd, Hs, Hv, Hy.
Qed.

(** A new token is in order: its supply, which fits the type, belongs to its creator. *)
Lemma erc20_created name nm sy decimals mintValue creator address n :
  in_uint 256 mintValue →
  ∃ vs, erc20_construct name nm sy decimals mintValue creator address n = Ok (vs, erc20_contract n address name) ∧
    Forall idle vs ∧ token_at 0 (sv_get <$> vs) = Some (mkToken mintValue {[creator := mintValue]} ∅) ∧
    token_ok (mkToken mintValue {[creator := mintValue]} ∅).
Proof.
  intros Hm. destruct (erc20_construct name nm sy decimals mintValue creator address n) as [[vs c]|e] eqn:E.
  - destruct (erc20_construct_spec _ _ _ _ _ _ _ _ _ _ E) as (-> & Hi & Hg). exists vs. split; [done|]. split; [done|].
    rewrite Hg. split; [done|]. split; [done|]. cbn. split; [apply map_Forall_singleton; unfold in_uint in Hm; lia|].
    unfold circulation. rewrite map_fold_singleton. lia.
  - exfalso. revert E. unfold erc20_construct, assign_u, add_assign_u, cell_update, sm_modify, checked_add, throw_if.
    cbn [fst snd]. change (default 0 (sm_tmp (sm_mark (checkKeyAndCreate 0 creator (SafeMap_owned ∅))) !! creator)) with
      (default 0 (sm_tmp (checkKeyAndCreate 0 creator (SafeMap_owned (∅ : gmap (list Z) Z))) !! creator)).
    destruct (checkKeyAndCreate_spec 0 creator (SafeMap_owned (∅ : gmap (list Z) Z))) as (_ & -> & _). cbn [default].
    change (default 0 (sm_view (SafeMap_owned (∅ : gmap (list Z) Z)) !! creator)) with 0. unfold in_uint, umax in *.
    rewrite (proj2 (Z.leb_le (id 0 + mintValue) (2 ^ 256 - 1))) by (cbn [id]; lia). cbn [result_bind].
    change (cell_get (cell_mark (cell_check (SafeUint_owned 0)))) with 0.
    rewrite (proj2 (Z.ltb_ge (2 ^ 256 - 1 - mintValue) 0)) by lia. rewrite !result_bind_Ok.
    rewrite (ustore_in 256 (0 + mintValue)) by (unfold in_uint; lia). done.
Qed.

(** The class in the list of the node's contracts. *)
Lemma erc20_types_honest f : @honest_types _ _ _ {| createContractFuncs_ := {[ f := erc20_template ]} |}.
Proof.
  intros g t args creator derived chainId n vs c Ht. cbn in Ht. apply lookup_singleton_Some in Ht as [<- <-].
  cbn [ct_construct erc20_template]. intros Hc. repeat (case_match; try done).
  apply erc20_construct_spec in Hc as (-> & Hi & _). split; [done|]. apply erc20_contract_honest.
Qed.
End class.

(** ** A node with one token *)

Definition toy_token_types : ContractTypes (V := contract_var) := {| createContractFuncs_ := {[ [0; 0; 0; 1] := @erc20_template boost_ref toy_hash residue_ref ]} |}.

Definition toy_token_vars : list contract_var :=
  match @erc20_construct boost_ref toy_hash residue_ref "ERC20" [84] [84] 18 1000 toy_owner toy_contract_address 0 with
  | Ok (vs, _) => vs
  | Throw _ => []
  end.

Definition toy_token_manager : ContractManager (V := contract_var) :=
  mkManager {[ toy_contract_address := @erc20_contract boost_ref toy_hash residue_ref 0 toy_contract_address "ERC20" ]} ∅
    (call_start toy_token_vars) None [] (mkEventManager [] []) (mkGlobals zero_address zero_hash 1 2 zero_hash).

Definition toy_friend : list Z := zero_bytes 19 ++ [5].
Definition toy_token : token := mkToken 1000 {[ toy_owner := 1000 ]} ∅.

#[local] Instance toy_no_state : PayableState unit := {| balance_of _ _ := 0; processContractPayable _ := mret' tt |}.

Definition toy_token_call (from : list Z) (c : token_call) : TxBlock :=
  mkTxBlock toy_contract_address from (@call_data boost_ref toy_hash c) 8080 0 0 1 1 21000 0 0 0 (zero_bytes 32).

Abbreviation toy_token_run := (@callContract contract_var contract_value contract_variable boost_ref toy_hash residue_ref
  toy_token_types unit toy_no_state toy_owner 8080).

Lemma toy_token_quiet : quiet toy_token_manager.
Proof.
  destruct (@erc20_created boost_ref toy_hash residue_ref "ERC20" [84] [84] 18 1000 toy_owner toy_contract_address 0) as (vs & E & Hi & _);
    [by_compute|].
  constructor; [|done|done|done|].
  - cbn. unfold toy_token_vars. by rewrite E.
  - intros a c Hc. unfold toy_token_manager in Hc. cbn [contracts_] in Hc. apply lookup_singleton_Some in Hc as [<- <-]. apply erc20_contract_honest.
Qed.

Lemma toy_token_distinct : NoDup (@erc20_functors toy_hash).
Proof. by_compute. Qed.

Lemma toy_token_here c :
  contracts_ toy_token_manager !! to_ (toy_token_call toy_owner c) = Some (@erc20_contract boost_ref toy_hash residue_ref 0 toy_contract_address "ERC20").
Proof. unfold toy_token_manager. cbn [contracts_]. apply lookup_singleton_eq. Qed.

(** The owner sends 300 tokens. *)
Lemma erc20_call_refines_witness :
  let c := Transfer toy_friend 300 in
  let p := toy_token_run (toy_token_call toy_owner c) 0 (toy_token_manager, tt) in
  token_at 0 (reads p.2.1) = Some (mkToken 1000 {[ toy_owner := 700; toy_friend := 300 ]} ∅) ∧
  ∃ s', quiet s' ∧ callLogger_ s' = None ∧ contracts_ s' = contracts_ toy_token_manager ∧
    eventManager_ s' = eventManager_ toy_token_manager ∧ only_token 0 (reads toy_token_manager) (reads s') ∧
    match token_step toy_owner c toy_token with
    | Some t' => toy_token_run (toy_token_call toy_owner c) 0 (toy_token_manager, tt) = (Ok tt, (s', tt)) ∧ token_at 0 (reads s') = Some t'
    | None => toy_token_run (toy_token_call toy_owner c) 0 (toy_token_manager, tt) = (Throw (failed "what"), (s', tt)) ∧
        reads s' = reads toy_token_manager
    end.
Proof.
  split; [by vm_compute|].
  apply (@erc20_call_refines boost_ref toy_hash residue_ref toy_token_types unit toy_no_state toy_owner 8080 0 "ERC20" (Transfer toy_friend 300)
    (toy_token_call toy_owner (Transfer toy_friend 300)) 0 toy_token_manager tt toy_token).
  - apply erc20_types_honest.
  - apply toy_token_quiet.
  - apply toy_token_distinct.
  - by_compute.
  - apply toy_token_here.
  - by vm_compute.
  - done.
  - by vm_compute.
Defined.

(** A transfer from another account without an allowance. *)
Lemma erc20_supply_kept_witness :
  let tx := toy_token_call toy_friend (TransferFrom toy_owner toy_friend 1) in
  let p := toy_token_run tx 0 (toy_token_manager, tt) in
  is_ok p.1 = false ∧
  (∃ t', token_at 0 (reads p.2.1) = Some t' ∧ token_ok t' ∧ supply t' = 1000) ∧
  only_token 0 (reads toy_token_manager) (reads p.2.1) ∧ contracts_ p.2.1 = contracts_ toy_token_manager ∧ quiet p.2.1 ∧
  callLogger_ p.2.1 = None ∧ p.2.2 = tt.
Proof.
  intros tx p. assert (Hk : is_ok p.1 = false ∧ p.1 ≠ Throw Undefined) by (by vm_compute).
  assert (E : toy_token_run tx 0 (toy_token_manager, tt) = p) by reflexivity. clearbody p. destruct p as [r [s' x]]. destruct Hk as [Hk Hn]. split; [done|].
  apply (@erc20_supply_kept boost_ref toy_hash residue_ref toy_token_types unit toy_no_state toy_owner 8080 0 "ERC20" tx 0 toy_token_manager tt toy_token r).
  - apply erc20_types_honest.
  - apply toy_token_quiet.
  - by_compute.
  - apply (toy_token_here (Transfer toy_friend 1)).
  - by vm_compute.
  - by_compute.
  - exact E.
  - exact Hn.
Defined.
