(* ===== verification/ERC20Store.v ===== *)
(** * ERC20Store: a token across a restart

    What the destructor of [ERC20] saves (src/contract/templates/erc20.cpp) the constructor that loads
    the contract reads back: the entries of the batch, the loops over them, and the contract they build. *)

From S2P Require Import Prelude Bytes SizedInts Hashing SafeBase SafeCell SafeString SafeUint SafeMap Tx Abi DB EvmHost ContractManager ContractStore ContractVars ERC20.

Section store.
Context {DBI : RocksDB} {BB : BoostBits} {HO : HashOrder} {KC : Keccak} {BR : BoostResidue}.

(** ** The entries *)

Definition balance_entry (p : list Z * Z) : Entry := (p.1, uintToBytes p.2).

(** The allowances, one by one, and the entry of one. *)
Definition flat {A} (al : gmap (list Z) (gmap (list Z) A)) : list (list Z * list Z * A) :=
  in_order al ≫= λ p, map (λ q, (p.1, q.1, q.2)) (in_order p.2).
Definition allowance_entry (t : list Z * list Z * Z) : Entry := (t.1.1 ++ t.1.2, uint256ToBytes t.2).

(** What the types of the contract guarantee of its maps; an owner has an allowance once it gave one. *)
Definition storable_balances (b : gmap (list Z) Z) : Prop := map_Forall (λ a x, length a = 20%nat ∧ in_uint 256 x) b.
Definition storable_allowances (al : gmap (list Z) (gmap (list Z) Z)) : Prop :=
  map_Forall (λ o inner, length o = 20%nat ∧ inner ≠ ∅ ∧ storable_balances inner) al.

Lemma flat_elem {A} (al : gmap (list Z) (gmap (list Z) A)) o s x : (o, s, x) ∈ flat al ↔ ∃ inner, al !! o = Some inner ∧ inner !! s = Some x.
Proof.
  unfold flat. rewrite list_elem_of_bind. split.
  - intros ([o' inner] & Hin & Ho). apply list_elem_of_In, in_map_iff in Hin as ([s' x'] & [= -> -> ->] & Hs).
    exists inner. split; [by apply in_order_elem|]. apply in_order_elem. by apply list_elem_of_In.
  - intros (inner & Ho & Hs). exists (o, inner). split; [|by apply in_order_elem].
    apply list_elem_of_In, in_map_iff. exists (s, x). split; [done|]. apply list_elem_of_In. by apply in_order_elem.
Qed.

Lemma flat_typed al o s x : storable_allowances al → (o, s, x) ∈ flat al → length o = 20%nat ∧ length s = 20%nat ∧ in_uint 256 x.
Proof. intros Ha (inner & Ho & Hs)%flat_elem. destruct (Ha _ _ Ho) as (? & _ & Hi). by destruct (Hi _ _ Hs). Qed.

Lemma flat_NoDup {A} (al : gmap (list Z) (gmap (list Z) A)) : NoDup (flat al).
Proof.
  apply NoDup_bind.
  - intros [o i] [o' i'] y Ho Ho' H1 H2. apply list_elem_of_In, in_map_iff in H1 as ([s x] & <- & _).
    apply list_elem_of_In, in_map_iff in H2 as ([s' x'] & [= -> _ _] & _). apply in_order_elem in Ho, Ho'. congruence.
  - intros [o i] _. apply NoDup_fmap_2; [by intros [s x] [s' x'] [= -> ->]|]. apply (NoDup_fmap_1 fst), in_order_keys.
  - apply (NoDup_fmap_1 fst), in_order_keys.
Qed.

Lemma flat_keys_of {A} (al : gmap (list Z) (gmap (list Z) A)) (value : list Z * list Z * A → list Z) :
  (∀ o s x, (o, s, x) ∈ flat al → length o = 20%nat) → NoDup (map (λ t, (t.1.1 ++ t.1.2, value t)) (flat al)).*1.
Proof.
  intros Hl. rewrite <- list_fmap_compose. apply NoDup_fmap_2_strong; [|apply flat_NoDup].
  intros [[o s] x] [[o' s'] x'] H1 H2 Hk. cbn in Hk. assert (L1 := Hl _ _ _ H1). assert (L2 := Hl _ _ _ H2).
  apply app_inj_1 in Hk as [-> ->]; [|congruence]. apply flat_elem in H1 as (i & E1 & E2), H2 as (i' & E3 & E4). congruence.
Qed.

Lemma flat_keys al : storable_allowances al → NoDup (map allowance_entry (flat al)).*1.
Proof. intros Ha. apply (flat_keys_of al). intros o s x H. by destruct (flat_typed _ _ _ _ Ha H). Qed.

(** ** What the batch saves *)

(** The database when the destructor's batch is written. *)
Definition erc20_scalars (address : list Z) (name symbol : SafeString) (decimals totalSupply : SafeCell Z) (d : rdb) : rdb :=
  let pfx := getDBPrefix address in
  let d := put d (string_bytes "name_") (cell_get name) pfx in
  let d := put d (string_bytes "symbol_") (cell_get symbol) pfx in
  let d := put d (string_bytes "decimals_") (uint8ToBytes (cell_get decimals)) pfx in
  put d (string_bytes "totalSupply_") (uint256ToBytes (cell_get totalSupply)) pfx.

Definition erc20_puts (address : list Z) (b : gmap (list Z) Z) (al : gmap (list Z) (gmap (list Z) Z)) : list Entry :=
  map (prefixed (getNewPrefix address "balances_")) (map balance_entry (in_order b)) ++
  map (prefixed (getNewPrefix address "allowed_")) (map allowance_entry (flat al)).

Lemma erc20_save_puts address name symbol decimals totalSupply balances allowed d :
  erc20_save address name symbol decimals totalSupply balances allowed d =
  putBatch (erc20_scalars address name symbol decimals totalSupply d)
    (mkBatch (erc20_puts address (map_ balances) (map_ allowed)) []).
Proof.
  unfold erc20_save, sm_committed_entries. rewrite (foldl_push_back fst (λ p, uintToBytes p.2)).
  rewrite (foldl_push_nested (λ p, in_order p.2) (λ p q, p.1 ++ q.1) (λ _ q, uint256ToBytes q.2)).
  unfold erc20_puts. rewrite !map_map. cbn [puts_ dels_ DBBatch_new app]. do 3 f_equal. unfold flat.
  induction (in_order (map_ allowed)) as [|[o i] l IH]; [done|].
  rewrite !bind_cons, map_app, map_map, IH. done.
Qed.

(** ** What the constructor's loops build *)

Lemma load_balance_entry m a x :
  length a = 20%nat → in_uint 256 x →
  ∃ m', load_balance m (balance_entry (a, x)) = Ok m' ∧ sm_view m' = <[a := x]> (sm_view m) ∧
    sm_erased m' = sm_erased m ∧ owner_ (sm_base m') = owner_ (sm_base m).
Proof.
  intros Ha Hx. unfold load_balance, balance_entry, FixedBytes_of. cbn [fst snd]. rewrite decide_True, result_bind_Ok by done.
  rewrite fromBigEndian_uintToBytes, result_bind_Ok by (done || by destruct Hx).
  assert (H := sm_modify_spec 0 a (λ _, (Ok tt, x)) m). cbv beta iota zeta in H. destruct H as (_ & Hv & _ & He & Hb).
  eexists. split; [done|]. split; [done|]. split; [done|]. rewrite Hb. unfold markAsUsed. by case_match.
Qed.

Lemma load_balances (l : list (list Z * Z)) m :
  Forall (λ p, length p.1 = 20%nat ∧ in_uint 256 p.2) l →
  ∃ m', foldM load_balance m (map balance_entry l) = Ok m' ∧ sm_view m' = foldl (λ t p, <[p.1 := p.2]> t) (sm_view m) l ∧
    sm_erased m' = sm_erased m ∧ owner_ (sm_base m') = owner_ (sm_base m).
Proof.
  intros Hl. revert m. induction Hl as [|[a x] l [Ha Hx] _ IH]; intros m; [by exists m|].
  destruct (load_balance_entry m a x Ha Hx) as (m1 & E & Hv & He & Ho).
  destruct (IH m1) as (m' & E' & Hv' & He' & Ho'). exists m'. cbn [map foldM foldl]. rewrite E, result_bind_Ok, E'.
  split; [done|]. rewrite Hv', Hv, He', He, Ho', Ho. done.
Qed.

(** The allowance of [spender] at [owner] in a map of maps. *)
Definition inner_at {A} (t : gmap (list Z) (gmap (list Z) A)) (o s : list Z) : option A := default ∅ (t !! o) !! s.
Definition set_inner {A} (t : gmap (list Z) (gmap (list Z) A)) (e : list Z * list Z * A) : gmap (list Z) (gmap (list Z) A) :=
  <[e.1.1 := <[e.1.2 := e.2]> (default ∅ (t !! e.1.1))]> t.

Lemma load_allowance_entry m o s x :
  length o = 20%nat → length s = 20%nat → in_uint 256 x →
  ∃ m', load_allowance m (allowance_entry (o, s, x)) = Ok m' ∧ sm_view m' = set_inner (sm_view m) (o, s, x) ∧
    sm_erased m' = sm_erased m ∧ owner_ (sm_base m') = owner_ (sm_base m).
Proof.
  intros Ho Hs Hx. unfold load_allowance, allowance_entry. cbn [fst snd].
  rewrite (subspan_drop _ 0 20 o s), result_bind_Ok by (done || lia).
  unfold FixedBytes_of. rewrite (decide_True (P := length o = 20%nat)), result_bind_Ok by done.
  rewrite (decide_True (P := (20 ≤ length (o ++ s))%nat)), result_bind_Ok by (rewrite length_app; lia).
  rewrite drop_app_length' by done. rewrite (decide_True (P := length s = 20%nat)), result_bind_Ok by done.
  rewrite uint256_bytes_roundtrip, result_bind_Ok by done.
  assert (H := sm_modify_spec ∅ o (λ inner, (Ok tt, <[s := x]> inner)) m). cbv beta iota zeta in H. destruct H as (_ & Hv & _ & He & Hb).
  eexists. split; [done|]. split; [done|]. split; [done|]. rewrite Hb. unfold markAsUsed. by case_match.
Qed.

Lemma load_allowances (l : list (list Z * list Z * Z)) m :
  Forall (λ t, length t.1.1 = 20%nat ∧ length t.1.2 = 20%nat ∧ in_uint 256 t.2) l →
  ∃ m', foldM load_allowance m (map allowance_entry l) = Ok m' ∧ sm_view m' = foldl set_inner (sm_view m) l ∧
    sm_erased m' = sm_erased m ∧ owner_ (sm_base m') = owner_ (sm_base m).
Proof.
  intros Hl. revert m. induction Hl as [|[[o s] x] l (Ho & Hs & Hx) _ IH]; intros m; [by exists m|].
  destruct (load_allowance_entry m o s x Ho Hs Hx) as (m1 & E & Hv & He & Hw).
  destruct (IH m1) as (m' & E' & Hv' & He' & Hw'). exists m'. cbn [map foldM foldl]. rewrite E, result_bind_Ok, E'.
  split; [done|]. rewrite Hv', Hv, He', He, Hw', Hw. done.
Qed.

Lemma inner_at_set {A} (t : gmap (list Z) (gmap (list Z) A)) o s x o' s' :
  inner_at (set_inner t (o, s, x)) o' s' = if decide ((o, s) = (o', s')) then Some x else inner_at t o' s'.
Proof.
  unfold inner_at, set_inner. cbn [fst snd]. destruct (decide (o = o')) as [<-|Hne].
  - rewrite lookup_insert_eq. cbn [default from_option id]. destruct (decide (s = s')) as [<-|Hne].
    + by rewrite lookup_insert_eq, decide_True.
    + rewrite lookup_insert_ne, decide_False by congruence. done.
  - rewrite lookup_insert_ne, decide_False by congruence. done.
Qed.

(** The loop over the allowances, in any order, rebuilds the map of maps. *)
Lemma foldl_set_inner_at {A} (al : gmap (list Z) (gmap (list Z) A)) l t o s :
  (∀ o s x, (o, s, x) ∈ l → inner_at al o s = Some x) →
  inner_at (foldl set_inner t l) o s = if decide ((o, s) ∈ l.*1) then inner_at al o s else inner_at t o s.
Proof.
  revert t. induction l as [|[[o1 s1] x1] l IH]; intros t Hl; cbn [foldl].
  - by rewrite decide_False by apply not_elem_of_nil.
  - rewrite IH by (intros; apply Hl; by right). rewrite inner_at_set, fmap_cons. cbn [fst].
    assert (H1 := Hl o1 s1 x1 ltac:(left)). destruct (decide ((o, s) ∈ l.*1)); [by rewrite decide_True by by right|].
    destruct (decide ((o1, s1) = (o, s))) as [[= -> ->]|Hne]; [by rewrite decide_True by left|].
    rewrite decide_False; [done|]. rewrite elem_of_cons. by intros [?|?].
Qed.

Lemma foldl_set_inner_dom {A} (l : list (list Z * list Z * A)) (t : gmap (list Z) (gmap (list Z) A)) o : is_Some (foldl set_inner t l !! o) ↔ is_Some (t !! o) ∨ ∃ s x, (o, s, x) ∈ l.
Proof.
  revert t. induction l as [|[[o1 s1] x1] l IH]; intros t; cbn [foldl].
  - split; [by left|]. by intros [?|(s & x & ?%not_elem_of_nil)].
  - rewrite IH. unfold set_inner. cbn [fst]. rewrite lookup_insert_is_Some. split.
    + intros [[<-|[_ ?]]|(s & x & ?)]; [right; exists s1, x1; left|by left|right; exists s, x; by right].
    + intros [?|(s & x & [[= -> -> ->]|?]%elem_of_cons)]; [|by left; left|right; by exists s, x].
      left. destruct (decide (o1 = o)); [by left|by right].
Qed.

Lemma foldl_set_inner {A} (al : gmap (list Z) (gmap (list Z) A)) l :
  map_Forall (λ _ inner, inner ≠ ∅) al → l ≡ₚ flat al → foldl set_inner ∅ l = al.
Proof.
  intros Hne Hl.
  assert (Hin : ∀ o s x, (o, s, x) ∈ l ↔ ∃ inner, al !! o = Some inner ∧ inner !! s = Some x) by (intros; rewrite Hl; apply flat_elem).
  assert (Hat : ∀ o s, inner_at (foldl set_inner ∅ l) o s = inner_at al o s).
  { intros o s. rewrite (foldl_set_inner_at al) by (intros ? ? ? (i & E & ?)%Hin; unfold inner_at; by rewrite E). case_decide as Hk; [done|].
    unfold inner_at. rewrite lookup_empty. cbn [default from_option id]. rewrite lookup_empty. destruct (al !! o) as [i|] eqn:E; cbn; [|by rewrite lookup_empty].
    destruct (i !! s) as [x|] eqn:E'; [|done]. destruct Hk. apply list_elem_of_fmap. exists (o, s, x). split; [done|]. apply Hin. eauto. }
  apply map_eq. intros o. destruct (al !! o) as [i|] eqn:E.
  - assert (Hs : is_Some (foldl set_inner ∅ l !! o)).
    { apply foldl_set_inner_dom. right. destruct (map_choose i (Hne _ _ E)) as (s & x & Hx). exists s, x. apply Hin. eauto. }
    destruct Hs as [i' E']. rewrite E'. f_equal. apply map_eq. intros s. specialize (Hat o s). unfold inner_at in Hat. by rewrite E, E' in Hat.
  - destruct (foldl set_inner ∅ l !! o) as [i'|] eqn:E'; [|done]. exfalso.
    destruct (proj1 (foldl_set_inner_dom l ∅ o)) as [[? H]|(s & x & (i & H & _)%Hin)]; [by eexists|by rewrite lookup_empty in H|congruence].
Qed.

(** ** The restart *)

(** The token's entries in [d], if any, are of balances and allowances it has. *)
Definition token_covers (address : list Z) (b : gmap (list Z) Z) (al : gmap (list Z) (gmap (list Z) Z)) (d : rdb) : Prop :=
  (∀ k, is_Some (rdb_map d !! (getNewPrefix address "balances_" ++ k)) → is_Some (b !! k)) ∧
  ∀ k, is_Some (rdb_map d !! (getNewPrefix address "allowed_" ++ k)) → ∃ o s, k = o ++ s ∧ is_Some (inner_at al o s).

(** Two names under the prefix of a contract, neither the beginning of the other, give different keys. *)
Ltac prefix_tac := unfold getNewPrefix; rewrite <- ?app_assoc; intros ?%app_inv_head; discriminate.

Lemma scalars_lookup address name symbol decimals totalSupply d :
  let d' := erc20_scalars address name symbol decimals totalSupply d in
  rdb_map d' !! (getDBPrefix address ++ string_bytes "name_") = Some (cell_get name) ∧
  rdb_map d' !! (getDBPrefix address ++ string_bytes "symbol_") = Some (cell_get symbol) ∧
  rdb_map d' !! (getDBPrefix address ++ string_bytes "decimals_") = Some (uint8ToBytes (cell_get decimals)) ∧
  rdb_map d' !! (getDBPrefix address ++ string_bytes "totalSupply_") = Some (uint256ToBytes (cell_get totalSupply)).
Proof.
  cbv zeta. unfold erc20_scalars. rewrite !put_map.
  split_and!; repeat (rewrite lookup_insert_ne by prefix_tac); by rewrite lookup_insert_eq.
Qed.

Lemma scalars_maps address name symbol decimals totalSupply d k :
  let d' := erc20_scalars address name symbol decimals totalSupply d in
  rdb_map d' !! (getNewPrefix address "balances_" ++ k) = rdb_map d !! (getNewPrefix address "balances_" ++ k) ∧
  rdb_map d' !! (getNewPrefix address "allowed_" ++ k) = rdb_map d !! (getNewPrefix address "allowed_" ++ k).
Proof. cbv zeta. unfold erc20_scalars. rewrite !put_map. split; by repeat (rewrite lookup_insert_ne by prefix_tac). Qed.

Lemma balance_keys b : NoDup (map balance_entry (in_order b)).*1.
Proof. rewrite <- list_fmap_compose. apply in_order_keys. Qed.

Lemma erc20_puts_keys address b al : storable_allowances al → NoDup (erc20_puts address b al).*1.
Proof.
  intros Ha. unfold erc20_puts. rewrite fmap_app. apply NoDup_app. split; [apply prefixed_keys, balance_keys|].
  split; [|by apply prefixed_keys, flat_keys]. intros k [r ->]%prefixed_in [r' H]%prefixed_in. revert H. prefix_tac.
Qed.

(** The entries under each prefix after the batch. *)
Lemma saved_balances address b al d :
  storable_allowances al → token_covers address b al d →
  getBatch (putBatch d (mkBatch (erc20_puts address b al) [])) (getNewPrefix address "balances_") [] ≡ₚ map balance_entry (in_order b).
Proof.
  intros Ha [Hc _]. apply putBatch_getBatch; [by apply erc20_puts_keys|apply balance_keys| |].
  - intros k v. unfold erc20_puts. rewrite elem_of_app, prefixed_elem. split; [|by left]. intros [?|H]; [done|].
    apply prefixed_elem_in in H as [r H]. exfalso. revert H. prefix_tac.
  - intros k [x Hx]%Hc. apply list_elem_of_fmap. exists (balance_entry (k, x)). split; [done|]. apply list_elem_of_fmap.
    exists (k, x). split; [done|]. by apply in_order_elem.
Qed.

Lemma saved_allowances address b al d :
  storable_allowances al → token_covers address b al d →
  getBatch (putBatch d (mkBatch (erc20_puts address b al) [])) (getNewPrefix address "allowed_") [] ≡ₚ map allowance_entry (flat al).
Proof.
  intros Ha [_ Hc]. apply putBatch_getBatch; [by apply erc20_puts_keys|by apply flat_keys| |].
  - intros k v. unfold erc20_puts. rewrite elem_of_app, prefixed_elem. split; [|by right]. intros [H|?]; [|done].
    apply prefixed_elem_in in H as [r H]. exfalso. revert H. prefix_tac.
  - intros k (o & s & -> & [x Hx])%Hc. unfold inner_at in Hx. destruct (al !! o) as [i|] eqn:E; [|cbn in Hx; by rewrite lookup_empty in Hx].
    apply list_elem_of_fmap. exists (allowance_entry (o, s, x)). split; [done|]. apply list_elem_of_fmap.
    exists (o, s, x). split; [done|]. apply flat_elem. eauto.
Qed.

Lemma saved_scalar address b al d s :
  storable_allowances al →
  head (string_bytes s) ≠ head (string_bytes "balances_") → head (string_bytes s) ≠ head (string_bytes "allowed_") →
  get (putBatch d (mkBatch (erc20_puts address b al) [])) (string_bytes s) (getDBPrefix address) =
  default [] (rdb_map d !! (getDBPrefix address ++ string_bytes s)).
Proof.
  intros Ha H1 H2. rewrite get_spec, putBatch_lookup by by apply erc20_puts_keys.
  rewrite not_elem_of_list_to_map_1; [done|]. unfold erc20_puts. rewrite fmap_app, elem_of_app. unfold getNewPrefix.
  intros [[r Hr]%prefixed_in|[r Hr]%prefixed_in]; rewrite <- !app_assoc in Hr; apply app_inv_head in Hr; [apply H1|apply H2]; by rewrite Hr.
Qed.

Lemma erc20_saved_loads address name symbol decimals totalSupply balances allowed d :
  in_uint 8 (cell_get decimals) → in_uint 256 (cell_get totalSupply) →
  storable_balances (map_ balances) → storable_allowances (map_ allowed) → token_covers address (map_ balances) (map_ allowed) d →
  ∃ vs, erc20_load address (erc20_save address name symbol decimals totalSupply balances allowed d) = Ok vs ∧ Forall idle vs ∧
    sv_get <$> vs = [StringVal (cell_get name); StringVal (cell_get symbol); UintVal (cell_get decimals);
                     UintVal (cell_get totalSupply); MapVal (map_ balances); NestedVal (map_ allowed)].
Proof.
  intros Hd Hs Hb Ha Hc. rewrite erc20_save_puts. set (b := map_ balances) in *. set (al := map_ allowed) in *.
  set (d0 := erc20_scalars _ _ _ _ _ d).
  assert (Hc0 : token_covers address b al d0).
  { destruct Hc as [C1 C2]. split; intros k; destruct (scalars_maps address name symbol decimals totalSupply d k) as [E1 E2]; unfold d0;
      rewrite ?E1, ?E2; auto. }
  destruct (scalars_lookup address name symbol decimals totalSupply d) as (G1 & G2 & G3 & G4). fold d0 in G1, G2, G3, G4.
  unfold erc20_load. cbv zeta. rewrite !saved_scalar by done. rewrite G1, G2, G3, G4. cbn [default from_option id].
  rewrite bytesToUint8_roundtrip, result_bind_Ok, uint256_bytes_roundtrip, result_bind_Ok by done.
  destruct (Permutation_map_inv balance_entry _ (saved_balances address b al d0 Ha Hc0)) as (lb & Eb & Pb).
  destruct (Permutation_map_inv allowance_entry _ (saved_allowances address b al d0 Ha Hc0)) as (la & Ea & Pa).
  rewrite Eb, Ea.
  destruct (load_balances lb (SafeMap_owned ∅)) as (mb & Lb & Vb & Erb & Ob).
  { rewrite <- Pb. apply Forall_forall. intros [a x] H%in_order_elem. exact (Hb _ _ H). }
  destruct (load_allowances la (SafeMap_owned ∅)) as (ma & La & Va & Era & Oa).
  { rewrite <- Pa. apply Forall_forall. intros [[o s] x] H. by apply (flat_typed al). }
  rewrite Lb, result_bind_Ok, La, result_bind_Ok. eexists. split; [done|].
  rewrite (foldl_insert_entries b) in Vb by by rewrite <- Pb, in_order_perm.
  rewrite (foldl_set_inner al) in Va by (by rewrite Pa || (intros o i Hi; by apply (Ha _ _ Hi))).
  destruct (ready_vars_idle (SafeString_assign (cell_get name) (SafeString_owned [])).2 (SafeString_assign (cell_get symbol) (SafeString_owned [])).2
    (assign_u (cell_get decimals) (SafeUint_owned 0)).2 (assign_u (cell_get totalSupply) (SafeUint_owned 0)).2 mb ma) as [H1 H2]; try done.
  split; [exact H1|]. etransitivity; [exact H2|]. by rewrite Vb, Va.
Qed.

(** A token that is saved and loaded again has the same name, symbol, decimals and supply, and the
    balances and allowances it had committed; its variables are ready for the next call. *)
Theorem erc20_reloads address name symbol decimals totalSupply balances allowed d :
  in_uint 8 (cell_get decimals) → in_uint 256 (cell_get totalSupply) →
  storable_balances (map_ balances) → storable_allowances (map_ allowed) → token_covers address (map_ balances) (map_ allowed) d →
  ∃ vs, erc20_load address (erc20_save address name symbol decimals totalSupply balances allowed d) = Ok vs ∧ Forall idle vs ∧
    sv_get <$> vs = [StringVal (cell_get name); StringVal (cell_get symbol); UintVal (cell_get decimals);
                     UintVal (cell_get totalSupply); MapVal (map_ balances); NestedVal (map_ allowed)].
Proof. apply erc20_saved_loads. Qed.
End store.

(** ** A token at an address *)

Definition toy_balances : gmap (list Z) Z := {[ toy_owner := 700; toy_friend := 300 ]}.
Definition toy_allowances : gmap (list Z) (gmap (list Z) Z) := {[ toy_owner := {[ toy_friend := 50 ]} ]}.

Lemma erc20_reloads_witness :
  let save := @erc20_save ref_db boost_ref order_ref toy_contract_address (SafeString_owned [84]) (SafeString_owned [84; 84])
    (SafeUint_owned 18) (SafeUint_owned 1000) (SafeMap_owned toy_balances) (SafeMap_owned toy_allowances) (∅ : gmap _ _) in
  ∃ vs, @erc20_load ref_db boost_ref toy_contract_address save = Ok vs ∧ Forall idle vs ∧
    sv_get <$> vs = [StringVal [84]; StringVal [84; 84]; UintVal 18; UintVal 1000; MapVal toy_balances; NestedVal toy_allowances].
Proof.
  apply (@erc20_reloads ref_db boost_ref order_ref toy_contract_address (SafeString_owned [84]) (SafeString_owned [84; 84])
    (SafeUint_owned 18) (SafeUint_owned 1000) (SafeMap_owned toy_balances) (SafeMap_owned toy_allowances)).
  - by_compute.
  - by_compute.
  - by_compute.
  - by_compute.
  - split; intros k [x Hx]; cbn [rdb_map ref_db] in Hx; by rewrite lookup_empty in Hx.
Defined.
