(* ===== verification/DexPair.v ===== *)
(** * DexPair: the exchange's pair of tokens (src/contract/templates/dexv2/dexv2pair.{h,cpp})

    The contract is an [ERC20], the shares of its liquidity, with ten more variables; it calls the two tokens through
    the manager.  The theorems are about what a swap, a mint and a burn do to the reserves, to the tokens and
    to the shares, whatever contracts the tokens are, and about a swap at the price of DexLibrary. *)

From S2P Require Import Prelude Bytes SizedInts Hashing SafeBase SafeCell SafeUint SafeVector SafeMap Tx Randomness Abi DB Hex Event EvmHost ContractManager ContractStore ContractVars ContractLogic ERC20 DexLibrary.

Definition pair_error (what : string) : exn := DynamicException ("DEXV2Pair: " ++ what).

(** [dynamic_cast<ERC20>] and [dynamic_cast<DEXV2Factory>] of a contract, by its class. *)
Definition is_ERC20 (name : string) : bool := bool_decide (name ∈ ["ERC20"; "NativeWrapper"; "DEXV2Pair"]%string).
Definition is_DEXV2Factory (name : string) : bool := bool_decide (name = "DEXV2Factory"%string).
Definition is_DEXV2Pair (name : string) : bool := bool_decide (name = "DEXV2Pair"%string).

(** [explicit operator bool] of an address. *)
Definition address_bool (a : list Z) : bool := existsb (λ b, negb (b =? 0)) a.

(** [std::min] of two integers, and [boost::multiprecision::sqrt]. *)
Definition min_uint (a b : Z) : Z := if b <? a then b else a.
Definition boost_sqrt (a : Z) : Z := Z.sqrt a.

Section pair.
Context {BB : BoostBits} {KC : Keccak} {BR : BoostResidue}.

(** What a function of the interface returns, as the values of its types. *)
Definition one_uint (vs : list abi_val) : ccode Z := match vs with [VInt x] => CRet x | _ => CThrow Undefined end.
Definition one_address (vs : list abi_val) : ccode (list Z) := match vs with [VBytes a] => CRet a | _ => CThrow Undefined end.

(** [DEXV2Factory::feeTo], of the factory whose first variable is [f]. *)
Definition factory_feeTo (f : nat) : ccode (list abi_val) := use f (on_address SafeAddress_get) (λ a, CRet [VBytes a]).

Section functions.
Variables (n : nat) (self : list Z).

(** The variables after those of the base class, and the lock of the contract. *)
Definition v_factory : nat := (n + 6)%nat.
Definition v_token0 : nat := (n + 7)%nat.
Definition v_token1 : nat := (n + 8)%nat.
Definition v_reserve0 : nat := (n + 9)%nat.
Definition v_reserve1 : nat := (n + 10)%nat.
Definition v_blockTimestampLast : nat := (n + 11)%nat.
Definition v_price0CumulativeLast : nat := (n + 12)%nat.
Definition v_price1CumulativeLast : nat := (n + 13)%nat.
Definition v_kLast : nat := (n + 14)%nat.
Definition v_lock : nat := (n + 15)%nat.

Definition MINIMUM_LIQUIDITY : Z := 1000.

Definition _safeTransfer (token to : list Z) (value : Z) : ccode unit :=
  callContractFunction self token is_ERC20 (λ t, erc20_transfer t token to value) ;;~ CRet tt.

(** [callContractViewFunction(token, &ERC20::balanceOf, this->getContractAddress())]. *)
Definition token_balance (token : list Z) : ccode Z :=
  (vs <~ callContractViewFunction token is_ERC20 (λ t, erc20_balanceOf t self);; one_uint vs)%code.

(** A narrowing conversion to [uint112_t]. *)
Definition uint112 (x : Z) : result Z := ustore 112 x.

(** One of the price accumulators. *)
Definition price_increment (reserveA reserveB timeElapsed : Z) : result Z :=
  a ← uint112 reserveA;
  b ← uint112 reserveB;
  e ← encode112 a;
  q ← uqdiv e b;
  mul256 q timeElapsed.

Definition _update (balance0 balance1 reserve0 reserve1 : Z) : ccode unit := (
  g <~ CGlobals CRet;;
  let blockTimestamp := (g_blockTimestamp_ g / 1000000) mod 2 ^ 32 in
  last <~ get_uint v_blockTimestampLast;;
  let timeElapsed := (blockTimestamp - last) mod 2 ^ 32 in
  (if (0 <? timeElapsed) && negb (reserve0 =? 0) && negb (reserve1 =? 0) then
     p0 <~ lift_code (price_increment reserve1 reserve0 timeElapsed);;
     use v_price0CumulativeLast (on_uint (add_assign_u 256 p0)) CRet ;;~
     p1 <~ lift_code (price_increment reserve0 reserve1 timeElapsed);;
     use v_price1CumulativeLast (on_uint (add_assign_u 256 p1)) CRet
   else CRet tt) ;;~
  r0 <~ lift_code (uint112 balance0);;
  set_uint v_reserve0 r0 ;;~
  r1 <~ lift_code (uint112 balance1);;
  set_uint v_reserve1 r1 ;;~
  set_uint v_blockTimestampLast blockTimestamp)%code.

Definition _mintFee (reserve0 reserve1 : Z) : ccode bool := (
  factory <~ get_address v_factory;;
  vs <~ callContractViewFunction factory is_DEXV2Factory factory_feeTo;;
  feeTo <~ one_address vs;;
  let feeOn := address_bool feeTo in
  _kLast <~ get_uint v_kLast;;
  (if feeOn then
     if negb (_kLast =? 0) then
       k <~ lift_code (mul256 reserve0 reserve1);;
       let rootK := boost_sqrt k in
       let rootKLast := boost_sqrt _kLast in
       if rootKLast <? rootK then
         totalSupply <~ get_uint (v_totalSupply n);;
         d <~ lift_code (sub256 rootK rootKLast);;
         numerator <~ lift_code (mul256 totalSupply d);;
         x <~ lift_code (mul256 rootK 5);;
         denominator <~ lift_code (add256 x rootKLast);;
         liquidity <~ lift_code (div256 numerator denominator);;
         if 0 <? liquidity then mintValue_ n feeTo liquidity (CRet tt) else CRet tt
       else CRet tt
     else CRet tt
   else if negb (_kLast =? 0) then set_uint v_kLast 0 else CRet tt) ;;~
  CRet feeOn)%code.

(** The last line of [mint] and [burn]. *)
Definition set_kLast (feeOn : bool) : ccode unit := (
  if feeOn then
    r0 <~ get_uint v_reserve0;;
    r1 <~ get_uint v_reserve1;;
    k <~ lift_code (mul256 r0 r1);;
    set_uint v_kLast k
  else CRet tt)%code.

Definition pair_initialize (token0 token1 : list Z) : ccode unit := (
  factory <~ get_address v_factory;;
  caller <~ CLocals self (λ l, CRet (caller_ l));;
  code_throw_if (negb (bool_decide (factory = caller))) (pair_error "FORBIDDEN") ;;~
  set_address v_token0 token0 ;;~
  set_address v_token1 token1)%code.

Definition pair_mint (to : list Z) : ccode Z := in_guard v_lock (
  token0 <~ get_address v_token0;;
  balance0 <~ token_balance token0;;
  token1 <~ get_address v_token1;;
  balance1 <~ token_balance token1;;
  reserve0 <~ get_uint v_reserve0;;
  amount0 <~ lift_code (sub256 balance0 reserve0);;
  reserve1 <~ get_uint v_reserve1;;
  amount1 <~ lift_code (sub256 balance1 reserve1);;
  feeOn <~ _mintFee reserve0 reserve1;;
  totalSupply <~ get_uint (v_totalSupply n);;
  liquidity <~ (if totalSupply =? 0 then
      p <~ lift_code (mul256 amount0 amount1);;
      l <~ lift_code (sub256 (boost_sqrt p) MINIMUM_LIQUIDITY);;
      mintValue_ n zero_address MINIMUM_LIQUIDITY (CRet tt) ;;~
      CRet l
    else
      x0 <~ lift_code (mul256 amount0 totalSupply);;
      l0 <~ lift_code (div256 x0 reserve0);;
      x1 <~ lift_code (mul256 amount1 totalSupply);;
      l1 <~ lift_code (div256 x1 reserve1);;
      CRet (min_uint l0 l1));;
  code_throw_if (liquidity =? 0) (pair_error "INSUFFICIENT_LIQUIDITY_MINTED") ;;~
  mintValue_ n to liquidity (CRet tt) ;;~
  _update balance0 balance1 reserve0 reserve1 ;;~
  set_kLast feeOn ;;~
  CRet liquidity)%code.

Definition pair_burn (to : list Z) : ccode (Z * Z) := in_guard v_lock (
  token0 <~ get_address v_token0;;
  balance0 <~ token_balance token0;;
  token1 <~ get_address v_token1;;
  balance1 <~ token_balance token1;;
  vs <~ erc20_balanceOf n self;;
  liquidity <~ one_uint vs;;
  reserve0 <~ get_uint v_reserve0;;
  reserve1 <~ get_uint v_reserve1;;
  feeOn <~ _mintFee reserve0 reserve1;;
  totalSupply <~ get_uint (v_totalSupply n);;
  x0 <~ lift_code (mul256 liquidity balance0);;
  amount0 <~ lift_code (div256 x0 totalSupply);;
  x1 <~ lift_code (mul256 liquidity balance1);;
  amount1 <~ lift_code (div256 x1 totalSupply);;
  code_throw_if ((amount0 =? 0) || (amount1 =? 0)) (pair_error "INSUFFICIENT_LIQUIDITY_BURNED") ;;~
  burnValue_ n self liquidity (CRet tt) ;;~
  _safeTransfer token0 to amount0 ;;~
  token1 <~ get_address v_token1;;
  _safeTransfer token1 to amount1 ;;~
  token0 <~ get_address v_token0;;
  balance0 <~ token_balance token0;;
  token1 <~ get_address v_token1;;
  balance1 <~ token_balance token1;;
  reserve0 <~ get_uint v_reserve0;;
  reserve1 <~ get_uint v_reserve1;;
  _update balance0 balance1 reserve0 reserve1 ;;~
  set_kLast feeOn ;;~
  CRet (amount0, amount1))%code.

(** What came in of a token: the balance above what would be left without it. *)
Definition amount_in (balance reserve amountOut : Z) : result Z :=
  o ← uint112 amountOut;
  left ← ustore 112 (reserve - o);
  if left <? balance then x ← sub256 balance reserve; add256 x o else Ok 0.

Definition adjusted (balance amountIn : Z) : result Z :=
  x ← mul256 balance 1000; y ← mul256 amountIn 3; (sub256 x y).

(** [reserve0_ <= uint112_t(amount0Out) && reserve1_ <= uint112_t(amount1Out)]. *)
Definition insufficient_liquidity (reserve0 reserve1 amount0Out amount1Out : Z) : result bool :=
  o0 ← uint112 amount0Out;
  if reserve0 <=? o0 then o1 ← uint112 amount1Out; Ok (reserve1 <=? o1) else Ok false.

(** The last checks of a swap. *)
Definition swap_checks (balance0 balance1 reserve0 reserve1 amount0Out amount1Out : Z) : result unit :=
  amount0In ← amount_in balance0 reserve0 amount0Out;
  amount1In ← amount_in balance1 reserve1 amount1Out;
  _ ← throw_if ((amount0In =? 0) && (amount1In =? 0)) (pair_error "INSUFFICIENT_INPUT_AMOUNT");
  balance0Adjusted ← adjusted balance0 amount0In;
  balance1Adjusted ← adjusted balance1 amount1In;
  k ← mul256 balance0Adjusted balance1Adjusted;
  r ← mul256 reserve0 reserve1;
  r1 ← mul256 r 1000;
  r2 ← mul256 r1 1000;
  throw_if (k <? r2) (pair_error "K").

Definition pair_swap (amount0Out amount1Out : Z) (to : list Z) : ccode unit := in_guard v_lock (
  code_throw_if ((amount0Out =? 0) && (amount1Out =? 0)) (pair_error "INSUFFICIENT_OUTPUT_AMOUNT") ;;~
  reserve0 <~ get_uint v_reserve0;;
  reserve1 <~ get_uint v_reserve1;;
  b <~ lift_code (insufficient_liquidity reserve0 reserve1 amount0Out amount1Out);;
  code_throw_if b (pair_error "INSUFFICIENT_LIQUIDITY") ;;~
  token0 <~ get_address v_token0;;
  token1 <~ get_address v_token1;;
  code_throw_if (bool_decide (token0 = to) || bool_decide (token1 = to)) (pair_error "INVALID_TO") ;;~
  (if 0 <? amount0Out then _safeTransfer token0 to amount0Out else CRet tt) ;;~
  (if 0 <? amount1Out then _safeTransfer token1 to amount1Out else CRet tt) ;;~
  token0 <~ get_address v_token0;;
  balance0 <~ token_balance token0;;
  token1 <~ get_address v_token1;;
  balance1 <~ token_balance token1;;
  reserve0 <~ get_uint v_reserve0;;
  reserve1 <~ get_uint v_reserve1;;
  lift_code (swap_checks balance0 balance1 reserve0 reserve1 amount0Out amount1Out) ;;~
  _update balance0 balance1 reserve0 reserve1)%code.

Definition skim_token (token to : list Z) (v_reserve : nat) : ccode unit := (
  balance <~ token_balance token;;
  reserve <~ get_uint v_reserve;;
  x <~ lift_code (sub256 balance reserve);;
  _safeTransfer token to x)%code.

Definition pair_skim (to : list Z) : ccode unit := in_guard v_lock (
  token0 <~ get_address v_token0;;
  skim_token token0 to v_reserve0 ;;~
  token1 <~ get_address v_token1;;
  skim_token token1 to v_reserve1)%code.

Definition pair_sync : ccode unit := in_guard v_lock (
  token0 <~ get_address v_token0;;
  balance0 <~ token_balance token0;;
  token1 <~ get_address v_token1;;
  balance1 <~ token_balance token1;;
  reserve0 <~ get_uint v_reserve0;;
  reserve1 <~ get_uint v_reserve1;;
  _update balance0 balance1 reserve0 reserve1)%code.

(** The views. *)
Definition view_uint (i : nat) : ccode (list abi_val) := (x <~ get_uint i;; CRet [VInt x])%code.
Definition view_address (i : nat) : ccode (list abi_val) := (a <~ get_address i;; CRet [VBytes a])%code.
Definition pair_getReserves : ccode (list abi_val) := (
  r0 <~ get_uint v_reserve0;;
  r1 <~ get_uint v_reserve1;;
  t <~ get_uint v_blockTimestampLast;;
  CRet [VInt r0; VInt r1; VInt t])%code.
Definition pair_getReservess : ccode (Z * Z) := (
  r0 <~ get_uint v_reserve0;;
  r1 <~ get_uint v_reserve1;;
  CRet (r0, r1))%code.

(** The registered functions take and give lists of values. *)
Definition no_value {A} (c : ccode A) : ccode (list abi_val) := (c ;;~ CRet [])%code.
Definition args_uint2_address (f : Z → Z → list Z → ccode (list abi_val)) (vs : list abi_val) : ccode (list abi_val) :=
  match vs with [VInt x; VInt y; VBytes a] => f x y a | _ => CThrow Undefined end.

Definition pair_registerContractFunctions (c : DynamicContract (V := contract_var)) : DynamicContract (V := contract_var) :=
  let c := registerMemberFunction "initialize" [TAddress; TAddress] [] (args_address2 (λ a b, no_value (pair_initialize a b))) NonPayable c in
  let c := registerMemberFunction "getReserves" [] [TTuple [TUint 256; TUint 256; TUint 256]]
    (args0 (vs <~ pair_getReserves;; CRet [VList vs])%code) View c in
  let c := registerMemberFunction "factory" [] [TAddress] (args0 (view_address v_factory)) View c in
  let c := registerMemberFunction "token0" [] [TAddress] (args0 (view_address v_token0)) View c in
  let c := registerMemberFunction "token1" [] [TAddress] (args0 (view_address v_token1)) View c in
  let c := registerMemberFunction "price0CumulativeLast" [] [TUint 256] (args0 (view_uint v_price0CumulativeLast)) View c in
  let c := registerMemberFunction "price1CumulativeLast" [] [TUint 256] (args0 (view_uint v_price1CumulativeLast)) View c in
  let c := registerMemberFunction "kLast" [] [TUint 256] (args0 (view_uint v_kLast)) View c in
  let c := registerMemberFunction "mint" [TAddress] [TUint 256] (args_address (λ a, no_value (pair_mint a))) NonPayable c in
  let c := registerMemberFunction "burn" [TAddress] [TTuple [TUint 256; TUint 256]] (args_address (λ a, no_value (pair_burn a))) NonPayable c in
  let c := registerMemberFunction "swap" [TUint 256; TUint 256; TAddress] [] (args_uint2_address (λ x y a, no_value (pair_swap x y a))) NonPayable c in
  let c := registerMemberFunction "skim" [TAddress] [] (args_address (λ a, no_value (pair_skim a))) NonPayable c in
  registerMemberFunction "sync" [] [] (args0 (no_value pair_sync)) NonPayable c.

(** The base class registers its functions first. *)
Definition pair_contract : DynamicContract (V := contract_var) :=
  pair_registerContractFunctions (erc20_contract n self "DEXV2Pair").
End functions.

(** ** Construction *)

Definition ready_address (v : SafeAddress) : SafeAddress :=
  let v := SafeAddress_commit v in mkCell (enableRegister (base_ v)) (SafeCell.value_ v) (valuePtr_ v).

(** The variables of the class, with an unlocked guard. *)
Definition pair_vars (factory token0 token1 : list Z) (reserve0 reserve1 blockTimestampLast price0 price1 kLast : Z) : list contract_var :=
  let address a := AddressVar (ready_address (SafeAddress_assign a (SafeAddress_owned zero_address)).2) in
  let uint x := UintVar (ready_cell (assign_u x (SafeUint_owned 0)).2) in
  [address factory; address token0; address token1; uint reserve0; uint reserve1; uint blockTimestampLast;
   uint price0; uint price1; uint kLast; LockVar false].

Definition pair_construct (creator address : list Z) (n : nat) : result (list contract_var * DynamicContract) :=
  '(vs, _) ← erc20_construct "DEXV2Pair" (string_bytes "DEX V2") (string_bytes "DEX-V2") 18 0 creator address n;
  Ok (vs ++ pair_vars creator zero_address zero_address 0 0 0 0 0 0, pair_contract n address).

Definition pair_template : ContractTemplate (V := contract_var) :=
  mkTemplate [] (λ args creator address _ n,
    match args with [] => pair_construct creator address n | _ => Throw Undefined end).

(** ** The database *)

(** What the destructor of the class itself writes, before that of the base class; the getters read the temporary values.
    [uint112ToBytes] leaves the leading bytes of its array as they are on the stack. *)
Definition pair_save {DBI : RocksDB} (stack0 stack1 : list Z) (address factory token0 token1 : list Z)
    (reserve0 reserve1 blockTimestampLast price0 price1 kLast : Z) (d : rdb) : rdb :=
  let pfx := getDBPrefix address in
  let b := push_back DBBatch_new (string_bytes "factory_") factory pfx in
  let b := push_back b (string_bytes "token0_") token0 pfx in
  let b := push_back b (string_bytes "token1_") token1 pfx in
  let b := push_back b (string_bytes "reserve0_") (uint112ToBytes stack0 reserve0) pfx in
  let b := push_back b (string_bytes "reserve1_") (uint112ToBytes stack1 reserve1) pfx in
  let b := push_back b (string_bytes "blockTimestampLast_") (uint32ToBytes blockTimestampLast) pfx in
  let b := push_back b (string_bytes "price0CumulativeLast_") (uint256ToBytes price0) pfx in
  let b := push_back b (string_bytes "price1CumulativeLast_") (uint256ToBytes price1) pfx in
  let b := push_back b (string_bytes "kLast_") (uint256ToBytes kLast) pfx in
  putBatch d b.

(** The loading constructor, after that of the base class. *)
Definition pair_load {DBI : RocksDB} (address : list Z) (d : rdb) : result (list contract_var) :=
  let pfx := getDBPrefix address in
  let at_ s := get d (string_bytes s) pfx in
  factory ← FixedBytes_of 20 (at_ "factory_");
  token0 ← FixedBytes_of 20 (at_ "token0_");
  token1 ← FixedBytes_of 20 (at_ "token1_");
  reserve0 ← bytesToUint112 (at_ "reserve0_");
  reserve1 ← bytesToUint112 (at_ "reserve1_");
  blockTimestampLast ← bytesToUint32 (at_ "blockTimestampLast_");
  price0 ← bytesToUint256 (at_ "price0CumulativeLast_");
  price1 ← bytesToUint256 (at_ "price1CumulativeLast_");
  kLast ← bytesToUint256 (at_ "kLast_");
  Ok (pair_vars factory token0 token1 reserve0 reserve1 blockTimestampLast price0 price1 kLast).
End pair.

(** ** What the parts of a swap do *)

Section parts.
Context {BB : BoostBits} {KC : Keccak} {BR : BoostResidue} {CT : ContractTypes (V := contract_var)}.
Variables (bal : list Z → Z) (chainOwner : list Z) (chainId : Z) (n : nat) (self : list Z).
Implicit Types s : ContractManager (V := contract_var).
Abbreviation returns := (returns bal chainOwner chainId).
Abbreviation ends := (ends bal chainOwner chainId).

(** Integers, addresses and strings read as before, and maps do. *)
Definition scalars_kept s s1 : Prop := ∀ i x, is_scalar x = true → reads s !! i = Some x → reads s1 !! i = Some x.
Definition maps_kept s s1 : Prop := ∀ i m, reads s !! i = Some (MapVal m) → reads s1 !! i = Some (MapVal m).

Lemma scalars_same s s1 : reads s1 = reads s → scalars_kept s s1.
Proof. intros H i x _. by rewrite H. Qed.
Lemma scalars_trans s1 s2 s3 : scalars_kept s1 s2 → scalars_kept s2 s3 → scalars_kept s1 s3.
Proof. intros H1 H2 i x Hx H. by apply H2, H1. Qed.

Lemma returns_map_op {A} (i : nat) (op : M (SafeUnorderedMap Z) A) s Q :
  (∀ a s1, scalars_kept s s1 → steady s s1 → Q a s1) → returns (use i (on_map op) CRet) s Q.
Proof.
  intros H. apply returns_use. intros a v v' s1 Hv Ho Hr Hs. apply H; [|done]. destruct v as [v|v|v|v|v|v|v|v|v|v]; try done.
  cbn [on_map] in Ho. destruct (op v) as [r v1]. injection Ho as -> <-.
  intros j x Hx Hj. rewrite Hr, list_lookup_insert_ne; [done|]. intros <-. unfold reads in Hj. rewrite list_lookup_fmap, Hv in Hj.
  injection Hj as <-. done.
Qed.

Lemma returns_erc20_transfer t target to value s Q :
  (∀ vs s1, scalars_kept s s1 → steady s s1 → Q vs s1) → returns (erc20_transfer t target to value) s Q.
Proof.
  intros H vs s' E. unfold erc20_transfer in E. cbn [exec] in E. unfold mbind' at 1, mget at 1 in E.
  unfold sub_balance, add_balance in E. rewrite run_use in E. revert vs s' E. apply returns_bind, returns_map_op.
  intros [] s1 K1 S1 vs s' E. rewrite run_use in E. revert vs s' E. apply returns_bind, returns_map_op.
  intros [] s2 K2 S2. apply returns_ret, H; [by eapply scalars_trans|by transitivity s1].
Qed.

Lemma returns_safeTransfer token to value s Q :
  (∀ s1, scalars_kept s s1 → steady s s1 → Q tt s1) → returns (_safeTransfer self token to value) s Q.
Proof.
  intros H. apply returns_bind, returns_call. intros c s1 _ _ Hr Hs _. apply returns_erc20_transfer.
  intros vs s2 Hk Hs2. apply returns_ret, H; [|by transitivity s1]. eapply scalars_trans; [by apply scalars_same|done].
Qed.

(** [b] is what the token at [token] has for the pair. *)
Definition pair_balance (token : list Z) s (b : Z) : Prop :=
  ∃ c m, contracts_ s !! token = Some c ∧ is_ERC20 (contractName_ c) = true ∧
    reads s !! v_balances (first_var_ c) = Some (MapVal m) ∧ b = default 0 (m !! self).

Lemma pair_balance_kept token s s1 b : pair_balance token s b → maps_kept s s1 → steady s s1 → pair_balance token s1 b.
Proof.
  intros (c & m & H1 & H2 & H3 & H4) Hm Hs. exists c, m. rewrite (steady_contracts _ _ Hs). split; [done|]. split; [done|].
  split; [|done]. by apply Hm.
Qed.

Lemma maps_same s s1 : reads s1 = reads s → maps_kept s s1.
Proof. intros H i m. by rewrite H. Qed.

Lemma returns_balanceOf t owner s Q :
  (∀ m s1, reads s !! v_balances t = Some (MapVal m) → reads s1 = reads s → steady s s1 → Q [VInt (default 0 (m !! owner))] s1) →
  returns (erc20_balanceOf t owner) s Q.
Proof.
  intros H vs s' E. unfold erc20_balanceOf in E. rewrite run_use in E. revert vs s' E. apply returns_bind, returns_find.
  intros m s1 Hm Hr Hs. apply returns_ret. assert (E : match m !! owner with Some x => x | None => 0 end = default 0 (m !! owner)) by by destruct (m !! owner).
  rewrite E. by apply H.
Qed.

Lemma returns_token_balance token s Q :
  (∀ b s1, pair_balance token s b → reads s1 = reads s → steady s s1 → Q b s1) → returns (token_balance self token) s Q.
Proof.
  intros H. apply returns_bind, returns_view. intros c Hc Hn. apply returns_balanceOf. intros m s1 Hm Hr Hs. cbn [one_uint].
  apply returns_ret, H; [|done|done]. by exists c, m.
Qed.

(** [_update] stores the balances as the reserves; apart from the prices and the time nothing else changes. *)
Definition updated_vars : list nat :=
  [v_reserve0 n; v_reserve1 n; v_blockTimestampLast n; v_price0CumulativeLast n; v_price1CumulativeLast n].

Lemma reads_insert s s1 i x y j : reads s !! i = Some y → reads s1 = <[i := x]> (reads s) →
  reads s1 !! j = if decide (i = j) then Some x else reads s !! j.
Proof.
  intros Hy ->. case_decide as E; [subst; apply list_lookup_insert_eq; by eapply lookup_lt_Some|by apply list_lookup_insert_ne].
Qed.

(** An integer variable is written: the others stay. *)
Definition wrote (i : nat) (x : Z) s s1 : Prop :=
  (∃ y, reads s !! i = Some (UintVal y)) ∧ reads s1 = <[i := UintVal x]> (reads s) ∧ steady s s1.

Lemma wrote_lookup i x s s1 j : wrote i x s s1 → reads s1 !! j = if decide (i = j) then Some (UintVal x) else reads s !! j.
Proof. intros ([y Hy] & Hr & _). by apply (reads_insert s s1 i (UintVal x) (UintVal y)). Qed.

Lemma returns_write i (f : Z → result Z) s Q :
  (∀ x y s1, reads s !! i = Some (UintVal x) → f x = Ok y → wrote i y s s1 → Q tt s1) → returns (update_uint i f) s Q.
Proof. intros H. apply returns_update_uint. intros x y s1 Hx Hf Hr Hs. apply (H x y); [done|done|]. split; [by exists x|done]. Qed.

Lemma returns_price i p s Q :
  (∀ x s1, wrote i x s s1 → Q tt s1) → returns (use i (on_uint (add_assign_u 256 p)) CRet) s Q.
Proof. intros H. apply returns_write. intros x y s1 _ _ Hw. by eapply H. Qed.

(** [s1] differs from [s] in the integers of the indices [l] only. *)
Definition wrote_in (l : list nat) s s1 : Prop :=
  steady s s1 ∧ (∀ j, j ∉ l → reads s1 !! j = reads s !! j) ∧ (∀ j, j ∈ l → reads s1 !! j = reads s !! j ∨ ∃ x y, reads s !! j = Some (UintVal x) ∧ reads s1 !! j = Some (UintVal y)).

Lemma wrote_in_refl l s s1 : reads s1 = reads s → steady s s1 → wrote_in l s s1.
Proof. intros Hr Hs. split; [done|]. rewrite Hr. split; [done|]. by left. Qed.

Lemma wrote_in_step l i x s s1 s2 : wrote_in l s s1 → wrote i x s1 s2 → i ∈ l → wrote_in l s s2.
Proof.
  intros (Hs & H1 & H2) Hw Hi. assert (Hw' := Hw). destruct Hw' as ([y Hy] & _ & Hs2). split; [by transitivity s1|]. split.
  - intros j Hj. rewrite (wrote_lookup _ _ _ _ _ Hw), decide_False by (intros ->; done). by apply H1.
  - intros j Hj. rewrite (wrote_lookup _ _ _ _ _ Hw). case_decide as E; [|by apply H2]. subst j. right.
    destruct (H2 i Hj) as [E|(x1 & y1 & E1 & E2)]; [exists y, x|exists x1, x]; split; congruence.
Qed.

Lemma wrote_in_maps l s s1 : wrote_in l s s1 → maps_kept s s1.
Proof.
  intros (_ & H1 & H2) i m Hm. destruct (decide (i ∈ l)) as [Hi|Hi]; [|by rewrite H1].
  destruct (H2 i Hi) as [->|(x & y & E & _)]; [done|congruence].
Qed.

Lemma returns_update balance0 balance1 reserve0 reserve1 s Q :
  (∀ s1, wrote_in updated_vars s s1 → in_uint 112 balance0 → in_uint 112 balance1 →
    reads s1 !! v_reserve0 n = Some (UintVal balance0) → reads s1 !! v_reserve1 n = Some (UintVal balance1) → Q tt s1) →
  returns (_update n balance0 balance1 reserve0 reserve1) s Q.
Proof.
  intros HQ. unfold _update. apply returns_bind. intros g s' [= _ <-]. apply returns_bind, returns_get_uint.
  intros last s1 _ Hr1 Hs1. apply returns_bind.
  assert (Hmem : ∀ i, i ∈ [v_price0CumulativeLast n; v_price1CumulativeLast n] → i ∈ updated_vars) by (intros i; unfold updated_vars; rewrite !elem_of_cons, elem_of_nil; tauto).
  apply (returns_mono _ _ _ _ _ (λ _ s2, wrote_in updated_vars s s2)).
  { assert (H0 : wrote_in updated_vars s s1) by by apply wrote_in_refl.
    destruct (_ && _); [|by apply returns_ret]. apply returns_bind, returns_lift. intros p0 _.
    apply returns_bind, returns_price. intros x s2 H2. apply returns_bind, returns_lift. intros p1 _.
    apply returns_price. intros y s3 H3. eapply wrote_in_step; [|exact H3|by apply Hmem; right; left].
    eapply wrote_in_step; [done|exact H2|by apply Hmem; left]. }
  intros _ s2 H2. apply returns_bind, returns_lift. intros r0 [-> Hr0]%ustore_checked. 2: done.
  apply returns_bind, (returns_write _ (λ _, Ok balance0)). intros x0 y0 s3 _ [= <-] H3.
  apply returns_bind, returns_lift. intros r1 [-> Hb1]%ustore_checked. 2: done.
  apply returns_bind, (returns_write _ (λ _, Ok balance1)). intros x1 y1 s4 _ [= <-] H4.
  apply (returns_write _ (λ _, Ok _)). intros x2 y2 s5 _ [= <-] H5. apply HQ; [|done|done|..].
  - eapply wrote_in_step; [|exact H5|unfold updated_vars; rewrite !elem_of_cons; tauto].
    eapply wrote_in_step; [|exact H4|unfold updated_vars; rewrite !elem_of_cons; tauto].
    eapply wrote_in_step; [done|exact H3|unfold updated_vars; rewrite !elem_of_cons; tauto].
  - rewrite (wrote_lookup _ _ _ _ _ H5), decide_False by (unfold v_reserve0, v_blockTimestampLast; lia).
    rewrite (wrote_lookup _ _ _ _ _ H4), decide_False by (unfold v_reserve0, v_reserve1; lia).
    by rewrite (wrote_lookup _ _ _ _ _ H3), decide_True.
  - rewrite (wrote_lookup _ _ _ _ _ H5), decide_False by (unfold v_reserve1, v_blockTimestampLast; lia).
    by rewrite (wrote_lookup _ _ _ _ _ H4), decide_True.
Qed.

(** ** Swap *)

Lemma amount_in_nonneg b r o x : amount_in b r o = Ok x → 0 ≤ x.
Proof.
  unfold amount_in. intros (o' & _ & H)%result_bind_ok. apply result_bind_ok in H as (l & _ & H).
  destruct (l <? b); [|by injection H as <-]. apply result_bind_ok in H as (y & _ & H). apply add256_inv in H as [-> H]. unfold in_uint in H. lia.
Qed.

Lemma adjusted_inv b i x : adjusted b i = Ok x → x = b * 1000 - i * 3 ∧ 0 ≤ x.
Proof.
  unfold adjusted. intros (y & [-> _]%mul256_inv & H)%result_bind_ok. apply result_bind_ok in H as (z & [-> _]%mul256_inv & [-> H]%sub256_inv).
  unfold in_uint in H. lia.
Qed.

(** What the last checks of a swap establish: with what came in, less its fee, the product does not fall. *)
Lemma swap_checks_inv b0 b1 r0 r1 o0 o1 :
  swap_checks b0 b1 r0 r1 o0 o1 = Ok tt → ∃ i0 i1, amount_in b0 r0 o0 = Ok i0 ∧ amount_in b1 r1 o1 = Ok i1 ∧ 0 ≤ i0 ∧ 0 ≤ i1 ∧
    r0 * r1 * 1000 * 1000 ≤ (b0 * 1000 - i0 * 3) * (b1 * 1000 - i1 * 3) ∧ r0 * r1 ≤ b0 * b1.
Proof.
  unfold swap_checks. intros (i0 & H0 & H)%result_bind_ok. apply result_bind_ok in H as (i1 & H1 & H). apply result_bind_ok in H as (u & _ & H).
  apply result_bind_ok in H as (a0 & [-> A0]%adjusted_inv & H). apply result_bind_ok in H as (a1 & [-> A1]%adjusted_inv & H).
  apply result_bind_ok in H as (k & [-> _]%mul256_inv & H). apply result_bind_ok in H as (r & [-> _]%mul256_inv & H).
  apply result_bind_ok in H as (r' & [-> _]%mul256_inv & H). apply result_bind_ok in H as (r'' & [-> _]%mul256_inv & H%throw_if_ok%Z.ltb_ge).
  assert (N0 := amount_in_nonneg _ _ _ _ H0). assert (N1 := amount_in_nonneg _ _ _ _ H1).
  exists i0, i1. split_and!; try done.
  assert ((b0 * 1000 - i0 * 3) * (b1 * 1000 - i1 * 3) ≤ (b0 * 1000) * (b1 * 1000)) by (apply Z.mul_le_mono_nonneg; lia). nia.
Qed.

(** The reserves of the pair. *)
Definition reserves_at (s : ContractManager (V := contract_var)) (r0 r1 : Z) : Prop :=
  reads s !! v_reserve0 n = Some (UintVal r0) ∧ reads s !! v_reserve1 n = Some (UintVal r1).

(** The pair holds the balances [b0] and [b1] of the tokens it names. *)
Definition balances_at (s : ContractManager (V := contract_var)) (b0 b1 : Z) : Prop :=
  ∃ t0 t1, reads s !! v_token0 n = Some (AddressVal t0) ∧ reads s !! v_token1 n = Some (AddressVal t1) ∧
    pair_balance t0 s b0 ∧ pair_balance t1 s b1.

Lemma token_vars_not_updated : (v_token0 n ∉ updated_vars) ∧ (v_token1 n ∉ updated_vars) ∧ (v_kLast n ∉ updated_vars).
Proof.
  unfold updated_vars. split_and!; rewrite !not_elem_of_cons;
    unfold v_token0, v_token1, v_kLast, v_reserve0, v_reserve1, v_blockTimestampLast, v_price0CumulativeLast, v_price1CumulativeLast;
    (split_and!; [lia..|apply not_elem_of_nil]).
Qed.

(** C9: A swap that returns leaves the product of the reserves no smaller, whatever contracts the tokens are and however much is taken
    out: the reserves end as the balances that the pair has of both tokens. *)
Theorem swap_keeps_product amount0Out amount1Out to s s' r0 r1 :
  reserves_at s r0 r1 → exec bal chainOwner chainId (pair_swap n self amount0Out amount1Out to) s = (Ok tt, s') →
  ∃ b0 b1, reserves_at s' b0 b1 ∧ balances_at s' b0 b1 ∧ in_uint 112 b0 ∧ in_uint 112 b1 ∧ r0 * r1 ≤ b0 * b1.
Proof.
  intros [R0 R1]. revert s'. cut (returns (pair_swap n self amount0Out amount1Out to) s (λ _ s', ∃ b0 b1, reserves_at s' b0 b1 ∧
    balances_at s' b0 b1 ∧ in_uint 112 b0 ∧ in_uint 112 b1 ∧ r0 * r1 ≤ b0 * b1)).
  { intros H s'. apply H. }
  apply returns_guard. intros s1 E1 S1. apply returns_bind, returns_throw_if. intros _.
  apply returns_bind, returns_get_uint. intros x0 s2 _ E2 S2. apply returns_bind, returns_get_uint. intros x1 s3 _ E3 S3.
  apply returns_bind, returns_lift. intros b _. apply returns_bind, returns_throw_if. intros _.
  apply returns_bind, returns_get_address. intros t0' s4 _ E4 S4. apply returns_bind, returns_get_address. intros t1' s5 _ E5 S5.
  apply returns_bind, returns_throw_if. intros _.
  assert (K5 : scalars_kept s s5) by (apply scalars_same; congruence).
  assert (Htr : ∀ o token s0, scalars_kept s s0 →
    returns (if 0 <? o then _safeTransfer self token to o else CRet tt) s0 (λ _ s', scalars_kept s s')).
  { intros o token s0 K. destruct (0 <? o); [|by apply returns_ret]. apply returns_safeTransfer. intros s0' K' _. by eapply scalars_trans. }
  apply returns_bind. eapply returns_mono; [by apply Htr|]. intros [] s6 K6. cbv beta in K6 |- *.
  apply returns_bind. eapply returns_mono; [by apply Htr|]. intros [] s7 K7. cbv beta in K7 |- *.
  apply returns_bind, returns_get_address. intros t0 s8 T0 E8 S8. apply returns_bind, returns_token_balance. intros b0 s9 B0 E9 S9.
  apply returns_bind, returns_get_address. intros t1 s10 T1 E10 S10. apply returns_bind, returns_token_balance. intros b1 s11 B1 E11 S11.
  apply returns_bind, returns_get_uint. intros y0 s12 Y0 E12 S12. apply returns_bind, returns_get_uint. intros y1 s13 Y1 E13 S13.
  assert (y0 = r0) as ->. { apply K7 in R0; [|done]. rewrite E11, E10, E9, E8 in Y0. congruence. }
  assert (y1 = r1) as ->. { apply K7 in R1; [|done]. rewrite E12, E11, E10, E9, E8 in Y1. congruence. }
  apply returns_bind, returns_lift. intros [] (i0 & i1 & _ & _ & _ & _ & _ & Hk)%swap_checks_inv.
  apply returns_update. intros s14 W I0 I1 Q0 Q1 s15 E15 S15.
  assert (Hb : ∀ token b s0, pair_balance token s0 b → reads s0 = reads s8 → steady s0 s13 → pair_balance token s15 b).
  { intros token b' s0 H E S. eapply pair_balance_kept; [exact H|..].
    - intros i m Hm. rewrite E15. apply (wrote_in_maps _ _ _ W). by rewrite E13, E12, E11, E10, E9, <- E.
    - etransitivity; [exact S|]. etransitivity; [|exact S15]. apply W. }
  destruct token_vars_not_updated as (N0 & N1 & _). destruct W as (_ & W & _).
  exists b0, b1. split; [by split; rewrite E15|]. split; [|done]. exists t0, t1.
  rewrite E15, !W, E13, E12, E11, E10, E9, E8 by done. split; [done|]. split; [by rewrite <- E8, <- E9|].
  split.
  - apply (Hb _ _ s8); [done|done|]. etransitivity; [exact S9|]. etransitivity; [exact S10|]. etransitivity; [exact S11|]. by etransitivity.
  - apply (Hb _ _ s10); [done|congruence|]. etransitivity; [exact S11|]. by etransitivity.
Qed.

(** ** A swap at the price of the library *)

(** What a statement of the pair leaves as it is but for what is read. *)
Definition calm s s1 : Prop := locks s1 = locks s ∧ steady s s1.

Lemma like_calm s s1 : like s s1 → calm s s1.
Proof. by intros []. Qed.

Lemma calm_logger s s1 : calm s s1 → is_Some (callLogger_ s) → is_Some (callLogger_ s1).
Proof. intros [_ H]. by rewrite (steady_logger _ _ H). Qed.

#[local] Instance calm_preorder : PreOrder calm.
Proof. split; [by intros s|]. intros s1 s2 s3 [H1 H2] [H3 H4]. split; [congruence|by transitivity s2]. Qed.

Lemma ends_write i (f : Z → result Z) x y s Q :
  is_Some (callLogger_ s) → reads s !! i = Some (UintVal x) → f x = Ok y →
  (∀ s1, wrote i y s s1 → calm s s1 → Q tt s1) → ends (update_uint i f) s Q.
Proof.
  intros Hm Hx Hf H. apply (ends_update_uint _ _ _ i f x y); [done..|]. intros s1 Hr Hk Hs _. apply H; [|done].
  split; [by exists x|done].
Qed.

(** The time since the last update, and the sum in a price accumulator. *)
Definition time_elapsed s (last : Z) : Z := ((g_blockTimestamp_ (globals_ s) / 1000000) mod 2 ^ 32 - last) mod 2 ^ 32.

Lemma price_increment_ok reserveA reserveB t :
  0 ≤ reserveA < 2 ^ 112 → 0 < reserveB < 2 ^ 112 → 0 ≤ t < 2 ^ 32 →
  price_increment reserveA reserveB t = Ok (reserveA * Q112 / reserveB * t).
Proof.
  intros HA HB Ht. unfold price_increment, uint112. rewrite !ustore_in by (unfold in_uint; lia). rewrite !result_bind_Ok.
  assert (Hq : Q112 = 2 ^ 112) by reflexivity. unfold encode112. rewrite ustore_in by (unfold in_uint; rewrite Hq; nia). rewrite result_bind_Ok.
  unfold uqdiv. rewrite div256_ok by lia. rewrite result_bind_Ok. apply mul256_ok.
  assert (0 ≤ reserveA * Q112 / reserveB) by (apply Z.div_pos; rewrite ?Hq; lia).
  assert (reserveA * Q112 / reserveB ≤ reserveA * Q112) by (apply Z.div_le_upper_bound; rewrite ?Hq; nia). rewrite Hq in *. nia.
Qed.

Lemma add_assign_ok a b : 0 ≤ a → 0 ≤ b → a + b ≤ umax 256 →
  (_ ← throw_if (umax 256 - b <? a) OverflowError; ustore 256 (a + b)) = Ok (a + b).
Proof.
  intros Ha Hb H. rewrite (proj2 (Z.ltb_ge _ _)) by lia. cbn [throw_if]. rewrite result_bind_Ok. apply ustore_in.
  unfold in_uint, umax in *. lia.
Qed.

Lemma ends_update b0 b1 r0 r1 s last p0 p1 Q :
  is_Some (callLogger_ s) → 0 ≤ b0 < 2 ^ 112 → 0 ≤ b1 < 2 ^ 112 → 0 < r0 < 2 ^ 112 → 0 < r1 < 2 ^ 112 → 0 ≤ p0 → 0 ≤ p1 →
  reserves_at s r0 r1 → reads s !! v_blockTimestampLast n = Some (UintVal last) →
  reads s !! v_price0CumulativeLast n = Some (UintVal p0) → reads s !! v_price1CumulativeLast n = Some (UintVal p1) →
  p0 + r1 * Q112 / r0 * time_elapsed s last ≤ umax 256 → p1 + r0 * Q112 / r1 * time_elapsed s last ≤ umax 256 →
  (∀ s1, wrote_in updated_vars s s1 → calm s s1 → reserves_at s1 b0 b1 → Q tt s1) →
  ends (_update n b0 b1 r0 r1) s Q.
Proof.
  intros Hm Hb0 Hb1 Hr0 Hr1 Hp0 Hp1 [R0 R1] Hl P0 P1 O0 O1 HQ. unfold _update. apply ends_bind. exists (globals_ s), s. split; [done|].
  apply ends_bind, (ends_get_uint _ _ _ _ last); [done|done|]. intros s1 L1. fold (time_elapsed s last).
  assert (Ht : 0 ≤ time_elapsed s last < 2 ^ 32) by (apply Z.mod_pos_bound; lia).
  assert (Hm1 : is_Some (callLogger_ s1)) by (apply (calm_logger s); [by apply like_calm|done]).
  apply ends_bind, (ends_mono _ _ _ _ _ (λ _ s2, wrote_in [v_price0CumulativeLast n; v_price1CumulativeLast n] s1 s2 ∧ calm s1 s2)).
  { rewrite !(proj2 (Z.eqb_neq _ _)) by lia. rewrite andb_true_r, andb_true_r.
    destruct (0 <? time_elapsed s last); [|apply ends_ret; split; [by apply wrote_in_refl|done]].
    apply ends_bind. eapply ends_lift; [by apply price_increment_ok; lia|].
    assert (N0 : 0 ≤ r1 * Q112 / r0 * time_elapsed s last) by (apply Z.mul_nonneg_nonneg; [apply Z.div_pos|]; unfold Q112; lia).
    assert (N1 : 0 ≤ r0 * Q112 / r1 * time_elapsed s last) by (apply Z.mul_nonneg_nonneg; [apply Z.div_pos|]; unfold Q112; lia).
    apply ends_bind. eapply (ends_write _ _ p0); [done|by rewrite (like_reads _ _ L1)|by apply add_assign_ok|]. intros s2 W2 C2.
    apply ends_bind. eapply ends_lift; [by apply price_increment_ok; lia|].
    eapply (ends_write _ _ p1); [by eapply calm_logger| |by apply add_assign_ok|].
    - rewrite (wrote_lookup _ _ _ _ _ W2), decide_False by (unfold v_price0CumulativeLast, v_price1CumulativeLast; lia).
      by rewrite (like_reads _ _ L1).
    - intros s3 W3 C3. split; [|by transitivity s2]. eapply wrote_in_step; [|exact W3|by right; left].
      eapply wrote_in_step; [by apply wrote_in_refl|exact W2|by left]. }
  intros [] s2 [W2 C2]. apply ends_bind. eapply ends_lift; [by apply ustore_in|].
  assert (Hkeep : ∀ i, i ∉ [v_price0CumulativeLast n; v_price1CumulativeLast n] → reads s2 !! i = reads s !! i).
  { intros i Hi. destruct W2 as (_ & W2 & _). by rewrite W2, (like_reads _ _ L1). }
  apply ends_bind. eapply (ends_write _ (λ _, Ok b0) r0); [by eapply calm_logger| |done|].
  { rewrite Hkeep; [done|]. unfold v_reserve0, v_price0CumulativeLast, v_price1CumulativeLast.
    rewrite !not_elem_of_cons. split_and!; [lia..|apply not_elem_of_nil]. }
  intros s3 W3 C3. apply ends_bind. eapply ends_lift; [by apply ustore_in|].
  apply ends_bind. eapply (ends_write _ (λ _, Ok b1) r1); [eapply calm_logger; [|exact Hm1]; by transitivity s2| |done|].
  { rewrite (wrote_lookup _ _ _ _ _ W3), decide_False by (unfold v_reserve0, v_reserve1; lia). rewrite Hkeep; [done|].
    unfold v_reserve1, v_price0CumulativeLast, v_price1CumulativeLast. rewrite !not_elem_of_cons. split_and!; [lia..|apply not_elem_of_nil]. }
  intros s4 W4 C4. assert (C14 : calm s1 s4) by (by transitivity s2; [|transitivity s3]).
  eapply (ends_write _ (λ _, Ok _) last); [by eapply calm_logger| |done|].
  { rewrite (wrote_lookup _ _ _ _ _ W4), decide_False by (unfold v_blockTimestampLast, v_reserve1; lia).
    rewrite (wrote_lookup _ _ _ _ _ W3), decide_False by (unfold v_blockTimestampLast, v_reserve0; lia). rewrite Hkeep; [done|].
    unfold v_blockTimestampLast, v_price0CumulativeLast, v_price1CumulativeLast. rewrite !not_elem_of_cons. split_and!; [lia..|apply not_elem_of_nil]. }
  intros s5 W5 C5. apply HQ.
  - assert (W : wrote_in updated_vars s s2).
    { destruct W2 as (S2 & A2 & B2). split; [etransitivity; [apply L1|done]|]. rewrite <- (like_reads _ _ L1).
      assert (Hsub : ∀ i, i ∈ [v_price0CumulativeLast n; v_price1CumulativeLast n] → i ∈ updated_vars)
        by (intros i; unfold updated_vars; rewrite !elem_of_cons, elem_of_nil; tauto).
      split; [intros j Hj; apply A2; by intros Hi%Hsub|]. intros j _.
      destruct (decide (j ∈ [v_price0CumulativeLast n; v_price1CumulativeLast n])) as [Hj|Hj]; [by apply B2|left; by apply A2]. }
    eapply wrote_in_step; [|exact W5|unfold updated_vars; rewrite !elem_of_cons; tauto].
    eapply wrote_in_step; [|exact W4|unfold updated_vars; rewrite !elem_of_cons; tauto].
    eapply wrote_in_step; [done|exact W3|unfold updated_vars; rewrite !elem_of_cons; tauto].
  - transitivity s1; [by apply like_calm|]. by transitivity s4.
  - split.
    + rewrite (wrote_lookup _ _ _ _ _ W5), decide_False by (unfold v_reserve0, v_blockTimestampLast; lia).
      rewrite (wrote_lookup _ _ _ _ _ W4), decide_False by (unfold v_reserve0, v_reserve1; lia).
      by rewrite (wrote_lookup _ _ _ _ _ W3), decide_True.
    + rewrite (wrote_lookup _ _ _ _ _ W5), decide_False by (unfold v_reserve1, v_blockTimestampLast; lia).
      by rewrite (wrote_lookup _ _ _ _ _ W4), decide_True.
Qed.

(** A token in its own place: its class is one of those derived from [ERC20], and it reads as [t]. *)
Record token_held (a : list Z) (c : DynamicContract (V := contract_var)) (t : token) s : Prop := {
  held_contract : contracts_ s !! a = Some c;
  held_class : is_ERC20 (contractName_ c) = true;
  held_token : token_at (first_var_ c) (reads s) = Some t
}.

Lemma ends_token_balance a c t s Q :
  is_Some (callLogger_ s) → token_held a c t s → (∀ s1, like s s1 → Q (balance t self) s1) → ends (token_balance self a) s Q.
Proof.
  intros Hm [Hc Hn Ht] H. destruct (token_at_inv _ _ _ Ht) as (_ & Hb & _).
  apply ends_bind, (ends_view _ _ _ _ _ _ c); [done|done|]. unfold erc20_balanceOf, ContractLogic.ends. rewrite run_use.
  apply ends_bind, (ends_find _ _ _ _ _ (balances t)); [done|done|]. intros s1 L1. apply ends_ret. cbn [one_uint]. apply ends_ret.
  assert (E : match balances t !! self with Some x => x | None => 0 end = balance t self) by by unfold balance; destruct (balances t !! self).
  rewrite E. by apply H.
Qed.

(** A call of a token's function that the token's step allows. *)
Lemma ends_token_call a c t (call : token_call) t' s Q :
  is_Some (callLogger_ s) → token_held a c t s → token_step self call t = Some t' →
  (∀ s1, calm s s1 → only_token (first_var_ c) (reads s) (reads s1) → token_held a c t' s1 → Q [] s1) →
  ends (callContractFunction self a is_ERC20 (λ k, call_code k a call)) s Q.
Proof.
  intros Hm [Hc Hn Ht] Hstep H. apply (ends_call _ _ _ _ _ _ _ c); [done|done|done|]. intros s1 Hr Hk Hs Hcaller.
  assert (Hh : holds (first_var_ c) s1 t) by (split; [by rewrite (steady_logger _ _ Hs)|by rewrite Hr]).
  destruct (call_code_step bal chainOwner chainId (first_var_ c) a call s1 t Hh) as (s2 & V2 & O2 & H2).
  rewrite Hcaller, Hstep in H2. destruct H2 as [[_ T2] E2].
  exists [], s2. split; [exact E2|]. assert (V2' := V2). destruct V2' as [_ K2]. apply only_vars_steady in V2.
  apply H; [split; [congruence|by transitivity s1]|by rewrite <- Hr|].
  constructor; [|done|done]. rewrite (steady_contracts _ _ V2), (steady_contracts _ _ Hs). done.
Qed.

Lemma ends_safeTransfer a c t to value t' s Q :
  is_Some (callLogger_ s) → token_held a c t s → move self to value t = Some t' →
  (∀ s1, calm s s1 → only_token (first_var_ c) (reads s) (reads s1) → token_held a c t' s1 → Q tt s1) →
  ends (_safeTransfer self a to value) s Q.
Proof.
  intros Hm Ht Hmove H. apply ends_bind, (ends_token_call a c t (Transfer to value) t'); [done..|].
  intros s1 C O T. by apply ends_ret, H.
Qed.

(** Objects with the first variables [a] and [b], of six variables and of [k], do not overlap. *)
Definition apart (a b k : nat) : Prop := (a + 6 ≤ b)%nat ∨ (b + k ≤ a)%nat.

Lemma only_token_other f l1 l2 i : only_token f l1 l2 → ¬ (f ≤ i < f + 6)%nat → l2 !! i = l1 !! i.
Proof. intros [_ H] Hi. apply H; unfold v_totalSupply, v_balances, v_allowed; lia. Qed.

Lemma token_at_other f g l1 l2 : only_token f l1 l2 → apart g f 6 → token_at g l2 = token_at g l1.
Proof.
  intros H Ha. unfold apart in Ha. unfold token_at.
  rewrite !(only_token_other f l1 l2) by (done || (unfold v_totalSupply, v_balances, v_allowed; lia)). done.
Qed.

Lemma token_at_updated f s s1 : wrote_in updated_vars s s1 → apart f n 16 → token_at f (reads s1) = token_at f (reads s).
Proof.
  intros (_ & W & _) Ha. unfold apart in Ha.
  assert (Hn : ∀ i, (f ≤ i < f + 6)%nat → i ∉ updated_vars).
  { intros i Hi. unfold updated_vars, v_reserve0, v_reserve1, v_blockTimestampLast, v_price0CumulativeLast, v_price1CumulativeLast.
    rewrite !not_elem_of_cons. split_and!; [lia..|apply not_elem_of_nil]. }
  unfold token_at. rewrite !W by (apply Hn; unfold v_totalSupply, v_balances, v_allowed; lia). done.
Qed.

(** A pair between calls of its functions: the lock is free, and its prices have room. *)
Record pair_ready (a0 a1 : list Z) (r0 r1 : Z) s : Prop := {
  ready_lock : locks s !! v_lock n = Some (Some false);
  ready_token0 : reads s !! v_token0 n = Some (AddressVal a0);
  ready_token1 : reads s !! v_token1 n = Some (AddressVal a1);
  ready_reserves : reserves_at s r0 r1;
  ready_prices : ∃ last p0 p1, reads s !! v_blockTimestampLast n = Some (UintVal last) ∧
    reads s !! v_price0CumulativeLast n = Some (UintVal p0) ∧ reads s !! v_price1CumulativeLast n = Some (UintVal p1) ∧ 0 ≤ p0 ∧ 0 ≤ p1 ∧
    p0 + r1 * Q112 / r0 * time_elapsed s last ≤ umax 256 ∧ p1 + r0 * Q112 / r1 * time_elapsed s last ≤ umax 256
}.

(** The checks pass for what [getAmountOut] gives. *)
Lemma swap_checks_price amountIn r0 r1 out :
  0 < amountIn → 0 < r0 → r0 + amountIn < 2 ^ 112 → 0 < r1 < 2 ^ 112 → getAmountOut amountIn r0 r1 = Ok out →
  0 ≤ out < r1 ∧ swap_checks (r0 + amountIn) (r1 - out) r0 r1 0 out = Ok tt.
Proof.
  intros Hi H0 Hs H1 Hg. destruct (getAmountOut_product amountIn r0 r1) as (out' & E & Ho & Hk); [lia..|].
  rewrite Hg in E. injection E as <-. split; [done|]. unfold product_kept in Hk.
  assert (A0 : amount_in (r0 + amountIn) r0 0 = Ok amountIn).
  { unfold amount_in, uint112. rewrite ustore_in, result_bind_Ok by done. rewrite ustore_in, result_bind_Ok by (unfold in_uint; lia).
    rewrite (proj2 (Z.ltb_lt _ _)) by lia. rewrite sub256_ok, result_bind_Ok by lia. rewrite add256_ok by lia. f_equal. lia. }
  assert (A1 : amount_in (r1 - out) r1 out = Ok 0).
  { unfold amount_in, uint112. rewrite ustore_in, result_bind_Ok by (unfold in_uint; lia). rewrite ustore_in, result_bind_Ok by (unfold in_uint; lia).
    by rewrite (proj2 (Z.ltb_ge _ _)) by lia. }
  unfold swap_checks. rewrite A0, result_bind_Ok, A1, result_bind_Ok. rewrite (proj2 (Z.eqb_neq _ _)) by lia. cbn [andb throw_if]. rewrite result_bind_Ok.
  assert (D0 : adjusted (r0 + amountIn) amountIn = Ok ((r0 + amountIn) * 1000 - amountIn * 3)).
  { unfold adjusted. rewrite (mul256_ok (r0 + amountIn) 1000), result_bind_Ok by lia. rewrite (mul256_ok amountIn 3), result_bind_Ok by lia. apply sub256_ok. lia. }
  assert (D1 : adjusted (r1 - out) 0 = Ok ((r1 - out) * 1000)).
  { unfold adjusted. rewrite (mul256_ok (r1 - out) 1000), result_bind_Ok by lia. rewrite (mul256_ok 0 3), result_bind_Ok by lia. rewrite sub256_ok by lia. f_equal. lia. }
  rewrite D0, result_bind_Ok, D1, result_bind_Ok.
  set (A := (r0 + amountIn) * 1000 - amountIn * 3) in *. set (B := (r1 - out) * 1000) in *.
  assert (0 ≤ A < 2 ^ 112 * 1000) by (unfold A; lia). assert (0 ≤ B < 2 ^ 112 * 1000) by (unfold B; lia).
  rewrite (mul256_ok A B), result_bind_Ok by nia. rewrite (mul256_ok r0 r1), result_bind_Ok by nia.
  rewrite (mul256_ok (r0 * r1) 1000), result_bind_Ok by nia. rewrite (mul256_ok (r0 * r1 * 1000) 1000), result_bind_Ok by nia.
  by rewrite (proj2 (Z.ltb_ge _ _)).
Qed.

(** What the pair needs to know of a state is that of another that reads the same where the pair reads. *)
Lemma pair_reads_other f s s1 i x :
  only_token f (reads s) (reads s1) → apart f n 16 → (n ≤ i < n + 16)%nat → reads s !! i = x → reads s1 !! i = x.
Proof. intros H Ha Hi <-. unfold apart in Ha. apply (only_token_other f); [done|lia]. Qed.

Lemma held_like a c t s s1 : token_held a c t s → reads s1 = reads s → steady s s1 → token_held a c t s1.
Proof. intros [] Hr Hs. constructor; [by rewrite (steady_contracts _ _ Hs)|done|by rewrite Hr]. Qed.

(** Of the token of index [f] that holds for the rest of a state that a transfer of another token, or the update, leads to. *)
Lemma held_other a c t f s s1 : token_held a c t s → only_token f (reads s) (reads s1) → apart (first_var_ c) f 6 → steady s s1 → token_held a c t s1.
Proof. intros [] Ho Ha Hs. constructor; [by rewrite (steady_contracts _ _ Hs)|done|by rewrite (token_at_other f (first_var_ c) _ _ Ho)]. Qed.

Lemma held_updated a c t s s1 : token_held a c t s → wrote_in updated_vars s s1 → apart (first_var_ c) n 16 → token_held a c t s1.
Proof. intros [] Hw Ha. constructor; [by rewrite (steady_contracts _ _ (proj1 Hw))|done|by rewrite (token_at_updated _ _ _ Hw)]. Qed.

Ltac pair_index := unfold v_token0, v_token1, v_reserve0, v_reserve1, v_blockTimestampLast, v_price0CumulativeLast, v_price1CumulativeLast; lia.

(** The end of a swap of [out] of the second token, from the state after the transfer. *)
Lemma ends_swap_tail amountIn r0 r1 out a0 a1 c0 c1 t0 t1 s Q :
  is_Some (callLogger_ s) → token_held a0 c0 t0 s → token_held a1 c1 t1 s →
  reads s !! v_token0 n = Some (AddressVal a0) → reads s !! v_token1 n = Some (AddressVal a1) → reserves_at s r0 r1 →
  (∃ last p0 p1, reads s !! v_blockTimestampLast n = Some (UintVal last) ∧
    reads s !! v_price0CumulativeLast n = Some (UintVal p0) ∧ reads s !! v_price1CumulativeLast n = Some (UintVal p1) ∧ 0 ≤ p0 ∧ 0 ≤ p1 ∧
    p0 + r1 * Q112 / r0 * time_elapsed s last ≤ umax 256 ∧ p1 + r0 * Q112 / r1 * time_elapsed s last ≤ umax 256) →
  balance t0 self = r0 + amountIn → balance t1 self = r1 - out →
  0 < r0 → 0 < amountIn → r0 + amountIn < 2 ^ 112 → 0 < r1 < 2 ^ 112 → 0 ≤ out < r1 →
  swap_checks (r0 + amountIn) (r1 - out) r0 r1 0 out = Ok tt →
  (∀ s1, wrote_in updated_vars s s1 → calm s s1 → reserves_at s1 (r0 + amountIn) (r1 - out) → Q tt s1) →
  ends (token0 <~ get_address (v_token0 n);;
    balance0 <~ token_balance self token0;;
    token1 <~ get_address (v_token1 n);;
    balance1 <~ token_balance self token1;;
    reserve0 <~ get_uint (v_reserve0 n);;
    reserve1 <~ get_uint (v_reserve1 n);;
    lift_code (swap_checks balance0 balance1 reserve0 reserve1 0 out) ;;~
    _update n balance0 balance1 reserve0 reserve1)%code s Q.
Proof.
  intros Hm H0 H1 A0 A1 [R0 R1] (last & p0 & p1 & L & P0 & P1 & N0 & N1 & O0 & O1) B0 B1 Hr0 Hi Hs Hr1 Ho Hc HQ.
  assert (Hlog : ∀ s1, like s s1 → is_Some (callLogger_ s1)) by (intros s1 H; by apply (calm_logger s), Hm; apply like_calm).
  apply ends_bind, (ends_get_address _ _ _ _ a0); [done|done|]. intros s1 L1.
  apply ends_bind, (ends_token_balance a0 c0 t0); [by apply Hlog|apply (held_like _ _ _ s); [done|apply L1..]|]. intros s2 L2'.
  assert (L2 : like s s2) by by transitivity s1. clear L2'.
  apply ends_bind, (ends_get_address _ _ _ _ a1); [by apply Hlog|by rewrite (like_reads _ _ L2)|]. intros s3 L3'.
  assert (L3 : like s s3) by by transitivity s2. clear L3'.
  apply ends_bind, (ends_token_balance a1 c1 t1); [by apply Hlog|apply (held_like _ _ _ s); [done|apply L3..]|]. intros s4 L4'.
  assert (L4 : like s s4) by by transitivity s3. clear L4'.
  apply ends_bind, (ends_get_uint _ _ _ _ r0); [by apply Hlog|by rewrite (like_reads _ _ L4)|]. intros s5 L5'.
  assert (L5 : like s s5) by by transitivity s4. clear L5'.
  apply ends_bind, (ends_get_uint _ _ _ _ r1); [by apply Hlog|by rewrite (like_reads _ _ L5)|]. intros s6 L6'.
  assert (L6 : like s s6) by by transitivity s5. clear L6'.
  apply ends_bind. rewrite B0, B1. eapply ends_lift; [exact Hc|].
  assert (Et : time_elapsed s6 last = time_elapsed s last) by by unfold time_elapsed; rewrite (steady_globals _ _ (like_steady _ _ L6)).
  eapply (ends_update _ _ _ _ _ last p0 p1); rewrite ?(like_reads _ _ L6), ?Et; try done; try lia; [by apply Hlog|by split; rewrite (like_reads _ _ L6)|].
  intros s7 W C R. apply HQ; [|transitivity s6; [by apply like_calm|done]|done].
  destruct W as (W1 & W2 & W3). split; [etransitivity; [apply L6|done]|]. by rewrite <- (like_reads _ _ L6).
Qed.

Lemma ends_swap_at_price amountIn r0 r1 out a0 a1 c0 c1 t0 t1 t1' to s :
  is_Some (callLogger_ s) → pair_ready a0 a1 r0 r1 s → token_held a0 c0 t0 s → token_held a1 c1 t1 s →
  apart (first_var_ c0) (first_var_ c1) 6 → apart (first_var_ c0) n 16 → apart (first_var_ c1) n 16 →
  balance t0 self = r0 + amountIn → balance t1 self = r1 → token_ok t1 → move self to out t1 = Some t1' →
  0 < r0 → 0 < amountIn → r0 + amountIn < 2 ^ 112 → 0 < r1 < 2 ^ 112 →
  getAmountOut amountIn r0 r1 = Ok out → 0 < out → to ≠ a0 → to ≠ a1 → to ≠ self →
  ends (pair_swap n self 0 out to) s (λ _ s', token_held a0 c0 t0 s' ∧ token_held a1 c1 t1' s' ∧
    reserves_at s' (r0 + amountIn) (r1 - out) ∧ locks s' = locks s).
Proof.
  intros Hm [Hlk A0 A1 [R0 R1] Hpr] H0 H1 P01 P0 P1 B0 B1 Hok Emv Hr0 Hi Hs Hr1 Hg Hout N0 N1 Nself.
  destruct (swap_checks_price amountIn r0 r1 out) as [Ho Hc]; [done..|].
  assert (Hmv := move_spec t1 self to out Hok ltac:(lia)). rewrite Emv in Hmv.
  destruct Hmv as (_ & _ & _ & _ & Hbal).
  assert (B1' : balance t1' self = r1 - out) by (rewrite Hbal, decide_True, decide_False by done; lia).
  apply ends_guard; [done|done|]. intros s1 Er1 El1 St1 _.
  assert (Hm1 : is_Some (callLogger_ s1)) by by rewrite (steady_logger _ _ St1).
  apply ends_bind, ends_throw_if; [by rewrite (proj2 (Z.eqb_neq out 0)) by lia|].
  apply ends_bind, (ends_get_uint _ _ _ _ r0); [done|by rewrite Er1|]. intros s2 L2.
  assert (Hlog : ∀ s0, like s1 s0 → is_Some (callLogger_ s0)) by (intros s0 H; by apply (calm_logger s1), Hm1; apply like_calm).
  apply ends_bind, (ends_get_uint _ _ _ _ r1); [by apply Hlog|by rewrite (like_reads _ _ L2), Er1|]. intros s3 L3'.
  assert (L3 : like s1 s3) by by transitivity s2. clear L3'.
  apply ends_bind. eapply ends_lift.
  { unfold insufficient_liquidity, uint112. rewrite (ustore_in 112 0), result_bind_Ok by (unfold in_uint; lia). rewrite (proj2 (Z.leb_gt r0 0)) by lia. reflexivity. }
  apply ends_bind, ends_throw_if; [done|].
  apply ends_bind, (ends_get_address _ _ _ _ a0); [by apply Hlog|by rewrite (like_reads _ _ L3), Er1|]. intros s4 L4'.
  assert (L4 : like s1 s4) by by transitivity s3. clear L4'.
  apply ends_bind, (ends_get_address _ _ _ _ a1); [by apply Hlog|by rewrite (like_reads _ _ L4), Er1|]. intros s5 L5'.
  assert (L5 : like s1 s5) by by transitivity s4. clear L5'.
  apply ends_bind, ends_throw_if; [by rewrite !bool_decide_eq_false_2 by done|].
  change (0 <? 0) with false. rewrite (proj2 (Z.ltb_lt 0 out)) by lia. apply ends_bind, ends_ret.
  assert (E5 : reads s5 = reads s) by by rewrite (like_reads _ _ L5).
  assert (S5 : steady s s5) by (transitivity s1; [done|apply L5]).
  apply ends_bind, (ends_safeTransfer a1 c1 t1 to out t1'); [by apply Hlog|by apply (held_like _ _ _ s)|done|].
  intros s6 C6 O6 T6. assert (O6' : only_token (first_var_ c1) (reads s) (reads s6)) by by rewrite <- E5.
  assert (T0 : token_held a0 c0 t0 s6) by (apply (held_other _ _ _ (first_var_ c1) s5); [by apply (held_like _ _ _ s)|done|done|apply C6]).
  assert (Hv : ∀ i x, (n ≤ i < n + 16)%nat → reads s !! i = x → reads s6 !! i = x)
    by (intros i x Hin Hx; by apply (pair_reads_other (first_var_ c1) s)).
  destruct Hpr as (last & p0 & p1 & Hlast & Hp0 & Hp1 & Hnn & Hnn' & O0 & O1).
  assert (Et : time_elapsed s6 last = time_elapsed s last).
  { unfold time_elapsed. by rewrite (steady_globals _ _ (proj2 C6)), (steady_globals _ _ S5). }
  eapply (ends_swap_tail amountIn r0 r1 out a0 a1 c0 c1 t0 t1'); try done.
  - eapply calm_logger; [exact C6|by apply Hlog].
  - apply Hv; [pair_index|done].
  - apply Hv; [pair_index|done].
  - split; apply Hv; (pair_index || done).
  - exists last, p0, p1. rewrite Et. split_and!; try done; apply Hv; (pair_index || done).
  - intros s7 W7 C7 R7. assert (C17 : calm s1 s7) by (transitivity s5; [by apply like_calm|by transitivity s6]).
    split; [by eapply calm_logger|]. split; [by destruct C17|]. intros s8 E8 K8 S8 _.
    split; [|split; [|split; [by split; rewrite E8; apply R7|done]]].
    + apply (held_like _ _ _ s7); [|done|done]. by apply (held_updated _ _ _ s6).
    + apply (held_like _ _ _ s7); [|done|done]. by apply (held_updated _ _ _ s6).
Qed.

(** A swap for the amount of the library's price succeeds: when [amountIn] of the first token has come in, the pair sends [out] of
    the second one, stores the new reserves and frees its lock. *)
Theorem swap_at_price amountIn r0 r1 out a0 a1 c0 c1 t0 t1 to s :
  is_Some (callLogger_ s) → pair_ready a0 a1 r0 r1 s → token_held a0 c0 t0 s → token_held a1 c1 t1 s →
  apart (first_var_ c0) (first_var_ c1) 6 → apart (first_var_ c0) n 16 → apart (first_var_ c1) n 16 →
  balance t0 self = r0 + amountIn → balance t1 self = r1 → token_ok t1 →
  0 < r0 → 0 < amountIn → r0 + amountIn < 2 ^ 112 → 0 < r1 < 2 ^ 112 →
  getAmountOut amountIn r0 r1 = Ok out → 0 < out → to ≠ a0 → to ≠ a1 → to ≠ self →
  ∃ s' t1', exec bal chainOwner chainId (pair_swap n self 0 out to) s = (Ok tt, s') ∧
    move self to out t1 = Some t1' ∧ token_held a0 c0 t0 s' ∧ token_held a1 c1 t1' s' ∧
    reserves_at s' (r0 + amountIn) (r1 - out) ∧ locks s' !! v_lock n = Some (Some false).
Proof.
  intros Hm Hr H0 H1 P01 P0 P1 B0 B1 Hok Hr0 Hi Hs Hr1 Hg Hout N0 N1 Nself.
  destruct (swap_checks_price amountIn r0 r1 out) as [Ho _]; [done..|].
  assert (Hmv := move_spec t1 self to out Hok ltac:(lia)). destruct (move self to out t1) as [t1'|] eqn:Emv; [|lia].
  destruct (ends_swap_at_price amountIn r0 r1 out a0 a1 c0 c1 t0 t1 t1' to s) as ([] & s' & E & ? & ? & ? & Hl); [done..|].
  exists s', t1'. split_and!; try done. rewrite Hl. apply Hr.
Qed.

(** A pair stays ready while another token changes, or the state is only read. *)
Lemma pair_ready_other f a0 a1 r0 r1 s s1 :
  pair_ready a0 a1 r0 r1 s → only_token f (reads s) (reads s1) → apart f n 16 → calm s s1 → pair_ready a0 a1 r0 r1 s1.
Proof.
  intros [Hlk A0 A1 [R0 R1] (last & p0 & p1 & L & P0 & P1 & Hrest)] Ho Ha [Hl Hs].
  assert (Hv : ∀ i x, (n ≤ i < n + 16)%nat → reads s !! i = x → reads s1 !! i = x) by (intros i x Hin Hx; by apply (pair_reads_other f s)).
  constructor; [by rewrite Hl|apply Hv; (pair_index || done)..|split; apply Hv; (pair_index || done)|].
  exists last, p0, p1. unfold time_elapsed. rewrite (steady_globals _ _ Hs). split_and!; try apply Hrest; apply Hv; (pair_index || done).
Qed.
Lemma pair_ready_like a0 a1 r0 r1 s s1 : pair_ready a0 a1 r0 r1 s → reads s1 = reads s → calm s s1 → pair_ready a0 a1 r0 r1 s1.
Proof.
  intros [Hlk A0 A1 [R0 R1] (last & p0 & p1 & Hrest)] Hr [Hl Hs].
  constructor; [by rewrite Hl|by rewrite Hr..|split; by rewrite Hr|].
  exists last, p0, p1. unfold time_elapsed. by rewrite Hr, (steady_globals _ _ Hs).
Qed.
End parts.

(** ** The database *)

Section stored.
Context {BB : BoostBits} {KC : Keccak} {BR : BoostResidue} {DBI : RocksDB}.

Definition named_puts (pfx : list Z) (fields : list (string * list Z)) : list Entry :=
  map (λ p, (pfx ++ string_bytes p.1, p.2)) fields.

Lemma get_named pfx fields d s v :
  NoDup (map (λ p, string_bytes p.1) fields) → (s, v) ∈ fields →
  get (putBatch d (mkBatch (named_puts pfx fields) [])) (string_bytes s) pfx = v.
Proof.
  intros Hnd Hin.
  assert (Hnd' : NoDup (map fst (named_puts pfx fields))).
  { unfold named_puts. rewrite map_map. cbn. rewrite <- (map_map (λ p, string_bytes p.1) (app pfx)).
    apply NoDup_fmap_2; [|done]. intros a b. by apply app_inv_head. }
  rewrite get_spec, putBatch_lookup by done.
  rewrite (elem_of_list_to_map_1 _ (pfx ++ string_bytes s) v); [done|done|].
  unfold named_puts. apply list_elem_of_fmap. by exists (s, v).
Qed.

(** What a 112-bit value reads as after its bytes were put over those on the stack. *)
Definition stacked (stack : list Z) (x : Z) : Z :=
  be_decode (take (14 - length (export_bits x)) stack ++ export_bits x).

Lemma uint112_stacked stack x : bytes_ok stack → length stack = 14%nat → in_uint 112 x →
  bytesToUint112 (uint112ToBytes stack x) = Ok (stacked stack x).
Proof.
  intros Hs Hl Hx. assert (Hb : 0 ≤ x < 256 ^ Z.of_nat 14) by exact Hx.
  assert (Hlen := export_bits_length_bound x 14 ltac:(lia) Hb).
  unfold uint112ToBytes. rewrite uintNToBytes_app by (done || lia). unfold bytesToUint112.
  rewrite bytesToUintN_decode; [done|..].
  - apply Forall_app. split; [by apply Forall_take|]. apply export_bits_ok. unfold in_uint in Hx. lia.
  - rewrite length_app, length_take. lia.
Qed.

Lemma stacked_zero x : in_uint 112 x → stacked (replicate 14 0) x = x.
Proof.
  intros Hx. unfold stacked. unfold in_uint in Hx. rewrite take_replicate, be_decode_app, be_decode_replicate0, export_bits_decode by lia. lia.
Qed.

(** A pair that is destroyed is loaded with its variables but for the reserves, which come back with whatever
    was on the stack above their bytes. *)
Theorem pair_reloads stack0 stack1 address factory token0 token1 r0 r1 last p0 p1 k d :
  length factory = 20%nat → length token0 = 20%nat → length token1 = 20%nat →
  bytes_ok stack0 → bytes_ok stack1 → length stack0 = 14%nat → length stack1 = 14%nat →
  in_uint 112 r0 → in_uint 112 r1 → in_uint 32 last → in_uint 256 p0 → in_uint 256 p1 → in_uint 256 k →
  pair_load address (pair_save stack0 stack1 address factory token0 token1 r0 r1 last p0 p1 k d) =
  Ok (pair_vars factory token0 token1 (stacked stack0 r0) (stacked stack1 r1) last p0 p1 k).
Proof.
  intros. set (fields := [("factory_", factory); ("token0_", token0); ("token1_", token1); ("reserve0_", uint112ToBytes stack0 r0);
    ("reserve1_", uint112ToBytes stack1 r1); ("blockTimestampLast_", uint32ToBytes last); ("price0CumulativeLast_", uint256ToBytes p0);
    ("price1CumulativeLast_", uint256ToBytes p1); ("kLast_", uint256ToBytes k)]%string).
  assert (E : pair_save stack0 stack1 address factory token0 token1 r0 r1 last p0 p1 k d =
    putBatch d (mkBatch (named_puts (getDBPrefix address) fields) [])) by reflexivity.
  assert (Hnd : NoDup (map (λ p, string_bytes p.1) fields)) by by_compute.
  assert (Hget : ∀ s v, (s, v) ∈ fields → get (putBatch d (mkBatch (named_puts (getDBPrefix address) fields) [])) (string_bytes s) (getDBPrefix address) = v)
    by (intros; by apply get_named).
  unfold pair_load. rewrite E. cbv zeta.
  rewrite (Hget "factory_"%string factory), (Hget "token0_"%string token0), (Hget "token1_"%string token1) by (unfold fields; rewrite !elem_of_cons; tauto).
  rewrite (Hget "reserve0_"%string _), (Hget "reserve1_"%string _), (Hget "blockTimestampLast_"%string _) by (unfold fields; rewrite !elem_of_cons; tauto).
  rewrite (Hget "price0CumulativeLast_"%string _), (Hget "price1CumulativeLast_"%string _), (Hget "kLast_"%string _) by (unfold fields; rewrite !elem_of_cons; tauto).
  unfold FixedBytes_of. rewrite !decide_True, !result_bind_Ok by done. rewrite !uint112_stacked, !result_bind_Ok by done.
  rewrite bytesToUint32_roundtrip, result_bind_Ok by done. by rewrite !uint256_bytes_roundtrip, !result_bind_Ok by done.
Qed.
End stored.

(** ** Witnesses *)

Definition toy_pair_address : list Z := toy_token 9.
Definition toy_trader : list Z := toy_token 7.

Definition toy_erc20_vars (holder : list Z) (amount : Z) : list contract_var :=
  match @erc20_construct boost_ref toy_hash residue_ref "ERC20" [84] [84] 18 amount holder zero_address 0 with Ok (vs, _) => vs | Throw _ => [] end.

(** Two tokens, and their pair with a thousand of the first on top of its reserves. *)
Definition toy_pair_vars : list contract_var :=
  toy_erc20_vars toy_pair_address 11000 ++ toy_erc20_vars toy_pair_address 20000 ++ toy_erc20_vars toy_trader 0 ++
  pair_vars zero_address (toy_token 1) (toy_token 2) 10000 20000 0 0 0 0.

Definition toy_pair_manager : ContractManager (V := contract_var) :=
  mkManager
    (<[ toy_token 1 := @erc20_contract boost_ref toy_hash residue_ref 0 (toy_token 1) "ERC20" ]>
    (<[ toy_token 2 := @erc20_contract boost_ref toy_hash residue_ref 6 (toy_token 2) "ERC20" ]>
    {[ toy_pair_address := @pair_contract boost_ref toy_hash residue_ref 12 toy_pair_address ]}))
    ∅ (call_start toy_pair_vars) (Some ∅) [] (mkEventManager [] []) (mkGlobals zero_address zero_hash 1 5000000 zero_hash).

Abbreviation toy_swap := (@exec contract_var contract_value contract_variable boost_ref toy_hash residue_ref toy_token_types
  (λ _, 0) toy_trader 8080 unit (@pair_swap residue_ref 12 toy_pair_address 0 1813 toy_trader) toy_pair_manager).

Lemma toy_pair_reserves : reserves_at 12 toy_pair_manager 10000 20000.
Proof. split; by vm_compute. Qed.

Lemma swap_keeps_product_witness :
  is_ok toy_swap.1 = true ∧ reserves_at 12 toy_swap.2 11000 18187 ∧
  ∃ b0 b1, reserves_at 12 toy_swap.2 b0 b1 ∧ balances_at 12 toy_pair_address toy_swap.2 b0 b1 ∧ in_uint 112 b0 ∧ in_uint 112 b1 ∧
    10000 * 20000 ≤ b0 * b1.
Proof.
  split; [by vm_compute|]. split; [split; by vm_compute|].
  apply (@swap_keeps_product boost_ref toy_hash residue_ref toy_token_types (λ _, 0) toy_trader 8080 12 toy_pair_address 0 1813 toy_trader
    toy_pair_manager toy_swap.2 10000 20000); [apply toy_pair_reserves|].
  assert (E : toy_swap.1 = Ok tt) by by vm_compute. rewrite <- E. apply surjective_pairing.
Defined.

Definition toy_token_state (holder : list Z) (amount : Z) : token := mkToken amount {[ holder := amount ]} ∅.

Lemma swap_at_price_witness :
  ∃ s' t1', toy_swap = (Ok tt, s') ∧ move toy_pair_address toy_trader 1813 (toy_token_state toy_pair_address 20000) = Some t1' ∧
    token_held (toy_token 1) (@erc20_contract boost_ref toy_hash residue_ref 0 (toy_token 1) "ERC20") (toy_token_state toy_pair_address 11000) s' ∧
    token_held (toy_token 2) (@erc20_contract boost_ref toy_hash residue_ref 6 (toy_token 2) "ERC20") t1' s' ∧
    reserves_at 12 s' (10000 + 1000) (20000 - 1813) ∧ locks s' !! v_lock 12 = Some (Some false).
Proof.
  apply (@swap_at_price boost_ref toy_hash residue_ref toy_token_types (λ _, 0) toy_trader 8080 12 toy_pair_address 1000 10000 20000 1813
    (toy_token 1) (toy_token 2)).
  - by eexists.
  - constructor; [by vm_compute..|apply toy_pair_reserves|]. exists 0, 0, 0. split_and!; try done; by vm_compute.
  - constructor; [unfold toy_pair_manager; cbn [contracts_]; apply lookup_insert_eq|done|by vm_compute].
  - constructor; [|done|by vm_compute]. unfold toy_pair_manager. cbn [contracts_]. rewrite lookup_insert_ne by done. apply lookup_insert_eq.
  - left. cbn. lia.
  - left. cbn. lia.
  - left. cbn. lia.
  - by vm_compute.
  - by vm_compute.
  - split; [done|]. split; [apply map_Forall_singleton; lia|]. by vm_compute.
  - done.
  - done.
  - done.
  - done.
  - by vm_compute.
  - done.
  - done.
  - done.
  - done.
Defined.

(** A reserve of one, saved over an array whose bytes were all 255. *)
Lemma pair_reloads_witness :
  @stacked boost_ref (replicate 14 255) 1 = 2 ^ 112 - 255 ∧
  @pair_load boost_ref ref_db toy_pair_address
    (@pair_save boost_ref ref_db (replicate 14 255) (replicate 14 0) toy_pair_address zero_address (toy_token 1) (toy_token 2) 1 2 3 4 5 6 (∅ : gmap _ _)) =
  Ok (pair_vars zero_address (toy_token 1) (toy_token 2) (@stacked boost_ref (replicate 14 255) 1) (@stacked boost_ref (replicate 14 0) 2) 3 4 5 6).
Proof.
  split; [by vm_compute|]. apply pair_reloads; try done; by_compute.
Defined.
