(* ===== verification/DexFactory.v ===== *)
(** * DexFactory: the factory of pairs (src/contract/templates/dexv2/dexv2factory.{h,cpp})

    Its functions are [code] over an address for the fees, one for who sets it, the list of the pairs and the map
    from two tokens to their pair; [createPair] asks the manager to create a contract.  The theorems show what the lookups
    give, that the manager never lets the factory create one, and which entries its destructor loses. *)

From S2P Require Import Prelude Bytes SizedInts Hashing SafeBase SafeCell SafeUint SafeVector SafeMap Tx Randomness Abi DB Hex Event EvmHost ContractManager ContractStore ContractVars ContractLogic ERC20 DexLibrary DexPair.

Definition factory_error (what : string) : exn := DynamicException ("DEXV2Factory::createPair: " ++ what).

Section factory.
Context {BB : BoostBits} {KC : Keccak} {BR : BoostResidue}.

Section functions.
Variables (n : nat) (self : list Z).

Definition v_feeTo : nat := n.
Definition v_feeToSetter : nat := (n + 1)%nat.
Definition v_allPairs : nat := (n + 2)%nat.
Definition v_getPair : nat := (n + 3)%nat.

Definition factory_feeToSetter : ccode (list abi_val) := use v_feeToSetter (on_address SafeAddress_get) (λ a, CRet [VBytes a]).

(** [allPairs_.get()] is the committed vector. *)
Definition factory_allPairs : ccode (list abi_val) :=
  use v_allPairs (on_vector (λ v, (Ok (vec_get v), v))) (λ l, CRet [VList (map VBytes l)]).
Definition factory_allPairsLength : ccode (list abi_val) :=
  use v_allPairs (on_vector vec_size) (λ k, CRet [VInt (Z.of_N k)]).

(** [getPair]: two lookups, of a constant map. *)
Definition getPair (tokenA tokenB : list Z) : ccode (list Z) :=
  use v_getPair (on_address_map (sm_find_const tokenA)) (λ it,
    CRet (match it with None => zero_address | Some inner => default zero_address (inner !! tokenB) end)).

Definition getPairByIndex (index : Z) : ccode (list Z) := (
  k <~ use v_allPairs (on_vector vec_size) CRet;;
  if Z.of_N k <=? index then CRet zero_address
  else use v_allPairs (on_vector (vec_at_const (Z.to_N index))) CRet)%code.

(** [getPair_\[a\]\[b\] = pair]. *)
Definition set_pair (a b pair : list Z) : ccode unit :=
  use v_getPair (on_address_map (sm_modify ∅ a (λ inner, (Ok tt, <[b := pair]> inner)))) CRet.

(** [callCreateContract<DEXV2Pair>(0, 0, 0)]: the functor of its creation, and 32 zeros as its arguments. *)
Definition createNewDEXV2Pair : list Z := functor_encode "createNewDEXV2PairContract" [].
Definition callCreateContract_pair : ccode (list Z) :=
  CLocals self (λ l, CCreate (origin_ l) self 0 createNewDEXV2Pair (replicate 32 0) lift_code).

Definition createPair (tokenA tokenB : list Z) : ccode (list Z) := (
  code_throw_if (bool_decide (tokenA = tokenB)) (factory_error "IDENTICAL_ADDRESSES") ;;~
  let token0 := if bytes_ltb tokenA tokenB then tokenA else tokenB in
  let token1 := if bytes_ltb tokenA tokenB then tokenB else tokenA in
  code_throw_if (bool_decide (token0 = zero_address)) (factory_error "ZERO_ADDRESS") ;;~
  known <~ getPair token0 token1;;
  code_throw_if (bool_decide (known ≠ zero_address)) (factory_error "PAIR_EXISTS") ;;~
  pair <~ callCreateContract_pair;;
  callContractFunction self pair is_DEXV2Pair (λ p, pair_initialize p pair token0 token1) ;;~
  set_pair token0 token1 pair ;;~
  set_pair token1 token0 pair ;;~
  use v_allPairs (on_vector (vec_push_back pair)) CRet ;;~
  CRet pair)%code.

Definition setFeeTo (feeTo : list Z) : ccode unit := set_address v_feeTo feeTo.
Definition setFeeToSetter (feeToSetter : list Z) : ccode unit := set_address v_feeToSetter feeToSetter.

Definition an_address (c : ccode (list Z)) : ccode (list abi_val) := (a <~ c;; CRet [VBytes a])%code.
Definition args_uint64 (f : Z → ccode (list abi_val)) (vs : list abi_val) : ccode (list abi_val) :=
  match vs with [VInt x] => f x | _ => CThrow Undefined end.

Definition factory_registerContractFunctions (c : DynamicContract (V := contract_var)) : DynamicContract (V := contract_var) :=
  let c := registerMemberFunction "feeTo" [] [TAddress] (args0 (factory_feeTo v_feeTo)) View c in
  let c := registerMemberFunction "feeToSetter" [] [TAddress] (args0 factory_feeToSetter) View c in
  let c := registerMemberFunction "allPairs" [] [TVector TAddress] (args0 factory_allPairs) View c in
  let c := registerMemberFunction "allPairsLength" [] [TUint 64] (args0 factory_allPairsLength) View c in
  let c := registerMemberFunction "getPair" [TAddress; TAddress] [TAddress] (args_address2 (λ a b, an_address (getPair a b))) View c in
  let c := registerMemberFunction "getPairByIndex" [TUint 64] [TAddress] (args_uint64 (λ i, an_address (getPairByIndex i))) View c in
  let c := registerMemberFunction "createPair" [TAddress; TAddress] [TAddress] (args_address2 (λ a b, no_value (createPair a b))) NonPayable c in
  let c := registerMemberFunction "setFeeTo" [TAddress] [] (args_address (λ a, no_value (setFeeTo a))) NonPayable c in
  registerMemberFunction "setFeeToSetter" [TAddress] [] (args_address (λ a, no_value (setFeeToSetter a))) NonPayable c.

Definition factory_contract : DynamicContract (V := contract_var) :=
  factory_registerContractFunctions (mkContract "DEXV2Factory" n ∅ ∅ ∅).
End functions.

(** ** Construction *)

(** A vector after [commit] and [enableRegister]. *)
Definition ready_vector (v : SafeVector (list Z)) : SafeVector (list Z) :=
  let v := vec_commit v in mkVector (enableRegister (vec_base v)) (vector_ v) (tmp_ v) (maxIndex_ v) (clear_ v).

Definition factory_vars (feeTo feeToSetter : list Z) (allPairs : SafeVector (list Z))
    (getPair_ : SafeUnorderedMap (gmap (list Z) (list Z))) : list contract_var :=
  let address a := AddressVar (ready_address (SafeAddress_assign a (SafeAddress_owned zero_address)).2) in
  [address feeTo; address feeToSetter; VectorVar (ready_vector allPairs); AddressMapVar (ready_map getPair_)].

Definition factory_construct (feeToSetter address : list Z) (n : nat) : result (list contract_var * DynamicContract) :=
  Ok (factory_vars zero_address feeToSetter SafeVector_owned (SafeMap_owned ∅), factory_contract n address).

Definition factory_template : ContractTemplate (V := contract_var) :=
  mkTemplate [TAddress] (λ args _ address _ n,
    match args with [VBytes feeToSetter] => factory_construct feeToSetter address n | _ => Throw Undefined end).
End factory.

(** ** The database *)

Section stored.
Context {DBI : RocksDB} {HO : HashOrder}.

(** The destructor: [index] is never incremented, and the entries of the map are keyed by the first token. *)
Definition factory_save (address feeTo feeToSetter : list Z) (allPairs : list (list Z))
    (pairs : gmap (list Z) (gmap (list Z) (list Z))) (d : rdb) : rdb :=
  let pfx := getDBPrefix address in
  let b := push_back DBBatch_new (string_bytes "feeTo_") feeTo pfx in
  let b := push_back b (string_bytes "feeToSetter_") feeToSetter pfx in
  let index := 0 in
  let b := foldl (λ b a, push_back b (uint32ToBytes index) a (getNewPrefix address "allPairs_")) b allPairs in
  let b := foldl (λ b tokenA, foldl (λ b tokenB,
      push_back b tokenA.1 (tokenB.1 ++ tokenB.2) (getNewPrefix address "getPair_")) b (in_order tokenA.2)) b (in_order pairs) in
  putBatch d b.

(** The loops of the loading constructor. *)
Definition load_allPairs (v : SafeVector (list Z)) (e : Entry) : result (SafeVector (list Z)) :=
  a ← FixedBytes_of 20 e.2;
  Ok (vec_push_back a v).2.
Definition load_pair (m : SafeUnorderedMap (gmap (list Z) (list Z))) (e : Entry) : result (SafeUnorderedMap (gmap (list Z) (list Z))) :=
  tokenA ← FixedBytes_of 20 e.1;
  b ← subspan e.2 0 20;
  tokenB ← FixedBytes_of 20 b;
  p ← (if decide (20 ≤ length e.2)%nat then Ok (drop 20 e.2) else Throw Undefined);
  pair ← FixedBytes_of 20 p;
  Ok (sm_modify ∅ tokenA (λ inner, (Ok tt, <[tokenB := pair]> inner)) m).2.

Definition factory_load (address : list Z) (d : rdb) : result (list contract_var) :=
  let pfx := getDBPrefix address in
  feeTo ← FixedBytes_of 20 (get d (string_bytes "feeTo_") pfx);
  feeToSetter ← FixedBytes_of 20 (get d (string_bytes "feeToSetter_") pfx);
  allPairs ← foldM load_allPairs SafeVector_owned (getBatch d (getNewPrefix address "allPairs_") []);
  getPair_ ← foldM load_pair (SafeMap_owned ∅) (getBatch d (getNewPrefix address "getPair_") []);
  Ok (factory_vars feeTo feeToSetter allPairs getPair_).
End stored.

(** ** The functions *)

Section properties.
Context {BB : BoostBits} {KC : Keccak} {BR : BoostResidue} {CT : ContractTypes (V := contract_var)}.
Variables (bal : list Z → Z) (chainOwner : list Z) (chainId : Z) (n : nat) (self : list Z).
Implicit Types s : ContractManager (V := contract_var).
Abbreviation returns := (returns bal chainOwner chainId).
Abbreviation ends := (ends bal chainOwner chainId).

(** [getPair] gives the pair that is stored for the two tokens, in that order, and the zero address when there is none. *)
Theorem getPair_finds tokenA tokenB m s :
  is_Some (callLogger_ s) → reads s !! v_getPair n = Some (AddressMapVal m) →
  ends (getPair n tokenA tokenB) s (λ p s1, like s s1 ∧
    p = match m !! tokenA with Some inner => default zero_address (inner !! tokenB) | None => zero_address end).
Proof.
  intros Hm (v & Hv & Hx)%reads_var. destruct v as [v|v|v|v|v|v|v|v|v|v]; try done. injection Hx as <-.
  destruct (checkKeyAndCopy_spec tokenA v) as (C1 & C2 & _). unfold getPair, ContractLogic.ends. rewrite run_use. apply ends_bind.
  eapply (ends_use _ _ _ _ _ _ _ (AddressMapVar v) (AddressMapVar (checkKeyAndCopy tokenA v))); [done|done|by cbn [on_address_map sm_find_const]; rewrite C2|].
  intros s1 Hr Hk Hs Hl. apply ends_ret. split; [|done].
  constructor; [|by apply (locks_same s s1 _ _ _ Hv) in Hk|done|done].
  apply (reads_same s s1 _ _ _ Hv) in Hr; [done|]. cbn. by rewrite C1.
Qed.

(** The manager takes a creation from the chain owner only: one that a contract asks for throws. *)
Lemma create_refused {A} o functor encoder (k : result (list Z) → ccode A) s :
  self ≠ chainOwner → is_Some (callLogger_ s) →
  ∃ e s1, e ≠ Undefined ∧ exec bal chainOwner chainId (CCreate o self 0 functor encoder k) s = exec bal chainOwner chainId (k (Throw e)) s1.
Proof.
  intros Hne [m Hm]. cbn [exec]. unfold mtry, callCreateContract, with_balances. rewrite Hm.
  unfold mbind', mmodify, mgets, cm_ethCall, mthrow_if. cbn [ci_from].
  rewrite (bool_decide_eq_true_2 (self ≠ chainOwner)) by done. unfold mthrow. by eexists (failed _), _.
Qed.

(** [createPair] never returns: the factory is not the chain owner. *)
Theorem createPair_refused tokenA tokenB s :
  self ≠ chainOwner → is_Some (callLogger_ s) →
  ∀ pair s', exec bal chainOwner chainId (createPair n self tokenA tokenB) s ≠ (Ok pair, s').
Proof.
  intros Hne Hm. cut (returns (createPair n self tokenA tokenB) s (λ _ _, False)); [intros H pair s' E; exact (H _ _ E)|].
  apply returns_bind, returns_throw_if. intros _. apply returns_bind, returns_throw_if. intros _.
  apply returns_bind. intros known s1 E1.
  assert (Hm1 : is_Some (callLogger_ s1)).
  { revert E1. unfold getPair. rewrite run_use. revert known s1. apply returns_bind, returns_use. intros a v v' s2 _ _ _ Hs.
    apply returns_ret. by rewrite (steady_logger _ _ Hs). }
  apply returns_bind, returns_throw_if. intros _. apply returns_bind. intros p s2 E2. exfalso.
  unfold callCreateContract_pair in E2. cbn [exec] in E2. unfold mbind' at 1, mget at 1 in E2.
  destruct (create_refused (A := list Z) (origin_ (locals_of s1 self)) createNewDEXV2Pair (replicate 32 0) lift_code s1 Hne Hm1) as (e & s3 & _ & E).
  cbn [exec] in E. rewrite E in E2. done.
Qed.

(** Whoever calls it, [setFeeTo] sets the address that the fees go to. *)
Theorem setFeeTo_unguarded feeTo old s :
  is_Some (callLogger_ s) → reads s !! v_feeTo n = Some (AddressVal old) →
  ends (setFeeTo n feeTo) s (λ _ s1, reads s1 !! v_feeTo n = Some (AddressVal feeTo)).
Proof.
  intros Hm (v & Hv & Hx)%reads_var. destruct v as [v|v|v|v|v|v|v|v|v|v]; try done.
  assert (Hsp := cell_update_spec (λ _, Ok feeTo) v). destruct (cell_update (λ _, Ok feeTo) v) as [r v1] eqn:E. destruct Hsp as [-> Hg].
  eapply (ends_use _ _ _ _ _ _ _ (AddressVar v) (AddressVar v1)); [done|done|by cbn [on_address]; unfold SafeAddress_assign; rewrite E|].
  intros s1 Hr _ _ _. rewrite Hr. cbn. rewrite Hg. apply list_lookup_insert_eq. unfold reads. rewrite length_fmap. by eapply lookup_lt_Some.
Qed.
End properties.

(** ** The database *)

Section saved.
Context {DBI : RocksDB} {HO : HashOrder}.

(** The last of the entries with the same key is the one that stays. *)
Lemma putBatch_last d (l1 l2 l3 : list Entry) key v :
  key ∉ l3.*1 → rdb_map (putBatch d (mkBatch (l1 ++ l2 ++ (key, v) :: l3) [])) !! key = Some v.
Proof.
  intros Hk. assert (Hcat : ∀ (a b : list Entry) d, putBatch d (mkBatch (a ++ b) []) = putBatch (putBatch d (mkBatch a [])) (mkBatch b [])).
  { intros a b d0. unfold putBatch. cbn [dels_ puts_ foldl]. apply foldl_app. }
  rewrite !Hcat. change ((key, v) :: l3) with ([(key, v)] ++ l3). rewrite Hcat, putBatch_out by done.
  unfold putBatch. cbn [dels_ puts_ foldl]. rewrite rdb_put_map. apply lookup_insert_eq.
Qed.

Definition pair_entries (address : list Z) (pairs : gmap (list Z) (gmap (list Z) (list Z))) : list Entry :=
  in_order pairs ≫= λ tokenA, map (λ tokenB, (getNewPrefix address "getPair_" ++ tokenA.1, tokenB.1 ++ tokenB.2)) (in_order tokenA.2).

(** The factory forgets every pair but the last: what its destructor saves of a list of pairs is that one. *)
Theorem factory_saves_last_pair address feeTo feeToSetter allPairs p pairs d :
  (∀ k, rdb_map d !! (getNewPrefix address "allPairs_" ++ k) = None) → length p = 20%nat →
  let saved := getBatch (factory_save address feeTo feeToSetter (allPairs ++ [p]) pairs d) (getNewPrefix address "allPairs_") [] in
  saved = [(uint32ToBytes 0, p)] ∧ ∃ v, foldM load_allPairs SafeVector_owned saved = Ok v ∧ vec_view v = [p].
Proof.
  intros Hd Hp saved. set (pfx := getDBPrefix address). set (key := getNewPrefix address "allPairs_" ++ uint32ToBytes 0).
  set (l1 := [(pfx ++ string_bytes "feeTo_", feeTo); (pfx ++ string_bytes "feeToSetter_", feeToSetter)]).
  assert (E : factory_save address feeTo feeToSetter (allPairs ++ [p]) pairs d =
    putBatch d (mkBatch (l1 ++ map (λ a, (key, a)) allPairs ++ (key, p) :: pair_entries address pairs) [])).
  { unfold factory_save. cbv zeta. rewrite foldl_push_nested, foldl_push_back. cbn [puts_ dels_ push_back DBBatch_new app].
    f_equal. f_equal. unfold pair_entries. rewrite map_app. cbn [map]. rewrite <- !app_assoc. done. }
  assert (Hother : ∀ k v, (getNewPrefix address "allPairs_" ++ k, v) ∉ pair_entries address pairs).
  { intros k v (x & (y & Hy & _)%list_elem_of_fmap & _)%list_elem_of_bind. unfold getNewPrefix in Hy. rewrite <- !app_assoc in Hy.
    injection Hy as Hy _. apply app_inv_head in Hy. done. }
  assert (Hinj : ∀ a b, getNewPrefix address "allPairs_" ++ a = getNewPrefix address "allPairs_" ++ b → a = b)
    by (intros a b; apply app_inv_head).
  assert (Hk : key ∉ (pair_entries address pairs).*1).
  { intros ([k v] & Hkv & Hin)%list_elem_of_fmap. cbn in Hkv. rewrite <- Hkv in Hin. by apply Hother in Hin. }
  assert (Hs : saved ≡ₚ [(uint32ToBytes 0, p)]).
  { apply NoDup_Permutation; [apply getBatch_NoDup|apply NoDup_singleton|]. intros [k v]. unfold saved. rewrite getBatch_spec, E, list_elem_of_singleton.
    split.
    - destruct (decide (k = uint32ToBytes 0)) as [->|Hne]; [by rewrite putBatch_last by done; intros [= ->]|].
      rewrite putBatch_out; [by rewrite Hd|]. rewrite !fmap_app, !elem_of_app, fmap_cons, elem_of_cons.
      intros [Hin|[Hin|[Hin|Hin]]].
      + unfold l1, pfx, getNewPrefix in Hin. cbn [fmap list_fmap fst] in Hin. rewrite !elem_of_cons, elem_of_nil, <- app_assoc in Hin.
        destruct Hin as [Hin|[Hin|[]]]; apply app_inv_head in Hin; done.
      + apply list_elem_of_fmap in Hin as ([k' v'] & Hk' & (a & [= -> ->] & _)%list_elem_of_fmap). cbn [fst] in Hk'. by apply Hinj in Hk'.
      + cbn [fst] in Hin. by apply Hinj in Hin.
      + apply list_elem_of_fmap in Hin as ([k' v'] & Hk' & Hin). cbn [fst] in Hk'. rewrite <- Hk' in Hin. by apply Hother in Hin.
    - intros [= -> ->]. by apply putBatch_last. }
  assert (Hs' : saved = [(uint32ToBytes 0, p)]) by (apply Permutation_singleton_r in Hs; done).
  split; [done|]. rewrite Hs'. cbn [foldM]. unfold load_allPairs. cbn [snd]. unfold FixedBytes_of. rewrite decide_True by done.
  rewrite !result_bind_Ok. eexists. split; [done|]. apply vec_rep_view. apply (vec_push_back_gives SafeVector_owned [] p); [|done].
  exact vec_owned_rep.
Qed.
End saved.

(** ** Witnesses *)

Definition toy_factory : list Z := toy_token 20.

Definition toy_pairs : gmap (list Z) (gmap (list Z) (list Z)) := {[ toy_token 1 := {[ toy_token 2 := toy_pair_address ]} ]}.

(** A factory with one pair, called during a call. *)
Definition toy_factory_vars : list contract_var :=
  factory_vars zero_address toy_trader SafeVector_owned (SafeMap_owned toy_pairs).

Definition toy_factory_manager : ContractManager (V := contract_var) :=
  mkManager {[ toy_factory := @factory_contract boost_ref toy_hash 0 toy_factory ]}
    ∅ (call_start toy_factory_vars) (Some ∅) [] (mkEventManager [] []) (mkGlobals zero_address zero_hash 1 5000000 zero_hash).

Lemma getPair_finds_witness :
  @ends boost_ref toy_hash residue_ref toy_token_types (λ _, 0) toy_trader 8080 _ (getPair 0 (toy_token 1) (toy_token 2)) toy_factory_manager
    (λ p s1, like toy_factory_manager s1 ∧
      p = match toy_pairs !! toy_token 1 with Some inner => default zero_address (inner !! toy_token 2) | None => zero_address end).
Proof.
  apply (@getPair_finds boost_ref toy_hash residue_ref toy_token_types (λ _, 0) toy_trader 8080 0 (toy_token 1) (toy_token 2)
    toy_pairs toy_factory_manager); [by eexists|by vm_compute].
Defined.

Lemma createPair_refused_witness :
  let p := @exec contract_var contract_value contract_variable boost_ref toy_hash residue_ref toy_token_types (λ _, 0) toy_trader 8080 _
    (@createPair toy_hash 0 toy_factory (toy_token 1) (toy_token 3)) toy_factory_manager in
  (∃ e, p.1 = Throw e) ∧ ∀ pair s', p ≠ (Ok pair, s').
Proof.
  split; [by eexists; vm_compute|].
  apply (@createPair_refused boost_ref toy_hash residue_ref toy_token_types (λ _, 0) toy_trader 8080 0 toy_factory (toy_token 1) (toy_token 3)
    toy_factory_manager); [done|by eexists].
Defined.

Lemma setFeeTo_unguarded_witness :
  @ends boost_ref toy_hash residue_ref toy_token_types (λ _, 0) toy_trader 8080 _ (setFeeTo 0 (toy_token 8)) toy_factory_manager
    (λ _ s1, reads s1 !! v_feeTo 0 = Some (AddressVal (toy_token 8))).
Proof.
  apply (@setFeeTo_unguarded boost_ref toy_hash residue_ref toy_token_types (λ _, 0) toy_trader 8080 0 (toy_token 8) zero_address); [by eexists|by vm_compute].
Defined.

(** Of two pairs one is saved. *)
Lemma factory_saves_last_pair_witness :
  let saved := @getBatch ref_db (@factory_save ref_db order_ref toy_factory zero_address toy_trader ([toy_token 4] ++ [toy_token 5]) ∅ (∅ : gmap _ _))
    (getNewPrefix toy_factory "allPairs_") [] in
  saved = [(uint32ToBytes 0, toy_token 5)] ∧ ∃ v, foldM load_allPairs SafeVector_owned saved = Ok v ∧ vec_view v = [toy_token 5].
Proof.
  apply (@factory_saves_last_pair ref_db order_ref toy_factory zero_address toy_trader [toy_token 4] (toy_token 5) ∅ (∅ : gmap _ _)); [|done].
  intros k. cbn [rdb_map ref_db]. by rewrite lookup_empty.
Defined.
