(* ===== verification/State.v ===== *)
(** * State: the current state of the chain (src/core/state.{h,cpp})

    [State] owns the accounts (EvmHost), the contracts (ContractManager), the consensus (RdPoS), the
    mempool and the storage, and processes the blocks.  [stateMutex_] makes every member function one
    step; a member function that locks it while it holds it is undefined.  [currentRandomGen_] is shared
    with the contract manager: its seed is kept in the manager's globals. *)

From S2P Require Import Prelude Bytes SizedInts Hashing ECDSA SafeBase SafeCell Tx TxValidator Randomness Block RdPoS Abi DB Event Storage EvmHost ContractManager.

(** ** Balances of the host *)

Definition balance_at (h : EVMHost) (a : list Z) : Z := (acc_balance (account_at h a)).2.
Definition nonce_at (h : EVMHost) (a : list Z) : Z := (acc_nonce (account_at h a)).2.

(** [accessedAccountsBalances.emplace_back(a)] and [accessedAccountsNonces.emplace_back(a)]. *)
Definition access_balance (a : list Z) (h : EVMHost) : EVMHost :=
  with_accessed h (accessedAccountsBalances h ++ [a]) (accessedAccountsCode h) (accessedAccountsNonces h).
Definition access_nonce (a : list Z) (h : EVMHost) : EVMHost :=
  with_accessed h (accessedAccountsBalances h) (accessedAccountsCode h) (accessedAccountsNonces h ++ [a]).

Section balances.
Context {BR : BoostResidue}.

(** [accounts\[a\].balance.second += x] and [-= x]. *)
Definition credit (a : list Z) (x : Z) : M EVMHost unit := λ h,
  let '(r, b) := checked_add (balance_at h a) x in (r, setBalance a b h).
Definition debit (a : list Z) (x : Z) : M EVMHost unit := λ h,
  let '(r, b) := checked_sub (balance_at h a) x in (r, setBalance a b h).
End balances.

(** [nonce++]. *)
Definition increment_nonce (a : list Z) : EVMHost → EVMHost :=
  update_account a (λ acc, set_nonce ((acc_nonce acc).1, ((acc_nonce acc).2 + 1) mod 2 ^ 64) acc).

(** ** What State gives the contract manager *)

Definition haywire_state : exn :=
  DynamicException "Uh oh, contracts are going haywire! Cannot change State while not processing a payable contract.".

(** [State::processContractPayable], on the accounts and [processingPayable_]. *)
Definition State_processContractPayable {HO : HashOrder} (payableMap : gmap (list Z) Z) : M (EVMHost * bool) unit := λ s,
  let '(h, processingPayable) := s in
  if negb processingPayable then (Throw haywire_state, s)
  else (Ok tt, (foldl (λ h p, setBalance p.1 p.2 (access_balance ContractManager_address h)) h (in_order payableMap),
                processingPayable)).

(** The manager is a friend of [State] and reads [evmHost_.accounts]. *)
#[export] Instance state_payable {HO : HashOrder} : PayableState (EVMHost * bool) := {|
  balance_of s a := match accounts s.1 !! a with None => 0 | Some acc => (acc_balance acc).2 end;
  ContractManager.processContractPayable := State_processContractPayable
|}.

(** [enum TxInvalid]. *)
Inductive TxInvalid := NotInvalid | InvalidNonce | InvalidBalance.

#[export] Instance TxInvalid_eq_dec : EqDecision TxInvalid.
Proof. solve_decision. Defined.

(** [value + gasLimit * maxFeePerGas]. *)
Definition txWithFees (tx : TxBlock) : result Z :=
  fees ← ustore 256 (gasLimit_ tx * maxFeePerGas_ tx); ustore 256 (value_ tx + fees).

Section state.
Context {V T : Type} {SV : SafeVariable V T} {DBI : RocksDB}.

Record State := mkState {
  evmHost_ : EVMHost;
  mempool_ : gmap (list Z) TxBlock;
  processingPayable_ : bool;
  contractManager_ : ContractManager (V := V);
  rdpos_ : rdPoS;
  storage_ : Storage
}.

Section setters.
Variable s : State.
Definition with_host (h : EVMHost) : State :=
  mkState h (mempool_ s) (processingPayable_ s) (contractManager_ s) (rdpos_ s) (storage_ s).
Definition with_pool (m : gmap (list Z) TxBlock) : State :=
  mkState (evmHost_ s) m (processingPayable_ s) (contractManager_ s) (rdpos_ s) (storage_ s).
Definition with_contract_side (cm : ContractManager) (h : EVMHost) (processing : bool) : State :=
  mkState h (mempool_ s) processing cm (rdpos_ s) (storage_ s).
Definition with_manager (cm : ContractManager) : State :=
  mkState (evmHost_ s) (mempool_ s) (processingPayable_ s) cm (rdpos_ s) (storage_ s).
Definition with_rdpos (rd : rdPoS) : State :=
  mkState (evmHost_ s) (mempool_ s) (processingPayable_ s) (contractManager_ s) rd (storage_ s).
Definition with_storage (sto : Storage) : State :=
  mkState (evmHost_ s) (mempool_ s) (processingPayable_ s) (contractManager_ s) (rdpos_ s) sto.
Definition with_payable (b : bool) : State :=
  mkState (evmHost_ s) (mempool_ s) b (contractManager_ s) (rdpos_ s) (storage_ s).
End setters.

(** The operations of a member. *)
Definition on_host {A} (m : M EVMHost A) : M State A := λ s,
  let '(r, h) := m (evmHost_ s) in (r, with_host s h).
Definition on_rdpos {A} (m : M rdPoS A) : M State A := λ s,
  let '(r, rd) := m (rdpos_ s) in (r, with_rdpos s rd).
Definition on_storage {A} (m : M Storage A) : M State A := λ s,
  let '(r, sto) := m (storage_ s) in (r, with_storage s sto).

(** The contract manager, with what it may use of the state. *)
Definition on_contracts {A} (m : M (ContractManager * (EVMHost * bool)) A) : M State A := λ s,
  let '(r, (cm, (h, processing))) := m (contractManager_ s, (evmHost_ s, processingPayable_ s)) in
  (r, with_contract_side s cm h processing).

Context {LS : LibSecp256k1} {BB : BoostBits} {KC : Keccak} {VM : EVMC} {BR : BoostResidue}
  {CT : ContractTypes (V := V)} {HO : HashOrder}.

(** [options_.getChainOwner()] and [options_.getChainID()]. *)
Variables (chainOwner : list Z) (chainId : Z).

(** ** Validation of transactions *)

Definition validateTransactionInternal (s : State) (tx : TxBlock) : result TxInvalid :=
  if decide (is_Some (mempool_ s !! hash_ tx)) then Ok NotInvalid
  else
    match accounts (evmHost_ s) !! from_ tx with
    | None => Ok InvalidBalance
    | Some acc =>
        let accBalance := (acc_balance acc).2 in
        let accNonce := (acc_nonce acc).2 in
        txWithFees ← txWithFees tx;
        if accBalance <? txWithFees then Ok InvalidBalance
        else if negb (accNonce =? nonce_ tx) then Ok InvalidNonce
        else Ok NotInvalid
    end.

Definition validateTransaction : State → TxBlock → result TxInvalid := validateTransactionInternal.

(** ** Processing a transaction *)

Definition shared_seed (s : State) : list Z := g_randomGen_ (globals_ (contractManager_ s)).

(** [currentRandomGen_ = make_unique<RandomGen>(seed)], and the manager's pointer to it. *)
Definition set_seed (seed : list Z) (s : State) : State := with_manager s (updateRandomGen seed (contractManager_ s)).

(** [evmHost_.execute(callInfo, currentRandomGen_.get())]. *)
Definition evm_execute (ci : ethCallInfo) : M State evmc_result := λ s,
  let '(r, h) := execute ci (with_randomGen (evmHost_ s) (shared_seed s)) in
  (r, set_seed (randomGen h) (with_host s h)).

Definition sdk_event (tx : TxBlock) (txIndex : Z) (blockHash : list Z) (blockHeight : Z) (i : nat) (e : EVMEvent) : Event :=
  mkEvent [] (Z.of_nat i) (hash_ tx) txIndex blockHash blockHeight (creator e) (event_data e) (event_topics e) false.

(** The loop over [emittedEvents]. *)
Definition commit_evm_events (tx : TxBlock) (txIndex : Z) (blockHash : list Z) (blockHeight : Z) (s : State) : State :=
  with_manager s (foldl (λ cm e, cm_commitEvent e cm) (contractManager_ s)
    (imap (sdk_event tx txIndex blockHash blockHeight) (emittedEvents (evmHost_ s)))).

Section transaction.
Variables (tx : TxBlock) (blockHash : list Z) (blockHeight : Z) (blockCoinbase : list Z)
  (blockTimestamp blockGasLimit txIndex : Z).

Definition realTo : list Z :=
  if decide (to_ tx = zero_address) then deriveContractAddress (nonce_ tx) (from_ tx) else to_ tx.

(** The [try] block of a call to the EVM. *)
Definition evm_call : M State unit :=
  on_host (mmodify (setTxContext (txToCallInfo tx) blockHeight blockCoinbase blockTimestamp blockGasLimit chainId)) ;;;
  on_host (mmodify (λ h, with_context h (currentTxContext h) (hash_ tx))) ;;;
  evmCallResult <-- evm_execute (txToCallInfo tx);;
  let gasLeft := gas_left evmCallResult in
  mthrow_if (gasLeft <? 0) (failed "gas limit is lower than gas left") ;;;
  gasUsed <-- mlift (ustore 256 (gasLimit_ tx - gasLeft));;
  fee <-- mlift (ustore 256 (gasUsed * maxFeePerGas_ tx));;
  on_host (debit (from_ tx) fee) ;;;
  h <-- mgets evmHost_;;
  mthrow_if (negb (status_code evmCallResult =? 0) || shouldRevert h) (failed "Error when executing EVM contract") ;;;
  mmodify (commit_evm_events tx txIndex blockHash blockHeight) ;;;
  on_host (mmodify commit) ;;;
  on_host (mmodify commitCode).

(** Its [catch] block. *)
Definition evm_call_failed : M State unit :=
  on_host (mmodify (λ h, with_shouldRevert h false)) ;;;
  on_host (credit (from_ tx) (value_ tx)) ;;;
  on_host (debit realTo (value_ tx)) ;;;
  on_host (mmodify revert) ;;;
  on_host (mmodify revertCode).

Definition evm_transaction : M State unit :=
  on_host (mmodify (access_balance (from_ tx))) ;;;
  (if value_ tx =? 0 then mret' tt
   else
     on_host (credit realTo (value_ tx)) ;;;
     on_host (debit (from_ tx) (value_ tx)) ;;;
     on_host (mmodify (access_balance (to_ tx)))) ;;;
  mtry evm_call (λ r, match r with Ok _ => mret' tt | Throw _ => evm_call_failed end).

(** The [try] block of a transfer or of a call to a C++ contract. *)
Definition classic_call : M State unit :=
  txValueWithFees <-- mlift (txWithFees tx);;
  on_host (debit (from_ tx) txValueWithFees) ;;;
  on_host (credit (to_ tx) (value_ tx)) ;;;
  s <-- mget;;
  (if isContractCall (contractManager_ s) tx then
     (if isPayable (contractManager_ s) (txToCallInfo tx) then mmodify (λ s, with_payable s true) else mret' tt) ;;;
     on_contracts (callContract chainOwner chainId tx txIndex) ;;;
     mmodify (λ s, with_payable s false)
   else mret' tt) ;;;
  on_host (mmodify (access_balance (to_ tx))) ;;;
  on_host (mmodify commit).

(** Its [catch] block. *)
Definition classic_call_failed : M State unit :=
  s <-- mget;;
  (if processingPayable_ s then
     on_host (credit (from_ tx) (value_ tx)) ;;;
     on_host (debit (to_ tx) (value_ tx)) ;;;
     mmodify (λ s, with_payable s false)
   else mret' tt) ;;;
  on_host (credit (from_ tx) (value_ tx)).

Definition classic_transaction : M State unit :=
  mtry classic_call (λ r, match r with Ok _ => mret' tt | Throw _ => classic_call_failed end).

(** The end of [processTransaction]: [nonce++] and the commits. *)
Definition end_transaction (h : EVMHost) : EVMHost :=
  commitBalance (commitNonce (access_nonce (from_ tx) (increment_nonce (from_ tx) h))).

(** [accounts\[tx.getTo()\]] inserts the recipient; [find(tx.getFrom())] is dereferenced unchecked. *)
Definition processTransaction : M State unit :=
  on_host (mmodify (touch_account (to_ tx))) ;;;
  h <-- mgets evmHost_;;
  mthrow_if (negb (account_exists (from_ tx) h)) Undefined ;;;
  on_host (mmodify (λ h, access_nonce (from_ tx) (access_balance (from_ tx) h))) ;;;
  (if isEvmContract h (to_ tx) || bool_decide (to_ tx = zero_address) then evm_transaction else classic_transaction) ;;;
  on_host (mmodify end_transaction).
End transaction.

(** ** Blocks *)

Definition refreshMempool (block : Block) : M State unit :=
  mmodify (λ s, with_pool s (foldl (λ m tx, delete (hash_ tx) m) (mempool_ s) (txs_ block))) ;;;
  mempoolCopy <-- mgets mempool_;;
  mmodify (λ s, with_pool s ∅) ;;;
  mforeach (λ p : list Z * TxBlock,
    s <-- mget;;
    r <-- mlift (validateTransactionInternal s p.2);;
    if decide (r = NotInvalid) then mmodify (λ s, with_pool s (insert_new p.1 p.2 (mempool_ s))) else mret' tt)
    (in_order mempoolCopy).

(** The loop over the transactions of a block. *)
Fixpoint validate_txs (s : State) (txs : list TxBlock) : result bool :=
  match txs with
  | [] => Ok true
  | tx :: txs =>
      r ← validateTransactionInternal s tx;
      if decide (r = NotInvalid) then validate_txs s txs else Ok false
  end.

Definition validateNextBlock (s : State) (block : Block) : result bool :=
  latestBlock ← latest (storage_ s);
  if negb (nHeight_ block =? add64 (nHeight_ latestBlock) 1) then Ok false
  else if decide (prevBlockHash_ block ≠ block_hash_ latestBlock) then Ok false
  else if timestamp_ block <? timestamp_ latestBlock then Ok false
  else
    b ← validateBlock (rdpos_ s) block;
    if negb b then Ok false else validate_txs s (txs_ block).

Fixpoint process_txs (block : Block) (txIndex : Z) (txs : list TxBlock) : M State unit :=
  match txs with
  | [] => mret' tt
  | tx :: txs =>
      processTransaction tx (block_hash_ block) (nHeight_ block) (toAddress (validatorPubKey_ block))
        (timestamp_ block) 100000000 txIndex ;;;
      process_txs block (txIndex + 1) txs
  end.

(** [updateContractGlobals] and the generator of the new block. *)
Definition start_block (block : Block) (s : State) : State :=
  set_seed (blockRandomness_ block) (with_manager s (updateContractGlobals
    (toAddress (validatorPubKey_ block)) (block_hash_ block) (nHeight_ block) (timestamp_ block) (contractManager_ s))).

Definition invalid_block : exn := failed "Invalid block detected during processNextBlock sanity check".

Definition processNextBlock (block : Block) : M State unit :=
  s <-- mget;;
  valid <-- mlift (validateNextBlock s block);;
  mthrow_if (negb valid) invalid_block ;;;
  mmodify (start_block block) ;;;
  process_txs block 0 (txs_ block) ;;;
  on_rdpos (processBlock block) ;;;
  refreshMempool block ;;;
  on_storage (pushBack block).

Definition fillBlockWithTransactions (s : State) (block : Block) : Block :=
  foldl (λ b p, (appendTx b p.2).2) block (in_order (mempool_ s)).

(** ** The mempool *)

Definition addTx (tx : TxBlock) : M State TxInvalid :=
  s <-- mget;;
  txInvalid <-- mlift (validateTransaction s tx);;
  if decide (txInvalid ≠ NotInvalid) then mret' txInvalid
  else mmodify (λ s, with_pool s (insert_new (hash_ tx) tx (mempool_ s))) ;;; mret' txInvalid.

(** The storage always has a latest block. *)
Definition State_addValidatorTx (tx : TxValidator) : M State bool :=
  s <-- mget;;
  latestBlock <-- mlift (latest (storage_ s));;
  on_rdpos (addValidatorTx (nHeight_ latestBlock) tx).

Definition isTxInMempool (s : State) (txHash : list Z) : bool := bool_decide (is_Some (mempool_ s !! txHash)).
Definition getTxFromMempool (s : State) (txHash : list Z) : option TxBlock := mempool_ s !! txHash.

(** ** Reads *)

Definition getNativeBalance (s : State) (addr : list Z) : Z :=
  match accounts (evmHost_ s) !! addr with None => 0 | Some acc => (acc_balance acc).2 end.

Definition getNativeNonce (s : State) (addr : list Z) : Z :=
  match accounts (evmHost_ s) !! addr with None => 0 | Some acc => (acc_nonce acc).2 end.

(** [contractAddresses] in its iteration order. *)
Definition getEvmContracts (s : State) : list (list Z) := map snd (in_order (contractAddresses (evmHost_ s))).

(** [accounts\[addr\]] and [contractAddresses\[txHash\]] insert what they do not find. *)
Definition getContractCode (addr : list Z) : M State (list Z) :=
  on_host (mmodify (touch_account addr)) ;;;
  mgets (λ s, (acc_code (account_at (evmHost_ s) addr)).2).

Definition getEvmContractAddress (txHash : list Z) : M State (list Z) :=
  on_host (mmodify (λ h, with_created h (insert_new txHash zero_address (contractAddresses h)) (recentlyCreatedContracts h))) ;;;
  mgets (λ s, default zero_address (contractAddresses (evmHost_ s) !! txHash)).

(** [uint256_t("1000000000000000000000")]. *)
Definition faucet : Z := 1000000000000000000000.

Definition State_addBalance (addr : list Z) : M State unit :=
  on_host (λ h, let '(r, b) := checked_add (acc_balance (account_at h addr)).1 faucet in
    (r, update_account addr (λ a, set_balance (b, (acc_balance a).2) a) h)) ;;;
  on_host (credit addr faucet).

(** ** Calls that are not transactions *)

Definition max_i64 : Z := 2 ^ 63 - 1.

(** [callInfo] with the gas limit the EVM accepts. *)
Definition bounded_gas (ci : ethCallInfo) : ethCallInfo :=
  if max_i64 - 10 <? ci_gasLimit ci
  then mkCallInfo (ci_from ci) (ci_to ci) (max_i64 - 10) (ci_gasPrice ci) (ci_value ci) (ci_functor ci) (ci_data ci) (ci_fullData ci)
  else ci.

(** The generator of the latest block's randomness. *)
Definition latest_seed : M State unit :=
  s <-- mget;;
  b <-- mlift (latest (storage_ s));;
  mmodify (set_seed (blockRandomness_ b)).

(** The run of the EVM that [ethCall] and [estimateGas] share, under the exclusive lock.  For a creation,
    [getNativeNonce] locks the mutex again. *)
Definition dry_run (ci : ethCallInfo) : M State evmc_result :=
  (if ci_value ci =? 0 then mret' tt
   else if decide (ci_to ci = zero_address) then mthrow Undefined
   else
     on_host (debit (ci_from ci) (ci_value ci)) ;;;
     on_host (credit (ci_to ci) (ci_value ci)) ;;;
     on_host (mmodify (λ h, access_balance (ci_to ci) (access_balance (ci_from ci) h)))) ;;;
  s <-- mget;;
  b <-- mlift (latest (storage_ s));;
  on_host (mmodify (setTxContext (bounded_gas ci) (nHeight_ b) (toAddress (validatorPubKey_ b)) (timestamp_ b) 100000000 chainId)) ;;;
  res <-- evm_execute (bounded_gas ci);;
  on_host (mmodify revert) ;;;
  on_host (mmodify revertCode) ;;;
  on_host (mmodify revertBalance) ;;;
  mret' res.

Definition ethCall (ci : ethCallInfo) : M State (list Z) :=
  s <-- mget;;
  if isContractAddress (contractManager_ s) (ci_to ci) then
    latest_seed ;;;
    on_contracts (callContract_view chainOwner chainId ci)
  else if isEvmContract (evmHost_ s) (ci_to ci) || bool_decide (ci_to ci = zero_address) then
    latest_seed ;;;
    res <-- dry_run ci;;
    mthrow_if (negb (status_code res =? 0)) (failed "Error when estimating gas") ;;;
    mret' (output_data res)
  else mret' [].

Definition baseGas : Z := 21000.

(** The balance check of [estimateGas]: [false] is the early [return 0]. *)
Definition estimate_check (s : State) (ci : ethCallInfo) : result bool :=
  if nonzero (ci_from ci) && negb (ci_value ci =? 0) then
    totalGas ← (if negb (ci_gasLimit ci =? 0) && negb (ci_gasPrice ci =? 0)
                then ustore 256 (ci_gasLimit ci * ci_gasPrice ci) else Ok 0);
    match accounts (evmHost_ s) !! ci_from ci with
    | None => Ok false
    | Some acc => needed ← ustore 256 (ci_value ci + totalGas); Ok (negb ((acc_balance acc).2 <? needed))
    end
  else Ok true.

Definition estimateGas (ci : ethCallInfo) : M State Z :=
  s <-- mget;;
  covered <-- mlift (estimate_check s ci);;
  if negb covered then mret' 0
  else
    (if isContractAddress (contractManager_ s) (ci_to ci) then
       latest_seed ;;;
       on_contracts (validateCallContractWithTx chainOwner chainId ci) ;;;
       mret' tt
     else mret' tt) ;;;
    s <-- mget;;
    if isEvmContract (evmHost_ s) (ci_to ci) || bool_decide (ci_to ci = zero_address) then
      latest_seed ;;;
      res <-- dry_run ci;;
      mthrow_if (gas_left res <? 0) (failed "Error when estimating gas") ;;;
      mthrow_if (negb (status_code res =? 0)) (failed "Error when estimating gas") ;;;
      gasUsed <-- mlift (ustore 256 (ci_gasLimit (bounded_gas ci) - gas_left res));;
      mlift (ustore 256 (gasUsed + baseGas))
    else mret' baseGas.

(** ** The database *)

(** The genesis balances of an empty database. *)
Definition put_genesis (genesisBalances : list (list Z * Z)) (d : rdb) : rdb :=
  foldl (λ d p, put d p.1 (uint256ToBytes p.2 ++ uint64ToBytes 0) pfx_nativeAccounts) d genesisBalances.

Definition load_account (h : EVMHost) (dbEntry : Entry) : result EVMHost :=
  bs ← subspan dbEntry.2 0 32;
  balance ← bytesToUint256 bs;
  ns ← subspan_from dbEntry.2 32;
  nonce ← bytesToUint64 ns;
  address ← FixedBytes_of 20 dbEntry.1;
  Ok (update_account address (λ a, set_nonce (nonce, nonce) (set_balance (balance, balance) a)) h).

Definition load_accounts (genesisBalances : list (list Z * Z)) (d : rdb) (h : EVMHost) : result (rdb * EVMHost) :=
  let accountsFromDB := getBatch d pfx_nativeAccounts [] in
  let '(d, accountsFromDB) :=
    match accountsFromDB with
    | [] => let d := put_genesis genesisBalances d in (d, getBatch d pfx_nativeAccounts [])
    | _ => (d, accountsFromDB)
    end in
  h ← foldM load_account h accountsFromDB;
  Ok (d, commitNonce (commitBalance h)).

Definition with_db (sto : Storage) (d : rdb) : Storage :=
  mkStorage (chain_ sto) (blockByHash_ sto) (txByHash_ sto) (blockHeightByHash_ sto) (blockHashByHeight_ sto)
    (cachedBlocks_ sto) (cachedTxs_ sto) d.

(** The constructor, from its members just constructed; the storage's [db_] is the state's. *)
Definition State_init (genesisBalances : list (list Z * Z)) (h : EVMHost) (rd : rdPoS) (cm : ContractManager)
    (sto : Storage) : result State :=
  '(d, h) ← load_accounts genesisBalances (storage_db sto) h;
  latestBlock ← latest sto;
  Ok (start_block latestBlock (mkState h ∅ false cm rd (with_db sto d))).

(** The destructor's batch. *)
Definition save_accounts (h : EVMHost) (d : rdb) : rdb :=
  putBatch d (foldl (λ b p, push_back b p.1
    (uint256ToBytes (acc_balance p.2).2 ++ uint64ToBytes (acc_nonce p.2).2) pfx_nativeAccounts)
    DBBatch_new (in_order (accounts h))).
End state.
