(* ===== verification/StateTx.v ===== *)
(** * StateTx: what a transaction does to the state (src/core/state.cpp, processTransaction)

    The balances, nonces and EVM storage after a transaction, on every branch of
    [State::processTransaction], and the dry runs of [ethCall] and [estimateGas]. *)

From S2P Require Import Prelude Bytes SizedInts Hashing ECDSA SafeBase SafeCell Tx TxValidator Randomness Block RdPoS Abi DB Event Storage EvmHost ContractManager State.

(** ** Hosts that differ in balances *)

(** Everything but the accounts, the two lists of touched accounts, the context and the generator. *)
Definition host_rest (h : EVMHost) : EVMHost :=
  with_randomGen (with_context (with_accessed (rest h) [] (accessedAccountsCode h) []) tx_context_zero zero_hash) zero_hash.

Definition no_balance (acc : EVMAccount) : EVMAccount := set_balance (0, 0) acc.

(** [h'] is [h] with other balances, marks, context or generator; empty accounts may be inserted. *)
Definition same_but_balance (h h' : EVMHost) : Prop :=
  (∀ a, no_balance (account_at h' a) = no_balance (account_at h a)) ∧ host_rest h' = host_rest h.

#[export] Instance same_but_balance_equiv : Equivalence same_but_balance.
Proof.
  split; [done|..].
  - intros h h' [H1 H2]. by split; [intros a; symmetry|symmetry].
  - intros h1 h2 h3 [H1 H2] [H3 H4]. split; [intros a; by rewrite H3|by rewrite H4].
Qed.

Section proj.
Variables (h h' : EVMHost).
Hypothesis Hsame : same_but_balance h h'.

Lemma same_proj {X} (P : EVMAccount → X) a :
  (∀ acc, P (no_balance acc) = P acc) → P (account_at h' a) = P (account_at h a).
Proof. intros HP. rewrite <- (HP (account_at h' a)), <- (HP (account_at h a)). f_equal. apply Hsame. Qed.

Lemma same_rest {X} (P : EVMHost → X) : (∀ x, P (host_rest x) = P x) → P h' = P h.
Proof. intros HP. rewrite <- (HP h'), <- (HP h). f_equal. apply Hsame. Qed.

Lemma same_slot a k : slot_at h' a k = slot_at h a k.
Proof. by apply (same_proj (λ acc, slot acc k)). Qed.

Lemma same_nonce a : acc_nonce (account_at h' a) = acc_nonce (account_at h a).
Proof. by apply same_proj. Qed.

Lemma same_code a : acc_code (account_at h' a) = acc_code (account_at h a).
Proof. by apply same_proj. Qed.

Lemma same_settled : settled h → settled h'.
Proof.
  intros []. constructor; try intros a; try intros k; unfold transients_at in *;
    rewrite ?same_slot, ?(same_proj acc_code), ?(same_proj acc_codeHash), ?(same_proj acc_transientStorage) by done;
    try done.
  - by rewrite (same_rest accessedStorages).
  - by rewrite (same_rest accessedTransients).
  - by rewrite (same_rest accessedAccountsCode).
  - by rewrite (same_rest recentlyCreatedContracts).
Qed.
End proj.

Lemma same_setBalance a x h : same_but_balance h (setBalance a x h).
Proof.
  split; [|done]. intros b. unfold setBalance. rewrite account_at_update. by case_decide; subst.
Qed.

Lemma same_touch a h : same_but_balance h (touch_account a h).
Proof. split; [|done]. intros b. unfold touch_account. rewrite account_at_update. by case_decide. Qed.

Lemma same_accounts h h' : accounts h' = accounts h → host_rest h' = host_rest h → same_but_balance h h'.
Proof. intros Ha Hr. split; [|done]. intros a. unfold account_at. by rewrite Ha. Qed.

Lemma balance_at_set a x h b : balance_at (setBalance a x h) b = if decide (a = b) then x else balance_at h b.
Proof. unfold balance_at, setBalance. rewrite account_at_update. by case_decide. Qed.

Lemma balance_at_touch a h b : balance_at (touch_account a h) b = balance_at h b.
Proof. unfold balance_at, touch_account. rewrite account_at_update. by case_decide. Qed.

Lemma account_at_accounts h h' a : accounts h' = accounts h → account_at h' a = account_at h a.
Proof. intros E. unfold account_at. by rewrite E. Qed.

Lemma balance_at_accounts h h' a : accounts h' = accounts h → balance_at h' a = balance_at h a.
Proof. intros E. unfold balance_at. by rewrite (account_at_accounts _ _ _ E). Qed.

Lemma isEvmContract_at h a : isEvmContract h a = (0 <? length (acc_code (account_at h a)).2)%nat.
Proof. unfold isEvmContract, account_at. by destruct (accounts h !! a). Qed.

Lemma same_isEvmContract h h' a : same_but_balance h h' → isEvmContract h' a = isEvmContract h a.
Proof. intros Hs. rewrite !isEvmContract_at. by rewrite (same_code _ _ Hs). Qed.

(** A pending transaction with the current balances of one account replaced on both sides. *)
Lemma pending_setBalance a x h h' : pending h h' → pending (setBalance a x h) (setBalance a x h').
Proof.
  intros [Hn Hb Ho Hs Ht Hc1 Hc2 Hc3 Hc4 Hcr Ha].
  constructor; unfold slot_at, transients_at, setBalance in *; try intros b; try intros k; intros;
    rewrite ?account_at_update; try done; case_decide; subst; auto.
  - exact (Hn b).
  - cbn. by rewrite Hb.
  - exact (Ho b k).
  - exact (Hs b k ltac:(done)).
  - exact (Ht b ltac:(done)).
  - exact (Hc1 b).
  - exact (Hc2 b).
  - exact (Hc3 b ltac:(done)).
  - exact (Hc4 b ltac:(done)).
Qed.

Lemma same_reads_trans h1 h2 h3 : same_reads h1 h2 → same_reads h2 h3 → same_reads h1 h3.
Proof.
  intros (A1 & A2 & A3 & A4 & A5) (B1 & B2 & B3 & B4 & B5).
  split_and!; intros; [rewrite B1; auto|rewrite B2; auto|rewrite B3; auto|rewrite B4; auto|rewrite B5; auto].
Qed.

(** What is read of an account besides its balance and nonce. *)
Definition same_evm (h h' : EVMHost) : Prop :=
  (∀ a, (acc_code (account_at h' a)).2 = (acc_code (account_at h a)).2) ∧
  (∀ a, (acc_codeHash (account_at h' a)).2 = (acc_codeHash (account_at h a)).2) ∧
  (∀ a k, (slot_at h' a k).2 = (slot_at h a k).2) ∧ contractAddresses h' = contractAddresses h.

#[export] Instance same_evm_equiv : Equivalence same_evm.
Proof.
  split; [done|..].
  - intros h h' (A1 & A2 & A3 & A4). by split_and!.
  - intros h1 h2 h3 (A1 & A2 & A3 & A4) (B1 & B2 & B3 & B4).
    split_and!; intros; [rewrite B1; auto|rewrite B2; auto|rewrite B3; auto|congruence].
Qed.

Lemma same_but_balance_evm h h' : same_but_balance h h' → same_evm h h'.
Proof.
  intros Hs. split_and!; intros.
  - by rewrite (same_code _ _ Hs).
  - by rewrite (same_proj _ _ Hs acc_codeHash).
  - by rewrite (same_slot _ _ Hs).
  - by apply (same_rest _ _ Hs contractAddresses).
Qed.

(** ** Payments *)

Section payments.
Context {BR : BoostResidue}.

Lemma credit_ok a x h :
  balance_at h a + x ≤ umax 256 → credit a x h = (Ok tt, setBalance a (balance_at h a + x) h).
Proof. intros Hx. unfold credit, checked_add. by rewrite (proj2 (Z.leb_le _ _)). Qed.

Lemma debit_ok a x h :
  x ≤ balance_at h a → debit a x h = (Ok tt, setBalance a (balance_at h a - x) h).
Proof. intros Hx. unfold debit, checked_sub. by rewrite (proj2 (Z.leb_le _ _)). Qed.

Lemma debit_cases a x h r h' : debit a x h = (r, h') → ∃ b, h' = setBalance a b h.
Proof. unfold debit. destruct (checked_sub _ _). intros [= _ <-]. eauto. Qed.

Lemma credit_cases a x h r h' : credit a x h = (r, h') → ∃ b, h' = setBalance a b h.
Proof. unfold credit. destruct (checked_add _ _). intros [= _ <-]. eauto. Qed.
End payments.

(** ** The end of a transaction *)

Lemma balance_at_commitBalance h a : balance_at (commitBalance h) a = balance_at h a.
Proof.
  unfold balance_at, commitBalance.
  change (account_at (with_accessed ?x _ _ _) a) with (account_at x a).
  rewrite account_at_on_accounts by done. by case_decide.
Qed.

Lemma balance_at_commitNonce h a : balance_at (commitNonce h) a = balance_at h a.
Proof.
  unfold balance_at, commitNonce.
  change (account_at (with_accessed ?x _ _ _) a) with (account_at x a).
  rewrite account_at_on_accounts by done. by case_decide.
Qed.

Lemma nonce_at_commitNonce h a : nonce_at (commitNonce h) a = nonce_at h a.
Proof.
  unfold nonce_at, commitNonce.
  change (account_at (with_accessed ?x _ _ _) a) with (account_at x a).
  rewrite account_at_on_accounts by done. by case_decide.
Qed.

Lemma nonce_at_commitBalance h a : nonce_at (commitBalance h) a = nonce_at h a.
Proof.
  unfold nonce_at, commitBalance.
  change (account_at (with_accessed ?x _ _ _) a) with (account_at x a).
  rewrite account_at_on_accounts by done. by case_decide.
Qed.

Lemma balance_at_end tx h a : balance_at (end_transaction tx h) a = balance_at h a.
Proof.
  unfold end_transaction. rewrite balance_at_commitBalance, balance_at_commitNonce.
  change (balance_at (access_nonce ?b ?x) a) with (balance_at x a).
  unfold balance_at, increment_nonce. rewrite account_at_update. by case_decide.
Qed.

Lemma nonce_at_end tx h a :
  nonce_at (end_transaction tx h) a = if decide (a = from_ tx) then (nonce_at h a + 1) mod 2 ^ 64 else nonce_at h a.
Proof.
  unfold end_transaction. rewrite nonce_at_commitBalance, nonce_at_commitNonce.
  change (nonce_at (access_nonce ?b ?x) a) with (nonce_at x a).
  unfold nonce_at, increment_nonce. rewrite account_at_update.
  by do 2 case_decide; subst.
Qed.

Definition no_money (acc : EVMAccount) : EVMAccount := set_nonce (0, 0) (set_balance (0, 0) acc).

Lemma no_money_end tx h a : no_money (account_at (end_transaction tx h) a) = no_money (account_at h a).
Proof.
  unfold end_transaction, commitBalance, commitNonce.
  repeat (change (account_at (with_accessed ?x _ _ _) a) with (account_at x a);
    rewrite account_at_on_accounts by done). 
  change (account_at (access_nonce ?b ?x) a) with (account_at x a). unfold increment_nonce.
  rewrite account_at_update. by repeat case_decide.
Qed.

Lemma host_rest_end tx h : host_rest (end_transaction tx h) = host_rest h.
Proof.
  unfold end_transaction, commitBalance, commitNonce. set (x := access_nonce _ _).
  assert (Hx : host_rest x = host_rest h) by done. rewrite <- Hx. clearbody x. clear h Hx.
  assert (Hon : ∀ f l h, host_rest (on_accounts f l h) = host_rest h).
  { intros f l h. assert (Hr := rest_on_accounts f l h). unfold host_rest.
    rewrite Hr. f_equal. f_equal. f_equal. by apply rest_proj. }
  assert (Hacc : ∀ b n h, host_rest (with_accessed h b (accessedAccountsCode h) n) = host_rest h) by done.
  by rewrite Hacc, Hon, Hacc, Hon.
Qed.

Lemma end_created tx h : contractAddresses (end_transaction tx h) = contractAddresses h.
Proof. exact (f_equal contractAddresses (host_rest_end tx h)). Qed.

Lemma end_settled tx h : settled h → settled (end_transaction tx h).
Proof.
  assert (Hp : ∀ {X} (P : EVMAccount → X) a, (∀ acc, P (no_money acc) = P acc) →
    P (account_at (end_transaction tx h) a) = P (account_at h a)).
  { intros X P a HP. rewrite <- HP, <- (HP (account_at h a)). f_equal. apply no_money_end. }
  assert (Hr : ∀ {X} (P : EVMHost → X), (∀ x, P (host_rest x) = P x) → P (end_transaction tx h) = P h).
  { intros X P HP. rewrite <- HP, <- (HP h). f_equal. apply host_rest_end. }
  intros []. constructor; try intros a; try intros k; unfold slot_at, transients_at in *;
    rewrite ?(Hp _ (λ acc, slot acc k)), ?(Hp _ acc_code), ?(Hp _ acc_codeHash), ?(Hp _ acc_transientStorage),
      ?(Hr _ accessedStorages), ?(Hr _ accessedTransients), ?(Hr _ accessedAccountsCode), ?(Hr _ recentlyCreatedContracts)
      by done; by auto.
Qed.

Lemma end_same_evm tx h : same_evm h (end_transaction tx h).
Proof.
  assert (Hp : ∀ {X} (P : EVMAccount → X) a, (∀ acc, P (no_money acc) = P acc) →
    P (account_at (end_transaction tx h) a) = P (account_at h a)).
  { intros X P a HP. rewrite <- HP, <- (HP (account_at h a)). f_equal. apply no_money_end. }
  split_and!; intros.
  - by rewrite (Hp _ acc_code).
  - by rewrite (Hp _ acc_codeHash).
  - unfold slot_at. by rewrite (Hp _ (λ acc, slot acc k)).
  - assert (He := f_equal contractAddresses (host_rest_end tx h)). exact He.
Qed.

(** ** Machine-width balances and nonces *)

Definition typed_account (acc : EVMAccount) : Prop :=
  in_uint 256 (acc_balance acc).1 ∧ in_uint 256 (acc_balance acc).2 ∧
  in_uint 64 (acc_nonce acc).1 ∧ in_uint 64 (acc_nonce acc).2.

#[export] Instance typed_account_dec acc : Decision (typed_account acc).
Proof. unfold typed_account. apply _. Defined.

Definition typed (h : EVMHost) : Prop := map_Forall (λ _, typed_account) (accounts h).

Lemma typed_at h a : typed h → typed_account (account_at h a).
Proof.
  intros Hh. unfold account_at. destruct (accounts h !! a) as [acc|] eqn:E; [by apply (Hh a)|].
  by_compute.
Qed.

Lemma typed_update a f h : typed h → typed_account (f (account_at h a)) → typed (update_account a f h).
Proof. intros Hh Hf. by apply map_Forall_insert_2. Qed.

Lemma typed_accounts h h' : accounts h' = accounts h → typed h → typed h'.
Proof. unfold typed. by intros ->. Qed.

Lemma typed_on_accounts f l h : (∀ acc, typed_account acc → typed_account (f acc)) → typed h → typed (on_accounts f l h).
Proof.
  intros Hf. unfold on_accounts. revert h. induction l as [|a l IH]; intros h Hh; [done|]. cbn [foldl].
  by apply IH, typed_update, Hf, typed_at.
Qed.

Lemma typed_on_slots g l h : typed h → typed (on_slots g l h).
Proof.
  unfold on_slots. revert h. induction l as [|[a k] l IH]; intros h Hh; [done|]. cbn [foldl].
  apply IH, typed_update; [done|]. by apply (typed_at h a).
Qed.

Lemma typed_setBalance a x h : in_uint 256 x → typed h → typed (setBalance a x h).
Proof.
  intros Hx Hh. apply typed_update; [done|]. destruct (typed_at h a Hh) as (? & ? & ? & ?). by split_and!.
Qed.

Lemma typed_touch a h : typed h → typed (touch_account a h).
Proof. intros Hh. apply typed_update; [done|]. by apply typed_at. Qed.

Lemma typed_commit h : typed h → typed (commit h).
Proof.
  intros Hh. unfold commit. rewrite commit_slots_on. eapply (typed_on_accounts (set_transients ∅)); [done|].
  by apply typed_on_slots.
Qed.

Lemma typed_revert h : typed h → typed (revert h).
Proof.
  intros Hh. unfold revert. rewrite revert_slots_on. eapply (typed_on_accounts (set_transients ∅)); [done|].
  by apply typed_on_slots.
Qed.

Lemma typed_code f l h : typed h → typed (on_accounts (settle_code f) l h).
Proof. by apply typed_on_accounts. Qed.

Lemma typed_end tx h : typed h → typed (end_transaction tx h).
Proof.
  intros Hh. unfold end_transaction, commitBalance, commitNonce.
  eapply (typed_on_accounts (λ a, set_balance ((acc_balance a).2, (acc_balance a).2) a)); [by intros acc (? & ? & ? & ?)|].
  eapply (typed_on_accounts (λ a, set_nonce ((acc_nonce a).2, (acc_nonce a).2) a)); [by intros acc (? & ? & ? & ?)|].
  apply typed_update; [done|]. destruct (typed_at h (from_ tx) Hh) as (? & ? & ? & ?). split_and!; try done;
    by apply Z.mod_pos_bound.
Qed.

Section typed.
Context {BR : BoostResidue}.

Lemma typed_credit a x : 0 ≤ x → keeps typed (credit a x).
Proof.
  intros Hx h Hh. unfold credit. destruct (checked_add _ _) as [r b] eqn:E. apply typed_setBalance; [|done].
  eapply checked_add_range; [|exact Hx|exact E]. by apply typed_at.
Qed.

Lemma typed_debit a x : 0 ≤ x → keeps typed (debit a x).
Proof.
  intros Hx h Hh. unfold debit. destruct (checked_sub _ _) as [r b] eqn:E. apply typed_setBalance; [|done].
  eapply checked_sub_range; [|exact Hx|exact E]. by apply typed_at.
Qed.
End typed.

Lemma typed_execute `{BoostBits} `{Keccak} `{LibSecp256k1} `{EVMC} tx : keeps typed (execute tx).
Proof.
  intros h Hh. destruct (execute tx h) as [r h'] eqn:E. intros a acc Ha. cbn in Ha.
  destruct (execute_money _ _ _ _ E a) as (Hn & Hb & _). unfold account_at in Hn, Hb at 1. rewrite Ha in Hn, Hb. cbn in Hn, Hb.
  destruct (typed_at h a Hh) as (? & ? & ? & ?). unfold typed_account. rewrite Hn, Hb. done.
Qed.

(** ** Transactions of the EVM *)

Section transactions.
Context {V T : Type} {SV : SafeVariable V T} {DBI : RocksDB} {LS : LibSecp256k1} {BB : BoostBits} {KC : Keccak}
  {VM : EVMC} {BR : BoostResidue} {CT : ContractTypes (V := V)} {HO : HashOrder}.
Variables (chainOwner : list Z) (chainId : Z).
Abbreviation ST := (State (V := V)).

(** What no transaction changes. *)
Definition same_elsewhere (s s' : ST) : Prop :=
  mempool_ s' = mempool_ s ∧ processingPayable_ s' = processingPayable_ s ∧ rdpos_ s' = rdpos_ s ∧ storage_ s' = storage_ s.

#[export] Instance same_elsewhere_equiv : Equivalence same_elsewhere.
Proof.
  split; [done|..].
  - by intros s s' (A1 & A2 & A3 & A4).
  - intros s1 s2 s3 (A1 & A2 & A3 & A4) (B1 & B2 & B3 & B4). split_and!; congruence.
Qed.

(** The manager after a transaction of the EVM: only its generator and the committed events differ. *)
Definition manager_events (es : list Event) (cm cm' : ContractManager (V := V)) : Prop :=
  contracts_ cm' = contracts_ cm ∧ locals_ cm' = locals_ cm ∧ call_ cm' = call_ cm ∧ callLogger_ cm' = callLogger_ cm ∧
  recentContracts_ cm' = recentContracts_ cm ∧ tempEvents_ (eventManager_ cm') = tempEvents_ (eventManager_ cm) ∧
  events_ (eventManager_ cm') = events_ (eventManager_ cm) ++ es.

Lemma manager_events_fold es cm : manager_events es cm (foldl (λ cm e, cm_commitEvent e cm) cm es).
Proof.
  revert cm. induction es as [|e es IH]; intros cm; cbn [foldl]; [split_and!; try done; by rewrite app_nil_r|].
  destruct (IH (cm_commitEvent e cm)) as (A1 & A2 & A3 & A4 & A5 & A6 & A7).
  split_and!; try done. rewrite A7. cbn. by rewrite <- app_assoc.
Qed.

(** The sender can pay the value and the whole gas limit. *)
Record funded (tx : TxBlock) (h : EVMHost) : Prop := {
  fd_value : 0 ≤ value_ tx;
  fd_gas : 0 ≤ gasLimit_ tx;
  fd_fee : 0 ≤ maxFeePerGas_ tx;
  fd_balance : value_ tx + gasLimit_ tx * maxFeePerGas_ tx ≤ balance_at h (from_ tx);
  fd_range : balance_at h (from_ tx) ≤ umax 256
}.

Section one.
Variables (tx : TxBlock) (blockHash : list Z) (blockHeight : Z) (blockCoinbase : list Z)
  (blockTimestamp blockGasLimit txIndex : Z).

Abbreviation run_call := (evm_call chainId tx blockHash blockHeight blockCoinbase blockTimestamp blockGasLimit txIndex).
Abbreviation run_evm := (evm_transaction chainId tx blockHash blockHeight blockCoinbase blockTimestamp blockGasLimit txIndex).

Definition paid (a b : list Z) (x : Z) : Z := if decide (a = b) then x else 0.

(** The host the virtual machine is called on, and what the call gives. *)
Definition called_host (seed : list Z) (h : EVMHost) : EVMHost :=
  let h := setTxContext (txToCallInfo tx) blockHeight blockCoinbase blockTimestamp blockGasLimit chainId h in
  with_randomGen (with_context h (currentTxContext h) (hash_ tx)) seed.

Definition call_run (s : ST) : result evmc_result * EVMHost :=
  execute (txToCallInfo tx) (called_host (shared_seed s) (evmHost_ s)).

(** Whether a call succeeds, and the gas it is charged for: what the machine did not give back, unless it threw or gave
    back an amount that makes no sense. *)
Definition gas_sane (left : Z) : bool :=
  (0 <=? left) && (left <=? gasLimit_ tx) && (gasLimit_ tx - left <=? umax 256).

Definition run_ok (run : result evmc_result * EVMHost) : bool :=
  match run.1 with
  | Ok res => gas_sane (gas_left res) && (status_code res =? 0) && negb (shouldRevert run.2)
  | Throw _ => false
  end.

Definition run_gas (run : result evmc_result * EVMHost) : Z :=
  match run.1 with
  | Ok res => if gas_sane (gas_left res) then gasLimit_ tx - gas_left res else 0
  | Throw _ => 0
  end.

Definition run_fee (run : result evmc_result * EVMHost) : Z := run_gas run * maxFeePerGas_ tx.

Lemma run_fee_bounds run :
  0 ≤ gasLimit_ tx → 0 ≤ maxFeePerGas_ tx → 0 ≤ run_fee run ≤ gasLimit_ tx * maxFeePerGas_ tx.
Proof.
  intros Hg Hm. unfold run_fee, run_gas, gas_sane. destruct run as [[res|e] h]; cbn [fst snd]; [|nia].
  destruct (_ && _) eqn:E; [|nia]. rewrite !andb_true_iff, !Z.leb_le in E. nia.
Qed.

(** What [evm_call] leaves: the fee is paid and the EVM's changes are pending, or already committed. *)
Definition call_left (s : ST) (h1 h2 : EVMHost) (r : result unit) (s' : ST) : Prop :=
  let run := call_run s in let fee := run_fee run in
  bool_decide (r = Ok tt) = run_ok run ∧ same_evm run.2 h2 ∧ emittedEvents h2 = emittedEvents run.2 ∧
  same_but_balance (evmHost_ s) h1 ∧ currentTxHash h1 = hash_ tx ∧
  (∀ a, balance_at h1 a = balance_at (evmHost_ s) a - paid a (from_ tx) fee) ∧
  pending h1 h2 ∧ same_elsewhere s s' ∧
  match r with
  | Ok _ => evmHost_ s' = commitCode (commit h2) ∧ shouldRevert h2 = false ∧
      manager_events (imap (sdk_event tx txIndex blockHash blockHeight) (emittedEvents h2))
        (contractManager_ s) (contractManager_ s')
  | Throw _ => evmHost_ s' = h2 ∧ manager_events [] (contractManager_ s) (contractManager_ s')
  end.

Lemma evm_execute_pending ci (s : ST) r s' :
  settled (evmHost_ s) → evm_execute ci s = (r, s') →
  ∃ h0, same_but_balance (evmHost_ s) h0 ∧ accounts h0 = accounts (evmHost_ s) ∧
    currentTxHash h0 = currentTxHash (evmHost_ s) ∧ accessedAccountsBalances h0 = accessedAccountsBalances (evmHost_ s) ∧
    pending h0 (evmHost_ s') ∧
    same_elsewhere s s' ∧ manager_events [] (contractManager_ s) (contractManager_ s').
Proof.
  intros Hs. unfold evm_execute. set (h0 := with_randomGen _ _).
  assert (H0 : same_but_balance (evmHost_ s) h0) by by apply same_accounts.
  destruct (execute ci h0) as [r0 h2] eqn:E. intros [= _ <-].
  assert (Hp := execute_pending _ _ _ _ (same_settled _ _ H0 Hs) E).
  exists h0. split_and!; try done. unfold manager_events. split_and!; try done. cbn. by rewrite app_nil_r.
Qed.

Lemma call_run_pending (s : ST) :
  settled (evmHost_ s) → let h0 := called_host (shared_seed s) (evmHost_ s) in
  same_but_balance (evmHost_ s) h0 ∧ pending h0 (call_run s).2.
Proof.
  intros Hs h0. assert (H0 : same_but_balance (evmHost_ s) h0) by by apply same_accounts.
  split; [done|]. unfold call_run. fold h0. destruct (execute _ h0) as [r0 h2] eqn:E.
  exact (execute_pending _ _ _ _ (same_settled _ _ H0 Hs) E).
Qed.

(** The start of [evm_call]. *)
Lemma evm_call_start (s : ST) :
  ∃ s2, evmHost_ s2 = (call_run s).2 ∧ same_elsewhere s s2 ∧ manager_events [] (contractManager_ s) (contractManager_ s2) ∧
  run_call s = (evmCallResult <-- mlift (call_run s).1;;
    let gasLeft := gas_left evmCallResult in
    mthrow_if (gasLeft <? 0) (failed "gas limit is lower than gas left") ;;;
    gasUsed <-- mlift (ustore 256 (gasLimit_ tx - gasLeft));;
    fee <-- mlift (ustore 256 (gasUsed * maxFeePerGas_ tx));;
    on_host (debit (from_ tx) fee) ;;;
    h <-- mgets evmHost_;;
    mthrow_if (negb (status_code evmCallResult =? 0) || shouldRevert h) (failed "Error when executing EVM contract") ;;;
    mmodify (commit_evm_events tx txIndex blockHash blockHeight) ;;;
    on_host (mmodify commit) ;;;
    on_host (mmodify commitCode)) s2.
Proof.
  exists (set_seed (randomGen (call_run s).2) (with_host s (call_run s).2)). split; [done|]. split; [done|]. split.
  { unfold manager_events. split_and!; try done. cbn. by rewrite app_nil_r. }
  unfold evm_call, mbind' at 1, on_host at 1. cbn [mmodify]. unfold mbind' at 1, on_host at 1. cbn [mmodify].
  unfold mbind' at 1, evm_execute. cbn [evmHost_ with_host].
  change (execute _ _) with (call_run s). destruct (call_run s) as [r h]. cbn [fst snd]. by destruct r.
Qed.

Lemma balance_at_pending h h' a : pending h h' → balance_at h' a = balance_at h a.
Proof. intros Hp. unfold balance_at. by rewrite (pd_balance _ _ Hp). Qed.

Lemma evm_call_outcome s r s' :
  settled (evmHost_ s) → 0 ≤ gasLimit_ tx → 0 ≤ maxFeePerGas_ tx →
  gasLimit_ tx * maxFeePerGas_ tx ≤ balance_at (evmHost_ s) (from_ tx) →
  gasLimit_ tx * maxFeePerGas_ tx ≤ umax 256 →
  run_call s = (r, s') → r ≠ Throw Undefined → ∃ h1 h2, call_left s h1 h2 r s'.
Proof.
  intros Hs Hg Hm Hb Hu. destruct (call_run_pending s Hs) as [H0 Hp]. cbn zeta in H0, Hp.
  set (h0 := called_host _ _) in *. destruct (evm_call_start s) as (s2 & Es2 & He & Hme & ->).
  assert (Hfee := run_fee_bounds (call_run s) Hg Hm).
  assert (Hb0 : ∀ a, balance_at h0 a = balance_at (evmHost_ s) a) by done.
  assert (Hleft : ∀ e, run_ok (call_run s) = false → run_fee (call_run s) = 0 → call_left s h0 (evmHost_ s2) (Throw e) s2).
  { intros e Hok Hz. unfold call_left. rewrite Hok, Hz, Es2. split_and!; try done.
    intros a. rewrite Hb0. unfold paid. case_decide; lia. }
  unfold run_ok, run_fee, run_gas, gas_sane in Hleft.
  destruct (call_run s) as [res h2] eqn:Erun. cbn [fst snd] in *. unfold mbind' at 1, mlift at 1.
  destruct res as [res|e]; [|intros [= <- <-] _; eauto].
  unfold mbind' at 1. unfold mthrow_if at 1. destruct (gas_left res <? 0) eqn:Hneg.
  { intros [= <- <-] _. apply Z.ltb_lt in Hneg. rewrite (proj2 (Z.leb_gt 0 _)) in Hleft by lia. eauto. }
  cbn [mret']. apply Z.ltb_ge in Hneg. rewrite (proj2 (Z.leb_le 0 _)) in Hleft by lia. cbn [andb] in Hleft.
  unfold mbind' at 1, mlift at 1. destruct (ustore 256 _) as [used|e] eqn:Eu.
  2:{ intros [= <- <-] _. destruct (Z.leb_spec (gas_left res) (gasLimit_ tx)); [|eauto].
      destruct (Z.leb_spec (gasLimit_ tx - gas_left res) (umax 256)); [|eauto].
      rewrite ustore_in in Eu by (unfold in_uint, umax in *; lia). done. }
  apply ustore_checked in Eu as [-> Hu1]; [|done]. clear Hleft.
  set (used := gasLimit_ tx - gas_left res) in *.
  assert (Hsane : gas_sane (gas_left res) = true).
  { unfold gas_sane. fold used. unfold in_uint, umax, used in *. rewrite !andb_true_iff, !Z.leb_le. lia. }
  assert (Hf : run_fee (Ok res, h2) = used * maxFeePerGas_ tx) by (unfold run_fee, run_gas; cbn [fst]; by rewrite Hsane).
  set (fee := used * maxFeePerGas_ tx) in *. rewrite Hf in Hfee.
  unfold mbind' at 1, mlift at 1. rewrite ustore_in by (unfold in_uint, umax in *; lia).
  unfold mbind' at 1, on_host at 1. rewrite Es2, debit_ok by (rewrite (balance_at_pending _ _ _ Hp), Hb0; lia).
  set (b := balance_at h2 (from_ tx) - fee). cbv beta iota. set (s3 := with_host s2 _).
  assert (Hb' : b = balance_at (evmHost_ s) (from_ tx) - fee) by (unfold b; by rewrite (balance_at_pending _ _ _ Hp), Hb0).
  assert (Hev : same_evm h2 (setBalance (from_ tx) b h2)) by apply same_but_balance_evm, same_setBalance.
  assert (Hsb : same_but_balance (evmHost_ s) (setBalance (from_ tx) b h0)) by (transitivity h0; [done|apply same_setBalance]).
  assert (Hbal : ∀ a, balance_at (setBalance (from_ tx) b h0) a = balance_at (evmHost_ s) a - paid a (from_ tx) fee).
  { intros a. rewrite balance_at_set, Hb0, Hb'. unfold paid. repeat case_decide; subst; try done; lia. }
  assert (Hpb := pending_setBalance (from_ tx) b _ _ Hp).
  unfold mbind' at 1. unfold mgets at 1. unfold mbind' at 1. unfold mthrow_if at 1. cbn [evmHost_ with_host s3].
  change (shouldRevert (setBalance (from_ tx) b h2)) with (shouldRevert h2).
  assert (Hok : run_ok (Ok res, h2) = negb (negb (status_code res =? 0) || shouldRevert h2)).
  { unfold run_ok. cbn [fst snd]. rewrite Hsane, negb_orb, negb_involutive. done. }
  destruct (negb _ || shouldRevert _) eqn:Er; intros [= <- <-] _;
    exists (setBalance (from_ tx) b h0), (setBalance (from_ tx) b h2); unfold call_left; rewrite Erun, Hok, Hf;
    split_and!; try done; cbn [snd evmHost_ with_host].
  - by apply orb_false_iff in Er as [_ Er].
  - destruct (manager_events_fold (imap (sdk_event tx txIndex blockHash blockHeight) (emittedEvents (evmHost_ s3))) (contractManager_ s3))
      as (B1 & B2 & B3 & B4 & B5 & B6 & B7).
    destruct Hme as (C1 & C2 & C3 & C4 & C5 & C6 & C7). rewrite app_nil_r in C7.
    unfold manager_events. split_and!; cbn in *; congruence.
Qed.

(** The transfer before the call. *)
Lemma transfer_step (h : EVMHost) a b x :
  0 ≤ x → x ≤ balance_at h a → balance_at h b + x ≤ umax 256 →
  ∃ h', (credit b x ;;; debit a x) h = (Ok tt, h') ∧ same_but_balance h h' ∧
    currentTxHash h' = currentTxHash h ∧ ∀ c, balance_at h' c = balance_at h c - paid c a x + paid c b x.
Proof.
  intros Hx Ha Hb. unfold mbind'. rewrite credit_ok by done. cbv beta iota.
  assert (Hb1 : balance_at (setBalance b (balance_at h b + x) h) a = balance_at h a + paid a b x).
  { rewrite balance_at_set. unfold paid. repeat case_decide; subst; try done; lia. }
  rewrite debit_ok by (rewrite Hb1; unfold paid; case_decide; lia).
  eexists. split; [done|]. split; [etrans; [apply same_setBalance|apply same_setBalance]|]. split; [done|].
  intros c. rewrite balance_at_set, Hb1, balance_at_set. unfold paid. repeat case_decide; subst; try done; lia.
Qed.

Lemma pending_shouldRevert h h' b : pending h h' → pending h (with_shouldRevert h' b).
Proof. intros []. by constructor. Qed.

(** The outcome of a transaction of the EVM: [ok] tells whether it succeeded. *)
Record evm_outcome (s : ST) (ok : bool) (fee : Z) (es : list Event) (s' : ST) : Prop := {
  eo_fee : 0 ≤ fee ≤ gasLimit_ tx * maxFeePerGas_ tx;
  eo_settled : settled (evmHost_ s');
  eo_balance a : balance_at (evmHost_ s') a = balance_at (evmHost_ s) a
    - paid a (from_ tx) (fee + if ok then value_ tx else 0) + paid a (realTo tx) (if ok then value_ tx else 0);
  eo_nonce a : acc_nonce (account_at (evmHost_ s') a) = acc_nonce (account_at (evmHost_ s) a);
  eo_created k : k ≠ hash_ tx → contractAddresses (evmHost_ s') !! k = contractAddresses (evmHost_ s) !! k;
  eo_elsewhere : same_elsewhere s s';
  eo_manager : manager_events es (contractManager_ s) (contractManager_ s');
  eo_failed : ok = false → same_evm (evmHost_ s) (evmHost_ s') ∧ es = [];
  eo_shouldRevert : shouldRevert (evmHost_ s') = false
}.

Lemma commit_step h1 h2 :
  settled h1 → pending h1 h2 →
  settled (commitCode (commit h2)) ∧ (∀ a, balance_at (commitCode (commit h2)) a = balance_at h1 a) ∧
  (∀ a, acc_nonce (account_at (commitCode (commit h2)) a) = acc_nonce (account_at h1 a)) ∧
  shouldRevert (commitCode (commit h2)) = shouldRevert h2.
Proof.
  intros Hs Hp. destruct (commit_keeps _ _ Hs Hp) as (A1 & (A2 & _ & _ & A5 & _) & A3 & A4). split; [done|].
  split; [intros a; unfold balance_at; by rewrite A4|]. split.
  - intros a. by rewrite A2, (pd_nonce _ _ Hp).
  - by rewrite commit_settles.
Qed.

(** The [catch] block pays the value back and undoes what is pending. *)
Lemma evm_call_failed_step (s : ST) h1 :
  settled h1 → pending h1 (evmHost_ s) → contractAddresses h1 !! currentTxHash h1 = None → 0 ≤ value_ tx →
  balance_at h1 (from_ tx) + value_ tx ≤ umax 256 →
  value_ tx ≤ balance_at h1 (realTo tx) + paid (realTo tx) (from_ tx) (value_ tx) →
  ∃ s', evm_call_failed tx s = (Ok tt, s') ∧ settled (evmHost_ s') ∧ same_evm h1 (evmHost_ s') ∧
    (∀ a, balance_at (evmHost_ s') a = balance_at h1 a + paid a (from_ tx) (value_ tx) - paid a (realTo tx) (value_ tx)) ∧
    (∀ a, acc_nonce (account_at (evmHost_ s') a) = acc_nonce (account_at h1 a)) ∧
    same_elsewhere s s' ∧ contractManager_ s' = contractManager_ s ∧ shouldRevert (evmHost_ s') = false.
Proof.
  intros Hs Hp Hnew Hv Hb Hd. set (h2 := with_shouldRevert (evmHost_ s) false).
  assert (Hp2 : pending h1 h2) by by apply pending_shouldRevert.
  assert (Hb2 : ∀ a, balance_at h2 a = balance_at h1 a) by (intros a; by apply balance_at_pending).
  set (b1 := balance_at h1 (from_ tx) + value_ tx). set (h1a := setBalance (from_ tx) b1 h1).
  set (h2a := setBalance (from_ tx) b1 h2).
  assert (Hba : ∀ a, balance_at h1a a = balance_at h1 a + paid a (from_ tx) (value_ tx)).
  { intros a. unfold h1a. rewrite balance_at_set. unfold paid, b1. repeat case_decide; subst; try done; lia. }
  assert (Hpa : pending h1a h2a) by by apply pending_setBalance.
  set (b2 := balance_at h1a (realTo tx) - value_ tx). set (h1b := setBalance (realTo tx) b2 h1a).
  set (h2b := setBalance (realTo tx) b2 h2a).
  assert (Hpb : pending h1b h2b) by by apply pending_setBalance.
  assert (Hsame : same_but_balance h1 h1b) by (etrans; [apply same_setBalance|apply same_setBalance]).
  exists (with_host s (revertCode (revert h2b))).
  destruct (revert_restores h1b h2b) as (A1 & (A2 & A3 & A4 & A5 & A6) & A7); [by apply (same_settled _ _ Hsame)|done..|].
  split; [|split; [done|split; [|split; [|split; [|by split_and!; [..|rewrite revert_settles]]]]]].
  - unfold evm_call_failed, mbind', on_host. cbn [mmodify evmHost_ with_host]. fold h2.
    rewrite credit_ok by by rewrite Hb2. rewrite Hb2. fold b1 h2a. cbn [evmHost_ with_host].
    assert (Hb2a : balance_at h2a (realTo tx) = balance_at h1a (realTo tx)) by by apply balance_at_pending.
    rewrite debit_ok by (rewrite Hb2a, Hba; lia). rewrite Hb2a. fold b2 h2b. done.
  - transitivity h1b; [by apply same_but_balance_evm|]. by split_and!.
  - intros a. cbn. transitivity (balance_at h1b a); [unfold balance_at; by rewrite A5|].
    unfold h1b. rewrite balance_at_set. unfold b2. rewrite !Hba. unfold paid. repeat case_decide; subst; try done; lia.
  - intros a. cbn. rewrite A2. by apply (same_nonce _ _ Hsame).
Qed.

(** The host after the value has moved, and the run of the virtual machine in [evm_transaction]. *)
Definition moved_host (h : EVMHost) : EVMHost :=
  let h := access_balance (from_ tx) h in
  if value_ tx =? 0 then h
  else
    let h := setBalance (realTo tx) (balance_at h (realTo tx) + value_ tx) h in
    access_balance (to_ tx) (setBalance (from_ tx) (balance_at h (from_ tx) - value_ tx) h).

Definition moved_run (s : ST) : result evmc_result * EVMHost := call_run (with_host s (moved_host (evmHost_ s))).

Definition run_events (run : result evmc_result * EVMHost) : list Event :=
  if run_ok run then imap (sdk_event tx txIndex blockHash blockHeight) (emittedEvents run.2) else [].

Lemma moved_same h : same_but_balance h (moved_host h).
Proof.
  unfold moved_host. destruct (value_ tx =? 0); [by apply same_accounts|]. set (ha := access_balance (from_ tx) h).
  transitivity ha; [by apply same_accounts|]. etrans; [apply same_setBalance|]. etrans; [apply same_setBalance|].
  by apply same_accounts.
Qed.

Lemma moved_balance h c :
  balance_at (moved_host h) c = balance_at h c - paid c (from_ tx) (value_ tx) + paid c (realTo tx) (value_ tx).
Proof.
  unfold moved_host. destruct (Z.eqb_spec (value_ tx) 0) as [->|Hne].
  - change (balance_at (access_balance (from_ tx) h) c) with (balance_at h c). unfold paid. repeat case_decide; lia.
  - set (ha := access_balance (from_ tx) h).
    match goal with |- balance_at (access_balance _ ?h') c = _ => change (balance_at (access_balance (to_ tx) h') c) with (balance_at h' c) end.
    rewrite !balance_at_set. change (balance_at ha) with (balance_at h). unfold paid. set (f := from_ tx). set (t := realTo tx).
    clearbody f t. repeat case_decide; subst; try done; lia.
Qed.

Lemma move_step (k : M ST unit) (s : ST) :
  0 ≤ value_ tx → value_ tx ≤ balance_at (evmHost_ s) (from_ tx) →
  balance_at (evmHost_ s) (realTo tx) + value_ tx ≤ umax 256 →
  (on_host (mmodify (access_balance (from_ tx))) ;;;
   (if value_ tx =? 0 then mret' tt
    else
     on_host (credit (realTo tx) (value_ tx)) ;;;
     on_host (debit (from_ tx) (value_ tx)) ;;;
     on_host (mmodify (access_balance (to_ tx)))) ;;; k) s = k (with_host s (moved_host (evmHost_ s))).
Proof.
  intros Hv Hf Ht. unfold moved_host. unfold mbind' at 1, on_host at 1. cbn [mmodify]. set (ha := access_balance (from_ tx) (evmHost_ s)).
  unfold mbind' at 1. destruct (value_ tx =? 0); [done|].
  unfold mbind' at 1, on_host at 1. cbn [evmHost_ with_host]. rewrite credit_ok by done. cbv beta iota.
  unfold mbind' at 1, on_host at 1. cbn [evmHost_ with_host]. rewrite debit_ok; [done|].
  rewrite balance_at_set. change (balance_at ha) with (balance_at (evmHost_ s)). case_decide as E; rewrite ?E in *; lia.
Qed.

Lemma evm_transaction_outcome s r s' :
  settled (evmHost_ s) → funded tx (evmHost_ s) → 0 ≤ balance_at (evmHost_ s) (realTo tx) →
  balance_at (evmHost_ s) (realTo tx) + value_ tx ≤ umax 256 → contractAddresses (evmHost_ s) !! hash_ tx = None →
  run_evm s = (r, s') → r ≠ Throw Undefined → let run := moved_run s in
  r = Ok tt ∧ evm_outcome s (run_ok run) (run_fee run) (run_events run) s' ∧
  (run_ok run = true → same_evm run.2 (evmHost_ s')).
Proof.
  intros Hs [Hv Hg Hm Hb Hr] H0 Hbt Hnew. assert (Hgm : 0 ≤ gasLimit_ tx * maxFeePerGas_ tx) by nia.
  unfold evm_transaction. rewrite move_step by (done || lia). unfold moved_run.
  set (ht := moved_host (evmHost_ s)). assert (Hsm : same_but_balance (evmHost_ s) ht) by apply moved_same.
  assert (Hbal : ∀ c, balance_at ht c = balance_at (evmHost_ s) c - paid c (from_ tx) (value_ tx) + paid c (realTo tx) (value_ tx))
    by (intros; apply moved_balance).
  assert (Hfee := run_fee_bounds (call_run (with_host s ht)) Hg Hm).
  unfold mtry. destruct (run_call (with_host s ht)) as [rc sc] eqn:Ec.
  assert (Hst : settled ht) by by apply (same_settled _ _ Hsm).
  assert (Hout : rc ≠ Throw Undefined → ∃ h1 h2, call_left (with_host s ht) h1 h2 rc sc).
  { intros Hu. apply (evm_call_outcome (with_host s ht) rc sc); try done; cbn [evmHost_ with_host].
    - rewrite Hbal. unfold paid. repeat case_decide; lia.
    - lia. }
  destruct (decide (rc = Throw Undefined)) as [->|Hu]; [by intros [= <- <-]|].
  destruct (Hout Hu) as (h1 & h2 & Aok & Aev & Ees & A2 & A3 & A4 & A5 & A6 & A7). cbn zeta in *. cbn [evmHost_ with_host] in *. clear Hout.
  set (run := call_run (with_host s ht)) in *. set (fee := run_fee run) in *. unfold run_events. rewrite <- Aok. cbn zeta.
  assert (Hs1 : settled h1) by by apply (same_settled _ _ A2).
  assert (Hsm1 : same_but_balance (evmHost_ s) h1) by by transitivity ht.
  destruct rc as [[]|e].
  - intros [= <- <-] _. split; [done|]. destruct A7 as (B1 & B2 & B3).
    destruct (commit_step _ _ Hs1 A5) as (C1 & C2 & C3 & C4). rewrite bool_decide_true by done. rewrite <- Ees.
    destruct (commit_keeps _ _ Hs1 A5) as (_ & (_ & D1 & D2 & _ & D3) & D4 & _).
    split; [|intros _; rewrite B1; transitivity h2; [done|by split_and!]].
    constructor; rewrite ?B1; try done.
    + intros a. rewrite C2, A4, Hbal. cbv iota. unfold paid. repeat case_decide; lia.
    + intros a. rewrite C3. by apply (same_nonce _ _ Hsm1).
    + intros k Hk. rewrite commit_settles. cbn [contractAddresses settled_host with_context with_touched with_results with_accessed with_created].
      rewrite <- (same_rest _ _ Hsm1 contractAddresses) by done.
      destruct (pd_created _ _ A5) as [[_ ->]|(addr & _ & ->)]; [done|]. by rewrite lookup_insert_ne by congruence.
    + by rewrite C4.
  - destruct A7 as (B1 & B2). rewrite <- B1 in A5.
    destruct (evm_call_failed_step sc h1) as (sf & E & D1 & D2 & D3 & D4 & D5 & D6 & D7); try done.
    { rewrite (same_rest _ _ Hsm1 contractAddresses) by done. by rewrite A3. }
    { rewrite A4, Hbal. unfold paid. destruct (decide (from_ tx = realTo tx)) as [E'|E'].
      - rewrite <- E' in *. repeat case_decide; try done; lia.
      - repeat case_decide; try done; lia. }
    { rewrite A4, Hbal. unfold paid. destruct (decide (realTo tx = from_ tx)) as [E'|E'].
      - rewrite E'. repeat case_decide; try done; lia.
      - repeat case_decide; try done; lia. }
    intros Hrun Hu'. assert (Hrun' : (r, s') = (Ok tt, sf)).
    { rewrite <- E. destruct e; try exact (eq_sym Hrun). done. }
    injection Hrun' as -> ->. split; [done|]. rewrite bool_decide_false by done. split; [|done].
    constructor; try done.
    + intros a. rewrite D3, A4, Hbal. cbv iota. unfold paid. repeat case_decide; lia.
    + intros a. rewrite D4. by apply (same_nonce _ _ Hsm1).
    + intros k _. destruct D2 as (_ & _ & _ & ->). by rewrite (same_rest _ _ Hsm1 contractAddresses).
    + by transitivity sc.
    + by rewrite D6.
    + intros _. split; [|done]. transitivity h1; [by apply same_but_balance_evm|done].
Qed.

(** ** The start of a transaction *)

Abbreviation run_classic := (classic_transaction chainOwner chainId tx txIndex).
Abbreviation run_tx := (processTransaction chainOwner chainId tx blockHash blockHeight blockCoinbase blockTimestamp blockGasLimit txIndex).

Definition start_host (h : EVMHost) : EVMHost :=
  access_nonce (from_ tx) (access_balance (from_ tx) (touch_account (to_ tx) h)).

Definition evm_branch (h : EVMHost) : bool := isEvmContract h (to_ tx) || bool_decide (to_ tx = zero_address).

Lemma start_same h : same_but_balance h (start_host h).
Proof. etrans; [apply (same_touch (to_ tx))|]. by apply same_accounts. Qed.

Lemma start_balance h a : balance_at (start_host h) a = balance_at h a.
Proof. apply balance_at_touch. Qed.

Lemma start_nonce h a : nonce_at (start_host h) a = nonce_at h a.
Proof. unfold nonce_at. by rewrite (same_nonce _ _ (start_same h)). Qed.

Lemma start_funded h : funded tx h → funded tx (start_host h).
Proof. intros []. constructor; rewrite ?start_balance; done. Qed.

Lemma processTransaction_start s :
  is_Some (accounts (evmHost_ s) !! from_ tx) →
  run_tx s = ((if evm_branch (evmHost_ s) then run_evm else run_classic) ;;; on_host (mmodify (end_transaction tx)))
    (with_host s (start_host (evmHost_ s))).
Proof.
  intros Hf. unfold processTransaction. unfold mbind' at 1, on_host at 1. cbn [mmodify].
  unfold mbind' at 1, mgets at 1. cbn [evmHost_ with_host].
  unfold account_exists. rewrite bool_decide_true.
  2:{ cbn. destruct (decide (to_ tx = from_ tx)) as [->|Hne]; [by rewrite lookup_insert_eq|by rewrite lookup_insert_ne]. }
  cbn [negb mthrow_if]. unfold mbind' at 1. cbn [mret']. unfold mbind' at 1, on_host at 1. cbn [mmodify evmHost_ with_host].
  by rewrite (same_isEvmContract (evmHost_ s) (touch_account (to_ tx) (evmHost_ s))) by apply same_touch.
Qed.

Lemma run_tx_end (m : M ST unit) s r s' :
  (m ;;; on_host (mmodify (end_transaction tx))) s = (r, s') → r ≠ Throw Undefined →
  (∀ r0 s0, m s = (r0, s0) → r0 ≠ Throw Undefined → r0 = Ok tt) →
  ∃ s0, m s = (Ok tt, s0) ∧ r = Ok tt ∧ s' = with_host s0 (end_transaction tx (evmHost_ s0)).
Proof.
  unfold mbind'. destruct (m s) as [r0 s0] eqn:E. intros Hrun Hr Hok.
  assert (r0 = Ok tt) as ->.
  { apply (Hok r0 s0); [done|]. intros ->. injection Hrun as <- _. done. }
  cbn in Hrun. injection Hrun as <- <-. by exists s0.
Qed.

(** The outcome of a whole transaction. *)
Record tx_outcome (s : ST) (ok : bool) (fee : Z) (es : list Event) (s' : ST) : Prop := {
  to_settled : settled (evmHost_ s');
  to_fee : 0 ≤ fee ≤ gasLimit_ tx * maxFeePerGas_ tx;
  to_balance a : balance_at (evmHost_ s') a = balance_at (evmHost_ s) a
    - paid a (from_ tx) (fee + if ok then value_ tx else 0) + paid a (realTo tx) (if ok then value_ tx else 0);
  to_nonce a : nonce_at (evmHost_ s') a = if decide (a = from_ tx) then (nonce_at (evmHost_ s) a + 1) mod 2 ^ 64 else nonce_at (evmHost_ s) a;
  to_created k : k ≠ hash_ tx → contractAddresses (evmHost_ s') !! k = contractAddresses (evmHost_ s) !! k;
  to_elsewhere : same_elsewhere s s';
  to_manager : manager_events es (contractManager_ s) (contractManager_ s');
  to_failed : ok = false → same_evm (evmHost_ s) (evmHost_ s') ∧ es = []
}.

(** The run of the virtual machine in [processTransaction]: after the value has moved. *)
Definition tx_run (s : ST) : result evmc_result * EVMHost := moved_run (with_host s (start_host (evmHost_ s))).

Lemma processTransaction_evm s r s' :
  settled (evmHost_ s) → is_Some (accounts (evmHost_ s) !! from_ tx) → evm_branch (evmHost_ s) = true →
  funded tx (evmHost_ s) → 0 ≤ balance_at (evmHost_ s) (realTo tx) →
  balance_at (evmHost_ s) (realTo tx) + value_ tx ≤ umax 256 → contractAddresses (evmHost_ s) !! hash_ tx = None →
  run_tx s = (r, s') → r ≠ Throw Undefined → let run := tx_run s in
  r = Ok tt ∧ tx_outcome s (run_ok run) (run_fee run) (run_events run) s' ∧
  (run_ok run = true → same_evm run.2 (evmHost_ s')).
Proof.
  intros Hs Hf Hevm Hfd H0 Hbt Hnew. rewrite processTransaction_start, Hevm by done. intros Hrun Hr.
  set (s1 := with_host s (start_host (evmHost_ s))) in *.
  assert (Hout : ∀ r0 s0, run_evm s1 = (r0, s0) → r0 ≠ Throw Undefined → let run := moved_run s1 in
    r0 = Ok tt ∧ evm_outcome s1 (run_ok run) (run_fee run) (run_events run) s0 ∧ (run_ok run = true → same_evm run.2 (evmHost_ s0))).
  { intros r0 s0. apply evm_transaction_outcome; cbn [s1 evmHost_ with_host]; rewrite ?start_balance; try done.
    - by apply (same_settled _ _ (start_same _)).
    - by apply start_funded. }
  destruct (run_tx_end _ _ _ _ Hrun Hr) as (s0 & E & -> & ->); [intros r0 s0 E Hu; by apply (Hout r0 s0)|].
  split; [done|]. destruct (Hout _ _ E ltac:(done)) as (_ & [O1 O2 O3 O4 O9 O5 O6 O7 O8] & Oev). clear Hout.
  change (tx_run s) with (moved_run s1). set (run := moved_run s1) in *.
  cbn [s1 evmHost_ with_host contractManager_] in O3, O4, O9, O6, O7. split.
  2:{ intros Hok. cbn [evmHost_ with_host]. transitivity (evmHost_ s0); [by apply Oev|apply end_same_evm]. }
  constructor; cbn [evmHost_ with_host contractManager_]; try done.
  - by apply end_settled.
  - intros a. by rewrite balance_at_end, O3, start_balance.
  - intros a. rewrite nonce_at_end. unfold nonce_at. rewrite O4. fold (nonce_at (start_host (evmHost_ s)) a). by rewrite start_nonce.
  - intros k Hk. rewrite <- (same_rest _ _ (start_same (evmHost_ s)) contractAddresses) by done. rewrite <- O9 by done.
    by rewrite end_created.
  - intros Hok. destruct (O7 Hok) as [Oe Hes]. split; [|done].
    transitivity (start_host (evmHost_ s)); [apply same_but_balance_evm, start_same|].
    transitivity (evmHost_ s0); [done|apply end_same_evm].
Qed.

(** ** Transfers and calls to C++ contracts *)

(** The host after the payment of a classic transaction. *)
Definition paid_host (h : EVMHost) : EVMHost :=
  let h1 := setBalance (from_ tx) (balance_at h (from_ tx) - (value_ tx + gasLimit_ tx * maxFeePerGas_ tx)) h in
  setBalance (to_ tx) (balance_at h1 (to_ tx) + value_ tx) h1.

Lemma paid_same h : same_but_balance h (paid_host h).
Proof. etrans; apply same_setBalance. Qed.

Lemma paid_balance h a :
  balance_at (paid_host h) a = balance_at h a - paid a (from_ tx) (value_ tx + gasLimit_ tx * maxFeePerGas_ tx) + paid a (to_ tx) (value_ tx).
Proof.
  unfold paid_host. rewrite !balance_at_set. unfold paid. set (f := from_ tx). set (t := to_ tx). clearbody f t.
  repeat case_decide; subst; try done; lia.
Qed.

Lemma funded_fees h : funded tx h → txWithFees tx = Ok (value_ tx + gasLimit_ tx * maxFeePerGas_ tx).
Proof.
  intros [Hv Hg Hm Hb Hr]. assert (0 ≤ gasLimit_ tx * maxFeePerGas_ tx) by nia. unfold txWithFees.
  rewrite ustore_in by (unfold in_uint, umax in *; lia). rewrite result_bind_Ok.
  apply ustore_in. unfold in_uint, umax in *. lia.
Qed.

Lemma pay_step (k : M ST unit) (s : ST) :
  funded tx (evmHost_ s) → (from_ tx ≠ to_ tx → balance_at (evmHost_ s) (to_ tx) + value_ tx ≤ umax 256) →
  (txValueWithFees <-- mlift (txWithFees tx);; on_host (debit (from_ tx) txValueWithFees) ;;;
   on_host (credit (to_ tx) (value_ tx)) ;;; k) s = k (with_host s (paid_host (evmHost_ s))).
Proof.
  intros Hf Ht. destruct (Hf) as [Hv Hg Hm Hb Hr]. assert (0 ≤ gasLimit_ tx * maxFeePerGas_ tx) by nia.
  unfold mbind' at 1, mlift at 1. rewrite (funded_fees _ Hf).
  unfold mbind' at 1, on_host at 1. rewrite debit_ok by done. cbv beta iota.
  unfold mbind' at 1, on_host at 1. cbn [evmHost_ with_host]. rewrite credit_ok; [done|].
  rewrite balance_at_set. case_decide as E; [lia|by apply Ht].
Qed.

Lemma commit_settled h :
  settled h → settled (commit h) ∧ accounts (commit h) = accounts h ∧ contractAddresses (commit h) = contractAddresses h.
Proof.
  intros Hs. assert (He : commit h = with_context (with_touched (with_results h [] []) [] []) (currentTxContext h) zero_hash).
  { unfold commit. rewrite (st_slots _ Hs). cbn [commit_slots foldl]. rewrite (st_transients _ Hs). done. }
  rewrite He. split; [|done]. destruct Hs. by constructor.
Qed.

Lemma same_evm_accounts h h' : accounts h' = accounts h → contractAddresses h' = contractAddresses h → same_evm h h'.
Proof. intros Ha Hc. unfold same_evm, slot_at, account_at. by rewrite Ha. Qed.

Definition classic_branch (h : EVMHost) : Prop := evm_branch h = false.

Lemma realTo_classic h : classic_branch h → realTo tx = to_ tx.
Proof.
  unfold classic_branch, evm_branch, realTo. intros [_ Hz]%orb_false_iff. apply bool_decide_eq_false in Hz.
  by rewrite decide_False.
Qed.

Lemma processTransaction_transfer s :
  settled (evmHost_ s) → is_Some (accounts (evmHost_ s) !! from_ tx) → classic_branch (evmHost_ s) →
  isContractCall (contractManager_ s) tx = false → funded tx (evmHost_ s) →
  (from_ tx ≠ to_ tx → balance_at (evmHost_ s) (to_ tx) + value_ tx ≤ umax 256) →
  ∃ s', run_tx s = (Ok tt, s') ∧ tx_outcome s true (gasLimit_ tx * maxFeePerGas_ tx) [] s'.
Proof.
  intros Hs Hf Hc Hcm Hfd Hto. rewrite processTransaction_start, Hc by done.
  set (hp := start_host (evmHost_ s)). set (h1 := paid_host hp).
  assert (Hs1 : settled (access_balance (to_ tx) h1)).
  { apply (same_settled (evmHost_ s)); [|done]. transitivity hp; [apply start_same|].
    transitivity h1; [apply paid_same|by apply same_accounts]. }
  destruct (commit_settled _ Hs1) as (C1 & C2 & C3).
  exists (with_host s (end_transaction tx (commit (access_balance (to_ tx) h1)))). split.
  - unfold mbind' at 1. unfold classic_transaction, mtry, classic_call.
    rewrite pay_step by (unfold hp; cbn; (by apply start_funded) || (intros ?; rewrite start_balance; auto)).
    unfold mbind' at 1, mget at 1. cbn [contractManager_ with_host]. by rewrite Hcm.
  - assert (Hgm := fd_gas _ _ Hfd). assert (Hgm' := fd_fee _ _ Hfd).
    constructor; cbn [evmHost_ with_host contractManager_]; try done.
    + by apply end_settled.
    + nia.
    + intros a. rewrite balance_at_end, (balance_at_accounts h1) by done.
      unfold h1. rewrite paid_balance. unfold hp. rewrite start_balance, (realTo_classic _ Hc). cbv iota.
      unfold paid. repeat case_decide; lia.
    + intros a. rewrite nonce_at_end. unfold nonce_at. rewrite (account_at_accounts h1) by done.
      unfold h1. rewrite (same_nonce _ _ (paid_same hp)). unfold hp. by rewrite (same_nonce _ _ (start_same _)).
    + intros k _. by rewrite end_created, C3.
    + unfold manager_events. split_and!; try done. by rewrite app_nil_r.
Qed.

(** The call of a C++ contract: the state it is made in. *)
Definition call_state (s : ST) : ContractManager (V := V) * (EVMHost * bool) :=
  (contractManager_ s, (paid_host (start_host (evmHost_ s)), isPayable (contractManager_ s) (txToCallInfo tx))).

Definition call_result (s : ST) : result unit := (callContract chainOwner chainId tx txIndex (call_state s)).1.

Lemma classic_call_run s :
  classic_branch (evmHost_ s) → isContractCall (contractManager_ s) tx = true → processingPayable_ s = false →
  funded tx (evmHost_ s) → balance_at (evmHost_ s) (to_ tx) + value_ tx ≤ umax 256 →
  let '(r, (cm, (h, flag))) := callContract chainOwner chainId tx txIndex (call_state s) in
  classic_call chainOwner chainId tx txIndex (with_host s (start_host (evmHost_ s))) =
    match r with
    | Ok _ => (Ok tt, with_contract_side s cm (commit (access_balance (to_ tx) h)) false)
    | Throw e => (Throw e, with_contract_side s cm h flag)
    end.
Proof.
  intros Hc Hcm Hpp Hfd Hto. unfold classic_call.
  rewrite pay_step by (cbn; (by apply start_funded) || (intros ?; rewrite start_balance; auto)).
  unfold mbind' at 1, mget at 1. cbn [contractManager_ with_host evmHost_]. rewrite Hcm. unfold call_state.
  destruct (isPayable (contractManager_ s) (txToCallInfo tx)); unfold mbind', on_contracts;
    cbn [mmodify mret' contractManager_ with_host with_payable evmHost_ processingPayable_]; rewrite ?Hpp;
    destruct (callContract _ _ _ _ _) as [[[]|e] [cm [h flag]]]; done.
Qed.

Context {LAWS : SafeVariableLaws V T}.

(** A failed call leaves the world as it was and the payment made. *)
Lemma failed_call_world s e :
  quiet (contractManager_ s) → honest_types → call_result s = Throw e → e ≠ Undefined →
  ∃ cm, callContract chainOwner chainId tx txIndex (call_state s) = (Throw e, (cm, (call_state s).2)) ∧
    quiet cm ∧ callLogger_ cm = None ∧ same_world (contractManager_ s) cm.
Proof.
  intros Hq Htypes He Hu. unfold call_result in He. set (x := (call_state s).2).
  assert (Hx : call_state s = (contractManager_ s, x)) by done. rewrite Hx in *.
  destruct (callContract _ _ _ _ _) as [r [cm st]] eqn:E. cbn in He. subst r.
  apply callContract_outcome in E as (Hq' & Hl & _ & Hw & ->); [by exists cm|done|done| |by intros [= ->]].
  intros Hp m. unfold x, call_state. cbn [snd]. rewrite Hp. by eexists.
Qed.

(** The [catch] block of a classic transaction, from the payment made. *)
Lemma classic_call_failed_step (s : ST) h payable :
  funded tx h → from_ tx ≠ to_ tx → 0 ≤ balance_at h (to_ tx) → balance_at h (from_ tx) + value_ tx ≤ umax 256 →
  balance_at h (to_ tx) + value_ tx ≤ umax 256 →
  processingPayable_ s = payable → evmHost_ s = paid_host h →
  ∃ h', classic_call_failed tx s = (Ok tt, with_contract_side s (contractManager_ s) h' false) ∧ same_but_balance h h' ∧
    ∀ a, balance_at h' a = balance_at h a - paid a (from_ tx) (gasLimit_ tx * maxFeePerGas_ tx)
      + paid a (if payable then from_ tx else to_ tx) (value_ tx).
Proof.
  intros [Hv Hg Hm Hb Hr] Hne Ht0 Hfr Htr Hpp Hh. assert (0 ≤ gasLimit_ tx * maxFeePerGas_ tx) by nia.
  assert (Hpb := paid_balance h). unfold paid in Hpb.
  assert (Hf : balance_at (paid_host h) (from_ tx) = balance_at h (from_ tx) - (value_ tx + gasLimit_ tx * maxFeePerGas_ tx))
    by (rewrite Hpb; repeat case_decide; done || lia).
  assert (Ht : balance_at (paid_host h) (to_ tx) = balance_at h (to_ tx) + value_ tx)
    by (rewrite Hpb; repeat case_decide; done || congruence || lia).
  unfold classic_call_failed. unfold mbind' at 1, mget at 1. rewrite Hpp. destruct payable.
  - unfold mbind' at 1. unfold mbind' at 1, on_host at 1. rewrite Hh. rewrite credit_ok by lia. cbv beta iota.
    unfold mbind' at 1, on_host at 1. cbn [evmHost_ with_host].
    rewrite debit_ok by (rewrite balance_at_set; case_decide; done || lia). cbv beta iota. cbn [mmodify].
    unfold on_host. cbn [evmHost_ with_host with_payable].
    rewrite credit_ok by (rewrite !balance_at_set; repeat case_decide; done || lia).
    eexists. split; [reflexivity|]. split.
    + etrans; [apply paid_same|]. do 2 (etrans; [apply same_setBalance|]). apply same_setBalance.
    + intros a. rewrite !balance_at_set. unfold paid. revert Hf Ht Hpb Hne Hb.
      generalize (from_ tx) as f, (to_ tx) as t. intros f t Hf Ht Hpb Hne Hb.
      repeat case_decide; subst; rewrite ?Hf, ?Ht, ?Hpb; repeat case_decide; done || lia.
  - unfold mbind' at 1. cbn [mret']. unfold on_host. rewrite Hh. rewrite credit_ok by lia.
    eexists. split; [by destruct s; cbn in *; subst|]. split; [etrans; [apply paid_same|apply same_setBalance]|].
    intros a. rewrite balance_at_set. unfold paid. revert Hf Ht Hpb Hne Hb.
    generalize (from_ tx) as f, (to_ tx) as t. intros f t Hf Ht Hpb Hne Hb.
    repeat case_decide; subst; rewrite ?Hf, ?Ht, ?Hpb; repeat case_decide; done || lia.
Qed.

Lemma failed_call_effects s e :
  settled (evmHost_ s) → is_Some (accounts (evmHost_ s) !! from_ tx) → classic_branch (evmHost_ s) →
  isContractCall (contractManager_ s) tx = true → processingPayable_ s = false →
  quiet (contractManager_ s) → honest_types → funded tx (evmHost_ s) → from_ tx ≠ to_ tx →
  0 ≤ balance_at (evmHost_ s) (to_ tx) → balance_at (evmHost_ s) (from_ tx) + value_ tx ≤ umax 256 →
  balance_at (evmHost_ s) (to_ tx) + value_ tx ≤ umax 256 →
  call_result s = Throw e → e ≠ Undefined →
  let payable := isPayable (contractManager_ s) (txToCallInfo tx) in
  ∃ s', run_tx s = (Ok tt, s') ∧ settled (evmHost_ s') ∧ quiet (contractManager_ s') ∧
    callLogger_ (contractManager_ s') = None ∧ same_world (contractManager_ s) (contractManager_ s') ∧ processingPayable_ s' = false ∧
    (∀ a, nonce_at (evmHost_ s') a = if decide (a = from_ tx) then (nonce_at (evmHost_ s) a + 1) mod 2 ^ 64 else nonce_at (evmHost_ s) a) ∧
    ∀ a, balance_at (evmHost_ s') a = balance_at (evmHost_ s) a - paid a (from_ tx) (gasLimit_ tx * maxFeePerGas_ tx)
      + paid a (if payable then from_ tx else to_ tx) (value_ tx).
Proof.
  intros Hs Hf Hc Hcm Hpp Hq Htypes Hfd Hne Ht0 Hfr Htr He Hu payable.
  rewrite processTransaction_start, Hc by done.
  destruct (failed_call_world s e Hq Htypes He Hu) as (cm & Ecall & Hq' & Hl & Hw).
  assert (Hrun := classic_call_run s Hc Hcm Hpp Hfd Htr). rewrite Ecall in Hrun.
  set (hp := start_host (evmHost_ s)) in *.
  assert (Hx : (call_state s).2 = (paid_host hp, payable)) by done. rewrite Hx in Hrun.
  set (sf := with_contract_side s cm (paid_host hp) payable) in *.
  destruct (classic_call_failed_step sf hp payable) as (h' & Ef & Hsm & Hbal); try done;
    unfold hp; rewrite ?start_balance; try done; [by apply start_funded|].
  exists (with_contract_side s cm (end_transaction tx h') false). split_and!; cbn; try done.
  - unfold mbind' at 1, classic_transaction, mtry. fold hp. rewrite Hrun.
    replace (match e with Undefined => _ | _ => _ end) with (classic_call_failed tx sf) by by destruct e.
    by rewrite Ef.
  - apply end_settled. apply (same_settled (evmHost_ s)); [|done]. transitivity hp; [apply start_same|done].
  - intros a. rewrite nonce_at_end. unfold nonce_at. rewrite (same_nonce _ _ Hsm). unfold hp.
    by rewrite (same_nonce _ _ (start_same _)).
  - intros a. rewrite balance_at_end, Hbal. unfold hp. by rewrite start_balance.
Qed.

(** ** Successful contract calls *)

Definition payout (h : EVMHost) (l : list (list Z * Z)) : EVMHost :=
  foldl (λ h p, setBalance p.1 p.2 (access_balance ContractManager_address h)) h l.

Lemma payout_balance l h a :
  NoDup l.*1 → balance_at (payout h l) a = default (balance_at h a) ((list_to_map l : gmap (list Z) Z) !! a).
Proof.
  revert h. induction l as [|[k v] l IH]; intros h Hnd; [done|]. apply NoDup_cons in Hnd as [Hk Hnd].
  unfold payout in *. cbn [foldl fst snd]. rewrite IH by done. cbn [list_to_map foldr].
  destruct (decide (k = a)) as [->|Hne].
  - rewrite not_elem_of_list_to_map_1 by done. cbn [default]. rewrite balance_at_set, decide_True by done.
    change (list_to_map ((a, v) :: l)) with (<[a := v]> (list_to_map l : gmap (list Z) Z)). by rewrite lookup_insert_eq.
  - change (list_to_map ((k, v) :: l)) with (<[k := v]> (list_to_map l : gmap (list Z) Z)).
    rewrite lookup_insert_ne by done. rewrite balance_at_set, decide_False by done. done.
Qed.

Lemma setBalance_accounts a x h b : is_Some (accounts h !! b) → is_Some (accounts (setBalance a x h) !! b).
Proof.
  intros Hb. unfold setBalance, update_account. cbn. destruct (decide (a = b)) as [->|Hne];
    [by rewrite lookup_insert_eq|by rewrite lookup_insert_ne].
Qed.

Lemma payout_accounts l h b : is_Some (accounts h !! b) ∨ b ∈ l.*1 → is_Some (accounts (payout h l) !! b).
Proof.
  revert h. induction l as [|[k v] l IH]; intros h; [intros [?|?%not_elem_of_nil]; done|].
  unfold payout in *. cbn [foldl fst snd]. intros Hb. apply IH.
  assert (Hk : is_Some (accounts (setBalance k v (access_balance ContractManager_address h)) !! k))
    by (unfold setBalance, update_account; cbn; by rewrite lookup_insert_eq).
  destruct Hb as [Hb|[->|Hb]%elem_of_cons]; [left|by left|by right]. by apply setBalance_accounts.
Qed.

Lemma payout_same l h : same_but_balance h (payout h l).
Proof.
  revert h. induction l as [|[k v] l IH]; intros h; [done|]. unfold payout in *. cbn [foldl fst snd].
  etrans; [|apply IH]. etrans; [|apply same_setBalance]. by apply same_accounts.
Qed.

Lemma update_account_keeps a f h b : is_Some (accounts h !! b) → is_Some (accounts (update_account a f h) !! b).
Proof.
  intros Hb. unfold update_account. cbn. destruct (decide (a = b)) as [->|Hne];
    [by rewrite lookup_insert_eq|by rewrite lookup_insert_ne].
Qed.

Lemma on_accounts_keeps f l h b : is_Some (accounts h !! b) → is_Some (accounts (on_accounts f l h) !! b).
Proof.
  unfold on_accounts. revert h. induction l as [|a l IH]; intros h Hb; [done|]. cbn [foldl].
  by apply IH, update_account_keeps.
Qed.

Lemma end_accounts h b : is_Some (accounts h !! b) → is_Some (accounts (end_transaction tx h) !! b).
Proof.
  intros Hb. unfold end_transaction, commitBalance, commitNonce. cbn.
  by apply on_accounts_keeps, on_accounts_keeps, update_account_keeps.
Qed.

Lemma paid_accounts h a :
  is_Some (accounts h !! a) ∨ a = to_ tx → is_Some (accounts (paid_host (start_host h)) !! a).
Proof.
  intros Ha. unfold paid_host. do 2 apply setBalance_accounts.
  change (is_Some (accounts (touch_account (to_ tx) h) !! a)). destruct Ha as [Ha| ->]; [by apply update_account_keeps|].
  unfold touch_account, update_account, with_accounts. cbn [accounts]. by rewrite lookup_insert_eq.
Qed.

(** *** Totals *)

Lemma total_pay (f g : list Z → Z) a x l :
  NoDup l → (∀ b, g b = f b + paid b a x) → total g l = total f l + if decide (a ∈ l) then x else 0.
Proof.
  intros Hnd Hg. induction Hnd as [|b l Hb Hnd IH]; [done|]. cbn. rewrite IH, Hg. unfold paid.
  destruct (decide (b = a)) as [->|Hne].
  - rewrite (decide_True (P := a ∈ a :: l)), decide_False by (done || left). lia.
  - destruct (decide (a ∈ l)); [rewrite decide_True by by right|rewrite decide_False by (intros [?|?]%elem_of_cons; congruence)]; lia.
Qed.

(** The payment of a transaction as one change of the balances. *)
Lemma total_paid h l :
  NoDup l → total (balance_at (paid_host h)) l = total (balance_at h) l
    - (if decide (from_ tx ∈ l) then value_ tx + gasLimit_ tx * maxFeePerGas_ tx else 0)
    + (if decide (to_ tx ∈ l) then value_ tx else 0).
Proof.
  intros Hnd. set (fees := value_ tx + gasLimit_ tx * maxFeePerGas_ tx).
  rewrite (total_pay (λ b, balance_at h b + paid b (from_ tx) (- fees)) _ (to_ tx) (value_ tx)) by
    (done || (intros b; rewrite paid_balance; unfold paid, fees; repeat case_decide; lia)).
  rewrite (total_pay (balance_at h) _ (from_ tx) (- fees)) by done. case_decide; case_decide; lia.
Qed.

Lemma supply_paid h : funded tx h → supply_ok (balance_at h) → supply_ok (balance_at (paid_host h)).
Proof.
  intros [Hv Hg Hm Hb Hr] [Hn Hs]. assert (Hgm : 0 ≤ gasLimit_ tx * maxFeePerGas_ tx) by nia.
  assert (Hn' : ∀ a, 0 ≤ balance_at (paid_host h) a).
  { intros a. rewrite paid_balance. unfold paid. specialize (Hn a). destruct (decide (a = from_ tx)) as [->|]; case_decide; lia. }
  split; [done|]. intros l Hnd. destruct (decide (from_ tx ∈ l)) as [Hin|Hout].
  - rewrite total_paid by done. rewrite decide_True by done. specialize (Hs l Hnd). case_decide; lia.
  - assert (Hnd' : NoDup (from_ tx :: l)) by by constructor.
    assert (Ht := total_paid h _ Hnd'). rewrite decide_True in Ht by left. specialize (Hs _ Hnd').
    cbn [total] in Ht. specialize (Hn' (from_ tx)). cbn [total] in Hs. revert Ht. case_decide; lia.
Qed.

Lemma balance_of_at h b a : balance_of (PayableState := state_payable) (h, b) a = balance_at h a.
Proof. cbn. unfold balance_at, account_at. by destruct (accounts h !! a). Qed.

Lemma supply_ext (f g : list Z → Z) : (∀ a, f a = g a) → supply_ok f → supply_ok g.
Proof.
  intros Hfg [Hn Hs]. split; [intros a; by rewrite <- Hfg|]. intros l Hnd.
  rewrite <- (total_ext f g) by auto. by apply Hs.
Qed.

(** Whatever the call pays out, the balances of all the accounts add up to the same. *)
Lemma call_total s cm h flag l :
  quiet (contractManager_ s) → supply_ok (balance_at (evmHost_ s)) → funded tx (evmHost_ s) →
  callContract chainOwner chainId tx txIndex (call_state s) = (Ok tt, (cm, (h, flag))) →
  same_but_balance (paid_host (start_host (evmHost_ s))) h ∧ (∀ b, is_Some (accounts (paid_host (start_host (evmHost_ s))) !! b) → is_Some (accounts h !! b)) ∧
  (NoDup l → (∀ a, is_Some (accounts h !! a) → a ∈ l) →
   total (balance_at h) l = total (balance_at (paid_host (start_host (evmHost_ s)))) l).
Proof.
  intros Hq Hsup Hfd. set (hp := paid_host _). unfold call_state. fold hp.
  set (st := (hp, _)). intros Hcall. assert (Hsp : supply_ok (balance_of st)).
  { apply (supply_ext (balance_at hp)); [intros a; symmetry; apply balance_of_at|].
    apply supply_paid; [by apply start_funded|]. apply (supply_ext (balance_at (evmHost_ s))); [|done].
    intros a. by rewrite start_balance. }
  destruct (callContract_pays _ _ _ _ _ _ _ _ Hq Hsp Hcall) as [[= -> ->]|(m & Hp & Hbal & Hpay)]; [done|].
  unfold st in Hpay. rewrite Hp in Hpay. cbn in Hpay. injection Hpay as <- _.
  change (foldl _ hp (in_order m)) with (payout hp (in_order m)).
  assert (Hperm := in_order_perm m).
  assert (Hnd : NoDup (in_order m).*1) by (rewrite Hperm; apply NoDup_fst_map_to_list).
  assert (Hmap : (list_to_map (in_order m) : gmap (list Z) Z) = m).
  { rewrite (list_to_map_proper (in_order m) (map_to_list m)) by done. apply list_to_map_to_list. }
  split; [apply payout_same|]. split; [intros b Hb; apply payout_accounts; by left|].
  intros Hl Hall. destruct Hbal as [_ Hbal]. specialize (Hbal l Hl). rewrite Z.sub_0_r in Hbal.
  rewrite (total_ext (balance_at hp) (balance_of st)) by (intros a _; symmetry; apply balance_of_at).
  rewrite <- Hbal.
  - apply total_ext. intros a _. rewrite payout_balance, Hmap by done. unfold effective.
    destruct (m !! a); [done|]. cbn [default]. symmetry. apply balance_of_at.
  - intros a [x Hx]. apply Hall, payout_accounts. right. apply list_elem_of_fmap. exists (a, x). split; [done|].
    rewrite Hperm. by apply elem_of_map_to_list.
Qed.

(** The total at the end of the transaction. *)
Lemma end_total s cm h flag :
  quiet (contractManager_ s) → supply_ok (balance_at (evmHost_ s)) → funded tx (evmHost_ s) →
  is_Some (accounts (evmHost_ s) !! from_ tx) → settled (access_balance (to_ tx) h) →
  callContract chainOwner chainId tx txIndex (call_state s) = (Ok tt, (cm, (h, flag))) →
  ∀ l, NoDup l → (∀ a, is_Some (accounts (end_transaction tx (commit (access_balance (to_ tx) h))) !! a) → a ∈ l) →
  total (balance_at (end_transaction tx (commit (access_balance (to_ tx) h)))) l =
    total (balance_at (evmHost_ s)) l - gasLimit_ tx * maxFeePerGas_ tx.
Proof.
  intros Hq Hsup Hfd Hf Hs1 Ecall l Hl Hall. destruct (commit_settled _ Hs1) as (_ & C2 & _).
  assert (Hkeep : ∀ a, is_Some (accounts h !! a) → a ∈ l).
  { intros a Ha. apply Hall, end_accounts. rewrite C2. exact Ha. }
  destruct (call_total s cm h flag l Hq Hsup Hfd Ecall) as (_ & Hacc & Ht).
  transitivity (total (balance_at h) l).
  { apply total_ext. intros a _. rewrite balance_at_end. by apply balance_at_accounts. }
  rewrite (Ht Hl Hkeep), total_paid by done.
  rewrite (total_ext (balance_at (start_host (evmHost_ s))) (balance_at (evmHost_ s))) by (intros a _; apply start_balance).
  rewrite !decide_True by (apply Hkeep, Hacc, paid_accounts; auto). lia.
Qed.

Lemma contract_call_run s cm h flag :
  is_Some (accounts (evmHost_ s) !! from_ tx) → classic_branch (evmHost_ s) →
  isContractCall (contractManager_ s) tx = true → processingPayable_ s = false → funded tx (evmHost_ s) →
  balance_at (evmHost_ s) (to_ tx) + value_ tx ≤ umax 256 →
  callContract chainOwner chainId tx txIndex (call_state s) = (Ok tt, (cm, (h, flag))) →
  run_tx s = (Ok tt, with_contract_side s cm (end_transaction tx (commit (access_balance (to_ tx) h))) false).
Proof.
  intros Hf Hc Hcm Hpp Hfd Hto Ecall. rewrite processTransaction_start, Hc by done.
  assert (Hrun := classic_call_run s Hc Hcm Hpp Hfd Hto). rewrite Ecall in Hrun.
  unfold mbind' at 1, classic_transaction, mtry. by rewrite Hrun.
Qed.

Lemma contract_call_effects s :
  settled (evmHost_ s) → is_Some (accounts (evmHost_ s) !! from_ tx) → classic_branch (evmHost_ s) →
  isContractCall (contractManager_ s) tx = true → processingPayable_ s = false →
  quiet (contractManager_ s) → honest_types → funded tx (evmHost_ s) → from_ tx ≠ to_ tx →
  supply_ok (balance_at (evmHost_ s)) → call_result s = Ok tt →
  ∃ s', run_tx s = (Ok tt, s') ∧ settled (evmHost_ s') ∧ processingPayable_ s' = false ∧
    quiet (contractManager_ s') ∧
    (∀ a, nonce_at (evmHost_ s') a = if decide (a = from_ tx) then (nonce_at (evmHost_ s) a + 1) mod 2 ^ 64 else nonce_at (evmHost_ s) a) ∧
    ∀ l, NoDup l → (∀ a, is_Some (accounts (evmHost_ s') !! a) → a ∈ l) →
      total (balance_at (evmHost_ s')) l = total (balance_at (evmHost_ s)) l - gasLimit_ tx * maxFeePerGas_ tx.
Proof.
  intros Hs Hf Hc Hcm Hpp Hq Htypes Hfd Hne Hsup Hres.
  assert (Hto : balance_at (evmHost_ s) (to_ tx) + value_ tx ≤ umax 256).
  { destruct Hsup as [Hn Hsup].
    assert (Hnd : NoDup [from_ tx; to_ tx]) by (repeat constructor; rewrite ?list_elem_of_singleton, ?elem_of_nil; tauto).
    specialize (Hsup _ Hnd). cbn [total] in Hsup. assert (Hg := fd_gas _ _ Hfd). assert (Hm := fd_fee _ _ Hfd).
    assert (Hb := fd_balance _ _ Hfd). nia. }
  assert (Hrun := λ cm h flag, contract_call_run s cm h flag Hf Hc Hcm Hpp Hfd Hto). unfold call_result in Hres.
  destruct (callContract _ _ _ _ (call_state s)) as [r [cm [h flag]]] eqn:Ecall. cbn in Hres. subst r.
  destruct (call_total s cm h flag [] Hq Hsup Hfd Ecall) as (Hsm & Hacc & _).
  set (hp := start_host (evmHost_ s)) in *.
  assert (Hs1 : settled (access_balance (to_ tx) h)).
  { apply (same_settled (evmHost_ s)); [|done]. transitivity hp; [apply start_same|]. transitivity (paid_host hp); [apply paid_same|].
    transitivity h; [done|by apply same_accounts]. }
  destruct (commit_settled _ Hs1) as (C1 & C2 & C3).
  assert (Hq' : quiet cm).
  { assert (Hx : call_state s = (contractManager_ s, (call_state s).2)) by done. rewrite Hx in Ecall.
    eapply callContract_outcome; [done|done| |exact Ecall|done].
    intros Hp m. unfold call_state. cbn [snd]. rewrite Hp. by eexists. }
  exists (with_contract_side s cm (end_transaction tx (commit (access_balance (to_ tx) h))) false).
  split_and!; cbn [evmHost_ with_contract_side processingPayable_ contractManager_]; try done.
  - by apply (Hrun _ _ flag).
  - by apply end_settled.
  - intros a. rewrite nonce_at_end. unfold nonce_at. rewrite (account_at_accounts h) by done.
    rewrite (same_nonce _ _ Hsm), (same_nonce _ _ (paid_same _)). unfold hp. by rewrite (same_nonce _ _ (start_same _)).
  - exact (end_total s cm h flag Hq Hsup Hfd Hf Hs1 Ecall).
Qed.

(** ** What a transaction keeps of the host *)

(** A property of the host closed under the operations a transaction is made of. *)
Record host_closed (I : EVMHost → Prop) : Prop := {
  hc_accounts h h' : accounts h' = accounts h → I h → I h';
  hc_touch a h : I h → I (touch_account a h);
  hc_credit a x : 0 ≤ x → keeps I (credit a x);
  hc_debit a x : 0 ≤ x → keeps I (debit a x);
  hc_execute ci : keeps I (execute ci);
  hc_commit h : I h → I (commit h);
  hc_revert h : I h → I (revert h);
  hc_code f l h : I h → I (on_accounts (settle_code f) l h);
  hc_end h : I h → I (end_transaction tx h);
  hc_contract (s : ST) : quiet (contractManager_ s) → I (evmHost_ s) →
    I (evmHost_ (on_contracts (callContract chainOwner chainId tx txIndex) s).2)
}.

Section closed.
Variable I : EVMHost → Prop.
Hypothesis CLOSED : host_closed I.

Definition on_st (s : ST) : Prop := I (evmHost_ s).

Lemma keeps_on_host {A} (m : M EVMHost A) : keeps I m → keeps on_st (on_host m).
Proof. intros Hm s Hs. unfold on_host. specialize (Hm _ Hs). by destruct (m (evmHost_ s)). Qed.

Lemma keeps_host_modify f : (∀ h, I h → I (f h)) → keeps on_st (on_host (mmodify f)).
Proof. intros Hf. apply keeps_on_host, keeps_modify, Hf. Qed.

(** The steps that leave the accounts alone. *)
Lemma keeps_host_marks f : (∀ h, accounts (f h) = accounts h) → keeps on_st (on_host (mmodify f)).
Proof. intros Hf. apply keeps_host_modify. intros h. by apply (hc_accounts _ CLOSED). Qed.

Lemma keeps_evm_execute ci : keeps on_st (evm_execute ci).
Proof.
  intros s Hs. unfold evm_execute. set (h0 := with_randomGen _ _).
  assert (H0 : I h0) by by apply (hc_accounts _ CLOSED (evmHost_ s)).
  assert (Hk := hc_execute _ CLOSED ci h0 H0). by destruct (execute ci h0).
Qed.

Hypothesis VALUE : 0 ≤ value_ tx.

Lemma keeps_pay a : keeps on_st (on_host (credit a (value_ tx))) ∧ keeps on_st (on_host (debit a (value_ tx))).
Proof. split; apply keeps_on_host; [by apply (hc_credit _ CLOSED)|by apply (hc_debit _ CLOSED)]. Qed.

Lemma keeps_evm_call : keeps on_st run_call.
Proof.
  unfold evm_call. do 2 (apply keeps_bind; [by apply keeps_host_marks|]; intros _).
  apply keeps_bind; [apply keeps_evm_execute|]. intros res. apply keeps_bind; [apply keeps_throw_if|]. intros _.
  apply keeps_lift_bind. intros used _. apply keeps_lift_bind. intros fee Hfee. apply ustore_range in Hfee as [Hfee _]; [|done].
  apply keeps_bind; [by apply keeps_on_host, (hc_debit _ CLOSED)|]. intros _.
  apply keeps_bind; [apply keeps_gets|]. intros h. apply keeps_bind; [apply keeps_throw_if|]. intros _.
  apply keeps_bind; [by apply keeps_modify|]. intros _.
  apply keeps_bind; [apply keeps_host_modify, (hc_commit _ CLOSED)|]. intros _. apply keeps_host_modify.
  intros h' Hh'. apply (hc_accounts _ CLOSED (on_accounts (settle_code to_current) (accessedAccountsCode h') h')); [done|].
  by apply (hc_code _ CLOSED).
Qed.

Lemma keeps_evm_transaction : keeps on_st run_evm.
Proof.
  unfold evm_transaction. apply keeps_bind; [by apply keeps_host_marks|]. intros _. apply keeps_bind.
  - case_match; [apply keeps_ret|]. apply keeps_bind; [apply keeps_pay|]. intros _.
    apply keeps_bind; [apply keeps_pay|]. intros _. by apply keeps_host_marks.
  - intros _. apply keeps_mtry; [apply keeps_evm_call|]. intros [?|?]; [apply keeps_ret|]. unfold evm_call_failed.
    apply keeps_bind; [by apply keeps_host_marks|]. intros _. apply keeps_bind; [apply keeps_pay|]. intros _.
    apply keeps_bind; [apply keeps_pay|]. intros _.
    apply keeps_bind; [apply keeps_host_modify, (hc_revert _ CLOSED)|]. intros _. apply keeps_host_modify.
    intros h' Hh'. apply (hc_accounts _ CLOSED (on_accounts (settle_code to_original) (accessedAccountsCode h') h')); [done|].
    by apply (hc_code _ CLOSED).
Qed.

Lemma keeps_classic_call (s : ST) :
  quiet (contractManager_ s) → on_st s → on_st (classic_call chainOwner chainId tx txIndex s).2.
Proof.
  intros Hq Hs. unfold classic_call. unfold mbind' at 1, mlift at 1. destruct (txWithFees tx) as [fees|e] eqn:Ef; [|done].
  assert (Hfees : 0 ≤ fees).
  { unfold txWithFees in Ef. apply result_bind_ok in Ef as (? & _ & Ef). by apply ustore_range in Ef as [? _]. }
  unfold mbind' at 1. assert (H1 := keeps_on_host _ (hc_debit _ CLOSED (from_ tx) fees Hfees) s Hs).
  assert (Hq1 : contractManager_ (on_host (debit (from_ tx) fees) s).2 = contractManager_ s)
    by (unfold on_host; by destruct (debit _ _ _)).
  destruct (on_host _ s) as [[[]|e] s1]; cbn in H1, Hq1; [|done].
  unfold mbind' at 1. assert (H2 := proj1 (keeps_pay (to_ tx)) s1 H1).
  assert (Hq2 : contractManager_ (on_host (credit (to_ tx) (value_ tx)) s1).2 = contractManager_ s1)
    by (unfold on_host; by destruct (credit _ _ _)).
  destruct (on_host _ s1) as [[[]|e] s2]; cbn in H2, Hq2; [|done].
  rewrite Hq1 in Hq2. rewrite <- Hq2 in Hq. unfold mbind' at 1, mget at 1. cbv beta iota.
  assert (Hend : keeps on_st (on_host (mmodify (access_balance (to_ tx))) ;;; on_host (mmodify commit))).
  { apply keeps_bind; [by apply keeps_host_marks|]. intros _. apply keeps_host_modify, (hc_commit _ CLOSED). }
  destruct (isContractCall _ _); [|apply (keeps_bind on_st (mret' tt)); [apply keeps_ret|by intros _|done]].
  set (flag := if isPayable _ _ then _ else _).
  assert (Hflag : ∃ b, flag s2 = (Ok tt, with_payable s2 b)).
  { unfold flag. destruct (isPayable _ _); [by exists true|exists (processingPayable_ s2)]. by destruct s2. }
  destruct Hflag as [b Eb]. unfold mbind' at 1. unfold mbind' at 1. rewrite Eb. unfold mbind' at 1.
  assert (H3 := hc_contract _ CLOSED (with_payable s2 b) Hq H2).
  destruct (on_contracts _ _) as [[[]|e] s3]; cbn in H3; [|done]. unfold mmodify at 1. by apply Hend.
Qed.

Lemma processTransaction_keeps (s : ST) :
  quiet (contractManager_ s) → on_st s → on_st (run_tx s).2.
Proof.
  intros Hq Hs. unfold processTransaction. unfold mbind' at 1, on_host at 1. cbn [mmodify].
  assert (H1 : on_st (with_host s (touch_account (to_ tx) (evmHost_ s)))) by by apply (hc_touch _ CLOSED).
  unfold mbind' at 1, mgets at 1. unfold mbind' at 1. unfold mthrow_if. destruct (negb _); [done|]. cbn [mret'].
  unfold mbind' at 1, on_host at 1. cbn [mmodify evmHost_ with_host]. set (s1 := with_host _ _).
  assert (H1' : on_st s1) by (by apply (hc_accounts _ CLOSED (touch_account (to_ tx) (evmHost_ s)))). assert (Hend : keeps on_st (on_host (mmodify (end_transaction tx))))
    by apply keeps_host_modify, (hc_end _ CLOSED).
  unfold mbind' at 1. match goal with |- context [(if ?b then _ else _) s1] => destruct b end.
  - assert (H2 := keeps_evm_transaction s1 H1'). destruct (run_evm s1) as [[[]|e] s2]; cbn in H2; [by apply Hend|done].
  - assert (H2 : on_st (run_classic s1).2).
    { unfold classic_transaction, mtry. assert (Hc := keeps_classic_call s1 Hq H1').
      destruct (classic_call _ _ _ _ s1) as [[[]|e] s2]; cbn in Hc; [done|].
      assert (Hf : keeps on_st (classic_call_failed tx)).
      { unfold classic_call_failed. apply keeps_get_bind. intros s0 Hs0. revert s0 Hs0.
        intros s0 Hs0. destruct (processingPayable_ s0); revert s0 Hs0.
        - change (keeps on_st ((on_host (credit (from_ tx) (value_ tx)) ;;; on_host (debit (to_ tx) (value_ tx)) ;;;
            mmodify (λ s, with_payable s false)) ;;; on_host (credit (from_ tx) (value_ tx)))).
          apply keeps_bind; [|intros _; apply keeps_pay]. apply keeps_bind; [apply keeps_pay|]. intros _.
          apply keeps_bind; [apply keeps_pay|]. intros _. by apply keeps_modify.
        - change (keeps on_st (mret' tt ;;; on_host (credit (from_ tx) (value_ tx)))).
          apply keeps_bind; [apply keeps_ret|]. intros _. apply keeps_pay. }
      specialize (Hf s2 Hc). by destruct e. }
    destruct (run_classic s1) as [[[]|e] s2]; cbn in H2; [by apply Hend|done].
Qed.
End closed.

(** *** Every balance is a [uint256_t] and every nonce a [uint64_t] *)

Lemma typed_payout l h : Forall (λ p : list Z * Z, in_uint 256 p.2) l → typed h → typed (payout h l).
Proof.
  revert h. induction l as [|[k v] l IH]; intros h Hl Hh; [done|]. apply Forall_cons in Hl as [Hv Hl].
  unfold payout in *. cbn [foldl fst snd]. apply IH; [done|]. by apply typed_setBalance.
Qed.

Lemma typed_contract_call (s : ST) :
  quiet (contractManager_ s) → typed (evmHost_ s) →
  typed (evmHost_ (on_contracts (callContract chainOwner chainId tx txIndex) s).2).
Proof.
  intros Hq Hs. unfold on_contracts. set (st0 := (evmHost_ s, processingPayable_ s)).
  assert (Hbal : ∀ a, in_uint 256 (balance_of st0 a)).
  { intros a. unfold st0. rewrite balance_of_at. by apply typed_at. }
  destruct (callContract _ _ _ _ _) as [r [cm [h flag]]] eqn:E.
  eapply (callContract_books _ _ books_typed) in E as [[= -> ->]|(m & s2 & r' & HI & Hm & _ & Hpay & _)];
    [done| |done|by apply books_closed|].
  - cbn in Hpay. destruct (processingPayable_ s); cbn in Hpay; injection Hpay as _ <- <-; [|done].
    apply (typed_payout (in_order m) (evmHost_ s)); [|done]. rewrite Forall_forall. intros [k v] Hin.
    rewrite in_order_perm in Hin. apply elem_of_map_to_list in Hin. by eapply HI.
  - intros m a x [= <-] Hx. by rewrite lookup_empty in Hx.
Qed.

Lemma typed_closed : host_closed typed.
Proof.
  constructor; intros.
  - by eapply typed_accounts.
  - by apply typed_touch.
  - by apply typed_credit.
  - by apply typed_debit.
  - apply typed_execute.
  - by apply typed_commit.
  - by apply typed_revert.
  - by apply typed_code.
  - by apply typed_end.
  - by apply typed_contract_call.
Qed.

(** *** No account is removed *)

Definition has_account (a : list Z) (h : EVMHost) : Prop := is_Some (accounts h !! a).

Lemma has_on_slots a g l h : has_account a h → has_account a (on_slots g l h).
Proof.
  unfold on_slots. revert h. induction l as [|[b k] l IH]; intros h Hh; [done|]. cbn [foldl].
  by apply IH, update_account_keeps.
Qed.

Lemma has_contract_call a (s : ST) :
  quiet (contractManager_ s) → has_account a (evmHost_ s) →
  has_account a (evmHost_ (on_contracts (callContract chainOwner chainId tx txIndex) s).2).
Proof.
  intros Hq Hs. unfold on_contracts. destruct (callContract _ _ _ _ _) as [r [cm [h flag]]] eqn:E.
  eapply (callContract_books _ _ (λ _, True)) in E as [[= -> ->]|(m & s2 & r' & _ & Hm & _ & Hpay & _)]; [done| |done|by constructor|done].
  cbn in Hpay. destruct (processingPayable_ s); cbn in Hpay; injection Hpay as _ <- <-; [|done].
  apply (payout_accounts (in_order m) (evmHost_ s)). by left.
Qed.

Lemma has_closed a : host_closed (has_account a).
Proof.
  constructor; unfold has_account; intros.
  - by rewrite H.
  - by apply update_account_keeps.
  - intros h Hh. destruct (credit a0 x h) as [r h'] eqn:E. apply credit_cases in E as [b ->]. by apply setBalance_accounts.
  - intros h Hh. destruct (debit a0 x h) as [r h'] eqn:E. apply debit_cases in E as [b ->]. by apply setBalance_accounts.
  - intros h Hh. destruct (execute ci h) as [r h'] eqn:E. by apply (execute_money _ _ _ _ E a).
  - unfold commit. rewrite commit_slots_on. by apply (on_accounts_keeps (set_transients ∅)), has_on_slots.
  - unfold revert. rewrite revert_slots_on. by apply (on_accounts_keeps (set_transients ∅)), has_on_slots.
  - by apply on_accounts_keeps.
  - by apply end_accounts.
  - by apply has_contract_call.
Qed.
End one.
End transactions.

(** ** The properties of [processTransaction] *)

Section properties.
Context {V T : Type} {SV : SafeVariable V T} {DBI : RocksDB} {LS : LibSecp256k1} {BB : BoostBits} {KC : Keccak}
  {VM : EVMC} {BR : BoostResidue} {CT : ContractTypes (V := V)} {HO : HashOrder} {LAWS : SafeVariableLaws V T}.
Variables (chainOwner : list Z) (chainId : Z) (blockHash : list Z) (blockHeight : Z) (blockCoinbase : list Z)
  (blockTimestamp blockGasLimit txIndex : Z) (tx : TxBlock).
Abbreviation run s := (processTransaction chainOwner chainId tx blockHash blockHeight blockCoinbase blockTimestamp blockGasLimit txIndex s).

(** C2: The accounting of a transaction of the EVM, a call or a creation. The virtual machine runs on the state with the
    value already moved ([tx_run]); whatever it does, the sender pays [gasLimit - gas_left] times [maxFeePerGas] (nothing
    when the machine throws or gives back more gas than the limit) and its nonce goes up by one. The transaction succeeds
    exactly when the machine answers [EVMC_SUCCESS] and has not asked to revert. Then the value has moved to the
    recipient, or to the address of the new contract, the codes, slots and contract addresses are those the machine left,
    and the events it emitted are committed; otherwise the value stays, and the codes, the storage, the contract addresses
    and the events are what they were. No other balance or nonce changes, and nothing is left pending. *)
Theorem evm_transaction_accounting s r s' :
  settled (evmHost_ s) → is_Some (accounts (evmHost_ s) !! from_ tx) → evm_branch tx (evmHost_ s) = true →
  funded tx (evmHost_ s) → 0 ≤ balance_at (evmHost_ s) (realTo tx) →
  balance_at (evmHost_ s) (realTo tx) + value_ tx ≤ umax 256 → contractAddresses (evmHost_ s) !! hash_ tx = None →
  run s = (r, s') → r ≠ Throw Undefined →
  let vm := tx_run chainId tx blockHeight blockCoinbase blockTimestamp blockGasLimit s in
  let used := match vm.1 with
              | Ok res => if gas_sane tx (gas_left res) then gasLimit_ tx - gas_left res else 0
              | Throw _ => 0
              end in
  let ok := match vm.1 with
            | Ok res => gas_sane tx (gas_left res) && (status_code res =? 0) && negb (shouldRevert vm.2)
            | Throw _ => false
            end in
  let events := if ok then imap (sdk_event tx txIndex blockHash blockHeight) (emittedEvents vm.2) else [] in
  r = Ok tt ∧ tx_outcome tx s ok (used * maxFeePerGas_ tx) events s' ∧ (ok = true → same_evm vm.2 (evmHost_ s')).
Proof. apply processTransaction_evm. Qed.

(** A transfer to an address without code always succeeds: the sender pays the value and the
    whole gas limit, the recipient receives the value, the sender's nonce goes up by one and nothing else
    changes. *)
Theorem transfer_accounting s :
  settled (evmHost_ s) → is_Some (accounts (evmHost_ s) !! from_ tx) → classic_branch tx (evmHost_ s) →
  isContractCall (contractManager_ s) tx = false → funded tx (evmHost_ s) →
  (from_ tx ≠ to_ tx → balance_at (evmHost_ s) (to_ tx) + value_ tx ≤ umax 256) →
  ∃ s', run s = (Ok tt, s') ∧ tx_outcome tx s true (gasLimit_ tx * maxFeePerGas_ tx) [] s'.
Proof. apply processTransaction_transfer. Qed.

(** C3: A successful call of a C++ contract conserves the native tokens: whatever the contracts
    transfer and whatever [processContractPayable] writes, the balances of all the accounts add up to
    what they were, less the gas the sender pays for. *)
Theorem contract_call_conserves s :
  settled (evmHost_ s) → is_Some (accounts (evmHost_ s) !! from_ tx) → classic_branch tx (evmHost_ s) →
  isContractCall (contractManager_ s) tx = true → processingPayable_ s = false →
  quiet (contractManager_ s) → honest_types → funded tx (evmHost_ s) → from_ tx ≠ to_ tx →
  supply_ok (balance_at (evmHost_ s)) → call_result chainOwner chainId tx txIndex s = Ok tt →
  ∃ s', run s = (Ok tt, s') ∧ settled (evmHost_ s') ∧ processingPayable_ s' = false ∧
    quiet (contractManager_ s') ∧
    (∀ a, nonce_at (evmHost_ s') a = if decide (a = from_ tx) then (nonce_at (evmHost_ s) a + 1) mod 2 ^ 64 else nonce_at (evmHost_ s) a) ∧
    ∀ l, NoDup l → (∀ a, is_Some (accounts (evmHost_ s') !! a) → a ∈ l) →
      total (balance_at (evmHost_ s')) l = total (balance_at (evmHost_ s)) l - gasLimit_ tx * maxFeePerGas_ tx.
Proof. intros. by apply contract_call_effects. Qed.

(** C40: A failed call of a C++ contract creates tokens. The contracts' state is rolled back and
    the nonce goes up, but the [catch] block pays the value back once too often: when the function is
    payable the sender ends up with the value on top of its balance, otherwise the contract keeps the
    value that the sender got back. *)
Theorem failed_contract_call_mints s e :
  settled (evmHost_ s) → is_Some (accounts (evmHost_ s) !! from_ tx) → classic_branch tx (evmHost_ s) →
  isContractCall (contractManager_ s) tx = true → processingPayable_ s = false →
  quiet (contractManager_ s) → honest_types → funded tx (evmHost_ s) → from_ tx ≠ to_ tx →
  0 ≤ balance_at (evmHost_ s) (to_ tx) → balance_at (evmHost_ s) (from_ tx) + value_ tx ≤ umax 256 →
  balance_at (evmHost_ s) (to_ tx) + value_ tx ≤ umax 256 →
  call_result chainOwner chainId tx txIndex s = Throw e → e ≠ Undefined →
  let payable := isPayable (contractManager_ s) (txToCallInfo tx) in
  ∃ s', run s = (Ok tt, s') ∧ settled (evmHost_ s') ∧ quiet (contractManager_ s') ∧
    callLogger_ (contractManager_ s') = None ∧ same_world (contractManager_ s) (contractManager_ s') ∧ processingPayable_ s' = false ∧
    (∀ a, nonce_at (evmHost_ s') a = if decide (a = from_ tx) then (nonce_at (evmHost_ s) a + 1) mod 2 ^ 64 else nonce_at (evmHost_ s) a) ∧
    ∀ a, balance_at (evmHost_ s') a = balance_at (evmHost_ s) a - paid a (from_ tx) (gasLimit_ tx * maxFeePerGas_ tx)
      + paid a (if payable then from_ tx else to_ tx) (value_ tx).
Proof. intros. by eapply failed_call_effects. Qed.

(** Balances and nonces keep their types: whatever a transaction does, whether it returns,
    throws or is undefined, and whatever value an overflowing operation leaves, every balance, original
    and current, stays a [uint256_t] and every nonce a [uint64_t]. *)
Theorem processTransaction_typed s :
  0 ≤ value_ tx → quiet (contractManager_ s) → typed (evmHost_ s) → typed (evmHost_ (run s).2).
Proof. intros Hv Hq Ht. apply (processTransaction_keeps _ _ _ _ _ _ _ _ _ typed); [apply typed_closed|done..]. Qed.
End properties.

(** ** Witnesses *)

Lemma total_app f l1 l2 : total f (l1 ++ l2) = total f l1 + total f l2.
Proof. induction l1 as [|a l1 IH]; cbn; [done|]. rewrite IH. lia. Qed.

Lemma total_perm f l1 l2 : l1 ≡ₚ l2 → total f l1 = total f l2.
Proof. induction 1; cbn; lia. Qed.

(** The tokens of finitely many accounts bound every total. *)
Lemma total_support f K l :
  (∀ a, 0 ≤ f a) → (∀ a, a ∉ K → f a = 0) → NoDup l → total f l ≤ total f K.
Proof.
  intros Hf Hz Hnd.
  assert (Hfil : total f l = total f (filter (λ a, a ∈ K) l)).
  { clear Hnd. induction l as [|a l IH]; [done|]. rewrite filter_cons. case_decide as Ha; cbn; rewrite IH; [done|].
    rewrite (Hz a Ha). lia. }
  assert (Hsub : filter (λ a, a ∈ K) l ⊆+ K).
  { apply NoDup_submseteq; [by apply NoDup_filter|]. intros a [Ha _]%list_elem_of_filter. done. }
  apply submseteq_Permutation in Hsub as [k Hk]. rewrite Hfil, (total_perm f K _ Hk), total_app.
  assert (Hn := total_nonneg f k Hf). lia.
Qed.

Definition toy_rich (n : Z) : EVMAccount := set_balance (n, n) EVMAccount_new.

(** A sender, a C++ contract and the EVM contracts of EvmHost. *)
Definition toy_sender : list Z := toy_addr 5.
Definition toy_accounts : EVMHost :=
  with_accounts EVMHost_new {[ toy_addr 1 := with_code [1]; toy_addr 2 := with_code [2];
    toy_contract_address := toy_rich 100; toy_sender := toy_rich 1000000 ]}.

Definition toy_node (h : EVMHost) : State (V := SafeCell Z) (DBI := ref_db) :=
  mkState h ∅ false toy_manager toy_rdpos toy_chain.

Definition toy_transaction (to data : list Z) (value : Z) : TxBlock :=
  mkTxBlock to toy_sender data 8080 0 value 1 1 21000 0 0 0 (toy_word 8).

Definition toy_process (to data : list Z) (value : Z) :=
  @processTransaction (SafeCell Z) Z cell_SafeVariable ref_db toy_secp boost_ref toy_hash toy_evm residue_ref toy_types
    order_ref toy_owner 8080 (toy_transaction to data value) (toy_word 7) 8 zero_address 2000 100000000 0
    (toy_node toy_accounts).

Lemma toy_accounts_settled : settled toy_accounts.
Proof. apply settled_intro; by_compute. Qed.

Lemma toy_funded to data value : 0 ≤ value ≤ 900000 → funded (toy_transaction to data value) toy_accounts.
Proof.
  intros Hv. assert (Hb : balance_at toy_accounts (from_ (toy_transaction to data value)) = 1000000) by by vm_compute.
  constructor; rewrite ?Hb; unfold toy_transaction; cbn; try lia. by vm_compute.
Qed.

Lemma toy_accounts_supply : supply_ok (balance_at toy_accounts).
Proof.
  assert (Ht : typed toy_accounts) by by_compute.
  assert (Hn : ∀ a, 0 ≤ balance_at toy_accounts a) by (intros a; apply (typed_at _ a Ht)).
  split; [done|]. intros l Hl.
  transitivity (total (balance_at toy_accounts) (map_to_list (accounts toy_accounts)).*1); [|by vm_compute].
  apply total_support; [done| |done]. intros a Ha. unfold balance_at, account_at.
  destruct (accounts toy_accounts !! a) as [acc|] eqn:E; [|done]. exfalso. apply Ha, list_elem_of_fmap.
  exists (a, acc). split; [done|]. by apply elem_of_map_to_list.
Qed.

(** The call of the reverting contract: the value comes back and the gas is paid. *)
Abbreviation toy_run to := (@tx_run (SafeCell Z) ref_db toy_secp boost_ref toy_hash toy_evm 8080 (toy_transaction to [] 10)
  8 zero_address 2000 100000000 (toy_node toy_accounts)).

Lemma evm_transaction_accounting_witness :
  balance_at (evmHost_ (toy_process (toy_addr 1) [] 10).2) toy_sender = 986000 ∧
  (toy_process (toy_addr 1) [] 10).1 = Ok tt ∧
  @tx_outcome (SafeCell Z) ref_db toy_hash (toy_transaction (toy_addr 1) [] 10) (toy_node toy_accounts) false 14000 []
    (toy_process (toy_addr 1) [] 10).2.
Proof.
  split; [by vm_compute|].
  assert (H : let vm := toy_run (toy_addr 1) in
    let used := match vm.1 with
                | Ok res => if gas_sane (toy_transaction (toy_addr 1) [] 10) (gas_left res) then 21000 - gas_left res else 0
                | Throw _ => 0
                end in
    let ok := match vm.1 with
              | Ok res => gas_sane (toy_transaction (toy_addr 1) [] 10) (gas_left res) && (status_code res =? 0) && negb (shouldRevert vm.2)
              | Throw _ => false
              end in
    ok = false ∧ used = 14000 ∧ (toy_process (toy_addr 1) [] 10).1 = Ok tt ∧
    @tx_outcome (SafeCell Z) ref_db toy_hash (toy_transaction (toy_addr 1) [] 10) (toy_node toy_accounts) ok (used * 1)
      (if ok then imap (sdk_event (toy_transaction (toy_addr 1) [] 10) 0 (toy_word 7) 8) (emittedEvents vm.2) else [])
      (toy_process (toy_addr 1) [] 10).2 ∧ (ok = true → same_evm vm.2 (evmHost_ (toy_process (toy_addr 1) [] 10).2))).
  { split; [by vm_compute|]. split; [by vm_compute|].
  apply (@evm_transaction_accounting (SafeCell Z) Z cell_SafeVariable ref_db toy_secp boost_ref toy_hash toy_evm residue_ref
    toy_types order_ref toy_owner 8080 (toy_word 7) 8 zero_address 2000 100000000 0
    (toy_transaction (toy_addr 1) [] 10) (toy_node toy_accounts) (toy_process (toy_addr 1) [] 10).1).
  - apply toy_accounts_settled.
  - by_compute.
  - by vm_compute.
  - by apply toy_funded.
  - by vm_compute.
  - by vm_compute.
  - done.
  - exact (surjective_pairing _).
  - by vm_compute. }
  cbn zeta in H. destruct H as (Hok & Hu & Hr & Ho & _). rewrite Hok, Hu in Ho. exact (conj Hr Ho).
Defined.

Lemma transfer_accounting_witness :
  balance_at (evmHost_ (toy_process (toy_addr 7) [] 10).2) (toy_addr 7) = 10 ∧
  ∃ s', toy_process (toy_addr 7) [] 10 = (Ok tt, s') ∧
    @tx_outcome (SafeCell Z) ref_db toy_hash (toy_transaction (toy_addr 7) [] 10) (toy_node toy_accounts) true 21000 [] s'.
Proof.
  split; [by vm_compute|].
  apply (@transfer_accounting (SafeCell Z) Z cell_SafeVariable ref_db toy_secp boost_ref toy_hash toy_evm residue_ref
    toy_types order_ref toy_owner 8080 (toy_word 7) 8 zero_address 2000 100000000 0
    (toy_transaction (toy_addr 7) [] 10) (toy_node toy_accounts)).
  - apply toy_accounts_settled.
  - by_compute.
  - by vm_compute.
  - by vm_compute.
  - by apply toy_funded.
  - intros _. by vm_compute.
Defined.

(** The contract sends one token back to its caller. *)
Lemma contract_call_conserves_witness :
  let s' := (toy_process toy_contract_address toy_functor 10).2 in
  balance_at (evmHost_ s') toy_contract_address = 109 ∧ balance_at (evmHost_ s') toy_sender = 978991 ∧
  ∃ s', toy_process toy_contract_address toy_functor 10 = (Ok tt, s') ∧ settled (evmHost_ s') ∧
    processingPayable_ s' = false ∧ quiet (contractManager_ s') ∧
    (∀ a, nonce_at (evmHost_ s') a = if decide (a = toy_sender) then (nonce_at toy_accounts a + 1) mod 2 ^ 64 else nonce_at toy_accounts a) ∧
    ∀ l, NoDup l → (∀ a, is_Some (accounts (evmHost_ s') !! a) → a ∈ l) →
      total (balance_at (evmHost_ s')) l = total (balance_at toy_accounts) l - 21000.
Proof.
  split; [by vm_compute|]. split; [by vm_compute|].
  apply (@contract_call_conserves (SafeCell Z) Z cell_SafeVariable ref_db toy_secp boost_ref toy_hash toy_evm residue_ref
    toy_types order_ref cell_laws toy_owner 8080 (toy_word 7) 8 zero_address 2000 100000000 0
    (toy_transaction toy_contract_address toy_functor 10) (toy_node toy_accounts)).
  - apply toy_accounts_settled.
  - by_compute.
  - by vm_compute.
  - by vm_compute.
  - done.
  - apply toy_manager_quiet.
  - apply toy_types_honest.
  - by apply toy_funded.
  - done.
  - apply toy_accounts_supply.
  - by vm_compute.
Defined.

(** The payable function throws: the sender pays 21000 and receives 50000. *)
Lemma failed_contract_call_mints_witness :
  let s' := (toy_process toy_contract_address (toy_functor ++ [1]) 50000).2 in
  balance_at (evmHost_ s') toy_sender = 1000000 - 21000 + 50000 ∧
  balance_at (evmHost_ s') toy_contract_address = 100 ∧
  ∃ s', toy_process toy_contract_address (toy_functor ++ [1]) 50000 = (Ok tt, s') ∧ settled (evmHost_ s') ∧
    quiet (contractManager_ s') ∧ callLogger_ (contractManager_ s') = None ∧ same_world toy_manager (contractManager_ s') ∧ processingPayable_ s' = false ∧
    (∀ a, nonce_at (evmHost_ s') a = if decide (a = toy_sender) then (nonce_at toy_accounts a + 1) mod 2 ^ 64 else nonce_at toy_accounts a) ∧
    ∀ a, balance_at (evmHost_ s') a = balance_at toy_accounts a - paid a toy_sender 21000 + paid a toy_sender 50000.
Proof.
  split; [by vm_compute|]. split; [by vm_compute|].
  apply (@failed_contract_call_mints (SafeCell Z) Z cell_SafeVariable ref_db toy_secp boost_ref toy_hash toy_evm residue_ref
    toy_types order_ref cell_laws toy_owner 8080 (toy_word 7) 8 zero_address 2000 100000000 0
    (toy_transaction toy_contract_address (toy_functor ++ [1]) 50000) (toy_node toy_accounts) (failed "what")).
  - apply toy_accounts_settled.
  - by_compute.
  - by vm_compute.
  - by vm_compute.
  - done.
  - apply toy_manager_quiet.
  - apply toy_types_honest.
  - by apply toy_funded.
  - done.
  - by vm_compute.
  - by vm_compute.
  - by vm_compute.
  - by vm_compute.
  - done.
Defined.

Lemma processTransaction_typed_witness :
  typed toy_accounts ∧ typed (evmHost_ (toy_process toy_contract_address toy_functor 10).2).
Proof.
  split; [by_compute|].
  apply (@processTransaction_typed (SafeCell Z) Z cell_SafeVariable ref_db toy_secp boost_ref toy_hash toy_evm residue_ref
    toy_types order_ref toy_owner 8080 (toy_word 7) 8 zero_address 2000 100000000 0
    (toy_transaction toy_contract_address toy_functor 10) (toy_node toy_accounts)).
  - done.
  - apply toy_manager_quiet.
  - by_compute.
Defined.
