(* ===== verification/NativeWrapper.v ===== *)
(** * NativeWrapper: tokens for native coins (src/contract/templates/nativewrapper.{h,cpp})

    The contract is an [ERC20] with two payable functions: [deposit] mints what the call pays, [withdraw]
    burns and sends the coins back.  Its promise is that the coins it holds cover its supply. *)

From S2P Require Import Prelude Bytes SizedInts Hashing ECDSA SafeBase SafeCell SafeString SafeUint SafeMap Tx TxValidator Randomness Block RdPoS Abi DB Hex Event Storage EvmHost ContractManager ContractVars ERC20 State StateTx.

Section wrapper.
Context {BB : BoostBits} {KC : Keccak} {BR : BoostResidue}.
Abbreviation code := (code (V := contract_var)).

Section functions.
Variables (n : nat) (self : list Z).

(** [DynamicContract::sendTokens]. *)
Definition send_tokens {B} (to : list Z) (amount : Z) (k : code B) : code B :=
  CSendTokens self to amount (λ r, match r with Ok _ => k | Throw e => CThrow e end).

Definition native_deposit : code (list abi_val) :=
  CLocals self (λ l, mintValue_ n (caller_ l) (loc_value_ l) (CRet [])).
Definition native_withdraw (value : Z) : code (list abi_val) :=
  CLocals self (λ l, burnValue_ n (caller_ l) value (send_tokens (caller_ l) value (CRet []))).

Definition args_uint (f : Z → code (list abi_val)) (vs : list abi_val) : code (list abi_val) :=
  match vs with [VInt x] => f x | _ => CThrow Undefined end.

Definition native_registerContractFunctions (c : DynamicContract (V := contract_var)) : DynamicContract (V := contract_var) :=
  let c := registerMemberFunction "deposit" [] [] (args0 native_deposit) Payable c in
  registerMemberFunction "withdraw" [TUint 256] [] (args_uint native_withdraw) Payable c.

(** The constructor of the base class registers the functions of [ERC20], this one adds its own. *)
Definition native_contract : DynamicContract (V := contract_var) :=
  native_registerContractFunctions (erc20_contract n self "NativeWrapper").
End functions.

(** The supply of a new wrapper is 0. *)
Definition native_construct (erc20_name erc20_symbol : list Z) (erc20_decimals : Z) (creator address : list Z) (n : nat) :
    result (list contract_var * DynamicContract) :=
  '(vs, _) ← erc20_construct "NativeWrapper" erc20_name erc20_symbol erc20_decimals 0 creator address n;
  Ok (vs, native_contract n address).

Definition native_template : ContractTemplate (V := contract_var) :=
  mkTemplate [TString; TString; TUint 8] (λ args creator address _ n,
    match args with
    | [VBytes name; VBytes symbol; VInt decimals] => native_construct name symbol decimals creator address n
    | _ => Throw Undefined
    end).
End wrapper.

(** ** What the wrapper promises *)

Definition mint_token (a : list Z) (v : Z) (t : token) : option token :=
  if supply t + v <=? umax 256
  then Some (mkToken (supply t + v) (<[a := balance t a + v]> (balances t)) (allowances t)) else None.
Definition burn_token (a : list Z) (v : Z) (t : token) : option token :=
  if v <=? balance t a
  then Some (mkToken (supply t - v) (<[a := balance t a - v]> (balances t)) (allowances t)) else None.

Lemma mint_ok a v t t' : token_ok t → 0 ≤ v → mint_token a v t = Some t' → token_ok t' ∧ supply t' = supply t + v.
Proof.
  intros Hok Hv. unfold mint_token. destruct (Z.leb_spec (supply t + v) (umax 256)) as [Hle|]; [|done]. intros [= <-].
  assert (Hb := balance_range t a Hok). destruct Hok as (Hs & Hm & Hc). split; [|done]. split; [unfold in_uint, umax in *; cbn; lia|].
  cbn [supply balances]. split; [apply map_Forall_insert_2; [lia|done]|]. rewrite circulation_insert. fold (balance t a). lia.
Qed.

Lemma burn_ok a v t t' : token_ok t → 0 ≤ v → burn_token a v t = Some t' → token_ok t' ∧ supply t' = supply t - v ∧ v ≤ supply t.
Proof.
  intros Hok Hv. unfold burn_token. destruct (Z.leb_spec v (balance t a)) as [Hle|]; [|done]. intros [= <-].
  assert (Hb := balance_range t a Hok). destruct Hok as (Hs & Hm & Hc). split; [|by split; [|lia]].
  split; [unfold in_uint, umax in *; cbn; lia|].
  cbn [supply balances]. split; [apply map_Forall_insert_2; [lia|done]|]. rewrite circulation_insert. fold (balance t a). lia.
Qed.

(** ** The statements *)

Section statements.
Context {BB : BoostBits} {KC : Keccak} {BR : BoostResidue} {CT : ContractTypes (V := contract_var)}.
Variables (bal : list Z → Z) (chainOwner : list Z) (chainId : Z) (n : nat).
Implicit Types (s : ContractManager (V := contract_var)) (t : token).
Abbreviation run := (exec bal chainOwner chainId).
Abbreviation to_step := (step_to bal chainOwner chainId n).

Lemma step_mint {B} s t a v (k : code B) :
  holds n s t → token_ok t → 0 ≤ v → to_step s (mintValue_ n a v k) k (mint_token a v t).
Proof.
  intros Ht Hok Hv. assert (Hb := balance_range t a Hok). destruct Hok as (Hs & _ & _). unfold mintValue_, mint_token.
  set (k1 := use (v_totalSupply n) _ _). assert (H := step_add bal chainOwner chainId n s t a v k1 Ht).
  destruct (Z.leb_spec (balance t a + v) (umax 256)) as [Hle|Hgt].
  - eapply step_trans; [exact H|]. intros s1 H1.
    assert (H2 := step_supply bal chainOwner chainId n s1 _ (λ x, _ ← throw_if (umax 256 - v <? x) OverflowError; ustore 256 (x + v)) k H1).
    cbv beta in H2. cbn [supply set_balance_of balances allowances] in H2. unfold throw_if in H2.
    destruct (Z.leb_spec (supply t + v) (umax 256)) as [Hl2|Hg2].
    + rewrite (proj2 (Z.ltb_ge (umax 256 - v) (supply t))), result_bind_Ok, ustore_in in H2 by (unfold in_uint, umax in *; lia).
      by apply H2.
    + rewrite (proj2 (Z.ltb_lt (umax 256 - v) (supply t))) in H2 by lia. by apply H2.
  - rewrite (proj2 (Z.leb_gt (supply t + v) (umax 256))) by lia. destruct H as (s1 & ? & ? & ?). by exists s1.
Qed.

Lemma step_burn {B} s t a v (k : code B) :
  holds n s t → token_ok t → 0 ≤ v → to_step s (burnValue_ n a v k) k (burn_token a v t).
Proof.
  intros Ht Hok Hv. assert (Hb := balance_range t a Hok). destruct Hok as (Hs & _ & _). unfold burnValue_, burn_token.
  set (k1 := use (v_totalSupply n) _ _). assert (H := step_sub bal chainOwner chainId n s t a v k1 Ht).
  destruct (Z.leb_spec v (balance t a)) as [Hle|Hgt]; [|destruct H as (s1 & ? & ? & ?); by exists s1].
  eapply step_trans; [exact H|]. intros s1 H1.
  assert (H2 := step_supply bal chainOwner chainId n s1 _ (λ x, _ ← throw_if (x <? v) UnderflowError; ustore 256 (x - v)) k H1).
  cbv beta in H2. cbn [supply set_balance_of balances allowances] in H2. unfold throw_if in H2.
  rewrite (proj2 (Z.ltb_ge (supply t) v)), result_bind_Ok, ustore_in in H2 by (unfold in_uint, umax in *; lia). by apply H2.
Qed.

(** The books of a call after a payment from one address to another. *)
Definition books_after (from to : list Z) (v : Z) (m : gmap (list Z) Z) : Prop :=
  ∀ a, default (bal a) (m !! a) = bal a - paid a from v + paid a to v.

Lemma sendTokens_first s from to v :
  callLogger_ s = Some ∅ → from ≠ to → 0 ≤ v ≤ bal from →
  ∃ r m, sendTokens bal from to v s = (r, with_logger s (Some m)) ∧ r ≠ Throw Undefined ∧
    (r = Ok tt → books_after from to v m).
Proof.
  intros Hl Hne Hv. unfold sendTokens, populateBalance, addBalance, subBalance, with_balances, set_balances, mmodify, mlift.
  unfold mbind'. rewrite Hl. rewrite lookup_empty. cbn [callLogger_ with_logger].
  rewrite lookup_insert_ne, lookup_empty by done. cbn [callLogger_ with_logger]. unfold balanceAt.
  rewrite lookup_insert_ne, lookup_insert_eq by done. cbn [default from_option id].
  rewrite (proj2 (Z.ltb_ge (bal from) v)) by lia. cbn [callLogger_ with_logger]. unfold balanceAt.
  rewrite lookup_insert_ne, lookup_insert_eq by done. unfold checked_sub at 1. cbn [default from_option id].
  rewrite (proj2 (Z.leb_le v (bal from))) by lia. cbv beta iota. cbn [callLogger_ with_logger].
  assert (Hto : (<[from := bal from - v]> (<[to := bal to]> (<[from := bal from]> ∅)) : gmap (list Z) Z) !! to = Some (bal to))
    by (rewrite lookup_insert_ne by done; by rewrite lookup_insert_eq).
  rewrite Hto. cbn [default from_option id]. unfold checked_add. destruct (Z.leb_spec (bal to + v) (umax 256)) as [Ho|Ho];
    cbv beta iota; eexists _, _; (split; [reflexivity|]); (split; [done|]); [intros _ a|done].
  unfold paid. destruct (decide (from = a)) as [<-|Hf]; [|destruct (decide (to = a)) as [<-|Ht]].
  - rewrite lookup_insert_ne by done. rewrite lookup_insert_eq. cbn. repeat case_decide; congruence || lia.
  - rewrite lookup_insert_eq. cbn. repeat case_decide; congruence || lia.
  - rewrite !lookup_insert_ne, lookup_empty by done. cbn. repeat case_decide; congruence || lia.
Qed.

(** The two payable functions, from the start of the call. *)
Inductive wrapper_call := Deposit | Withdraw (value : Z).

Definition wrapper_code (self : list Z) (c : wrapper_call) : code (V := contract_var) (list abi_val) :=
  match c with Deposit => native_deposit n self | Withdraw value => native_withdraw n self value end.

(** What they do to the token, and the coins they send back. *)
Definition wrapper_step (caller : list Z) (paid_in : Z) (c : wrapper_call) (t : token) : option token :=
  match c with Deposit => mint_token caller paid_in t | Withdraw value => burn_token caller value t end.
Definition paid_out (c : wrapper_call) : Z := match c with Deposit => 0 | Withdraw value => value end.

Lemma books_after_none from to : books_after from to 0 ∅.
Proof. intros a. rewrite lookup_empty. unfold paid. cbn. repeat case_decide; lia. Qed.

Lemma wrapper_run s self c t :
  holds n s t → token_ok t → callLogger_ s = Some ∅ → 0 ≤ loc_value_ (locals_of s self) → 0 ≤ paid_out c →
  caller_ (locals_of s self) ≠ self → supply t ≤ bal self →
  ∃ r s2 m, run (wrapper_code self c) s = (r, s2) ∧ r ≠ Throw Undefined ∧ only_books s s2 ∧ only_token n (reads s) (reads s2) ∧
    callLogger_ s2 = Some m ∧ (is_ok r = true → ∃ t', wrapper_step (caller_ (locals_of s self)) (loc_value_ (locals_of s self)) c t = Some t' ∧
      token_at n (reads s2) = Some t' ∧ books_after self (caller_ (locals_of s self)) (paid_out c) m).
Proof.
  intros Ht Hok Hl Hv Hp Hne Hsup. set (caller := caller_ (locals_of s self)) in *. set (v := loc_value_ (locals_of s self)) in *.
  assert (Hvars : ∀ s1, only_vars s s1 → callLogger_ s1 = Some ∅) by (intros s1 [-> _]; done).
  assert (Hbooks : ∀ s1, only_vars s s1 → only_books s s1) by (intros s1 Hs1; apply only_vars_books; [by eexists|done]).
  destruct c as [|value]; cbn [wrapper_code wrapper_step paid_out] in *.
  - destruct (step_mint s t caller v (CRet ([] : list abi_val)) Ht Hok Hv) as (s1 & H1 & H2 & H3).
    assert (Hrun : run (native_deposit n self) s = run (mintValue_ n caller v (CRet [])) s) by done. rewrite Hrun.
    destruct (mint_token caller v t) as [t'|].
    + destruct H3 as [[_ H3] ->]. exists (Ok ([] : list abi_val)), s1, ∅. split_and!; auto. intros _. exists t'. split_and!; try done. apply books_after_none.
    + destruct H3 as (e & He & ->). exists (Throw e), s1, ∅. split_and!; auto; [by intros [= ->]|done].
  - destruct (step_burn s t caller value (send_tokens self caller value (CRet ([] : list abi_val))) Ht Hok Hp) as (s1 & H1 & H2 & H3).
    assert (Hrun : run (native_withdraw n self value) s = run (burnValue_ n caller value (send_tokens self caller value (CRet []))) s) by done.
    rewrite Hrun. destruct (burn_token caller value t) as [t'|] eqn:Eb.
    2:{ destruct H3 as (e & He & ->). exists (Throw e), s1, ∅. split_and!; auto; [by intros [= ->]|done]. }
    destruct H3 as [[_ H3] ->]. destruct (burn_ok _ _ _ _ Hok Hp Eb) as (_ & _ & Hle).
    destruct (sendTokens_first s1 self caller value (Hvars _ H1)) as (r & m & Hs & Hu & Hm); [done|lia|].
    assert (Hrs : run (send_tokens self caller value (CRet ([] : list abi_val))) s1 =
      match r with Ok _ => (Ok ([] : list abi_val), with_logger s1 (Some m)) | Throw e => (Throw e, with_logger s1 (Some m)) end).
    { cbn [exec send_tokens]. unfold mtry. rewrite Hs. destruct r as [[]|[]]; done. }
    exists (match r with Ok _ => Ok [] | Throw e => Throw e end), (with_logger s1 (Some m)), m. rewrite Hrs.
    split; [by destruct r|]. split; [by destruct r as [|[]]|]. split.
    { destruct (Hbooks _ H1) as [Hb _]. split; [|by eexists]. cbn [call_ with_logger callLogger_]. by rewrite Hb. }
    split; [done|]. split; [done|]. destruct r as [[]|]; [|done]. intros _. exists t'. split_and!; try done. by apply Hm.
Qed.
End statements.

(** ** Calls of the wrapper by transactions *)

Section calls.
Context {BB : BoostBits} {KC : Keccak} {BR : BoostResidue} {CT : ContractTypes (V := contract_var)} {HO : HashOrder}.
Variables (chainOwner : list Z) (chainId : Z).
Implicit Types (s : ContractManager (V := contract_var)) (t : token) (h : EVMHost).

Lemma native_payable n self :
  payableFunctions_ (native_contract n self) =
  <[functor_encode "withdraw" [TUint 256] := registered [TUint 256] (args_uint (native_withdraw n self))]>
  (<[functor_encode "deposit" [] := registered [] (args0 (native_deposit n self))]> ∅).
Proof. reflexivity. Qed.

Lemma native_public n self : publicFunctions_ (native_contract n self) = publicFunctions_ (erc20_contract n self "NativeWrapper").
Proof. reflexivity. Qed.

(** A payable function is one of the two, on arguments of its types, or fails to decode. *)
Lemma native_function n self f g ci :
  payableFunctions_ (native_contract n self) !! f = Some g →
  (∃ c, 0 ≤ paid_out c ∧ g ci = code_bind (wrapper_code n self c) (λ _, CRet tt)) ∨ ∃ e, g ci = CThrow e.
Proof.
  rewrite native_payable. intros [[_ <-]|[_ [[_ <-]|[_ H]]%lookup_insert_Some]]%lookup_insert_Some.
  - unfold registered, decodeData. cbn [decode_seq].
    destruct (decode (TUint 256) (ci_data ci) 0) as [[v i]|e] eqn:E; [left|right; by exists e].
    apply decode_uint_shape in E as (z & -> & Hz). exists (Withdraw z). split; [by destruct Hz|done].
  - left. by exists Deposit.
  - by rewrite lookup_empty in H.
Qed.

(** What a call leaves of the manager and of the accounts. *)
Definition wrapper_left n self s h (r : result unit) s' h' : Prop :=
  quiet s' ∧ callLogger_ s' = None ∧ contracts_ s' = contracts_ s ∧ same_but_balance h h' ∧
  match r with
  | Ok _ => ∃ t', token_at n (reads s') = Some t' ∧ token_ok t' ∧ supply t' ≤ balance_at h' self
  | Throw _ => reads s' = reads s ∧ h' = h
  end.

Lemma payout_books (st : EVMHost * bool) from to v m :
  books_after (balance_of st) from to v m →
  ∀ a, balance_at (payout st.1 (in_order m)) a = balance_at st.1 a - paid a from v + paid a to v.
Proof.
  intros Hm a. assert (Hperm := in_order_perm m).
  assert (Hnd : NoDup (in_order m).*1) by (rewrite Hperm; apply NoDup_fst_map_to_list).
  rewrite payout_balance, (list_to_map_proper (in_order m) (map_to_list m)), list_to_map_to_list by done.
  specialize (Hm a). destruct st as [h b]. rewrite balance_of_at in Hm. exact Hm.
Qed.

#[local] Opaque native_contract.

Section one.
Variables (n : nat) (tx : TxBlock) (txIndex : Z) (s : ContractManager (V := contract_var)) (h : EVMHost) (flag : bool) (t : token).
Abbreviation self := (to_ tx).
Abbreviation wrapper := (native_contract n (to_ tx)).
Hypothesis HT : honest_types.
Hypothesis Hq : quiet s.
Hypothesis Hp : self ∉ ProtocolContractAddresses.
Hypothesis Hc : contracts_ s !! self = Some wrapper.
Hypothesis Ht : token_at n (reads s) = Some t.
Hypothesis Hok : token_ok t.
Hypothesis Hv : 0 ≤ value_ tx.
Hypothesis Hne : from_ tx ≠ self.
(** The coins cover the supply, and the payment of the transaction has been made. *)
Hypothesis Hcover : supply t + value_ tx ≤ balance_at h self.

Lemma called_reads : reads (called tx s) = reads s.
Proof. unfold reads. by rewrite called_call. Qed.

Lemma called_holds : holds n (called tx s) t.
Proof. split; [by eexists|by rewrite called_reads]. Qed.

(** A call that throws before or in its code, [c] being the class. *)
Lemma wrapper_throws e s2 :
  called_result chainOwner chainId tx (h, flag) wrapper s = (Throw e, s2) → e ≠ Undefined →
  only_books (called tx s) s2 → length (reads s2) = length (reads s) →
  ∃ s', callContract chainOwner chainId tx txIndex (s, (h, flag)) = (Throw (failed "what"), (s', (h, flag))) ∧ wrapper_left n self s h (Throw e) s' h.
Proof.
  intros Hr He Hb Hlen. assert (Hin := called_in_call _ _ _ _ _ _ _ _ HT Hq Hc Hr).
  destruct (call_end tx txIndex s s2 Hq Hin Hb Hlen) as [_ (F1 & F2 & F3 & F4 & F5)].
  exists (call_failed s2). rewrite (callContract_function _ _ _ _ _ _ _ Hp Hq Hc), Hr. split; [by destruct e|]. by split_and!.
Qed.

(** The functions of the token neither send nor receive coins. *)
Lemma wrapper_token_call tc :
  call_typed tc → isPayableFunction wrapper (ci_functor (txToCallInfo tx)) = false →
  called_result chainOwner chainId tx (h, flag) wrapper s =
    exec (balance_of (h, flag)) chainOwner chainId (code_bind (call_code n self tc) (λ _, CRet tt)) (called tx s) →
  ∃ r s', callContract chainOwner chainId tx txIndex (s, (h, flag)) = (r, (s', (h, flag))) ∧ wrapper_left n self s h r s' h.
Proof.
  intros Htc Hpay Hr. destruct (called_step chainOwner chainId n self tx s (h, flag) t tc Hq eq_refl Ht) as (s2 & H1 & H2 & H3).
  destruct (token_step (from_ tx) tc t) as [t'|] eqn:Es.
  - destruct H3 as [H3 H4]. rewrite H3 in Hr. destruct (token_step_ok _ _ _ _ Hok Htc Es) as [Hok' Hs'].
    destruct (nonpayable_call chainOwner chainId tx txIndex s (h, flag) wrapper (Ok tt) s2) as (s1 & A1 & A2 & A3 & A4 & A5 & A6);
      try done; [apply H2|].
    exists (Ok tt), s1. split; [done|]. split_and!; try done. exists t'. rewrite A6. split_and!; try done. lia.
  - destruct H3 as (e & He & H3). rewrite H3 in Hr.
    destruct (wrapper_throws e s2 Hr He) as (s1 & A1 & A2); [apply only_vars_books; [by eexists|done]|apply H2|]. by exists (Throw (failed "what")), s1.
Qed.

(** The payable functions: what is minted was paid, what is sent back is burnt. *)
Lemma wrapper_coins_call c :
  0 ≤ paid_out c → flag = true → isPayableFunction wrapper (ci_functor (txToCallInfo tx)) = true →
  called_result chainOwner chainId tx (h, flag) wrapper s =
    exec (balance_of (h, flag)) chainOwner chainId (code_bind (wrapper_code n self c) (λ _, CRet tt)) (called tx s) →
  ∃ r s' h', callContract chainOwner chainId tx txIndex (s, (h, flag)) = (r, (s', (h', flag))) ∧ wrapper_left n self s h r s' h'.
Proof.
  intros Hp0 Hflag Hpay Hr. assert (Hloc := called_locals tx s).
  destruct (wrapper_run (balance_of (h, flag)) chainOwner chainId n (called tx s) self c t) as (r & s2 & m & H1 & Hu & H2 & H3 & H4 & H5);
    rewrite ?Hloc; try done; [apply called_holds|rewrite balance_of_at; lia|].
  rewrite Hloc in H5. cbn [caller_ loc_value_] in H5. rewrite exec_code_bind, H1 in Hr. rewrite called_reads in H3.
  destruct r as [vs|e].
  - destruct (H5 eq_refl) as (t' & Es & Ht' & Hm).
    destruct (payable_call chainOwner chainId tx txIndex s (h, flag) wrapper (Ok tt) s2 m (payout h (in_order m), flag)) as (s1 & A1 & A2 & A3 & A4 & A5 & A6);
      try done; [apply H3|cbn; by rewrite Hflag|].
    exists (Ok tt), s1, (payout h (in_order m)). split; [done|]. split_and!; try done; [apply payout_same|]. exists t'. rewrite A6. split; [done|].
    rewrite (payout_books (h, flag) _ _ _ _ Hm). unfold paid. rewrite decide_True by done. rewrite decide_False by done. cbn [fst].
    destruct c as [|v]; cbn [wrapper_step paid_out] in *.
    + destruct (mint_ok _ _ _ _ Hok Hv Es). split; [done|lia].
    + destruct (burn_ok _ _ _ _ Hok Hp0 Es) as (? & ? & ?). split; [done|lia].
  - destruct (wrapper_throws e s2 Hr) as (s1 & A1 & A2); try done; [by intros ->|apply H3|]. by exists (Throw (failed "what")), s1, h.
Qed.

Lemma native_call r s' h' flag' :
  flag = isPayableFunction wrapper (ci_functor (txToCallInfo tx)) →
  callContract chainOwner chainId tx txIndex (s, (h, flag)) = (r, (s', (h', flag'))) → r ≠ Throw Undefined → wrapper_left n self s h r s' h'.
Proof.
  intros Hflag Hrun Hu.
  assert (Hdone : ∀ r0 s0 h0, callContract chainOwner chainId tx txIndex (s, (h, flag)) = (r0, (s0, (h0, flag))) →
    wrapper_left n self s h r0 s0 h0 → wrapper_left n self s h r s' h').
  { intros r0 s0 h0 E Hw. rewrite E in Hrun. by injection Hrun as <- <- <- _. }
  assert (Hthrow : ∀ e, called_result chainOwner chainId tx (h, flag) wrapper s = (Throw e, called tx s) → wrapper_left n self s h r s' h').
  { intros e E. destruct (decide (e = Undefined)) as [->|He].
    - exfalso. apply Hu. rewrite (callContract_function chainOwner chainId tx txIndex s (h, flag) wrapper Hp Hq Hc), E in Hrun. by injection Hrun.
    - destruct (wrapper_throws e (called tx s) E He) as (s1 & A1 & A2); [apply only_vars_books; [by eexists|done]|by rewrite called_reads|].
      by apply (Hdone (Throw (failed "what")) s1 h). }
  assert (Hres : ∀ f, function_of wrapper tx = Some f → called_result chainOwner chainId tx (h, flag) wrapper s =
    exec (balance_of (h, flag)) chainOwner chainId (f (txToCallInfo tx)) (called tx s)) by (intros f Ef; unfold called_result; by rewrite Ef).
  destruct (function_of wrapper tx) as [f|] eqn:Ef; [|apply (Hthrow (failed "no function")); unfold called_result; by rewrite Ef].
  specialize (Hres f eq_refl). unfold function_of in Ef. destruct (isPayableFunction wrapper _) eqn:Epay.
  - destruct (native_function n self _ f (txToCallInfo tx) Ef) as [(c & Hp0 & E)|(e & E)]; rewrite E in Hres; [|by apply (Hthrow e)].
    destruct (wrapper_coins_call c Hp0 Hflag Epay Hres) as (r0 & s0 & h0 & A1 & A2). by eapply Hdone.
  - rewrite native_public in Ef.
    destruct (erc20_function n self "NativeWrapper" _ f (txToCallInfo tx) Ef) as [(tc & Htc & E)|(e & E)]; rewrite E in Hres; [|by apply (Hthrow e)].
    destruct (wrapper_token_call tc Htc Epay Hres) as (r0 & s0 & A1 & A2). by eapply Hdone.
Qed.
End one.
End calls.

(** ** The promise, over transactions *)

Section transactions.
Context {DBI : RocksDB} {LS : LibSecp256k1} {BB : BoostBits} {KC : Keccak} {EVM : EVMC} {BR : BoostResidue}
  {CT : ContractTypes (V := contract_var)} {HO : HashOrder}.
Variables (chainOwner : list Z) (chainId : Z) (blockHash : list Z) (blockHeight : Z) (blockCoinbase : list Z)
  (blockTimestamp blockGasLimit txIndex : Z) (tx : TxBlock).
Abbreviation run s := (processTransaction chainOwner chainId tx blockHash blockHeight blockCoinbase blockTimestamp blockGasLimit txIndex s).
Implicit Types s : State (V := contract_var).

(** The wrapper at [self], whose variables begin at [n], holds at least its supply. *)
Definition wrapper_backed n self s : Prop :=
  ∃ t, contracts_ (contractManager_ s) !! self = Some (native_contract n self) ∧
    token_at n (reads (contractManager_ s)) = Some t ∧ token_ok t ∧ supply t ≤ balance_at (evmHost_ s) self.

Lemma token_at_world n cm cm' t : same_world cm cm' → token_at n (reads cm) = Some t → token_at n (reads cm') = Some t.
Proof.
  intros (_ & _ & Hw) (H1 & H2 & H3)%token_at_inv.
  assert (Hl : ∀ i x, reads cm !! i = Some x → reads cm' !! i = Some x).
  { intros i x Hx. unfold reads in *. rewrite <- Hw, lookup_take_Some in Hx. by destruct Hx. }
  destruct t. by apply token_at_intro; apply Hl.
Qed.

(** C16: The coins of a wrapper cover its tokens, whoever calls it. A transaction to the wrapper, with any data
    and any value, that the chain's coins can pay, is processed, and afterwards the wrapper's balance is
    still at least its supply: a deposit mints what was paid, a withdrawal burns what is sent back, and a
    call that throws leaves both. *)
Theorem native_wrapper_backed n s :
  settled (evmHost_ s) → is_Some (accounts (evmHost_ s) !! from_ tx) → classic_branch tx (evmHost_ s) →
  processingPayable_ s = false → quiet (contractManager_ s) → honest_types →
  funded tx (evmHost_ s) → from_ tx ≠ to_ tx → to_ tx ∉ ProtocolContractAddresses →
  balance_at (evmHost_ s) (from_ tx) + value_ tx ≤ umax 256 → balance_at (evmHost_ s) (to_ tx) + value_ tx ≤ umax 256 →
  call_result chainOwner chainId tx txIndex s ≠ Throw Undefined → wrapper_backed n (to_ tx) s →
  ∃ s', run s = (Ok tt, s') ∧ processingPayable_ s' = false ∧ quiet (contractManager_ s') ∧
    callLogger_ (contractManager_ s') = None ∧ wrapper_backed n (to_ tx) s'.
Proof.
  intros Hs Hf Hcl Hpp Hq HT Hfd Hne Hp Hfr Hto Hu (t & Hc & Ht & Hok & Hb).
  assert (Hv := fd_value _ _ Hfd). assert (Hsup : 0 ≤ supply t) by (destruct Hok as [[? _] _]; done).
  assert (Hcm : isContractCall (contractManager_ s) tx = true).
  { unfold isContractCall, isContractAddress. rewrite Hc. rewrite (bool_decide_eq_true_2 (is_Some _)) by by eexists. by rewrite !orb_true_r. }
  destruct (call_result chainOwner chainId tx txIndex s) as [[]|e] eqn:Er.
  - unfold call_result in Er. destruct (callContract _ _ _ _ (call_state tx s)) as [r [cm [h flag]]] eqn:Ecall. cbn [fst] in Er. subst r.
    rewrite (contract_call_run chainOwner chainId tx blockHash blockHeight blockCoinbase blockTimestamp blockGasLimit txIndex s cm h flag) by done.
    unfold call_state in Ecall. set (hp := paid_host tx (start_host tx (evmHost_ s))) in *.
    assert (Hcover : supply t + value_ tx ≤ balance_at hp (to_ tx)).
    { unfold hp. rewrite paid_balance, start_balance. unfold paid. rewrite (decide_True (P := to_ tx = to_ tx)) by done.
      rewrite decide_False by congruence. lia. }
    assert (Hflag : isPayable (contractManager_ s) (txToCallInfo tx) = isPayableFunction (native_contract n (to_ tx)) (ci_functor (txToCallInfo tx))).
    { unfold isPayable. change (ci_to (txToCallInfo tx)) with (to_ tx). by rewrite Hc. }
    destruct (native_call chainOwner chainId n tx txIndex _ hp _ t HT Hq Hp Hc Ht Hok Hv Hne Hcover _ _ _ _ Hflag Ecall) as (Q1 & Q2 & Q3 & Q4 & t' & T1 & T2 & T3); [done|].
    assert (Hs1 : settled (access_balance (to_ tx) h)).
    { apply (same_settled (evmHost_ s)); [|done]. transitivity (start_host tx (evmHost_ s)); [apply start_same|].
      transitivity hp; [apply paid_same|]. transitivity h; [done|by apply same_accounts]. }
    eexists. split; [done|]. split; [done|]. split; [done|]. split; [done|]. exists t'. cbn [contractManager_ with_contract_side evmHost_].
    split; [by rewrite Q3|]. split; [done|]. split; [done|]. rewrite balance_at_end, (balance_at_accounts h); [done|].
    by destruct (commit_settled _ Hs1) as (_ & -> & _).
  - destruct (failed_call_effects chainOwner chainId tx blockHash blockHeight blockCoinbase blockTimestamp blockGasLimit txIndex s e)
      as (s' & E & _ & Hq' & Hl' & Hw & Hpp' & _ & Hbal); try done; [lia|by intros ->|].
    exists s'. split; [done|]. split; [done|]. split; [done|]. split; [done|]. exists t.
    split; [by rewrite (proj1 Hw)|]. split; [by eapply token_at_world|]. split; [done|].
    rewrite Hbal. assert (Hg := fd_gas _ _ Hfd). unfold paid. rewrite (decide_False (P := to_ tx = from_ tx)) by congruence.
    repeat case_decide; lia.
Qed.
End transactions.

(** ** The class *)

Section class.
Context {BB : BoostBits} {KC : Keccak} {BR : BoostResidue}.

#[local] Hint Resolve honest_on_uint honest_on_map honest_modify honest_update : code.

Lemma native_deposit_honest n self : honest_code (native_deposit n self).
Proof. intros l. repeat (apply honest_use; [eauto with code|intros ?]). done. Qed.

Lemma native_withdraw_honest n self v : 0 ≤ v → honest_code (native_withdraw n self v).
Proof.
  intros Hv l. repeat (apply honest_use; [eauto with code|intros ?]). split; [done|]. by intros [|].
Qed.

Lemma native_contract_honest n self : honest_contract (native_contract n self).
Proof.
  unfold native_contract, native_registerContractFunctions. 
  apply (registerMemberFunction_honest "withdraw"); [|apply (registerMemberFunction_honest "deposit"); [|apply erc20_contract_honest]].
  - intros data vs Hd. unfold decodeData in Hd. cbn [decode_seq] in Hd.
    destruct (decode (TUint 256) data 0) as [[v i]|] eqn:E; [|done]. apply decode_uint_shape in E as (z & -> & Hz).
    injection Hd as <-. apply native_withdraw_honest. by destruct Hz.
  - intros data vs _. destruct vs; [apply native_deposit_honest|done].
Qed.

Lemma native_types_honest f : @honest_types _ _ _ {| createContractFuncs_ := {[ f := native_template ]} |}.
Proof.
  intros g t args creator derived chainId n vs c Ht. cbn in Ht. apply lookup_singleton_Some in Ht as [<- <-].
  cbn [ct_construct native_template]. intros Hc. repeat (case_match; try done). unfold native_construct in Hc.
  apply result_bind_ok in Hc as ([vs' c'] & Hc & [= <- <-]). apply erc20_construct_spec in Hc as (_ & Hi & _).
  split; [done|]. apply native_contract_honest.
Qed.
End class.

(** ** A node with a wrapper *)

Definition toy_wrapper_types : ContractTypes (V := contract_var) :=
  {| createContractFuncs_ := {[ [0; 0; 0; 2] := @native_template boost_ref toy_hash residue_ref ]} |}.

Definition toy_wrapper_vars : list contract_var :=
  ready_vars (SafeString_owned [87]) (SafeString_owned [87]) (SafeUint_owned 18) (SafeUint_owned 100)
    (SafeMap_owned {[ toy_sender := 100 ]}) (SafeMap_owned ∅).

Definition toy_wrapper_manager : ContractManager (V := contract_var) :=
  mkManager {[ toy_contract_address := @native_contract boost_ref toy_hash residue_ref 0 toy_contract_address ]} ∅
    (call_start toy_wrapper_vars) None [] (mkEventManager [] []) (mkGlobals zero_address zero_hash 1 2 zero_hash).

Definition toy_wrapper_node : State (V := contract_var) (DBI := ref_db) :=
  mkState toy_accounts ∅ false toy_wrapper_manager (rdpos_ (toy_node toy_accounts)) (storage_ (toy_node toy_accounts)).

Definition toy_withdraw : list Z :=
  @functor_encode toy_hash "withdraw" [TUint 256] ++ @encodeData boost_ref [TUint 256] [VInt 40].

Definition toy_wrapper_run : result unit * State (V := contract_var) (DBI := ref_db) :=
  @processTransaction contract_var contract_value contract_variable ref_db toy_secp boost_ref toy_hash toy_evm residue_ref
    toy_wrapper_types order_ref toy_owner 8080 (toy_transaction toy_contract_address toy_withdraw 0) (toy_word 7) 8 zero_address 2000 100000000 0
    toy_wrapper_node.

Lemma toy_wrapper_quiet : quiet toy_wrapper_manager.
Proof.
  constructor; try done.
  - cbn. unfold toy_wrapper_vars. by apply ready_vars_idle.
  - intros a c Hc. unfold toy_wrapper_manager in Hc. cbn [contracts_] in Hc. apply lookup_singleton_Some in Hc as [<- <-]. apply native_contract_honest.
Qed.

Lemma toy_wrapper_backed : @wrapper_backed ref_db boost_ref toy_hash residue_ref 0 toy_contract_address toy_wrapper_node.
Proof.
  exists (mkToken 100 {[ toy_sender := 100 ]} ∅). split; [unfold toy_wrapper_node, toy_wrapper_manager; cbn [contractManager_ contracts_]; apply lookup_singleton_eq|].
  split; [by vm_compute|]. split; [by_compute|by vm_compute].
Qed.

(** The sender withdraws 40 of its 100 tokens. *)
Lemma native_wrapper_backed_witness :
  balance_at (evmHost_ toy_wrapper_run.2) toy_contract_address = 60 ∧
  balance_at (evmHost_ toy_wrapper_run.2) toy_sender = 1000000 - 21000 + 40 ∧
  ∃ s', toy_wrapper_run = (Ok tt, s') ∧ processingPayable_ s' = false ∧ quiet (contractManager_ s') ∧
    callLogger_ (contractManager_ s') = None ∧ @wrapper_backed ref_db boost_ref toy_hash residue_ref 0 toy_contract_address s'.
Proof.
  split; [by vm_compute|]. split; [by vm_compute|].
  apply (@native_wrapper_backed ref_db toy_secp boost_ref toy_hash toy_evm residue_ref toy_wrapper_types order_ref
    toy_owner 8080 (toy_word 7) 8 zero_address 2000 100000000 0 (toy_transaction toy_contract_address toy_withdraw 0) 0 toy_wrapper_node).
  - apply toy_accounts_settled.
  - by_compute.
  - by vm_compute.
  - done.
  - apply toy_wrapper_quiet.
  - apply native_types_honest.
  - by apply toy_funded.
  - done.
  - by_compute.
  - by vm_compute.
  - by vm_compute.
  - by vm_compute.
  - apply toy_wrapper_backed.
Defined.
