(* ===== verification/DexRouter.v ===== *)
(** * DexRouter: the router of the exchange (src/contract/templates/dexv2/dexv2router02.{h,cpp})

    Its functions are [code] that calls the factory, the pairs, the tokens and the wrapper of native coins; the walks of
    DexLibrary along a path are here with the views they make.  The theorems are about the amounts: they are those of the library for the
    reserves the pairs hold, and the limits and the deadline of the caller are kept. *)

From S2P Require Import Prelude Bytes SizedInts Hashing SafeBase SafeCell SafeUint SafeVector SafeMap Tx Randomness Abi DB Hex Event EvmHost ContractManager ContractStore ContractVars ContractLogic ERC20 DexLibrary DexPair DexFactory State StateTx NativeWrapper.

Definition router_error (what : string) : exn := DynamicException ("DEXV2Router02::" ++ what).
Definition is_NativeWrapper (name : string) : bool := bool_decide (name = "NativeWrapper"%string).

Section router.
Context {BB : BoostBits} {KC : Keccak} {BR : BoostResidue}.

(** ** The library, on the state *)

Definition view_pairFor (factory tokenA tokenB : list Z) : ccode (list Z) :=
  callContractViewFunction factory is_DEXV2Factory (λ f, getPair f tokenA tokenB).

Definition view_getReserves (factory tokenA tokenB : list Z) : ccode (Z * Z) := (
  pair <~ view_pairFor factory tokenA tokenB;;
  callContractViewFunction pair is_DEXV2Pair pair_getReservess)%code.

Fixpoint view_amounts_out (factory : list Z) (amount : Z) (path : list (list Z)) : ccode (list Z) :=
  match path with
  | a :: rest =>
      match rest with
      | b :: _ => (
          reserves <~ view_getReserves factory a b;;
          next <~ lift_code (getAmountOut amount reserves.1 reserves.2);;
          amounts <~ view_amounts_out factory next rest;;
          CRet (amount :: amounts))%code
      | [] => CRet [amount]
      end
  | [] => CRet [amount]
  end.

(** On the reversed path. *)
Fixpoint view_amounts_in (factory : list Z) (amount : Z) (path : list (list Z)) : ccode (list Z) :=
  match path with
  | b :: rest =>
      match rest with
      | a :: _ => (
          reserves <~ view_getReserves factory a b;;
          previous <~ lift_code (getAmountIn amount reserves.1 reserves.2);;
          amounts <~ view_amounts_in factory previous rest;;
          CRet (amount :: amounts))%code
      | [] => CRet [amount]
      end
  | [] => CRet [amount]
  end.

Definition view_getAmountsOut (factory : list Z) (amountIn : Z) (path : list (list Z)) : ccode (list Z) := (
  code_throw_if (length path <? 2)%nat invalid_path ;;~
  view_amounts_out factory amountIn path)%code.

Definition view_getAmountsIn (factory : list Z) (amountOut : Z) (path : list (list Z)) : ccode (list Z) := (
  code_throw_if (length path <? 2)%nat invalid_path ;;~
  amounts <~ view_amounts_in factory amountOut (reverse path);;
  CRet (reverse amounts))%code.

Section functions.
Variables (n : nat) (self : list Z).

Definition v_rfactory : nat := n.
Definition v_wrappedNative : nat := (n + 1)%nat.

Definition get_caller : ccode (list Z) := CLocals self (λ l, CRet (caller_ l)).
Definition get_value : ccode Z := CLocals self (λ l, CRet (loc_value_ l)).
Definition router_sendTokens (to : list Z) (amount : Z) : ccode unit := send_tokens self to amount (CRet tt).

(** The calls of the tokens and of the wrapper; [deposit] is paid. *)
Definition call_transferFrom (token from to : list Z) (value : Z) : ccode unit :=
  (callContractFunction self token is_ERC20 (λ t, erc20_transferFrom t token from to value) ;;~ CRet tt)%code.
Definition call_transfer (token to : list Z) (value : Z) : ccode unit :=
  (callContractFunction self token is_ERC20 (λ t, erc20_transfer t token to value) ;;~ CRet tt)%code.
Definition call_deposit (value : Z) (wrapper : list Z) : ccode unit :=
  (CLocals self (λ l, CCall (origin_ l) self wrapper value is_NativeWrapper (λ t, native_deposit t wrapper) lift_code) ;;~ CRet tt)%code.
Definition call_withdraw (wrapper : list Z) (value : Z) : ccode unit :=
  (callContractFunction self wrapper is_NativeWrapper (λ t, native_withdraw t wrapper value) ;;~ CRet tt)%code.

Definition ensure (deadline : Z) : ccode unit := (
  g <~ CGlobals CRet;;
  code_throw_if (deadline <? g_blockTimestamp_ g) (router_error "ensure: EXPIRED"))%code.

(** The amounts of [_addLiquidity], for the reserves of the pair. *)
Definition liquidity_amounts (reserveA reserveB amountADesired amountBDesired amountAMin amountBMin : Z) : result (Z * Z) :=
  if (reserveA =? 0) && (reserveB =? 0) then Ok (amountADesired, amountBDesired)
  else
    amountBoptimal ← quote amountADesired reserveA reserveB;
    if amountBoptimal <=? amountBDesired then
      _ ← throw_if (amountBoptimal <? amountBMin) (router_error "_addLiquidity: INSUFFICIENT_B_AMOUNT");
      Ok (amountADesired, amountBoptimal)
    else
      amountAoptimal ← quote amountBDesired reserveB reserveA;
      if amountAoptimal <=? amountADesired then
        _ ← throw_if (amountAoptimal <? amountAMin) (router_error "_addLiquidity: INSUFFICIENT_A_AMOUNT");
        Ok (amountAoptimal, amountBDesired)
      else Throw (router_error "_addLiquidity: INSUFFICIENT_A_AMOUNT").

Definition _addLiquidity (tokenA tokenB : list Z) (amountADesired amountBDesired amountAMin amountBMin : Z) : ccode (Z * Z) := (
  factory <~ get_address v_rfactory;;
  pairAddress <~ view_pairFor factory tokenA tokenB;;
  pairAddress <~ (if address_bool pairAddress then CRet pairAddress
    else
      callContractFunction self factory is_DEXV2Factory (λ f, createPair f factory tokenA tokenB));;
  reserves <~ callContractViewFunction pairAddress is_DEXV2Pair pair_getReservess;;
  lift_code (liquidity_amounts reserves.1 reserves.2 amountADesired amountBDesired amountAMin amountBMin))%code.

(** The loop of [_swap]: [amounts] goes along with [path]; the length of an empty path less one wraps around. *)
Fixpoint _swap (amounts : list Z) (path : list (list Z)) (_to : list Z) : ccode unit :=
  match path with
  | input :: path' =>
      match path' with
      | [] => CRet tt
      | output :: rest => (
          factory <~ get_address v_rfactory;;
          pairAddress <~ view_pairFor factory input output;;
          code_throw_if (negb (address_bool pairAddress)) (router_error "_swap: PAIR_NOT_FOUND") ;;~
          tokens <~ lift_code (sortTokens input output);;
          amountOut <~ lift_code (or_undefined (amounts !! 1%nat));;
          to <~ (match rest with
                 | next :: _ =>
                     factory <~ get_address v_rfactory;;
                     view_pairFor factory output next
                 | [] => CRet _to
                 end);;
          (if decide (input = tokens.1)
           then callContractFunction self pairAddress is_DEXV2Pair (λ p, pair_swap p pairAddress 0 amountOut to)
           else callContractFunction self pairAddress is_DEXV2Pair (λ p, pair_swap p pairAddress amountOut 0 to)) ;;~
          _swap (tail amounts) path' _to)%code
      end
  | [] => CThrow Undefined
  end.

(** The first two tokens of a path and the last one; reading those of a shorter path is undefined. *)
Definition path_front (path : list (list Z)) : ccode (list Z) := lift_code (or_undefined (head path)).
Definition path_second (path : list (list Z)) : ccode (list Z) := lift_code (or_undefined (path !! 1%nat)).
Definition path_back (path : list (list Z)) : ccode (list Z) := lift_code (or_undefined (last path)).

Definition pair_of_path (path : list (list Z)) : ccode (list Z) := (
  factory <~ get_address v_rfactory;;
  a <~ path_front path;;
  b <~ path_second path;;
  view_pairFor factory a b)%code.

(** [amounts.back()] and [amounts.front()], which are there: the path has two tokens. *)
Definition amounts_back (amounts : list Z) : ccode Z := lift_code (or_undefined (last amounts)).
Definition amounts_front (amounts : list Z) : ccode Z := lift_code (or_undefined (head amounts)).

Definition addLiquidity (tokenA tokenB : list Z) (amountADesired amountBDesired amountAMin amountBMin : Z) (to : list Z) (deadline : Z) :
    ccode (Z * Z * Z) := (
  ensure deadline ;;~
  amounts <~ _addLiquidity tokenA tokenB amountADesired amountBDesired amountAMin amountBMin;;
  factory <~ get_address v_rfactory;;
  pair <~ view_pairFor factory tokenA tokenB;;
  caller <~ get_caller;;
  call_transferFrom tokenA caller pair amounts.1 ;;~
  caller <~ get_caller;;
  call_transferFrom tokenB caller pair amounts.2 ;;~
  liquidity <~ callContractFunction self pair is_DEXV2Pair (λ p, pair_mint p pair to);;
  CRet (amounts.1, amounts.2, liquidity))%code.

Definition addLiquidityNative (token : list Z) (amountTokenDesired amountTokenMin amountNativeMin : Z) (to : list Z) (deadline : Z) :
    ccode (Z * Z * Z) := (
  ensure deadline ;;~
  wrapper <~ get_address v_wrappedNative;;
  amounts <~ _addLiquidity token wrapper amountTokenDesired amountNativeMin amountTokenMin amountNativeMin;;
  factory <~ get_address v_rfactory;;
  pair <~ view_pairFor factory token wrapper;;
  caller <~ get_caller;;
  call_transferFrom token caller pair amounts.1 ;;~
  call_deposit amounts.2 wrapper ;;~
  call_transfer wrapper pair amounts.2 ;;~
  liquidity <~ callContractFunction self pair is_DEXV2Pair (λ p, pair_mint p pair to);;
  value <~ get_value;;
  (if amounts.2 <? value then
     caller <~ get_caller;;
     dust <~ lift_code (sub256 value amounts.2);;
     router_sendTokens caller dust
   else CRet tt) ;;~
  CRet (amounts.1, amounts.2, liquidity))%code.

Definition removeLiquidity (tokenA tokenB : list Z) (liquidity amountAMin amountBMin : Z) (to : list Z) (deadline : Z) : ccode (Z * Z) := (
  ensure deadline ;;~
  factory <~ get_address v_rfactory;;
  pair <~ view_pairFor factory tokenA tokenB;;
  caller <~ get_caller;;
  (callContractFunction self pair is_ERC20 (λ t, erc20_transferFrom t pair caller pair liquidity)) ;;~
  amounts <~ callContractFunction self pair is_DEXV2Pair (λ p, pair_burn p pair to);;
  tokens <~ lift_code (sortTokens tokenA tokenB);;
  let amountA := if decide (tokenA = tokens.1) then amounts.1 else amounts.2 in
  let amountB := if decide (tokenA = tokens.1) then amounts.2 else amounts.1 in
  code_throw_if (amountA <? amountAMin) (router_error "removeLiquidity: INSUFFICIENT_A_AMOUNT") ;;~
  code_throw_if (amountB <? amountBMin) (router_error "removeLiquidity: INSUFFICIENT_B_AMOUNT") ;;~
  CRet (amountA, amountB))%code.

Definition removeLiquidityNative (token : list Z) (liquidity amountTokenMin amountNativeMin : Z) (to : list Z) (deadline : Z) : ccode (Z * Z) := (
  ensure deadline ;;~
  wrapper <~ get_address v_wrappedNative;;
  amounts <~ removeLiquidity token wrapper liquidity amountTokenMin amountNativeMin self deadline;;
  call_transfer token to amounts.1 ;;~
  call_withdraw wrapper amounts.2 ;;~
  caller <~ get_caller;;
  router_sendTokens caller amounts.2 ;;~
  CRet amounts)%code.

Definition swapExactTokensForTokens (amountIn amountOutMin : Z) (path : list (list Z)) (to : list Z) (deadline : Z) : ccode (list Z) := (
  ensure deadline ;;~
  factory <~ get_address v_rfactory;;
  amounts <~ view_getAmountsOut factory amountIn path;;
  amountOut <~ amounts_back amounts;;
  code_throw_if (amountOut <? amountOutMin) (router_error "swapExactTokensForTokens: INSUFFICIENT_OUTPUT_AMOUNT") ;;~
  pair <~ pair_of_path path;;
  caller <~ get_caller;;
  token <~ path_front path;;
  amount <~ amounts_front amounts;;
  call_transferFrom token caller pair amount ;;~
  _swap amounts path to ;;~
  CRet amounts)%code.

Definition swapTokensForExactTokens (amountOut amountInMax : Z) (path : list (list Z)) (to : list Z) (deadline : Z) : ccode (list Z) := (
  ensure deadline ;;~
  factory <~ get_address v_rfactory;;
  amounts <~ view_getAmountsIn factory amountOut path;;
  amountIn <~ amounts_front amounts;;
  code_throw_if (amountInMax <? amountIn) (router_error "swapTokensForExactTokens: EXCESSIVE_INPUT_AMOUNT") ;;~
  pair <~ pair_of_path path;;
  caller <~ get_caller;;
  token <~ path_front path;;
  call_transferFrom token caller pair amountIn ;;~
  _swap amounts path to ;;~
  CRet amounts)%code.

(** The path must begin, or end, with the wrapper. *)
Definition path_from_native (path : list (list Z)) (what : string) : ccode unit := (
  token <~ path_front path;;
  wrapper <~ get_address v_wrappedNative;;
  code_throw_if (negb (bool_decide (token = wrapper))) (router_error what))%code.
Definition path_to_native (path : list (list Z)) (what : string) : ccode unit := (
  token <~ path_back path;;
  wrapper <~ get_address v_wrappedNative;;
  code_throw_if (negb (bool_decide (token = wrapper))) (router_error what))%code.

(** The coins of the call are wrapped for the first pair. *)
Definition pay_native (amounts : list Z) (path : list (list Z)) : ccode unit := (
  amount <~ amounts_front amounts;;
  wrapper <~ get_address v_wrappedNative;;
  call_deposit amount wrapper ;;~
  pair <~ pair_of_path path;;
  wrapper <~ get_address v_wrappedNative;;
  call_transfer wrapper pair amount)%code.

Definition swapExactNativeForTokens (amountOutMin : Z) (path : list (list Z)) (to : list Z) (deadline : Z) : ccode (list Z) := (
  ensure deadline ;;~
  path_from_native path "swapExactNativeForTokens: INVALID_PATH" ;;~
  value <~ get_value;;
  factory <~ get_address v_rfactory;;
  amounts <~ view_getAmountsOut factory value path;;
  amountOut <~ amounts_back amounts;;
  code_throw_if (amountOut <? amountOutMin) (router_error "swapExactNativeForTokens: INSUFFICIENT_OUTPUT_AMOUNT") ;;~
  pay_native amounts path ;;~
  _swap amounts path to ;;~
  CRet amounts)%code.

Definition swapNativeForExactTokens (amountOut amountInMax : Z) (path : list (list Z)) (to : list Z) (deadline : Z) : ccode (list Z) := (
  ensure deadline ;;~
  path_from_native path "swapNativeForExactTokens: INVALID_PATH" ;;~
  factory <~ get_address v_rfactory;;
  amounts <~ view_getAmountsIn factory amountOut path;;
  amountIn <~ amounts_front amounts;;
  code_throw_if (amountInMax <? amountIn) (router_error "swapNativeForExactTokens: EXCESSIVE_INPUT_AMOUNT") ;;~
  pay_native amounts path ;;~
  _swap amounts path to ;;~
  CRet amounts)%code.

(** The tokens of the last pair come to the router, which unwraps and sends them on. *)
Definition unwrap_native (to : list Z) (amountOut : Z) : ccode unit := (
  wrapper <~ get_address v_wrappedNative;;
  call_withdraw wrapper amountOut ;;~
  router_sendTokens to amountOut)%code.

Definition swapTokensForExactNative (amountOut amountInMax : Z) (path : list (list Z)) (to : list Z) (deadline : Z) : ccode (list Z) := (
  ensure deadline ;;~
  path_to_native path "swapTokensForExactNative: INVALID_PATH" ;;~
  factory <~ get_address v_rfactory;;
  amounts <~ view_getAmountsIn factory amountOut path;;
  amountIn <~ amounts_front amounts;;
  code_throw_if (amountInMax <? amountIn) (router_error "swapTokensForExactNative: EXCESSIVE_INPUT_AMOUNT") ;;~
  pair <~ pair_of_path path;;
  caller <~ get_caller;;
  token <~ path_front path;;
  call_transferFrom token caller pair amountIn ;;~
  _swap amounts path self ;;~
  unwrap_native to amountOut ;;~
  CRet amounts)%code.

Definition swapExactTokensForNative (amountIn amountOutMin : Z) (path : list (list Z)) (to : list Z) (deadline : Z) : ccode (list Z) := (
  ensure deadline ;;~
  path_to_native path "swapExactTokensForNative: INVALID_PATH" ;;~
  factory <~ get_address v_rfactory;;
  amounts <~ view_getAmountsOut factory amountIn path;;
  amountOut <~ amounts_back amounts;;
  code_throw_if (amountOut <? amountOutMin) (router_error "swapExactTokensForNative: INSUFFICIENT_OUTPUT_AMOUNT") ;;~
  pair <~ pair_of_path path;;
  caller <~ get_caller;;
  token <~ path_front path;;
  amount <~ amounts_front amounts;;
  call_transferFrom token caller pair amount ;;~
  _swap amounts path self ;;~
  unwrap_native to amountOut ;;~
  CRet amounts)%code.
(** ** Registration *)

(** The elements of a decoded vector of addresses. *)
Definition addresses (l : list abi_val) : option (list (list Z)) := mapM (λ v, match v with VBytes a => Some a | _ => None end) l.

(** The arguments of the swaps: two amounts, or one, the path, the receiver and the deadline. *)
Definition args_swap2 {A} (f : Z → Z → list (list Z) → list Z → Z → ccode A) (vs : list abi_val) : ccode (list abi_val) :=
  match vs with
  | [VInt x; VInt y; VList path; VBytes to; VInt deadline] =>
      match addresses path with Some p => no_value (f x y p to deadline) | None => CThrow Undefined end
  | _ => CThrow Undefined
  end.
Definition args_swap1 {A} (f : Z → list (list Z) → list Z → Z → ccode A) (vs : list abi_val) : ccode (list abi_val) :=
  match vs with
  | [VInt x; VList path; VBytes to; VInt deadline] =>
      match addresses path with Some p => no_value (f x p to deadline) | None => CThrow Undefined end
  | _ => CThrow Undefined
  end.
Definition args_addLiquidity (vs : list abi_val) : ccode (list abi_val) :=
  match vs with
  | [VBytes a; VBytes b; VInt x; VInt y; VInt x0; VInt y0; VBytes to; VInt deadline] => no_value (addLiquidity a b x y x0 y0 to deadline)
  | _ => CThrow Undefined
  end.
Definition args_addLiquidityNative (vs : list abi_val) : ccode (list abi_val) :=
  match vs with
  | [VBytes a; VInt x; VInt x0; VInt y0; VBytes to; VInt deadline] => no_value (addLiquidityNative a x x0 y0 to deadline)
  | _ => CThrow Undefined
  end.
Definition args_removeLiquidity (vs : list abi_val) : ccode (list abi_val) :=
  match vs with
  | [VBytes a; VBytes b; VInt l; VInt x0; VInt y0; VBytes to; VInt deadline] => no_value (removeLiquidity a b l x0 y0 to deadline)
  | _ => CThrow Undefined
  end.
Definition args_removeLiquidityNative (vs : list abi_val) : ccode (list abi_val) :=
  match vs with
  | [VBytes a; VInt l; VInt x0; VInt y0; VBytes to; VInt deadline] => no_value (removeLiquidityNative a l x0 y0 to deadline)
  | _ => CThrow Undefined
  end.

Definition swap2_types : list abi_ty := [TUint 256; TUint 256; TVector TAddress; TAddress; TUint 256].
Definition swap1_types : list abi_ty := [TUint 256; TVector TAddress; TAddress; TUint 256].
Definition amounts_types : list abi_ty := [TVector (TUint 256)].

Definition router_registerContractFunctions (c : DynamicContract (V := contract_var)) : DynamicContract (V := contract_var) :=
  let u := TUint 256 in let a := TAddress in
  let c := registerMemberFunction "factory" [] [a] (args0 (view_address v_rfactory)) View c in
  let c := registerMemberFunction "wrappedNative" [] [a] (args0 (view_address v_wrappedNative)) View c in
  let c := registerMemberFunction "addLiquidity" [a; a; u; u; u; u; a; u] [TTuple [u; u; u]] args_addLiquidity NonPayable c in
  let c := registerMemberFunction "addLiquidityNative" [a; u; u; u; a; u] [TTuple [u; u; u]] args_addLiquidityNative Payable c in
  let c := registerMemberFunction "removeLiquidity" [a; a; u; u; u; a; u] [TTuple [u; u]] args_removeLiquidity NonPayable c in
  let c := registerMemberFunction "removeLiquidityNative" [a; u; u; u; a; u] [TTuple [u; u]] args_removeLiquidityNative Payable c in
  let c := registerMemberFunction "swapExactTokensForTokens" swap2_types amounts_types (args_swap2 swapExactTokensForTokens) NonPayable c in
  let c := registerMemberFunction "swapTokensForExactTokens" swap2_types amounts_types (args_swap2 swapTokensForExactTokens) NonPayable c in
  let c := registerMemberFunction "swapExactNativeForTokens" swap1_types amounts_types (args_swap1 swapExactNativeForTokens) Payable c in
  let c := registerMemberFunction "swapTokensForExactNative" swap2_types amounts_types (args_swap2 swapTokensForExactNative) Payable c in
  let c := registerMemberFunction "swapExactTokensForNative" swap2_types amounts_types (args_swap2 swapExactTokensForNative) Payable c in
  registerMemberFunction "swapNativeForExactTokens" swap2_types amounts_types (args_swap2 swapNativeForExactTokens) Payable c.

Definition router_contract : DynamicContract (V := contract_var) :=
  router_registerContractFunctions (mkContract "DEXV2Router02" n ∅ ∅ ∅).
End functions.

(** ** Construction and the database *)

Definition router_vars (factory wrappedNative : list Z) : list contract_var :=
  let address a := AddressVar (ready_address (SafeAddress_assign a (SafeAddress_owned zero_address)).2) in
  [address factory; address wrappedNative].

Definition router_construct (factory nativeWrapper address : list Z) (n : nat) : result (list contract_var * DynamicContract) :=
  Ok (router_vars factory nativeWrapper, router_contract n address).

Definition router_template : ContractTemplate (V := contract_var) :=
  mkTemplate [TAddress; TAddress] (λ args _ address _ n,
    match args with [VBytes factory; VBytes nativeWrapper] => router_construct factory nativeWrapper address n | _ => Throw Undefined end).

Definition router_save {DBI : RocksDB} (address factory wrappedNative : list Z) (d : rdb) : rdb :=
  let pfx := getDBPrefix address in
  let b := push_back DBBatch_new (string_bytes "factory_") factory pfx in
  let b := push_back b (string_bytes "wrappedNative_") wrappedNative pfx in
  putBatch d b.

Definition router_load {DBI : RocksDB} (address : list Z) (d : rdb) : result (list contract_var) :=
  let pfx := getDBPrefix address in
  factory ← FixedBytes_of 20 (get d (string_bytes "factory_") pfx);
  wrappedNative ← FixedBytes_of 20 (get d (string_bytes "wrappedNative_") pfx);
  Ok (router_vars factory wrappedNative).
End router.

(** ** The amounts *)

(** What the factory at [factory] names for two tokens, and the reserves of that pair, as a state has them. *)
Definition stored_pair (s : ContractManager (V := contract_var)) (n : nat) (tokenA tokenB : list Z) : result (list Z) :=
  match reads s !! v_getPair n with
  | Some (AddressMapVal m) => Ok (match m !! tokenA with Some inner => default zero_address (inner !! tokenB) | None => zero_address end)
  | _ => Throw Undefined
  end.
Definition stored_reserves (s : ContractManager (V := contract_var)) (n : nat) : result (Z * Z) :=
  r0 ← read_uint s (v_reserve0 n);
  r1 ← read_uint s (v_reserve1 n);
  Ok (r0, r1).
Definition pair_of (s : ContractManager (V := contract_var)) (factory tokenA tokenB : list Z) : result (list Z) :=
  c ← contract_of s factory is_DEXV2Factory; stored_pair s (first_var_ c) tokenA tokenB.
Definition reserves_of (s : ContractManager (V := contract_var)) (factory tokenA tokenB : list Z) : result (Z * Z) :=
  pair ← pair_of s factory tokenA tokenB;
  c ← contract_of s pair is_DEXV2Pair;
  stored_reserves s (first_var_ c).

Section amounts.
Context {BB : BoostBits} {KC : Keccak} {BR : BoostResidue} {CT : ContractTypes (V := contract_var)}.
Variables (bal : list Z → Z) (chainOwner : list Z) (chainId : Z) (n : nat) (self : list Z).
Implicit Types s : ContractManager (V := contract_var).
Abbreviation returns := (returns bal chainOwner chainId).
Abbreviation ends := (ends bal chainOwner chainId).
Abbreviation gives := (gives bal chainOwner chainId).

Lemma gives_getPair k a b s : is_Some (callLogger_ s) → gives (getPair k a b) s (stored_pair s k a b).
Proof.
  intros Hm. assert (H := gives_use bal chainOwner chainId (v_getPair k) (on_address_map (sm_find_const a)) s
    (λ x, match x with AddressMapVal m => Ok (m !! a) | _ => Throw Undefined end) Hm).
  set (named := λ it : option (gmap (list Z) (list Z)), match it with None => zero_address | Some inner => default zero_address (inner !! b) end).
  change (getPair k a b) with (use (v_getPair k) (on_address_map (sm_find_const a)) (λ it, CRet (named it))).
  unfold ContractLogic.gives. rewrite run_use.
  change (gives (code_bind (use (v_getPair k) (on_address_map (sm_find_const a)) CRet) (λ it, CRet (named it))) s (stored_pair s k a b)).
  assert (E : stored_pair s k a b = (it ← match reads s !! v_getPair k with Some x => match x with AddressMapVal m => Ok (m !! a) | _ => Throw Undefined end | None => Throw Undefined end;
    Ok (named it))).
  { unfold stored_pair. by destruct (reads s !! v_getPair k) as [[]|]. }
  rewrite E. apply gives_bind; [|intros; apply gives_ret]. apply H.
  intros [v|v|v|v|v|v|v|v|v|v] r v'; cbn [on_address_map sm_find_const]; try (by intros [= <- <-]).
  destruct (checkKeyAndCopy_spec a v) as (C1 & C2 & _). rewrite C2. intros [= <- <-]. cbn. by rewrite C1.
Qed.

Lemma gives_pairFor factory a b s : is_Some (callLogger_ s) → gives (view_pairFor factory a b) s (pair_of s factory a b).
Proof. intros Hm. apply (gives_view bal chainOwner chainId factory is_DEXV2Factory _ s (λ k, stored_pair s k a b)). intros k. by apply gives_getPair. Qed.

Lemma like_stored_reserves s s1 k : like s s1 → stored_reserves s1 k = stored_reserves s k.
Proof. intros L. unfold stored_reserves. by rewrite !(like_read_uint s s1). Qed.
Lemma like_pair_of s s1 factory a b : like s s1 → pair_of s1 factory a b = pair_of s factory a b.
Proof. intros L. unfold pair_of, stored_pair. by rewrite (like_contract_of s s1), (like_reads _ _ L). Qed.
Lemma like_reserves_of s s1 factory a b : like s s1 → reserves_of s1 factory a b = reserves_of s factory a b.
Proof.
  intros L. unfold reserves_of. rewrite (like_pair_of s s1) by done. destruct (pair_of s factory a b) as [p|]; [|done].
  rewrite !result_bind_Ok, (like_contract_of s s1) by done. destruct (contract_of s p is_DEXV2Pair); [|done].
  by rewrite !result_bind_Ok, (like_stored_reserves s s1).
Qed.

Lemma gives_getReservess k s : is_Some (callLogger_ s) → gives (pair_getReservess k) s (stored_reserves s k).
Proof.
  intros Hm. apply gives_bind; [by apply gives_get_uint|]. intros r0 s1 _ L1. rewrite <- (like_read_uint s s1) by done.
  apply gives_bind; [apply gives_get_uint; by eapply like_logger|]. intros r1 s2 _ _. apply gives_ret.
Qed.

Lemma gives_reserves factory a b s : is_Some (callLogger_ s) → gives (view_getReserves factory a b) s (reserves_of s factory a b).
Proof.
  intros Hm. apply gives_bind; [by apply gives_pairFor|]. intros pair s1 _ L1. rewrite <- (like_contract_of s s1) by done.
  apply (gives_view bal chainOwner chainId pair is_DEXV2Pair _ s1 (stored_reserves s)). intros k.
  rewrite <- (like_stored_reserves s s1) by done. apply gives_getReservess. by eapply like_logger.
Qed.

Lemma amounts_out_ext (f g : list Z → list Z → result (Z * Z)) path : (∀ a b, f a b = g a b) → ∀ x, amounts_out f x path = amounts_out g x path.
Proof.
  intros H. induction path as [|a [|b rest] IH]; [done|done|]. intros x. cbn [amounts_out]. rewrite H. destruct (g a b) as [[r0 r1]|]; [|done].
  rewrite !result_bind_Ok. destruct (getAmountOut x r0 r1) as [y|]; [|done]. rewrite !result_bind_Ok. specialize (IH y). cbn [amounts_out] in IH. by rewrite IH.
Qed.
Lemma amounts_in_ext (f g : list Z → list Z → result (Z * Z)) path : (∀ a b, f a b = g a b) → ∀ x, amounts_in f x path = amounts_in g x path.
Proof.
  intros H. induction path as [|a [|b rest] IH]; [done|done|]. intros x. cbn [amounts_in]. rewrite H. destruct (g b a) as [[r0 r1]|]; [|done].
  rewrite !result_bind_Ok. destruct (getAmountIn x r0 r1) as [y|]; [|done]. rewrite !result_bind_Ok. specialize (IH y). cbn [amounts_in] in IH. by rewrite IH.
Qed.

Lemma amounts_out_cons reserves amount a b rest :
  amounts_out reserves amount (a :: b :: rest) =
  (p ← reserves a b; next ← getAmountOut amount p.1 p.2; amounts ← amounts_out reserves next (b :: rest); Ok (amount :: amounts)).
Proof. cbn [amounts_out]. by destruct (reserves a b) as [[]|]. Qed.
Lemma amounts_in_cons reserves amount a b rest :
  amounts_in reserves amount (b :: a :: rest) =
  (p ← reserves a b; previous ← getAmountIn amount p.1 p.2; amounts ← amounts_in reserves previous (a :: rest); Ok (amount :: amounts)).
Proof. cbn [amounts_in]. by destruct (reserves a b) as [[]|]. Qed.
Lemma view_amounts_out_cons factory amount a b rest :
  view_amounts_out factory amount (a :: b :: rest) = (
    p <~ view_getReserves factory a b;; next <~ lift_code (getAmountOut amount p.1 p.2);;
    amounts <~ view_amounts_out factory next (b :: rest);; CRet (amount :: amounts))%code.
Proof. done. Qed.
Lemma view_amounts_in_cons factory amount a b rest :
  view_amounts_in factory amount (b :: a :: rest) = (
    p <~ view_getReserves factory a b;; previous <~ lift_code (getAmountIn amount p.1 p.2);;
    amounts <~ view_amounts_in factory previous (a :: rest);; CRet (amount :: amounts))%code.
Proof. done. Qed.

Lemma gives_amounts_out factory path : ∀ amount s, is_Some (callLogger_ s) →
  gives (view_amounts_out factory amount path) s (amounts_out (reserves_of s factory) amount path).
Proof.
  induction path as [|a [|b rest] IH]; intros amount s Hm; [apply gives_ret|apply gives_ret|].
  rewrite view_amounts_out_cons, amounts_out_cons.
  apply gives_bind; [by apply gives_reserves|]. intros [r0 r1] s1 _ L1.
  apply gives_bind; [apply gives_lift|]. intros y s2 _ L2. cbv beta.
  rewrite (amounts_out_ext (reserves_of s factory) (reserves_of s2 factory)).
  2: { intros a' b'. rewrite (like_reserves_of s s2); [done|by transitivity s1]. }
  apply gives_bind; [|intros; apply gives_ret]. apply IH. eapply like_logger; [|exact Hm]. by transitivity s1.
Qed.

Lemma gives_amounts_in factory path : ∀ amount s, is_Some (callLogger_ s) →
  gives (view_amounts_in factory amount path) s (amounts_in (reserves_of s factory) amount path).
Proof.
  induction path as [|a [|b rest] IH]; intros amount s Hm; [apply gives_ret|apply gives_ret|].
  rewrite view_amounts_in_cons, amounts_in_cons.
  apply gives_bind; [by apply gives_reserves|]. intros [r0 r1] s1 _ L1.
  apply gives_bind; [apply gives_lift|]. intros y s2 _ L2. cbv beta.
  rewrite (amounts_in_ext (reserves_of s factory) (reserves_of s2 factory)).
  2: { intros a' b'. rewrite (like_reserves_of s s2); [done|by transitivity s1]. }
  apply gives_bind; [|intros; apply gives_ret]. apply IH. eapply like_logger; [|exact Hm]. by transitivity s1.
Qed.

Lemma gives_getAmountsOut factory amountIn path s : is_Some (callLogger_ s) →
  gives (view_getAmountsOut factory amountIn path) s (getAmountsOut (reserves_of s factory) amountIn path).
Proof.
  intros Hm. apply gives_bind; [apply gives_throw_if|]. intros [] s1 _ L1. cbv beta.
  rewrite (amounts_out_ext (reserves_of s factory) (reserves_of s1 factory)) by (intros a b; by rewrite (like_reserves_of s s1)).
  apply gives_amounts_out. by eapply like_logger.
Qed.

Lemma gives_getAmountsIn factory amountOut path s : is_Some (callLogger_ s) →
  gives (view_getAmountsIn factory amountOut path) s (getAmountsIn (reserves_of s factory) amountOut path).
Proof.
  intros Hm. apply gives_bind; [apply gives_throw_if|]. intros [] s1 _ L1. cbv beta.
  rewrite (amounts_in_ext (reserves_of s factory) (reserves_of s1 factory)) by (intros a b; by rewrite (like_reserves_of s s1)).
  apply gives_bind; [|intros; apply gives_ret]. apply gives_amounts_in. by eapply like_logger.
Qed.

(** The library on a state is the library over the reserves that the pairs of the factory hold in it, errors included; the walk changes
    nothing. *)
Theorem router_prices factory amount path s :
  is_Some (callLogger_ s) →
  gives (view_getAmountsOut factory amount path) s (getAmountsOut (reserves_of s factory) amount path) ∧
  gives (view_getAmountsIn factory amount path) s (getAmountsIn (reserves_of s factory) amount path).
Proof. intros Hm. split; [by apply gives_getAmountsOut|by apply gives_getAmountsIn]. Qed.
(** *** The limits of the caller *)

Lemma gives_ensure deadline s : gives (ensure deadline) s (throw_if (deadline <? g_blockTimestamp_ (globals_ s)) (router_error "ensure: EXPIRED")).
Proof.
  assert (E : ∀ r : result unit, r = (g ← Ok (globals_ s); r)) by done. rewrite E.
  apply gives_bind; [apply gives_globals|]. intros g s1 [= <-] _. apply gives_throw_if.
Qed.

Lemma returns_ensure deadline s Q :
  (∀ s1, like s s1 → g_blockTimestamp_ (globals_ s) ≤ deadline → Q tt s1) → returns (ensure deadline) s Q.
Proof. intros H. eapply returns_gives; [apply gives_ensure|]. intros [] s1 Hd%throw_if_ok%Z.ltb_ge L. by apply H. Qed.

Lemma returns_front path s Q : (∀ a, head path = Some a → Q a s) → returns (path_front path) s Q.
Proof. intros H. apply returns_lift. intros a Ha. apply H. unfold or_undefined in Ha. by destruct (head path); simplify_eq. Qed.
Lemma returns_back path s Q : (∀ a, last path = Some a → Q a s) → returns (path_back path) s Q.
Proof. intros H. apply returns_lift. intros a Ha. apply H. unfold or_undefined in Ha. by destruct (last path); simplify_eq. Qed.

(** What the router reads of a state: its own two variables. *)
Definition wrapper_of s (wrapper : list Z) : Prop := reads s !! v_wrappedNative n = Some (AddressVal wrapper).
Definition factory_of s (factory : list Z) : Prop := reads s !! v_rfactory n = Some (AddressVal factory).

Lemma returns_path_from_native path what s Q :
  (∀ wrapper s1, like s s1 → wrapper_of s wrapper → head path = Some wrapper → Q tt s1) →
  is_Some (callLogger_ s) → returns (path_from_native n path what) s Q.
Proof.
  intros H Hm. apply returns_bind, returns_front. intros a Ha. apply returns_bind. eapply returns_gives; [by apply gives_get_address|].
  intros w s1 Hw L. apply returns_throw_if. intros E%negb_false_iff%bool_decide_eq_true. subst a. apply (H w); [done| |done].
  unfold read_address in Hw. unfold wrapper_of. by destruct (reads s !! _) as [[]|]; simplify_eq.
Qed.
Lemma returns_path_to_native path what s Q :
  (∀ wrapper s1, like s s1 → wrapper_of s wrapper → last path = Some wrapper → Q tt s1) →
  is_Some (callLogger_ s) → returns (path_to_native n path what) s Q.
Proof.
  intros H Hm. apply returns_bind, returns_back. intros a Ha. apply returns_bind. eapply returns_gives; [by apply gives_get_address|].
  intros w s1 Hw L. apply returns_throw_if. intros E%negb_false_iff%bool_decide_eq_true. subst a. apply (H w); [done| |done].
  unfold read_address in Hw. unfold wrapper_of. by destruct (reads s !! _) as [[]|]; simplify_eq.
Qed.

(** The amounts of a swap that sells exactly [amountIn], and of one that buys exactly [amountOut], in the state [s]. *)
Definition sells s (amountIn amountOutMin : Z) (path : list (list Z)) (deadline : Z) (amounts : list Z) : Prop :=
  g_blockTimestamp_ (globals_ s) ≤ deadline ∧
  ∃ factory out, factory_of s factory ∧ getAmountsOut (reserves_of s factory) amountIn path = Ok amounts ∧
    head amounts = Some amountIn ∧ last amounts = Some out ∧ amountOutMin ≤ out.
Definition buys s (amountOut amountInMax : Z) (path : list (list Z)) (deadline : Z) (amounts : list Z) : Prop :=
  g_blockTimestamp_ (globals_ s) ≤ deadline ∧
  ∃ factory amountIn, factory_of s factory ∧ getAmountsIn (reserves_of s factory) amountOut path = Ok amounts ∧
    head amounts = Some amountIn ∧ last amounts = Some amountOut ∧ amountIn ≤ amountInMax.

Lemma getAmountsOut_head reserves amountIn path amounts : getAmountsOut reserves amountIn path = Ok amounts → head amounts = Some amountIn.
Proof.
  unfold getAmountsOut. intros (u & Hl%throw_if_ok%Nat.ltb_ge & H)%result_bind_ok.
  apply amounts_out_steps in H as (_ & H & _); [done|]. intros ->. cbn in Hl. lia.
Qed.
Lemma getAmountsIn_last reserves amountOut path amounts : getAmountsIn reserves amountOut path = Ok amounts → last amounts = Some amountOut.
Proof.
  unfold getAmountsIn. intros (u & Hl%throw_if_ok%Nat.ltb_ge & H)%result_bind_ok. apply result_bind_ok in H as (l & H & [= <-]).
  assert (Hh : head l = Some amountOut).
  { assert (Hn : reverse path ≠ []) by (intros E; apply (f_equal length) in E; rewrite length_reverse in E; cbn in E; lia).
    destruct (reverse path) as [|b [|a rest]]; [done|by injection H as <-|]. rewrite amounts_in_cons in H.
    apply result_bind_ok in H as (p & _ & H). apply result_bind_ok in H as (y & _ & H). by apply result_bind_ok in H as (l' & _ & [= <-]). }
  by rewrite last_reverse, Hh.
Qed.

Lemma returns_amounts_out s0 s amountIn amountOutMin path deadline e (k : Z → list Z → ccode (list Z)) :
  is_Some (callLogger_ s0) → like s0 s → g_blockTimestamp_ (globals_ s0) ≤ deadline →
  (∀ amountOut amounts s1, returns (k amountOut amounts) s1 (λ r _, r = amounts)) →
  returns (factory <~ get_address (v_rfactory n);;
    amounts <~ view_getAmountsOut factory amountIn path;;
    amountOut <~ amounts_back amounts;;
    code_throw_if (amountOut <? amountOutMin) e ;;~
    k amountOut amounts)%code s (λ r _, sells s0 amountIn amountOutMin path deadline r).
Proof.
  intros Hm L Hd Hk. apply returns_bind. eapply returns_gives; [apply gives_get_address; by eapply like_logger|]. intros factory s1 Hf L1.
  apply returns_bind. eapply returns_gives; [apply gives_getAmountsOut; eapply like_logger; [exact L1|by eapply like_logger]|].
  intros amounts s2 Ha L2. apply returns_bind, returns_lift. intros out Ho. apply returns_bind, returns_throw_if. intros Hmin%Z.ltb_ge.
  eapply returns_mono; [apply Hk|]. intros r _ ->. split; [done|]. exists factory, out.
  assert (L01 : like s0 s1) by by transitivity s. split_and!.
  - rewrite (like_read_address s0 s) in Hf by done. unfold read_address in Hf. unfold factory_of. by destruct (reads s0 !! _) as [[]|]; simplify_eq.
  - rewrite <- Ha. unfold getAmountsOut. destruct (throw_if _ _) as [[]|]; [|done]. apply amounts_out_ext. intros a b. by rewrite (like_reserves_of s0 s1).
  - by apply getAmountsOut_head in Ha.
  - unfold or_undefined in Ho. by destruct (last amounts); simplify_eq.
  - done.
Qed.

Lemma returns_amounts_in s0 s amountOut amountInMax path deadline e (k : Z → list Z → ccode (list Z)) :
  is_Some (callLogger_ s0) → like s0 s → g_blockTimestamp_ (globals_ s0) ≤ deadline →
  (∀ amountIn amounts s1, returns (k amountIn amounts) s1 (λ r _, r = amounts)) →
  returns (factory <~ get_address (v_rfactory n);;
    amounts <~ view_getAmountsIn factory amountOut path;;
    amountIn <~ amounts_front amounts;;
    code_throw_if (amountInMax <? amountIn) e ;;~
    k amountIn amounts)%code s (λ r _, buys s0 amountOut amountInMax path deadline r).
Proof.
  intros Hm L Hd Hk. apply returns_bind. eapply returns_gives; [apply gives_get_address; by eapply like_logger|]. intros factory s1 Hf L1.
  apply returns_bind. eapply returns_gives; [apply gives_getAmountsIn; eapply like_logger; [exact L1|by eapply like_logger]|].
  intros amounts s2 Ha L2. apply returns_bind, returns_lift. intros x Hx. apply returns_bind, returns_throw_if. intros Hmax%Z.ltb_ge.
  eapply returns_mono; [apply Hk|]. intros r _ ->. split; [done|]. exists factory, x.
  assert (L01 : like s0 s1) by by transitivity s. split_and!.
  - rewrite (like_read_address s0 s) in Hf by done. unfold read_address in Hf. unfold factory_of. by destruct (reads s0 !! _) as [[]|]; simplify_eq.
  - rewrite <- Ha. unfold getAmountsIn. destruct (throw_if _ _) as [[]|]; [|done]. cbn [mbind result_bind].
    by rewrite (amounts_in_ext (reserves_of s0 factory) (reserves_of s1 factory)) by (intros a b; by rewrite (like_reserves_of s0 s1)).
  - unfold or_undefined in Hx. by destruct (head amounts); simplify_eq.
  - by apply getAmountsIn_last in Ha.
  - done.
Qed.

(** Whatever the payments do, the amounts are the ones returned. *)
Ltac pays := intros; repeat (apply returns_bind; eapply (returns_mono _ _ _ _ _ (λ _ _, True)); [done|let x := fresh in let y := fresh in intros x y _]); by apply returns_ret.

(** C28: The swaps that sell an exact amount return, if they do, before the deadline, with the amounts that the reserves of the pairs give
    along the path, from the amount the caller sells (the value of the call) to one that is at least the caller's minimum. *)
Theorem router_sells amountIn amountOutMin path to deadline s :
  is_Some (callLogger_ s) →
  returns (swapExactTokensForTokens n self amountIn amountOutMin path to deadline) s (λ r _, sells s amountIn amountOutMin path deadline r) ∧
  returns (swapExactTokensForNative n self amountIn amountOutMin path to deadline) s
    (λ r _, sells s amountIn amountOutMin path deadline r ∧ ∃ wrapper, wrapper_of s wrapper ∧ last path = Some wrapper) ∧
  returns (swapExactNativeForTokens n self amountOutMin path to deadline) s
    (λ r _, sells s (loc_value_ (locals_of s self)) amountOutMin path deadline r ∧ ∃ wrapper, wrapper_of s wrapper ∧ head path = Some wrapper).
Proof.
  intros Hm. split_and!; apply returns_bind, returns_ensure; intros s1 L1 Hd.
  - apply (returns_amounts_out s s1 _ _ _ _ _ (λ _ amounts, _)); [done..|pays].
  - apply returns_bind, returns_path_to_native; [|by eapply like_logger]. intros w s2 L2 Hw Hl. cbv beta.
    apply (returns_mono _ _ _ _ _ (λ r _, sells s amountIn amountOutMin path deadline r)); [apply (returns_amounts_out s); [done|by transitivity s1|done|pays]|].
    intros r _ H. split; [done|]. exists w. split; [|done]. unfold wrapper_of in *. by rewrite (like_reads _ _ L1) in Hw.
  - apply returns_bind, returns_path_from_native; [|by eapply like_logger]. intros w s2 L2 Hw Hl. cbv beta.
    assert (L02 : like s s2) by by transitivity s1.
    apply (returns_mono _ _ _ _ _ (λ r _, sells s (loc_value_ (locals_of s self)) amountOutMin path deadline r)); [|intros r _ H; split; [done|]; exists w; split; [|done]; unfold wrapper_of in *; by rewrite (like_reads _ _ L1) in Hw].
    apply returns_bind. eapply returns_gives; [apply (gives_locals _ _ _ self loc_value_)|]. intros v s3 [= <-] L3.
    rewrite (like_locals_of s) by done. apply (returns_amounts_out s _ _ _ _ _ _ (λ _ amounts, _)); [done|by transitivity s2|done|pays].
Qed.

(** The swaps that buy an exact amount return before the deadline, with the amounts that end in it, the first at most the
    caller's maximum. *)
Theorem router_buys amountOut amountInMax path to deadline s :
  is_Some (callLogger_ s) →
  returns (swapTokensForExactTokens n self amountOut amountInMax path to deadline) s (λ r _, buys s amountOut amountInMax path deadline r) ∧
  returns (swapTokensForExactNative n self amountOut amountInMax path to deadline) s
    (λ r _, buys s amountOut amountInMax path deadline r ∧ ∃ wrapper, wrapper_of s wrapper ∧ last path = Some wrapper) ∧
  returns (swapNativeForExactTokens n self amountOut amountInMax path to deadline) s
    (λ r _, buys s amountOut amountInMax path deadline r ∧ ∃ wrapper, wrapper_of s wrapper ∧ head path = Some wrapper).
Proof.
  intros Hm. split_and!; apply returns_bind, returns_ensure; intros s1 L1 Hd.
  - apply (returns_amounts_in s); [done..|pays].
  - apply returns_bind, returns_path_to_native; [|by eapply like_logger]. intros w s2 L2 Hw Hl. cbv beta.
    apply (returns_mono _ _ _ _ _ (λ r _, buys s amountOut amountInMax path deadline r)); [apply (returns_amounts_in s); [done|by transitivity s1|done|pays]|].
    intros r _ H. split; [done|]. exists w. split; [|done]. unfold wrapper_of in *. by rewrite (like_reads _ _ L1) in Hw.
  - apply returns_bind, returns_path_from_native; [|by eapply like_logger]. intros w s2 L2 Hw Hl. cbv beta.
    apply (returns_mono _ _ _ _ _ (λ r _, buys s amountOut amountInMax path deadline r)); [apply (returns_amounts_in s s2 _ _ _ _ _ (λ _ amounts, _)); [done|by transitivity s1|done|pays]|].
    intros r _ H. split; [done|]. exists w. split; [|done]. unfold wrapper_of in *. by rewrite (like_reads _ _ L1) in Hw.
Qed.

(** *** Liquidity *)

(** Of an existing pool the router takes amounts at its ratio, rounded down on one side, never more than the caller offers of either
    token and at least the minimum of the token that is cut; of an empty pool it takes what is offered. *)
Theorem liquidity_at_ratio reserveA reserveB desiredA desiredB minA minB amountA amountB :
  liquidity_amounts reserveA reserveB desiredA desiredB minA minB = Ok (amountA, amountB) → 0 ≤ reserveA → 0 ≤ reserveB →
  amountA ≤ desiredA ∧ amountB ≤ desiredB ∧
  ((reserveA = 0 ∧ reserveB = 0 ∧ amountA = desiredA ∧ amountB = desiredB) ∨
   (amountA = desiredA ∧ minB ≤ amountB ∧ 0 < reserveA ∧ amountB * reserveA ≤ amountA * reserveB < (amountB + 1) * reserveA) ∨
   (amountB = desiredB ∧ minA ≤ amountA ∧ 0 < reserveB ∧ amountA * reserveB ≤ amountB * reserveA < (amountA + 1) * reserveB)).
Proof.
  unfold liquidity_amounts. intros H HA HB. destruct (_ && _) eqn:E0.
  - injection H as <- <-. apply andb_true_iff in E0 as [->%Z.eqb_eq ->%Z.eqb_eq]. split; [lia|]. split; [lia|]. by left.
  - apply result_bind_ok in H as (b & Hb & H).
    assert (HA' : 0 < reserveA).
    { unfold quote in Hb. apply result_bind_ok in Hb as (? & _ & Hb). apply result_bind_ok in Hb as (? & [Hz _]%throw_if_ok%orb_false_iff & _).
      apply Z.eqb_neq in Hz. lia. }
    assert (HB' : 0 < reserveB).
    { unfold quote in Hb. apply result_bind_ok in Hb as (? & _ & Hb). apply result_bind_ok in Hb as (? & [_ Hz]%throw_if_ok%orb_false_iff & _).
      apply Z.eqb_neq in Hz. lia. }
    destruct (Z.leb_spec b desiredB).
    + apply result_bind_ok in H as (u & Hmin%throw_if_ok%Z.ltb_ge & [= <- <-]). apply quote_rounds in Hb; [|done].
      split; [lia|]. split; [lia|]. right. left. split_and!; lia.
    + apply result_bind_ok in H as (a & Ha & H). destruct (Z.leb_spec a desiredA); [|done].
      apply result_bind_ok in H as (u & Hmin%throw_if_ok%Z.ltb_ge & [= <- <-]). apply quote_rounds in Ha; [|done].
      split; [lia|]. split; [lia|]. right. right. split_and!; lia.
Qed.
(** *** A swap through the router *)

(** The exchange of two tokens in a state: the router knows the factory, the factory the pair of the two tokens, and the four contracts
    are where they should be, apart from each other and from the router. *)
Record market (factory pair a0 a1 : list Z) (fc pc c0 c1 : DynamicContract (V := contract_var)) (t0 t1 : token) (r0 r1 : Z) s : Prop := {
  market_factory : factory_of s factory;
  market_factory_contract : contract_of s factory is_DEXV2Factory = Ok fc;
  market_pair : stored_pair s (first_var_ fc) a0 a1 = Ok pair;
  market_pair_address : address_bool pair = true;
  market_pair_contract : contract_of s pair is_DEXV2Pair = Ok pc;
  market_ready : pair_ready (first_var_ pc) a0 a1 r0 r1 s;
  market_token0 : token_held a0 c0 t0 s;
  market_token1 : token_held a1 c1 t1 s;
  market_apart : apart (first_var_ c0) (first_var_ c1) 6 ∧ apart (first_var_ c0) (first_var_ pc) 16 ∧
    apart (first_var_ c1) (first_var_ pc) 16 ∧ apart (first_var_ c0) (first_var_ fc) 4 ∧ apart (first_var_ c0) n 2
}.

Lemma contract_of_inv s target cast c : contract_of s target cast = Ok c → contracts_ s !! target = Some c ∧ cast (contractName_ c) = true.
Proof. unfold contract_of, getContract. destruct (contracts_ s !! target) as [d|]; [|done]. destruct (cast (contractName_ d)) eqn:E; [|done]. by intros [= ->]. Qed.
Lemma steady_contract_of s s1 target cast : steady s s1 → contract_of s1 target cast = contract_of s target cast.
Proof.
  intros H. unfold contract_of, getContract. rewrite (steady_contracts _ _ H).
  destruct (contracts_ s !! target) as [d|]; [by destruct (cast (contractName_ d))|done].
Qed.

Section market.
Context (factory pair a0 a1 : list Z) (fc pc c0 c1 : DynamicContract (V := contract_var)) (t1 : token) (r0 r1 : Z).
Abbreviation market := (market factory pair a0 a1 fc pc c0 c1).

Lemma market_pair_of {t0} s : market t0 t1 r0 r1 s → pair_of s factory a0 a1 = Ok pair.
Proof. intros []. unfold pair_of. by rewrite market_factory_contract0, result_bind_Ok. Qed.

Lemma market_reserves_of {t0} s : market t0 t1 r0 r1 s → reserves_of s factory a0 a1 = Ok (r0, r1).
Proof.
  intros M. unfold reserves_of. rewrite (market_pair_of s M), result_bind_Ok. destruct M as [? ? ? ? E R]. rewrite E, result_bind_Ok.
  destruct R as [_ _ _ [R0 R1] _]. unfold stored_reserves, read_uint. by rewrite R0, R1.
Qed.

Lemma market_like {t0} s s1 : market t0 t1 r0 r1 s → reads s1 = reads s → calm s s1 → market t0 t1 r0 r1 s1.
Proof.
  intros [] Hr Hc. assert (Hs := proj2 Hc). constructor; rewrite ?(steady_contract_of s s1) by done; try done.
  - unfold factory_of. by rewrite Hr.
  - unfold stored_pair in *. by rewrite Hr.
  - by apply (pair_ready_like _ _ _ _ _ s).
  - by apply (held_like _ _ _ s).
  - by apply (held_like _ _ _ s).
Qed.

(** The first token moves. *)
Lemma market_paid {t0} s s1 t0' :
  market t0 t1 r0 r1 s → only_token (first_var_ c0) (reads s) (reads s1) → calm s s1 → token_held a0 c0 t0' s1 → market t0' t1 r0 r1 s1.
Proof.
  intros [] Ho Hc Hh. assert (Hs := proj2 Hc). destruct market_apart0 as (P01 & P0 & P1 & Pf & Pn).
  constructor; rewrite ?(steady_contract_of s s1) by done; try done.
  - unfold factory_of. rewrite (only_token_other (first_var_ c0) (reads s)); [done|done|]. unfold apart, v_rfactory in *. lia.
  - unfold stored_pair in *. rewrite (only_token_other (first_var_ c0) (reads s)); [done|done|]. unfold apart, v_getPair in *. lia.
  - by apply (pair_ready_other _ (first_var_ c0) _ _ _ _ s).
  - apply (held_other _ _ _ (first_var_ c0) s); [done..| |done]. unfold apart in *. lia.
Qed.

Lemma ends_pair_of_path {t0} s Q :
  is_Some (callLogger_ s) → market t0 t1 r0 r1 s → (∀ s1, like s s1 → Q pair s1) → ends (pair_of_path n [a0; a1]) s Q.
Proof.
  intros Hm M H. apply ends_bind, (ends_get_address _ _ _ _ factory); [done|apply M|]. intros s1 L1.
  apply ends_bind. eapply ends_lift; [done|]. apply ends_bind. eapply ends_lift; [done|].
  eapply ends_gives.
  - rewrite <- (market_pair_of s M), <- (like_pair_of s s1) by done. apply gives_pairFor. by eapply like_logger.
  - intros s2 L2. apply H. by transitivity s1.
Qed.

(** The swap of the pair, after the payment. *)
Lemma ends_router_swap t0 amountIn out t1' to s :
  is_Some (callLogger_ s) → market t0 t1 r0 r1 s → bytes_ltb a0 a1 = true → a0 ≠ zero_address →
  balance t0 pair = r0 + amountIn → balance t1 pair = r1 → token_ok t1 → move pair to out t1 = Some t1' →
  0 < r0 → 0 < amountIn → r0 + amountIn < 2 ^ 112 → 0 < r1 < 2 ^ 112 →
  getAmountOut amountIn r0 r1 = Ok out → 0 < out → to ≠ a0 → to ≠ a1 → to ≠ pair →
  ends (_swap n self [amountIn; out] [a0; a1] to) s (λ _ s', token_held a0 c0 t0 s' ∧ token_held a1 c1 t1' s' ∧
    reserves_at (first_var_ pc) s' (r0 + amountIn) (r1 - out) ∧ locks s' = locks s).
Proof.
  intros Hm M Hlt Hz B0 B1 Hok Hmv Hr0 Hi Hs Hr1 Hg Hout N0 N1 Np. cbn [_swap].
  assert (Hc : ∀ s1, like s s1 → is_Some (callLogger_ s1)) by (intros s1 L; by eapply like_logger).
  apply ends_bind, (ends_get_address _ _ _ _ factory); [done|apply M|]. intros s1 L1.
  apply ends_bind. eapply ends_gives; [rewrite <- (market_pair_of s M), <- (like_pair_of s s1) by done; by apply gives_pairFor, Hc|].
  intros s2 L2'. assert (L2 : like s s2) by by transitivity s1. clear L2'.
  apply ends_bind, ends_throw_if; [by rewrite (market_pair_address _ _ _ _ _ _ _ _ _ _ _ _ _ M)|].
  assert (Hsort : sortTokens a0 a1 = Ok (a0, a1)).
  { unfold sortTokens. rewrite (bool_decide_eq_false_2 (a0 = a1)) by (intros ->; by rewrite bytes_ltb_irrefl in Hlt). rewrite Hlt. cbn [throw_if fst].
    rewrite (bool_decide_eq_false_2 (a0 = zero_address)) by done. done. }
  apply ends_bind. eapply ends_lift; [exact Hsort|]. apply ends_bind. eapply ends_lift; [done|].
  apply ends_bind, ends_ret. cbn [fst]. rewrite decide_True by done. apply ends_bind.
  destruct M as [_ _ _ _ Epc Hrd H0 H1 (P01 & P0 & P1 & _)]. rewrite <- (like_contract_of s s2) in Epc by done. apply contract_of_inv in Epc as [Epc Ncl].
  apply (ends_call _ _ _ _ _ _ _ pc); [by apply Hc|done|done|]. intros s3 Er3 El3 S3 _.
  assert (E3 : reads s3 = reads s) by by rewrite Er3, (like_reads _ _ L2).
  assert (C3 : calm s s3) by (split; [by rewrite El3, (like_locks _ _ L2)|transitivity s2; [apply L2|done]]).
  eapply ends_mono; [apply (ends_swap_at_price _ _ _ _ _ amountIn r0 r1 out a0 a1 c0 c1 t0 t1 t1'); try done|].
  - by eapply calm_logger.
  - by apply (pair_ready_like _ _ _ _ _ s).
  - apply (held_like _ _ _ s); [done|done|apply C3].
  - apply (held_like _ _ _ s); [done|done|apply C3].
  - intros [] s4 (T0 & T1 & R & K). apply ends_ret. split_and!; try done. by rewrite K, (proj1 C3).
Qed.

(** C10: A direct swap through the router succeeds and pays what the library says: the pair receives [amountIn] of the first
    token and stores it, [to] receives [out] of the second one. This needs a [market], in which the factory has the pair
    stored (its [createPair] refuses every pair, so the theorem is about storages filled in another way) and the pair's
    tokens are ERC20s whose books are in order; the first token is the one with the lower, non-zero address (the other
    direction is mispriced); the deadline has not passed; the caller, who is not the pair, has the amount and the router its
    allowance; the reserves are the pair's balances, both positive, the second below [2^112] and the first with the amount too; the
    amount that comes out is positive and at least the minimum; and the receiver is neither of the tokens nor the pair. *)
Theorem router_swap_pays t0 amountIn amountOutMin out to deadline s :
  is_Some (callLogger_ s) → market t0 t1 r0 r1 s → bytes_ltb a0 a1 = true → a0 ≠ zero_address →
  g_blockTimestamp_ (globals_ s) ≤ deadline →
  let caller := caller_ (locals_of s self) in
  token_ok t0 → token_ok t1 → amountIn ≤ balance t0 caller → amountIn ≤ allowed t0 caller self → caller ≠ pair →
  balance t0 pair = r0 → balance t1 pair = r1 →
  0 < r0 → 0 < amountIn → r0 + amountIn < 2 ^ 112 → 0 < r1 < 2 ^ 112 →
  getAmountOut amountIn r0 r1 = Ok out → 0 < out → amountOutMin ≤ out → to ≠ a0 → to ≠ a1 → to ≠ pair →
  ∃ t0' t1' s', exec bal chainOwner chainId (swapExactTokensForTokens n self amountIn amountOutMin [a0; a1] to deadline) s = (Ok [amountIn; out], s') ∧
    token_step self (TransferFrom caller pair amountIn) t0 = Some t0' ∧ move pair to out t1 = Some t1' ∧
    token_held a0 c0 t0' s' ∧ token_held a1 c1 t1' s' ∧ reserves_at (first_var_ pc) s' (r0 + amountIn) (r1 - out) ∧
    balance t0' pair = r0 + amountIn ∧ balance t1' to = balance t1 to + out.
Proof.
  intros Hm M Hlt Hz Hd caller Hok0 Hok1 Hbal Hall Hne B0 B1 Hr0 Hi Hs Hr1 Hg Hout Hmin N0 N1 Np.
  destruct (swap_checks_price amountIn r0 r1 out) as [Ho _]; [done..|].
  set (ta := set_allowed t0 caller self (allowed t0 caller self - amountIn)).
  assert (Hmv0 := move_spec ta caller pair amountIn Hok0 ltac:(lia)). assert (Hstep : token_step self (TransferFrom caller pair amountIn) t0 = move caller pair amountIn ta).
  { cbn [token_step]. by rewrite (proj2 (Z.leb_le _ _) Hall). }
  destruct (move caller pair amountIn ta) as [t0'|]; [|by change (balance ta caller) with (balance t0 caller) in Hmv0; lia].
  destruct Hmv0 as (_ & _ & _ & _ & Hb0). change (balance ta) with (balance t0) in Hb0.
  assert (Hmv1 := move_spec t1 pair to out Hok1 ltac:(lia)). destruct (move pair to out t1) as [t1'|] eqn:Emv; [|lia].
  destruct Hmv1 as (_ & _ & _ & _ & Hb1).
  assert (B0' : balance t0' pair = r0 + amountIn) by (rewrite Hb0, decide_False, decide_True by done; lia).
  assert (He : ends (swapExactTokensForTokens n self amountIn amountOutMin [a0; a1] to deadline) s (λ r s', r = [amountIn; out] ∧
    token_held a0 c0 t0' s' ∧ token_held a1 c1 t1' s' ∧ reserves_at (first_var_ pc) s' (r0 + amountIn) (r1 - out))).
  2:{ destruct He as (r & s' & E & -> & ? & ? & ?). exists t0', t1', s'. split_and!; try done. rewrite Hb1, decide_False, decide_True by done. lia. }
  assert (Hc : ∀ s1, like s s1 → is_Some (callLogger_ s1)) by (intros s1 L; by eapply like_logger).
  assert (HM : ∀ s1, like s s1 → market t0 t1 r0 r1 s1) by (intros s1 L; apply (market_like s); [done|apply L|by apply like_calm]).
  assert (Hens := gives_ensure deadline s). rewrite (proj2 (Z.ltb_ge _ _) Hd) in Hens.
  apply ends_bind. eapply ends_gives; [exact Hens|]. intros s1 L1.
  apply ends_bind, (ends_get_address _ _ _ _ factory); [by apply Hc|apply (HM s1 L1)|]. intros s2 L2'.
  assert (L2 : like s s2) by by transitivity s1. clear L2'.
  assert (Ha : getAmountsOut (reserves_of s2 factory) amountIn [a0; a1] = Ok [amountIn; out]).
  { unfold getAmountsOut. cbn [length Nat.ltb Nat.leb throw_if amounts_out]. rewrite result_bind_Ok, (market_reserves_of s2) by by apply HM.
    by rewrite result_bind_Ok, Hg. }
  apply ends_bind. eapply ends_gives; [rewrite <- Ha; by apply gives_getAmountsOut, Hc|]. intros s3 L3'.
  assert (L3 : like s s3) by by transitivity s2. clear L3'.
  apply ends_bind. eapply ends_lift; [done|]. apply ends_bind, ends_throw_if; [by apply Z.ltb_ge|].
  apply ends_bind, (ends_pair_of_path (t0 := t0)); [by apply Hc|by apply HM|]. intros s4 L4'.
  assert (L4 : like s s4) by by transitivity s3. clear L4'.
  apply ends_bind. eapply ends_gives; [apply (gives_locals _ _ _ self caller_)|]. intros s5 L5'. rewrite (like_locals_of s s4) by done. fold caller.
  assert (L5 : like s s5) by by transitivity s4. clear L5'.
  apply ends_bind. eapply ends_lift; [done|]. apply ends_bind. eapply ends_lift; [done|].
  apply ends_bind, ends_bind, (ends_token_call _ _ _ self a0 c0 t0 (TransferFrom caller pair amountIn) t0'); [by apply Hc|apply (HM s5 L5)|by rewrite Hstep|].
  intros s6 C6 O6 T6. apply ends_ret. apply ends_bind. eapply ends_mono.
  - apply (ends_router_swap t0' amountIn out t1'); try done; [eapply calm_logger; [exact C6|by apply Hc]|].
    by apply (market_paid (t0 := t0) s5); [apply HM|..].
  - intros [] s7 (T0 & T1 & R & _). by apply ends_ret.
Qed.
End market.
End amounts.

(** ** The database *)

(** A router that is destroyed is loaded with its two addresses. *)
Theorem router_reloads {BB : BoostBits} {KC : Keccak} {DBI : RocksDB} address factory wrappedNative d :
  length factory = 20%nat → length wrappedNative = 20%nat →
  router_load address (router_save address factory wrappedNative d) = Ok (router_vars factory wrappedNative).
Proof.
  intros. set (fields := [("factory_", factory); ("wrappedNative_", wrappedNative)]%string).
  assert (E : router_save address factory wrappedNative d = putBatch d (mkBatch (named_puts (getDBPrefix address) fields) [])) by reflexivity.
  assert (Hget : ∀ s v, (s, v) ∈ fields → get (putBatch d (mkBatch (named_puts (getDBPrefix address) fields) [])) (string_bytes s) (getDBPrefix address) = v)
    by (intros; apply get_named; [by_compute|done]).
  unfold router_load. rewrite E. cbv zeta.
  rewrite (Hget "factory_"%string factory), (Hget "wrappedNative_"%string wrappedNative) by (unfold fields; rewrite !elem_of_cons; tauto).
  unfold FixedBytes_of. by rewrite !decide_True, !result_bind_Ok by done.
Qed.

(** ** Witnesses *)

Definition toy_router : list Z := toy_token 30.
Definition toy_market_pairs : gmap (list Z) (gmap (list Z) (list Z)) :=
  {[ toy_token 1 := {[ toy_token 2 := toy_pair_address ]}; toy_token 2 := {[ toy_token 1 := toy_pair_address ]} ]}.

(** The exchange of two tokens: the trader has all of the first one, the pair all of the second one. *)
Definition toy_market_vars : list contract_var :=
  toy_erc20_vars toy_trader 11000 ++ toy_erc20_vars toy_pair_address 20000 ++ toy_erc20_vars toy_trader 0 ++
  pair_vars zero_address (toy_token 1) (toy_token 2) 10000 20000 0 0 0 0 ++
  factory_vars zero_address toy_trader SafeVector_owned (SafeMap_owned toy_market_pairs) ++ router_vars toy_factory (toy_token 3).

Definition toy_token1 := @erc20_contract boost_ref toy_hash residue_ref 0 (toy_token 1) "ERC20".
Definition toy_token2 := @erc20_contract boost_ref toy_hash residue_ref 6 (toy_token 2) "ERC20".
Definition toy_pair_contract := @pair_contract boost_ref toy_hash residue_ref 12 toy_pair_address.
Definition toy_factory_contract := @factory_contract boost_ref toy_hash 28 toy_factory.

Definition toy_market_start : ContractManager (V := contract_var) :=
  mkManager (<[ toy_token 1 := toy_token1 ]> (<[ toy_token 2 := toy_token2 ]> (<[ toy_pair_address := toy_pair_contract ]> {[ toy_factory := toy_factory_contract ]})))
    {[ toy_router := mkLocals toy_trader toy_trader 0 ]} (call_start toy_market_vars) (Some ∅) [] (mkEventManager [] [])
    (mkGlobals zero_address zero_hash 1 5000000 zero_hash).

(** The trader sends ten thousand to the pair and lets the router take the rest. *)
Abbreviation toy_market_run := (@exec contract_var contract_value contract_variable boost_ref toy_hash residue_ref toy_token_types (λ _, 0) toy_trader 8080 _).
Definition toy_market : ContractManager (V := contract_var) :=
  with_call toy_market_start (call_ (toy_market_run (callContractFunction toy_trader (toy_token 1) is_ERC20 (λ t, @erc20_transfer residue_ref t (toy_token 1) toy_pair_address 10000) ;;~
    callContractFunction toy_trader (toy_token 1) is_ERC20 (λ t, erc20_approve t (toy_token 1) toy_router 1000))%code toy_market_start).2).

Definition toy_sold : token := mkToken 11000 {[ toy_trader := 1000; toy_pair_address := 10000 ]} {[ toy_trader := {[ toy_router := 1000 ]} ]}.

Example toy_market_token : token_at 0 (reads toy_market) = Some toy_sold.
Proof. by vm_compute. Qed.

Definition toy_path : list (list Z) := [toy_token 1; toy_token 2].

Lemma router_prices_witness :
  getAmountsOut (reserves_of toy_market toy_factory) 1000 toy_path = Ok [1000; 1813] ∧
  getAmountsIn (reserves_of toy_market toy_factory) 1813 toy_path = Ok [1000; 1813] ∧
  @gives boost_ref toy_hash residue_ref toy_token_types (λ _, 0) toy_trader 8080 _ (view_getAmountsOut toy_factory 1000 toy_path) toy_market
    (getAmountsOut (reserves_of toy_market toy_factory) 1000 toy_path) ∧
  @gives boost_ref toy_hash residue_ref toy_token_types (λ _, 0) toy_trader 8080 _ (view_getAmountsIn toy_factory 1000 toy_path) toy_market
    (getAmountsIn (reserves_of toy_market toy_factory) 1000 toy_path).
Proof.
  split; [by vm_compute|]. split; [by vm_compute|].
  apply (@router_prices boost_ref toy_hash residue_ref toy_token_types (λ _, 0) toy_trader 8080 toy_factory 1000 toy_path toy_market). by eexists.
Defined.

Abbreviation toy_returns := (@returns boost_ref toy_hash residue_ref toy_token_types (λ _, 0) toy_trader 8080 (list Z)).

Lemma router_sells_witness :
  let F := @swapExactTokensForTokens residue_ref 32 toy_router 1000 1800 toy_path (toy_token 8) 6000000 in
  (toy_market_run F toy_market).1 = Ok [1000; 1813] ∧
  toy_returns F toy_market (λ r _, sells 32 toy_market 1000 1800 toy_path 6000000 r).
Proof.
  split; [by vm_compute|].
  apply (@router_sells boost_ref toy_hash residue_ref toy_token_types (λ _, 0) toy_trader 8080 32 toy_router 1000 1800 toy_path (toy_token 8) 6000000 toy_market). by eexists.
Defined.

Lemma router_buys_witness :
  let F := @swapTokensForExactTokens residue_ref 32 toy_router 1813 1000 toy_path (toy_token 8) 6000000 in
  (toy_market_run F toy_market).1 = Ok [1000; 1813] ∧
  toy_returns F toy_market (λ r _, buys 32 toy_market 1813 1000 toy_path 6000000 r).
Proof.
  split; [by vm_compute|].
  apply (@router_buys boost_ref toy_hash residue_ref toy_token_types (λ _, 0) toy_trader 8080 32 toy_router 1813 1000 toy_path (toy_token 8) 6000000 toy_market). by eexists.
Defined.

Lemma liquidity_at_ratio_witness :
  liquidity_amounts 10000 20000 500 700 100 100 = Ok (350, 700) ∧
  350 ≤ 500 ∧ 700 ≤ 700 ∧
  ((10000 = 0 ∧ 20000 = 0 ∧ 350 = 500 ∧ 700 = 700) ∨
   (350 = 500 ∧ 100 ≤ 700 ∧ 0 < 10000 ∧ 700 * 10000 ≤ 350 * 20000 < (700 + 1) * 10000) ∨
   (700 = 700 ∧ 100 ≤ 350 ∧ 0 < 20000 ∧ 350 * 20000 ≤ 700 * 10000 < (350 + 1) * 20000)).
Proof. split; [by vm_compute|]. apply (liquidity_at_ratio 10000 20000 500 700 100 100); [by vm_compute|done|done]. Defined.

Lemma toy_market_ok : market 32 toy_factory toy_pair_address (toy_token 1) (toy_token 2) toy_factory_contract toy_pair_contract toy_token1 toy_token2
  toy_sold (toy_token_state toy_pair_address 20000) 10000 20000 toy_market.
Proof.
  assert (H1 : contracts_ toy_market !! toy_token 1 = Some toy_token1) by apply lookup_insert_eq.
  assert (H2 : contracts_ toy_market !! toy_token 2 = Some toy_token2).
  { change (contracts_ toy_market) with (contracts_ toy_market_start). cbn [contracts_ toy_market_start]. rewrite lookup_insert_ne by done. apply lookup_insert_eq. }
  assert (H3 : contracts_ toy_market !! toy_pair_address = Some toy_pair_contract).
  { change (contracts_ toy_market) with (contracts_ toy_market_start). cbn [contracts_ toy_market_start]. rewrite !lookup_insert_ne by done. apply lookup_insert_eq. }
  assert (H4 : contracts_ toy_market !! toy_factory = Some toy_factory_contract).
  { change (contracts_ toy_market) with (contracts_ toy_market_start). cbn [contracts_ toy_market_start]. rewrite !lookup_insert_ne by done. apply lookup_singleton_eq. }
  constructor.
  - by vm_compute.
  - unfold contract_of, getContract. by rewrite H4.
  - by vm_compute.
  - done.
  - unfold contract_of, getContract. by rewrite H3.
  - constructor; [by vm_compute..|split; by vm_compute|]. exists 0, 0, 0. split_and!; try done; by vm_compute.
  - constructor; [done|done|by vm_compute].
  - constructor; [done|done|by vm_compute].
  - unfold apart. cbn. lia.
Qed.

Lemma router_swap_pays_witness :
  ∃ t0' t1' s', toy_market_run (@swapExactTokensForTokens residue_ref 32 toy_router 1000 1800 [toy_token 1; toy_token 2] (toy_token 8) 6000000) toy_market = (Ok [1000; 1813], s') ∧
    token_step toy_router (TransferFrom toy_trader toy_pair_address 1000) toy_sold = Some t0' ∧
    move toy_pair_address (toy_token 8) 1813 (toy_token_state toy_pair_address 20000) = Some t1' ∧
    token_held (toy_token 1) toy_token1 t0' s' ∧ token_held (toy_token 2) toy_token2 t1' s' ∧
    reserves_at (first_var_ toy_pair_contract) s' (10000 + 1000) (20000 - 1813) ∧
    balance t0' toy_pair_address = 10000 + 1000 ∧
    balance t1' (toy_token 8) = balance (toy_token_state toy_pair_address 20000) (toy_token 8) + 1813.
Proof.
  assert (Hcaller : caller_ (locals_of toy_market toy_router) = toy_trader) by by vm_compute.
  assert (H := @router_swap_pays boost_ref toy_hash residue_ref toy_token_types (λ _, 0) toy_trader 8080 32 toy_router toy_factory toy_pair_address
    (toy_token 1) (toy_token 2) toy_factory_contract toy_pair_contract toy_token1 toy_token2 (toy_token_state toy_pair_address 20000) 10000 20000
    toy_sold 1000 1800 1813 (toy_token 8) 6000000 toy_market). cbv zeta in H. rewrite Hcaller in H. apply H; clear H.
  - by eexists.
  - apply toy_market_ok.
  - by vm_compute.
  - by vm_compute.
  - by vm_compute.
  - split; [done|]. split; [|by vm_compute]. apply map_Forall_insert_2; [lia|]. apply map_Forall_singleton. lia.
  - split; [done|]. split; [apply map_Forall_singleton; lia|]. by vm_compute.
  - by vm_compute.
  - by vm_compute.
  - by vm_compute.
  - by vm_compute.
  - by vm_compute.
  - lia.
  - lia.
  - lia.
  - lia.
  - by vm_compute.
  - lia.
  - lia.
  - by vm_compute.
  - by vm_compute.
  - by vm_compute.
Defined.

Lemma router_reloads_witness :
  @router_load ref_db toy_router (@router_save ref_db toy_router toy_factory (toy_token 3) (∅ : gmap _ _)) = Ok (router_vars toy_factory (toy_token 3)).
Proof. by apply (@router_reloads boost_ref toy_hash ref_db toy_router toy_factory (toy_token 3) (∅ : gmap _ _)). Defined.
