(* ===== verification/ERC721.v ===== *)
(** * ERC721: tokens that are not fungible (src/contract/templates/erc721.{h,cpp}, erc721test.{h,cpp})

    The functions of the contract as [code], the specification [nft] of what it keeps, and the invariant of its books: the balance
    of an address is the number of tokens it owns.  [ERC721Test] adds the minting and burning of numbered tokens. *)

From S2P Require Import Prelude Bytes SizedInts Hashing SafeBase SafeCell SafeString SafeUint SafeMap Tx Randomness Abi DB Hex Event EvmHost ContractManager ContractStore ContractVars ContractLogic CodeSpec ERC20 ERC20Store DexPair.

Definition nft_error (what : string) : exn := DynamicException ("ERC721::" ++ what).

Section erc721.
Context {BB : BoostBits} {KC : Keccak} {BR : BoostResidue}.

Section functions.
(** The index of [name_], and the address of the contract. *)
Variables (n : nat) (self : list Z).

Definition v_nft_name : nat := n.
Definition v_nft_symbol : nat := (n + 1)%nat.
Definition v_owners : nat := (n + 2)%nat.
Definition v_nft_balances : nat := (n + 3)%nat.
Definition v_tokenApprovals : nat := (n + 4)%nat.
Definition v_operatorApprovals : nat := (n + 5)%nat.

Definition ownerOf_ (tokenId : Z) : ccode (list Z) :=
  use v_owners (on_token_map (sm_find_const tokenId)) (λ it, CRet (match it with None => zero_address | Some a => a end)).
Definition getApproved_ (tokenId : Z) : ccode (list Z) :=
  use v_tokenApprovals (on_token_map (sm_find_const tokenId)) (λ it, CRet (match it with None => zero_address | Some a => a end)).

Definition isApprovedForAll (owner operatorAddress : list Z) : ccode bool :=
  use v_operatorApprovals (on_operators (sm_find_const owner)) (λ it,
    CRet (match it with None => false | Some inner => match inner !! operatorAddress with None => false | Some b => b end end)).

Definition isAuthorized_ (owner spender : list Z) (tokenId : Z) : ccode bool := (
  if decide (spender = owner) then CRet true
  else if decide (spender = zero_address) then CRet false
  else
    all <~ isApprovedForAll owner spender;;
    if (all : bool) then CRet true
    else
      approved <~ getApproved_ tokenId;;
      CRet (bool_decide (approved = spender)))%code.

Definition checkAuthorized_ (owner spender : list Z) (tokenId : Z) : ccode unit := (
  ok <~ isAuthorized_ owner spender tokenId;;
  if (ok : bool) then CRet tt
  else if address_bool owner then CThrow (nft_error "checkAuthorized_: Not authorized")
  else CThrow (nft_error "checkAuthorized_: inexistent token"))%code.

(** [tokenApprovals_\[tokenId\] = to], [owners_\[tokenId\] = to], [balances_\[a\]--] and [balances_\[a\]++]. *)
Definition set_approved (tokenId : Z) (to : list Z) : ccode unit :=
  use v_tokenApprovals (on_token_map (sm_modify zero_address tokenId (λ _, (Ok tt, to)))) CRet.
Definition set_owner (tokenId : Z) (to : list Z) : ccode unit :=
  use v_owners (on_token_map (sm_modify zero_address tokenId (λ _, (Ok tt, to)))) CRet.
Definition balance_decr (a : list Z) : ccode unit := use v_nft_balances (on_map (sm_modify 0 a (λ b, checked_sub b 1))) CRet.
Definition balance_incr (a : list Z) : ccode unit := use v_nft_balances (on_map (sm_modify 0 a (λ b, checked_add b 1))) CRet.

Definition update_ (to : list Z) (tokenId : Z) (auth : list Z) : ccode (list Z) := (
  from <~ ownerOf_ tokenId;;
  (if address_bool auth then checkAuthorized_ from auth tokenId else CRet tt) ;;~
  (if address_bool from then
     set_approved tokenId zero_address ;;~
     balance_decr from
   else CRet tt) ;;~
  (if address_bool to then balance_incr to else CRet tt) ;;~
  set_owner tokenId to ;;~
  CRet from)%code.

Definition mint_ (to : list Z) (tokenId : Z) : ccode unit := (
  code_throw_if (bool_decide (to = zero_address)) (nft_error "mint_: mint to the zero address") ;;~
  update_ to tokenId zero_address ;;~
  CRet tt)%code.

Definition burn_ (tokenId : Z) : ccode unit := (
  prevOwner <~ update_ zero_address tokenId zero_address;;
  code_throw_if (bool_decide (prevOwner = zero_address)) (nft_error "burn_: inexistent token"))%code.

Definition nft_transfer_ (from to : list Z) (tokenId : Z) : ccode unit := (
  code_throw_if (bool_decide (to = zero_address)) (nft_error "transfer_: transfer to the zero address") ;;~
  prevOwner <~ update_ to tokenId zero_address;;
  if decide (prevOwner = zero_address) then CThrow (nft_error "transfer_: inexistent token")
  else code_throw_if (bool_decide (prevOwner ≠ from)) (nft_error "transfer_: incorrect owner"))%code.

Definition ownerOf (tokenId : Z) : ccode (list Z) := (
  owner <~ ownerOf_ tokenId;;
  code_throw_if (bool_decide (owner = zero_address)) (nft_error "ownerOf: inexistent token") ;;~
  CRet owner)%code.

Definition approve_ (to : list Z) (tokenId : Z) (auth : list Z) : ccode (list Z) := (
  owner <~ ownerOf tokenId;;
  (if bool_decide (auth ≠ zero_address) && bool_decide (owner ≠ auth) then
     all <~ isApprovedForAll owner auth;;
     code_throw_if (negb all) (nft_error "approve_: Not authorized")
   else CRet tt) ;;~
  set_approved tokenId to ;;~
  CRet owner)%code.

Definition nft_balanceOf (owner : list Z) : ccode Z := (
  code_throw_if (bool_decide (owner = zero_address)) (nft_error "balanceOf: zero address") ;;~
  use v_nft_balances (on_map (sm_find_const owner)) (λ it, CRet (match it with None => 0 | Some x => x end)))%code.

Definition nft_approve (to : list Z) (tokenId : Z) : ccode unit :=
  CLocals self (λ l, approve_ to tokenId (caller_ l) ;;~ CRet tt)%code.

Definition requireMinted_ (tokenId : Z) : ccode unit := (
  owner <~ ownerOf_ tokenId;;
  code_throw_if (bool_decide (owner = zero_address)) (nft_error "requireMinted_: inexistent token"))%code.

Definition getApproved (tokenId : Z) : ccode (list Z) := (requireMinted_ tokenId ;;~ getApproved_ tokenId)%code.

Definition setApprovalForAll_ (owner operatorAddress : list Z) (approved : bool) : ccode unit := (
  code_throw_if (bool_decide (operatorAddress = zero_address)) (nft_error "setApprovalForAll_: zero address") ;;~
  use v_operatorApprovals (on_operators (sm_modify ∅ owner (λ inner, (Ok tt, <[operatorAddress := approved]> inner)))) CRet)%code.
Definition setApprovalForAll (operatorAddress : list Z) (approved : bool) : ccode unit :=
  CLocals self (λ l, setApprovalForAll_ (caller_ l) operatorAddress approved).

Definition nft_transferFrom (from to : list Z) (tokenId : Z) : ccode unit := (
  code_throw_if (bool_decide (to = zero_address)) (nft_error "transferFrom: transfer to the zero address") ;;~
  prevOwner <~ CLocals self (λ l, update_ to tokenId (caller_ l));;
  if decide (prevOwner = zero_address) then CThrow (nft_error "transferFrom: inexistent token")
  else code_throw_if (bool_decide (prevOwner ≠ from)) (nft_error "transferFrom: incorrect owner"))%code.

(** ** Registration *)

Definition a_bool (c : ccode bool) : ccode (list abi_val) := (b <~ c;; CRet [VBool b])%code.
Definition an_address_of (c : ccode (list Z)) : ccode (list abi_val) := (a <~ c;; CRet [VBytes a])%code.
Definition a_uint (c : ccode Z) : ccode (list abi_val) := (x <~ c;; CRet [VInt x])%code.
Definition args_uint1 (f : Z → ccode (list abi_val)) (vs : list abi_val) : ccode (list abi_val) :=
  match vs with [VInt x] => f x | _ => CThrow Undefined end.
Definition args_address_bool (f : list Z → bool → ccode (list abi_val)) (vs : list abi_val) : ccode (list abi_val) :=
  match vs with [VBytes a; VBool b] => f a b | _ => CThrow Undefined end.

Definition nft_registerContractFunctions (c : DynamicContract (V := contract_var)) : DynamicContract (V := contract_var) :=
  let c := registerMemberFunction "name" [] [TString] (args0 (use v_nft_name (on_string SafeString_get) (λ x, CRet [VBytes x]))) View c in
  let c := registerMemberFunction "symbol" [] [TString] (args0 (use v_nft_symbol (on_string SafeString_get) (λ x, CRet [VBytes x]))) View c in
  let c := registerMemberFunction "balanceOf" [TAddress] [TUint 256] (args_address (λ a, a_uint (nft_balanceOf a))) View c in
  let c := registerMemberFunction "ownerOf" [TUint 256] [TAddress] (args_uint1 (λ x, an_address_of (ownerOf x))) View c in
  let c := registerMemberFunction "approve" [TAddress; TUint 256] [] (args_address_uint (λ a x, no_value (nft_approve a x))) NonPayable c in
  let c := registerMemberFunction "getApproved" [TUint 256] [TAddress] (args_uint1 (λ x, an_address_of (getApproved x))) View c in
  let c := registerMemberFunction "setApprovalForAll" [TAddress; TBool] [] (args_address_bool (λ a b, no_value (setApprovalForAll a b))) NonPayable c in
  let c := registerMemberFunction "isApprovedForAll" [TAddress; TAddress] [TBool] (args_address2 (λ a b, a_bool (isApprovedForAll a b))) View c in
  registerMemberFunction "transferFrom" [TAddress; TAddress; TUint 256] [] (args_address2_uint (λ a b x, no_value (nft_transferFrom a b x))) NonPayable c.

Definition nft_contract (className : string) : DynamicContract (V := contract_var) :=
  nft_registerContractFunctions (mkContract className n ∅ ∅ ∅).

(** ** ERC721Test *)

Definition v_tokenIdCounter : nat := (n + 6)%nat.
Definition v_maxTokens : nat := (n + 7)%nat.
Definition v_nft_supply : nat := (n + 8)%nat.

Definition nft_mint (to : list Z) : ccode unit := (
  counter <~ get_uint v_tokenIdCounter;;
  max <~ get_uint v_maxTokens;;
  code_throw_if (max <=? counter) (RuntimeError "Max tokens reached") ;;~
  tokenId <~ get_uint v_tokenIdCounter;;
  mint_ to tokenId ;;~
  use v_tokenIdCounter (on_uint (pre_incr 64)) CRet ;;~
  use v_nft_supply (on_uint (pre_incr 64)) CRet)%code.

Definition nft_burn (tokenId : Z) : ccode unit := (
  CLocals self (λ l, update_ zero_address tokenId (caller_ l)) ;;~
  use v_nft_supply (on_uint (pre_decr 64)) CRet)%code.

Definition nftTest_registerContractFunctions (c : DynamicContract (V := contract_var)) : DynamicContract (V := contract_var) :=
  let c := registerMemberFunction "mint" [TAddress] [] (args_address (λ a, no_value (nft_mint a))) NonPayable c in
  let c := registerMemberFunction "burn" [TUint 256] [] (args_uint1 (λ x, no_value (nft_burn x))) NonPayable c in
  let c := registerMemberFunction "tokenIdCounter" [] [TUint 64] (args0 (a_uint (get_uint v_tokenIdCounter))) View c in
  let c := registerMemberFunction "maxTokens" [] [TUint 64] (args0 (a_uint (get_uint v_maxTokens))) View c in
  registerMemberFunction "totalSupply" [] [TUint 64] (args0 (a_uint (get_uint v_nft_supply))) View c.

(** The name of the class that the base constructor is given is that of the base class. *)
Definition nftTest_contract : DynamicContract (V := contract_var) := nftTest_registerContractFunctions (nft_contract "ERC721").
End functions.

(** ** Construction *)

(** The variables of the class: name, symbol and the four maps. *)
Definition nft_vars (name symbol : list Z) (owners : SafeIntMap (list Z)) (balances : SafeUnorderedMap Z) (approvals : SafeIntMap (list Z))
    (operators : SafeUnorderedMap (gmap (list Z) bool)) : list contract_var :=
  let string s := StringVar (ready_string (SafeString_assign s (SafeString_owned [])).2) in
  [string name; string symbol; TokenMapVar (ready_map owners); MapVar (ready_map balances); TokenMapVar (ready_map approvals);
   OperatorsVar (ready_map operators)].

Definition nft_construct (className : string) (name symbol : list Z) (creator address : list Z) (n : nat) : list contract_var * DynamicContract :=
  (nft_vars name symbol (SafeMap_owned ∅) (SafeMap_owned ∅) (SafeMap_owned ∅) (SafeMap_owned ∅), nft_contract n address className).

Definition numbering_vars (counter max supply : Z) : list contract_var :=
  let uint x := UintVar (ready_cell (assign_u x (SafeUint_owned 0)).2) in [uint counter; uint max; uint supply].

Definition nftTest_construct (name symbol : list Z) (maxTokens : Z) (creator address : list Z) (n : nat) : list contract_var * DynamicContract :=
  let '(vs, _) := nft_construct "ERC721" name symbol creator address n in
  (vs ++ numbering_vars 0 maxTokens 0, nftTest_contract n address).

(** [ContractFactory]'s entries of the two classes. *)
Definition nft_template : ContractTemplate (V := contract_var) :=
  mkTemplate [TString; TString] (λ args creator address _ n,
    match args with
    | [VBytes name; VBytes symbol] => Ok (nft_construct "ERC721" name symbol creator address n)
    | _ => Throw Undefined
    end).
Definition nftTest_template : ContractTemplate (V := contract_var) :=
  mkTemplate [TString; TString; TUint 64] (λ args creator address _ n,
    match args with
    | [VBytes name; VBytes symbol; VInt maxTokens] => Ok (nftTest_construct name symbol maxTokens creator address n)
    | _ => Throw Undefined
    end).
End erc721.

(** ** What the contract promises *)

Record nft := mkNft {
  owners : gmap Z (list Z);
  nft_balances : gmap (list Z) Z;
  approvals : gmap Z (list Z);
  operators : gmap (list Z) (gmap (list Z) bool)
}.

Definition owner_of (t : nft) (id : Z) : list Z := default zero_address (owners t !! id).
Definition tokens_of (t : nft) (a : list Z) : Z := default 0 (nft_balances t !! a).
Definition approved_of (t : nft) (id : Z) : list Z := default zero_address (approvals t !! id).
Definition is_operator (t : nft) (owner a : list Z) : bool := default false (default ∅ (operators t !! owner) !! a).

(** Who may move a token: its owner, an operator of the owner and the one the token is approved for. *)
Definition authorized (t : nft) (owner spender : list Z) (id : Z) : bool :=
  bool_decide (spender = owner) ||
  (negb (bool_decide (spender = zero_address)) && (is_operator t owner spender || bool_decide (approved_of t id = spender))).

Definition with_approval (id : Z) (a : list Z) (t : nft) : nft := mkNft (owners t) (nft_balances t) (<[id := a]> (approvals t)) (operators t).
Definition with_tokens (a : list Z) (x : Z) (t : nft) : nft := mkNft (owners t) (<[a := x]> (nft_balances t)) (approvals t) (operators t).
Definition with_owner (id : Z) (a : list Z) (t : nft) : nft := mkNft (<[id := a]> (owners t)) (nft_balances t) (approvals t) (operators t).
Definition with_operator (owner a : list Z) (b : bool) (t : nft) : nft :=
  mkNft (owners t) (nft_balances t) (approvals t) (<[owner := <[a := b]> (default ∅ (operators t !! owner))]> (operators t)).

Definition take_token (id : Z) (from : list Z) (t : nft) : option nft :=
  if address_bool from then
    if 1 <=? tokens_of t from then Some (with_tokens from (tokens_of t from - 1) (with_approval id zero_address t)) else None
  else Some t.
Definition give_token (to : list Z) (t : nft) : option nft :=
  if address_bool to then
    if tokens_of t to + 1 <=? umax 256 then Some (with_tokens to (tokens_of t to + 1) t) else None
  else Some t.

(** A token changes hands, in the name of [auth] unless that is zero; the previous owner is the result. *)
Definition nft_update (to : list Z) (id : Z) (auth : list Z) (t : nft) : option (list Z * nft) :=
  let from := owner_of t id in
  if address_bool auth && negb (authorized t from auth id) then None
  else
    match take_token id from t with
    | None => None
    | Some t1 =>
        match give_token to t1 with
        | None => None
        | Some t2 => Some (from, with_owner id to t2)
        end
    end.

Inductive nft_call :=
| NftTransferFrom (from to : list Z) (id : Z)
| NftApprove (to : list Z) (id : Z)
| NftSetApprovalForAll (operator : list Z) (approved : bool).

Definition nft_step (caller : list Z) (c : nft_call) (t : nft) : option nft :=
  match c with
  | NftTransferFrom from to id =>
      if bool_decide (to = zero_address) then None
      else match nft_update to id caller t with
           | Some (prev, t') => if bool_decide (prev = zero_address) || bool_decide (prev ≠ from) then None else Some t'
           | None => None
           end
  | NftApprove to id =>
      let owner := owner_of t id in
      if bool_decide (owner = zero_address) then None
      else if bool_decide (caller ≠ zero_address) && bool_decide (owner ≠ caller) && negb (is_operator t owner caller) then None
      else Some (with_approval id to t)
  | NftSetApprovalForAll operator approved =>
      if bool_decide (operator = zero_address) then None else Some (with_operator caller operator approved t)
  end.

(** ** The code against it *)

(** The books among the values of the variables of a call, and what else a class derived from this one keeps. *)
Definition nft_at (n : nat) (vals : list contract_value) : option nft :=
  match vals !! v_owners n, vals !! v_nft_balances n, vals !! v_tokenApprovals n, vals !! v_operatorApprovals n with
  | Some (TokenMapVal o), Some (MapVal b), Some (TokenMapVal a), Some (OperatorsVal p) => Some (mkNft o b a p)
  | _, _, _, _ => None
  end.
Definition nft_own (n i : nat) : bool := (n + 2 <=? i)%nat && (i <=? n + 8)%nat.

Section refines.
Context {BB : BoostBits} {KC : Keccak} {BR : BoostResidue} {CT : ContractTypes (V := contract_var)}.
Variables (bal : list Z → Z) (chainOwner : list Z) (chainId : Z) (n : nat) (self : list Z).
Context {Y : Type} (extra : list contract_value → option Y).
Hypothesis extra_apart : ∀ l i x, (n + 2 ≤ i ≤ n + 5)%nat → extra (<[i := x]> l) = extra l.
Implicit Types s : ContractManager (V := contract_var).

Definition nft_abs (l : list contract_value) : option (nft * Y) :=
  match nft_at n l, extra l with Some t, Some y => Some (t, y) | _, _ => None end.
Abbreviation sees := (CodeSpec.sees nft_abs).
Abbreviation does := (CodeSpec.does bal chainOwner chainId nft_abs (nft_own n)).

(** The result of a pure step, beside what else is kept. *)
Definition beside {A} (y : Y) (o : option (A * nft)) : option (A * (nft * Y)) :=
  match o with Some (a, t) => Some (a, (t, y)) | None => None end.

Lemma nft_abs_inv l t y : nft_abs l = Some (t, y) → l !! v_owners n = Some (TokenMapVal (owners t)) ∧ l !! v_nft_balances n = Some (MapVal (nft_balances t)) ∧
  l !! v_tokenApprovals n = Some (TokenMapVal (approvals t)) ∧ l !! v_operatorApprovals n = Some (OperatorsVal (operators t)) ∧ extra l = Some y.
Proof.
  unfold nft_abs, nft_at. destruct (l !! v_owners n) as [[]|]; try done. destruct (l !! v_nft_balances n) as [[]|]; try done.
  destruct (l !! v_tokenApprovals n) as [[]|]; try done. destruct (l !! v_operatorApprovals n) as [[]|]; try done.
  destruct (extra l); [|done]. by intros [= <- ->].
Qed.

Lemma nft_abs_of l t y : l !! v_owners n = Some (TokenMapVal (owners t)) → l !! v_nft_balances n = Some (MapVal (nft_balances t)) →
  l !! v_tokenApprovals n = Some (TokenMapVal (approvals t)) → l !! v_operatorApprovals n = Some (OperatorsVal (operators t)) → extra l = Some y →
  nft_abs l = Some (t, y).
Proof. unfold nft_abs, nft_at. intros -> -> -> -> ->. by destruct t. Qed.

(** One of the variables is written. *)
Ltac nft_put :=
  intros (H1 & H2 & H3 & H4 & H5)%nft_abs_inv; apply nft_abs_of; rewrite ?extra_apart by (unfold v_owners, v_nft_balances, v_tokenApprovals, v_operatorApprovals; lia);
  first [done|by apply list_lookup_insert_eq; eapply lookup_lt_Some
        |by rewrite list_lookup_insert_ne by (unfold v_owners, v_nft_balances, v_tokenApprovals, v_operatorApprovals; lia)].
Lemma put_owners l t y o : nft_abs l = Some (t, y) →
  nft_abs (<[v_owners n := TokenMapVal o]> l) = Some (mkNft o (nft_balances t) (approvals t) (operators t), y).
Proof. nft_put. Qed.
Lemma put_tokens l t y b : nft_abs l = Some (t, y) →
  nft_abs (<[v_nft_balances n := MapVal b]> l) = Some (mkNft (owners t) b (approvals t) (operators t), y).
Proof. nft_put. Qed.
Lemma put_approvals l t y a : nft_abs l = Some (t, y) →
  nft_abs (<[v_tokenApprovals n := TokenMapVal a]> l) = Some (mkNft (owners t) (nft_balances t) a (operators t), y).
Proof. nft_put. Qed.
Lemma put_operators l t y p : nft_abs l = Some (t, y) →
  nft_abs (<[v_operatorApprovals n := OperatorsVal p]> l) = Some (mkNft (owners t) (nft_balances t) (approvals t) p, y).
Proof. nft_put. Qed.

Lemma sees_inv s t y : sees s (t, y) → is_Some (callLogger_ s) ∧ nft_abs (reads s) = Some (t, y) ∧
  reads s !! v_owners n = Some (TokenMapVal (owners t)) ∧ reads s !! v_nft_balances n = Some (MapVal (nft_balances t)) ∧
  reads s !! v_tokenApprovals n = Some (TokenMapVal (approvals t)) ∧ reads s !! v_operatorApprovals n = Some (OperatorsVal (operators t)).
Proof. intros [Hm H]. apply nft_abs_inv in H as H'. tauto. Qed.

(** *** The parts *)

Lemma does_ownerOf_ id s t y : sees s (t, y) → does (ownerOf_ n id) s (Some (owner_of t id, (t, y))).
Proof. intros H. apply (does_find _ _ _ _ _ token_map_kind _ (owners t) _ (default zero_address)); [done|]. apply sees_inv in H. tauto. Qed.
Lemma does_getApproved_ id s t y : sees s (t, y) → does (getApproved_ n id) s (Some (approved_of t id, (t, y))).
Proof. intros H. apply (does_find _ _ _ _ _ token_map_kind _ (approvals t) _ (default zero_address)); [done|]. apply sees_inv in H. tauto. Qed.
Lemma does_isApprovedForAll owner a s t y : sees s (t, y) → does (isApprovedForAll n owner a) s (Some (is_operator t owner a, (t, y))).
Proof.
  intros H. assert (Hp := sees_inv _ _ _ H).
  assert (E : is_operator t owner a = match operators t !! owner with None => false | Some inner => match inner !! a with None => false | Some b => b end end).
  { unfold is_operator. destruct (operators t !! owner) as [m|]; cbn; [by destruct (m !! a)|by rewrite lookup_empty]. }
  rewrite E. apply (does_find _ _ _ _ _ operators_kind _ (operators t) owner
    (λ it, match it with None => false | Some inner => match inner !! a with None => false | Some b => b end end)); tauto.
Qed.
Lemma does_balanceOf a s t y : sees s (t, y) →
  does (nft_balanceOf n a) s (if bool_decide (a = zero_address) then None else Some (tokens_of t a, (t, y))).
Proof.
  intros H. unfold nft_balanceOf. case_bool_decide; [by apply does_unless, does_throw|]. eapply does_then; [by apply (does_throw_if _ _ _ _ _ false)|].
  intros s1 _ H1. apply (does_find _ _ _ _ _ balances_kind _ (nft_balances t) _ (default 0)); [done|]. apply sees_inv in H1. tauto.
Qed.

Lemma own_vars : nft_own n (v_owners n) = true ∧ nft_own n (v_nft_balances n) = true ∧ nft_own n (v_tokenApprovals n) = true ∧
  nft_own n (v_operatorApprovals n) = true.
Proof. unfold nft_own, v_owners, v_nft_balances, v_tokenApprovals, v_operatorApprovals. split_and!; apply andb_true_iff; split; apply Nat.leb_le; lia. Qed.

Lemma does_set_owner id a s t y : sees s (t, y) → does (set_owner n id a) s (Some (tt, (with_owner id a t, y))).
Proof.
  intros (Hm & Habs & Ho & _)%sees_inv. apply (does_modify _ _ _ _ _ token_map_kind _ (owners t)); [done|apply own_vars|done|].
  split; [done|]. by apply put_owners.
Qed.
Lemma does_set_approved id a s t y : sees s (t, y) → does (set_approved n id a) s (Some (tt, (with_approval id a t, y))).
Proof.
  intros (Hm & Habs & _ & _ & Ha & _)%sees_inv. apply (does_modify _ _ _ _ _ token_map_kind _ (approvals t)); [done|apply own_vars|done|].
  split; [done|]. by apply put_approvals.
Qed.
Lemma does_set_operator owner a b s t y : sees s (t, y) →
  does (use (v_operatorApprovals n) (on_operators (sm_modify ∅ owner (λ inner, (Ok tt, <[a := b]> inner)))) CRet) s (Some (tt, (with_operator owner a b t, y))).
Proof.
  intros (Hm & Habs & _ & _ & _ & Hp)%sees_inv. apply (does_modify _ _ _ _ _ operators_kind _ (operators t)); [done|apply own_vars|done|].
  split; [done|]. by apply put_operators.
Qed.
Lemma does_decr a s t y : sees s (t, y) →
  does (balance_decr n a) s (beside y (if 1 <=? tokens_of t a then Some (tt, with_tokens a (tokens_of t a - 1) t) else None)).
Proof.
  intros (Hm & Habs & _ & Hb & _)%sees_inv. apply (does_modify _ _ _ _ _ balances_kind _ (nft_balances t)); [done|apply own_vars|done|].
  fold (tokens_of t a). unfold checked_sub. destruct (1 <=? tokens_of t a); [|done]. split; [done|]. by apply put_tokens.
Qed.
Lemma does_incr a s t y : sees s (t, y) →
  does (balance_incr n a) s (beside y (if tokens_of t a + 1 <=? umax 256 then Some (tt, with_tokens a (tokens_of t a + 1) t) else None)).
Proof.
  intros (Hm & Habs & _ & Hb & _)%sees_inv. apply (does_modify _ _ _ _ _ balances_kind _ (nft_balances t)); [done|apply own_vars|done|].
  fold (tokens_of t a). unfold checked_add. destruct (_ <=? umax 256); [|done]. split; [done|]. by apply put_tokens.
Qed.

Lemma does_isAuthorized owner a id s t y : sees s (t, y) → does (isAuthorized_ n owner a id) s (Some (authorized t owner a id, (t, y))).
Proof.
  intros H. unfold isAuthorized_, authorized. case_decide as E1; [rewrite bool_decide_eq_true_2 by done; by apply does_ret|].
  rewrite (bool_decide_eq_false_2 (a = owner)) by done. case_decide as E2; [rewrite bool_decide_eq_true_2 by done; by apply does_ret|].
  rewrite (bool_decide_eq_false_2 (a = zero_address)) by done. cbn [orb negb andb].
  eapply does_then; [by apply does_isApprovedForAll|]. intros s1 _ H1. destruct (is_operator t owner a); [by apply does_ret|].
  eapply does_then; [by apply does_getApproved_|]. intros s2 _ H2. by apply does_ret.
Qed.

Lemma does_checkAuthorized owner a id s t y : sees s (t, y) →
  does (checkAuthorized_ n owner a id) s (if authorized t owner a id then Some (tt, (t, y)) else None).
Proof.
  intros H. eapply does_then; [by apply does_isAuthorized|]. intros s1 _ H1. destruct (authorized t owner a id); [by apply does_ret|].
  by destruct (address_bool owner); apply does_throw.
Qed.

(** [update_] is the step of the specification. *)
Lemma does_update to id auth s t y : sees s (t, y) → does (update_ n to id auth) s (beside y (nft_update to id auth t)).
Proof.
  intros H. unfold update_, nft_update. eapply does_then; [by apply does_ownerOf_|]. intros s1 _ H1. set (from := owner_of t id).
  destruct (address_bool auth && negb (authorized t from auth id)) eqn:Ea.
  { apply andb_true_iff in Ea as [-> Ea%negb_true_iff]. apply does_unless. assert (Hc := does_checkAuthorized from auth id s1 t y H1). by rewrite Ea in Hc. }
  eapply (does_then _ _ _ _ _ _ _ _ tt (t, y)).
  { destruct (address_bool auth); [|by apply does_ret]. cbn [andb] in Ea. apply negb_false_iff in Ea.
    assert (Hc := does_checkAuthorized from auth id s1 t y H1). by rewrite Ea in Hc. }
  intros s2 _ H2.
  assert (Htake : does (if address_bool from then set_approved n id zero_address ;;~ balance_decr n from else CRet tt)%code s2
    (beside y ((λ t1, (tt, t1)) <$> take_token id from t))).
  { unfold take_token. destruct (address_bool from); [|by apply does_ret]. eapply does_then; [by apply does_set_approved|]. intros s3 _ H3.
    assert (Hd := does_decr from s3 _ y H3). change (tokens_of (with_approval id zero_address t) from) with (tokens_of t from) in Hd.
    by destruct (1 <=? tokens_of t from). }
  destruct (take_token id from t) as [t1|]; [|by apply does_unless].
  eapply does_then; [exact Htake|]. intros s3 _ H3.
  assert (Hgive : does (if address_bool to then balance_incr n to else CRet tt) s3 (beside y ((λ t2, (tt, t2)) <$> give_token to t1))).
  { unfold give_token. destruct (address_bool to); [|by apply does_ret]. assert (Hi := does_incr to s3 _ y H3). by destruct (_ <=? umax 256). }
  destruct (give_token to t1) as [t2|]; [|by apply does_unless].
  eapply does_then; [exact Hgive|]. intros s4 _ H4. eapply does_then; [by apply does_set_owner|]. intros s5 _ H5. by apply does_ret.
Qed.

Lemma does_ownerOf id s t y : sees s (t, y) →
  does (ownerOf n id) s (if bool_decide (owner_of t id = zero_address) then None else Some (owner_of t id, (t, y))).
Proof.
  intros H. eapply does_then; [by apply does_ownerOf_|]. intros s1 _ H1. case_bool_decide; [by apply does_unless, does_throw|].
  eapply does_then; [by apply (does_throw_if _ _ _ _ _ false)|]. intros s2 _ H2. by apply does_ret.
Qed.

(** A token may be approved for somebody by its owner and the operators of its owner. *)
Definition may_approve (t : nft) (id : Z) (auth : list Z) : bool :=
  negb (bool_decide (auth ≠ zero_address) && bool_decide (owner_of t id ≠ auth) && negb (is_operator t (owner_of t id) auth)).

Lemma does_approve_ to id auth s t y : sees s (t, y) →
  does (approve_ n to id auth) s
    (if bool_decide (owner_of t id = zero_address) then None
     else if may_approve t id auth then Some (owner_of t id, (with_approval id to t, y)) else None).
Proof.
  intros H. unfold approve_, may_approve. assert (Ho := does_ownerOf id s t y H). set (owner := owner_of t id) in *.
  destruct (bool_decide (owner = zero_address)); [by apply does_unless|]. eapply does_then; [exact Ho|]. intros s1 _ H1.
  assert (Hc : does (if bool_decide (auth ≠ zero_address) && bool_decide (owner ≠ auth)
      then (all <~ isApprovedForAll n owner auth;; code_throw_if (negb all) (nft_error "approve_: Not authorized"))%code else CRet tt) s1
      (if negb (bool_decide (auth ≠ zero_address) && bool_decide (owner ≠ auth) && negb (is_operator t owner auth)) then Some (tt, (t, y)) else None)).
  { destruct (_ && _); [|by apply does_ret]. eapply does_then; [by apply does_isApprovedForAll|]. intros s2 _ H2. cbn [andb].
    destruct (is_operator t owner auth); [by apply (does_throw_if _ _ _ _ _ false)|by apply does_throw]. }
  destruct (negb _); [|by apply does_unless]. eapply does_then; [exact Hc|]. intros s2 _ H2.
  eapply does_then; [by apply does_set_approved|]. intros s3 _ H3. by apply does_ret.
Qed.

(** *** The functions *)

Definition nft_code (c : nft_call) : ccode unit :=
  match c with
  | NftTransferFrom from to id => nft_transferFrom n self from to id
  | NftApprove to id => nft_approve n self to id
  | NftSetApprovalForAll operator approved => setApprovalForAll n self operator approved
  end.

Lemma does_nft_call c s t y : sees s (t, y) →
  does (nft_code c) s (beside y ((λ t', (tt, t')) <$> nft_step (caller_ (locals_of s self)) c t)).
Proof.
  intros H. set (caller := caller_ (locals_of s self)). destruct c as [from to id|to id|operator approved]; cbn [nft_code nft_step].
  - unfold nft_transferFrom. case_bool_decide; [by apply does_unless, does_throw|]. eapply does_then; [by apply (does_throw_if _ _ _ _ _ false)|].
    intros s1 F1 H1.
    assert (Hl : locals_of s1 self = locals_of s self) by by unfold locals_of; rewrite (framed_locals _ _ _ F1).
    assert (Hu := does_update to id caller s1 t y H1).
    assert (Hu' : does (CLocals self (λ l, update_ n to id (caller_ l))) s1 (beside y (nft_update to id caller t))) by by apply does_locals; rewrite Hl.
    destruct (nft_update to id caller t) as [[prev t']|]; [|by apply does_unless]. eapply does_then; [exact Hu'|]. intros s2 _ H2.
    case_decide as E; [rewrite bool_decide_eq_true_2 by done; by apply does_throw|]. rewrite (bool_decide_eq_false_2 (prev = zero_address)) by done.
    case_bool_decide; [by apply does_throw|by apply does_ret].
  - apply does_locals. fold caller. assert (Ha := does_approve_ to id caller s t y H). unfold may_approve in Ha.
    destruct (bool_decide (owner_of t id = zero_address)); [by apply does_unless|].
    destruct (_ && _ && _); [by apply does_unless|]. eapply does_then; [exact Ha|]. intros s1 _ H1. by apply does_ret.
  - apply does_locals. fold caller. unfold setApprovalForAll_. case_bool_decide; [by apply does_unless, does_throw|].
    eapply does_then; [by apply (does_throw_if _ _ _ _ _ false)|]. intros s1 _ H1. by apply does_set_operator.
Qed.

(** A function of the contract does to its books what the specification says, for the caller it sees, and throws, leaving everything else
    as it is, where there is no step. *)
Theorem nft_call_refines c s t y :
  sees s (t, y) → does (nft_code c) s (beside y ((λ t', (tt, t')) <$> nft_step (caller_ (locals_of s self)) c t)).
Proof. apply does_nft_call. Qed.
End refines.

(** ** The books *)

(** How many tokens are held as [P] says; the tokens of an address are those that it owns. *)
Definition count_if (P : list Z → Prop) {HP : ∀ a, Decision (P a)} (m : gmap Z (list Z)) : Z := Z.of_nat (size (filter (λ p, P p.2) m)).
Definition count_owned (a : list Z) (m : gmap Z (list Z)) : Z := count_if (λ b, b = a) m.

Definition nft_ok (t : nft) : Prop := ∀ a, address_bool a = true → tokens_of t a = count_owned a (owners t).

Section count.
Context (P : list Z → Prop) {HP : ∀ a, Decision (P a)}.

Lemma count_if_delete id m : count_if P m = count_if P (delete id m) + match m !! id with Some x => if decide (P x) then 1 else 0 | None => 0 end.
Proof.
  unfold count_if. destruct (m !! id) as [x|] eqn:Ex.
  - rewrite <- (insert_delete_id m id x Ex) at 1. case_decide as E.
    + rewrite (map_filter_insert_True (λ p : Z * list Z, P p.2) _ id x) by done.
      rewrite map_size_insert_None; [lia|]. by rewrite map_lookup_filter, lookup_delete_eq.
    + rewrite map_filter_insert_False, delete_delete_eq by done. lia.
  - by rewrite delete_id, Z.add_0_r by done.
Qed.
Lemma count_if_insert id b m : count_if P (<[id := b]> m) = count_if P (delete id m) + (if decide (P b) then 1 else 0).
Proof. by rewrite (count_if_delete id), delete_insert_eq, lookup_insert_eq. Qed.
End count.

Lemma count_delete a id m : count_owned a m = count_owned a (delete id m) + (if decide (m !! id = Some a) then 1 else 0).
Proof. unfold count_owned. rewrite (count_if_delete _ id). destruct (m !! id) as [x|]; repeat case_decide; simplify_eq; done. Qed.
Lemma count_insert a id b m : count_owned a (<[id := b]> m) = count_owned a (delete id m) + (if decide (b = a) then 1 else 0).
Proof. exact (count_if_insert (λ x, x = a) id b m). Qed.

Lemma zero_not_address : address_bool zero_address = false.
Proof. done. Qed.

Lemma owner_lookup t id a : address_bool a = true → owners t !! id = Some a ↔ owner_of t id = a.
Proof.
  intros Ha. unfold owner_of. destruct (owners t !! id) as [b|]; cbn; [by split; [intros [= ->]|intros ->]|].
  split; [done|]. intros <-. done.
Qed.

(** What a change of hands does: the owner of the token, its approval and the two balances; a token that is owned is always taken off. *)
Lemma nft_update_spec to id auth t :
  nft_ok t → let from := owner_of t id in
  match nft_update to id auth t with
  | Some (prev, t') => prev = from ∧ nft_ok t' ∧ (address_bool auth = true → authorized t from auth id = true) ∧
      owners t' = <[id := to]> (owners t) ∧ operators t' = operators t ∧
      approvals t' = (if address_bool from then <[id := zero_address]> (approvals t) else approvals t) ∧
      ∀ a, address_bool a = true → tokens_of t' a = tokens_of t a - (if decide (a = from) then 1 else 0) + (if decide (a = to) then 1 else 0)
  | None => (address_bool auth = true ∧ authorized t from auth id = false) ∨ (address_bool to = true ∧ umax 256 < tokens_of t to + 1)
  end.
Proof.
  intros Hok from. unfold nft_update. fold from. destruct (address_bool auth && _) eqn:Ea.
  { left. by apply andb_true_iff in Ea as [? ?%negb_true_iff]. }
  assert (Hauth : address_bool auth = true → authorized t from auth id = true).
  { intros E. rewrite E in Ea. by apply negb_false_iff in Ea. }
  assert (Htake : ∃ t1, take_token id from t = Some t1 ∧ owners t1 = owners t ∧ operators t1 = operators t ∧
    approvals t1 = (if address_bool from then <[id := zero_address]> (approvals t) else approvals t) ∧
    ∀ a, address_bool a = true → tokens_of t1 a = tokens_of t a - (if decide (a = from) then 1 else 0)).
  { unfold take_token. destruct (address_bool from) eqn:Ef.
    - assert (1 ≤ tokens_of t from).
      { rewrite (Hok from Ef), (count_delete from id), decide_True by by apply owner_lookup. unfold count_owned, count_if. lia. }
      rewrite (proj2 (Z.leb_le _ _)) by done. eexists. split; [done|]. split; [done|]. split; [done|]. split; [done|].
      intros a _. unfold tokens_of. cbn [nft_balances with_tokens with_approval]. case_decide as E; [subst a; by rewrite lookup_insert_eq|].
      rewrite lookup_insert_ne by done. lia.
    - exists t. split_and!; try done. intros a Ha. rewrite decide_False by (intros ->; congruence). lia. }
  destruct Htake as (t1 & -> & O1 & P1 & A1 & B1). unfold give_token.
  destruct (address_bool to) eqn:Eto.
  - destruct (Z.leb_spec (tokens_of t1 to + 1) (umax 256)) as [Hle|Hgt].
    + split; [done|]. assert (Hb : ∀ a, address_bool a = true → tokens_of (with_owner id to (with_tokens to (tokens_of t1 to + 1) t1)) a =
        tokens_of t a - (if decide (a = from) then 1 else 0) + (if decide (a = to) then 1 else 0)).
      { intros a Ha. change (tokens_of (with_owner id to ?u) a) with (tokens_of u a). unfold tokens_of at 1. cbn [nft_balances with_tokens].
        destruct (decide (a = to)) as [->|Hne]; [rewrite lookup_insert_eq; cbn; rewrite B1 by done; lia|].
        rewrite lookup_insert_ne by done. fold (tokens_of t1 a). rewrite B1 by done. lia. }
      split; [|split; [done|]; split; [by cbn; rewrite O1|]; split; [done|]; split; [done|done]].
      intros a Ha. rewrite (Hb a Ha), (Hok a Ha). cbn [owners with_owner with_tokens]. rewrite O1, count_insert, (count_delete a id (owners t)).
      rewrite (decide_ext _ (a = from)) by (by rewrite owner_lookup).
      rewrite (decide_ext (to = a) (a = to)) by done. lia.
    + right. split; [done|]. rewrite B1 in Hgt by done. case_decide; lia.
  - split; [done|]. assert (Hb : ∀ a, address_bool a = true → tokens_of (with_owner id to t1) a =
        tokens_of t a - (if decide (a = from) then 1 else 0) + (if decide (a = to) then 1 else 0)).
    { intros a Ha. change (tokens_of (with_owner id to t1) a) with (tokens_of t1 a). rewrite B1 by done. rewrite (decide_False (P := a = to)) by (intros ->; congruence). lia. }
    split; [|split; [done|]; split; [by cbn; rewrite O1|]; split; [done|]; split; [done|done]].
    intros a Ha. rewrite (Hb a Ha), (Hok a Ha). cbn [owners with_owner with_tokens]. rewrite O1, count_insert, (count_delete a id (owners t)).
    rewrite (decide_ext (owners t !! id = Some a) (a = from)) by (by rewrite owner_lookup).
    rewrite (decide_ext (to = a) (a = to)) by done. lia.
Qed.

(** The addresses of the books are as long as addresses are. *)
Definition nft_wf (t : nft) : Prop := map_Forall (λ _ a, length a = 20%nat) (owners t).

Lemma address_bool_20 a : length a = 20%nat → address_bool a = negb (bool_decide (a = zero_address)).
Proof.
  intros Hl. destruct (address_bool a) eqn:E.
  - rewrite bool_decide_eq_false_2; [done|]. by intros ->.
  - rewrite bool_decide_eq_true_2; [done|]. unfold zero_address, zero_bytes. rewrite <- Hl. clear Hl.
    unfold address_bool in E. induction a as [|b a IH]; [done|]. cbn in E |- *. apply orb_false_iff in E as [Hb%negb_false_iff%Z.eqb_eq E].
    subst b. f_equal. by apply IH.
Qed.

Lemma owner_of_20 t id : nft_wf t → length (owner_of t id) = 20%nat.
Proof. intros H. unfold owner_of. destruct (owners t !! id) eqn:E; [by apply (H id)|done]. Qed.

Lemma nft_update_wf to id auth t prev t' : nft_wf t → length to = 20%nat → nft_update to id auth t = Some (prev, t') → nft_wf t'.
Proof.
  intros Hwf Hl. unfold nft_update. destruct (_ && _); [done|]. destruct (take_token _ _ _) as [t1|] eqn:E1; [|done].
  destruct (give_token _ _) as [t2|] eqn:E2; [|done]. intros [= _ <-]. unfold nft_wf. cbn [owners with_owner].
  assert (owners t2 = owners t) as ->; [|by apply map_Forall_insert_2].
  unfold give_token in E2. unfold take_token in E1. repeat (case_match; simplify_eq); done.
Qed.

(** ** The functions on the books *)

(** Every call keeps the books right. *)
Theorem nft_step_keeps_books caller c t t' : nft_ok t → nft_step caller c t = Some t' → nft_ok t'.
Proof.
  intros Hok. destruct c as [from to id|to id|operator approved]; cbn [nft_step].
  - case_bool_decide; [done|]. assert (Hu := nft_update_spec to id caller t Hok). destruct (nft_update to id caller t) as [[prev u]|]; [|done].
    destruct (_ || _); [done|]. intros [= <-]. apply Hu.
  - case_bool_decide; [done|]. destruct (_ && _); [done|]. by intros [= <-].
  - case_bool_decide; [done|]. by intros [= <-].
Qed.

(** A transfer that is made moves the one token, from its owner and with the right to do so, and clears its approval; one that is not made
    is one of these. *)
Theorem transferFrom_moves caller from to id t :
  nft_ok t → nft_wf t → address_bool caller = true → length to = 20%nat →
  match nft_step caller (NftTransferFrom from to id) t with
  | Some t' =>
      owner_of t id = from ∧ from ≠ zero_address ∧ to ≠ zero_address ∧ authorized t from caller id = true ∧
      nft_ok t' ∧ nft_wf t' ∧ owners t' = <[id := to]> (owners t) ∧ approvals t' = <[id := zero_address]> (approvals t) ∧ operators t' = operators t ∧
      (∀ a, address_bool a = true → tokens_of t' a = tokens_of t a - (if decide (a = from) then 1 else 0) + (if decide (a = to) then 1 else 0))
  | None =>
      to = zero_address ∨ owner_of t id = zero_address ∨ owner_of t id ≠ from ∨ authorized t (owner_of t id) caller id = false ∨
      umax 256 < tokens_of t to + 1
  end.
Proof.
  intros Hok Hwf Hc Hl. cbn [nft_step]. case_bool_decide as Ez; [by left|].
  assert (Hu := nft_update_spec to id caller t Hok). assert (Hw := nft_update_wf to id caller t). cbn zeta in Hu.
  destruct (nft_update to id caller t) as [[prev t']|].
  - destruct Hu as (-> & Hok' & Hauth & Ho & Hp & Ha & Hb). case_bool_decide as E1; cbn [orb]; [by auto|]. case_bool_decide as E2; [by auto|].
    subst from. rewrite address_bool_20, bool_decide_eq_false_2 in Ha by (done || by apply owner_of_20).
    split_and!; auto. by eapply Hw.
  - destruct Hu as [[_ Hu]|[_ Hu]]; auto.
Qed.

(** ** ERC721Test *)

(** What it keeps beside the books. *)
Record numbering := mkNumbering { counter : Z; max_tokens : Z; supply : Z }.

Definition numbering_at (n : nat) (vals : list contract_value) : option numbering :=
  match vals !! v_tokenIdCounter n, vals !! v_maxTokens n, vals !! v_nft_supply n with
  | Some (UintVal c), Some (UintVal m), Some (UintVal x) => Some (mkNumbering c m x)
  | _, _, _ => None
  end.

Inductive test_call :=
| TestMint (to : list Z)
| TestBurn (id : Z)
| TestNft (c : nft_call).

Definition test_step (caller : list Z) (c : test_call) (x : nft * numbering) : option (nft * numbering) :=
  let '(t, y) := x in
  match c with
  | TestMint to =>
      if max_tokens y <=? counter y then None
      else if bool_decide (to = zero_address) then None
      else match nft_update to (counter y) zero_address t with
           | None => None
           | Some (_, t') =>
               if (counter y =? umax 64) || (supply y =? umax 64) then None
               else Some (t', mkNumbering (counter y + 1) (max_tokens y) (supply y + 1))
           end
  | TestBurn id =>
      match nft_update zero_address id caller t with
      | None => None
      | Some (_, t') => if supply y =? 0 then None else Some (t', mkNumbering (counter y) (max_tokens y) (supply y - 1))
      end
  | TestNft c => match nft_step caller c t with None => None | Some t' => Some (t', y) end
  end.

Section test_refines.
Context {BB : BoostBits} {KC : Keccak} {BR : BoostResidue} {CT : ContractTypes (V := contract_var)}.
Variables (bal : list Z → Z) (chainOwner : list Z) (chainId : Z) (n : nat) (self : list Z).
Implicit Types s : ContractManager (V := contract_var).
Abbreviation test_abs := (nft_abs n (numbering_at n)).
Abbreviation sees := (CodeSpec.sees test_abs).
Abbreviation does := (CodeSpec.does bal chainOwner chainId test_abs (nft_own n)).

Lemma numbering_apart l i x : (n + 2 ≤ i ≤ n + 5)%nat → numbering_at n (<[i := x]> l) = numbering_at n l.
Proof. intros Hi. unfold numbering_at, v_tokenIdCounter, v_maxTokens, v_nft_supply. by rewrite !list_lookup_insert_ne by lia. Qed.

Lemma numbering_inv l y : numbering_at n l = Some y →
  l !! v_tokenIdCounter n = Some (UintVal (counter y)) ∧ l !! v_maxTokens n = Some (UintVal (max_tokens y)) ∧ l !! v_nft_supply n = Some (UintVal (supply y)).
Proof.
  unfold numbering_at. destruct (l !! v_tokenIdCounter n) as [[]|]; try done. destruct (l !! v_maxTokens n) as [[]|]; try done.
  destruct (l !! v_nft_supply n) as [[]|]; try done. by intros [= <-].
Qed.

Definition test_code (c : test_call) : ccode unit :=
  match c with
  | TestMint to => nft_mint n to
  | TestBurn id => nft_burn n self id
  | TestNft c => nft_code n self c
  end.

Lemma test_put l i z t y y' : (n + 6 ≤ i)%nat → test_abs l = Some (t, y) → numbering_at n (<[i := z]> l) = Some y' → test_abs (<[i := z]> l) = Some (t, y').
Proof.
  intros Hi H Hy. unfold nft_abs in *. rewrite Hy. assert (nft_at n (<[i := z]> l) = nft_at n l) as ->.
  - unfold nft_at, v_owners, v_nft_balances, v_tokenApprovals, v_operatorApprovals. by rewrite !list_lookup_insert_ne by lia.
  - destruct (nft_at n l); [|done]. destruct (numbering_at n l); [|done]. by injection H as <- _.
Qed.

(** One of the numbers is written. *)
Lemma does_number i (f : Z → result Z) z s t y (o : option numbering) :
  (n + 6 ≤ i ≤ n + 8)%nat → sees s (t, y) → reads s !! i = Some (UintVal z) →
  match f z, o with
  | Ok z', Some y' => numbering_at n (<[i := UintVal z']> (reads s)) = Some y'
  | Throw e, None => e ≠ Undefined
  | _, _ => False
  end → does (update_uint i f) s (match o with Some y' => Some (tt, (t, y')) | None => None end).
Proof.
  intros Hi [Hm Habs] Hz H. eapply does_update_uint; [exact Hz|unfold nft_own; apply andb_true_iff; split; apply Nat.leb_le; lia|done|].
  destruct (f z) as [z'|e], o as [y'|]; try done. apply (test_put _ i _ t y y'); [lia|done|done].
Qed.

(** The three numbers of what is seen. *)
Lemma sees_numbers s t y : sees s (t, y) →
  reads s !! v_tokenIdCounter n = Some (UintVal (counter y)) ∧ reads s !! v_maxTokens n = Some (UintVal (max_tokens y)) ∧
  reads s !! v_nft_supply n = Some (UintVal (supply y)).
Proof. intros [_ H]. apply nft_abs_inv in H as (_ & _ & _ & _ & H). by apply numbering_inv in H. Qed.

Lemma insert_at {A} (l : list A) i x y : l !! i = Some y → <[i := x]> l !! i = Some x.
Proof. intros H. apply list_lookup_insert_eq. by eapply lookup_lt_Some. Qed.

(** [++x] and [--x] of a 64-bit number. *)
Lemma incr_value x : 0 ≤ x ≤ umax 64 →
  (_ ← throw_if (x =? umax 64) OverflowError; ustore 64 (x + 1)) = if x =? umax 64 then Throw OverflowError else Ok (x + 1).
Proof. intros Hx. destruct (Z.eqb_spec x (umax 64)); [done|]. cbn [throw_if result_bind]. rewrite result_bind_Ok. apply ustore_in. unfold in_uint, umax in *. lia. Qed.
Lemma decr_value x : 0 ≤ x ≤ umax 64 →
  (_ ← throw_if (x =? 0) UnderflowError; ustore 64 (x - 1)) = if x =? 0 then Throw UnderflowError else Ok (x - 1).
Proof. intros Hx. destruct (Z.eqb_spec x 0); [done|]. cbn [throw_if result_bind]. rewrite result_bind_Ok. apply ustore_in. unfold in_uint, umax in *. lia. Qed.

Definition in_range (y : numbering) : Prop := 0 ≤ counter y ≤ umax 64 ∧ 0 ≤ supply y ≤ umax 64.

Lemma does_next_id s t y : sees s (t, y) → in_range y →
  does (use (v_tokenIdCounter n) (on_uint (pre_incr 64)) CRet) s
    (if counter y =? umax 64 then None else Some (tt, (t, mkNumbering (counter y + 1) (max_tokens y) (supply y)))).
Proof.
  intros H [Hr _]. destruct (sees_numbers _ _ _ H) as (Hc & Hmx & Hs).
  assert (Hd := λ f, does_number (v_tokenIdCounter n) f _ s t y
    (if counter y =? umax 64 then None else Some (mkNumbering (counter y + 1) (max_tokens y) (supply y))) ltac:(unfold v_tokenIdCounter; lia) H Hc).
  assert (E := incr_value _ Hr). destruct (counter y =? umax 64) eqn:Eb; apply Hd; rewrite Eb, E; [done|].
  unfold numbering_at. rewrite (insert_at _ _ _ _ Hc), !list_lookup_insert_ne by (unfold v_tokenIdCounter, v_maxTokens, v_nft_supply; lia). by rewrite Hmx, Hs.
Qed.

Lemma does_supply_up s t y : sees s (t, y) → in_range y →
  does (use (v_nft_supply n) (on_uint (pre_incr 64)) CRet) s
    (if supply y =? umax 64 then None else Some (tt, (t, mkNumbering (counter y) (max_tokens y) (supply y + 1)))).
Proof.
  intros H [_ Hr]. destruct (sees_numbers _ _ _ H) as (Hc & Hmx & Hs).
  assert (Hd := λ f, does_number (v_nft_supply n) f _ s t y
    (if supply y =? umax 64 then None else Some (mkNumbering (counter y) (max_tokens y) (supply y + 1))) ltac:(unfold v_nft_supply; lia) H Hs).
  assert (E := incr_value _ Hr). destruct (supply y =? umax 64) eqn:Eb; apply Hd; rewrite Eb, E; [done|].
  unfold numbering_at. rewrite (insert_at _ _ _ _ Hs), !list_lookup_insert_ne by (unfold v_tokenIdCounter, v_maxTokens, v_nft_supply; lia). by rewrite Hmx, Hc.
Qed.

Lemma does_supply_down s t y : sees s (t, y) → in_range y →
  does (use (v_nft_supply n) (on_uint (pre_decr 64)) CRet) s
    (if supply y =? 0 then None else Some (tt, (t, mkNumbering (counter y) (max_tokens y) (supply y - 1)))).
Proof.
  intros H [_ Hr]. destruct (sees_numbers _ _ _ H) as (Hc & Hmx & Hs).
  assert (Hd := λ f, does_number (v_nft_supply n) f _ s t y
    (if supply y =? 0 then None else Some (mkNumbering (counter y) (max_tokens y) (supply y - 1))) ltac:(unfold v_nft_supply; lia) H Hs).
  assert (E := decr_value _ Hr). destruct (supply y =? 0) eqn:Eb; apply Hd; rewrite Eb, E; [done|].
  unfold numbering_at. rewrite (insert_at _ _ _ _ Hs), !list_lookup_insert_ne by (unfold v_tokenIdCounter, v_maxTokens, v_nft_supply; lia). by rewrite Hmx, Hc.
Qed.

Lemma does_test_update to id auth s t y : sees s (t, y) →
  does (update_ n to id auth) s (match nft_update to id auth t with Some (a, t') => Some (a, (t', y)) | None => None end).
Proof. apply (does_update bal chainOwner chainId n (numbering_at n) numbering_apart). Qed.

Lemma does_mint_ to id s t y : sees s (t, y) →
  does (mint_ n to id) s
    (if bool_decide (to = zero_address) then None
     else match nft_update to id zero_address t with Some (_, t') => Some (tt, (t', y)) | None => None end).
Proof.
  intros H. unfold mint_. case_bool_decide; [by apply does_unless, does_throw|]. eapply does_then; [by apply (does_throw_if _ _ _ _ _ false)|].
  intros s1 _ H1. assert (Hu := does_test_update to id zero_address s1 t y H1). destruct (nft_update _ _ _ _) as [[a t']|]; [|by apply does_unless].
  eapply does_then; [exact Hu|]. intros s2 _ H2. by apply does_ret.
Qed.

(** The functions of the test contract do to the books and the numbers what the specification says. *)
Theorem test_call_refines c s x :
  sees s x → in_range x.2 →
  does (test_code c) s (match test_step (caller_ (locals_of s self)) c x with Some x' => Some (tt, x') | None => None end).
Proof.
  destruct x as [t y]. intros H Hr. cbn [snd] in Hr. destruct (sees_numbers _ _ _ H) as (Hc & Hmx & Hs). set (caller := caller_ (locals_of s self)).
  destruct c as [to|id|c]; cbn [test_code test_step].
  - unfold nft_mint. eapply does_then; [by apply does_get_uint|]. intros s1 F1 H1. destruct (sees_numbers _ _ _ H1) as (Hc1 & Hmx1 & _).
    eapply does_then; [by apply does_get_uint|]. intros s2 F2 H2. destruct (max_tokens y <=? counter y); [by apply does_unless, does_throw|].
    eapply does_then; [by apply (does_throw_if _ _ _ _ _ false)|]. intros s3 F3 H3. destruct (sees_numbers _ _ _ H3) as (Hc3 & _ & _).
    eapply does_then; [by apply does_get_uint|]. intros s4 F4 H4. assert (Hm := does_mint_ to (counter y) s4 t y H4).
    destruct (bool_decide (to = zero_address)); [by apply does_unless|].
    destruct (nft_update to (counter y) zero_address t) as [[a t']|]; [|by apply does_unless]. eapply does_then; [exact Hm|]. intros s5 F5 H5.
    assert (Hn := does_next_id s5 t' y H5 Hr). destruct (Z.eqb_spec (counter y) (umax 64)); cbn [orb]; [by apply does_unless|].
    eapply does_then; [exact Hn|]. intros s6 F6 H6.
    assert (Hd := does_supply_up s6 t' _ H6 ltac:(destruct Hr; split; cbn [counter supply]; lia)). cbn [counter max_tokens supply] in Hd. by destruct (supply y =? umax 64).
  - unfold nft_burn. assert (Hu := does_test_update zero_address id caller s t y H).
    assert (Hl : does (CLocals self (λ l, update_ n zero_address id (caller_ l))) s
      (match nft_update zero_address id caller t with Some (a, t') => Some (a, (t', y)) | None => None end)) by by apply does_locals.
    destruct (nft_update zero_address id caller t) as [[a t']|]; [|by apply does_unless]. eapply does_then; [exact Hl|]. intros s1 F1 H1.
    assert (Hd := does_supply_down s1 t' y H1 Hr). by destruct (supply y =? 0).
  - assert (Hn := does_nft_call bal chainOwner chainId n self (numbering_at n) numbering_apart c s t y H). fold caller in Hn.
    by destruct (nft_step caller c t).
Qed.
End test_refines.

(** ** The invariant of the test contract *)

Definition tokens_alive (t : nft) : Z := count_if (λ b, b ≠ zero_address) (owners t).

Record test_ok (x : nft * numbering) : Prop := {
  tok_books : nft_ok x.1;
  tok_wf : nft_wf x.1;
  (** Only tokens that have been minted have an owner; those never seen have none. *)
  tok_ids : ∀ id, owner_of x.1 id ≠ zero_address → 0 ≤ id < counter x.2;
  tok_supply : supply x.2 = tokens_alive x.1;
  tok_range : 0 ≤ counter x.2 ≤ umax 64;
  (** Nobody is approved for a token without an owner, and nobody acts for the zero address. *)
  tok_approved : ∀ id, approved_of x.1 id ≠ zero_address → owner_of x.1 id ≠ zero_address;
  tok_operators : ∀ a, is_operator x.1 zero_address a = false
}.

(** There are never more tokens than numbers given out. *)
Lemma alive_bound x : (∀ id, owner_of x.1 id ≠ zero_address → 0 ≤ id < counter x.2) → 0 ≤ counter x.2 → tokens_alive x.1 ≤ counter x.2.
Proof.
  intros Hid H0. unfold tokens_alive, count_if. rewrite <- size_dom.
  assert (Hsub : dom (filter (λ p : Z * list Z, p.2 ≠ zero_address) (owners x.1)) ⊆ (list_to_set (seqZ 0 (counter x.2)) : gset Z)).
  { intros id (a & Ha)%elem_of_dom. apply map_lookup_filter_Some in Ha as [Ha Hne]. apply elem_of_list_to_set, elem_of_seqZ.
    assert (Hr := Hid id). unfold owner_of in Hr. rewrite Ha in Hr. cbn in Hr, Hne. specialize (Hr Hne). lia. }
  apply subseteq_size in Hsub. rewrite size_list_to_set, length_seqZ in Hsub by apply NoDup_seqZ. lia.
Qed.

Lemma alive_update to id auth t prev t' : nft_update to id auth t = Some (prev, t') → nft_ok t →
  tokens_alive t' = tokens_alive t - (if decide (prev ≠ zero_address) then 1 else 0) + (if decide (to ≠ zero_address) then 1 else 0).
Proof.
  intros E Hok. assert (Hu := nft_update_spec to id auth t Hok). cbn zeta in Hu. rewrite E in Hu. destruct Hu as (-> & _ & _ & Ho & _).
  unfold tokens_alive. rewrite Ho, count_if_insert, (count_if_delete _ id (owners t)). unfold owner_of. destruct (owners t !! id) as [a|]; cbn; [lia|].
  rewrite (decide_False (P := zero_address ≠ zero_address)) by auto. lia.
Qed.

(** What the owners, the approvals and the operators are after a change of hands. *)
Lemma update_apart to id auth t prev t' : nft_update to id auth t = Some (prev, t') → nft_ok t → nft_wf t →
  (∀ id', owner_of t' id' = if decide (id' = id) then to else owner_of t id') ∧
  (∀ id', approved_of t' id' ≠ zero_address → approved_of t id' ≠ zero_address ∧ (id' = id → prev = zero_address)) ∧
  (∀ a b, is_operator t' a b = is_operator t a b).
Proof.
  intros E Hok Hwf. assert (Hu := nft_update_spec to id auth t Hok). cbn zeta in Hu. rewrite E in Hu. destruct Hu as (-> & _ & _ & Ho & Hp & Ha & _).
  split; [|split].
  - intros id'. unfold owner_of at 1. rewrite Ho. case_decide as Ei; [by rewrite Ei, lookup_insert_eq|]. by rewrite lookup_insert_ne.
  - intros id'. unfold approved_of. rewrite Ha, address_bool_20 by by apply owner_of_20. case_bool_decide as Ez; cbn [negb]; [by auto|].
    destruct (decide (id' = id)) as [->|Hi]; [by rewrite lookup_insert_eq|]. rewrite lookup_insert_ne by done. by intros ?.
  - intros a b. unfold is_operator. by rewrite Hp.
Qed.

(** The addresses that a call names are as long as addresses are. *)
Definition call_wf (c : test_call) : Prop :=
  match c with
  | TestMint to | TestNft (NftTransferFrom _ to _) => length to = 20%nat
  | _ => True
  end.

(** A token without an owner is nobody's to burn. *)
Lemma burnt_is_owned x caller id : test_ok x → address_bool caller = true → authorized x.1 (owner_of x.1 id) caller id = true →
  owner_of x.1 id ≠ zero_address.
Proof.
  intros Hok Hc Ha Hz. rewrite Hz in Ha. unfold authorized in Ha. assert (Hne : caller ≠ zero_address) by by intros ->.
  rewrite bool_decide_eq_false_2, (tok_operators x Hok) in Ha by done. cbn [orb negb andb] in Ha.
  apply bool_decide_eq_true in Ha. apply (tok_approved x Hok id); congruence.
Qed.

(** The rest follows from what the change of hands was. *)
Lemma update_keeps x to id auth prev t' y' :
  test_ok x → length to = 20%nat → nft_update to id auth x.1 = Some (prev, t') →
  (to = zero_address → prev ≠ zero_address) → (to ≠ zero_address → 0 ≤ id < counter y') →
  counter x.2 ≤ counter y' ≤ umax 64 →
  supply y' = supply x.2 - (if decide (prev ≠ zero_address) then 1 else 0) + (if decide (to ≠ zero_address) then 1 else 0) →
  test_ok (t', y').
Proof.
  intros Hok Hl E Hz Hid Hc Hs. assert (Ha := alive_update _ _ _ _ _ _ E (tok_books x Hok)).
  destruct (update_apart _ _ _ _ _ _ E (tok_books x Hok) (tok_wf x Hok)) as (Ho & Hap & Hop).
  assert (Hu := nft_update_spec to id auth x.1 (tok_books x Hok)). cbn zeta in Hu. rewrite E in Hu. destruct Hu as (-> & Hbooks & _).
  destruct (tok_range x Hok) as [Hr _]. constructor; cbn [fst snd].
  - done.
  - by eapply nft_update_wf, E; [apply (tok_wf x Hok)|].
  - intros id'. rewrite Ho. destruct (decide (id' = id)) as [->|Ei]; [exact Hid|]. intros H. apply (tok_ids x Hok) in H. lia.
  - rewrite Ha, Hs, (tok_supply x Hok). done.
  - lia.
  - intros id' H. apply Hap in H as [H Hne]. rewrite Ho. destruct (decide (id' = id)) as [Ei|Ei]; [|by apply (tok_approved x Hok)].
    intros ->. by apply Hz, Hne.
  - intros a. by rewrite Hop, (tok_operators x Hok).
Qed.

(** Every call keeps the books of the test contract right. *)
Theorem test_step_keeps_books caller c x x' :
  test_ok x → address_bool caller = true → call_wf c → test_step caller c x = Some x' → test_ok x'.
Proof.
  intros Hok Hc Hwf. assert (Hx := Hok). destruct x as [t y]. destruct (tok_range _ Hok) as [Hr0 Hr1]. cbn [snd] in Hr0, Hr1.
  destruct c as [to|id|[from to id|to id|operator approved]]; cbn [test_step nft_step call_wf] in *.
  - destruct (Z.leb_spec (max_tokens y) (counter y)); [done|]. case_bool_decide as Ez; [done|].
    destruct (nft_update to (counter y) zero_address t) as [[prev t']|] eqn:E; [|done].
    destruct (Z.eqb_spec (counter y) (umax 64)); [done|]. destruct (_ =? _); [done|]. intros [= <-].
    assert (Hp : prev = zero_address).
    { assert (Hu := nft_update_spec to (counter y) zero_address t (tok_books _ Hok)). cbn zeta in Hu. rewrite E in Hu. destruct Hu as (-> & _).
      apply dec_stable. intros H1. apply (tok_ids _ Hok) in H1. cbn in H1. lia. }
    apply (update_keeps (t, y) to (counter y) zero_address prev); cbn [fst snd counter supply]; try done; [lia..|].
    rewrite (decide_False (P := prev ≠ zero_address)), decide_True by (done || by intros ?). lia.
  - destruct (nft_update zero_address id caller t) as [[prev t']|] eqn:E; [|done]. destruct (_ =? _); [done|]. intros [= <-].
    assert (Hp : prev ≠ zero_address).
    { assert (Hu := nft_update_spec zero_address id caller t (tok_books _ Hok)). cbn zeta in Hu. rewrite E in Hu. destruct Hu as (-> & _ & Ha & _).
      apply (burnt_is_owned (t, y) caller); auto. }
    apply (update_keeps (t, y) zero_address id caller prev); cbn [fst snd counter supply]; try done.
    rewrite decide_True, decide_False by (done || by intros ?). lia.
  - case_bool_decide as Ez; [done|]. destruct (nft_update to id caller t) as [[prev t']|] eqn:E; [|done].
    case_bool_decide as E1; [done|]. case_bool_decide as E2; [done|]. cbn [orb]. intros [= <-].
    assert (Hu := nft_update_spec to id caller t (tok_books _ Hok)). cbn zeta in Hu. rewrite E in Hu. destruct Hu as (Ep & _).
    apply (update_keeps (t, y) to id caller prev); cbn [fst snd]; try done.
    + intros _. apply (tok_ids _ Hok). cbn [fst]. by rewrite <- Ep.
    + rewrite !decide_True by done. lia.
  - case_bool_decide as Ez; [done|]. destruct (_ && _); [done|]. intros [= <-]. destruct Hok as [H1 H2 H3 H4 H5 H6 H7].
    constructor; try done. intros id'. unfold approved_of. cbn. destruct (decide (id' = id)) as [->|Hi]; [done|].
    rewrite lookup_insert_ne by done. apply H6.
  - case_bool_decide as Ez; [done|]. intros [= <-]. destruct Hok as [H1 H2 H3 H4 H5 H6 H7]. constructor; try done.
    intros a. unfold is_operator. cbn. rewrite lookup_insert_ne by (intros ->; done). apply H7.
Qed.
