(* ===== verification/ERC721Calls.v ===== *)
(** * ERC721Calls: the test contract at an address (src/contract/templates/erc721.{h,cpp}, erc721test.{h,cpp})

    Transactions to an [ERC721Test]: whatever their data, the books of the contract stay right.  The contract class, and what
    the destructors save and the constructors load. *)

From S2P Require Import Prelude Bytes SizedInts Hashing SafeBase SafeCell SafeUint SafeMap Tx Abi DB Event EvmHost ContractManager ContractStore ContractVars ContractLogic CodeSpec ERC20 ERC20Store DexPair ERC721.

(** ** The functions of the contract *)

Section calls.
Context {BB : BoostBits} {KC : Keccak} {BR : BoostResidue} {CT : ContractTypes (V := contract_var)} {St : Type} {PS : PayableState St}.
Variables (chainOwner : list Z) (chainId : Z).
Implicit Types s : ContractManager (V := contract_var).

Lemma nftTest_public n self :
  publicFunctions_ (nftTest_contract n self) =
  <[functor_encode "burn" [TUint 256] := registered [TUint 256] (args_uint1 (λ x, no_value (nft_burn n self x)))]>
  (<[functor_encode "mint" [TAddress] := registered [TAddress] (args_address (λ a, no_value (nft_mint n a)))]>
  (<[functor_encode "transferFrom" [TAddress; TAddress; TUint 256] :=
      registered [TAddress; TAddress; TUint 256] (args_address2_uint (λ a b x, no_value (nft_transferFrom n self a b x)))]>
  (<[functor_encode "setApprovalForAll" [TAddress; TBool] :=
      registered [TAddress; TBool] (args_address_bool (λ a b, no_value (setApprovalForAll n self a b)))]>
  (<[functor_encode "approve" [TAddress; TUint 256] := registered [TAddress; TUint 256] (args_address_uint (λ a x, no_value (nft_approve n self a x)))]> ∅)))).
Proof. reflexivity. Qed.

(** The class is stored under the name of its base, which the manager loads as a contract without [mint] and [burn]. *)
Lemma nftTest_class_name n self :
  contractName_ (nftTest_contract n self) = contractName_ (nft_contract n self "ERC721") ∧
  publicFunctions_ (nft_contract n self "ERC721") =
  <[functor_encode "transferFrom" [TAddress; TAddress; TUint 256] :=
      registered [TAddress; TAddress; TUint 256] (args_address2_uint (λ a b x, no_value (nft_transferFrom n self a b x)))]>
  (<[functor_encode "setApprovalForAll" [TAddress; TBool] :=
      registered [TAddress; TBool] (args_address_bool (λ a b, no_value (setApprovalForAll n self a b)))]>
  (<[functor_encode "approve" [TAddress; TUint 256] := registered [TAddress; TUint 256] (args_address_uint (λ a x, no_value (nft_approve n self a x)))]> ∅)).
Proof. split; reflexivity. Qed.

Lemma nftTest_not_payable n self f : isPayableFunction (nftTest_contract n self) f = false.
Proof.
  unfold isPayableFunction. apply bool_decide_eq_false.
  change (payableFunctions_ _) with (∅ : gmap (list Z) (ethCallInfo → code (V := contract_var) unit)). rewrite lookup_empty. by intros [? ?].
Qed.

(** *** What the arguments decode to *)

(** A value that an argument of one of these types decodes to. *)
Definition arg_ok (t : abi_ty) (v : abi_val) : Prop :=
  match t, v with
  | TAddress, VBytes a => length a = 20%nat
  | TUint _, VInt _ | TBool, VBool _ => True
  | _, _ => False
  end.
Definition plain_ty (t : abi_ty) : bool := match t with TAddress | TBool | TUint _ => true | _ => false end.

Lemma decode_plain t bytes i v j : plain_ty t = true → 0 ≤ i → decode t bytes i = Ok (v, j) → arg_ok t v ∧ j = i + 32.
Proof.
  intros Ht Hi. destruct t; try done; cbn [decode].
  - unfold decodeUint. destruct (too_short _ _) as [[]|]; [|done]. rewrite result_bind_Ok. destruct (range _ _ _); [|done]. rewrite result_bind_Ok.
    destruct (bytesToUint256 _); [|done]. rewrite !result_bind_Ok. destruct (cast_uint _ _); [|done]. by intros [= <- <-].
  - destruct (too_short _ _) as [[]|]; [|done]. destruct (range _ _ _) as [a|] eqn:E; [|done]. intros [= <- <-]. split; [|done].
    unfold range in E. destruct (Z.leb_spec (i + 12 + 20) (Z.of_nat (length bytes))); [|done]. injection E as <-. cbn [arg_ok].
    rewrite length_take, length_drop. lia.
  - destruct (too_short _ _) as [[]|]; [|done]. destruct (read_at _ _); [|done]. by intros [= <- <-].
Qed.

Lemma decode_plain_seq ts bytes i vs j : forallb plain_ty ts = true → 0 ≤ i → decode_seq decode ts bytes i = Ok (vs, j) → Forall2 arg_ok ts vs.
Proof.
  revert i vs j. induction ts as [|t ts IH]; intros i vs j Hts Hi; cbn [decode_seq]; [by intros [= <- _]|].
  cbn [forallb] in Hts. apply andb_true_iff in Hts as [Ht Hts]. destruct (decode t bytes i) as [[v k]|] eqn:E; [|done]. rewrite result_bind_Ok. cbv iota.
  destruct (decode_plain _ _ _ _ _ Ht Hi E) as [Hv ->]. destruct (decode_seq decode ts bytes (i + 32)) as [[vs' k]|] eqn:E'; [|done].
  intros [= <- <-]. constructor; [done|]. apply (IH (i + 32) vs' k); [done|lia|done].
Qed.

Lemma decode_plain_data ts data vs : forallb plain_ty ts = true → decodeData ts data 0 = Ok vs → Forall2 arg_ok ts vs.
Proof.
  intros Hts. unfold decodeData. destruct ts as [|t ts]; [by intros [= <-]|].
  destruct (decode_seq decode (t :: ts) data 0) as [[vs' k]|] eqn:E; [|done]. intros [= <-]. by apply (decode_plain_seq _ _ 0 _ k) in E.
Qed.
(** A function of the contract is one of those of the specification, on arguments of its types, or fails to decode. *)
Lemma nftTest_function n self f g ci :
  publicFunctions_ (nftTest_contract n self) !! f = Some g →
  (∃ c, call_wf c ∧ g ci = code_bind (no_value (test_code n self c)) (λ _, CRet tt)) ∨ ∃ e, g ci = CThrow e.
Proof.
  assert (Hreg : ∀ ts memFunc, forallb plain_ty ts = true →
    (∀ vs, Forall2 arg_ok ts vs → ∃ c, call_wf c ∧ memFunc vs = no_value (test_code n self c)) →
    (∃ c, call_wf c ∧ registered ts memFunc ci = code_bind (no_value (test_code n self c)) (λ _, CRet tt)) ∨ ∃ e, registered ts memFunc ci = CThrow e).
  { intros ts memFunc Hts Hf. unfold registered. destruct (decodeData ts (ci_data ci) 0) as [vs|e] eqn:E; [left|right; by exists e].
    apply decode_plain_data, Hf in E as (c & Hc & ->); [|done]. by exists c. }
  rewrite nftTest_public.
  intros [[_ <-]|[_ [[_ <-]|[_ [[_ <-]|[_ [[_ <-]|[_ [[_ <-]|[_ H]]%lookup_insert_Some]]%lookup_insert_Some]]%lookup_insert_Some]]%lookup_insert_Some]]%lookup_insert_Some;
    [apply Hreg; [done|]..|by rewrite lookup_empty in H].
  - intros vs Hv. inversion_clear Hv as [|? [] ? vs' H1 H2]; try done. inversion_clear H2. by exists (TestBurn z).
  - intros vs Hv. inversion_clear Hv as [|? [] ? vs' H1 H2]; try done. inversion_clear H2. by exists (TestMint bs).
  - intros vs Hv. inversion_clear Hv as [|? [] ? vs1 H1 H2]; try done. inversion_clear H2 as [|? [] ? vs2 H3 H4]; try done.
    inversion_clear H4 as [|? [] ? vs3 H5 H6]; try done. inversion_clear H6. by exists (TestNft (NftTransferFrom bs bs0 z)).
  - intros vs Hv. inversion_clear Hv as [|? [] ? vs1 H1 H2]; try done. inversion_clear H2 as [|? [] ? vs2 H3 H4]; try done.
    inversion_clear H4. by exists (TestNft (NftSetApprovalForAll bs b)).
  - intros vs Hv. inversion_clear Hv as [|? [] ? vs1 H1 H2]; try done. inversion_clear H2 as [|? [] ? vs2 H3 H4]; try done.
    inversion_clear H4. by exists (TestNft (NftApprove bs z)).
Qed.

(** *** A transaction *)

(** The variables of the manager hold the books and the numbers of the contract whose first variable is [n], all in order. *)
Definition nftTest_at (n : nat) s (x : nft * numbering) : Prop := nft_abs n (numbering_at n) (reads s) = Some x ∧ test_ok x.

Lemma test_ok_range x : test_ok x → in_range x.2.
Proof.
  intros Hok. assert (Hb := alive_bound x (tok_ids x Hok)). destruct (tok_range x Hok) as [H0 H1]. specialize (Hb H0). rewrite <- (tok_supply x Hok) in Hb.
  split; [done|]. rewrite (tok_supply x Hok) in Hb |- *. unfold tokens_alive, count_if in *. lia.
Qed.

(** The other variables of the manager. *)
Definition only_nft (n : nat) (l1 l2 : list contract_value) : Prop := length l2 = length l1 ∧ ∀ i, nft_own n i = false → l2 !! i = l1 !! i.

Theorem nftTest_books_kept n tx txIndex s st x r s' st' :
  honest_types → quiet s →
  to_ tx ∉ ProtocolContractAddresses → contracts_ s !! to_ tx = Some (nftTest_contract n (to_ tx)) → address_bool (from_ tx) = true →
  nftTest_at n s x →
  callContract chainOwner chainId tx txIndex (s, st) = (r, (s', st')) → r ≠ Throw Undefined →
  (match r with
   | Ok _ => ∃ c x', call_wf c ∧ test_step (from_ tx) c x = Some x' ∧ nftTest_at n s' x'
   | Throw _ => reads s' = reads s
   end) ∧
  only_nft n (reads s) (reads s') ∧ contracts_ s' = contracts_ s ∧ quiet s' ∧ callLogger_ s' = None ∧ st' = st.
Proof.
  intros HT Hq Hp Hc Hfrom [Hx Hok] Hrun Hu. set (c := nftTest_contract n (to_ tx)) in *.
  assert (Hreads : reads (called tx s) = reads s) by (unfold reads; by rewrite called_call).
  assert (Hsame : ∀ r1 s2, r1 ≠ Throw Undefined → called_result chainOwner chainId tx st c s = (r1, s2) → framed (nft_own n) (called tx s) s2 →
    (r1 = Ok tt → ∃ tc x', call_wf tc ∧ test_step (from_ tx) tc x = Some x' ∧ nft_abs n (numbering_at n) (reads s2) = Some x' ∧ test_ok x') →
    (match r with Ok _ => ∃ c x', call_wf c ∧ test_step (from_ tx) c x = Some x' ∧ nftTest_at n s' x' | Throw _ => reads s' = reads s end) ∧
    only_nft n (reads s) (reads s') ∧ contracts_ s' = contracts_ s ∧ quiet s' ∧ callLogger_ s' = None ∧ st' = st).
  { intros r1 s2 He Hr [Hv Hlen Hrd] Hend. rewrite Hreads in Hlen, Hrd.
    destruct (nonpayable_call chainOwner chainId tx txIndex s st c r1 s2) as (s1 & A1 & A2 & A3 & A4 & A5 & A6); try done.
    rewrite A1 in Hrun. destruct r1 as [[]|e]; injection Hrun as <- <- <-.
    - destruct (Hend eq_refl) as (tc & x' & B1 & B2 & B3 & B4). unfold nftTest_at. rewrite A6. split; [by exists tc, x'|]. by split_and!.
    - rewrite A6. by split_and!. }
  destruct (function_of c tx) as [f|] eqn:Ef.
  2:{ apply (Hsame (Throw (failed "no function")) (called tx s)); [done| |done|done]. unfold called_result. by rewrite Ef. }
  assert (Hres : called_result chainOwner chainId tx st c s = exec (balance_of st) chainOwner chainId (f (txToCallInfo tx)) (called tx s))
    by (unfold called_result; by rewrite Ef).
  assert (Hpub : publicFunctions_ c !! ci_functor (txToCallInfo tx) = Some f).
  { revert Ef. unfold function_of, c. by rewrite nftTest_not_payable. }
  destruct (nftTest_function n (to_ tx) _ f (txToCallInfo tx) Hpub) as [(tc & Htc & E)|(e & E)]; rewrite E in Hres.
  - assert (Hs : sees (nft_abs n (numbering_at n)) (called tx s) x) by (split; [by eexists|by rewrite Hreads]).
    assert (Hd := test_call_refines (balance_of st) chainOwner chainId n (to_ tx) tc (called tx s) x Hs (test_ok_range x Hok)).
    rewrite called_locals in Hd. cbn [caller_] in Hd.
    assert (Hd' : does (balance_of st) chainOwner chainId (nft_abs n (numbering_at n)) (nft_own n)
      (code_bind (no_value (test_code n (to_ tx) tc)) (λ _, CRet tt)) (called tx s)
      (match test_step (from_ tx) tc x with Some x' => Some (tt, x') | None => None end)).
    { destruct (test_step (from_ tx) tc x) as [x'|]; [|by apply does_unless, does_unless].
      eapply does_then; [eapply does_then; [exact Hd|]; intros s1 _ H1; by apply does_ret|]. intros s2 _ H2. by apply does_ret. }
    destruct Hd' as (r1 & s2 & E1 & F1 & H1). rewrite E1 in Hres. destruct (test_step (from_ tx) tc x) as [x'|] eqn:Es.
    + destruct H1 as [-> [_ H1]]. apply (Hsame (Ok tt) s2); [done..|]. intros _. exists tc, x'. split_and!; try done.
      by apply (test_step_keeps_books (from_ tx) tc x).
    + destruct H1 as (e & -> & He). apply (Hsame (Throw e) s2); [by intros [= ->]|done..].
  - destruct (decide (e = Undefined)) as [->|He]; [|by apply (Hsame (Throw e) (called tx s)); [intros [= ->]|..]].
    exfalso. apply Hu. rewrite (callContract_function chainOwner chainId tx txIndex s st c), Hres in Hrun by done. by injection Hrun.
Qed.
End calls.

(** ** The contract class *)

Section class.
Context {BB : BoostBits} {KC : Keccak} {BR : BoostResidue}.

#[local] Hint Resolve honest_read honest_update honest_use honest_find_const honest_modify : code.

(** A new contract is ready for its first call, with no token and no number given out. *)
Lemma nftTest_created name symbol maxTokens creator address n :
  in_uint 64 maxTokens →
  Forall idle (nftTest_construct name symbol maxTokens creator address n).1 ∧
  nft_abs 0 (numbering_at 0) (sv_get <$> (nftTest_construct name symbol maxTokens creator address n).1) =
    Some (mkNft ∅ ∅ ∅ ∅, mkNumbering 0 maxTokens 0) ∧
  test_ok (mkNft ∅ ∅ ∅ ∅, mkNumbering 0 maxTokens 0).
Proof.
  intros Hm. split; [|split].
  - repeat (apply Forall_cons; split); try apply Forall_nil; done.
  - done.
  - constructor; try done.
Qed.

(** Code made of operations on variables, tests and exceptions. *)
Ltac honest_walk :=
  repeat first
    [ done
    | progress intros
    | match goal with |- honest_code (code_bind _ _) => apply honest_code_bind end
    | match goal with |- honest_code (use _ _ _) => apply honest_use; [eauto with code|] end
    | match goal with |- honest_code (CLocals _ _) => cbn [honest_code] end
    | match goal with |- honest_code (lift_code (throw_if ?b _)) => by destruct b end
    | match goal with |- honest_code (if ?b then _ else _) => destruct b end
    | match goal with |- honest_code (match ?b with _ => _ end) => destruct b end ].

Lemma update_honest n to id auth : honest_code (update_ n to id auth).
Proof.
  unfold update_, ownerOf_, checkAuthorized_, isAuthorized_, isApprovedForAll, getApproved_, set_approved, set_owner, balance_decr, balance_incr. honest_walk.
Qed.
#[local] Hint Resolve update_honest : code.

Lemma nft_functions_honest n self :
  (∀ x, honest_code (nft_burn n self x)) ∧ (∀ a, honest_code (nft_mint n a)) ∧ (∀ a b x, honest_code (nft_transferFrom n self a b x)) ∧
  (∀ a b, honest_code (setApprovalForAll n self a b)) ∧ (∀ a x, honest_code (nft_approve n self a x)).
Proof.
  assert (H := update_honest n).
  unfold nft_burn, nft_mint, nft_transferFrom, setApprovalForAll, nft_approve, mint_, approve_, ownerOf, ownerOf_, isApprovedForAll, set_approved,
    setApprovalForAll_, code_throw_if, get_uint, pre_incr, pre_decr, SafeUint_get. split_and!; honest_walk; try apply H.
Qed.

Lemma nft_views_honest n :
  (∀ a, honest_code (nft_balanceOf n a)) ∧ (∀ x, honest_code (ownerOf n x)) ∧ (∀ x, honest_code (getApproved n x)) ∧
  (∀ a b, honest_code (isApprovedForAll n a b)).
Proof.
  unfold nft_balanceOf, ownerOf, ownerOf_, getApproved, requireMinted_, getApproved_, ownerOf_, isApprovedForAll, code_throw_if.
  split_and!; honest_walk.
Qed.

Lemma no_value_honest {A} (c : code (V := contract_var) A) : honest_code c → honest_code (no_value c).
Proof. intros H. by apply honest_code_bind. Qed.

(** Applying a function to its decoded arguments. *)
Ltac honest_apply := intros ? vs _; unfold args0, args_address, args_address2, args_address_uint, args_address2_uint, args_uint1, args_address_bool,
  a_uint, a_bool, an_address_of; repeat case_match; try done.

Lemma nft_contract_honest n self name : honest_contract (nft_contract n self name).
Proof.
  destruct (nft_functions_honest n self) as (_ & _ & H3 & H4 & H5). destruct (nft_views_honest n) as (V1 & V2 & V3 & V4).
  unfold nft_contract, nft_registerContractFunctions.
  repeat (apply registerMemberFunction_honest; [honest_apply|]); try (apply no_value_honest; auto);
    try (apply honest_code_bind; [auto|done]); try (by apply honest_use; eauto with code).
  split_and!; intros f g ci Hf; cbn in Hf; by rewrite lookup_empty in Hf.
Qed.

Lemma nftTest_register_honest n self c : honest_contract c → honest_contract (nftTest_registerContractFunctions n self c).
Proof.
  intros Hc. destruct (nft_functions_honest n self) as (H1 & H2 & _). unfold nftTest_registerContractFunctions.
  repeat (apply registerMemberFunction_honest; [honest_apply|]); try apply Hc; try (apply no_value_honest; auto);
    try (apply honest_code_bind; [|done]; unfold get_uint, SafeUint_get; apply honest_use; [eauto with code|done]).
Qed.

Lemma nftTest_contract_honest n self : honest_contract (nftTest_contract n self).
Proof. apply nftTest_register_honest, nft_contract_honest. Qed.

Lemma nftTest_types_honest f : @honest_types _ _ _ {| createContractFuncs_ := {[ f := nftTest_template ]} |}.
Proof.
  intros g t args creator derived chainId n vs c Ht. cbn in Ht. apply lookup_singleton_Some in Ht as [<- <-].
  cbn [ct_construct nftTest_template]. intros Hc. repeat (case_match; try done). injection Hc as <- <-. split; [|apply nftTest_contract_honest].
  repeat (apply Forall_cons; split); try apply Forall_nil; done.
Qed.
End class.

(** ** A node with one contract *)

(** A hash under which the names of the functions differ. *)
Definition sum_keccak (b : list Z) : list Z := be_encode 4 (foldr Z.add 0 b) ++ be_encode 28 0.
Program Definition sum_hash : Keccak := {| ethash_keccak256 := sum_keccak |}.
Next Obligation. intros b. unfold sum_keccak. by rewrite length_app, !be_encode_length. Qed.
Next Obligation. intros b. apply Forall_app. split; apply be_encode_ok. Qed.

Definition toy_nft_types : ContractTypes (V := contract_var) := {| createContractFuncs_ := {[ [0; 0; 0; 1] := @nftTest_template boost_ref sum_hash residue_ref ]} |}.

Definition toy_nft_manager : ContractManager (V := contract_var) :=
  mkManager {[ toy_contract_address := @nftTest_contract boost_ref sum_hash residue_ref 0 toy_contract_address ]} ∅
    (call_start (@nftTest_construct boost_ref sum_hash residue_ref [84] [84] 3 toy_owner toy_contract_address 0).1) None [] (mkEventManager [] [])
    (mkGlobals zero_address zero_hash 1 2 zero_hash).

Definition toy_mint_call (to : list Z) : TxBlock :=
  mkTxBlock toy_contract_address toy_friend (@functor_encode sum_hash "mint" [TAddress] ++ @encodeData boost_ref [TAddress] [VBytes to]) 8080 0 0 1 1 21000 0 0 0 (zero_bytes 32).

Abbreviation toy_nft_run := (@callContract contract_var contract_value contract_variable boost_ref sum_hash residue_ref
  toy_nft_types unit toy_no_state toy_owner 8080).

Lemma toy_nft_quiet : quiet toy_nft_manager.
Proof.
  constructor; [|done|done|done|].
  - apply (@nftTest_created boost_ref sum_hash residue_ref [84] [84] 3 toy_owner toy_contract_address 0). by_compute.
  - intros a c Hc. unfold toy_nft_manager in Hc. cbn [contracts_] in Hc. apply lookup_singleton_Some in Hc as [<- <-]. apply nftTest_contract_honest.
Qed.

(** Somebody mints a token for a friend. *)
Lemma nftTest_books_kept_witness :
  let tx := toy_mint_call toy_friend in
  let p := toy_nft_run tx 0 (toy_nft_manager, tt) in
  is_ok p.1 = true ∧
  (match p.1 with
   | Ok _ => ∃ c x', call_wf c ∧ test_step toy_friend c (mkNft ∅ ∅ ∅ ∅, mkNumbering 0 3 0) = Some x' ∧ nftTest_at 0 p.2.1 x'
   | Throw _ => reads p.2.1 = reads toy_nft_manager
   end) ∧
  only_nft 0 (reads toy_nft_manager) (reads p.2.1) ∧ contracts_ p.2.1 = contracts_ toy_nft_manager ∧ quiet p.2.1 ∧ callLogger_ p.2.1 = None ∧ p.2.2 = tt.
Proof.
  intros tx p. split; [by vm_compute|]. assert (Hu : p.1 ≠ Throw Undefined) by by vm_compute.
  assert (E : toy_nft_run tx 0 (toy_nft_manager, tt) = p) by reflexivity. clearbody p. destruct p as [r [s' st']].
  apply (@nftTest_books_kept boost_ref sum_hash residue_ref toy_nft_types unit toy_no_state toy_owner 8080 0 tx 0 toy_nft_manager tt
    (mkNft ∅ ∅ ∅ ∅, mkNumbering 0 3 0)).
  - apply nftTest_types_honest.
  - apply toy_nft_quiet.
  - by_compute.
  - unfold toy_nft_manager. cbn [contracts_]. apply lookup_singleton_eq.
  - by_compute.
  - split; [done|]. apply (@nftTest_created boost_ref sum_hash residue_ref [84] [84] 3 toy_owner toy_contract_address 0). by_compute.
  - exact E.
  - exact Hu.
Defined.
