(* ===== verification/ERC721Store.v ===== *)
(** * ERC721Store: a contract of tokens across a restart

    What the destructors of [ERC721Test] and [ERC721] save (src/contract/templates/erc721test.cpp, erc721.cpp) the constructors that
    load the contract read back: the four maps, each under its own prefix, and the numbers. *)

From S2P Require Import Prelude Bytes SizedInts Hashing SafeBase SafeCell SafeString SafeUint SafeMap Tx Abi DB EvmHost ContractManager ContractStore ContractVars ERC20 ERC20Store DexPair ERC721.

(** ** Batches of several maps *)

Section groups.
Context {DBI : RocksDB}.

Definition grouped (gs : list (list Z * list Entry)) : list Entry := gs ≫= λ g, map (prefixed g.1) g.2.

(** Prefixes neither of which begins the other. *)
Definition apart_prefixes (p q : list Z) : Prop := ∀ x y, p ++ x ≠ q ++ y.

Record groups_ok (gs : list (list Z * list Entry)) : Prop := {
  groups_apart : ∀ i j g h, gs !! i = Some g → gs !! j = Some h → i ≠ j → apart_prefixes g.1 h.1;
  groups_keys : Forall (λ g, NoDup g.2.*1) gs
}.

Lemma grouped_in gs k v : (k, v) ∈ grouped gs ↔ ∃ g r, g ∈ gs ∧ k = g.1 ++ r ∧ (r, v) ∈ g.2.
Proof.
  unfold grouped. rewrite list_elem_of_bind. split.
  - intros (g & H & Hg). destruct (prefixed_elem_in _ _ _ _ H) as [r ->]. apply prefixed_elem in H. by exists g, r.
  - intros (g & r & Hg & -> & H). exists g. split; [by apply prefixed_elem|done].
Qed.

Lemma groups_tail g gs : groups_ok (g :: gs) → groups_ok gs.
Proof. intros [H1 H2]. split; [intros i j a b Ha Hb Hij; apply (H1 (S i) (S j)); [done..|lia]|by inversion H2]. Qed.

Lemma grouped_keys gs : groups_ok gs → NoDup (grouped gs).*1.
Proof.
  induction gs as [|g gs IH]; intros H; [constructor|]. cbn. rewrite fmap_app. apply NoDup_app.
  split; [apply prefixed_keys; by destruct H as [_ ?%Forall_cons_1]; tauto|]. split; [|by apply IH; eapply groups_tail].
  intros k [r ->]%prefixed_in ([k' v] & Ek & Hin)%list_elem_of_fmap. cbn in Ek. subst k'. apply grouped_in in Hin as (g' & r' & Hg' & E & _).
  apply list_elem_of_lookup in Hg' as [i Hi]. by apply (groups_apart _ H 0 (S i) g g' eq_refl Hi) in E.
Qed.

(** The entries of each map after the batch. *)
Lemma grouped_getBatch gs (pfx : list Z) (es : list Entry) d :
  groups_ok gs → (pfx, es) ∈ gs → (∀ k, is_Some (rdb_map d !! (pfx ++ k)) → k ∈ es.*1) →
  getBatch (putBatch d (mkBatch (grouped gs) [])) pfx [] ≡ₚ es.
Proof.
  intros H Hin Hc. apply putBatch_getBatch; [by apply grouped_keys| |intros k v|done].
  - destruct H as [_ Hk]. by apply (Forall_forall _ gs) with (x := (pfx, es)) in Hk.
  - rewrite grouped_in. split; [|intros; by exists (pfx, es), k].
    intros (g & r & Hg & E & Hr). apply list_elem_of_lookup in Hg as [i Hi], Hin as [j Hj].
    destruct (decide (i = j)) as [->|Hij]; [|by apply (groups_apart _ H j i _ _ Hj Hi) in E].
    rewrite Hi in Hj. injection Hj as ->. cbn in *. by apply app_inv_head in E as ->.
Qed.

(** What is stored elsewhere is as it was. *)
Lemma grouped_apart gs d k : groups_ok gs → (∀ g r, g ∈ gs → k ≠ g.1 ++ r) →
  rdb_map (putBatch d (mkBatch (grouped gs) [])) !! k = rdb_map d !! k.
Proof.
  intros H Hk. rewrite putBatch_lookup by by apply grouped_keys. rewrite not_elem_of_list_to_map_1; [done|].
  intros ([k' v] & -> & (g & r & Hg & E & _)%grouped_in)%list_elem_of_fmap. by apply (Hk g r).
Qed.
End groups.

(** ** Saving and loading *)

Section store.
Context {DBI : RocksDB} {BB : BoostBits} {HO : HashOrder} {KC : Keccak} {BR : BoostResidue}.

(** The destructor of [ERC721]: the getters read the temporary values, the iterators the committed maps. *)
Definition nft_save (address : list Z) (name symbol : SafeString) (owners : SafeIntMap (list Z)) (balances : SafeUnorderedMap Z)
    (approvals : SafeIntMap (list Z)) (operators : SafeUnorderedMap (gmap (list Z) bool)) (d : rdb) : rdb :=
  let pfx := getDBPrefix address in
  let d := put d (string_bytes "name_") (cell_get name) pfx in
  let d := put d (string_bytes "symbol_") (cell_get symbol) pfx in
  let b := foldl (λ b p, push_back b (uintToBytes p.1) p.2 (getNewPrefix address "owners_")) DBBatch_new (in_order (map_ owners)) in
  let b := foldl (λ b p, push_back b p.1 (uintToBytes p.2) (getNewPrefix address "balances_")) b (in_order (map_ balances)) in
  let b := foldl (λ b p, push_back b (uintToBytes p.1) p.2 (getNewPrefix address "tokenApprovals_")) b (in_order (map_ approvals)) in
  let b := foldl (λ b p, foldl (λ b q, push_back b (p.1 ++ q.1) [if q.2 : bool then 1 else 0] (getNewPrefix address "operatorAddressApprovals_"))
    b (in_order p.2)) b (in_order (map_ operators)) in
  putBatch d b.

(** The destructor of [ERC721Test], which runs first. *)
Definition numbering_save (address : list Z) (y : numbering) (d : rdb) : rdb :=
  let pfx := getDBPrefix address in
  let d := put d (string_bytes "tokenIdCounter_") (uint64ToBytes (counter y)) pfx in
  let d := put d (string_bytes "maxTokens_") (uint64ToBytes (max_tokens y)) pfx in
  put d (string_bytes "totalSupply_") (uint64ToBytes (supply y)) pfx.

(** The loops of the loading constructor. *)
Definition load_owner (m : SafeIntMap (list Z)) (e : Entry) : result (SafeIntMap (list Z)) :=
  id ← fromBigEndian 256 e.1;
  v ← subspan e.2 0 20;
  a ← FixedBytes_of 20 v;
  Ok (sm_modify zero_address id (λ _, (Ok tt, a)) m).2.
Definition load_approval (m : SafeIntMap (list Z)) (e : Entry) : result (SafeIntMap (list Z)) :=
  id ← fromBigEndian 256 e.1;
  a ← FixedBytes_of 20 e.2;
  Ok (sm_modify zero_address id (λ _, (Ok tt, a)) m).2.
Definition load_operator (m : SafeUnorderedMap (gmap (list Z) bool)) (e : Entry) : result (SafeUnorderedMap (gmap (list Z) bool)) :=
  o ← subspan e.1 0 20;
  owner ← FixedBytes_of 20 o;
  s ← (if decide (20 ≤ length e.1)%nat then Ok (drop 20 e.1) else Throw Undefined);
  operatorAddress ← FixedBytes_of 20 s;
  b ← read_at e.2 0;
  Ok (sm_modify ∅ owner (λ inner, (Ok tt, <[operatorAddress := negb (b =? 0)]> inner)) m).2.

Definition nft_load (address : list Z) (d : rdb) : result (list contract_var) :=
  let pfx := getDBPrefix address in
  owners ← foldM load_owner (SafeMap_owned ∅) (getBatch d (getNewPrefix address "owners_") []);
  balances ← foldM load_balance (SafeMap_owned ∅) (getBatch d (getNewPrefix address "balances_") []);
  approvals ← foldM load_approval (SafeMap_owned ∅) (getBatch d (getNewPrefix address "tokenApprovals_") []);
  operators ← foldM load_operator (SafeMap_owned ∅) (getBatch d (getNewPrefix address "operatorAddressApprovals_") []);
  Ok (nft_vars (get d (string_bytes "name_") pfx) (get d (string_bytes "symbol_") pfx) owners balances approvals operators).

Definition numbering_load (address : list Z) (d : rdb) : result (list contract_var) :=
  let pfx := getDBPrefix address in
  counter ← bytesToUint64 (get d (string_bytes "tokenIdCounter_") pfx);
  max ← bytesToUint64 (get d (string_bytes "maxTokens_") pfx);
  supply ← bytesToUint64 (get d (string_bytes "totalSupply_") pfx);
  Ok (numbering_vars counter max supply).

(** The class: its variables and those of its base. *)
Definition nftTest_save (address : list Z) (name symbol : SafeString) owners balances approvals operators (y : numbering) (d : rdb) : rdb :=
  nft_save address name symbol owners balances approvals operators (numbering_save address y d).
Definition nftTest_load (address : list Z) (d : rdb) : result (list contract_var) :=
  vs ← nft_load address d; ws ← numbering_load address d; Ok (vs ++ ws).

(** *** The batch *)

Definition token_entry (p : Z * list Z) : Entry := (uintToBytes p.1, p.2).
Definition operator_entry (t : list Z * list Z * bool) : Entry := (t.1.1 ++ t.1.2, [if t.2 then 1 else 0]).

Definition nft_groups (address : list Z) (t : nft) : list (list Z * list Entry) :=
  [(getNewPrefix address "owners_", map token_entry (in_order (owners t)));
   (getNewPrefix address "balances_", map balance_entry (in_order (nft_balances t)));
   (getNewPrefix address "tokenApprovals_", map token_entry (in_order (approvals t)));
   (getNewPrefix address "operatorAddressApprovals_", map operator_entry (flat (operators t)))].

Definition nft_scalars (address : list Z) (name symbol : SafeString) (d : rdb) : rdb :=
  put (put d (string_bytes "name_") (cell_get name) (getDBPrefix address)) (string_bytes "symbol_") (cell_get symbol) (getDBPrefix address).

Lemma nft_save_groups address name symbol owners balances approvals operators d :
  nft_save address name symbol owners balances approvals operators d =
  putBatch (nft_scalars address name symbol d)
    (mkBatch (grouped (nft_groups address (mkNft (map_ owners) (map_ balances) (map_ approvals) (map_ operators)))) []).
Proof.
  unfold nft_save, nft_groups, grouped. rewrite (foldl_push_back (λ p, uintToBytes p.1) snd), (foldl_push_back fst (λ p, uintToBytes p.2)),
    (foldl_push_back (λ p, uintToBytes p.1) snd), (foldl_push_nested (λ p, in_order p.2) (λ p q, p.1 ++ q.1) (λ _ (q : list Z * bool), [if q.2 then 1 else 0])).
  cbn [puts_ dels_ DBBatch_new app mbind list_bind fst snd ERC721.owners ERC721.nft_balances ERC721.approvals ERC721.operators].
  unfold nft_scalars. do 2 f_equal. rewrite <- !app_assoc, app_nil_r, !map_map. do 3 f_equal. unfold flat.
  induction (in_order (map_ operators)) as [|[o i] l IH]; [done|]. rewrite !bind_cons, IH, !map_app, !map_map. done.
Qed.

(** What the types of the contract guarantee of its maps. *)
Record nft_storable (t : nft) : Prop := {
  storable_owners : map_Forall (λ id a, in_uint 256 id ∧ length a = 20%nat) (owners t);
  storable_tokens : storable_balances (nft_balances t);
  storable_approvals : map_Forall (λ id a, in_uint 256 id ∧ length a = 20%nat) (approvals t);
  storable_operators : map_Forall (λ o inner, length o = 20%nat ∧ inner ≠ ∅ ∧ map_Forall (λ a _, length a = 20%nat) inner) (operators t)
}.

(** The entries of the contract in [d], if any, are of keys it has. *)
Definition nft_covers (address : list Z) (t : nft) (d : rdb) : Prop :=
  Forall (λ g, ∀ k, is_Some (rdb_map d !! (g.1 ++ k)) → k ∈ g.2.*1) (nft_groups address t).

Lemma token_keys (m : gmap Z (list Z)) : map_Forall (λ id a, in_uint 256 id ∧ length a = 20%nat) m → NoDup (map token_entry (in_order m)).*1.
Proof.
  intros Hm. rewrite <- list_fmap_compose. apply NoDup_fmap_2_strong; [|apply (NoDup_fmap_1 fst), in_order_keys].
  intros [i a] [j b] H1%in_order_elem H2%in_order_elem E. cbn in E.
  assert (R1 : fromBigEndian 256 (uintToBytes i) = Ok i) by (apply fromBigEndian_uintToBytes; [apply (Hm _ _ H1)|]; destruct (Hm _ _ H1) as [[_ ?] _]; done).
  assert (R2 : fromBigEndian 256 (uintToBytes j) = Ok j) by (apply fromBigEndian_uintToBytes; [apply (Hm _ _ H2)|]; destruct (Hm _ _ H2) as [[_ ?] _]; done).
  rewrite E, R2 in R1. injection R1 as <-. congruence.
Qed.

(** Names that differ in their first two letters. *)
Lemma apart_names address s1 s2 :
  (2 ≤ length (string_bytes s1))%nat → (2 ≤ length (string_bytes s2))%nat → take 2 (string_bytes s1) ≠ take 2 (string_bytes s2) →
  apart_prefixes (getNewPrefix address s1) (getNewPrefix address s2).
Proof.
  intros L1 L2 H x y. unfold getNewPrefix. rewrite <- !app_assoc. intros E%app_inv_head. apply H.
  apply (f_equal (take 2)) in E. by rewrite !take_app_le in E.
Qed.

Lemma nft_groups_ok address t : nft_storable t → groups_ok (nft_groups address t).
Proof.
  intros [H1 H2 H3 H4]. split.
  - intros [|[|[|[|i]]]] [|[|[|[|j]]]] g h Hi Hj Hij; try done; injection Hi as <-; injection Hj as <-; cbn [fst]; apply apart_names; by_compute.
  - unfold nft_groups. repeat (apply Forall_cons; split); cbn [snd]; try by apply token_keys.
    + apply balance_keys.
    + apply (flat_keys_of (operators t)). intros o s x (inner & Ho & _)%flat_elem. apply (H4 _ _ Ho).
    + constructor.
Qed.

(** *** What the loops build *)

(** A loop that puts an entry into a map. *)
Lemma load_entries {K T} {EK : EqDecision K} {CK : Countable K} (step : SafeMapOf K T → Entry → result (SafeMapOf K T)) (entry : K * T → Entry) l m :
  Forall (λ p, ∀ m, ∃ m', step m (entry p) = Ok m' ∧ sm_view m' = <[p.1 := p.2]> (sm_view m) ∧ sm_erased m' = sm_erased m ∧
    owner_ (sm_base m') = owner_ (sm_base m)) l →
  ∃ m', foldM step m (map entry l) = Ok m' ∧ sm_view m' = foldl (λ t p, <[p.1 := p.2]> t) (sm_view m) l ∧ sm_erased m' = sm_erased m ∧
    owner_ (sm_base m') = owner_ (sm_base m).
Proof.
  intros Hl. revert m. induction Hl as [|p l Hp _ IH]; intros m; [by exists m|]. destruct (Hp m) as (m1 & E & Hv & He & Ho).
  destruct (IH m1) as (m' & E' & Hv' & He' & Ho'). exists m'. cbn [map foldM foldl]. rewrite E, result_bind_Ok, E'.
  split; [done|]. rewrite Hv', Hv, He', He, Ho', Ho. done.
Qed.

(** An assignment to a map that keeps no call's changes. *)
Lemma modified {K T} {EK : EqDecision K} {CK : Countable K} (d : T) (k : K) (f : T → T) (m : SafeMapOf K T) :
  let m' := (sm_modify d k (λ x, (Ok tt, f x)) m).2 in
  sm_view m' = <[k := f (default d (sm_view m !! k))]> (sm_view m) ∧ sm_erased m' = sm_erased m ∧ owner_ (sm_base m') = owner_ (sm_base m).
Proof.
  assert (H := sm_modify_spec d k (λ x, (Ok tt, f x)) m). cbv beta iota zeta in H. destruct H as (_ & Hv & _ & He & Hb).
  split; [done|]. split; [done|]. rewrite Hb. unfold markAsUsed. by case_match.
Qed.
Lemma load_owner_entry p m : in_uint 256 p.1 → length p.2 = 20%nat →
  ∃ m', load_owner m (token_entry p) = Ok m' ∧ sm_view m' = <[p.1 := p.2]> (sm_view m) ∧ sm_erased m' = sm_erased m ∧
    owner_ (sm_base m') = owner_ (sm_base m).
Proof.
  destruct p as [id a]. cbn [fst snd]. intros Hid Ha. unfold load_owner, token_entry, FixedBytes_of, subspan. cbn [fst snd].
  rewrite fromBigEndian_uintToBytes, result_bind_Ok by (done || by destruct Hid). rewrite decide_True by (cbn; lia).
  rewrite result_bind_Ok. change (drop 0 a) with a. rewrite take_ge by lia. rewrite decide_True, result_bind_Ok by done.
  eexists. split; [done|]. apply (modified zero_address id (λ _, a) m).
Qed.
Lemma load_approval_entry p m : in_uint 256 p.1 → length p.2 = 20%nat →
  ∃ m', load_approval m (token_entry p) = Ok m' ∧ sm_view m' = <[p.1 := p.2]> (sm_view m) ∧ sm_erased m' = sm_erased m ∧
    owner_ (sm_base m') = owner_ (sm_base m).
Proof.
  destruct p as [id a]. cbn [fst snd]. intros Hid Ha. unfold load_approval, token_entry, FixedBytes_of. cbn [fst snd].
  rewrite fromBigEndian_uintToBytes, result_bind_Ok by (done || by destruct Hid). rewrite decide_True, result_bind_Ok by done.
  eexists. split; [done|]. apply (modified zero_address id (λ _, a) m).
Qed.

Lemma load_operator_entry m o s b : length o = 20%nat → length s = 20%nat →
  ∃ m', load_operator m (operator_entry (o, s, b)) = Ok m' ∧ sm_view m' = set_inner (sm_view m) (o, s, b) ∧ sm_erased m' = sm_erased m ∧
    owner_ (sm_base m') = owner_ (sm_base m).
Proof.
  intros Ho Hs. unfold load_operator, operator_entry. cbn [fst snd]. rewrite (subspan_drop _ 0 20 o s), result_bind_Ok by (done || lia).
  unfold FixedBytes_of. rewrite (decide_True (P := length o = 20%nat)), result_bind_Ok by done.
  rewrite (decide_True (P := (20 ≤ length (o ++ s))%nat)), result_bind_Ok by (rewrite length_app; lia).
  rewrite drop_app_length' by done. rewrite (decide_True (P := length s = 20%nat)), result_bind_Ok by done.
  unfold read_at. cbn. eexists. split; [done|]. destruct (modified ∅ o (<[s := negb ((if b then 1 else 0) =? 0)]>) m) as (H1 & H2 & H3).
  split; [|done]. etransitivity; [exact H1|]. by destruct b.
Qed.

Lemma load_operators l m : Forall (λ t, length t.1.1 = 20%nat ∧ length t.1.2 = 20%nat) l →
  ∃ m', foldM load_operator m (map operator_entry l) = Ok m' ∧ sm_view m' = foldl set_inner (sm_view m) l ∧ sm_erased m' = sm_erased m ∧
    owner_ (sm_base m') = owner_ (sm_base m).
Proof.
  intros Hl. revert m. induction Hl as [|[[o s] b] l (Ho & Hs) _ IH]; intros m; [by exists m|].
  destruct (load_operator_entry m o s b Ho Hs) as (m1 & E & Hv & He & Hw). destruct (IH m1) as (m' & E' & Hv' & He' & Hw').
  exists m'. cbn [map foldM foldl]. rewrite E, result_bind_Ok, E'. split; [done|]. rewrite Hv', Hv, He', He, Hw', Hw. done.
Qed.

(** The map of tokens that is loaded from its entries. *)
Lemma load_tokens step (m : gmap Z (list Z)) (es : list Entry) :
  (∀ p v, in_uint 256 p.1 → length p.2 = 20%nat → ∃ m', step v (token_entry p) = Ok m' ∧ sm_view m' = <[p.1 := p.2]> (sm_view v) ∧
    sm_erased m' = sm_erased v ∧ owner_ (sm_base m') = owner_ (sm_base v)) →
  map_Forall (λ id a, in_uint 256 id ∧ length a = 20%nat) m → es ≡ₚ map token_entry (in_order m) →
  ∃ m', foldM step (SafeMap_owned ∅) es = Ok m' ∧ sm_view m' = m ∧ sm_erased m' = ∅ ∧ owner_ (sm_base m') = true.
Proof.
  intros Hstep Hm (l & -> & Hl)%Permutation_map_inv.
  destruct (load_entries step token_entry l (SafeMap_owned ∅)) as (m' & E & V & Er & Ow).
  - rewrite <- Hl. apply Forall_forall. intros [id a] [H1 H2]%in_order_elem%Hm v. by apply Hstep.
  - exists m'. split; [done|]. rewrite (foldl_insert_entries m) in V by by rewrite <- Hl, in_order_perm.
    rewrite V, Er, Ow. done.
Qed.
(** *** The restart *)

Lemma covers_entry address t d pfx es : nft_covers address t d → (pfx, es) ∈ nft_groups address t →
  ∀ k, is_Some (rdb_map d !! (pfx ++ k)) → k ∈ es.*1.
Proof. intros H Hin. unfold nft_covers in H. rewrite Forall_forall in H. apply (H (pfx, es) Hin). Qed.

(** The keys of the single values begin as none of the maps does. *)
Lemma single_apart address s t g r : s ∈ ["name_"; "symbol_"; "tokenIdCounter_"; "maxTokens_"; "totalSupply_"]%string → g ∈ nft_groups address t →
  getDBPrefix address ++ string_bytes s ≠ g.1 ++ r.
Proof.
  intros Hs Hg E.
  assert (Hn : ∃ s', s' ∈ ["owners_"; "balances_"; "tokenApprovals_"; "operatorAddressApprovals_"]%string ∧ g.1 = getNewPrefix address s').
  { unfold nft_groups in Hg. rewrite !elem_of_cons in Hg. destruct Hg as [->|[->|[->|[->|Hg]]]]; [..|by apply not_elem_of_nil in Hg]; eexists;
      (split; [|reflexivity]); rewrite !elem_of_cons; auto. }
  destruct Hn as (s' & Hs' & Eg). rewrite Eg in E. unfold getNewPrefix in E. rewrite <- app_assoc in E. apply app_inv_head in E.
  apply (f_equal (take 6)) in E. rewrite !elem_of_cons in Hs. rewrite !elem_of_cons in Hs'.
  destruct Hs as [->|[->|[->|[->|[->|Hs]]]]]; [..|by apply not_elem_of_nil in Hs];
    (destruct Hs' as [->|[->|[->|[->|Hs']]]]; [..|by apply not_elem_of_nil in Hs']); rewrite take_app_le in E by (cbn; lia); try discriminate.
Qed.

(** What a value stored under its name before the batch is read back as. *)
Lemma single_read address t d s : nft_storable t → s ∈ ["name_"; "symbol_"; "tokenIdCounter_"; "maxTokens_"; "totalSupply_"]%string →
  get (putBatch d (mkBatch (grouped (nft_groups address t)) [])) (string_bytes s) (getDBPrefix address) =
  default [] (rdb_map d !! (getDBPrefix address ++ string_bytes s)).
Proof.
  intros Ht Hs. rewrite get_spec, grouped_apart; [done|by apply nft_groups_ok|]. intros g r Hg. by apply (single_apart address s t).
Qed.

Definition all_scalars (address : list Z) (name symbol : SafeString) (y : numbering) (d : rdb) : rdb :=
  nft_scalars address name symbol (numbering_save address y d).

Lemma all_scalars_lookup address name symbol y d s v :
  (s, v) ∈ [("name_", cell_get name); ("symbol_", cell_get symbol); ("tokenIdCounter_", uint64ToBytes (counter y));
    ("maxTokens_", uint64ToBytes (max_tokens y)); ("totalSupply_", uint64ToBytes (supply y))]%string →
  rdb_map (all_scalars address name symbol y d) !! (getDBPrefix address ++ string_bytes s) = Some v.
Proof.
  intros Hs. unfold all_scalars, nft_scalars, numbering_save. cbv zeta. rewrite !put_map. rewrite !elem_of_cons in Hs.
  destruct Hs as [[= -> ->]|[[= -> ->]|[[= -> ->]|[[= -> ->]|[[= -> ->]|Hs]]]]]; [..|by apply not_elem_of_nil in Hs];
    repeat (rewrite lookup_insert_ne by (intros ?%app_inv_head; discriminate)); by rewrite lookup_insert_eq.
Qed.

Lemma all_scalars_apart address name symbol y d k : (∀ s, s ∈ ["name_"; "symbol_"; "tokenIdCounter_"; "maxTokens_"; "totalSupply_"]%string →
    getDBPrefix address ++ string_bytes s ≠ k) → rdb_map (all_scalars address name symbol y d) !! k = rdb_map d !! k.
Proof.
  intros Hk. unfold all_scalars, nft_scalars, numbering_save. cbv zeta. rewrite !put_map.
  repeat (rewrite lookup_insert_ne by (apply Hk; rewrite !elem_of_cons; tauto)). done.
Qed.
Lemma nft_vars_idle name symbol o b a p :
  owner_ (sm_base o) = true → owner_ (sm_base b) = true → owner_ (sm_base a) = true → owner_ (sm_base p) = true →
  sm_erased o = ∅ → sm_erased b = ∅ → sm_erased a = ∅ → sm_erased p = ∅ →
  Forall idle (nft_vars name symbol o b a p) ∧
  sv_get <$> nft_vars name symbol o b a p =
    [StringVal name; StringVal symbol; TokenMapVal (sm_view o); MapVal (sm_view b); TokenMapVal (sm_view a); OperatorsVal (sm_view p)].
Proof.
  intros O1 O2 O3 O4 E1 E2 E3 E4. unfold nft_vars.
  destruct (ready_map_idle o O1 E1) as (A1 & B1 & X1 & C1 & D1). destruct (ready_map_idle b O2 E2) as (A2 & B2 & X2 & C2 & D2).
  destruct (ready_map_idle a O3 E3) as (A3 & B3 & X3 & C3 & D3). destruct (ready_map_idle p O4 E4) as (A4 & B4 & X4 & C4 & D4).
  split.
  - repeat (apply Forall_cons; split); try apply Forall_nil; try done;
      unfold idle; cbn [sv_wf sv_base sv_get sv_value contract_variable cell_SafeVariable SafeMap_variable]; split_and!; try done; congruence.
  - cbn [fmap list_fmap sv_get contract_variable cell_SafeVariable SafeMap_variable]. by rewrite C1, C2, C3, C4.
Qed.

Lemma saved_nft_loads address name symbol owners balances approvals operators y d :
  let t := mkNft (map_ owners) (map_ balances) (map_ approvals) (map_ operators) in
  nft_storable t → nft_covers address t d → in_range y → in_uint 64 (max_tokens y) →
  ∃ vs, nftTest_load address (nftTest_save address name symbol owners balances approvals operators y d) = Ok vs ∧ Forall idle vs ∧
    sv_get <$> vs = [StringVal (cell_get name); StringVal (cell_get symbol); TokenMapVal (map_ owners); MapVal (map_ balances);
      TokenMapVal (map_ approvals); OperatorsVal (map_ operators); UintVal (counter y); UintVal (max_tokens y); UintVal (supply y)].
Proof.
  intros t Ht Hc [Hr1 Hr2] Hmax. unfold nftTest_save. rewrite nft_save_groups. fold t.
  change (nft_scalars address name symbol (numbering_save address y d)) with (all_scalars address name symbol y d).
  set (d0 := all_scalars address name symbol y d).
  assert (Hc0 : nft_covers address t d0).
  { unfold nft_covers in *. rewrite Forall_forall in Hc |- *. intros g Hg k. unfold d0. rewrite all_scalars_apart; [by apply Hc|].
    intros s Hs. by apply (single_apart address s t). }
  assert (Hg := nft_groups_ok address t Ht).
  assert (Hget : ∀ s v, (s, v) ∈ [("name_", cell_get name); ("symbol_", cell_get symbol); ("tokenIdCounter_", uint64ToBytes (counter y));
      ("maxTokens_", uint64ToBytes (max_tokens y)); ("totalSupply_", uint64ToBytes (supply y))]%string →
    get (putBatch d0 (mkBatch (grouped (nft_groups address t)) [])) (string_bytes s) (getDBPrefix address) = v).
  { intros s v Hs. unfold d0. rewrite single_read; [by rewrite (all_scalars_lookup address name symbol y d s v)|done|].
    exact (proj2 (list_elem_of_fmap fst _ s) (ex_intro _ (s, v) (conj eq_refl Hs))). }
  assert (Hbatch : ∀ pfx (es : list Entry), (pfx, es) ∈ nft_groups address t → getBatch (putBatch d0 (mkBatch (grouped (nft_groups address t)) [])) pfx [] ≡ₚ es).
  { intros pfx es Hin. apply grouped_getBatch; [done|done|by eapply covers_entry]. }
  set (d1 := putBatch d0 _) in *. unfold nftTest_load, nft_load, numbering_load. cbv zeta.
  destruct (load_tokens load_owner (map_ owners) _ (λ p v, load_owner_entry p v) (storable_owners t Ht) (Hbatch _ _ ltac:(left)))
    as (mo & -> & Vo & Eo & Oo).
  destruct (Permutation_map_inv balance_entry _ (Hbatch _ _ ltac:(right; left))) as (lb & Eb & Pb). rewrite Eb.
  destruct (load_balances lb (SafeMap_owned ∅)) as (mb & -> & Vb & Erb & Ob).
  { rewrite <- Pb. apply Forall_forall. intros [a x] H%in_order_elem. exact (storable_tokens t Ht _ _ H). }
  destruct (load_tokens load_approval (map_ approvals) _ (λ p v, load_approval_entry p v) (storable_approvals t Ht) (Hbatch _ _ ltac:(do 2 right; left)))
    as (ma & -> & Va & Ea & Oa).
  destruct (Permutation_map_inv operator_entry _ (Hbatch _ _ ltac:(do 3 right; left))) as (lp & Ep & Pp). rewrite Ep.
  destruct (load_operators lp (SafeMap_owned ∅)) as (mp & -> & Vp & Erp & Op).
  { rewrite <- Pp. apply Forall_forall. intros [[o s] x] (inner & Hi & Hs)%flat_elem.
    destruct (storable_operators t Ht _ _ Hi) as (Ho & _ & H). split; [done|]. by apply (H s x). }
  rewrite !result_bind_Ok, !(Hget "tokenIdCounter_"%string _), (Hget "maxTokens_"%string _), (Hget "totalSupply_"%string _),
    (Hget "name_"%string _), (Hget "symbol_"%string _) by (rewrite !elem_of_cons; tauto).
  assert (in_uint 64 (counter y) ∧ in_uint 64 (supply y)) as [? ?] by (unfold in_uint, umax in *; lia).
  rewrite !bytesToUint64_roundtrip, !result_bind_Ok by done. eexists. split; [done|].
  rewrite (foldl_insert_entries (map_ balances)) in Vb by by rewrite <- Pb, in_order_perm.
  rewrite (foldl_set_inner (map_ operators)) in Vp by (first [by symmetry|intros o i Hi; by destruct (storable_operators t Ht _ _ Hi) as (_ & ? & _)]).
  destruct (nft_vars_idle (cell_get name) (cell_get symbol) mo mb ma mp) as [H1 H2]; try done.
  split; [apply Forall_app; split; [exact H1|repeat (apply Forall_cons; split); try apply Forall_nil; done]|].
  rewrite fmap_app. etransitivity; [apply (f_equal (.++ _)), H2|]. by rewrite Vo, Vb, Va, Vp.
Qed.

(** A contract that is destroyed is loaded with its name, symbol, books and numbers, ready for the next call. *)
Theorem nftTest_reloads address name symbol owners balances approvals operators y d :
  let t := mkNft (map_ owners) (map_ balances) (map_ approvals) (map_ operators) in
  nft_storable t → nft_covers address t d → in_range y → in_uint 64 (max_tokens y) →
  ∃ vs, nftTest_load address (nftTest_save address name symbol owners balances approvals operators y d) = Ok vs ∧ Forall idle vs ∧
    take 2 (sv_get <$> vs) = [StringVal (cell_get name); StringVal (cell_get symbol)] ∧
    nft_abs 0 (numbering_at 0) (sv_get <$> vs) = Some (t, y).
Proof.
  intros t Ht Hc Hr Hm. destruct (saved_nft_loads address name symbol owners balances approvals operators y d Ht Hc Hr Hm) as (vs & E & Hi & Hv).
  exists vs. rewrite E, Hv. split_and!; try done. unfold nft_abs. cbn. by destruct y.
Qed.
End store.

Lemma nftTest_reloads_witness :
  let t := mkNft {[ 0 := toy_owner; 1 := zero_address ]} {[ toy_owner := 1 ]} {[ 0 := toy_friend; 1 := zero_address ]} {[ toy_owner := {[ toy_friend := true ]} ]} in
  ∃ vs, @nftTest_load ref_db toy_contract_address
      (@nftTest_save ref_db order_ref toy_contract_address (SafeString_owned [84]) (SafeString_owned [84; 84]) (SafeMap_owned (owners t))
        (SafeMap_owned (nft_balances t)) (SafeMap_owned (approvals t)) (SafeMap_owned (operators t)) (mkNumbering 2 9 1) (∅ : gmap _ _)) = Ok vs ∧
    Forall idle vs ∧ take 2 (sv_get <$> vs) = [StringVal [84]; StringVal [84; 84]] ∧
    nft_abs 0 (numbering_at 0) (sv_get <$> vs) = Some (t, mkNumbering 2 9 1).
Proof.
  intros t. apply (@nftTest_reloads ref_db order_ref toy_contract_address (SafeString_owned [84]) (SafeString_owned [84; 84])
    (SafeMap_owned (owners t)) (SafeMap_owned (nft_balances t)) (SafeMap_owned (approvals t)) (SafeMap_owned (operators t)) (mkNumbering 2 9 1) (∅ : gmap _ _)).
  - constructor; by_compute.
  - apply Forall_forall. intros g _ k [x Hx]. cbn [rdb_map ref_db] in Hx. by rewrite lookup_empty in Hx.
  - split; by_compute.
  - by_compute.
Defined.
