(* ===== verification/ERC20Wrapper.v ===== *)
(** * ERC20Wrapper: tokens kept for their owners (src/contract/templates/erc20wrapper.{h,cpp})

    The contract holds tokens of other contracts and books, per token and user, what each has deposited.  Its functions are
    [code] that calls the token; [vault_step] is what they promise, and the promise is that what the contract holds of a
    token covers what it owes. *)

From S2P Require Import Prelude Bytes SizedInts Hashing SafeBase SafeCell SafeString SafeUint SafeVector SafeMap Tx Randomness Abi DB Hex Event EvmHost ContractManager ContractStore ContractVars ContractLogic CodeSpec ERC20 ERC20Store DexPair ERC721 ERC721Store.

Section wrapper.
Context {BB : BoostBits} {KC : Keccak} {BR : BoostResidue}.

Definition token_not_found : exn := DynamicException "Token not found".
Definition user_not_found : exn := DynamicException "User not found".
Definition not_enough_balance : exn := DynamicException "ERC20Wrapper: Not enough balance".

Section functions.
(** The index of [tokensAndBalances_], and the address of the contract. *)
Variables (n : nat) (self : list Z).

Definition v_tokensAndBalances : nat := n.

Definition getContractBalance (token : list Z) : ccode (list abi_val) :=
  callContractViewFunction token is_ERC20 (λ t, erc20_balanceOf t self).

Definition getUserBalance (token user : list Z) : ccode (list abi_val) :=
  use v_tokensAndBalances (on_nested (sm_find_const token)) (λ it,
    CRet [VInt (match it with None => 0 | Some inner => match inner !! user with None => 0 | Some x => x end end)]).

(** [itUser->second -= value], through the iterator. *)
Definition sub_credit (token user : list Z) (value : Z) : ccode unit :=
  use v_tokensAndBalances (on_nested (sm_modify ∅ token (λ inner,
    let '(r, x) := checked_sub (default 0 (inner !! user)) value in (r, <[user := x]> inner)))) CRet.
(** [tokensAndBalances_\[token\]\[user\] += value]. *)
Definition add_credit (token user : list Z) (value : Z) : ccode unit :=
  use v_tokensAndBalances (on_nested (sm_modify ∅ token (λ inner,
    let '(r, x) := checked_add (default 0 (inner !! user)) value in (r, <[user := x]> inner)))) CRet.

(** The statements [withdraw] and [transferTo] begin with. *)
Definition take_credit (token user : list Z) (value : Z) : ccode unit := (
  it <~ use v_tokensAndBalances (on_nested (sm_find token)) CRet;;
  match it with
  | None => CThrow token_not_found
  | Some inner =>
      match inner !! user with
      | None => CThrow user_not_found
      | Some x => code_throw_if (x <=? value) not_enough_balance ;;~ sub_credit token user value
      end
  end)%code.

Definition withdraw (token : list Z) (value : Z) : ccode (list abi_val) :=
  CLocals self (λ l, (
    take_credit token (caller_ l) value ;;~
    callContractFunction self token is_ERC20 (λ t, erc20_transfer t token (caller_ l) value))%code).

Definition transferTo (token to : list Z) (value : Z) : ccode (list abi_val) :=
  CLocals self (λ l, (
    take_credit token (caller_ l) value ;;~
    callContractFunction self token is_ERC20 (λ t, erc20_transfer t token to value))%code).

Definition deposit (token : list Z) (value : Z) : ccode (list abi_val) := (
  CLocals self (λ l, callContractFunction self token is_ERC20 (λ t, erc20_transferFrom t token (caller_ l) self value)) ;;~
  CLocals self (λ l, add_credit token (caller_ l) value) ;;~
  CRet [])%code.

Definition wrapper_registerContractFunctions (c : DynamicContract (V := contract_var)) : DynamicContract (V := contract_var) :=
  let c := registerMemberFunction "getContractBalance" [TAddress] [TUint 256] (args_address getContractBalance) View c in
  let c := registerMemberFunction "getUserBalance" [TAddress; TAddress] [TUint 256] (args_address2 getUserBalance) View c in
  let c := registerMemberFunction "withdraw" [TAddress; TUint 256] [] (args_address_uint withdraw) NonPayable c in
  let c := registerMemberFunction "transferTo" [TAddress; TAddress; TUint 256] [] (args_address2_uint transferTo) NonPayable c in
  registerMemberFunction "deposit" [TAddress; TUint 256] [] (args_address_uint deposit) NonPayable c.

Definition erc20wrapper_contract : DynamicContract (V := contract_var) :=
  wrapper_registerContractFunctions (mkContract "ERC20Wrapper" n ∅ ∅ ∅).
End functions.

(** ** Construction *)

Definition wrapper_vars (tokensAndBalances : SafeUnorderedMap (gmap (list Z) Z)) : list contract_var :=
  [NestedVar (ready_map tokensAndBalances)].

Definition erc20wrapper_construct (address : list Z) (n : nat) : result (list contract_var * DynamicContract) :=
  Ok (wrapper_vars (SafeMap_owned ∅), erc20wrapper_contract n address).

Definition erc20wrapper_template : ContractTemplate (V := contract_var) :=
  mkTemplate [] (λ args creator address _ n,
    match args with
    | [] => erc20wrapper_construct address n
    | _ => Throw Undefined
    end).
End wrapper.

(** ** The database *)

Section database.
Context {DBI : RocksDB} {BB : BoostBits} {HO : HashOrder} {BR : BoostResidue}.

(** The destructor: an entry for each user of each token, with the token as its key. *)
Definition wrapper_save (address : list Z) (tokensAndBalances : SafeUnorderedMap (gmap (list Z) Z)) (d : rdb) : rdb :=
  putBatch d (foldl (λ b p, foldl (λ b q, push_back b p.1 (q.1 ++ uintToBytes q.2) (getNewPrefix address "tokensAndBalances_"))
    b (in_order p.2)) DBBatch_new (sm_committed_entries tokensAndBalances)).

(** The loop of the constructor that loads a contract. *)
Definition load_credit (m : SafeUnorderedMap (gmap (list Z) Z)) (e : Entry) : result (SafeUnorderedMap (gmap (list Z) Z)) :=
  token ← FixedBytes_of 20 e.1;
  u ← subspan e.2 0 20;
  user ← FixedBytes_of 20 u;
  v ← (if decide (20 ≤ length e.2)%nat then Ok (drop 20 e.2) else Throw Undefined);
  x ← fromBigEndian 256 v;
  Ok (sm_modify ∅ token (λ inner, (Ok tt, <[user := x]> inner)) m).2.

Definition wrapper_load (address : list Z) (d : rdb) : result (list contract_var) :=
  m ← foldM load_credit (SafeMap_owned ∅) (getBatch d (getNewPrefix address "tokensAndBalances_") []);
  Ok (wrapper_vars m).
End database.

(** ** What the contract promises *)

(** What is booked, and the token of one address. *)
Record vault := mkVault {
  credits : gmap (list Z) (gmap (list Z) Z);
  held : token
}.

Definition booked (g : gmap (list Z) (gmap (list Z) Z)) (token user : list Z) : Z := default 0 (default ∅ (g !! token) !! user).
Definition set_credit (g : gmap (list Z) (gmap (list Z) Z)) (token user : list Z) (x : Z) : gmap (list Z) (gmap (list Z) Z) :=
  <[token := <[user := x]> (default ∅ (g !! token))]> g.
(** What the contract owes of a token. *)
Definition owed (g : gmap (list Z) (gmap (list Z) Z)) (token : list Z) : Z := circulation (default ∅ (g !! token)).

Inductive vault_call :=
| Deposit (value : Z)
| Withdraw (value : Z)
| TransferTo (to : list Z) (value : Z).

Definition vault_typed (c : vault_call) : Prop :=
  match c with Deposit v | Withdraw v | TransferTo _ v => in_uint 256 v end.

(** The map after the statements [withdraw] and [transferTo] begin with. *)
Definition take (g : gmap (list Z) (gmap (list Z) Z)) (token user : list Z) (value : Z) : option (gmap (list Z) (gmap (list Z) Z)) :=
  match g !! token with
  | None => None
  | Some inner =>
      match inner !! user with
      | None => None
      | Some x => if x <=? value then None else Some (set_credit g token user (x - value))
      end
  end.
Definition give (g : gmap (list Z) (gmap (list Z) Z)) (token user : list Z) (value : Z) : option (gmap (list Z) (gmap (list Z) Z)) :=
  if booked g token user + value <=? umax 256 then Some (set_credit g token user (booked g token user + value)) else None.

Definition vault_pay (self token caller to : list Z) (value : Z) (w : vault) : option vault :=
  match take (credits w) token caller value with
  | None => None
  | Some g => match token_step self (Transfer to value) (held w) with None => None | Some t => Some (mkVault g t) end
  end.

Definition vault_step (self token caller : list Z) (c : vault_call) (w : vault) : option vault :=
  match c with
  | Deposit value =>
      match token_step self (TransferFrom caller self value) (held w) with
      | None => None
      | Some t => match give (credits w) token caller value with None => None | Some g => Some (mkVault g t) end
      end
  | Withdraw value => vault_pay self token caller caller value w
  | TransferTo to value => vault_pay self token caller to value w
  end.

(** The books are in order: the contract has let nobody spend for it, and what it holds covers what it owes. *)
Record vault_ok (self token : list Z) (w : vault) : Prop := {
  vault_token : token_ok (held w);
  vault_private : ∀ spender, allowed (held w) self spender = 0;
  vault_credits : map_Forall (λ _ x, 0 ≤ x) (default ∅ (credits w !! token));
  vault_covered : owed (credits w) token ≤ balance (held w) self
}.

(** What happens to a vault: the contract's functions, and those of the token called by anybody else. *)
Inductive vault_world (self token : list Z) : relation vault :=
| world_vault caller c w w' : vault_typed c → vault_step self token caller c w = Some w' → vault_world self token w w'
| world_token caller c w t : caller ≠ self → call_typed c → token_step caller c (held w) = Some t →
    vault_world self token w (mkVault (credits w) t).

Lemma credit_nonneg g token user : map_Forall (λ _ x, 0 ≤ x) (default ∅ (g !! token)) → 0 ≤ booked g token user.
Proof. intros H. unfold booked. destruct (default ∅ (g !! token) !! user) as [x|] eqn:E; [by apply (H _ _ E)|done]. Qed.

Lemma set_credit_owed g token user x : owed (set_credit g token user x) token = owed g token - booked g token user + x.
Proof. unfold owed, set_credit. rewrite lookup_insert_eq. cbn [default from_option id]. by rewrite circulation_insert. Qed.

Lemma set_credit_nonneg g token user x :
  0 ≤ x → map_Forall (λ _ x, 0 ≤ x) (default ∅ (g !! token)) → map_Forall (λ _ x, 0 ≤ x) (default ∅ (set_credit g token user x !! token)).
Proof. intros Hx H. unfold set_credit. rewrite lookup_insert_eq. by apply map_Forall_insert_2. Qed.

Lemma take_spec g token user v g' :
  map_Forall (λ _ x, 0 ≤ x) (default ∅ (g !! token)) → take g token user v = Some g' →
  v < booked g token user ∧ g' = set_credit g token user (booked g token user - v) ∧ owed g' token = owed g token - v ∧
  map_Forall (λ _ x, 0 ≤ x) (default ∅ (g' !! token)).
Proof.
  intros Hg. unfold take. destruct (g !! token) as [inner|] eqn:E; [|done]. destruct (inner !! user) as [x|] eqn:Ex; [|done].
  assert (Hc : booked g token user = x) by (unfold booked; rewrite E; cbn; by rewrite Ex).
  destruct (Z.leb_spec x v) as [|Hlt]; [done|]. intros [= <-]. rewrite set_credit_owed, Hc.
  split_and!; [done|done|lia|]. apply set_credit_nonneg; [lia|by rewrite E].
Qed.

Lemma give_spec g token user v g' :
  0 ≤ v → map_Forall (λ _ x, 0 ≤ x) (default ∅ (g !! token)) → give g token user v = Some g' →
  g' = set_credit g token user (booked g token user + v) ∧ owed g' token = owed g token + v ∧
  map_Forall (λ _ x, 0 ≤ x) (default ∅ (g' !! token)).
Proof.
  intros Hv Hg. unfold give. destruct (_ <=? _); [|done]. intros [= <-]. rewrite set_credit_owed.
  assert (H := credit_nonneg g token user Hg). split_and!; [done|lia|]. apply set_credit_nonneg; [lia|done].
Qed.

(** What one call of the token does to what an address that has let nobody spend for it holds. *)
Lemma token_step_private self caller c t t' :
  token_ok t → call_typed c → (∀ spender, allowed t self spender = 0) → token_step caller c t = Some t' →
  (caller = self → ∀ sp v, c ≠ Approve sp v) → (∀ spender, allowed t' self spender = 0) ∧ (caller ≠ self → balance t self ≤ balance t' self).
Proof.
  intros Hok Hc Hp Hs Ha. destruct c as [to v|sp v|from to v]; cbn [token_step call_typed] in *.
  - assert (H := move_spec t caller to v Hok ltac:(by destruct Hc)). rewrite Hs in H. destruct H as (_ & _ & _ & Hal & Hb).
    split; [intros spender; unfold allowed; rewrite Hal; apply Hp|]. intros Hne. rewrite Hb, decide_False by congruence.
    destruct Hc. case_decide; lia.
  - injection Hs as <-. assert (caller ≠ self) by (intros ->; by eapply Ha). split; [|done]. intros spender. unfold allowed, set_allowed.
    cbn. rewrite lookup_insert_ne by done. apply Hp.
  - destruct (Z.leb_spec v (allowed t from caller)) as [Hle|]; [|done].
    assert (Hok1 : token_ok (set_allowed t from caller (allowed t from caller - v))) by done.
    assert (H := move_spec _ from to v Hok1 ltac:(by destruct Hc)). rewrite Hs in H. destruct H as (_ & _ & _ & Hal & Hb).
    assert (Hz : self = from → v = 0) by (intros <-; rewrite Hp in Hle; destruct Hc; lia). split.
    + intros spender. unfold allowed at 1. rewrite Hal. unfold set_allowed. cbn [allowances]. destruct (decide (from = self)) as [->|Hne].
      * rewrite lookup_insert_eq. cbn [default from_option id]. destruct (decide (caller = spender)) as [->|Hne].
        -- rewrite lookup_insert_eq. cbn. rewrite Hp, (Hz eq_refl). done.
        -- rewrite lookup_insert_ne by done. apply Hp.
      * rewrite lookup_insert_ne by done. apply Hp.
    + intros _. rewrite Hb. change (balance (set_allowed t from caller _) self) with (balance t self).
      destruct Hc. repeat case_decide; (rewrite Hz by done) || idtac; lia.
Qed.

(** Each function keeps the books in order. *)
Lemma vault_step_ok self token caller c w w' :
  vault_ok self token w → vault_typed c → vault_step self token caller c w = Some w' → vault_ok self token w'.
Proof.
  intros [Hok Hp Hg Hc] Ht Hs.
  assert (Hpay : ∀ to v, in_uint 256 v → vault_pay self token caller to v w = Some w' → vault_ok self token w').
  { intros to v Hv. unfold vault_pay. destruct (take (credits w) token caller v) as [g|] eqn:Eg; [|done].
    destruct (take_spec _ _ _ _ _ Hg Eg) as (_ & _ & Ho & Hn). destruct (token_step self (Transfer to v) (held w)) as [t|] eqn:Et; [|done].
    intros [= <-]. destruct (token_step_ok self (Transfer to v) _ _ Hok Hv Et) as [Hok' _].
    destruct (token_step_private self self (Transfer to v) _ _ Hok Hv Hp Et) as [Hp' _]; [by intros|]. constructor; try done. cbn [credits held].
    cbn [token_step] in Et. assert (H := move_spec (held w) self to v Hok ltac:(by destruct Hv)). rewrite Et in H.
    destruct H as (_ & _ & _ & _ & Hb). rewrite Ho, Hb, decide_True by done. destruct Hv. case_decide; lia. }
  destruct c as [v|v|to v]; cbn [vault_typed] in Ht; [|by eapply Hpay..]. cbn [vault_step] in Hs.
  destruct (token_step self (TransferFrom caller self v) (held w)) as [t|] eqn:Et; [|done].
  destruct (give (credits w) token caller v) as [g|] eqn:Eg; [|done]. injection Hs as <-.
  destruct (give_spec _ _ _ _ _ ltac:(by destruct Ht) Hg Eg) as (_ & Ho & Hn).
  destruct (token_step_ok self (TransferFrom caller self v) _ _ Hok Ht Et) as [Hok' _].
  destruct (token_step_private self self (TransferFrom caller self v) _ _ Hok Ht Hp Et) as [Hp' _]; [by intros|].
  constructor; try done. cbn [credits held]. rewrite Ho. cbn [token_step] in Et.
  destruct (Z.leb_spec v (allowed (held w) caller self)) as [Hle|]; [|done].
  assert (H := move_spec (set_allowed (held w) caller self (allowed (held w) caller self - v)) caller self v Hok ltac:(by destruct Ht)).
  rewrite Et in H. destruct H as (_ & _ & _ & _ & Hb). rewrite Hb. rewrite (decide_True (P := self = self)) by done.
  change (balance (set_allowed _ _ _ _) self) with (balance (held w) self). case_decide as E; [|lia].
  subst caller. rewrite Hp in Hle. destruct Ht. lia.
Qed.

(** No user is owed more than all of them are. *)
Lemma credit_owed g token user : map_Forall (λ _ x, 0 ≤ x) (default ∅ (g !! token)) → booked g token user ≤ owed g token.
Proof.
  intros H. unfold owed. rewrite (circulation_delete _ user). fold (booked g token user).
  assert (0 ≤ circulation (delete user (default ∅ (g !! token)))) by by apply circulation_nonneg, map_Forall_delete. lia.
Qed.

(** A withdrawal fails only when less is booked than asked, or as much: the token is there. *)
Lemma withdraw_step self token caller value w :
  token_ok (held w) → map_Forall (λ _ x, 0 ≤ x) (default ∅ (credits w !! token)) → owed (credits w) token ≤ balance (held w) self → in_uint 256 value →
  vault_step self token caller (Withdraw value) w =
  if value <? booked (credits w) token caller
  then (λ t, mkVault (set_credit (credits w) token caller (booked (credits w) token caller - value)) t) <$> move self caller value (held w)
  else None.
Proof.
  intros Hok Hg Hcov Hv. cbn [vault_step]. unfold vault_pay, take, booked. cbn [token_step].
  destruct (credits w !! token) as [inner|] eqn:E; cbn [default from_option id].
  2:{ rewrite lookup_empty. cbn [default from_option id]. destruct Hv. by rewrite (proj2 (Z.ltb_ge _ _)). }
  destruct (inner !! caller) as [x|] eqn:Ex; cbn [default from_option id].
  2:{ destruct Hv. by rewrite (proj2 (Z.ltb_ge _ _)). }
  rewrite Z.ltb_antisym. destruct (x <=? value); [done|]. cbn [negb]. by destruct (move self caller value (held w)).
Qed.

(** The books stay in order, whatever is called and in whatever order. *)
Lemma vault_world_ok self token w w' : vault_ok self token w → rtc (vault_world self token) w w' → vault_ok self token w'.
Proof.
  intros H Hr. induction Hr as [w|w w1 w2 Hs _ IH]; [done|]. apply IH. destruct Hs as [caller c w w' Hc E|caller c w t Hne Hc E].
  - by eapply vault_step_ok.
  - destruct H as [Hok Hp Hg Hcov]. destruct (token_step_private self caller c _ _ Hok Hc Hp E) as [Hp' Hb]; [by intros ->|].
    constructor; try done; [by apply (token_step_ok caller c _ _ Hok Hc E)|]. cbn [credits held]. specialize (Hb Hne). lia.
Qed.

(** ** The functions do those steps *)

Section statements.
Context {BB : BoostBits} {KC : Keccak} {BR : BoostResidue} {CT : ContractTypes (V := contract_var)}.
Variables (bal : list Z → Z) (chainOwner : list Z) (chainId : Z).
(** The contract at [self] with its variable at [n], and the token at [token] with its variables from [nt]. *)
Variables (n : nat) (self : list Z) (nt : nat) (token : list Z).
Implicit Types (s : ContractManager (V := contract_var)) (w : vault).
Abbreviation run := (exec bal chainOwner chainId).

Definition vault_code (c : vault_call) : ccode (list abi_val) :=
  match c with
  | Deposit value => deposit n self token value
  | Withdraw value => withdraw n self token value
  | TransferTo to value => transferTo n self token to value
  end.

(** During a call the manager [s] holds the vault [w]. *)
Definition vault_at s w : Prop :=
  is_Some (callLogger_ s) ∧ reads s !! v_tokensAndBalances n = Some (NestedVal (credits w)) ∧ token_at nt (reads s) = Some (held w).

(** The variables of neither contract. *)
Definition elsewhere (i : nat) : Prop :=
  i ≠ v_tokensAndBalances n ∧ i ≠ v_totalSupply nt ∧ i ≠ v_balances nt ∧ i ≠ v_allowed nt.

(** The code returns and does what the step says, or throws when there is no step. *)
Definition vault_does (c : ccode (list abi_val)) s (o : option vault) : Prop :=
  match o with
  | Some w' => ends bal chainOwner chainId c s (λ r s1, r = [] ∧ vault_at s1 w' ∧ steady s s1 ∧
      length (reads s1) = length (reads s) ∧ ∀ i, elsewhere i → reads s1 !! i = reads s !! i)
  | None => ∃ e s1, run c s = (Throw e, s1) ∧ e ≠ Undefined
  end.

Definition credits_abs (vals : list contract_value) : option (gmap (list Z) (gmap (list Z) Z)) :=
  match vals !! v_tokensAndBalances n with Some (NestedVal g) => Some g | _ => None end.
Definition credits_own (i : nat) : bool := bool_decide (i = v_tokensAndBalances n).
Abbreviation on_credits := (does bal chainOwner chainId credits_abs credits_own).

Lemma credits_read s g : credits_abs (reads s) = Some g ↔ reads s !! v_tokensAndBalances n = Some (NestedVal g).
Proof. unfold credits_abs. split; [|by intros ->]. by repeat case_match; intros [= <-]. Qed.

Lemma credits_put s g g' : reads s !! v_tokensAndBalances n = Some (NestedVal g) →
  credits_abs (<[v_tokensAndBalances n := NestedVal g']> (reads s)) = Some g'.
Proof. intros H. unfold credits_abs. rewrite list_lookup_insert_eq; [done|by eapply lookup_lt_Some]. Qed.

Lemma does_sub_credit s g user v : is_Some (callLogger_ s) → reads s !! v_tokensAndBalances n = Some (NestedVal g) → v ≤ booked g token user →
  on_credits (sub_credit n token user v) s (Some (tt, set_credit g token user (booked g token user - v))).
Proof.
  intros Hl Hg Hv. apply (does_modify bal chainOwner chainId credits_abs credits_own nested_kind _ g); [done|by apply bool_decide_eq_true|done|].
  unfold checked_sub. fold (booked g token user). rewrite (proj2 (Z.leb_le _ _) Hv). split; [done|]. by apply (credits_put s g).
Qed.

Lemma does_add_credit s g user v : is_Some (callLogger_ s) → reads s !! v_tokensAndBalances n = Some (NestedVal g) →
  on_credits (add_credit n token user v) s ((λ g', (tt, g')) <$> give g token user v).
Proof.
  intros Hl Hg. apply (does_modify bal chainOwner chainId credits_abs credits_own nested_kind _ g); [done|by apply bool_decide_eq_true|done|].
  unfold checked_add, give. fold (booked g token user). destruct (_ <=? _); [|done]. split; [done|]. by apply (credits_put s g).
Qed.

Lemma does_take s g user v : is_Some (callLogger_ s) → reads s !! v_tokensAndBalances n = Some (NestedVal g) →
  on_credits (take_credit n token user v) s ((λ g', (tt, g')) <$> take g token user v).
Proof.
  intros Hl Hg. assert (Hs : sees credits_abs s g) by (split; [done|by apply credits_read]).
  unfold take_credit. eapply does_then; [by apply (does_find_mut bal chainOwner chainId credits_abs credits_own nested_kind)|].
  intros s1 F [Hl1 Hg1%credits_read]. unfold take. destruct (g !! token) as [inner|] eqn:E; [|by apply does_throw].
  destruct (inner !! user) as [x|] eqn:Ex; [|by apply does_throw].
  assert (Hc : booked g token user = x) by (unfold booked; rewrite E; cbn; by rewrite Ex).
  assert (Ht := does_throw_if bal chainOwner chainId credits_abs credits_own (x <=? v) not_enough_balance s1 g ltac:(done) ltac:(split; [done|by apply credits_read])).
  destruct (Z.leb_spec x v) as [Hle|Hlt]; [by eapply does_unless|]. eapply does_then; [exact Ht|]. intros s2 F2 [Hl2 Hg2%credits_read].
  cbn [fmap option_fmap option_map]. rewrite <- Hc. apply does_sub_credit; [done|done|lia].
Qed.

(** A call of the token by the contract. *)
Lemma token_call tc c s t :
  is_Some (callLogger_ s) → contracts_ s !! token = Some c → is_ERC20 (contractName_ c) = true → first_var_ c = nt → token ≠ self →
  token_at nt (reads s) = Some t →
  match token_step self tc t with
  | Some t' => ends bal chainOwner chainId (callContractFunction self token is_ERC20 (λ i, call_code i token tc)) s (λ r s1, r = [] ∧
      token_at nt (reads s1) = Some t' ∧ only_token nt (reads s) (reads s1) ∧ steady s s1 ∧ locals_of s1 self = locals_of s self)
  | None => ∃ e s1, run (callContractFunction self token is_ERC20 (λ i, call_code i token tc)) s = (Throw e, s1) ∧ e ≠ Undefined
  end.
Proof.
  intros [m Hm] Hc Hcast Hnt Hne Ht. set (s0 := setContractVars token (origin_ (locals_of s self)) self 0 s).
  assert (Hcaller : caller_ (locals_of s0 token) = self) by (unfold s0, setContractVars, locals_of; cbn; by rewrite lookup_insert_eq).
  assert (Hself : locals_of s0 self = locals_of s self) by (unfold s0, setContractVars, locals_of; cbn; by rewrite lookup_insert_ne).
  assert (H := call_code_step bal chainOwner chainId nt token tc s0 t ltac:(by split)). rewrite Hcaller in H.
  destruct H as (s1 & Hv & Ho & H).
  assert (Hrun : run (callContractFunction self token is_ERC20 (λ i, call_code i token tc)) s =
    mtry (rethrow (run (call_code nt token tc))) (λ r, run (lift_code r)) s0).
  { unfold callContractFunction. cbn [exec]. unfold mbind' at 1, mget at 1, mtry, call_function, with_balances. rewrite Hm. cbn [Z.eqb].
    unfold mbind', mret', mget, mthrow_if. rewrite Hc, bool_decide_eq_true_2 by done. cbn [negb]. unfold mret', getContract.
    rewrite Hc, Hcast. cbn [mmodify]. by rewrite Hnt. }
  destruct (token_step self tc t) as [t'|].
  - destruct H as [[_ Ht'] H]. exists [], s1. rewrite Hrun. unfold mtry, rethrow, mtry. rewrite H. split; [done|]. split; [done|]. split; [done|].
    split; [done|]. split; [transitivity s0; [by constructor|by apply only_vars_steady]|]. destruct Hv as [-> _]. exact Hself.
  - destruct H as (e & He & H). rewrite Hrun. unfold mtry, rethrow, mtry. rewrite H. destruct e; try done; by eexists _, s1.
Qed.

(** The contract's variable is none of the token's. *)
Definition vault_apart : Prop := ∀ i, i = v_totalSupply nt ∨ i = v_balances nt ∨ i = v_allowed nt → i ≠ v_tokensAndBalances n.

Section steps.
Hypothesis Hapart : vault_apart.

Lemma credits_keep_token s s1 : framed credits_own s s1 → token_at nt (reads s1) = token_at nt (reads s).
Proof.
  intros [_ _ H]. unfold token_at. rewrite !H; [done|..]; apply bool_decide_eq_false; apply Hapart; auto.
Qed.

Lemma token_keeps_credits l l' : only_token nt l l' → l' !! v_tokensAndBalances n = l !! v_tokensAndBalances n.
Proof. intros [_ H]. apply H; intros E; (eapply Hapart; [|exact E || by symmetry]); auto. Qed.

Lemma credits_elsewhere s s1 i : framed credits_own s s1 → elsewhere i → reads s1 !! i = reads s !! i.
Proof. intros [_ _ H] (Hi & _). apply H. by apply bool_decide_eq_false. Qed.

Lemma token_elsewhere l l' i : only_token nt l l' → elsewhere i → l' !! i = l !! i.
Proof. intros [_ H] (_ & H1 & H2 & H3). by apply H. Qed.

Section one.
Variables (c : DynamicContract (V := contract_var)) (s : ContractManager (V := contract_var)) (w : vault).
Hypothesis Hw : vault_at s w.
Hypothesis Hc : contracts_ s !! token = Some c.
Hypothesis Hcast : is_ERC20 (contractName_ c) = true.
Hypothesis Hnt : first_var_ c = nt.
Hypothesis Hne : token ≠ self.

Lemma pay_does caller to v :
  vault_does (code_bind (take_credit n token caller v) (λ _, callContractFunction self token is_ERC20 (λ t, erc20_transfer t token to v))) s
    (vault_pay self token caller to v w).
Proof.
  destruct Hw as (Hl & Hg & Ht). destruct (does_take s (credits w) caller v Hl Hg) as (r & s1 & E & F & H). unfold vault_pay.
  destruct (take (credits w) token caller v) as [g|]; cbn [fmap option_fmap option_map] in H.
  2:{ destruct H as (e & -> & He). exists e, s1. by rewrite exec_code_bind, E. }
  destruct H as (-> & Hl1 & Hg1%credits_read). rewrite <- (credits_keep_token s s1 F) in Ht.
  assert (Hc1 : contracts_ s1 !! token = Some c) by by rewrite (steady_contracts _ _ (framed_steady _ _ _ F)).
  assert (Hcall := token_call (Transfer to v) c s1 (held w) Hl1 Hc1 Hcast Hnt Hne Ht).
  destruct (token_step self (Transfer to v) (held w)) as [t'|].
  - destruct Hcall as (a & s2 & E2 & -> & Ht2 & Ho & Hs & _). exists [], s2. rewrite exec_code_bind, E. split; [exact E2|]. split; [done|].
    split; [|split; [transitivity s1; [by eapply framed_steady|done]|split]].
    + split; [by rewrite (steady_logger _ _ Hs)|]. split; [|done]. by rewrite (token_keeps_credits _ _ Ho).
    + rewrite (proj1 Ho). by apply framed_length in F.
    + intros i Hi. by rewrite (token_elsewhere _ _ _ Ho Hi), (credits_elsewhere s s1 i F Hi).
  - destruct Hcall as (e & s2 & E2 & He). exists e, s2. rewrite exec_code_bind, E. by split.
Qed.

(** The functions of the contract. *)
Lemma vault_code_does vc : vault_does (vault_code vc) s (vault_step self token (caller_ (locals_of s self)) vc w).
Proof.
  set (caller := caller_ (locals_of s self)). destruct vc as [v|v|to v]; cbn [vault_code vault_step].
  - destruct Hw as (Hl & Hg & Ht). assert (Hcall := token_call (TransferFrom caller self v) c s (held w) Hl Hc Hcast Hnt Hne Ht).
    assert (Hrun : run (deposit n self token v) s =
      run (code_bind (callContractFunction self token is_ERC20 (λ i, call_code i token (TransferFrom caller self v)))
        (λ _, CLocals self (λ l, code_bind (add_credit n token (caller_ l) v) (λ _, CRet [])))) s).
    { unfold deposit. rewrite !exec_code_bind. cbn [exec code_bind]. unfold mbind', mget. fold caller. cbn [call_code].
      destruct (run _ s) as [[a|e] s1]; [|done]. by rewrite !exec_code_bind. }
    destruct (token_step self (TransferFrom caller self v) (held w)) as [t'|].
    + destruct Hcall as (a & s1 & E1 & -> & Ht1 & Ho & Hs & Hloc). rewrite <- (token_keeps_credits _ _ Ho) in Hg.
      rewrite <- (steady_logger _ _ Hs) in Hl.
      assert (H := does_add_credit s1 (credits w) caller v Hl Hg). destruct H as (r & s2 & E2 & F & H).
      assert (Hrun2 : run (deposit n self token v) s = match r with Ok _ => (Ok [], s2) | Throw e => (Throw e, s2) end).
      { rewrite Hrun, exec_code_bind, E1. cbn [exec]. unfold mbind', mget. rewrite Hloc. fold caller. rewrite exec_code_bind, E2. by destruct r. }
      destruct (give (credits w) token caller v) as [g|]; cbn [fmap option_fmap option_map] in H.
      * destruct H as (-> & Hl2 & Hg2%credits_read). exists [], s2. split; [exact Hrun2|]. split; [done|]. split; [|split; [|split]].
        -- split; [done|]. split; [done|]. by rewrite (credits_keep_token s1 s2 F).
        -- transitivity s1; [done|by eapply framed_steady].
        -- apply framed_length in F. by rewrite F, (proj1 Ho).
        -- intros i Hi. by rewrite (credits_elsewhere s1 s2 i F Hi), (token_elsewhere _ _ _ Ho Hi).
      * destruct H as (e & -> & He). exists e, s2. by rewrite Hrun2.
    + destruct Hcall as (e & s1 & E1 & He). exists e, s1. by rewrite Hrun, exec_code_bind, E1.
  - exact (pay_does caller caller v).
  - exact (pay_does caller to v).
Qed.
End one.

(** C36: What the contract has booked for a user it pays. Whatever has happened since the books were in order, deposits,
    withdrawals and transfers of anybody and any calls of the token by others, a user who asks for less than what is booked for it gets it:
    the call returns, its booked balance falls and its balance of the token grows by the value, and the books are in order again.
    A user who asks for all of it, or more, gets an exception. *)
Theorem wrapper_pays c s w0 w value :
  let caller := caller_ (locals_of s self) in
  vault_ok self token w0 → rtc (vault_world self token) w0 w → vault_at s w →
  contracts_ s !! token = Some c → is_ERC20 (contractName_ c) = true → first_var_ c = nt → token ≠ self →
  in_uint 256 value → caller ≠ self →
  (value < booked (credits w) token caller →
    ∃ t, let w' := mkVault (set_credit (credits w) token caller (booked (credits w) token caller - value)) t in
      vault_does (withdraw n self token value) s (Some w') ∧ balance t caller = balance (held w) caller + value ∧
      vault_ok self token w') ∧
  (booked (credits w) token caller ≤ value → vault_does (withdraw n self token value) s None).
Proof.
  intros caller Hok0 Hreach Hw Hc Hcast Hnt Hne Hv Hcaller. assert (Hok := vault_world_ok self token w0 w Hok0 Hreach).
  assert (H := vault_code_does c s w Hw Hc Hcast Hnt Hne (Withdraw value)). fold caller in H. cbn [vault_code] in H.
  assert (Hstep := vault_step_ok self token caller (Withdraw value) w). destruct Hok as [Htok Hp Hg Hcov].
  rewrite (withdraw_step self token caller value w Htok Hg Hcov Hv) in H, Hstep.
  destruct (Z.ltb_spec value (booked (credits w) token caller)) as [Hlt|Hge]; (split; intros Hcmp); [|lia..|exact H].
  assert (Hm := move_spec (held w) self caller value Htok ltac:(by destruct Hv)).
  destruct (move self caller value (held w)) as [t|] eqn:Et.
  - cbn [fmap option_fmap option_map] in H, Hstep. exists t. split; [exact H|]. split; [|by apply Hstep].
    destruct Hm as (_ & _ & _ & _ & Hb). rewrite Hb, decide_False, decide_True by done. lia.
  - exfalso. assert (Hle := credit_owed _ token caller Hg). lia.
Qed.
End steps.
End statements.

(** ** The contract across a restart

    The entries of a token's users have the same key, so that the last one written is what is kept. *)

Section store.
Context {DBI : RocksDB} {BB : BoostBits} {HO : HashOrder} {KC : Keccak} {BR : BoostResidue}.
Implicit Types (g : gmap (list Z) (gmap (list Z) Z)) (address token user : list Z).

(** The user of a token whose balance survives, if the token has any. *)
Definition last_user (inner : gmap (list Z) Z) : option (list Z * Z) := last (in_order inner).
Definition kept g : gmap (list Z) (gmap (list Z) Z) := omap (λ inner, (λ q, {[ q.1 := q.2 ]}) <$> last_user inner) g.
Definition kept_list g : list (list Z * list Z * Z) := omap (λ p, (λ q, (p.1, q.1, q.2)) <$> last_user p.2) (in_order g).

Definition credit_entry (t : list Z * list Z * Z) : Entry := (t.1.1, t.1.2 ++ uintToBytes t.2).
Definition credit_puts address g : list Entry :=
  map (prefixed (getNewPrefix address "tokensAndBalances_")) (map credit_entry (flat g)).

Lemma wrapper_save_puts address m d : wrapper_save address m d = putBatch d (mkBatch (credit_puts address (map_ m)) []).
Proof.
  unfold wrapper_save, sm_committed_entries. rewrite (foldl_push_nested (λ p, in_order p.2) (λ p _, p.1) (λ _ q, q.1 ++ uintToBytes q.2)).
  unfold credit_puts. cbn [puts_ dels_ DBBatch_new app]. do 2 f_equal. unfold flat.
  induction (in_order (map_ m)) as [|[o i] l IH]; [done|]. rewrite !bind_cons, !map_app, IH, !map_map. done.
Qed.

Lemma foldl_same_key {A} (k : list Z) (f : A → list Z) (l : list A) (t : gmap (list Z) (list Z)) :
  foldl (λ t e, <[e.1 := e.2]> t) t (map (λ q, (k, f q)) l) = match last l with Some q => <[k := f q]> t | None => t end.
Proof.
  revert t. induction l as [|q l IH]; intros t; [done|]. cbn [map foldl fst snd]. rewrite IH, last_cons.
  destruct (last l); [|done]. apply insert_insert_eq.
Qed.

(** The last entry of each token is what the batch leaves. *)
Lemma credit_puts_kept address g d :
  rdb_map (putBatch d (mkBatch (credit_puts address g) [])) =
  rdb_map (putBatch d (mkBatch (map (prefixed (getNewPrefix address "tokensAndBalances_")) (map credit_entry (kept_list g))) [])).
Proof.
  rewrite !putBatch_map. unfold credit_puts, flat, kept_list. rewrite !map_map. generalize (rdb_map d) as t.
  induction (in_order g) as [|[o i] l IH]; intros t; [done|]. rewrite bind_cons, map_app, foldl_app, map_map. cbn [fst snd].
  rewrite (foldl_same_key (getNewPrefix address "tokensAndBalances_" ++ o) (λ q, q.1 ++ uintToBytes q.2)).
  cbn [omap list_omap fst snd]. unfold last_user at 1. destruct (last (in_order i)) as [q|]; cbn [fmap option_fmap option_map map foldl]; apply IH.
Qed.

Lemma kept_list_elem g o s x : (o, s, x) ∈ kept_list g ↔ ∃ i, g !! o = Some i ∧ last_user i = Some (s, x).
Proof.
  unfold kept_list. rewrite list_elem_of_omap. split.
  - intros ([o' i] & Ho%in_order_elem & E). cbn [fst snd] in E. destruct (last_user i) as [[s' x']|] eqn:El; [|done].
    cbn in E. injection E as <- <- <-. by exists i.
  - intros (i & Ho & E). exists (o, i). split; [by apply in_order_elem|]. cbn. by rewrite E.
Qed.

Lemma last_user_in (i : gmap (list Z) Z) s x : last_user i = Some (s, x) → i !! s = Some x.
Proof.
  unfold last_user. rewrite last_lookup. intros H%list_elem_of_lookup_2. by apply in_order_elem.
Qed.

Lemma kept_keys g : NoDup (map credit_entry (kept_list g)).*1.
Proof.
  assert (H : (map credit_entry (kept_list g)).*1 = omap (λ p, (λ _, p.1) <$> last_user p.2) (in_order g)).
  { unfold kept_list. induction (in_order g) as [|[o i] l IH]; [done|]. cbn [omap list_omap fst snd].
    destruct (last_user i); cbn [fmap option_fmap option_map map]; [|apply IH]. rewrite fmap_cons, IH. done. }
  rewrite H. clear H. assert (Hn := in_order_keys g). revert Hn. induction (in_order g) as [|[o i] l IH]; intros Hn; [constructor|].
  rewrite fmap_cons in Hn. apply NoDup_cons in Hn as [Ho Hn]. cbn [omap list_omap fst snd].
  destruct (last_user i); cbn [fmap option_fmap option_map]; [|by apply IH]. apply NoDup_cons. split; [|by apply IH].
  intros ([o' i'] & Hin & E)%list_elem_of_omap. apply Ho. destruct (last_user (o', i').2); [|done]. cbn in E. injection E as ->.
  apply list_elem_of_fmap. by exists (o, i').
Qed.

Lemma kept_list_flat g : kept_list g ≡ₚ flat (kept g).
Proof.
  apply NoDup_Permutation; [|apply flat_NoDup|].
  - assert (H := kept_keys g). apply (NoDup_fmap_1 (λ t, (credit_entry t).1)).
    by rewrite <- list_fmap_compose in H.
  - intros [[o s] x]. rewrite kept_list_elem, flat_elem. unfold kept. split.
    + intros (i & Ho & E). exists {[ s := x ]}. rewrite lookup_omap, Ho. cbn. rewrite E. split; [done|]. apply lookup_singleton_eq.
    + intros (i & Ho & E). rewrite lookup_omap in Ho. destruct (g !! o) as [i'|]; [|done]. cbn in Ho. exists i'. split; [done|].
      destruct (last_user i') as [[s' x']|]; [|done]. cbn in Ho. injection Ho as <-. by apply lookup_singleton_Some in E as [-> ->].
Qed.
(** What the types of the contract guarantee of its map. *)
Definition storable_credits g : Prop := map_Forall (λ o inner, length o = 20%nat ∧ storable_balances inner) g.
(** The contract's entries in [d], if any, are of tokens it has. *)
Definition credits_cover address g (d : rdb) : Prop :=
  ∀ k, is_Some (rdb_map d !! (getNewPrefix address "tokensAndBalances_" ++ k)) → is_Some (kept g !! k).

Lemma load_credit_entry m o s x :
  length o = 20%nat → length s = 20%nat → in_uint 256 x →
  ∃ m', load_credit m (credit_entry (o, s, x)) = Ok m' ∧ sm_view m' = set_inner (sm_view m) (o, s, x) ∧
    sm_erased m' = sm_erased m ∧ owner_ (sm_base m') = owner_ (sm_base m).
Proof.
  intros Ho Hs Hx. unfold load_credit, credit_entry, FixedBytes_of. cbn [fst snd].
  rewrite (decide_True (P := length o = 20%nat)), result_bind_Ok by done.
  rewrite (subspan_drop _ 0 20 s (uintToBytes x)), result_bind_Ok by (done || lia).
  rewrite (decide_True (P := length s = 20%nat)), result_bind_Ok by done.
  rewrite (decide_True (P := (20 ≤ length (s ++ uintToBytes x))%nat)), result_bind_Ok by (rewrite length_app; lia).
  rewrite drop_app_length' by done. rewrite fromBigEndian_uintToBytes, result_bind_Ok by (done || by destruct Hx).
  eexists. split; [done|]. apply (modified ∅ o (<[s := x]>) m).
Qed.

Lemma load_credits (l : list (list Z * list Z * Z)) m :
  Forall (λ t, length t.1.1 = 20%nat ∧ length t.1.2 = 20%nat ∧ in_uint 256 t.2) l →
  ∃ m', foldM load_credit m (map credit_entry l) = Ok m' ∧ sm_view m' = foldl set_inner (sm_view m) l ∧
    sm_erased m' = sm_erased m ∧ owner_ (sm_base m') = owner_ (sm_base m).
Proof.
  intros Hl. revert m. induction Hl as [|[[o s] x] l (Ho & Hs & Hx) _ IH]; intros m; [by exists m|].
  destruct (load_credit_entry m o s x Ho Hs Hx) as (m1 & E & Hv & He & Hw).
  destruct (IH m1) as (m' & E' & Hv' & He' & Hw'). exists m'. cbn [map foldM foldl]. rewrite E, result_bind_Ok, E'.
  split; [done|]. rewrite Hv', Hv, He', He, Hw', Hw. done.
Qed.

Lemma kept_credits address g d :
  credits_cover address g d →
  getBatch (putBatch d (mkBatch (credit_puts address g) [])) (getNewPrefix address "tokensAndBalances_") [] ≡ₚ
  map credit_entry (kept_list g).
Proof.
  intros Hc. rewrite (getBatch_agree _ _ _ (λ k, f_equal (lookup _) (credit_puts_kept address g d))).
  apply putBatch_getBatch; [apply prefixed_keys, kept_keys|apply kept_keys| |].
  - intros k v. by rewrite prefixed_elem.
  - intros k [i Hk]%Hc. unfold kept in Hk. rewrite lookup_omap in Hk. destruct (g !! k) as [i'|] eqn:E; [|done]. cbn in Hk.
    destruct (last_user i') as [[s x]|] eqn:El; [|done]. apply list_elem_of_fmap. exists (credit_entry (k, s, x)). split; [done|].
    apply list_elem_of_fmap. exists (k, s, x). split; [done|]. apply kept_list_elem. eauto.
Qed.

(** A wrapper that is saved and loaded has kept one user of each token. *)
Theorem wrapper_reloads address m d :
  storable_credits (map_ m) → credits_cover address (map_ m) d →
  ∃ vs, wrapper_load address (wrapper_save address m d) = Ok vs ∧ Forall idle vs ∧ sv_get <$> vs = [NestedVal (kept (map_ m))].
Proof.
  intros Hs Hc. rewrite wrapper_save_puts. set (g := map_ m) in *.
  destruct (Permutation_map_inv credit_entry _ (kept_credits address g d Hc)) as (l & El & Pl). unfold wrapper_load. rewrite El.
  destruct (load_credits l (SafeMap_owned ∅)) as (m' & L & V & Er & Ow).
  { rewrite <- Pl. apply Forall_forall. intros [[o s] x] (i & Ho & E%last_user_in)%kept_list_elem. destruct (Hs _ _ Ho) as [? Hi].
    destruct (Hi _ _ E). done. }
  rewrite L, result_bind_Ok. eexists. split; [done|].
  rewrite (foldl_set_inner (kept g)) in V.
  2:{ intros o i. unfold kept. rewrite lookup_omap. destruct (g !! o) as [i'|]; [|done]. cbn. destruct (last_user i') as [q|]; [|done].
      cbn. intros [= <-]. apply insert_non_empty. }
  2:{ by rewrite <- Pl, kept_list_flat. }
  destruct (ready_map_idle m' Ow Er) as (A1 & A2 & A3 & A4 & A5). split.
  - apply Forall_singleton. unfold idle. cbn [sv_wf sv_base sv_get sv_value contract_variable SafeMap_variable]. split_and!; try done. congruence.
  - unfold wrapper_vars. cbn [fmap list_fmap sv_get contract_variable SafeMap_variable]. by rewrite A4, V.
Qed.

(** Nothing is lost when each token has one user. *)
Lemma kept_single g : map_Forall (λ _ inner, size inner = 1%nat) g → kept g = g.
Proof.
  intros H. apply map_eq. intros o. unfold kept. rewrite lookup_omap. destruct (g !! o) as [i|] eqn:E; [|done]. cbn.
  specialize (H _ _ E). cbn in H. unfold last_user. assert (Hp := in_order_perm i).
  assert (Hl : length (in_order i) = 1%nat) by (by rewrite Hp, length_map_to_list).
  destruct (in_order i) as [|[s x] [|]]; [done| |done]. cbn. f_equal. symmetry in Hp. apply Permutation_singleton_r in Hp.
  rewrite <- (list_to_map_to_list i), Hp. done.
Qed.
End store.

(** ** The views *)

Section views.
Context {BB : BoostBits} {KC : Keccak} {BR : BoostResidue} {CT : ContractTypes (V := contract_var)}.
Variables (bal : list Z → Z) (chainOwner : list Z) (chainId : Z).
Implicit Types s : ContractManager (V := contract_var).
Abbreviation view := (gives bal chainOwner chainId).

Lemma gives_entry {A} (kd : map_kind (list Z) A) i key s m (f : option A → Z) :
  is_Some (callLogger_ s) → reads s !! i = Some (mk_val kd m) →
  view (use i (mk_on kd (sm_find_const key)) (λ it, CRet [VInt (f it)])) s (Ok [VInt (f (m !! key))]).
Proof.
  intros [lg Hl] (v0 & Hv & (v & -> & Hm)%(mk_inv kd))%reads_var. destruct (checkKeyAndCopy_spec key v) as (C1 & C2 & _).
  assert (H := ends_use bal chainOwner chainId i (mk_on kd (sm_find_const key)) s (m !! key) (mk_wrap kd v) (mk_wrap kd (checkKeyAndCopy key v))
    (λ r s1, r = m !! key ∧ like s s1)).
  destruct H as (r & s1 & E & -> & L); [by eexists|done|rewrite mk_on_wrap; unfold sm_find_const; by rewrite C2, Hm| |].
  - intros s1 Hr Hk Hs Hlo. split; [done|]. constructor; [| |done|done].
    + apply (reads_same s s1 i _ _ Hv) in Hr; [done|]. by rewrite !mk_get, C1.
    + apply (locks_same s s1 i _ _ Hv) in Hk; [done|]. by rewrite !mk_lock.
  - exists s1. rewrite run_use, exec_code_bind, E. done.
Qed.

(** [getUserBalance] answers what is booked, and [getContractBalance] what the token has for the contract. *)
Theorem wrapper_views n self nt token user c s w :
  vault_at n nt s w → contracts_ s !! token = Some c → is_ERC20 (contractName_ c) = true → first_var_ c = nt →
  view (getUserBalance n token user) s (Ok [VInt (booked (credits w) token user)]) ∧
  view (getContractBalance self token) s (Ok [VInt (balance (held w) self)]).
Proof.
  intros (Hl & Hg & Ht) Hc Hcast Hnt. split.
  - assert (H := gives_entry nested_kind (v_tokensAndBalances n) token s (credits w)
      (λ it, match it with None => 0 | Some inner => match inner !! user with None => 0 | Some x => x end end) Hl Hg).
    revert H. unfold booked. destruct (credits w !! token) as [inner|]; cbn [default from_option id];
      [by destruct (inner !! user)|by rewrite lookup_empty].
  - apply token_at_inv in Ht as (_ & Hb & _).
    assert (H := gives_entry balances_kind (v_balances nt) self s (balances (held w)) (λ it, match it with None => 0 | Some x => x end) Hl Hb).
    destruct H as (s1 & E & L). exists s1. split; [|done]. unfold getContractBalance, callContractViewFunction. cbn [exec]. unfold mtry, mbind', getContract.
    rewrite Hc, Hcast, Hnt. change (erc20_balanceOf nt self) with (use (v_balances nt) (mk_on balances_kind (sm_find_const self))
      (λ it, CRet [VInt (match it with None => 0 | Some x => x end)])). rewrite E. unfold balance. by destruct (balances (held w) !! self).
Qed.
End views.

(** ** The class *)

Section class.
Context {BB : BoostBits} {KC : Keccak} {BR : BoostResidue}.

Lemma honest_find {K T} {EK : EqDecision K} {CK : Countable K} (k : K) : honest (sm_find (T := T) k).
Proof.
  apply honest_writes. intros m Hw. destruct (checkKeyAndCopy_spec k m) as (_ & _ & Hm & He & Hb).
  change (map_ (checkKeyAndCopy k m) = map_ m ∧ sm_erased (checkKeyAndCopy k m) = ∅ ∧
    markAsUsed (sm_base (checkKeyAndCopy k m)) = markAsUsed (sm_base m)). by rewrite Hm, He, Hb.
Qed.
#[local] Hint Resolve honest_find : code.

Lemma honest_call {A} self target cast (body : nat → ccode A) :
  (∀ i, honest_code (body i)) → honest_code (callContractFunction self target cast body).
Proof. intros H l. split; [done|]. split; [done|]. by intros [|]. Qed.

Lemma take_credit_honest n token user v : honest_code (take_credit n token user v).
Proof.
  apply honest_code_bind; [apply honest_use; [eauto with code|done]|]. intros [inner|]; [|done]. destruct (inner !! user) as [x|]; [|done].
  apply honest_code_bind; [by destruct (x <=? v)|]. intros []. apply honest_use; [eauto with code|done].
Qed.

Lemma withdraw_honest n self token v : honest_code (withdraw n self token v).
Proof. intros l. apply honest_code_bind; [apply take_credit_honest|]. intros []. apply honest_call. intros i. apply erc20_transfer_honest. Qed.
Lemma transferTo_honest n self token to v : honest_code (transferTo n self token to v).
Proof. intros l. apply honest_code_bind; [apply take_credit_honest|]. intros []. apply honest_call. intros i. apply erc20_transfer_honest. Qed.
Lemma deposit_honest n self token v : honest_code (deposit n self token v).
Proof.
  apply honest_code_bind; [intros l; apply honest_call; intros i; apply erc20_transferFrom_honest|]. intros _.
  apply honest_code_bind; [|done]. intros l. apply honest_use; [eauto with code|done].
Qed.
Lemma getUserBalance_honest n token user : honest_code (getUserBalance n token user).
Proof. apply honest_use; [eauto with code|done]. Qed.
Lemma getContractBalance_honest self token : honest_code (getContractBalance self token).
Proof. split; [intros i; apply erc20_balanceOf_honest|by intros [|]]. Qed.

Lemma erc20wrapper_contract_honest n self : honest_contract (erc20wrapper_contract n self).
Proof.
  unfold erc20wrapper_contract, wrapper_registerContractFunctions.
  repeat (apply registerMemberFunction_honest;
    [intros ? vs _; unfold args_address, args_address2, args_address_uint, args_address2_uint; repeat case_match; try done|]).
  - apply deposit_honest.
  - apply transferTo_honest.
  - apply withdraw_honest.
  - apply getUserBalance_honest.
  - apply getContractBalance_honest.
  - split_and!; intros f g ci Hf; cbn in Hf; by rewrite lookup_empty in Hf.
Qed.

(** The factory builds contracts that a manager may hold. *)
Lemma erc20wrapper_types_honest f : @honest_types _ _ _ {| createContractFuncs_ := {[ f := erc20wrapper_template ]} |}.
Proof.
  intros g t args creator derived chainId n vs c Ht. cbn in Ht. apply lookup_singleton_Some in Ht as [<- <-].
  cbn [ct_construct erc20wrapper_template]. intros Hc. case_match; [|done]. injection Hc as <- <-. split; [|apply erc20wrapper_contract_honest].
  destruct (ready_map_idle (SafeMap_owned (∅ : gmap (list Z) (gmap (list Z) Z))) eq_refl eq_refl) as (A1 & A2 & A3 & A4 & A5).
  apply Forall_singleton. unfold idle. cbn [sv_wf sv_base sv_get sv_value contract_variable SafeMap_variable]. by rewrite A1, A2, A3, A4, A5.
Qed.
End class.

(** ** A vault with one user *)

Definition toy_coin : list Z := replicate 19 0 ++ [1].
Definition toy_vault_address : list Z := replicate 19 0 ++ [8].
Definition toy_vault_credits : gmap (list Z) (gmap (list Z) Z) := {[ toy_coin := {[ toy_trader := 100 ]} ]}.
Definition toy_vault_token (wrapper trader : Z) : token := mkToken 150 {[ toy_trader := trader; toy_vault_address := wrapper ]} ∅.

Definition toy_vault_manager : ContractManager (V := contract_var) :=
  mkManager
    (<[ toy_coin := @erc20_contract boost_ref toy_hash residue_ref 0 (toy_coin) "ERC20" ]>
    {[ toy_vault_address := @erc20wrapper_contract boost_ref toy_hash residue_ref 6 toy_vault_address ]})
    {[ toy_vault_address := mkLocals toy_trader toy_trader 0 ]}
    (call_start (ready_vars (SafeString_owned [84]) (SafeString_owned [84]) (SafeUint_owned 18) (SafeUint_owned 150)
      (SafeMap_owned {[ toy_trader := 0; toy_vault_address := 150 ]}) (SafeMap_owned ∅) ++ wrapper_vars (SafeMap_owned toy_vault_credits)))
    (Some ∅) [] (mkEventManager [] []) (mkGlobals zero_address zero_hash 1 2 zero_hash).

Lemma toy_vault_at : vault_at 6 0 toy_vault_manager (mkVault toy_vault_credits (toy_vault_token 150 0)).
Proof. split; [by eexists|]. split; by vm_compute. Qed.

Lemma toy_vault_apart : vault_apart 6 0.
Proof. unfold vault_apart. intros i [->|[->| ->]]; by vm_compute. Qed.

Lemma toy_vault_ok : vault_ok toy_vault_address (toy_coin) (mkVault toy_vault_credits (toy_vault_token 100 50)).
Proof.
  constructor.
  - split; [by_compute|]. split; [by_compute|by vm_compute].
  - intros spender. unfold allowed. cbn. by rewrite lookup_empty.
  - by_compute.
  - by vm_compute.
Qed.

(** The user, who has 100 in the vault, sends the vault another 50 behind its back and withdraws 40; 100 it could not. *)
Lemma wrapper_pays_witness :
  let does := @vault_does boost_ref toy_hash residue_ref toy_token_types (λ _, 0) toy_trader 8080 6 0 in
  let run value := @withdraw residue_ref 6 toy_vault_address (toy_coin) value in
  ((40 < 100) → ∃ t, does (run 40) toy_vault_manager (Some (mkVault (set_credit toy_vault_credits (toy_coin) toy_trader 60) t)) ∧
    balance t toy_trader = 0 + 40 ∧
    vault_ok toy_vault_address (toy_coin) (mkVault (set_credit toy_vault_credits (toy_coin) toy_trader 60) t)) ∧
  (100 ≤ 100 → does (run 100) toy_vault_manager None).
Proof.
  assert (Hstep : rtc (vault_world toy_vault_address (toy_coin)) (mkVault toy_vault_credits (toy_vault_token 100 50))
    (mkVault toy_vault_credits (toy_vault_token 150 0))).
  { apply rtc_once. apply (world_token _ _ toy_trader (Transfer toy_vault_address 50) (mkVault toy_vault_credits (toy_vault_token 100 50)));
      [done|by_compute|by vm_compute]. }
  assert (H : ∀ v, in_uint 256 v → _) by (intros v; exact (@wrapper_pays boost_ref toy_hash residue_ref toy_token_types (λ _, 0) toy_trader 8080 6 toy_vault_address 0 (toy_coin) toy_vault_apart
    (@erc20_contract boost_ref toy_hash residue_ref 0 (toy_coin) "ERC20") toy_vault_manager _ _ v toy_vault_ok Hstep toy_vault_at
    ltac:(apply lookup_insert_eq) eq_refl eq_refl ltac:(done))).
  split; [apply (H 40); [by_compute|done]|apply (H 100); [by_compute|done]].
Defined.

(** Two users of one token: after a restart the vault knows one of them. *)
Definition toy_two_users : gmap (list Z) (gmap (list Z) Z) := {[ toy_coin := {[ toy_trader := 100; toy_friend := 70 ]} ]}.
Lemma restart_forgets_a_user :
  ∃ vs, @wrapper_load ref_db toy_vault_address
    (@wrapper_save ref_db order_ref toy_vault_address (SafeMap_owned toy_two_users) (∅ : gmap _ _)) = Ok vs ∧
  (sv_get <$> vs = [NestedVal {[ toy_coin := {[ toy_trader := 100 ]} ]}] ∨ sv_get <$> vs = [NestedVal {[ toy_coin := {[ toy_friend := 70 ]} ]}]).
Proof.
  destruct (@wrapper_reloads ref_db order_ref toy_vault_address (SafeMap_owned toy_two_users) (∅ : gmap _ _)) as (vs & E & _ & Hv).
  - by_compute.
  - intros k [x Hx]. cbn [rdb_map ref_db] in Hx. by rewrite lookup_empty in Hx.
  - exists vs. split; [exact E|]. rewrite Hv. by vm_compute; auto.
Qed.
