(* ===== verification/ThrowTests.v ===== *)
(** * ThrowTests: the contracts that throw (src/contract/templates/throwtest{A,B,C}.{h,cpp}, testThrowVars.{h,cpp})

    [ThrowTestA] stores a number and calls [ThrowTestB], which throws.  Their numbers are built without an owner, so that
    no call registers them: they keep what a failed call wrote. *)

From S2P Require Import Prelude Bytes SizedInts Hashing SafeBase SafeCell SafeString SafeUint SafeVector SafeMap Tx Randomness Abi Hex Event EvmHost ContractManager ContractVars ContractLogic ERC20 DexPair.

Definition is_ThrowTestB (name : string) : bool := bool_decide (name = "ThrowTestB"%string).

Section contracts.
Context {BB : BoostBits} {KC : Keccak} {BR : BoostResidue}.

(** The getter of [num_], the variable at [n]. *)
Definition getNum (n : nat) : ccode (list abi_val) := use n (on_uint SafeUint_get) (λ x, CRet [VInt x]).

Definition setNumC (n : nat) (valC : Z) : ccode (list abi_val) := (set_uint n valC ;;~ CRet [])%code.

Definition setNumB (n : nat) (valB : Z) (addC : list Z) (valC : Z) : ccode (list abi_val) := (
  set_uint n valB ;;~
  CThrow (DynamicException "Intended throw in ThrowTestB"))%code.

Definition setNumA (n : nat) (self : list Z) (valA : Z) (addB : list Z) (valB : Z) (addC : list Z) (valC : Z) : ccode (list abi_val) := (
  set_uint n valA ;;~
  callContractFunction self addB is_ThrowTestB (λ b, setNumB b valB addC valC))%code.

(** The arguments come decoded for the function's types. *)
Definition args_numC (f : Z → ccode (list abi_val)) (vs : list abi_val) : ccode (list abi_val) :=
  match vs with [VInt x] => f x | _ => CThrow Undefined end.
Definition args_numB (f : Z → list Z → Z → ccode (list abi_val)) (vs : list abi_val) : ccode (list abi_val) :=
  match vs with [VInt x; VBytes c; VInt y] => f x c y | _ => CThrow Undefined end.
Definition args_numA (f : Z → list Z → Z → list Z → Z → ccode (list abi_val)) (vs : list abi_val) : ccode (list abi_val) :=
  match vs with [VInt x; VBytes b; VInt y; VBytes c; VInt z] => f x b y c z | _ => CThrow Undefined end.

Definition throwA_registerContractFunctions (n : nat) (self : list Z) (c : DynamicContract (V := contract_var)) : DynamicContract (V := contract_var) :=
  let c := registerMemberFunction "getNumA" [] [TUint 8] (args0 (getNum n)) View c in
  registerMemberFunction "setNumA" [TUint 8; TAddress; TUint 8; TAddress; TUint 8] [] (args_numA (setNumA n self)) NonPayable c.
Definition throwB_registerContractFunctions (n : nat) (c : DynamicContract (V := contract_var)) : DynamicContract (V := contract_var) :=
  let c := registerMemberFunction "getNumB" [] [TUint 8] (args0 (getNum n)) View c in
  registerMemberFunction "setNumB" [TUint 8; TAddress; TUint 8] [] (args_numB (setNumB n)) NonPayable c.
Definition throwC_registerContractFunctions (n : nat) (c : DynamicContract (V := contract_var)) : DynamicContract (V := contract_var) :=
  let c := registerMemberFunction "getNumC" [] [TUint 8] (args0 (getNum n)) View c in
  registerMemberFunction "setNumC" [TUint 8] [] (args_numC (setNumC n)) NonPayable c.

Definition throwA_contract (n : nat) (self : list Z) : DynamicContract (V := contract_var) :=
  throwA_registerContractFunctions n self (mkContract "ThrowTestA" n ∅ ∅ ∅).
Definition throwB_contract (n : nat) : DynamicContract (V := contract_var) :=
  throwB_registerContractFunctions n (mkContract "ThrowTestB" n ∅ ∅ ∅).
Definition throwC_contract (n : nat) : DynamicContract (V := contract_var) :=
  throwC_registerContractFunctions n (mkContract "ThrowTestC" n ∅ ∅ ∅).

(** The number is built by its default constructor, without an owner; nothing is committed, saved or loaded. *)
Definition throw_vars : list contract_var := [UintVar (SafeUint_local 0)].

Definition throwA_template : ContractTemplate (V := contract_var) :=
  mkTemplate [] (λ args creator address _ n, match args with [] => Ok (throw_vars, throwA_contract n address) | _ => Throw Undefined end).
Definition throwB_template : ContractTemplate (V := contract_var) :=
  mkTemplate [] (λ args creator address _ n, match args with [] => Ok (throw_vars, throwB_contract n) | _ => Throw Undefined end).
Definition throwC_template : ContractTemplate (V := contract_var) :=
  mkTemplate [] (λ args creator address _ n, match args with [] => Ok (throw_vars, throwC_contract n) | _ => Throw Undefined end).

(** [TestThrowVars]: the constructor throws after its variables are committed. *)
Definition throwVars_construct (creator address : list Z) (n : nat) : result (list contract_var * DynamicContract (V := contract_var)) :=
  let var1 := (SafeString_assign (string_bytes "var1") (SafeString_owned [])).2 in
  let var1 := (SafeString_assign (string_bytes "var2") var1).2 in
  let var1 := SafeString_commit (SafeString_assign (string_bytes "var3") var1).2 in
  let var2 := SafeString_commit (SafeString_owned []) in
  let var3 := SafeString_commit (SafeString_owned []) in
  Throw (DynamicException "Throw from create ctor").

Definition throwVars_template : ContractTemplate (V := contract_var) :=
  mkTemplate [TString; TString; TString] (λ args creator address _ n,
    match args with [VBytes _; VBytes _; VBytes _] => throwVars_construct creator address n | _ => Throw Undefined end).
End contracts.

(** ** A number survives the call that failed *)

Section statements.
Context {BB : BoostBits} {KC : Keccak} {BR : BoostResidue} {CT : ContractTypes (V := contract_var)}.
Variables (bal : list Z → Z) (chainOwner : list Z) (chainId : Z).
Implicit Types s : ContractManager (V := contract_var).
Abbreviation run := (exec bal chainOwner chainId).

(** An assignment to a number without owner: it is written, and nothing is registered. *)
Lemma set_unowned n s c p x :
  is_Some (callLogger_ s) → vars (call_ s) !! n = Some (UintVar (mkCell SafeBase_local c p)) →
  run (set_uint n x) s = (Ok tt, with_call s (mkCall (<[n := UintVar (mkCell SafeBase_local c (Some x))]> (vars (call_ s))) (usedVars_ (call_ s)))).
Proof.
  intros [m Hm] Hv. cbn [exec set_uint use]. unfold mtry, use_variable, run_on. rewrite Hv. destruct p; cbn; rewrite Hm; done.
Qed.

(** The number of [ThrowTestA] after a call of [setNumA] that throws, as it must, and was undone: what the call set it to. *)
Theorem throw_not_undone nA nB self addB addC valA valB valC s cB cA pA cn pB :
  is_Some (callLogger_ s) → usedVars_ (call_ s) = [] → nA ≠ nB →
  vars (call_ s) !! nA = Some (UintVar (mkCell SafeBase_local cA pA)) → vars (call_ s) !! nB = Some (UintVar (mkCell SafeBase_local cn pB)) →
  contracts_ s !! addB = Some cB → is_ThrowTestB (contractName_ cB) = true → first_var_ cB = nB →
  ∃ e s1, run (setNumA nA self valA addB valB addC valC) s = (Throw e, s1) ∧ e ≠ Undefined ∧
    reads (call_failed s1) !! nA = Some (UintVal valA) ∧ reads (call_failed s1) !! nB = Some (UintVal valB).
Proof.
  intros Hl Hu Hne HA HB Hc Hcast Hn. unfold setNumA. rewrite exec_code_bind, (set_unowned nA s cA pA valA Hl HA).
  set (s0 := with_call s _). set (s1 := setContractVars addB (origin_ (locals_of s0 self)) self 0 s0).
  assert (HB1 : vars (call_ s1) !! nB = Some (UintVar (mkCell SafeBase_local cn pB))) by (cbn; by rewrite list_lookup_insert_ne).
  assert (E := set_unowned nB s1 cn pB valB Hl HB1). set (s2 := with_call s1 _) in E.
  exists (failed "call"), s2. split_and!; [|done|..].
  - destruct Hl as [m Hm]. unfold callContractFunction. cbn [exec]. unfold mbind' at 1, mget at 1, mtry, call_function, with_balances.
    change (callLogger_ s0) with (callLogger_ s). rewrite Hm. cbn [Z.eqb]. unfold mbind', mret', mget, mthrow_if.
    change (contracts_ s0) with (contracts_ s). rewrite Hc, bool_decide_eq_true_2 by done. cbn [negb]. unfold mret', getContract.
    change (contracts_ s0) with (contracts_ s). rewrite Hc, Hcast. cbn [mmodify]. unfold rethrow, mtry. fold s1. rewrite Hn.
    unfold setNumB. rewrite exec_code_bind, E. done.
  - unfold call_failed, logger_reset. destruct Hl as [m Hm]. change (callLogger_ s2) with (callLogger_ s). rewrite Hm.
    unfold logger_destroy, reads. cbn. rewrite Hu. cbn. rewrite list_lookup_fmap, list_lookup_insert_ne by done.
    rewrite list_lookup_insert_eq by by eapply lookup_lt_Some. done.
  - unfold call_failed, logger_reset. destruct Hl as [m Hm]. change (callLogger_ s2) with (callLogger_ s). rewrite Hm.
    unfold logger_destroy, reads. cbn. rewrite Hu. cbn. rewrite list_lookup_fmap.
    rewrite list_lookup_insert_eq; [done|]. rewrite length_insert. by eapply lookup_lt_Some.
Qed.
End statements.

(** ** Two contracts *)

Definition toy_throwB : list Z := replicate 19 0 ++ [2].
Definition toy_throw_manager : ContractManager (V := contract_var) :=
  mkManager
    (<[ toy_contract_address := @throwA_contract boost_ref toy_hash 0 toy_contract_address ]>
    {[ toy_throwB := @throwB_contract boost_ref toy_hash 1 ]})
    ∅ (call_start (throw_vars ++ throw_vars)) (Some ∅) [] (mkEventManager [] []) (mkGlobals zero_address zero_hash 1 2 zero_hash).

(** Before the call both numbers are 0, after it 200 and 100. *)
Lemma throw_not_undone_witness :
  reads toy_throw_manager = [UintVal 0; UintVal 0] ∧
  ∃ e s1, @exec contract_var contract_value contract_variable boost_ref toy_hash residue_ref {| createContractFuncs_ := ∅ |} (λ _, 0) toy_owner 8080 _
      (setNumA 0 toy_contract_address 200 toy_throwB 100 zero_address 50) toy_throw_manager = (Throw e, s1) ∧ e ≠ Undefined ∧
    reads (call_failed s1) !! 0%nat = Some (UintVal 200) ∧ reads (call_failed s1) !! 1%nat = Some (UintVal 100).
Proof.
  split; [reflexivity|].
  eapply (@throw_not_undone boost_ref toy_hash residue_ref {| createContractFuncs_ := ∅ |} (λ _, 0) toy_owner 8080 0 1) with (cB := @throwB_contract boost_ref toy_hash 1);
    [by eexists|done|done|reflexivity|reflexivity| |reflexivity|reflexivity].
  by_compute || (unfold toy_throw_manager; cbn [contracts_]; by rewrite lookup_insert_ne, lookup_singleton_eq by done).
Defined.
