(* ===== verification/ContractClasses.v ===== *)
(** * ContractClasses: the token classes across a restart

    [ERC20] and [NativeWrapper] (src/contract/templates/) as members of [ContractTypes]: their constructors from load
    and their destructors, which are those of [ERC20].  What one saves under its prefix the other node's manager loads
    ([token_persistent]), so that the tokens of a manager that is
    destroyed are there in the next run ([tokens_persist]). *)

From S2P Require Import Prelude Bytes SizedInts Hashing SafeBase SafeCell SafeString SafeUint SafeMap Tx Abi DB Hex Event EvmHost ContractManager ContractStore ContractVars ERC20 ERC20Store State StateTx NativeWrapper.

Section classes.
Context {DBI : RocksDB} {BB : BoostBits} {HO : HashOrder} {KC : Keccak} {BR : BoostResidue}.

Definition ERC20_class : ContractClass (V := contract_var) :=
  mkClass "ERC20" (λ b d n, vs ← erc20_load (base_address b) d; Ok (vs, erc20_contract n (base_address b) (base_name b))).

Definition NativeWrapper_class : ContractClass (V := contract_var) :=
  mkClass "NativeWrapper" (λ b d n, vs ← erc20_load (base_address b) d;
    Ok (vs, native_registerContractFunctions n (base_address b) (erc20_contract n (base_address b) (base_name b)))).

(** [~ERC20], on the object's own variables. *)
Definition token_destroy (address : list Z) (c : DynamicContract (V := contract_var)) (vs : list contract_var) (d : rdb) : rdb :=
  match drop (first_var_ c) vs with
  | StringVar name :: StringVar symbol :: UintVar decimals :: UintVar totalSupply :: MapVar balances :: NestedVar allowed :: _ =>
      erc20_save address name symbol decimals totalSupply balances allowed d
  | _ => d
  end.

#[local] Instance token_classes : ContractClasses := {|
  classes_ := [ERC20_class; NativeWrapper_class];
  destroy_contract := token_destroy
|}.

Lemma erc20_load_agree address d d' : agree (getDBPrefix address) d d' → erc20_load address d = erc20_load address d'.
Proof.
  intros Ha. unfold erc20_load, getNewPrefix. cbv zeta. rewrite !(get_agree _ _ _ _ Ha).
  by rewrite !(getBatch_agree _ _ _ (agree_app _ _ _ _ Ha)).
Qed.

Lemma token_covers_agree address b al d d' :
  agree (getDBPrefix address) d' d → token_covers address b al d → token_covers address b al d'.
Proof.
  intros Ha [H1 H2]. split; intros k; [rewrite (agree_app _ (string_bytes "balances_") _ _ Ha)|rewrite (agree_app _ (string_bytes "allowed_") _ _ Ha)]; auto.
Qed.

Section saved.
Context (address : list Z) (name symbol : SafeString) (decimals totalSupply : SafeCell Z) (balances : SafeUnorderedMap Z)
  (allowed : SafeUnorderedMap (gmap (list Z) Z)).
Abbreviation saved := (erc20_save address name symbol decimals totalSupply balances allowed).

Lemma erc20_save_out d k : (∀ r, k ≠ getDBPrefix address ++ r) → rdb_map (saved d) !! k = rdb_map d !! k.
Proof.
  intros Hk. rewrite erc20_save_puts, putBatch_out.
  - unfold erc20_scalars. cbv zeta. rewrite !put_map. by repeat (rewrite lookup_insert_ne by (intros H; by eapply Hk)).
  - unfold erc20_puts. rewrite fmap_app, elem_of_app. unfold getNewPrefix.
    intros [[r Hr]%prefixed_in|[r Hr]%prefixed_in]; rewrite <- app_assoc in Hr; by eapply Hk.
Qed.

(** A name that begins with none of the initials of the token's entries. *)
Lemma erc20_save_keeps d s :
  storable_allowances (map_ allowed) → Forall (λ x, head (string_bytes s) ≠ Some x) [97; 98; 100; 110; 115; 116] →
  get (saved d) (string_bytes s) (getDBPrefix address) = get d (string_bytes s) (getDBPrefix address).
Proof.
  intros Ha Hs. rewrite erc20_save_puts. repeat (apply Forall_cons in Hs as [? Hs]).
  rewrite saved_scalar by done. rewrite get_spec. unfold erc20_scalars. cbv zeta. rewrite !put_map.
  repeat (rewrite lookup_insert_ne by (intros E%app_inv_head%(f_equal head); symmetry in E; match goal with H : head _ ≠ Some _ |- _ => exact (H E) end)); done.
Qed.
End saved.

(** A token that can be stored survives. *)
Lemma token_persistent b c vs name symbol decimals totalSupply balances allowed rest d0 :
  drop (first_var_ c) vs = [StringVar name; StringVar symbol; UintVar decimals; UintVar totalSupply; MapVar balances; NestedVar allowed] ++ rest →
  contractName_ c = base_name b → base_name b = "ERC20"%string ∨ base_name b = "NativeWrapper"%string → base_saved b d0 →
  in_uint 8 (cell_get decimals) → in_uint 256 (cell_get totalSupply) →
  storable_balances (map_ balances) → storable_allowances (map_ allowed) →
  token_covers (base_address b) (map_ balances) (map_ allowed) d0 →
  persistent b [StringVal (cell_get name); StringVal (cell_get symbol); UintVal (cell_get decimals); UintVal (cell_get totalSupply);
    MapVal (map_ balances); NestedVal (map_ allowed)] c vs d0.
Proof.
  intros Hvs Hn Hname Hs Hd Ht Hb Ha Hc. unfold persistent, writes_own. cbn [destroy_contract token_classes]. unfold token_destroy. rewrite Hvs.
  cbn [app]. split; [intros d _ k; apply erc20_save_out|]. split; [done|].
  assert (Hcc : ∃ cc, find_class (base_name b) = Some cc ∧ ∀ d n, ∃ f, cc_load cc b d n = (vs ← erc20_load (base_address b) d; Ok (vs, f)) ∧
    contractName_ f = base_name b ∧ first_var_ f = n).
  { destruct Hname as [E|E]; eexists; (split; [rewrite E; reflexivity|]); intros d n; eexists; (split; [reflexivity|]); done. }
  destruct Hcc as (cc & Hcc & Hload). exists cc. split; [done|]. intros d Hag. split.
  - apply (base_saved_agree _ _ d) in Hs; [|intros k; by rewrite Hag]. destruct Hs as (H1 & H2 & H3). unfold base_saved. cbv zeta.
    rewrite !erc20_save_keeps by (done || by repeat constructor). done.
  - intros d' n Hag'. destruct (Hload d' n) as (f & -> & Hf1 & Hf2).
    rewrite <- (erc20_load_agree _ _ _ Hag').
    destruct (erc20_saved_loads (base_address b) name symbol decimals totalSupply balances allowed d) as (new & -> & _ & Hv); [done..| |].
    { by eapply token_covers_agree. }
    rewrite result_bind_Ok. by exists new, f.
Qed.

(** ** A chain of tokens *)

(** A token at [a] that can be stored: its class is one of the two, the database has what the constructor of its base
    wrote, its variables hold what their types allow, and what earlier runs saved of its balances and allowances is of
    entries it still has. *)
Definition token_at (d : rdb) (vs : list contract_var) (creator : list Z) (chain : Z) (a : list Z)
    (c : DynamicContract (V := contract_var)) : Prop :=
  (contractName_ c = "ERC20"%string ∨ contractName_ c = "NativeWrapper"%string) ∧ a ≠ ContractManager_address ∧
  (let b := mkBase (contractName_ c) a creator chain in base_typed b ∧ base_saved b d) ∧
  ∃ name symbol decimals totalSupply balances allowed rest,
    drop (first_var_ c) vs = [StringVar name; StringVar symbol; UintVar decimals; UintVar totalSupply; MapVar balances; NestedVar allowed] ++ rest ∧
    in_uint 8 (cell_get decimals) ∧ in_uint 256 (cell_get totalSupply) ∧
    storable_balances (map_ balances) ∧ storable_allowances (map_ allowed) ∧ token_covers a (map_ balances) (map_ allowed) d.

(** The values a restart keeps of a contract. *)
Definition token_values (s : ContractManager (V := contract_var)) (a : list Z) : list contract_value :=
  match contracts_ s !! a with None => [] | Some c => own_values 6 c (vars (call_ s)) end.

Lemma idle_token name symbol decimals totalSupply balances allowed rest :
  Forall idle ([StringVar name; StringVar symbol; UintVar decimals; UintVar totalSupply; MapVar balances; NestedVar allowed] ++ rest) →
  sv_get <$> [StringVar name; StringVar symbol; UintVar decimals; UintVar totalSupply; MapVar balances; NestedVar allowed] =
  [StringVal (cell_get name); StringVal (cell_get symbol); UintVal (cell_get decimals); UintVal (cell_get totalSupply);
   MapVal (map_ balances); NestedVal (map_ allowed)].
Proof.
  intros [Hi _]%Forall_app. apply Forall_cons in Hi as [_ Hi]. apply Forall_cons in Hi as [_ Hi]. apply Forall_cons in Hi as [_ Hi].
  apply Forall_cons in Hi as [_ Hi]. apply Forall_cons in Hi as [(_ & _ & _ & Hb) Hi]. apply Forall_cons in Hi as [(_ & _ & _ & Ha) _].
  cbn [fmap list_fmap]. rewrite Hb, Ha. done.
Qed.

Lemma token_at_ready creator chain s d :
  Forall idle (vars (call_ s)) → map_Forall (λ a c, token_at d (vars (call_ s)) (creator a) chain a c) (contracts_ s) →
  contracts_ready (λ a, mkBase (from_option contractName_ EmptyString (contracts_ s !! a)) a (creator a) chain) (token_values s) s d ∧
  ∀ a c, contracts_ s !! a = Some c → length (token_values s a) = 6%nat.
Proof.
  intros Hi Hall.
  assert (H : ∀ a c, contracts_ s !! a = Some c → persistent (mkBase (contractName_ c) a (creator a) chain) (token_values s a) c (vars (call_ s)) d ∧
    length (token_values s a) = 6%nat).
  { intros a c Hc. destruct (Hall a c Hc) as (Hn & _ & [_ Hs] & name & symbol & decimals & totalSupply & balances & allowed & rest & Hv & Hd & Ht & Hb & Ha & Hcov).
    assert (Hv' : token_values s a = sv_get <$> [StringVar name; StringVar symbol; UintVar decimals; UintVar totalSupply; MapVar balances; NestedVar allowed]).
    { unfold token_values, own_values. by rewrite Hc, <- fmap_drop, Hv. }
    split; [|by rewrite Hv'].
    rewrite Hv', (idle_token _ _ _ _ _ _ rest) by (rewrite <- Hv; by apply Forall_drop). by eapply token_persistent. }
  split; [|intros a c Hc; by eapply H]. intros a c Hc. destruct (Hall a c Hc) as (_ & Hne & [Ht _] & _).
  rewrite Hc. cbn [from_option]. split; [done|]. split; [done|]. split; [done|]. by apply H.
Qed.

Context {JS : Json}.

(** C20: The tokens of a manager that is destroyed are those the next one loads: contracts of the classes ERC20 and
    NativeWrapper come back at the same addresses, under the names of the classes stored with them, and the name, the
    symbol, the decimals, the supply, the balances and the allowances read as before; the events are there too.  Nothing
    is pending; what earlier runs left in the database are events, contracts, balances and allowances there still are. *)
Theorem tokens_persist chainOwner g creator chain s d :
  callLogger_ s = None → Forall idle (vars (call_ s)) →
  Forall wf_event (events_ (eventManager_ s)) → NoDup (map event_key (events_ (eventManager_ s))) →
  events_covered (events_ (eventManager_ s)) d →
  (∀ k, is_Some (rdb_map d !! (pfx_contractManager ++ k)) → is_Some (contracts_ s !! k)) →
  map_Forall (λ a c, token_at d (vars (call_ s)) (creator a) chain a c) (contracts_ s) →
  ∃ d' s' d'', ContractManager_save s d = Ok d' ∧ ContractManager_load chainOwner g d' = Ok (s', d'') ∧
    events_ (eventManager_ s') ≡ₚ events_ (eventManager_ s) ∧ dom (contracts_ s') = dom (contracts_ s) ∧
    ∀ a c, contracts_ s !! a = Some c → ∃ c', contracts_ s' !! a = Some c' ∧ contractName_ c' = contractName_ c ∧
      own_values 6 c' (vars (call_ s')) = own_values 6 c (vars (call_ s)).
Proof.
  intros Hl Hi Hwf Hnd He Hd Hall. destruct (token_at_ready creator chain s d Hi Hall) as [Hr Hlen].
  destruct (contracts_persist chainOwner g _ _ s d Hl Hwf Hnd He Hd Hr) as (d' & s' & d'' & E1 & E2 & E3 & E4 & Hc).
  exists d', s', d''. do 4 (split; [done|]). intros a c Ha. destruct (Hc a c Ha) as (c' & C1 & C2 & C3).
  exists c'. do 2 (split; [done|]). rewrite (Hlen a c Ha) in C3. rewrite C3. unfold token_values. by rewrite Ha.
Qed.
End classes.

(** The entries of the base are none of the token's. *)
Lemma base_put_covers {DBI : RocksDB} b address bal al d :
  length address = 20%nat → length (base_address b) = 20%nat →
  token_covers address bal al d → token_covers address bal al (BaseContract_put b d).
Proof.
  intros Ha Hb [H1 H2].
  assert (Hk : ∀ s k x, head (string_bytes s) = Some x → x ≠ 99 →
    rdb_map (BaseContract_put b d) !! (getNewPrefix address s ++ k) = rdb_map d !! (getNewPrefix address s ++ k)).
  { intros s k x Hs Hx. unfold BaseContract_put. cbv zeta. rewrite !put_map.
    assert (Hne : ∀ r, head r = Some 99 → getDBPrefix (base_address b) ++ r ≠ getNewPrefix address s ++ k).
    { intros r Hr E. unfold getNewPrefix in E. rewrite <- app_assoc in E. assert (Hba := contract_prefix_inj _ _ _ _ Hb Ha E).
      rewrite Hba in E. apply app_inv_head in E. rewrite E in Hr. destruct (string_bytes s); [done|]. cbn in Hs, Hr. congruence. }
    rewrite !lookup_insert_ne by by apply Hne. done. }
  split; intros k; [rewrite (Hk "balances_"%string k 98) by done|rewrite (Hk "allowed_"%string k 97) by done]; auto.
Qed.

(** ** A node with a token and a wrapper *)

Definition toy_second_address : list Z := zero_bytes 19 ++ [77].

Definition toy_stored_manager : ContractManager (V := contract_var) :=
  mkManager
    (<[ toy_contract_address := @erc20_contract boost_ref toy_hash residue_ref 0 toy_contract_address "ERC20" ]>
      {[ toy_second_address := @native_contract boost_ref toy_hash residue_ref 6 toy_second_address ]}) ∅
    (call_start (ready_vars (SafeString_owned [84]) (SafeString_owned [84; 84]) (SafeUint_owned 18) (SafeUint_owned 1000)
         (SafeMap_owned toy_balances) (SafeMap_owned toy_allowances) ++ toy_wrapper_vars))
    None [] (mkEventManager [sample_event 2 0 9] []) (mkGlobals zero_address zero_hash 1 2 zero_hash).

Definition toy_base (a : list Z) : BaseContract :=
  mkBase (if decide (a = toy_second_address) then "NativeWrapper" else "ERC20") a toy_owner 8080.

Definition toy_stored_db : @rdb ref_db :=
  @BaseContract_put ref_db (toy_base toy_second_address) (@BaseContract_put ref_db (toy_base toy_contract_address) (∅ : gmap _ _)).

Abbreviation toy_classes := (@token_classes ref_db boost_ref order_ref toy_hash residue_ref).

Lemma toy_covers a bal al : length a = 20%nat → @token_covers ref_db a bal al toy_stored_db.
Proof.
  intros Ha. unfold toy_stored_db. apply base_put_covers; [done|done|]. apply base_put_covers; [done|done|].
  split; intros k [x Hx]; cbn [rdb_map ref_db] in Hx; by rewrite lookup_empty in Hx.
Qed.

Lemma toy_tokens :
  map_Forall (λ a c, @token_at ref_db toy_stored_db (vars (call_ toy_stored_manager)) toy_owner 8080 a c) (contracts_ toy_stored_manager).
Proof.
  cbn [contracts_ toy_stored_manager]. apply map_Forall_insert_2; [|apply map_Forall_singleton].
  - split; [by left|]. split; [done|]. split; [split; by_compute|].
    exists (ready_string (SafeString_owned [84])), (ready_string (SafeString_owned [84; 84])), (ready_cell (SafeUint_owned 18)),
      (ready_cell (SafeUint_owned 1000)), (ready_map (SafeMap_owned toy_balances)), (ready_map (SafeMap_owned toy_allowances)), toy_wrapper_vars.
    split; [done|]. split; [by_compute|]. split; [by_compute|]. split; [by_compute|]. split; [by_compute|]. by apply toy_covers.
  - split; [by right|]. split; [done|]. split; [split; by_compute|].
    exists (ready_string (SafeString_owned [87])), (ready_string (SafeString_owned [87])), (ready_cell (SafeUint_owned 18)),
      (ready_cell (SafeUint_owned 100)), (ready_map (SafeMap_owned {[ toy_sender := 100 ]})), (ready_map (SafeMap_owned ∅)), [].
    split; [done|]. split; [by_compute|]. split; [by_compute|]. split; [by_compute|]. split; [by_compute|]. by apply toy_covers.
Qed.

Lemma tokens_persist_witness :
  ∃ d' s' d'', @ContractManager_save contract_var contract_value contract_variable ref_db toy_json order_ref toy_classes toy_stored_manager toy_stored_db = Ok d' ∧
    @ContractManager_load contract_var contract_value contract_variable ref_db toy_json toy_classes toy_owner (mkGlobals zero_address zero_hash 1 2 zero_hash) d'
      = Ok (s', d'') ∧
    events_ (eventManager_ s') ≡ₚ [sample_event 2 0 9] ∧ dom (contracts_ s') = dom (contracts_ toy_stored_manager) ∧
    ∀ a c, contracts_ toy_stored_manager !! a = Some c → ∃ c', contracts_ s' !! a = Some c' ∧ contractName_ c' = contractName_ c ∧
      own_values 6 c' (vars (call_ s')) = own_values 6 c (vars (call_ toy_stored_manager)).
Proof.
  apply (@tokens_persist ref_db boost_ref order_ref toy_hash residue_ref toy_json toy_owner
    (mkGlobals zero_address zero_hash 1 2 zero_hash) (λ _, toy_owner) 8080 toy_stored_manager toy_stored_db).
  - done.
  - cbn [call_ toy_stored_manager vars call_start]. apply Forall_app. split; [by apply ready_vars_idle|]. unfold toy_wrapper_vars. by apply ready_vars_idle.
  - apply wf_eventb_all. by_compute.
  - by_compute.
  - intros k [x Hx]. exfalso. revert Hx. unfold toy_stored_db. rewrite !base_put_out by (intros r; discriminate). cbn [rdb_map ref_db]. by rewrite lookup_empty.
  - intros k [x Hx]. exfalso. revert Hx. unfold toy_stored_db. rewrite !base_put_out by (intros r; discriminate). cbn [rdb_map ref_db]. by rewrite lookup_empty.
  - apply toy_tokens.
Defined.
