(* ===== verification/StateBlock.v ===== *)
(** * StateBlock: blocks, the mempool and the database of the state (src/core/state.cpp)

    What [validateNextBlock] accepts, what [processNextBlock] does with it, the mempool between blocks,
    and the accounts saved and loaded. *)

From S2P Require Import Prelude Bytes SizedInts Hashing ECDSA SafeBase SafeCell Tx TxValidator Randomness Block RdPoS Abi DB Event Storage EvmHost ContractManager State StateTx.

Section blocks.
Context {V T : Type} {SV : SafeVariable V T} {DBI : RocksDB} {LS : LibSecp256k1} {BB : BoostBits} {KC : Keccak}
  {VM : EVMC} {BR : BoostResidue} {CT : ContractTypes (V := V)} {HO : HashOrder}.
Variables (chainOwner : list Z) (chainId : Z).
Abbreviation ST := (State (V := V)).

(** ** Validation *)

(** The account of the sender can pay for the transaction and its nonce is the transaction's. *)
Definition payable_tx (h : EVMHost) (tx : TxBlock) : Prop :=
  ∃ acc cost, accounts h !! from_ tx = Some acc ∧ txWithFees tx = Ok cost ∧ cost ≤ (acc_balance acc).2 ∧
    (acc_nonce acc).2 = nonce_ tx.

Lemma validate_payable (s : ST) tx :
  mempool_ s !! hash_ tx = None → validateTransactionInternal s tx = Ok NotInvalid ↔ payable_tx (evmHost_ s) tx.
Proof.
  intros Hm. unfold validateTransactionInternal, payable_tx. rewrite decide_False by (rewrite Hm; by intros [? ?]).
  destruct (accounts (evmHost_ s) !! from_ tx) as [acc|]; [|split; [done|by intros (? & ? & ? & _)]].
  destruct (txWithFees tx) as [cost|e]; cbn [mbind result_bind]; [|split; [done|by intros (? & ? & _ & ? & _)]].
  zcase; [split; [done|intros (? & ? & [= <-] & [= <-] & ? & _); lia]|].
  zcase; cbn [negb]; [|split; [done|by intros (? & ? & [= <-] & _ & _ & ?)]].
  split; [|done]. intros _. by exists acc, cost.
Qed.

(** A transaction of the mempool has been validated before. *)
Lemma validate_pooled (s : ST) tx :
  is_Some (mempool_ s !! hash_ tx) → validateTransactionInternal s tx = Ok NotInvalid.
Proof. intros Hm. unfold validateTransactionInternal. by rewrite decide_True. Qed.

Lemma validate_iff (s : ST) tx :
  validateTransactionInternal s tx = Ok NotInvalid ↔
  is_Some (mempool_ s !! hash_ tx) ∨ payable_tx (evmHost_ s) tx.
Proof.
  destruct (mempool_ s !! hash_ tx) as [x|] eqn:E.
  - split; [intros _; left; by eexists|]. intros _. apply validate_pooled. rewrite E. by eexists.
  - rewrite validate_payable by done. split; [auto|]. by intros [[? ?]|?].
Qed.

Lemma validate_txs_iff (s : ST) txs :
  validate_txs s txs = Ok true ↔ Forall (λ tx, validateTransactionInternal s tx = Ok NotInvalid) txs.
Proof.
  induction txs as [|tx txs IH]; cbn [validate_txs]; [by split|]. rewrite Forall_cons, <- IH.
  destruct (validateTransactionInternal s tx) as [r|e]; cbn [mbind result_bind]; [|by split; [|intros [? _]]].
  case_decide as Hr; [subst; tauto|]. split; [done|]. by intros [[= ->] _].
Qed.

Lemma validateNextBlock_iff (s : ST) (b : Block) :
  validateNextBlock s b = Ok true ↔
  ∃ l, last (chain_ (storage_ s)) = Some l ∧ nHeight_ b = add64 (nHeight_ l) 1 ∧
    prevBlockHash_ b = block_hash_ l ∧ timestamp_ l ≤ timestamp_ b ∧ validateBlock (rdpos_ s) b = Ok true ∧
    Forall (λ tx, is_Some (mempool_ s !! hash_ tx) ∨ payable_tx (evmHost_ s) tx) (txs_ b).
Proof.
  unfold validateNextBlock, latest. destruct (last (chain_ (storage_ s))) as [l|]; cbn [mbind result_bind];
    [|split; [done|by intros (? & ? & _)]].
  assert (Hf : Forall (λ tx, is_Some (mempool_ s !! hash_ tx) ∨ payable_tx (evmHost_ s) tx) (txs_ b) ↔ validate_txs s (txs_ b) = Ok true).
  { rewrite validate_txs_iff. apply Forall_iff. intros tx. symmetry. apply validate_iff. }
  split.
  - destruct (Z.eqb_spec (nHeight_ b) (add64 (nHeight_ l) 1)); [|done]. cbn [negb]. case_decide; [done|].
    destruct (Z.ltb_spec (timestamp_ b) (timestamp_ l)); [done|].
    intros ([] & Hv & Ht)%result_bind_ok; [|done]. cbn [negb] in Ht. exists l. rewrite Hf.
    split_and!; try done; by apply dec_stable.
  - intros (l' & [= <-] & Hh & Hp & Ht & Hv & Htx). rewrite (proj2 (Z.eqb_eq _ _) Hh). cbn [negb].
    rewrite decide_False by auto. rewrite (proj2 (Z.ltb_ge _ _)) by done. rewrite Hv. cbn [mbind result_bind negb].
    by apply Hf.
Qed.

(** ** The mempool *)

(** Every transaction is under its hash and can be paid. *)
Definition pool_ok (s : ST) : Prop :=
  ∀ k tx, mempool_ s !! k = Some tx → hash_ tx = k ∧ payable_tx (evmHost_ s) tx.

Definition pool_keyed (m : gmap (list Z) TxBlock) : Prop := ∀ k tx, m !! k = Some tx → hash_ tx = k.

Abbreviation readd := (λ p : list Z * TxBlock,
    s <-- mget;;
    r <-- mlift (validateTransactionInternal s p.2);;
    if decide (r = NotInvalid) then mmodify (λ s, with_pool s (insert_new p.1 p.2 (mempool_ s))) else mret' tt).

(** The loop that fills the mempool again, from the transactions [l]. *)
Lemma readd_loop (l : list (list Z * TxBlock)) (s : ST) r s' :
  NoDup l.*1 → (∀ p, p ∈ l → hash_ p.2 = p.1 ∧ mempool_ s !! p.1 = None) → pool_ok s →
  mforeach readd l s = (r, s') →
  s' = with_pool s (mempool_ s') ∧ pool_ok s' ∧
  (∀ k tx, mempool_ s' !! k = Some tx → mempool_ s !! k = Some tx ∨ (k, tx) ∈ l) ∧
  (r = Ok tt → ∀ k tx, (mempool_ s !! k = Some tx ∨ (k, tx) ∈ l ∧ payable_tx (evmHost_ s) tx) → mempool_ s' !! k = Some tx) ∧
  ((∀ p, p ∈ l → is_ok (txWithFees p.2) = true) → r = Ok tt).
Proof.
  revert s. induction l as [|[k0 tx0] l IH]; intros s Hnd Hk Hok.
  - cbn. intros [= <- <-]. split; [by destruct s|]. split; [done|]. split; [by left|]. split; [|done].
    intros _ k tx [?|[?%not_elem_of_nil _]]; done.
  - apply NoDup_cons in Hnd as [Hk0 Hnd]. destruct (Hk (k0, tx0) ltac:(left)) as [Hh0 Hm0]. cbn in Hh0, Hm0.
    cbn [mforeach]. unfold mbind' at 1 2. cbn [mget]. unfold mbind' at 1, mlift at 1. cbn [fst snd].
    assert (Hval := validate_payable s tx0). rewrite Hh0 in Hval. specialize (Hval Hm0).
    destruct (validateTransactionInternal s tx0) as [v|e] eqn:Ev.
    + set (s1 := if decide (v = NotInvalid) then with_pool s (insert_new k0 tx0 (mempool_ s)) else s).
      assert (E1 : (if decide (v = NotInvalid) then mmodify (λ s, with_pool s (insert_new k0 tx0 (mempool_ s))) else mret' tt) s
        = (Ok tt, s1)) by (unfold s1; by case_decide).
      rewrite E1. intros Hrun.
      assert (Hpool : mempool_ s1 = if decide (v = NotInvalid) then <[k0 := tx0]> (mempool_ s) else mempool_ s).
      { unfold s1, insert_new. case_decide; [|done]. cbn. by rewrite Hm0. }
      assert (Hhost : evmHost_ s1 = evmHost_ s) by (unfold s1; by case_decide).
      assert (Hrest : s1 = with_pool s (mempool_ s1)) by (unfold s1; case_decide; [done|by destruct s]).
      destruct (IH s1 Hnd) as (A1 & A2 & A3 & A4 & A5); [| |exact Hrun|].
      { intros [k tx] Hin. destruct (Hk (k, tx) ltac:(by right)) as [? Hm]. cbn [fst snd] in *. split; [done|]. rewrite Hpool.
        case_decide; [|done]. rewrite lookup_insert_ne; [done|]. intros <-. apply Hk0, list_elem_of_fmap. by exists (k0, tx). }
      { intros k tx. rewrite Hpool, Hhost. case_decide as Hv; [|apply Hok]. destruct (decide (k0 = k)) as [<-|Hne].
        - rewrite lookup_insert_eq. intros [= <-]. split; [done|]. apply Hval. by subst.
        - rewrite lookup_insert_ne by done. apply Hok. }
      split; [rewrite A1, Hrest; by destruct s|]. split; [done|]. split; [|split].
      * intros k tx Hkt. destruct (A3 _ _ Hkt) as [Hs1|Hl]; [|right; by right]. rewrite Hpool in Hs1.
        case_decide; [|by left]. destruct (decide (k0 = k)) as [<-|Hne].
        -- rewrite lookup_insert_eq in Hs1. injection Hs1 as <-. right. left.
        -- rewrite lookup_insert_ne in Hs1 by done. by left.
      * intros Hr k tx Hin. apply A4; [done|]. rewrite Hhost, Hpool. destruct Hin as [Hs|[[[= -> ->]|Hl]%elem_of_cons Hp]].
        -- left. case_decide; [|done]. rewrite lookup_insert_ne; [done|]. intros ->. congruence.
        -- left. rewrite decide_True; [by rewrite lookup_insert_eq|]. apply Hval in Hp. by injection Hp.
        -- right. done.
      * intros Hfees. apply A5. intros p Hp. apply Hfees. by right.
    + intros [= <- <-]. split; [by destruct s|]. split; [done|]. split; [by left|]. split; [done|]. intros Hfees.
      specialize (Hfees (k0, tx0) ltac:(left)). cbn [snd] in Hfees. unfold validateTransactionInternal in Ev.
      rewrite decide_False in Ev by (rewrite Hh0, Hm0; by intros [? ?]).
      destruct (accounts (evmHost_ s) !! from_ tx0); [|done]. destruct (txWithFees tx0); [|done]. cbn in Ev.
      destruct (_ <? _); [done|]. by destruct (negb _).
Qed.

Lemma delete_hashes (m : gmap (list Z) TxBlock) txs k :
  foldl (λ m tx, delete (hash_ tx) m) m txs !! k = if decide (k ∈ map hash_ txs) then None else m !! k.
Proof.
  revert m. induction txs as [|tx txs IH]; intros m; cbn [foldl map].
  - by rewrite decide_False by apply not_elem_of_nil.
  - rewrite IH. destruct (decide (k = hash_ tx)) as [->|Hne].
    + rewrite (decide_True (P := hash_ tx ∈ hash_ tx :: _)) by left. by case_decide; [|apply lookup_delete_eq].
    + rewrite lookup_delete_ne by done. destruct (decide (k ∈ map hash_ txs)).
      * by rewrite decide_True by by right.
      * by rewrite decide_False by (rewrite elem_of_cons; tauto).
Qed.

(** What is left of the mempool after a block: the transactions not in the block that can still be paid. *)
Lemma refresh_outcome (b : Block) (s : ST) r s' :
  pool_keyed (mempool_ s) → refreshMempool b s = (r, s') →
  s' = with_pool s (mempool_ s') ∧ pool_ok s' ∧
  (∀ k tx, mempool_ s' !! k = Some tx → mempool_ s !! k = Some tx ∧ k ∉ map hash_ (txs_ b)) ∧
  (r = Ok tt → ∀ k tx, mempool_ s !! k = Some tx → k ∉ map hash_ (txs_ b) → payable_tx (evmHost_ s) tx → mempool_ s' !! k = Some tx) ∧
  ((∀ k tx, mempool_ s !! k = Some tx → is_ok (txWithFees tx) = true) → r = Ok tt).
Proof.
  intros Hkey. unfold refreshMempool. unfold mbind' at 1. cbn [mmodify]. unfold mbind' at 1. cbn [mgets].
  set (m := foldl _ _ _). assert (Hm : mempool_ (with_pool s m) = m) by done. rewrite Hm.
  unfold mbind' at 1. cbn [mmodify]. set (s0 := with_pool (with_pool s m) ∅). intros Hrun.
  assert (Hperm := in_order_perm m).
  assert (Hin : ∀ k tx, (k, tx) ∈ in_order m ↔ mempool_ s !! k = Some tx ∧ k ∉ map hash_ (txs_ b)).
  { intros k tx. rewrite Hperm, elem_of_map_to_list. unfold m. rewrite delete_hashes. case_decide; [|tauto].
    split; [done|]. by intros [_ ?]. }
  apply readd_loop in Hrun as (A1 & A2 & A3 & A4 & A5).
  - split; [by rewrite A1|]. split; [done|]. split; [|split].
    + intros k tx Hk. destruct (A3 _ _ Hk) as [H0|Hl]; [unfold s0 in H0; cbn [mempool_ with_pool] in H0; by rewrite lookup_empty in H0|]. by apply Hin.
    + intros Hr k tx Hk Hn Hp. apply A4; [done|]. right. split; [by apply Hin|done].
    + intros Hfees. apply A5. intros [k tx] Hp. apply Hin in Hp as [Hp _]. by eapply Hfees.
  - rewrite Hperm. apply NoDup_fst_map_to_list.
  - intros [k tx] Hp. split; [|done]. apply Hin in Hp as [Hp _]. by apply Hkey.
  - intros k tx Hk. unfold s0 in Hk. cbn [mempool_ with_pool] in Hk. by rewrite lookup_empty in Hk.
Qed.

(** ** The transactions of a block *)

(** Balances whose total is far from the limit of the type. *)
Definition modest (f : list Z → Z) : Prop := (∀ a, 0 ≤ f a) ∧ ∀ l, NoDup l → total f l < 2 ^ 255.

Lemma modest_at f a : modest f → 0 ≤ f a < 2 ^ 255.
Proof.
  intros [Hn Ht]. split; [apply Hn|]. specialize (Ht [a] (NoDup_singleton a)). cbn [total] in Ht. lia.
Qed.

Lemma modest_pay (f g : list Z → Z) x p y q :
  modest f → 0 ≤ q ≤ p → p ≤ f x → (∀ b, g b = f b - paid b x p + paid b y q) → modest g.
Proof.
  intros [Hn Ht] Hq Hp Hg.
  assert (Hg0 : ∀ b, 0 ≤ g b).
  { intros b. rewrite Hg. unfold paid. specialize (Hn b). destruct (decide (b = x)) as [->|]; case_decide; lia. }
  assert (Htot : ∀ l, NoDup l → total g l = total f l - (if decide (x ∈ l) then p else 0) + if decide (y ∈ l) then q else 0).
  { intros l Hnd. rewrite (total_pay (λ b, f b + paid b x (- p)) g y q) by
      (done || (intros b; rewrite Hg; unfold paid; repeat case_decide; lia)).
    rewrite (total_pay f _ x (- p)) by done. repeat case_decide; lia. }
  split; [done|]. intros l Hnd. destruct (decide (x ∈ l)) as [Hin|Hout].
  - rewrite Htot, decide_True by done. specialize (Ht l Hnd). case_decide; lia.
  - assert (Hnd' : NoDup (x :: l)) by by constructor. assert (Hx := Htot _ Hnd').
    rewrite decide_True in Hx by left. specialize (Ht _ Hnd'). cbn [total] in Hx, Ht. specialize (Hg0 x).
    revert Hx. case_decide; lia.
Qed.

(** The amounts of a transaction are unsigned. *)
Definition unsigned_tx (tx : TxBlock) : Prop := 0 ≤ value_ tx ∧ 0 ≤ gasLimit_ tx ∧ 0 ≤ maxFeePerGas_ tx.

Lemma txWithFees_exact tx cost : txWithFees tx = Ok cost → cost = value_ tx + gasLimit_ tx * maxFeePerGas_ tx.
Proof.
  unfold txWithFees. intros (fees & [-> _]%ustore_checked & [-> _]%ustore_checked)%result_bind_ok; done.
Qed.

Lemma payable_at h tx :
  payable_tx h tx ↔ has_account (from_ tx) h ∧ nonce_at h (from_ tx) = nonce_ tx ∧
    ∃ cost, txWithFees tx = Ok cost ∧ cost ≤ balance_at h (from_ tx).
Proof.
  unfold payable_tx, has_account, nonce_at, balance_at, account_at. split.
  - intros (acc & cost & -> & Hc & Hle & Hn). split; [by eexists|]. split; [done|]. by exists cost.
  - intros ([acc ->] & Hn & cost & Hc & Hle). by exists acc, cost.
Qed.

Lemma payable_funded h tx : unsigned_tx tx → modest (balance_at h) → payable_tx h tx → funded tx h.
Proof.
  intros (Hv & Hg & Hm) Hmod (_ & _ & cost & Hc & Hle)%payable_at. apply txWithFees_exact in Hc as ->.
  constructor; try done. apply (modest_at _ (from_ tx)) in Hmod. unfold umax. lia.
Qed.

(** Neither a call to a C++ contract nor a second creation. *)
Definition plain_tx (s : ST) (tx : TxBlock) : Prop :=
  unsigned_tx tx ∧ isContractCall (contractManager_ s) tx = false ∧ contractAddresses (evmHost_ s) !! hash_ tx = None.

Abbreviation process1 b i tx := (processTransaction chainOwner chainId tx (block_hash_ b) (nHeight_ b)
  (toAddress (validatorPubKey_ b)) (timestamp_ b) 100000000 i).

Lemma process_plain b i tx s r s' :
  settled (evmHost_ s) → modest (balance_at (evmHost_ s)) → plain_tx s tx → payable_tx (evmHost_ s) tx →
  process1 b i tx s = (r, s') → r ≠ Throw Undefined →
  r = Ok tt ∧ ∃ ok fee es, tx_outcome tx s ok fee es s'.
Proof.
  intros Hs Hm (Hun & Hcc & Hca) Hp Hrun Hr. assert (Hfd := payable_funded _ _ Hun Hm Hp).
  assert (Hv : value_ tx ≤ balance_at (evmHost_ s) (from_ tx)).
  { destruct Hfd. assert (0 ≤ gasLimit_ tx * maxFeePerGas_ tx) by nia. lia. }
  assert (Hb : ∀ a, balance_at (evmHost_ s) a + value_ tx ≤ umax 256).
  { intros a. assert (Ha := modest_at _ a Hm). assert (Hf := modest_at _ (from_ tx) Hm). unfold umax. lia. }
  apply payable_at in Hp as (Hacc & _). destruct (evm_branch tx (evmHost_ s)) eqn:Hevm.
  - destruct (processTransaction_evm chainOwner chainId tx (block_hash_ b) (nHeight_ b) (toAddress (validatorPubKey_ b))
      (timestamp_ b) 100000000 i s r s') as (-> & Ho & _); try done; [apply Hm|]. eauto.
  - destruct (processTransaction_transfer chainOwner chainId tx (block_hash_ b) (nHeight_ b) (toAddress (validatorPubKey_ b))
      (timestamp_ b) 100000000 i s) as (s1 & E & Ho); try done.
    rewrite E in Hrun. injection Hrun as <- <-. split; [done|]. eauto.
Qed.

(** What a transaction leaves for those after it. *)
Lemma outcome_next tx s ok fee es s' :
  modest (balance_at (evmHost_ s)) → funded tx (evmHost_ s) → tx_outcome tx s ok fee es s' →
  modest (balance_at (evmHost_ s')) ∧ contracts_ (contractManager_ s') = contracts_ (contractManager_ s) ∧
  (quiet (contractManager_ s) → quiet (contractManager_ s')) ∧
  ∀ a, a ≠ from_ tx → balance_at (evmHost_ s) a ≤ balance_at (evmHost_ s') a ∧ nonce_at (evmHost_ s') a = nonce_at (evmHost_ s) a.
Proof.
  intros Hm [Hv Hg Hf Hb _] [_ Hfee Hbal Hn _ _ (M1 & M2 & M3 & M4 & M5 & M6 & M7) _]. split; [|split; [done|split]].
  - eapply (modest_pay _ _ (from_ tx) (fee + if ok then value_ tx else 0) (realTo tx) (if ok then value_ tx else 0)); [done| | |done];
      destruct ok; lia.
  - intros []. constructor; by rewrite ?M1, ?M3, ?M5, ?M6.
  - intros a Ha. rewrite Hbal, Hn, decide_False by done. split; [|done]. unfold paid.
    rewrite decide_False by done. destruct ok; case_decide; lia.
Qed.

Lemma process_txs_outcome b txs i s r s' :
  settled (evmHost_ s) → modest (balance_at (evmHost_ s)) → quiet (contractManager_ s) →
  Forall (λ tx, plain_tx s tx ∧ payable_tx (evmHost_ s) tx) txs →
  NoDup (map from_ txs) → NoDup (map hash_ txs) →
  process_txs chainOwner chainId b i txs s = (r, s') → r ≠ Throw Undefined →
  r = Ok tt ∧ same_elsewhere s s' ∧
  ∀ a, nonce_at (evmHost_ s') a =
    if decide (a ∈ map from_ txs) then (nonce_at (evmHost_ s) a + 1) mod 2 ^ 64 else nonce_at (evmHost_ s) a.
Proof.
  revert i s. induction txs as [|tx txs IH]; intros i s Hs Hm Hq Hall Hnf Hnh; cbn [process_txs].
  - intros [= <- <-] _. split; [done|]. split; [done|]. intros a. by rewrite decide_False by apply not_elem_of_nil.
  - apply Forall_cons in Hall as [[Hpl Hpay] Hall]. cbn [map] in Hnf, Hnh. apply NoDup_cons in Hnf as [Hf Hnf], Hnh as [Hh Hnh].
    unfold mbind' at 1. destruct (process1 b i tx s) as [r1 s1] eqn:E1. intros Hrun Hr.
    assert (Hu1 : r1 ≠ Throw Undefined) by (intros ->; by injection Hrun as <- _).
    assert (Hkeep := λ a, processTransaction_keeps chainOwner chainId tx (block_hash_ b) (nHeight_ b) (toAddress (validatorPubKey_ b))
      (timestamp_ b) 100000000 i (has_account a) (has_closed chainOwner chainId tx i a) (proj1 (proj1 Hpl)) s Hq).
    rewrite E1 in Hkeep. cbn [snd] in Hkeep.
    destruct (process_plain _ _ _ _ _ _ Hs Hm Hpl Hpay E1 Hu1) as (-> & ok & fee & es & Ho).
    destruct (outcome_next _ _ _ _ _ _ Hm (payable_funded _ _ (proj1 Hpl) Hm Hpay) Ho) as (Hm1 & Hc1 & Hq1 & Hother).
    destruct (IH (i + 1) s1 (to_settled _ _ _ _ _ _ Ho) Hm1 (Hq1 Hq)) as (-> & He & Hn); try done.
    { rewrite Forall_forall in Hall |- *. intros tx' Hin. destruct (Hall tx' Hin) as [(Hun & Hcc & Hca) Hp'].
      assert (Hne : from_ tx' ≠ from_ tx).
      { intros Heq. apply Hf, list_elem_of_fmap. by exists tx'. }
      assert (Hnh' : hash_ tx' ≠ hash_ tx).
      { intros Heq. apply Hh, list_elem_of_fmap. by exists tx'. }
      split; [split; [done|split]|].
      - unfold isContractCall, isContractAddress in *. by rewrite Hc1.
      - by rewrite (to_created _ _ _ _ _ _ Ho).
      - apply payable_at in Hp' as (Ha' & Hn' & cost & Hc' & Hle). apply payable_at.
        destruct (Hother _ Hne) as [Hb1 Hn1]. split; [by apply Hkeep|]. split; [congruence|]. exists cost. split; [done|lia]. }
    split; [done|]. split; [transitivity s1; [apply Ho|done]|].
    intros a. rewrite Hn, (to_nonce _ _ _ _ _ _ Ho). cbn [map]. destruct (decide (a = from_ tx)) as [->|Hne].
    + rewrite (decide_False (P := from_ tx ∈ map from_ txs)) by done. by rewrite decide_True by left.
    + destruct (decide (a ∈ map from_ txs)); [by rewrite decide_True by by right|].
      by rewrite decide_False by (rewrite elem_of_cons; tauto).
Qed.

Lemma quiet_start_block b (s : ST) : quiet (contractManager_ s) → quiet (contractManager_ (start_block b s)).
Proof. intros []. by constructor. Qed.

Lemma validateBlock_finalized rd b : validateBlock rd b = Ok true → finalized_ b = true.
Proof. unfold validateBlock. by destruct (finalized_ b). Qed.

Lemma payable_start tx b (s : ST) : payable_tx (evmHost_ (start_block b s)) tx = payable_tx (evmHost_ s) tx.
Proof. done. Qed.

Abbreviation process_block b := (processNextBlock chainOwner chainId b).

(** The steps after the transactions of a block. *)
Lemma block_tail b (s : ST) l :
  finalized_ b = true → last (chain_ (storage_ s)) = Some l → prevBlockHash_ b = block_hash_ l →
  nHeight_ b = add64 (nHeight_ l) 1 → pool_keyed (mempool_ s) →
  (∀ k tx, mempool_ s !! k = Some tx → is_ok (txWithFees tx) = true) →
  ∃ s', (on_rdpos (processBlock b) ;;; refreshMempool b ;;; on_storage (pushBack b)) s = (Ok tt, s') ∧
    chain_ (storage_ s') = chain_ (storage_ s) ++ [b] ∧ evmHost_ s' = evmHost_ s ∧ pool_ok s' ∧
    rdpos_ s' = (processBlock b (rdpos_ s)).2 ∧
    ∀ k tx, mempool_ s' !! k = Some tx ↔ mempool_ s !! k = Some tx ∧ k ∉ map hash_ (txs_ b) ∧ payable_tx (evmHost_ s) tx.
Proof.
  intros Hfin Hlast Hprev Hheight Hkey Hfees. unfold mbind' at 1, on_rdpos at 1. unfold processBlock. rewrite Hfin. cbn [negb].
  destruct (shuffle _ _) as [randomList seed]. cbv beta iota. set (s1 := with_rdpos s _).
  unfold mbind' at 1. destruct (refreshMempool b s1) as [r s2] eqn:E.
  destruct (refresh_outcome b s1 r s2 Hkey E) as (A1 & A2 & A3 & A4 & A5).
  specialize (A5 Hfees). subst r.
  assert (Hsto : storage_ s2 = storage_ s) by by rewrite A1.
  assert (Hhost : evmHost_ s2 = evmHost_ s) by by rewrite A1.
  unfold on_storage, pushBack, pushBackInternal. rewrite Hsto, Hlast, decide_False by auto.
  rewrite (proj2 (Z.eqb_eq _ _) Hheight). cbn [negb]. eexists. split; [reflexivity|]. cbn [storage_ with_storage evmHost_ rdpos_ mempool_].
  split; [done|]. split; [done|]. split; [done|]. split; [by rewrite A1|].
  intros k tx. split.
  - intros Hk. destruct (A3 _ _ Hk) as [Hm Hn]. split; [done|]. split; [done|]. rewrite <- Hhost. by apply (A2 k).
  - intros (Hm & Hn & Hp). by apply A4.
Qed.

Lemma block_appended b (s : ST) r s' :
  validateNextBlock s b = Ok true → settled (evmHost_ s) → modest (balance_at (evmHost_ s)) → quiet (contractManager_ s) →
  pool_ok s → (∀ tx tx0, tx ∈ txs_ b → mempool_ s !! hash_ tx = Some tx0 → tx0 = tx) →
  Forall (plain_tx s) (txs_ b) → NoDup (map from_ (txs_ b)) → NoDup (map hash_ (txs_ b)) →
  process_block b s = (r, s') → r ≠ Throw Undefined →
  r = Ok tt ∧ chain_ (storage_ s') = chain_ (storage_ s) ++ [b] ∧ pool_ok s' ∧
  (∀ k tx, mempool_ s' !! k = Some tx → mempool_ s !! k = Some tx ∧ k ∉ map hash_ (txs_ b)) ∧
  ∀ a, nonce_at (evmHost_ s') a =
    if decide (a ∈ map from_ (txs_ b)) then (nonce_at (evmHost_ s) a + 1) mod 2 ^ 64 else nonce_at (evmHost_ s) a.
Proof.
  intros Hval Hs Hm Hq Hpool Hsame Hplain Hnf Hnh. assert (Hv := Hval).
  apply validateNextBlock_iff in Hv as (l & Hlast & Hheight & Hprev & _ & Hrd & Htxs).
  unfold processNextBlock. unfold mbind' at 1, mget at 1. unfold mbind' at 1, mlift at 1. rewrite Hval.
  unfold mbind' at 1. cbn [negb mthrow_if mret']. unfold mbind' at 1. cbn [mmodify]. unfold mbind' at 1.
  set (s0 := start_block b s). destruct (process_txs chainOwner chainId b 0 (txs_ b) s0) as [r1 s1] eqn:E1.
  intros Hrun Hr. assert (Hu1 : r1 ≠ Throw Undefined) by (intros ->; by injection Hrun as <- _).
  assert (Hall : Forall (λ tx, plain_tx s0 tx ∧ payable_tx (evmHost_ s0) tx) (txs_ b)).
  { rewrite Forall_forall in Htxs, Hplain |- *. intros tx Hin. split; [apply (Hplain tx Hin)|].
    change (payable_tx (evmHost_ s) tx). destruct (Htxs tx Hin) as [[tx0 H0]|]; [|done].
    rewrite <- (Hsame tx tx0 Hin H0). by apply (Hpool (hash_ tx)). }
  destruct (process_txs_outcome b (txs_ b) 0 s0 r1 s1) as (-> & (P1 & P2 & P3 & P4) & Hn); try done.
  { by apply quiet_start_block. }
  assert (Hp1 : mempool_ s1 = mempool_ s) by done. assert (Hst1 : storage_ s1 = storage_ s) by done.
  destruct (block_tail b s1 l) as (s2 & E2 & C1 & C2 & C3 & _ & C4).
  - by eapply validateBlock_finalized.
  - by rewrite Hst1.
  - done.
  - done.
  - intros k tx. rewrite Hp1. apply Hpool.
  - intros k tx. rewrite Hp1. intros Hk. destruct (Hpool k tx Hk) as [_ (acc & cost & _ & Hc & _)]. by rewrite Hc.
  - assert (Hrs : (r, s') = (Ok tt, s2)).
    { rewrite <- E2. exact (eq_sym Hrun). } injection Hrs as -> ->.
    split; [done|]. split; [by rewrite C1, Hst1|]. split; [done|]. split.
    + intros k tx (Hk & Hn' & _)%C4. rewrite Hp1 in Hk. done.
    + intros a. rewrite C2, Hn. done.
Qed.
End blocks.

(** ** The properties of blocks *)

Section properties.
Context {V T : Type} {SV : SafeVariable V T} {DBI : RocksDB} {LS : LibSecp256k1} {BB : BoostBits} {KC : Keccak}
  {VM : EVMC} {BR : BoostResidue} {CT : ContractTypes (V := V)} {HO : HashOrder}.
Variables (chainOwner : list Z) (chainId : Z).
Abbreviation ST := (State (V := V)).

(** The sender of a transaction has an account with the transaction's nonce, and its balance is at least
    the value and the highest fee, neither of which overflows. *)
Definition can_pay (h : EVMHost) (tx : TxBlock) : Prop :=
  has_account (from_ tx) h ∧ nonce_at h (from_ tx) = nonce_ tx ∧
  in_uint 256 (gasLimit_ tx * maxFeePerGas_ tx) ∧ in_uint 256 (value_ tx + gasLimit_ tx * maxFeePerGas_ tx) ∧
  value_ tx + gasLimit_ tx * maxFeePerGas_ tx ≤ balance_at h (from_ tx).

Lemma can_pay_payable h tx : payable_tx h tx ↔ can_pay h tx.
Proof.
  rewrite payable_at. unfold can_pay, txWithFees. split.
  - intros (Ha & Hn & cost & Hc & Hle). apply result_bind_ok in Hc as (fees & [-> Hf]%ustore_checked & Hc); [|done].
    apply ustore_checked in Hc as [-> Hv]; [|done]. done.
  - intros (Ha & Hn & Hf & Hv & Hle). split; [done|]. split; [done|]. eexists. split; [|exact Hle].
    by rewrite (ustore_in _ _ Hf), result_bind_Ok, (ustore_in _ _ Hv).
Qed.

(** The block that may follow: the height after the latest one and its hash, a timestamp that is not
    earlier, the signer and the commitments and openings of the round, and transactions that have been
    accepted into the mempool or that their sender can pay. *)
Definition follows (s : ST) (b : Block) : Prop :=
  ∃ l ps, last (chain_ (storage_ s)) = Some l ∧
    (nHeight_ b = add64 (nHeight_ l) 1 ∧ prevBlockHash_ b = block_hash_ l ∧ timestamp_ l ≤ timestamp_ b) ∧
    (finalized_ b = true ∧ randomList_ (rdpos_ s) !! 0%nat = Some (toAddress (validatorPubKey_ b)) ∧
     Forall (λ tx, vt_nHeight tx = nHeight_ b) (txValidators_ b) ∧ round_content (rdpos_ s) b ps) ∧
    Forall (λ tx, is_Some (mempool_ s !! hash_ tx) ∨ can_pay (evmHost_ s) tx) (txs_ b).

(** C15: What [validateNextBlock] accepts, down to the fields of the block: the next height, the hash of
    the latest block, a timestamp that is equal to its or later (the comments of state.cpp ask for a later
    one), the signer and the validator transactions of the round, and transactions that are in the mempool
    or whose value and highest fee are at most the balance of the sender (the comments ask for less than
    it), with the nonce of the account before the block. [processNextBlock] throws on every other
    block and changes nothing. *)
Theorem validateNextBlock_spec (s : ST) (b : Block) :
  Z.of_nat (minValidators_ (rdpos_ s)) * 2 < 2 ^ 32 →
  (validateNextBlock s b = Ok true ↔ follows s b) ∧
  (¬ follows s b → ∃ e, processNextBlock chainOwner chainId b s = (Throw e, s)).
Proof.
  intros Hmin. assert (Hiff : validateNextBlock s b = Ok true ↔ follows s b).
  { rewrite validateNextBlock_iff. unfold follows. setoid_rewrite (validateBlock_content _ _ Hmin).
    setoid_rewrite can_pay_payable. split.
    - intros (l & ? & ? & ? & ? & (? & ? & ? & ps & ?) & ?). by exists l, ps.
    - intros (l & ps & ? & (? & ? & ?) & (? & ? & ? & ?) & ?). exists l. split_and!; try done. by exists ps. }
  split; [done|]. rewrite <- Hiff. intros Hno. unfold processNextBlock. unfold mbind' at 1, mget at 1.
  unfold mbind' at 1, mlift at 1. destruct (validateNextBlock s b) as [[]|e]; [done|eexists..].
  all: reflexivity.
Qed.

(** Transactions are validated against the state before the block, one by one: a block stays
    valid when its transactions are repeated or permuted, and so when two of them spend the same
    balance or have the same nonce. *)
Theorem validation_ignores_repeats (s : ST) (b : Block) txs :
  validateNextBlock s b = Ok true → (∀ tx, tx ∈ txs → tx ∈ txs_ b) →
  validateNextBlock s (with_txs b txs (txValidators_ b)) = Ok true.
Proof.
  intros (l & H1 & H2 & H3 & H4 & H5 & H6)%validateNextBlock_iff Hin. apply validateNextBlock_iff.
  exists l. split_and!; try done. rewrite Forall_forall in H6 |- *. intros tx Htx. by apply H6, Hin.
Qed.

(** C1: A valid block is always appended. When its transactions are transfers, calls and creations
    on the EVM from different senders, [processNextBlock] returns: every transaction is executed once,
    whatever the EVM does and whether or not it fails, each sender's nonce goes up by one and nobody
    else's changes; the block is the last of the chain; what is left of the mempool is not in the block,
    and every transaction of it can still be paid. *)
Theorem valid_block_appended b (s : ST) r s' :
  validateNextBlock s b = Ok true → settled (evmHost_ s) → modest (balance_at (evmHost_ s)) → quiet (contractManager_ s) →
  pool_ok s → (∀ tx tx0, tx ∈ txs_ b → mempool_ s !! hash_ tx = Some tx0 → tx0 = tx) →
  Forall (plain_tx s) (txs_ b) → NoDup (map from_ (txs_ b)) → NoDup (map hash_ (txs_ b)) →
  processNextBlock chainOwner chainId b s = (r, s') → r ≠ Throw Undefined →
  r = Ok tt ∧ chain_ (storage_ s') = chain_ (storage_ s) ++ [b] ∧ pool_ok s' ∧
  (∀ k tx, mempool_ s' !! k = Some tx → mempool_ s !! k = Some tx ∧ k ∉ map hash_ (txs_ b)) ∧
  ∀ a, nonce_at (evmHost_ s') a =
    if decide (a ∈ map from_ (txs_ b)) then (nonce_at (evmHost_ s) a + 1) mod 2 ^ 64 else nonce_at (evmHost_ s) a.
Proof. apply block_appended. Qed.

Lemma fill_loop (l : list (list Z * TxBlock)) b :
  finalized_ b = false →
  foldl (λ b p, (appendTx b p.2).2) b l = with_txs b (txs_ b ++ l.*2) (txValidators_ b).
Proof.
  revert b. induction l as [|[k tx] l IH]; intros b Hb; cbn [foldl].
  - rewrite app_nil_r. by destruct b.
  - unfold appendTx at 2. rewrite Hb. cbn [snd]. rewrite IH by done. cbn. by rewrite <- app_assoc.
Qed.

(** Every transaction of the mempool gets into the next block: [fillBlockWithTransactions] adds
    each of them once to a block that is not finalized, leaves the rest of the block alone, and the
    result still passes the validation of its transactions. *)
Theorem mempool_fills_block (s : ST) (b : Block) :
  finalized_ b = false → pool_keyed (mempool_ s) → validate_txs s (txs_ b) = Ok true →
  let b' := fillBlockWithTransactions s b in
  (∃ txs, txs_ b' = txs_ b ++ txs ∧ txs ≡ₚ (map_to_list (mempool_ s)).*2) ∧
  b' = with_txs b (txs_ b') (txValidators_ b) ∧ validate_txs s (txs_ b') = Ok true.
Proof.
  intros Hb Hkey Hval b'. assert (Hp := in_order_perm (mempool_ s)).
  assert (Hb' : b' = with_txs b (txs_ b ++ (in_order (mempool_ s)).*2) (txValidators_ b)) by by apply fill_loop.
  split; [exists (in_order (mempool_ s)).*2; rewrite Hb'; split; [done|by rewrite Hp]|]. split; [by rewrite Hb'|].
  rewrite Hb'. cbn [txs_ with_txs]. apply validate_txs_iff. apply Forall_app. split; [by apply validate_txs_iff|].
  apply Forall_forall. intros tx ([k tx0] & -> & Hin)%list_elem_of_fmap. rewrite Hp in Hin.
  apply elem_of_map_to_list in Hin. apply validate_pooled. cbn [snd]. rewrite (Hkey _ _ Hin), Hin. by eexists.
Qed.

(** A transaction of the EVM whose value its sender does not have throws out of
    [processTransaction]: the value is moved before the [try] block. The exception leaves the recipient
    credited, the sender with a value Boost does not specify, and its nonce unchanged. *)
Theorem unpaid_value_escapes tx blockHash blockHeight blockCoinbase blockTimestamp blockGasLimit txIndex (s : ST) :
  is_Some (accounts (evmHost_ s) !! from_ tx) → evm_branch tx (evmHost_ s) = true → from_ tx ≠ realTo tx →
  0 ≤ balance_at (evmHost_ s) (from_ tx) < value_ tx → balance_at (evmHost_ s) (realTo tx) + value_ tx ≤ umax 256 →
  ∃ s', processTransaction chainOwner chainId tx blockHash blockHeight blockCoinbase blockTimestamp blockGasLimit txIndex s
    = (Throw RangeError, s') ∧
    balance_at (evmHost_ s') (realTo tx) = balance_at (evmHost_ s) (realTo tx) + value_ tx ∧
    balance_at (evmHost_ s') (from_ tx) = sub_residue (balance_at (evmHost_ s) (from_ tx)) (value_ tx) ∧
    nonce_at (evmHost_ s') (from_ tx) = nonce_at (evmHost_ s) (from_ tx).
Proof.
  intros Hacc Hevm Hne [Hf0 Hf] Hto. rewrite processTransaction_start, Hevm by done.
  set (h := access_balance (from_ tx) (start_host tx (evmHost_ s))).
  assert (Hb : ∀ a, balance_at h a = balance_at (evmHost_ s) a) by (intros a; apply start_balance).
  set (h1 := setBalance (realTo tx) (balance_at h (realTo tx) + value_ tx) h).
  assert (Hb1 : balance_at h1 (from_ tx) = balance_at (evmHost_ s) (from_ tx)).
  { unfold h1. rewrite balance_at_set, decide_False by congruence. apply Hb. }
  exists (with_host s (setBalance (from_ tx) (sub_residue (balance_at h1 (from_ tx)) (value_ tx)) h1)).
  split; [|split; [|split]].
  - unfold mbind' at 1. unfold evm_transaction. unfold mbind' at 1, on_host at 1. cbn [mmodify evmHost_ with_host].
    fold h. destruct (Z.eqb_spec (value_ tx) 0); [lia|]. unfold mbind' at 1. unfold mbind' at 1, on_host at 1.
    cbn [evmHost_ with_host]. rewrite credit_ok by by rewrite Hb. fold h1. unfold mbind' at 1, on_host at 1.
    cbn [evmHost_ with_host]. unfold debit, checked_sub. rewrite (proj2 (Z.leb_gt _ _)) by by rewrite Hb1. done.
  - cbn [evmHost_ with_host]. rewrite balance_at_set, decide_False by done. unfold h1.
    rewrite balance_at_set, decide_True by done. by rewrite Hb.
  - cbn [evmHost_ with_host]. rewrite balance_at_set, decide_True by done. by rewrite Hb1.
  - cbn [evmHost_ with_host]. unfold nonce_at. rewrite (same_nonce _ _ (same_setBalance _ _ h1)).
    unfold h1. rewrite (same_nonce _ _ (same_setBalance _ _ h)). apply start_nonce.
Qed.
End properties.

(** ** Witnesses *)

Definition toy_latest : Block :=
  mkBlock (zero_bytes 65) zero_hash zero_hash zero_hash zero_hash 500 6 [] [] UPubKey_zero true (replicate 32 8).

Definition toy_chain_node (h : EVMHost) (pool : gmap (list Z) TxBlock) : State (V := SafeCell Z) (DBI := ref_db) :=
  mkState h pool false toy_manager toy_rdpos
    (mkStorage (DBI := ref_db) [toy_latest] ∅ ∅ ∅ ∅ ∅ ∅ (∅ : gmap _ _)).

(** The round's block with other transactions. *)
Definition toy_next (txs : list TxBlock) : Block := with_txs toy_round_block txs (txValidators_ toy_round_block).

Definition toy_hashed (n : Z) (to : list Z) (value : Z) : TxBlock :=
  mkTxBlock to toy_sender [] 8080 0 value 1 1 21000 0 0 0 (toy_word n).

Abbreviation toy_validate := (@validateNextBlock (SafeCell Z) ref_db toy_hash).
Abbreviation toy_process_block := (@processNextBlock (SafeCell Z) Z cell_SafeVariable ref_db toy_secp boost_ref toy_hash toy_evm
  residue_ref toy_types order_ref toy_owner 8080).

Abbreviation toy_follows := (@follows (SafeCell Z) ref_db toy_hash).

(** A block with a transfer follows; the round's block of another height does not, and is refused. *)
Lemma validateNextBlock_spec_witness :
  let s := toy_chain_node toy_accounts ∅ in
  toy_follows s (toy_next [toy_hashed 1 (toy_addr 7) 10]) ∧
  ∃ e, toy_process_block toy_latest s = (Throw e, s).
Proof.
  intros s.
  pose proof (λ b, @validateNextBlock_spec (SafeCell Z) Z cell_SafeVariable ref_db toy_secp boost_ref toy_hash toy_evm
    residue_ref toy_types order_ref toy_owner 8080 s b ltac:(by vm_compute)) as H.
  split; [apply H; by vm_compute|]. apply (H toy_latest). intros Hf%H. by vm_compute in Hf.
Defined.

(** Two transfers of the same nonce: both are executed. *)
Definition toy_twice : Block := toy_next [toy_hashed 1 (toy_addr 7) 10; toy_hashed 1 (toy_addr 7) 10].

Lemma validation_ignores_repeats_witness :
  toy_validate (toy_chain_node toy_accounts ∅) toy_twice = Ok true.
Proof.
  apply (@validation_ignores_repeats (SafeCell Z) ref_db toy_hash (toy_chain_node toy_accounts ∅)
    (toy_next [toy_hashed 1 (toy_addr 7) 10])).
  - by vm_compute.
  - intros tx [->|[->|H%not_elem_of_nil]%elem_of_cons]%elem_of_cons; [left|left|done].
Defined.

Lemma repeated_transfer_is_paid_twice :
  let '(r, s') := toy_process_block toy_twice (toy_chain_node toy_accounts ∅) in
  r = Ok tt ∧ balance_at (evmHost_ s') (toy_addr 7) = 20 ∧ nonce_at (evmHost_ s') toy_sender = 2.
Proof. by vm_compute. Qed.

(** A valid block that stops the node: two calls that spend the same balance. The first is executed, the
    second throws out of [processNextBlock], and the block is not stored. *)
Lemma overspending_block_halts :
  let b := toy_next [toy_hashed 1 (toy_addr 2) 600000; toy_hashed 2 (toy_addr 2) 600000] in
  let s := toy_chain_node toy_accounts ∅ in
  toy_validate s b = Ok true ∧
  let '(r, s') := toy_process_block b s in
  r = Throw RangeError ∧ chain_ (storage_ s') = [toy_latest] ∧ nonce_at (evmHost_ s') toy_sender = 1 ∧
  balance_at (evmHost_ s') (toy_addr 2) = 1200000.
Proof. by vm_compute. Qed.

Lemma toy_accounts_modest : modest (balance_at toy_accounts).
Proof.
  assert (Ht : typed toy_accounts) by by_compute.
  assert (Hn : ∀ a, 0 ≤ balance_at toy_accounts a) by (intros a; apply (typed_at _ a Ht)).
  split; [done|]. intros l Hl.
  apply Z.le_lt_trans with (total (balance_at toy_accounts) (map_to_list (accounts toy_accounts)).*1); [|by vm_compute].
  apply total_support; [done| |done]. intros a Ha. unfold balance_at, account_at.
  destruct (accounts toy_accounts !! a) as [acc|] eqn:E; [|done]. exfalso. apply Ha, list_elem_of_fmap.
  exists (a, acc). split; [done|]. by apply elem_of_map_to_list.
Qed.

(** A block with a call of the reverting contract. *)
Definition toy_appended := toy_process_block (toy_next [toy_hashed 1 (toy_addr 1) 10]) (toy_chain_node toy_accounts ∅).

Lemma valid_block_appended_witness :
  toy_appended.1 = Ok tt ∧ chain_ (storage_ toy_appended.2) = [toy_latest; toy_next [toy_hashed 1 (toy_addr 1) 10]] ∧
  pool_ok toy_appended.2 ∧
  (∀ k tx, mempool_ toy_appended.2 !! k = Some tx →
     mempool_ (toy_chain_node toy_accounts ∅) !! k = Some tx ∧ k ∉ map hash_ [toy_hashed 1 (toy_addr 1) 10]) ∧
  ∀ a, nonce_at (evmHost_ toy_appended.2) a =
    if decide (a ∈ map from_ [toy_hashed 1 (toy_addr 1) 10]) then (nonce_at toy_accounts a + 1) mod 2 ^ 64 else nonce_at toy_accounts a.
Proof.
  apply (@valid_block_appended (SafeCell Z) Z cell_SafeVariable ref_db toy_secp boost_ref toy_hash toy_evm
    residue_ref toy_types order_ref toy_owner 8080 (toy_next [toy_hashed 1 (toy_addr 1) 10])
    (toy_chain_node toy_accounts ∅) toy_appended.1 toy_appended.2).
  - by vm_compute.
  - apply toy_accounts_settled.
  - apply toy_accounts_modest.
  - apply toy_manager_quiet.
  - intros k tx Hk. change (mempool_ (toy_chain_node toy_accounts ∅)) with (∅ : gmap (list Z) TxBlock) in Hk.
    by rewrite lookup_empty in Hk.
  - intros tx tx0 _ Hk. change (mempool_ (toy_chain_node toy_accounts ∅)) with (∅ : gmap (list Z) TxBlock) in Hk.
    by rewrite lookup_empty in Hk.
  - apply Forall_singleton. split; [by split_and!|]. split; [by vm_compute|done].
  - apply NoDup_singleton.
  - apply NoDup_singleton.
  - exact (surjective_pairing _).
  - by vm_compute.
Defined.

Lemma mempool_fills_block_witness :
  let tx := toy_hashed 1 (toy_addr 7) 10 in
  let s := toy_chain_node toy_accounts {[ hash_ tx := tx ]} in
  let b := Block_new (replicate 32 8) 1000 7 in
  let b' := @fillBlockWithTransactions (SafeCell Z) ref_db order_ref s b in
  txs_ b' = [tx] ∧
  (∃ txs, txs_ b' = txs_ b ++ txs ∧ txs ≡ₚ (map_to_list (mempool_ s)).*2) ∧
  b' = with_txs b (txs_ b') (txValidators_ b) ∧ @validate_txs (SafeCell Z) ref_db s (txs_ b') = Ok true.
Proof.
  split; [by vm_compute|].
  apply (@mempool_fills_block (SafeCell Z) ref_db order_ref
    (toy_chain_node toy_accounts {[ hash_ (toy_hashed 1 (toy_addr 7) 10) := toy_hashed 1 (toy_addr 7) 10 ]})
    (Block_new (replicate 32 8) 1000 7)); [done| |done].
  intros k tx Hk. cbn in Hk. by apply lookup_singleton_Some in Hk as [<- <-].
Defined.

Lemma unpaid_value_escapes_witness :
  let tx := toy_hashed 1 (toy_addr 2) 1000001 in
  let s := toy_chain_node toy_accounts ∅ in
  ∃ s', @processTransaction (SafeCell Z) Z cell_SafeVariable ref_db toy_secp boost_ref toy_hash toy_evm residue_ref toy_types
      order_ref toy_owner 8080 tx (toy_word 7) 8 zero_address 2000 100000000 0 s = (Throw RangeError, s') ∧
    balance_at (evmHost_ s') (toy_addr 2) = balance_at (evmHost_ s) (toy_addr 2) + 1000001 ∧
    balance_at (evmHost_ s') toy_sender = @sub_residue residue_ref (balance_at (evmHost_ s) toy_sender) 1000001 ∧
    nonce_at (evmHost_ s') toy_sender = nonce_at (evmHost_ s) toy_sender.
Proof.
  apply (@unpaid_value_escapes (SafeCell Z) Z cell_SafeVariable ref_db toy_secp boost_ref toy_hash toy_evm residue_ref toy_types
    order_ref toy_owner 8080 (toy_hashed 1 (toy_addr 2) 1000001) (toy_word 7) 8 zero_address 2000 100000000 0
    (toy_chain_node toy_accounts ∅)).
  - by_compute.
  - by vm_compute.
  - by vm_compute.
  - by vm_compute.
  - by vm_compute.
Defined.
