(* ===== verification/P2PManager.v ===== *)
(** * P2PManager: what a node does with messages (src/net/p2p/managerbase.cpp, managernormal.cpp, managerdiscovery.cpp)

    The sessions, the pending requests, the flood control of broadcasts, and every handler, over the state of the node.
    A message written to a session is added to the list of what has been sent. A handler runs as one step; the
    exceptions it does not catch leave the task of the thread pool, and the program ends there. *)

From S2P Require Import Prelude Bytes SizedInts Hashing ECDSA SafeBase Tx TxValidator Randomness Block P2PEncoding RdPoS Abi DB Event Storage EvmHost ContractManager State StateTx StateBlock.

(** The order in which [unordered_map<NodeID, ...>] is iterated. *)
Class NodeOrder := {
  nodes_in_order : ∀ {A : Type}, gmap NodeID A → list (NodeID * A);
  nodes_in_order_perm {A} (m : gmap NodeID A) : nodes_in_order m ≡ₚ map_to_list m
}.

(** [class Request]: the answer is what the promise holds. *)
Record Request := mkRequest {
  req_command : Z;
  req_id : list Z;
  req_nodeId : NodeID;
  req_message : Message;
  req_answer : option Message
}.

Definition setAnswer (answer : Message) (r : Request) : result Request :=
  match req_answer r with
  | Some _ => Throw FutureError
  | None => Ok (mkRequest (req_command r) (req_id r) (req_nodeId r) (req_message r) (Some answer))
  end.

Section manager.
Context {V T : Type} {SV : SafeVariable V T} {DBI : RocksDB} {LS : LibSecp256k1} {BB : BoostBits} {KC : Keccak}
  {VM : EVMC} {BR : BoostResidue} {CT : ContractTypes (V := V)} {HO : HashOrder} {NO : NodeOrder}.
Variables (chainOwner : list Z) (chainId : Z).
Abbreviation ST := (State (V := V)).

(** A session is the type of its host; [sent_] is what has been written to sessions. *)
Record Manager := mkManager {
  started_ : bool;
  sessions_ : gmap NodeID Z;
  requests_ : gmap (list Z) Request;
  broadcastedMessages_ : gmap Z Z;
  state_ : ST;
  sent_ : list (NodeID * Message)
}.

Definition with_sessions (x : gmap NodeID Z) (m : Manager) : Manager :=
  mkManager (started_ m) x (requests_ m) (broadcastedMessages_ m) (state_ m) (sent_ m).
Definition with_requests (x : gmap (list Z) Request) (m : Manager) : Manager :=
  mkManager (started_ m) (sessions_ m) x (broadcastedMessages_ m) (state_ m) (sent_ m).
Definition with_broadcasted (x : gmap Z Z) (m : Manager) : Manager :=
  mkManager (started_ m) (sessions_ m) (requests_ m) x (state_ m) (sent_ m).
Definition with_state (x : ST) (m : Manager) : Manager :=
  mkManager (started_ m) (sessions_ m) (requests_ m) (broadcastedMessages_ m) x (sent_ m).
Definition with_sent (x : list (NodeID * Message)) (m : Manager) : Manager :=
  mkManager (started_ m) (sessions_ m) (requests_ m) (broadcastedMessages_ m) (state_ m) x.

Definition on_state {A} (c : M ST A) : M Manager A := λ m, let '(r, s) := c (state_ m) in (r, with_state s m).
Definition session_write (nodeId : NodeID) (message : Message) : M Manager unit :=
  mmodify (λ m, with_sent (sent_ m ++ [(nodeId, message)]) m).

(** ** ManagerBase *)

(** The host of the session has told its identifier and its type in the handshake. *)
Definition registerSession (nodeId : NodeID) (hostType : Z) : M Manager bool :=
  m <-- mget;;
  if negb (started_ m) then mret' false
  else if decide (is_Some (sessions_ m !! nodeId)) then mret' false
  else mmodify (with_sessions (<[nodeId := hostType]> (sessions_ m))) ;;; mret' true.

Definition unregisterSession (nodeId : NodeID) : M Manager bool :=
  m <-- mget;;
  if negb (started_ m) then mret' false
  else if decide (sessions_ m !! nodeId = None) then mret' false
  else mmodify (with_sessions (delete nodeId (sessions_ m))) ;;; mret' true.

(** The session is closed too, which nothing sees here. *)
Definition disconnectSession (nodeId : NodeID) : M Manager bool :=
  m <-- mget;;
  if negb (started_ m) then mret' false
  else if decide (sessions_ m !! nodeId = None) then mret' false
  else mmodify (with_sessions (delete nodeId (sessions_ m))) ;;; mret' true.

(** The identifier of the request that was sent; [None] is the null pointer. *)
Definition sendRequestTo (nodeId : NodeID) (message : Message) : M Manager (option (list Z)) :=
  m <-- mget;;
  if negb (started_ m) then mret' None
  else
    match sessions_ m !! nodeId with
    | None => mret' None
    | Some hostType =>
        refused <-- mlift (if hostType =? DISCOVERY_NODE then
                             c ← msg_command message; Ok ((c =? Info) || (c =? RequestValidatorTxs))
                           else Ok false);;
        if refused : bool then mret' None
        else
          id <-- mlift (msg_id message);;
          command <-- mlift (msg_command message);;
          mmodify (λ m, with_requests (<[id := mkRequest command id nodeId message None]> (requests_ m)) m) ;;;
          session_write nodeId message ;;;
          mret' (Some id)
    end.

Definition answerSession (nodeId : NodeID) (message : Message) : M Manager unit :=
  m <-- mget;;
  if negb (started_ m) then mret' tt
  else if decide (sessions_ m !! nodeId = None) then mret' tt
  else session_write nodeId message.

Definition getSessionsIDs (m : Manager) : list NodeID := (nodes_in_order (sessions_ m)).*1.
Definition getSessionsIDs_type (type : Z) (m : Manager) : list NodeID :=
  (filter (λ p, p.2 = type) (nodes_in_order (sessions_ m))).*1.

Definition manager_start (m : Manager) : Manager :=
  mkManager true (sessions_ m) (requests_ m) (broadcastedMessages_ m) (state_ m) (sent_ m).
Definition manager_stop (m : Manager) : Manager :=
  if started_ m then mkManager false ∅ (requests_ m) (broadcastedMessages_ m) (state_ m) (sent_ m) else m.

(** The end of a request: the answer that arrived while it waited, decoded; what a [catch] returns otherwise. *)
Definition await {A} (dflt : A) (decode : Message → result A) (id : list Z) (m : Manager) : result A :=
  match requests_ m !! id with
  | Some r =>
      match req_answer r with
      | None => Ok dflt
      | Some answer => match decode answer with Throw Undefined => Throw Undefined | Throw _ => Ok dflt | Ok a => Ok a end
      end
  | None => Ok dflt
  end.

(** ** Broadcasts *)

Definition broadcasted (id : Z) (m : Manager) : Z := default 0 (broadcastedMessages_ m !! id).

(** A new entry of the map is 0. *)
Definition broadcastMessage (message : Message) : M Manager unit :=
  m <-- mget;;
  if negb (started_ m) then mret' tt
  else
    i <-- mlift (msg_id message);;
    id <-- mlift (bytesToUint64 i);;
    if 0 <? broadcasted id m then mret' tt
    else
      mmodify (with_broadcasted (<[id := broadcasted id m + 1]> (broadcastedMessages_ m))) ;;;
      mforeach (λ p : NodeID * Z, if p.2 =? NORMAL_NODE then session_write p.1 message else mret' tt)
        (nodes_in_order (sessions_ m)).

Definition broadcastTxValidator (tx : TxValidator) : M Manager unit :=
  message <-- mlift (broadcastValidatorTx tx);; broadcastMessage message.
Definition broadcastTxBlock (tx : TxBlock) : M Manager unit := message <-- mlift (broadcastTx tx);; broadcastMessage message.
Definition broadcast_block (block : Block) : M Manager unit := message <-- mlift (broadcastBlock block);; broadcastMessage message.

(** ** ManagerNormal *)

(** [options_.getVersion] and the clock when a handler asks for it. *)
Variable version : Z.

(** A request without data: checked, then answered. *)
Definition plain_handler (valid : result bool) (answer : Manager → result Message) (nodeId : NodeID) : M Manager unit :=
  ok <-- mlift valid;;
  if negb ok then disconnectSession nodeId ;;; mret' tt
  else m <-- mget;; a <-- mlift (answer m);; answerSession nodeId a.

Definition handlePingRequest (nodeId : NodeID) (message : Message) : M Manager unit :=
  plain_handler (isPing message) (λ _, Answer_ping message) nodeId.

(** The decoder's exceptions are not caught. *)
Definition handleInfoRequest (now : Z) (nodeId : NodeID) (message : Message) : M Manager unit :=
  mlift (Request_read_info message) ;;;
  m <-- mget;;
  a <-- mlift (latestBlock ← latest (storage_ (state_ m)); Answer_info message version now latestBlock);;
  answerSession nodeId a.

Definition handleRequestNodesRequest (nodeId : NodeID) (message : Message) : M Manager unit :=
  plain_handler (isRequestNodes message) (λ m, Answer_requestNodes message (nodes_in_order (sessions_ m))) nodeId.
Definition handleTxValidatorRequest (nodeId : NodeID) (message : Message) : M Manager unit :=
  plain_handler (isRequestValidatorTxs message)
    (λ m, Answer_requestValidatorTxs message (validatorMempool_ (rdpos_ (state_ m)))) nodeId.
Definition handleTxRequest (nodeId : NodeID) (message : Message) : M Manager unit :=
  plain_handler (isRequestTxs message) (λ m, Answer_requestTxs message (mempool_ (state_ m))) nodeId.

Definition handleRequest (now : Z) (nodeId : NodeID) (message : Message) : M Manager unit :=
  command <-- mlift (msg_command message);;
  if command =? Ping then handlePingRequest nodeId message
  else if command =? Info then handleInfoRequest now nodeId message
  else if command =? RequestNodes then handleRequestNodesRequest nodeId message
  else if command =? RequestValidatorTxs then handleTxValidatorRequest nodeId message
  else if command =? RequestTxs then handleTxRequest nodeId message
  else disconnectSession nodeId ;;; mret' tt.

(** The body that the five answer handlers share. *)
Definition answer_handler (nodeId : NodeID) (message : Message) : M Manager unit :=
  m <-- mget;;
  id <-- mlift (msg_id message);;
  match requests_ m !! id with
  | None => disconnectSession nodeId ;;; mret' tt
  | Some r => r <-- mlift (setAnswer message r);; mmodify (with_requests (<[id := r]> (requests_ m)))
  end.

Definition handleAnswer (nodeId : NodeID) (message : Message) : M Manager unit :=
  command <-- mlift (msg_command message);;
  if bool_decide (command ∈ [Ping; Info; RequestNodes; RequestValidatorTxs; RequestTxs]) then answer_handler nodeId message
  else disconnectSession nodeId ;;; mret' tt.

(** [try { body } catch (std::exception &e) { disconnectSession(nodeId); }] *)
Definition or_disconnect (nodeId : NodeID) (body : M Manager unit) : M Manager unit :=
  mtry body (λ r, match r with Ok _ => mret' tt | Throw _ => disconnectSession nodeId ;;; mret' tt end).

Definition handleTxValidatorBroadcast (nodeId : NodeID) (message : Message) : M Manager unit :=
  or_disconnect nodeId (
    tx <-- mlift (read_broadcastValidatorTx message);;
    added <-- on_state (State_addValidatorTx tx);;
    if added : bool then broadcastMessage message else mret' tt).

Definition handleTxBroadcast (nodeId : NodeID) (message : Message) : M Manager unit :=
  or_disconnect nodeId (
    tx <-- mlift (read_broadcastTx message);;
    txInvalid <-- on_state (addTx tx);;
    if decide (txInvalid = NotInvalid) then broadcastMessage message else mret' tt).

(** The block is processed inside the [try], and [rebroadcast] read after it: a block that is stored already returns
    before, whatever its height. *)
Definition handleBlockBroadcast (nodeId : NodeID) (message : Message) : M Manager unit :=
  mtry (
    block <-- mlift (read_broadcastBlock message);;
    m <-- mget;;
    if blockExists (storage_ (state_ m)) (block_hash_ block) then
      latestBlock <-- mlift (latest (storage_ (state_ m)));; mret' false
    else
      valid <-- mlift (validateNextBlock (state_ m) block);;
      if valid : bool then on_state (processNextBlock chainOwner chainId block) ;;; mret' true else mret' false)
  (λ r, match r with
        | Ok rebroadcast => if rebroadcast : bool then broadcastMessage message else mret' tt
        | Throw _ => disconnectSession nodeId ;;; mret' tt
        end).

Definition broadcast_handler (nodeId : NodeID) (message : Message) : M Manager unit :=
  command <-- mlift (msg_command message);;
  if command =? BroadcastValidatorTx then handleTxValidatorBroadcast nodeId message
  else if command =? BroadcastTx then handleTxBroadcast nodeId message
  else if command =? BroadcastBlock then handleBlockBroadcast nodeId message
  else disconnectSession nodeId ;;; mret' tt.

Definition handleBroadcast (nodeId : NodeID) (message : Message) : M Manager unit :=
  m <-- mget;;
  if negb (started_ m) then mret' tt
  else
    i <-- mlift (msg_id message);;
    id <-- mlift (bytesToUint64 i);;
    match broadcastedMessages_ m !! id with
    | Some n =>
        if 0 <? n then
          if n =? 1 then mmodify (with_broadcasted (<[id := n + 1]> (broadcastedMessages_ m))) else mret' tt
        else broadcast_handler nodeId message
    | None => broadcast_handler nodeId message
    end.

Definition handleMessage (now : Z) (nodeId : NodeID) (message : Message) : M Manager unit :=
  m <-- mget;;
  if negb (started_ m) then mret' tt
  else
    type <-- mlift (msg_type message);;
    if type =? Requesting then handleRequest now nodeId message
    else if type =? Answering then handleAnswer nodeId message
    else if type =? Broadcasting then handleBroadcast nodeId message
    else disconnectSession nodeId ;;; mret' tt.

(** ** Requests: what the caller sends, and what it returns after the wait *)

Definition send_request (request : result Message) (nodeId : NodeID) : M Manager (option (list Z)) :=
  message <-- mlift request;; sendRequestTo nodeId message.

Definition requestValidatorTxs (rnd : list Z) : NodeID → M Manager (option (list Z)) := send_request (Request_requestValidatorTxs rnd).
Definition requestValidatorTxs_end : list Z → Manager → result (list TxValidator) := await [] Answer_read_validatorTxs.
Definition requestTxs (rnd : list Z) : NodeID → M Manager (option (list Z)) := send_request (Request_requestTxs rnd).
Definition requestTxs_end : list Z → Manager → result (list TxBlock) := await [] Answer_read_txs.
Definition requestNodes (rnd : list Z) : NodeID → M Manager (option (list Z)) := send_request (Request_requestNodes rnd).
Definition requestNodes_end : list Z → Manager → result (gmap NodeID Z) := await ∅ Answer_read_nodes.
Definition requestNodeInfo (rnd : list Z) (now : Z) (nodeId : NodeID) : M Manager (option (list Z)) :=
  m <-- mget;; send_request (latestBlock ← latest (storage_ (state_ m)); Request_info rnd version now latestBlock) nodeId.
Definition requestNodeInfo_end : list Z → Manager → result NodeInfo := await (mkNodeInfo 0 0 0 zero_hash) Answer_read_info.

(** ** ManagerDiscovery *)

Definition Discovery_handleRequest (nodeId : NodeID) (message : Message) : M Manager unit :=
  command <-- mlift (msg_command message);;
  if command =? Ping then handlePingRequest nodeId message
  else if command =? RequestNodes then handleRequestNodesRequest nodeId message
  else disconnectSession nodeId ;;; mret' tt.

Definition Discovery_handleAnswer (nodeId : NodeID) (message : Message) : M Manager unit :=
  command <-- mlift (msg_command message);;
  if command =? Ping then answer_handler nodeId message
  else if command =? Info then mret' tt
  else if command =? RequestNodes then answer_handler nodeId message
  else disconnectSession nodeId ;;; mret' tt.

Definition Discovery_handleMessage (nodeId : NodeID) (message : Message) : M Manager unit :=
  m <-- mget;;
  if negb (started_ m) then mret' tt
  else
    type <-- mlift (msg_type message);;
    if type =? Requesting then Discovery_handleRequest nodeId message
    else if type =? Answering then Discovery_handleAnswer nodeId message
    else disconnectSession nodeId ;;; mret' tt.
End manager.
