(* ===== verification/NodeSync.v ===== *)
(** * NodeSync: finding and choosing peers (src/net/p2p/discovery.cpp, the Syncer of src/core/blockchain.cpp)

    The discovery worker asks connected nodes for their peers and connects to those; the syncer keeps the information of
    the nodes it is connected to and looks for the highest.  What a node answers is an argument. *)

From S2P Require Import Prelude Bytes SizedInts Hashing ECDSA SafeBase Tx TxValidator Randomness Block P2PEncoding RdPoS Abi DB Event Storage EvmHost ContractManager State StateTx StateBlock P2PManager.

Section discovery.
Context {NO : NodeOrder}.

(** [ManagerBase::connectToServer]: [true] when the client is told to connect. *)
Definition connects (started : bool) (localNode : NodeID) (sessions : gmap NodeID Z) (node : NodeID) : bool :=
  started && bool_decide (node ≠ localNode) && bool_decide (sessions !! node = None).

Definition connectToNode (started : bool) (localNode : NodeID) (sessions : gmap NodeID Z) (node : NodeID) (nodeType : Z) : bool :=
  if nodeType =? DISCOVERY_NODE then false else connects started localNode sessions node.

(** The difference of the clock and the unsigned time of the request is unsigned. *)
Definition refreshRequestedNodes (now : Z) (requestedNodes : gmap NodeID Z) : gmap NodeID Z :=
  filter (λ p, ¬ 10 < (now - p.2) mod 2 ^ 64) requestedNodes.

Definition listConnectedNodes (type : Z) (requestedNodes : gmap NodeID Z) (sessions : gmap NodeID Z) : list NodeID :=
  (filter (λ p, requestedNodes !! p.1 = None ∧ p.2 = type) (nodes_in_order sessions)).*1.

(** One pass of [discoverLoop] below the connection limit: the nodes it connects to and the nodes it has asked. [answer]
    is what a node answers to [requestNodes], [minList] the condition on the size of the answer of a discovery node. *)
Definition ask_node (started : bool) (localNode : NodeID) (sessions : gmap NodeID Z) (answer : NodeID → gmap NodeID Z)
    (minConnections sessionSize now : Z) (discoveryPass : bool) (acc : list NodeID * gmap NodeID Z) (node : NodeID) : list NodeID * gmap NodeID Z :=
  let nodeList := answer node in
  let found := filter (λ p, connectToNode started localNode sessions p.1 p.2 = true) (nodes_in_order nodeList) in
  (acc.1 ++ found.*1,
   if (discoveryPass || (minConnections <=? Z.of_nat (size nodeList))) && (minConnections <=? sessionSize)
   then <[node := now]> acc.2 else acc.2).

Definition discover_pass (started : bool) (localNode : NodeID) (sessions : gmap NodeID Z) (answer : NodeID → gmap NodeID Z)
    (minConnections maxConnections now : Z) (discoveryPass : bool) (requestedNodes : gmap NodeID Z) : list NodeID * gmap NodeID Z * bool :=
  let sessionSize := Z.of_nat (size sessions) in
  if maxConnections <=? sessionSize then ([], requestedNodes, discoveryPass)
  else
    let requestedNodes := refreshRequestedNodes now requestedNodes in
    let asked := listConnectedNodes (if discoveryPass then NORMAL_NODE else DISCOVERY_NODE) requestedNodes sessions in
    (foldl (ask_node started localNode sessions answer minConnections sessionSize now discoveryPass) ([], requestedNodes) asked,
     negb discoveryPass).

Lemma elem_of_nodes {A} (m : gmap NodeID A) n (x : A) : (n, x) ∈ nodes_in_order m ↔ m !! n = Some x.
Proof. rewrite nodes_in_order_perm. apply elem_of_map_to_list. Qed.

Lemma asked_spec type requestedNodes sessions n :
  n ∈ listConnectedNodes type requestedNodes sessions ↔ requestedNodes !! n = None ∧ sessions !! n = Some type.
Proof.
  unfold listConnectedNodes. rewrite list_elem_of_fmap. split.
  - intros ([k t] & -> & [[Hr Ht] Hk%elem_of_nodes]%list_elem_of_filter). cbn in *. by subst t.
  - intros [Hr Hs]. exists (n, type). split; [done|]. apply list_elem_of_filter. split; [done|]. by apply elem_of_nodes.
Qed.

Lemma ask_nodes_connects started localNode sessions answer minC sz now pass l acc :
  ∀ n, n ∈ (foldl (ask_node started localNode sessions answer minC sz now pass) acc l).1 ↔
    n ∈ acc.1 ∨ ∃ k t, k ∈ l ∧ answer k !! n = Some t ∧ connectToNode started localNode sessions n t = true.
Proof.
  revert acc. induction l as [|k l IH]; intros acc n; cbn [foldl].
  - split; [auto|]. by intros [?|(k & t & ?%not_elem_of_nil & _)].
  - rewrite IH. cbn [ask_node fst]. rewrite elem_of_app, list_elem_of_fmap. split.
    + intros [[?|([x t] & -> & [Hc Hx%elem_of_nodes]%list_elem_of_filter)]|(k' & t & Hk & H)]; [by left| |].
      * right. exists k, t. split; [left|done].
      * right. exists k', t. split; [by right|done].
    + intros [?|(k' & t & [->|Hk]%elem_of_cons & Ha & Hc)]; [by left; left| |].
      * left. right. exists (n, t). split; [done|]. apply list_elem_of_filter. split; [done|]. by apply elem_of_nodes.
      * right. by exists k', t.
Qed.

(** A pass connects exactly to the normal nodes, other than itself and those it has a session with, that the asked nodes
    name; the asked nodes are the connected ones of the type whose turn it is and that have not been asked for ten
    seconds; at the limit of connections nobody is asked. *)
Theorem discovery_pass_connects started localNode sessions answer minC maxC now pass requested connected requested' pass' :
  discover_pass started localNode sessions answer minC maxC now pass requested = (connected, requested', pass') →
  Z.of_nat (size sessions) < maxC →
  pass' = negb pass ∧
  ∀ n, n ∈ connected ↔
    started = true ∧ n ≠ localNode ∧ sessions !! n = None ∧
    ∃ k t, sessions !! k = Some (if pass then NORMAL_NODE else DISCOVERY_NODE) ∧
      (∀ asked, requested !! k = Some asked → 10 < (now - asked) mod 2 ^ 64) ∧ answer k !! n = Some t ∧ t ≠ DISCOVERY_NODE.
Proof.
  unfold discover_pass. intros Hd Hm. rewrite (proj2 (Z.leb_gt _ _)) in Hd by done.
  destruct (foldl _ _ _) as [c r] eqn:E. injection Hd as <- <- <-. split; [done|]. intros n.
  assert (H := ask_nodes_connects started localNode sessions answer minC (Z.of_nat (size sessions)) now pass
    (listConnectedNodes (if pass then NORMAL_NODE else DISCOVERY_NODE) (refreshRequestedNodes now requested) sessions)
    ([], refreshRequestedNodes now requested) n).
  rewrite E in H. cbn [fst] in H. rewrite H. clear H E. unfold connectToNode, connects. split.
  - intros [?%not_elem_of_nil|(k & t & [Hr Hs]%asked_spec & Ha & Hc)]; [done|].
    destruct (Z.eqb_spec t DISCOVERY_NODE); [done|]. rewrite !andb_true_iff, !bool_decide_eq_true in Hc.
    destruct Hc as ((H1 & H2) & H3). split_and!; try done. exists k, t. split_and!; try done.
    intros asked Hk. unfold refreshRequestedNodes in Hr. apply map_lookup_filter_None in Hr as [Hr|Hr]; [congruence|].
    specialize (Hr _ Hk). cbn in Hr. lia.
  - intros (H1 & H2 & H3 & k & t & Hk & Hr & Ha & Hne). right. exists k, t. split; [|split; [done|]].
    + apply asked_spec. split; [|done]. unfold refreshRequestedNodes. apply map_lookup_filter_None. right.
      intros x Hx. cbn. specialize (Hr x Hx). lia.
    + rewrite (proj2 (Z.eqb_neq _ _)) by done. rewrite H1, !bool_decide_eq_true_2 by done. done.
Qed.
End discovery.

(** ** The syncer *)

#[export] Instance NodeInfo_eq_dec : EqDecision NodeInfo.
Proof. solve_decision. Defined.

(** [P2P::NodeInfo()], what a request that fails returns. *)
Definition no_info : NodeInfo := mkNodeInfo 0 0 0 zero_hash.

(** [updateCurrentlyConnectedNodes]: the known nodes are asked first, and dropped when they do not answer or are no longer
    connected; then those that are not known, which may be asked a second time. *)
Definition updateCurrentlyConnectedNodes (connected : list NodeID) (first second : NodeID → NodeInfo) (known : gmap NodeID NodeInfo)
    : gmap NodeID NodeInfo :=
  let known := map_imap (λ id _, if bool_decide (id ∉ connected) then None
                                 else if bool_decide (first id = no_info) then None else Some (first id)) known in
  foldl (λ m id, if bool_decide (is_Some (m !! id)) then m
                 else if bool_decide (second id ≠ no_info) then <[id := second id]> m else m) known connected.

(** The highest node of [doSync], in the order of the map. *)
Definition highestNode (nodes : list (NodeID * NodeInfo)) : option NodeID * Z :=
  foldl (λ acc p, if acc.2 <? latestBlockHeight p.2 then (Some p.1, latestBlockHeight p.2) else acc) (None, 0) nodes.

Lemma add_nodes_lookup (second : NodeID → NodeInfo) (l : list NodeID) (m : gmap NodeID NodeInfo) (id : NodeID) :
  foldl (λ m id, if bool_decide (is_Some (m !! id)) then m
                 else if bool_decide (second id ≠ no_info) then <[id := second id]> m else m) m l !! id =
  match m !! id with
  | Some i => Some i
  | None => if bool_decide (id ∈ l) && bool_decide (second id ≠ no_info) then Some (second id) else None
  end.
Proof.
  revert m. induction l as [|x l IH]; intros m; cbn [foldl].
  - rewrite bool_decide_eq_false_2 by apply not_elem_of_nil. by destruct (m !! id).
  - rewrite IH. destruct (decide (x = id)) as [->|Hne].
    + rewrite (bool_decide_eq_true_2 (id ∈ id :: l)) by left. destruct (m !! id) as [i|] eqn:Em.
      * rewrite (bool_decide_eq_true_2 (is_Some _)) by by eexists. by rewrite Em.
      * rewrite (bool_decide_eq_false_2 (is_Some _)) by by intros []. destruct (bool_decide (second id ≠ no_info)); cbn [andb].
        -- by rewrite lookup_insert_eq.
        -- rewrite Em. by rewrite andb_false_r.
    + assert (Hm : (if bool_decide (is_Some (m !! x)) then m else if bool_decide (second x ≠ no_info) then <[x := second x]> m else m) !! id = m !! id).
      { destruct (bool_decide (is_Some (m !! x))); [done|]. destruct (bool_decide (second x ≠ no_info)); [by rewrite lookup_insert_ne|done]. }
      rewrite Hm. destruct (m !! id); [done|].
      rewrite (bool_decide_ext (id ∈ x :: l) (id ∈ l)); [done|]. rewrite elem_of_cons. split; [by intros [->|?]|by right].
Qed.

(** After the update exactly the connected nodes that answered are known, each with its latest answer. *)
Theorem connected_nodes_updated connected first second known id :
  updateCurrentlyConnectedNodes connected first second known !! id =
    if bool_decide (id ∉ connected) then None
    else if bool_decide (is_Some (known !! id) ∧ first id ≠ no_info) then Some (first id)
    else if bool_decide (second id ≠ no_info) then Some (second id) else None.
Proof.
  unfold updateCurrentlyConnectedNodes. rewrite add_nodes_lookup, map_lookup_imap.
  case_bool_decide as Hc.
  - rewrite (bool_decide_eq_false_2 (id ∈ connected)) by done. by destruct (known !! id).
  - rewrite (bool_decide_eq_true_2 (id ∈ connected)) by done. cbn [andb].
    destruct (known !! id) as [i|]; cbn [mbind option_bind].
    + case_bool_decide as Hf.
      * by rewrite (bool_decide_eq_false_2 (_ ∧ _)) by tauto.
      * rewrite (bool_decide_eq_true_2 (_ ∧ _)); [done|]. split; [by eexists|done].
    + rewrite (bool_decide_eq_false_2 (_ ∧ _)); [done|]. by intros [[] _].
Qed.

Lemma highest_fold (nodes : list (NodeID * NodeInfo)) (acc : option NodeID * Z) :
  (∀ n, acc.1 = Some n → ∃ i, (n, i) ∈ nodes ∧ latestBlockHeight i = acc.2) →
  ∀ rest, let r := foldl (λ (acc : option NodeID * Z) (p : NodeID * NodeInfo), if acc.2 <? latestBlockHeight p.2 then (Some p.1, latestBlockHeight p.2) else acc) acc rest in
  acc.2 ≤ r.2 ∧ (∀ n, r.1 = Some n → ∃ i, (n, i) ∈ nodes ++ rest ∧ latestBlockHeight i = r.2) ∧
  Forall (λ p, latestBlockHeight p.2 ≤ r.2) rest.
Proof.
  intros Hacc rest. revert nodes acc Hacc. induction rest as [|p rest IH]; intros nodes acc Hacc r.
  - rewrite app_nil_r. by split_and!.
  - cbn [foldl] in r. set (acc' := if acc.2 <? latestBlockHeight p.2 then (Some p.1, latestBlockHeight p.2) else acc) in r.
    destruct (IH (nodes ++ [p]) acc') as (I1 & I2 & I3).
    { unfold acc'. case_match.
      - cbn. intros n [= <-]. exists p.2. split; [|done]. apply elem_of_app. right. rewrite <- (surjective_pairing p). left.
      - intros n Hn. destruct (Hacc n Hn) as (i & Hi & ?). exists i. split; [|done]. apply elem_of_app. by left. }
    assert (Hle : acc.2 ≤ acc'.2 ∧ latestBlockHeight p.2 ≤ acc'.2) by (unfold acc'; destruct (Z.ltb_spec acc.2 (latestBlockHeight p.2)); cbn; lia).
    split; [unfold r in *; lia|]. split.
    + intros n Hn. destruct (I2 n Hn) as (i & Hi & ?). exists i. rewrite <- app_assoc in Hi. done.
    + constructor; [unfold r; lia|exact I3].
Qed.

(** No known node is higher than the one [doSync] chooses, and it is one of them when any has a block. *)
Theorem highest_node_chosen nodes :
  Forall (λ p, latestBlockHeight p.2 ≤ (highestNode nodes).2) nodes ∧
  (∀ n, (highestNode nodes).1 = Some n → ∃ i, (n, i) ∈ nodes ∧ latestBlockHeight i = (highestNode nodes).2).
Proof. destruct (highest_fold [] (None, 0)) with (rest := nodes) as (_ & H2 & H3); [done|]. split; [exact H3|exact H2]. Qed.

(** ** Witness *)

Definition toy_seed_node : NodeID := (V4 [10; 0; 0; 1], 8080).
Definition toy_found_node : NodeID := (V4 [10; 0; 0; 2], 8080).

Program Definition node_order_toy : NodeOrder := {| nodes_in_order A m := map_to_list m |}.
Next Obligation. done. Qed.

Definition toy_answers (n : NodeID) : gmap NodeID Z := if decide (n = toy_seed_node) then {[ toy_found_node := NORMAL_NODE ]} else ∅.

Lemma discovery_pass_connects_witness :
  let pass := @discover_pass node_order_toy true (V4 [10; 0; 0; 9], 8080) {[ toy_seed_node := DISCOVERY_NODE ]} toy_answers 1 5 100 false ∅ in
  pass = ([toy_found_node], {[ toy_seed_node := 100 ]}, true) ∧ toy_found_node ∈ pass.1.1.
Proof.
  split; [by_compute|].
  apply (@discovery_pass_connects node_order_toy true (V4 [10; 0; 0; 9], 8080) {[ toy_seed_node := DISCOVERY_NODE ]} toy_answers 1 5 100 false ∅
    [toy_found_node] {[ toy_seed_node := 100 ]} true).
  - by_compute.
  - by vm_compute.
  - split_and!; [done|done|by vm_compute|]. exists toy_seed_node, NORMAL_NODE. by split_and!.
Defined.
