(* ===== verification/Producer.v ===== *)
(** * Producer: the validator that makes the next block (src/core/blockchain.cpp, class Syncer)

    [doValidatorBlock] takes the transactions of the round from the mempool of the consensus, in the order of the
    shuffled list, fills the block with the transactions of the state, signs, validates and processes it. Its two
    searches are loops without a bound: they run on fuel here, and [None] is a search that goes on. *)

From S2P Require Import Prelude Bytes SizedInts Hashing ECDSA SafeBase SafeCell Tx TxValidator Randomness Block RdPoS Abi DB Event Storage EvmHost ContractManager State StateTx StateBlock RoundWorker.

(** The inner loop: the first transaction of the mempool by the [i]th validator with the functor. *)
Fixpoint find_tx (randomList : list (list Z)) (i : nat) (functor : list Z) (pool : list TxValidator) : result (option TxValidator) :=
  match pool with
  | [] => Ok None
  | tx :: pool =>
      v ← read_at randomList i;
      found ← (if bool_decide (vt_from tx = v) then f ← vt_functor tx; Ok (bool_decide (f = functor)) else Ok false);
      if found : bool then Ok (Some tx) else find_tx randomList i functor pool
  end.

(** The outer loop: one pass of it for each unit of fuel. *)
Fixpoint collect (fuel : nat) (randomList : list (list Z)) (pool : list TxValidator) (functor : list Z) (minValidators i : nat)
    (txs : list TxValidator) : option (result (list TxValidator)) :=
  if (length txs =? minValidators)%nat then Some (Ok txs) else
  match fuel with
  | O => None
  | S fuel =>
      match find_tx randomList i functor pool with
      | Throw e => Some (Throw e)
      | Ok None => collect fuel randomList pool functor minValidators i txs
      | Ok (Some tx) => collect fuel randomList pool functor minValidators (S i) (txs ++ [tx])
      end
  end.

Section producer.
Context {V T : Type} {SV : SafeVariable V T} {DBI : RocksDB} {LS : LibSecp256k1} {BB : BoostBits} {KC : Keccak}
  {VM : EVMC} {BR : BoostResidue} {CT : ContractTypes (V := V)} {HO : HashOrder}.
Variables (chainOwner : list Z) (chainId : Z).
Abbreviation ST := (State (V := V)).

Definition order_txs (fuel : nat) (s : ST) (functor : list Z) : option (result (list TxValidator)) :=
  collect fuel (randomList_ (rdpos_ s)) (in_order (validatorMempool_ (rdpos_ s))).*2 functor (minValidators_ (rdpos_ s)) 1 [].

(** The block of the two lists. *)
Definition make_block (s : ST) (latestBlock : Block) (randomHashTxs randomnessTxs : list TxValidator) (key : list Z) (now : Z) : Block :=
  let block := Block_new (block_hash_ latestBlock) (timestamp_ latestBlock) (add64 (nHeight_ latestBlock) 1) in
  let block := foldl (λ b tx, (appendTxValidator b tx).2) block randomHashTxs in
  let block := foldl (λ b tx, (appendTxValidator b tx).2) block randomnessTxs in
  signBlock key now (fillBlockWithTransactions s block).

Definition block_not_valid : exn := DynamicException "Block is not valid!".

(** Validate, process and check the block; the result is the block that is broadcast. *)
Definition publish (block : Block) : M ST Block :=
  s <-- mget;;
  valid <-- mlift (validateNextBlock s block);;
  mthrow_if (negb valid) block_not_valid ;;;
  processNextBlock chainOwner chainId block ;;;
  s <-- mget;;
  latestBlock <-- mlift (latest (storage_ s));;
  mthrow_if (bool_decide (block_hash_ latestBlock ≠ block_hash_ block)) block_not_valid ;;;
  mret' latestBlock.

(** [doValidatorBlock] after its waits, with the validator's key and the clock; the node is not being stopped. *)
Definition doValidatorBlock (fuel : nat) (key : list Z) (now : Z) (s : ST) : option (result Block * ST) :=
  match order_txs fuel s randomHashHash with
  | None => None
  | Some (Throw e) => Some (Throw e, s)
  | Some (Ok randomHashTxs) =>
      match order_txs fuel s randomSeedHash with
      | None => None
      | Some (Throw e) => Some (Throw e, s)
      | Some (Ok randomnessTxs) =>
          Some ((latestBlock <-- mlift (latest (storage_ s));;
                 publish (make_block s latestBlock randomHashTxs randomnessTxs key now)) s)
      end
  end.

(** The transactions a peer answers while the mempool is empty. *)
Definition add_txs (txs : list TxBlock) : M ST unit := mforeach (λ tx, addTx tx ;;; mret' tt) txs.

(** ** The searches *)

Lemma find_tx_unique rl i f pool v tx :
  rl !! i = Some v → tx ∈ pool → vt_from tx = v → vt_functor tx = Ok f →
  (∀ t, t ∈ pool → vt_from t = v → t = tx ∨ ∃ g, vt_functor t = Ok g ∧ g ≠ f) →
  find_tx rl i f pool = Ok (Some tx).
Proof.
  intros Hv Hin Hfrom Hf. induction pool as [|t pool IH]; intros Hall; [by apply not_elem_of_nil in Hin|].
  cbn [find_tx]. rewrite (proj2 (read_at_ok rl i v) Hv), result_bind_Ok.
  assert (Hnext : t ≠ tx → find_tx rl i f pool = Ok (Some tx)).
  { intros Hne. apply IH; [by apply elem_of_cons in Hin as [->|]|]. intros x Hx. apply Hall. by right. }
  case_bool_decide as Ht; rewrite ?result_bind_Ok; [|apply Hnext; by intros ->].
  destruct (Hall t ltac:(left) Ht) as [->|(g & Hg & Hne)].
  - by rewrite Hf, !result_bind_Ok, bool_decide_eq_true_2.
  - rewrite Hg, !result_bind_Ok, bool_decide_eq_false_2 by done. apply Hnext. intros ->. congruence.
Qed.

Lemma find_tx_none rl i f pool v :
  rl !! i = Some v → (∀ t, t ∈ pool → vt_from t = v → ∃ g, vt_functor t = Ok g ∧ g ≠ f) → find_tx rl i f pool = Ok None.
Proof.
  intros Hv Hall. induction pool as [|t pool IH]; [done|]. cbn [find_tx].
  rewrite (proj2 (read_at_ok rl i v) Hv), result_bind_Ok, IH by (intros x Hx; apply Hall; by right).
  case_bool_decide as Ht; rewrite ?result_bind_Ok; [|done]. destruct (Hall t ltac:(left) Ht) as (g & -> & Hne).
  by rewrite !result_bind_Ok, bool_decide_eq_false_2.
Qed.

Lemma collect_all rl pool f todo n fuel i txs :
  (length todo ≤ fuel)%nat → n = (length txs + length todo)%nat →
  (∀ k tx, todo !! k = Some tx → find_tx rl (i + k) f pool = Ok (Some tx)) →
  collect fuel rl pool f n i txs = Some (Ok (txs ++ todo)).
Proof.
  intros Hf ->. revert fuel i txs Hf. induction todo as [|tx todo IH]; intros fuel i txs Hf Hall.
  - rewrite app_nil_r. assert (E : (length txs =? length txs + length (@nil TxValidator))%nat = true) by (apply Nat.eqb_eq; cbn; lia).
    destruct fuel; cbn [collect]; by rewrite E.
  - cbn [length] in *. destruct fuel as [|fuel]; [lia|]. cbn [collect].
    rewrite (proj2 (Nat.eqb_neq _ _)) by lia. assert (H0 := Hall 0%nat tx eq_refl). rewrite Nat.add_0_r in H0. rewrite H0.
    specialize (IH fuel (S i) (txs ++ [tx])). rewrite length_app, <- app_assoc in IH. cbn [length] in IH.
    replace (length txs + 1 + length todo)%nat with (length txs + S (length todo))%nat in IH by lia. apply IH; [lia|].
    intros k t Hk. specialize (Hall (S k) t Hk). by rewrite Nat.add_succ_r in Hall.
Qed.

(** A search that finds a pass without a result never ends. *)
Lemma collect_stuck rl pool f found n fuel i txs :
  (length txs + length found < n)%nat →
  (∀ k tx, found !! k = Some tx → find_tx rl (i + k) f pool = Ok (Some tx)) → find_tx rl (i + length found) f pool = Ok None →
  collect fuel rl pool f n i txs = None.
Proof.
  revert found i txs. induction fuel as [|fuel IH]; intros found i txs Hn Hall Hnone; cbn [collect];
    rewrite (proj2 (Nat.eqb_neq _ _)) by lia; [done|].
  destruct found as [|tx found].
  - assert (H0 := Hnone). cbn [length] in H0. rewrite Nat.add_0_r in H0. rewrite H0. by apply (IH []).
  - assert (H0 := Hall 0%nat tx eq_refl). rewrite Nat.add_0_r in H0. rewrite H0. cbn [length] in *.
    apply (IH found); [rewrite length_app; cbn; lia| |by rewrite Nat.add_succ_r in Hnone].
    intros k t Hk. specialize (Hall (S k) t Hk). by rewrite Nat.add_succ_r in Hall.
Qed.

(** ** A complete round *)

(** The mempool holds a commitment and its opening from each validator of the round. *)
Definition round_ready (rd : rdPoS) (ps : list (TxValidator * TxValidator)) : Prop :=
  length ps = minValidators_ rd ∧
  ∀ k p, ps !! k = Some p →
    randomList_ rd !! (k + 1)%nat = Some (vt_from p.1) ∧ reveals p ∧
    validatorMempool_ rd !! vt_hash p.1 = Some p.1 ∧ validatorMempool_ rd !! vt_hash p.2 = Some p.2.

Lemma functor_app tx h r : length h = 4%nat → vt_data tx = h ++ r → vt_functor tx = Ok h.
Proof. intros Hl Hd. unfold vt_functor. apply (subspan_drop _ _ _ _ r); [lia|by rewrite Hd|done]. Qed.

Lemma reveals_functors p : reveals p → vt_functor p.1 = Ok randomHashHash ∧ vt_functor p.2 = Ok randomSeedHash ∧ p.1 ≠ p.2.
Proof.
  intros (_ & r & _ & H1 & H2). assert (F1 := functor_app _ randomHashHash _ eq_refl H1). assert (F2 := functor_app _ randomSeedHash _ eq_refl H2).
  split_and!; [done|done|]. intros E. rewrite E, F2 in F1. discriminate F1.
Qed.

Lemma pool_elem (m : gmap (list Z) TxValidator) t : t ∈ (in_order m).*2 ↔ ∃ k, m !! k = Some t.
Proof.
  rewrite list_elem_of_fmap. split.
  - intros ([k x] & -> & Hk%in_order_elem). by exists k.
  - intros [k Hk]. exists (k, t). split; [done|]. by apply in_order_elem.
Qed.

(** A validator has no third transaction in the mempool. *)
Lemma ready_two rd h ps k p t :
  mempool_inv rd h → round_ready rd ps → ps !! k = Some p → t ∈ (in_order (validatorMempool_ rd)).*2 →
  vt_from t = vt_from p.1 → t = p.1 ∨ t = p.2.
Proof.
  intros (_ & Htwo & _) (_ & Hps) Hk Ht Hfrom. destruct (Hps _ _ Hk) as (_ & Hrev & H1 & H2).
  destruct (reveals_functors _ Hrev) as (_ & _ & Hne). destruct (decide (t = p.1)) as [|Hn1]; [by left|].
  destruct (decide (t = p.2)) as [|Hn2]; [by right|]. exfalso. specialize (Htwo (vt_from p.1)).
  assert (Hsub : [t; p.1; p.2] ⊆+ txs_of (validatorMempool_ rd) (vt_from p.1)).
  { apply NoDup_submseteq.
    - repeat constructor; rewrite ?elem_of_cons, ?elem_of_nil; tauto.
    - destruct Hrev as [Hsame _]. intros x. rewrite !elem_of_cons, elem_of_nil, elem_of_txs_of.
      intros [->|[->|[->|[]]]]; (split; [done|]); [by apply pool_elem|by eexists..]. }
  apply submseteq_length in Hsub. cbn [length] in Hsub. lia.
Qed.

Lemma order_txs_ready (s : ST) h ps fuel :
  mempool_inv (rdpos_ s) h → round_ready (rdpos_ s) ps → (minValidators_ (rdpos_ s) ≤ fuel)%nat →
  order_txs fuel s randomHashHash = Some (Ok (map fst ps)) ∧ order_txs fuel s randomSeedHash = Some (Ok (map snd ps)).
Proof.
  intros Hinv Hready Hfuel. assert (Hps := Hready). destruct Hps as [Hl Hps].
  split; unfold order_txs;
    [rewrite (collect_all _ _ _ (map fst ps))|rewrite (collect_all _ _ _ (map snd ps))]; rewrite ?length_map, ?Hl; try done;
    intros k tx Hk; change (map ?g ps) with (g <$> ps) in Hk; rewrite list_lookup_fmap in Hk;
    destruct (ps !! k) as [p|] eqn:Hp; try done; injection Hk as <-; destruct (Hps _ _ Hp) as (Hv & Hrev & H1 & H2);
    destruct (reveals_functors _ Hrev) as (F1 & F2 & _); destruct Hrev as [Hsame _];
    rewrite Nat.add_comm in Hv; apply (find_tx_unique _ _ _ _ _ _ Hv); try done; try (apply pool_elem; by eexists);
    intros t Ht Hfrom; destruct (ready_two _ _ _ _ _ _ Hinv Hready Hp Ht Hfrom) as [->| ->]; auto; right; eauto.
Qed.

(** ** The block *)

Lemma append_validators_loop txs b :
  finalized_ b = false → foldl (λ b tx, (appendTxValidator b tx).2) b txs = with_txs b (txs_ b) (txValidators_ b ++ txs).
Proof.
  revert b. induction txs as [|tx txs IH]; intros b Hb; cbn [foldl].
  - rewrite app_nil_r. by destruct b.
  - unfold appendTxValidator at 2. rewrite Hb. cbn [snd]. rewrite IH by done. cbn. by rewrite <- app_assoc.
Qed.

Lemma make_block_fields (s : ST) l hs ss key now :
  timestamp_ l ≤ now →
  let b := make_block s l hs ss key now in
  finalized_ b = true ∧ nHeight_ b = add64 (nHeight_ l) 1 ∧ prevBlockHash_ b = block_hash_ l ∧ timestamp_ b = now ∧
  txValidators_ b = hs ++ ss ∧ txs_ b = (in_order (mempool_ s)).*2 ∧ ∃ msg, validatorPubKey_ b = recover (sign msg key) msg.
Proof.
  intros Hnow b. unfold b, make_block, signBlock. rewrite (append_validators_loop hs), append_validators_loop by done.
  unfold fillBlockWithTransactions. rewrite fill_loop by done. unfold finalize. cbn [finalized_ with_txs Block_new timestamp_].
  rewrite (proj2 (Z.ltb_ge _ _)) by done. cbn. split_and!; try done. by eexists.
Qed.

(** The key is the one of the validator whose turn it is. *)
Definition signs_as (key v : list Z) : Prop := ∀ msg, toAddress (recover (sign msg key) msg) = v.

Lemma ready_keys rd h ps :
  mempool_inv rd h → round_ready rd ps → NoDup (randomList_ rd) → NoDup (pair_keys ps).
Proof.
  intros _ (_ & Hps) Hnd. apply NoDup_alt. intros i j x Hi Hj. unfold pair_keys in Hi, Hj.
  change (map ?g ps) with (g <$> ps) in Hi, Hj. rewrite list_lookup_fmap in Hi, Hj.
  destruct (ps !! i) as [p|] eqn:Ei; [|done]. destruct (ps !! j) as [q|] eqn:Ej; [|done].
  cbn in Hi, Hj. injection Hi as Hi. injection Hj as Hj.
  destruct (Hps _ _ Ei) as (Hri & _ & Hmi & _). destruct (Hps _ _ Ej) as (Hrj & _ & Hmj & _).
  rewrite Hi in Hmi. rewrite Hj, Hmi in Hmj. injection Hmj as E. rewrite <- E in Hrj.
  assert (Heq := NoDup_lookup _ _ _ _ Hnd Hri Hrj). lia.
Qed.

Lemma make_block_valid (s : ST) l ps key now :
  last (chain_ (storage_ s)) = Some l → mempool_inv (rdpos_ s) (nHeight_ l) → round_ready (rdpos_ s) ps →
  NoDup (randomList_ (rdpos_ s)) → Z.of_nat (minValidators_ (rdpos_ s)) * 2 < 2 ^ 32 → (∃ v, randomList_ (rdpos_ s) !! 0%nat = Some v ∧ signs_as key v) →
  timestamp_ l ≤ now → pool_keyed (mempool_ s) →
  validateNextBlock s (make_block s l (map fst ps) (map snd ps) key now) = Ok true.
Proof.
  intros Hlast Hinv Hready Hnd Hmin (v & Hv & Hkey) Hnow Hpool. apply validateNextBlock_iff.
  destruct (make_block_fields s l (map fst ps) (map snd ps) key now Hnow) as (F1 & F2 & F3 & F4 & F5 & F6 & msg & F7).
  exists l. split_and!; [done|done|done|by rewrite F4| |].
  - apply validateBlock_content; [done|]. split; [done|]. split; [by rewrite F7, Hkey|]. split.
    + rewrite F5, F2. apply Forall_forall. intros tx Hin.
      assert (Hm : ∃ k, validatorMempool_ (rdpos_ s) !! k = Some tx).
      { rewrite elem_of_app in Hin. destruct Hin as [Hin|Hin]; apply list_elem_of_fmap in Hin as (p & -> & [k Hk]%list_elem_of_lookup);
          destruct (proj2 Hready _ _ Hk) as (_ & _ & ? & ?); eauto. }
      destruct Hm as [k Hk]. by destruct (proj1 Hinv _ _ Hk) as (_ & -> & _).
    + exists ps. split; [done|]. split; [apply Hready|]. split; [by eapply ready_keys|]. intros k p Hk.
      by destruct (proj2 Hready _ _ Hk) as (? & ? & _).
  - rewrite F6. apply Forall_forall. intros tx ([k x] & -> & Hk%in_order_elem)%list_elem_of_fmap. left. cbn [snd].
    rewrite (Hpool _ _ Hk), Hk. by eexists.
Qed.

(** *** The transactions of the mempool, as a list *)

Lemma pool_txs (m : gmap (list Z) TxBlock) tx : pool_keyed m → tx ∈ (in_order m).*2 ↔ m !! hash_ tx = Some tx.
Proof.
  intros Hk. rewrite list_elem_of_fmap. split.
  - intros ([k x] & -> & Hx%in_order_elem). cbn [snd]. by rewrite (Hk _ _ Hx).
  - intros Hx. exists (hash_ tx, tx). split; [done|]. by apply in_order_elem.
Qed.

Lemma NoDup_pool_by {A} (f : TxBlock → A) (m : gmap (list Z) TxBlock) :
  (∀ k k' tx tx', m !! k = Some tx → m !! k' = Some tx' → f tx = f tx' → k = k') → NoDup (map f (in_order m).*2).
Proof.
  intros Hf. change (map f (in_order m).*2) with (f <$> (in_order m).*2). rewrite <- list_fmap_compose.
  apply NoDup_fmap_2_strong; [|apply (NoDup_fmap_1 fst), in_order_keys].
  intros [k tx] [k' tx'] H1%in_order_elem H2%in_order_elem E. cbn in E. assert (k = k') as <- by by eapply Hf.
  rewrite H1 in H2. by injection H2 as <-.
Qed.

Lemma NoDup_pool_from (m : gmap (list Z) TxBlock) :
  pool_keyed m → (∀ k k' tx tx', m !! k = Some tx → m !! k' = Some tx' → from_ tx = from_ tx' → k = k') →
  NoDup (map from_ (in_order m).*2).
Proof. intros _. apply NoDup_pool_by. Qed.

Lemma NoDup_pool_hash (m : gmap (list Z) TxBlock) : pool_keyed m → NoDup (map hash_ (in_order m).*2).
Proof. intros Hk. apply NoDup_pool_by. intros k k' tx tx' H1%Hk H2%Hk E. congruence. Qed.

(** A valid block is processed, and the end of [publish] compares it with the latest. *)
Lemma publish_valid b (s : ST) :
  validateNextBlock s b = Ok true →
  ∃ r s', publish b s = (r, s') ∧
    (r ≠ Throw Undefined → ∃ r1 s1, processNextBlock chainOwner chainId b s = (r1, s1) ∧ r1 ≠ Throw Undefined ∧
       (r1 = Ok tt → last (chain_ (storage_ s1)) = Some b → r = Ok b ∧ s' = s1)).
Proof.
  intros Hval. unfold publish. unfold mbind' at 1, mget at 1. unfold mbind' at 1, mlift at 1. rewrite Hval.
  unfold mbind' at 1. cbn [negb mthrow_if mret']. unfold mbind' at 1.
  destruct (processNextBlock chainOwner chainId b s) as [[[]|e] s1] eqn:E.
  - unfold mbind' at 1, mget at 1. unfold mbind' at 1, mlift at 1, latest. destruct (last (chain_ (storage_ s1))) as [b'|] eqn:El.
    + unfold mbind'. destruct (mthrow_if _ _ _) as [[[]|e] s2] eqn:Et.
      * eexists _, _. split; [done|]. intros _. exists (Ok tt), s1. split_and!; [done|done|]. intros _ Hl. rewrite El in Hl. injection Hl as ->.
        rewrite bool_decide_eq_false_2 in Et by auto. cbn in Et. by injection Et as <-.
      * eexists _, _. split; [done|]. intros _. exists (Ok tt), s1. split_and!; [done|done|]. intros _ Hl. rewrite El in Hl. injection Hl as ->.
        rewrite bool_decide_eq_false_2 in Et by auto. discriminate Et.
    + eexists _, _. split; [done|]. intros Hn. by destruct Hn.
  - eexists _, _. split; [done|]. intros Hn. exists (Throw e), s1. split_and!; [done| |done]. intros [= ->]. by apply Hn.
Qed.
End producer.

Section properties.
Context {V T : Type} {SV : SafeVariable V T} {DBI : RocksDB} {LS : LibSecp256k1} {BB : BoostBits} {KC : Keccak}
  {VM : EVMC} {BR : BoostResidue} {CT : ContractTypes (V := V)} {HO : HashOrder}.
Variables (chainOwner : list Z) (chainId : Z).
Abbreviation ST := (State (V := V)).

(** C29: When the validator mempool holds the commitments and the openings of the round and it is the node's turn, [doValidatorBlock]
    ends: the block it makes is valid, holds the whole mempool, is appended to the chain and is the one that is
    broadcast. The transactions of the mempool are transfers, calls and creations on the EVM ([plain_tx]), each can be paid
    ([pool_ok]), and no two are from one sender; nothing is pending in the host ([settled]) or in the contracts ([quiet]), the
    balances add up to less than [2^255] ([modest]), and the clock is not behind the latest block. *)
Theorem producer_appends (s : ST) l ps key now fuel :
  last (chain_ (storage_ s)) = Some l → mempool_inv (rdpos_ s) (nHeight_ l) → round_ready (rdpos_ s) ps →
  NoDup (randomList_ (rdpos_ s)) → Z.of_nat (minValidators_ (rdpos_ s)) * 2 < 2 ^ 32 →
  (∃ v, randomList_ (rdpos_ s) !! 0%nat = Some v ∧ signs_as key v) → timestamp_ l ≤ now →
  settled (evmHost_ s) → modest (balance_at (evmHost_ s)) → quiet (contractManager_ s) → pool_ok s →
  (∀ k tx, mempool_ s !! k = Some tx → plain_tx s tx) →
  (∀ k k' tx tx', mempool_ s !! k = Some tx → mempool_ s !! k' = Some tx' → from_ tx = from_ tx' → k = k') →
  (minValidators_ (rdpos_ s) ≤ fuel)%nat →
  ∃ r s', doValidatorBlock chainOwner chainId fuel key now s = Some (r, s') ∧
    (r ≠ Throw Undefined → ∃ b, r = Ok b ∧ chain_ (storage_ s') = chain_ (storage_ s) ++ [b] ∧ validateNextBlock s b = Ok true ∧
       txValidators_ b = map fst ps ++ map snd ps ∧ (∀ tx, tx ∈ txs_ b ↔ mempool_ s !! hash_ tx = Some tx) ∧
       mempool_ s' = ∅).
Proof.
  intros Hlast Hinv Hready Hnd Hmin Hturn Hnow Hset Hmod Hq Hpool Hplain Hfrom Hfuel.
  assert (Hkeyed : pool_keyed (mempool_ s)) by (intros k tx Hk; by apply Hpool in Hk as [? _]).
  destruct (order_txs_ready s _ ps fuel Hinv Hready Hfuel) as [O1 O2].
  unfold doValidatorBlock. rewrite O1, O2. unfold mbind' at 1, mlift at 1, latest. rewrite Hlast. cbv beta iota.
  set (b := make_block s l (map fst ps) (map snd ps) key now).
  assert (Hval : validateNextBlock s b = Ok true) by by apply make_block_valid.
  destruct (make_block_fields s l (map fst ps) (map snd ps) key now Hnow) as (_ & _ & _ & _ & F5 & F6 & _). fold b in F5, F6.
  destruct (publish_valid chainOwner chainId b s Hval) as (r & s' & Hrun & Hout). exists r, s'. split; [by rewrite Hrun|].
  intros Hr. destruct (Hout Hr) as (r1 & s1 & E1 & Hr1 & Hend).
  assert (Hin : ∀ tx, tx ∈ txs_ b ↔ mempool_ s !! hash_ tx = Some tx) by (intros tx; rewrite F6; by apply pool_txs).
  assert (Happ := block_appended chainOwner chainId b s r1 s1 Hval Hset Hmod Hq Hpool).
  destruct Happ as (-> & Hchain & Hpool' & Hleft & _).
  - intros tx tx0 Htx%Hin H0. congruence.
  - apply Forall_forall. intros tx Htx%Hin. by eapply Hplain.
  - rewrite F6. apply NoDup_pool_from; [done|exact Hfrom].
  - rewrite F6. by apply NoDup_pool_hash.
  - done.
  - done.
  - destruct (Hend eq_refl) as [-> ->]; [by rewrite Hchain, last_snoc|]. exists b. split_and!; try done.
    apply map_empty. intros k. destruct (mempool_ s1 !! k) as [tx|] eqn:Ek; [|done]. exfalso.
    destruct (Hleft _ _ Ek) as [Hk Hn]. apply Hn. apply list_elem_of_In, in_map_iff. exists tx.
    split; [by apply Hkeyed|]. apply list_elem_of_In, Hin. by rewrite (Hkeyed _ _ Hk).
Qed.

(** [addValidatorTx] does not look at the function of a transaction: a validator of the round may fill its two places
    with others. Then the search for its commitment never ends, and the validator whose turn it is makes no block. *)
Theorem producer_hangs (s : ST) found v key now fuel :
  (length found < minValidators_ (rdpos_ s))%nat →
  (∀ k tx, found !! k = Some tx →
     find_tx (randomList_ (rdpos_ s)) (1 + k) randomHashHash (in_order (validatorMempool_ (rdpos_ s))).*2 = Ok (Some tx)) →
  randomList_ (rdpos_ s) !! (1 + length found)%nat = Some v →
  (∀ k t, validatorMempool_ (rdpos_ s) !! k = Some t → vt_from t = v → ∃ g, vt_functor t = Ok g ∧ g ≠ randomHashHash) →
  doValidatorBlock chainOwner chainId fuel key now s = None.
Proof.
  intros Hn Hfound Hv Hnone. unfold doValidatorBlock, order_txs.
  rewrite (collect_stuck _ _ _ found); [done|done|done|]. apply (find_tx_none _ _ _ _ _ Hv).
  intros t [k Hk]%pool_elem. by eapply Hnone.
Qed.
End properties.

(** ** Witnesses *)

Definition toy_maker : list Z := @toAddress toy_hash toy_pubkey.
Definition toy_partner : list Z := replicate 20 1.
Definition toy_seed_pair : TxValidator * TxValidator :=
  (toy_val_from toy_partner (randomHashHash ++ @sha3 toy_hash (replicate 32 6)) [1],
   toy_val_from toy_partner (randomSeedHash ++ replicate 32 6) [2]).

Definition toy_pair_rdpos : rdPoS := mkRdPoS [toy_maker; toy_partner] [toy_maker; toy_partner] ∅ zero_hash zero_hash 1.
Definition toy_full (p : TxValidator * TxValidator) : rdPoS := (addValidatorTx 6 p.2 (addValidatorTx 6 p.1 toy_pair_rdpos).2).2.

Lemma toy_full_inv p : mempool_inv (toy_full p) 6.
Proof.
  unfold toy_full. destruct (addValidatorTx 6 p.1 _) as [r1 rd1] eqn:E1. cbn [snd].
  destruct (addValidatorTx 6 p.2 rd1) as [r2 rd2] eqn:E2. eapply addValidatorTx_inv; [|exact E2].
  eapply addValidatorTx_inv; [|exact E1]. by apply mempool_inv_empty.
Qed.

Definition toy_round_node (p : TxValidator * TxValidator) : State (V := SafeCell Z) (DBI := ref_db) :=
  let tx := toy_hashed 1 (toy_addr 1) 10 in
  with_rdpos (toy_chain_node toy_accounts {[ hash_ tx := tx ]}) (toy_full p).

Abbreviation toy_produce := (@doValidatorBlock (SafeCell Z) Z cell_SafeVariable ref_db toy_secp boost_ref toy_hash toy_evm residue_ref
  toy_types order_ref toy_owner 8080).

Lemma toy_pool_at p k tx :
  mempool_ (toy_round_node p) !! k = Some tx → k = toy_word 1 ∧ tx = toy_hashed 1 (toy_addr 1) 10.
Proof. intros H. cbn in H. by apply lookup_singleton_Some in H as [<- <-]. Qed.

Lemma producer_appends_witness :
  ∃ r s', toy_produce 1 (replicate 32 1) 2000 (toy_round_node toy_seed_pair) = Some (r, s') ∧
    (r ≠ Throw Undefined → ∃ b, r = Ok b ∧ chain_ (storage_ s') = [toy_latest; b] ∧
       @validateNextBlock (SafeCell Z) ref_db toy_hash (toy_round_node toy_seed_pair) b = Ok true ∧
       txValidators_ b = [toy_seed_pair.1; toy_seed_pair.2] ∧
       (∀ tx, tx ∈ txs_ b ↔ mempool_ (toy_round_node toy_seed_pair) !! hash_ tx = Some tx) ∧ mempool_ s' = ∅).
Proof.
  apply (@producer_appends (SafeCell Z) Z cell_SafeVariable ref_db toy_secp boost_ref toy_hash toy_evm residue_ref
    toy_types order_ref toy_owner 8080 (toy_round_node toy_seed_pair) toy_latest [toy_seed_pair]).
  - done.
  - apply toy_full_inv.
  - split; [by vm_compute|]. intros [|k] p; [|done]. intros [= <-]. split; [by vm_compute|]. split.
    + split; [done|]. by exists (replicate 32 6).
    + split; by vm_compute.
  - by_compute.
  - by vm_compute.
  - exists toy_maker. split; [by vm_compute|]. intros msg. by vm_compute.
  - done.
  - apply toy_accounts_settled.
  - apply toy_accounts_modest.
  - apply toy_manager_quiet.
  - intros k tx [-> ->]%toy_pool_at. split; [done|]. eexists _, _. by split_and!; [vm_compute..|].
  - intros k tx [-> ->]%toy_pool_at. split; [by split_and!|]. split; [by vm_compute|done].
  - by intros k k' tx tx' [-> _]%toy_pool_at [-> _]%toy_pool_at _.
  - by vm_compute.
Defined.

(** The node makes the block, and hangs when its partner has filled its places with something else. *)
Lemma toy_round_is_made :
  match toy_produce 1 (replicate 32 1) 2000 (toy_round_node toy_seed_pair) with
  | Some (Ok b, s') => chain_ (storage_ s') = [toy_latest; b]
  | _ => False
  end.
Proof. by vm_compute. Qed.

Definition toy_bad_pair : TxValidator * TxValidator :=
  (toy_val_from toy_partner [1; 2; 3; 4] [1], toy_val_from toy_partner [5; 6; 7; 8] [2]).

Lemma producer_hangs_witness :
  can_create_block (toy_full toy_bad_pair) = true ∧
  ∀ fuel, toy_produce fuel (replicate 32 1) 2000 (toy_round_node toy_bad_pair) = None.
Proof.
  split; [by vm_compute|]. intros fuel.
  apply (@producer_hangs (SafeCell Z) Z cell_SafeVariable ref_db toy_secp boost_ref toy_hash toy_evm residue_ref
    toy_types order_ref toy_owner 8080 (toy_round_node toy_bad_pair) [] toy_partner).
  - by vm_compute.
  - intros [|k] tx Hk; discriminate Hk.
  - by vm_compute.
  - intros k t Hk _. assert (Hin : t ∈ [toy_bad_pair.1; toy_bad_pair.2]).
    { assert (E : (map_to_list (validatorMempool_ (rdpos_ (toy_round_node toy_bad_pair)))).*2 ⊆ [toy_bad_pair.1; toy_bad_pair.2])
        by by_compute.
      apply E, list_elem_of_fmap. exists (k, t). split; [done|]. by apply elem_of_map_to_list. }
    apply elem_of_cons in Hin as [->|Hin%list_elem_of_singleton]; [|rewrite Hin]; eexists; by split; [vm_compute|].
Defined.
