(* ===== verification/P2PFlood.v ===== *)
(** * P2PFlood: how messages spread (the managers of P2PManager)

    Flood control: a node sends a broadcast to each of its peers at most once.  A block that one node makes is taken
    over by a peer that has the same chain.  What a peer can do to a node with one message. *)

From S2P Require Import Prelude Bytes SizedInts Hashing ECDSA SafeBase SafeCell Tx TxValidator Randomness Block P2PEncoding RdPoS Abi DB Event Storage EvmHost ContractManager State StateTx StateBlock P2PManager Producer.

(** The number in the identifier of a broadcast. *)
Definition broadcast_id (message : Message) : option Z :=
  match msg_type message, (i ← msg_id message; bytesToUint64 i) with
  | Ok type, Ok id => if type =? Broadcasting then Some id else None
  | _, _ => None
  end.

(** How often a broadcast has been written to the sessions of a node. *)
Definition copies (node : NodeID) (id : Z) (sent : list (NodeID * Message)) : nat :=
  length (filter (λ p, p.1 = node ∧ broadcast_id p.2 = Some id) sent).

Lemma copies_app node id l l' : copies node id (l ++ l') = (copies node id l + copies node id l')%nat.
Proof. unfold copies. by rewrite filter_app, length_app. Qed.

Lemma copies_none node id l : Forall (λ p, broadcast_id p.2 ≠ Some id) l → copies node id l = 0%nat.
Proof.
  induction 1 as [|p l Hp _ IH]; [done|]. unfold copies. rewrite filter_cons, decide_False; [exact IH|]. by intros [_ ?].
Qed.

(** A message to each of some different nodes. *)
Lemma copies_all node id message (l : list NodeID) :
  NoDup l → (copies node id (map (λ n, (n, message)) l) ≤ 1)%nat.
Proof.
  intros Hnd. destruct (decide (node ∈ l)) as [Hin|Hout].
  - apply list_elem_of_split in Hin as (l1 & l2 & ->). rewrite map_app, copies_app. cbn [map].
    apply NoDup_app in Hnd as (_ & Hd & [Hn _]%NoDup_cons).
    assert (Hz : ∀ l', node ∉ l' → copies node id (map (λ n, (n, message)) l') = 0%nat).
    { intros l'. induction l' as [|x l' IH]; [done|]. rewrite not_elem_of_cons. intros [Hx Hl]. unfold copies in *.
      cbn [map]. rewrite filter_cons, decide_False; [by apply IH|]. cbn. by intros [-> _]. }
    rewrite Hz by (intros H; apply (Hd node H); left). unfold copies. rewrite filter_cons. fold (copies node id (map (λ n, (n, message)) l2)).
    case_decide; cbn [length]; [change (length _) with (copies node id (map (λ n, (n, message)) l2))|
      change (length _) with (copies node id (map (λ n, (n, message)) l2))]; rewrite Hz by done; lia.
  - replace (copies _ _ _) with 0%nat; [lia|]. symmetry. unfold copies. clear Hnd. induction l as [|x l IH]; [done|].
    apply not_elem_of_cons in Hout as [Hx Hl]. cbn [map]. rewrite filter_cons, decide_False; [by apply IH|]. cbn. by intros [-> _].
Qed.

(** A message that an encoder built has the type it was built with. *)
Lemma build_type type id command data message :
  build type id command data = Ok message → is_type type → msg_type message = Ok type.
Proof.
  unfold build. intros (t & Ht & H)%result_bind_ok Hty. apply result_bind_ok in H as (c & _ & H).
  unfold Message_of in H. destruct (length (t ++ id ++ c ++ data) <? 11)%nat eqn:El; [done|]. cbn in H. injection H as <-.
  apply Nat.ltb_ge in El. unfold msg_type. cbn [rawMessage_].
  assert (t = [type]) as ->.
  { unfold is_type in Hty. assert (type = 0 ∨ type = 1 ∨ type = 2) as [->|[->| ->]] by lia; by injection Ht as <-. }
  unfold subspan. rewrite decide_True, result_bind_Ok by lia.
  unfold is_type in Hty. assert (type = 0 ∨ type = 1 ∨ type = 2) as [->|[->| ->]] by lia; done.
Qed.

Lemma not_broadcast message type id : msg_type message = Ok type → type ≠ Broadcasting → broadcast_id message ≠ Some id.
Proof.
  intros Ht Hne. unfold broadcast_id. rewrite Ht. destruct (_ ← _; _) as [k|]; [|done].
  by rewrite (proj2 (Z.eqb_neq _ _)).
Qed.

Section flood.
Context {V T : Type} {SV : SafeVariable V T} {DBI : RocksDB} {LS : LibSecp256k1} {BB : BoostBits} {KC : Keccak}
  {VM : EVMC} {BR : BoostResidue} {CT : ContractTypes (V := V)} {HO : HashOrder} {NO : NodeOrder}.
Variables (chainOwner : list Z) (chainId version : Z).
Abbreviation ST := (State (V := V)).
Abbreviation MG := (Manager (V := V)).

(** What flood control relies on: a broadcast that is not marked has been sent to nobody. *)
Definition flood_inv (m : MG) : Prop :=
  ∀ node id, 0 ≤ broadcasted id m ∧ (copies node id (sent_ m) ≤ 1)%nat ∧ (broadcasted id m ≤ 0 → copies node id (sent_ m) = 0%nat).

Lemma flood_frame m m' :
  flood_inv m → sent_ m' = sent_ m → (∀ id, broadcasted id m ≤ broadcasted id m') → flood_inv m'.
Proof.
  intros Hm Hs Hb node id. rewrite Hs. destruct (Hm node id) as (H0 & H1 & H2). specialize (Hb id).
  split; [lia|]. split; [done|]. intros Hz. apply H2. lia.
Qed.

Lemma keeps_flood_modify f :
  (∀ m : MG, sent_ (f m) = sent_ m ∧ broadcastedMessages_ (f m) = broadcastedMessages_ m) → keeps flood_inv (mmodify f).
Proof.
  intros Hf. apply keeps_modify. intros m Hm. destruct (Hf m) as [H1 H2]. apply (flood_frame m); [done|done|].
  intros id. unfold broadcasted. by rewrite H2.
Qed.

Lemma keeps_on_state {A} (c : M ST A) : keeps flood_inv (on_state c).
Proof. intros m Hm. unfold on_state. destruct (c (state_ m)) as [r s]. by apply (flood_frame m). Qed.

(** Anything but a broadcast may be written. *)
Lemma keeps_session_write nodeId message type :
  msg_type message = Ok type → type ≠ Broadcasting → keeps flood_inv (session_write (V := V) nodeId message).
Proof.
  intros Ht Hne m Hm node id. cbn [snd session_write mmodify sent_ with_sent].
  rewrite copies_app, (copies_none node id [(nodeId, message)]), Nat.add_0_r by by apply Forall_singleton, (not_broadcast _ type).
  apply Hm.
Qed.

(** The loop over the sessions. *)
Lemma write_all message (l : list (NodeID * Z)) (m : MG) :
  mforeach (λ p : NodeID * Z, if p.2 =? NORMAL_NODE then session_write p.1 message else mret' tt) l m =
    (Ok tt, with_sent (sent_ m ++ map (λ n, (n, message)) (filter (λ p, p.2 = NORMAL_NODE) l).*1) m).
Proof.
  revert m. induction l as [|[n t] l IH]; intros m; cbn [mforeach].
  - rewrite app_nil_r. by destruct m.
  - unfold mbind'. cbn [fst snd]. rewrite filter_cons. destruct (Z.eqb_spec t NORMAL_NODE) as [->|Hne].
    + rewrite decide_True by done. unfold session_write at 1, mmodify at 1. rewrite IH. cbn. by rewrite <- app_assoc.
    + rewrite decide_False by done. unfold mret' at 1. by rewrite IH.
Qed.

Lemma normal_nodes_NoDup (m : MG) : NoDup (filter (λ p, p.2 = NORMAL_NODE) (nodes_in_order (sessions_ m))).*1.
Proof.
  assert (Hnd : NoDup (nodes_in_order (sessions_ m)).*1) by (rewrite nodes_in_order_perm; apply NoDup_fst_map_to_list).
  revert Hnd. generalize (nodes_in_order (sessions_ m)) as l. induction l as [|p l IH]; [done|].
  rewrite fmap_cons, NoDup_cons, filter_cons. intros [Hp Hl]. case_decide; [|by apply IH].
  rewrite fmap_cons, NoDup_cons. split; [|by apply IH]. intros (q & E & [_ Hq]%list_elem_of_filter)%list_elem_of_fmap.
  apply Hp, list_elem_of_fmap. by exists q.
Qed.

Lemma keeps_broadcastMessage message : keeps flood_inv (broadcastMessage (V := V) message).
Proof.
  apply keeps_get_bind. intros m Hm. destruct (negb (started_ m)); [done|].
  unfold mbind' at 1, mlift at 1. destruct (msg_id message) as [i|] eqn:Hi; [|done].
  unfold mbind' at 1, mlift at 1. destruct (bytesToUint64 i) as [id|] eqn:Hk; [|done].
  destruct (Z.ltb_spec 0 (broadcasted id m)) as [|Hz]; [done|].
  unfold mbind' at 1, mmodify at 1. rewrite write_all. cbn [snd]. intros node k. cbn [sent_ with_sent with_broadcasted].
  rewrite copies_app. destruct (Hm node k) as (H0 & H1 & H2).
  assert (Hnew : broadcasted k (with_sent (V := V) [] (with_broadcasted (<[id := broadcasted id m + 1]> (broadcastedMessages_ m)) m)) =
    if decide (k = id) then broadcasted id m + 1 else broadcasted k m).
  { unfold broadcasted. cbn [broadcastedMessages_ with_sent with_broadcasted]. case_decide as Hd.
    - by rewrite Hd, lookup_insert_eq.
    - by rewrite lookup_insert_ne. }
  change (broadcasted k _) with (broadcasted k (with_sent (V := V) [] (with_broadcasted (<[id := broadcasted id m + 1]> (broadcastedMessages_ m)) m))).
  rewrite Hnew. case_decide as Hd; [subst k|].
  - rewrite H2 by done. split; [lia|]. split; [|lia]. apply copies_all, normal_nodes_NoDup.
  - rewrite (copies_none node k (map _ _)), Nat.add_0_r; [done|].
    apply Forall_map, Forall_forall. intros n _. cbn. unfold broadcast_id. rewrite Hi. cbn.
    destruct (msg_type message); [|done]. rewrite Hk. case_match; [|done]. by intros [= ->].
Qed.

#[local] Hint Resolve keeps_broadcastMessage keeps_on_state : keeps.
#[local] Hint Extern 1 (keeps flood_inv (mmodify _)) => apply keeps_flood_modify; done : keeps.

Ltac keeps_bind_auto := apply keeps_bind; [auto with keeps|intros ?].

Lemma keeps_disconnect nodeId : keeps flood_inv (disconnectSession (V := V) nodeId).
Proof. keeps_bind_auto. destruct (negb _); [auto with keeps|]. case_decide; auto with keeps. Qed.
#[local] Hint Resolve keeps_disconnect : keeps.

Lemma keeps_answerSession nodeId message :
  msg_type message = Ok Answering → keeps flood_inv (answerSession (V := V) nodeId message).
Proof.
  intros Ht. keeps_bind_auto. destruct (negb _); [auto with keeps|]. case_decide; [auto with keeps|].
  by eapply keeps_session_write.
Qed.

Lemma answer_message_type request command data a :
  answer_message request command data = Ok a → msg_type a = Ok Answering.
Proof. intros (id & _ & H)%result_bind_ok. by eapply build_type. Qed.

Lemma keeps_plain_handler valid (answer : MG → result Message) nodeId :
  (∀ m a, answer m = Ok a → msg_type a = Ok Answering) → keeps flood_inv (plain_handler valid answer nodeId).
Proof.
  intros Ha. keeps_bind_auto. destruct (negb _); [auto with keeps|]. apply keeps_get_bind. intros m Hm.
  apply (keeps_lift_bind flood_inv (answer m) (answerSession nodeId)); [|done]. intros x Hok. eapply keeps_answerSession, Ha, Hok.
Qed.

Lemma keeps_handleInfoRequest now nodeId message : keeps flood_inv (handleInfoRequest (V := V) version now nodeId message).
Proof.
  keeps_bind_auto. apply keeps_get_bind. intros m Hm.
  apply (keeps_lift_bind flood_inv (latestBlock ← latest (storage_ (state_ m)); Answer_info message version now latestBlock)
    (answerSession nodeId)); [|done].
  intros x (l & _ & Hx)%result_bind_ok. by eapply keeps_answerSession, answer_message_type.
Qed.
#[local] Hint Resolve keeps_handleInfoRequest : keeps.

Lemma keeps_handleRequest now nodeId message : keeps flood_inv (handleRequest (V := V) version now nodeId message).
Proof.
  keeps_bind_auto. repeat case_match; auto with keeps; apply keeps_plain_handler; intros m x; apply answer_message_type.
Qed.

Lemma keeps_handleAnswer nodeId message : keeps flood_inv (handleAnswer (V := V) nodeId message).
Proof.
  keeps_bind_auto. case_bool_decide; [|auto with keeps]. unfold answer_handler. keeps_bind_auto. keeps_bind_auto.
  case_match; auto with keeps.
Qed.

Lemma keeps_or_disconnect nodeId (body : M MG unit) : keeps flood_inv body → keeps flood_inv (or_disconnect nodeId body).
Proof. intros Hb. apply keeps_mtry; [done|]. intros [|]; auto with keeps. Qed.

Lemma keeps_broadcast_handler nodeId message : keeps flood_inv (broadcast_handler (V := V) chainOwner chainId nodeId message).
Proof.
  keeps_bind_auto. repeat case_match; auto with keeps.
  - apply keeps_or_disconnect. keeps_bind_auto. keeps_bind_auto. case_match; auto with keeps.
  - apply keeps_or_disconnect. keeps_bind_auto. keeps_bind_auto. case_decide; auto with keeps.
  - apply keeps_mtry; [|intros [[]|]; auto with keeps]. keeps_bind_auto. keeps_bind_auto. case_match; [auto with keeps|].
    keeps_bind_auto. case_match; auto with keeps.
Qed.

Lemma keeps_handleBroadcast nodeId message : keeps flood_inv (handleBroadcast (V := V) chainOwner chainId nodeId message).
Proof.
  apply keeps_get_bind. intros m Hm. destruct (negb (started_ m)); [done|].
  unfold mbind' at 1, mlift at 1. destruct (msg_id message) as [i|]; [|done].
  unfold mbind' at 1, mlift at 1. destruct (bytesToUint64 i) as [id|]; [|done].
  destruct (broadcastedMessages_ m !! id) as [n|] eqn:En; [|by apply keeps_broadcast_handler].
  destruct (0 <? n); [|by apply keeps_broadcast_handler]. destruct (n =? 1); [|done].
  apply (flood_frame m); [done|done|]. intros k. unfold broadcasted. cbn [broadcastedMessages_ with_broadcasted snd mmodify].
  destruct (decide (id = k)) as [->|Hne]; [rewrite En, lookup_insert_eq; cbn; lia|by rewrite lookup_insert_ne].
Qed.

Lemma keeps_handleMessage now nodeId message : keeps flood_inv (handleMessage (V := V) chainOwner chainId version now nodeId message).
Proof.
  keeps_bind_auto. destruct (negb _); [auto with keeps|]. keeps_bind_auto.
  repeat case_match; auto using keeps_handleRequest, keeps_handleAnswer, keeps_handleBroadcast with keeps.
Qed.

Lemma keeps_sendRequestTo nodeId message :
  msg_type message = Ok Requesting → keeps flood_inv (sendRequestTo (V := V) nodeId message).
Proof.
  intros Ht. keeps_bind_auto. destruct (negb _); [auto with keeps|]. case_match; [|auto with keeps].
  keeps_bind_auto. case_match; [auto with keeps|]. keeps_bind_auto. keeps_bind_auto. keeps_bind_auto.
  apply keeps_bind; [by eapply keeps_session_write|]. auto with keeps.
Qed.

(** ** A node in operation *)

(** What happens to a manager: messages of its peers, sessions that come and go, what its own threads send, and the
    other threads that change the state of the node. *)
Inductive manager_step : MG → MG → Prop :=
| step_message now nodeId message m : manager_step m (handleMessage chainOwner chainId version now nodeId message m).2
| step_register nodeId hostType m : manager_step m (registerSession nodeId hostType m).2
| step_unregister nodeId m : manager_step m (unregisterSession nodeId m).2
| step_broadcast message m : manager_step m (broadcastMessage message m).2
| step_request nodeId message m : msg_type message = Ok Requesting → manager_step m (sendRequestTo nodeId message m).2
| step_state s m : manager_step m (with_state s m)
| step_start m : manager_step m (manager_start m)
| step_stop m : manager_step m (manager_stop m).

Definition manager_new (s : ST) : MG := mkManager false ∅ ∅ ∅ s [].

Inductive manager_reachable : MG → Prop :=
| manager_fresh s : manager_reachable (manager_new s)
| manager_next m m' : manager_reachable m → manager_step m m' → manager_reachable m'.

Lemma flood_step m m' : flood_inv m → manager_step m m' → flood_inv m'.
Proof.
  intros Hm Hs. destruct Hs as [now n message m|n t m|n m|message m|n message m Ht|s m|m|m].
  - by apply keeps_handleMessage.
  - revert m Hm. change (keeps flood_inv (registerSession (V := V) n t)). keeps_bind_auto.
    destruct (negb _); [auto with keeps|]. case_decide; auto with keeps.
  - revert m Hm. change (keeps flood_inv (unregisterSession (V := V) n)). keeps_bind_auto.
    destruct (negb _); [auto with keeps|]. case_decide; auto with keeps.
  - by apply keeps_broadcastMessage.
  - by apply keeps_sendRequestTo.
  - by apply (flood_frame m).
  - by apply (flood_frame m).
  - apply (flood_frame m); [done|unfold manager_stop; by destruct (started_ m)..].
Qed.

(** C37: Flood control: whatever messages arrive, and however its sessions change, a node sends a broadcast with a given
    identifier to each of its peers at most once. *)
Theorem flood_once m node id : manager_reachable m → (copies node id (sent_ m) ≤ 1)%nat.
Proof.
  intros Hr. enough (Hinv : flood_inv m) by apply (Hinv node id). induction Hr as [s|m m' _ IH Hs]; [|by eapply flood_step].
  intros n k. split_and!; [done|cbn; lia|done].
Qed.

(** ** Answers *)

(** An answer to a request that was never made closes the session and changes nothing else; the first answer to a
    request is stored; a second one, by whichever peer, throws out of the handler. *)
Theorem answers_are_matched now nodeId id command data (m : MG) :
  started_ m = true → length id = 8%nat → command ∈ [Ping; Info; RequestNodes; RequestValidatorTxs; RequestTxs] →
  let message := P2PEncoding.mkMessage (raw Answering id command data) in
  handleMessage chainOwner chainId version now nodeId message m =
    match requests_ m !! id with
    | None => (Ok tt, with_sessions (delete nodeId (sessions_ m)) m)
    | Some r =>
        match req_answer r with
        | None => (Ok tt, with_requests (<[id := mkRequest (req_command r) (req_id r) (req_nodeId r) (req_message r) (Some message)]> (requests_ m)) m)
        | Some _ => (Throw FutureError, m)
        end
    end.
Proof.
  intros Hst Hid Hc message. assert (Hcmd : is_command command).
  { unfold is_command. rewrite !elem_of_cons, elem_of_nil in Hc. destruct Hc as [->|[->|[->|[->|[->|[]]]]]]; split; done. }
  unfold handleMessage. unfold mbind' at 1, mget at 1. rewrite Hst. cbn [negb].
  unfold mbind' at 1, mlift at 1. unfold message at 1. rewrite msg_type_raw by done.
  change (Answering =? Requesting) with false. change (Answering =? Answering) with true. cbv iota.
  unfold handleAnswer. unfold mbind' at 1, mlift at 1. unfold message at 1. rewrite msg_command_raw by done.
  rewrite bool_decide_eq_true_2 by done. unfold answer_handler. unfold mbind' at 1, mget at 1.
  unfold mbind' at 1, mlift at 1. unfold message at 1. rewrite msg_id_raw by done.
  destruct (requests_ m !! id) as [r|].
  - unfold setAnswer. by destruct (req_answer r).
  - unfold mbind', disconnectSession, mget. unfold mbind'. rewrite Hst. cbn [negb]. case_decide as Hs; [|done].
    cbn. f_equal. rewrite delete_id by done. by destruct m.
Qed.

(** ** Blocks *)

Lemma handle_broadcast_raw now nodeId command data k (m : MG) :
  started_ m = true → is_command command → bytesToUint64 (uint64ToBytes k) = Ok k → broadcasted k m ≤ 0 →
  let message := P2PEncoding.mkMessage (raw Broadcasting (uint64ToBytes k) command data) in
  handleMessage chainOwner chainId version now nodeId message m = broadcast_handler chainOwner chainId nodeId message m.
Proof.
  intros Hst Hc Hk Hb message. assert (Hid : length (uint64ToBytes k) = 8%nat) by apply uint64_len.
  unfold handleMessage. unfold mbind' at 1, mget at 1. rewrite Hst. cbn [negb].
  unfold mbind' at 1, mlift at 1. unfold message at 1. rewrite msg_type_raw by done.
  change (Broadcasting =? Requesting) with false. change (Broadcasting =? Answering) with false.
  change (Broadcasting =? Broadcasting) with true. cbv iota. unfold handleBroadcast. unfold mbind' at 1, mget at 1. rewrite Hst. cbn [negb].
  unfold mbind' at 1, mlift at 1. unfold message at 1. rewrite msg_id_raw by done. unfold mbind' at 1, mlift at 1. rewrite Hk.
  unfold broadcasted in Hb. destruct (broadcastedMessages_ m !! k) as [n|]; [|done]. cbn [default] in Hb.
  by rewrite (proj2 (Z.ltb_ge _ _)).
Qed.

Lemma broadcastMessage_raw command data k (m : MG) :
  started_ m = true → bytesToUint64 (uint64ToBytes k) = Ok k → broadcasted k m ≤ 0 →
  let message := P2PEncoding.mkMessage (raw Broadcasting (uint64ToBytes k) command data) in
  broadcastMessage message m = (Ok tt,
    with_sent (sent_ m ++ map (λ n, (n, message)) (getSessionsIDs_type NORMAL_NODE m))
      (with_broadcasted (<[k := broadcasted k m + 1]> (broadcastedMessages_ m)) m)).
Proof.
  intros Hst Hk Hb message. unfold broadcastMessage. unfold mbind' at 1, mget at 1. rewrite Hst. cbn [negb].
  unfold mbind' at 1, mlift at 1. unfold message at 1. rewrite msg_id_raw by (apply uint64_len).
  unfold mbind' at 1, mlift at 1. rewrite Hk. rewrite (proj2 (Z.ltb_ge _ _)) by done.
  unfold mbind' at 1, mmodify at 1. by rewrite write_all.
Qed.

(** C25: A broadcast block that is new and valid is appended to the chain of the node and passed on, once, to every normal
    node there is a session with. The block is one that can be written and parsed again, and its transactions are transfers,
    calls and creations on the EVM (not calls of C++ contracts, nor creations under a hash that has a contract already) from different
    senders; the node is between blocks: nothing pending in the host or the contracts, balances that add up to less
    than 2^255, a mempool whose transactions can be paid. (A valid block with two transactions of a sender can stop the
    processing: [overspending_block_halts].) *)
Theorem block_relayed now nodeId b (m : MG) r m' :
  let k := FNVHash (serializeBlock b) in
  let message := P2PEncoding.mkMessage (raw Broadcasting (uint64ToBytes k) BroadcastBlock (serializeBlock b)) in
  started_ m = true → broadcasted k m = 0 →
  Block_header_typed b → Block_sealed b → Block_readable b → bytes_ok (serializeBlock b) →
  blockExists (storage_ (state_ m)) (block_hash_ b) = false → validateNextBlock (state_ m) b = Ok true →
  settled (evmHost_ (state_ m)) → modest (balance_at (evmHost_ (state_ m))) → quiet (contractManager_ (state_ m)) →
  pool_ok (state_ m) → (∀ tx tx0, tx ∈ txs_ b → mempool_ (state_ m) !! hash_ tx = Some tx0 → tx0 = tx) →
  Forall (plain_tx (state_ m)) (txs_ b) → NoDup (map from_ (txs_ b)) → NoDup (map hash_ (txs_ b)) →
  handleMessage chainOwner chainId version now nodeId message m = (r, m') → r ≠ Throw Undefined →
  broadcastBlock b = Ok message ∧ r = Ok tt ∧ chain_ (storage_ (state_ m')) = chain_ (storage_ (state_ m)) ++ [b] ∧
  sent_ m' = sent_ m ++ map (λ n, (n, message)) (getSessionsIDs_type NORMAL_NODE m) ∧ sessions_ m' = sessions_ m ∧
  broadcasted k m' = 1.
Proof.
  intros k message Hst Hb H1 H2 H3 Hok Hnew Hval Hset Hmod Hq Hpool Hsame Hplain Hnf Hnh Hrun Hr.
  assert (Hk : bytesToUint64 (uint64ToBytes k) = Ok k) by (apply bytesToUint64_roundtrip, FNVHash_range, Hok).
  assert (Hmsg : broadcastBlock b = Ok message) by by apply broadcast_ok.
  split; [done|]. revert Hrun. unfold message at 1. rewrite handle_broadcast_raw by (done || lia). fold message.
  unfold broadcast_handler. unfold mbind' at 1, mlift at 1. unfold message at 1. rewrite msg_command_raw by (done || apply uint64_len).
  change (BroadcastBlock =? BroadcastValidatorTx) with false. change (BroadcastBlock =? BroadcastTx) with false.
  change (BroadcastBlock =? BroadcastBlock) with true. cbv iota. unfold handleBlockBroadcast, mtry.
  assert (Hread : read_broadcastBlock message = Ok b).
  { unfold read_broadcastBlock, message. rewrite read_broadcast_spec; [|done|apply uint64_len| |done].
    - rewrite decide_True by done. by apply block_parse_serialize.
    - rewrite uint64ToBytes_encode. apply be_encode_ok. }
  unfold mbind' at 1, mlift at 1. rewrite Hread. unfold mbind' at 1, mget at 1. rewrite Hnew.
  unfold mbind' at 1, mlift at 1. rewrite Hval. unfold mbind' at 1, on_state at 1.
  destruct (processNextBlock chainOwner chainId b (state_ m)) as [r1 s1] eqn:E1. intros Hrun.
  destruct (block_appended chainOwner chainId b (state_ m) r1 s1) as (-> & Hchain & _); try done.
  { intros ->. by injection Hrun as <- _. }
  cbn -[broadcastMessage message] in Hrun. unfold message in Hrun. rewrite broadcastMessage_raw in Hrun by (done || (unfold broadcasted in *; cbn; lia)).
  fold message in Hrun. injection Hrun as <- <-. cbn. split_and!; try done.
  unfold broadcasted in *. cbn. rewrite lookup_insert_eq. cbn. by rewrite Hb.
Qed.

(** Nodes agree on blocks: a block that is valid for a node, with transactions that its accounts can pay, is valid for
    every node with the same latest block, the same accounts and the same round, whatever is in its pools. *)
Theorem peers_agree (s1 s2 : ST) b :
  validateNextBlock s1 b = Ok true → (∀ tx, tx ∈ txs_ b → payable_tx (evmHost_ s1) tx) →
  last (chain_ (storage_ s2)) = last (chain_ (storage_ s1)) → accounts (evmHost_ s2) = accounts (evmHost_ s1) →
  randomList_ (rdpos_ s2) = randomList_ (rdpos_ s1) → minValidators_ (rdpos_ s2) = minValidators_ (rdpos_ s1) →
  validateNextBlock s2 b = Ok true.
Proof.
  intros (l & Hl & Hh & Hp & Ht & Hv & _)%validateNextBlock_iff Hpay Hlast Hacc Hrl Hmv. apply validateNextBlock_iff.
  exists l. split_and!; [congruence|done|done|done| |].
  - rewrite <- Hv. unfold validateBlock. rewrite Hrl, Hmv.
    assert (Ho : ∀ n i txs ps, order_loop n i (rdpos_ s2) txs ps = order_loop n i (rdpos_ s1) txs ps).
    { induction n as [|n IH]; intros i txs ps; [done|]. rewrite !order_loop_S, Hrl, Hmv.
      destruct (read_at txs i); [|done]. rewrite !result_bind_Ok. destruct (read_at (randomList_ _) _); [|done]. rewrite !result_bind_Ok.
      case_bool_decide; [done|]. destruct (read_at txs _); [|done]. rewrite !result_bind_Ok. case_bool_decide; [done|]. apply IH. }
    by rewrite Ho.
  - apply Forall_forall. intros tx Htx. right. destruct (Hpay tx Htx) as (acc & cost & Ha & ?). exists acc, cost.
    by rewrite Hacc.
Qed.

(** ** What one message can do *)

(** The exceptions of the dispatch are not caught: a message of an unknown type, or an [Info] request of another size,
    throws out of the handler, and an empty one, which a session does not refuse, is read past its end. *)
Theorem malformed_message_escapes now nodeId (m : MG) :
  started_ m = true →
  (∀ t rest, 3 < t < 256 → handleMessage chainOwner chainId version now nodeId (P2PEncoding.mkMessage (t :: rest)) m =
     (Throw (DynamicException "Invalid request type."), m)) ∧
  (∀ id data, length id = 8%nat → length data ≠ 56%nat →
     handleMessage chainOwner chainId version now nodeId (P2PEncoding.mkMessage (raw Requesting id Info data)) m =
       (Throw (DynamicException "Invalid Info message size."), m)) ∧
  handleMessage chainOwner chainId version now nodeId (P2PEncoding.mkMessage []) m = (Throw Undefined, m).
Proof.
  intros Hst. unfold handleMessage. split_and!; intros; unfold mbind' at 1, mget at 1; rewrite Hst; cbn [negb].
  - rename select (3 < t < 256) into Ht. unfold mbind' at 1, mlift at 1. unfold msg_type. cbn [rawMessage_].
    rewrite (subspan_drop (t :: rest) 0 1 [t] rest), result_bind_Ok by (done || cbn; lia).
    unfold getRequestType. cbn [length Nat.eqb negb throw_if]. rewrite result_bind_Ok.
    assert (Hd : bytesToUint8 [t] = Ok t).
    { done. }
    rewrite Hd, result_bind_Ok. cbn [typePrefixes length]. change (Z.of_nat 3) with 3. by rewrite (proj2 (Z.ltb_lt _ _)) by lia.
  - unfold mbind' at 1, mlift at 1. rewrite msg_type_raw by done.
    change (Requesting =? Requesting) with true. cbv iota. unfold handleRequest. unfold mbind' at 1, mlift at 1.
    rewrite msg_command_raw by done. change (Info =? Ping) with false. change (Info =? Info) with true. cbv iota.
    unfold handleInfoRequest. unfold mbind' at 1, mlift at 1, Request_read_info, msg_size. cbn [rawMessage_].
    rewrite raw_length by done. rewrite (proj2 (Nat.eqb_neq (11 + length data) 67)) by lia. done.
  - done.
Qed.
End flood.

(** ** Witnesses *)

Program Definition node_order_ref : NodeOrder := {| nodes_in_order A m := map_to_list m |}.
Next Obligation. done. Qed.

Definition toy_peer : NodeID := (V4 [127; 0; 0; 1], 8080).
Definition toy_other_peer : NodeID := (V4 [127; 0; 0; 2], 8080).
Definition toy_node : State (V := SafeCell Z) (DBI := ref_db) := toy_chain_node toy_accounts ∅.

Abbreviation toy_manager_state := (Manager (V := SafeCell Z) (DBI := ref_db)).
Abbreviation toy_handle := (@handleMessage (SafeCell Z) Z cell_SafeVariable ref_db toy_secp boost_ref toy_hash toy_evm residue_ref
  toy_types order_ref node_order_ref toy_owner 8080 1).
Abbreviation toy_reachable_manager := (@manager_reachable (SafeCell Z) Z cell_SafeVariable ref_db toy_secp boost_ref toy_hash toy_evm
  residue_ref toy_types order_ref node_order_ref toy_owner 8080 1).
Abbreviation toy_manager_step := (@manager_step (SafeCell Z) Z cell_SafeVariable ref_db toy_secp boost_ref toy_hash toy_evm
  residue_ref toy_types order_ref node_order_ref toy_owner 8080 1).

Definition toy_listening : toy_manager_state := (registerSession toy_peer NORMAL_NODE (manager_start (manager_new toy_node))).2.
Definition toy_number : Z := FNVHash [1; 2; 3].
Definition toy_message : Message :=
  P2PEncoding.mkMessage (raw Broadcasting (uint64ToBytes toy_number) BroadcastTx [1; 2; 3]).
Definition toy_told : toy_manager_state := (@broadcastMessage (SafeCell Z) ref_db node_order_ref toy_message toy_listening).2.
Definition toy_told_twice : toy_manager_state := (@broadcastMessage (SafeCell Z) ref_db node_order_ref toy_message toy_told).2.

Lemma flood_once_witness :
  copies toy_peer toy_number (sent_ toy_told_twice) = 1%nat ∧
  (copies toy_peer toy_number (sent_ toy_told_twice) ≤ 1)%nat.
Proof.
  split; [by vm_compute|].
  apply (@flood_once (SafeCell Z) Z cell_SafeVariable ref_db toy_secp boost_ref toy_hash toy_evm residue_ref
    toy_types order_ref node_order_ref toy_owner 8080 1 toy_told_twice).
  assert (H0 : toy_reachable_manager (manager_new toy_node)) by apply manager_fresh.
  assert (H1 : toy_reachable_manager (manager_start (manager_new toy_node))) by (eapply manager_next; [exact H0|apply step_start]).
  assert (H2 : toy_reachable_manager toy_listening) by (eapply manager_next; [exact H1|apply step_register]).
  assert (H3 : toy_reachable_manager toy_told) by (eapply manager_next; [exact H2|apply step_broadcast]).
  eapply manager_next; [exact H3|apply step_broadcast].
Defined.

Definition toy_ping_answer : Message := P2PEncoding.mkMessage (raw Answering (replicate 8 9) Ping []).
Definition toy_asking : toy_manager_state :=
  (sendRequestTo toy_peer (P2PEncoding.mkMessage (raw Requesting (replicate 8 9) Ping [])) toy_listening).2.

(** A peer that answers a request twice throws the node out of its handler. *)
Lemma answers_are_matched_witness :
  (toy_handle 0 toy_other_peer toy_ping_answer (toy_handle 0 toy_peer toy_ping_answer toy_asking).2).1 = Throw FutureError.
Proof.
  set (m := (toy_handle 0 toy_peer toy_ping_answer toy_asking).2).
  assert (H := @answers_are_matched (SafeCell Z) Z cell_SafeVariable ref_db toy_secp boost_ref toy_hash toy_evm residue_ref
    toy_types order_ref node_order_ref toy_owner 8080 1 0 toy_other_peer (replicate 8 9) Ping [] m).
  cbv zeta in H. change (P2PEncoding.mkMessage (raw Answering (replicate 8 9) Ping [])) with toy_ping_answer in H.
  rewrite H; [by vm_compute|by vm_compute|done|by_compute].
Defined.

(** Signatures of full length: without them a validator transaction is too short for its parser. *)
Program Definition long_secp : LibSecp256k1 := {|
  secp_recover sig v msg := Some toy_pubkey;
  secp_pubkey_create k := Some toy_pubkey;
  secp_sign m k := Some (be_encode 32 (2 ^ 250) ++ be_encode 32 (2 ^ 250), 1)
|}.
Next Obligation. by intros k p [= <-]. Qed.
Next Obligation. intros m k sig v [= <- <-]. repeat split; try lia; try by vm_compute. by_compute. Qed.

Definition toy_long_tx (data : list Z) : TxValidator :=
  match @TxValidator_new long_secp boost_ref toy_hash (@toAddress toy_hash toy_pubkey) data 8080 7 (replicate 32 1) with
  | Ok tx => tx
  | Throw _ => toy_val
  end.

Definition toy_sent_block : Block :=
  (@finalize long_secp boost_ref toy_hash (with_txs (Block_new (replicate 32 8) 1000 7) []
    [toy_long_tx (randomHashHash ++ @sha3 toy_hash (replicate 32 6)); toy_long_tx (randomSeedHash ++ replicate 32 6)]) (replicate 32 1) 2000).2.

Abbreviation long_handle := (@handleMessage (SafeCell Z) Z cell_SafeVariable ref_db long_secp boost_ref toy_hash toy_evm residue_ref
  toy_types order_ref node_order_ref toy_owner 8080 1).

Definition toy_block_message : Message :=
  P2PEncoding.mkMessage (raw Broadcasting (uint64ToBytes (FNVHash (serializeBlock toy_sent_block))) BroadcastBlock (serializeBlock toy_sent_block)).

Lemma block_relayed_witness :
  let m' := (long_handle 0 toy_other_peer toy_block_message toy_listening).2 in
  chain_ (storage_ (state_ m')) = [toy_latest; toy_sent_block] ∧ sent_ m' = [(toy_peer, toy_block_message)].
Proof.
  set (o := long_handle 0 toy_other_peer toy_block_message toy_listening).
  destruct (@block_relayed (SafeCell Z) Z cell_SafeVariable ref_db long_secp boost_ref toy_hash toy_evm residue_ref
    toy_types order_ref node_order_ref toy_owner 8080 1 0 toy_other_peer toy_sent_block toy_listening o.1 o.2) as (_ & _ & Hc & Hs & _); last first.
  - exact (conj Hc Hs).
  - by vm_compute.
  - exact (surjective_pairing _).
  - apply NoDup_nil_2.
  - apply NoDup_nil_2.
  - apply Forall_nil_2.
  - by intros tx tx0 ?%not_elem_of_nil.
  - intros k tx Hk. change (mempool_ (state_ toy_listening)) with (∅ : gmap (list Z) TxBlock) in Hk. by rewrite lookup_empty in Hk.
  - apply toy_manager_quiet.
  - apply toy_accounts_modest.
  - apply toy_accounts_settled.
  - by vm_compute.
  - by vm_compute.
  - by_compute.
  - by_compute.
  - by_compute.
  - by_compute.
  - done.
  - done.
Defined.

Lemma peers_agree_witness :
  @validateNextBlock (SafeCell Z) ref_db toy_hash
    (toy_chain_node toy_accounts {[ toy_word 2 := toy_hashed 2 (toy_addr 7) 20 ]}) (toy_next [toy_hashed 1 (toy_addr 7) 10]) = Ok true.
Proof.
  apply (@peers_agree (SafeCell Z) ref_db toy_hash (toy_chain_node toy_accounts ∅)); [by vm_compute| |done..].
  intros tx ->%list_elem_of_singleton. eexists _, _. by split_and!; [vm_compute..|].
Defined.

Lemma malformed_message_escapes_witness :
  (toy_handle 0 toy_peer (P2PEncoding.mkMessage [9; 0; 0]) toy_listening).1 = Throw (DynamicException "Invalid request type.").
Proof.
  destruct (@malformed_message_escapes (SafeCell Z) Z cell_SafeVariable ref_db toy_secp boost_ref toy_hash toy_evm residue_ref
    toy_types order_ref node_order_ref toy_owner 8080 1 0 toy_peer toy_listening) as (H & _ & _); [by vm_compute|].
  by rewrite H.
Defined.
