(* ===== verification/StateCalls.v ===== *)
(** * StateCalls: the calls that are not transactions, and the saved accounts (src/core/state.cpp)

    [ethCall] and [estimateGas] run contracts on the live state and undo what they did; the constructor
    and the destructor load and save the accounts. *)

From S2P Require Import Prelude Bytes SizedInts Hashing ECDSA SafeBase SafeCell Tx TxValidator Randomness Block RdPoS Abi DB Event Storage EvmHost ContractManager State StateTx StateBlock.

Definition balances_of (h : EVMHost) (a : list Z) : Z * Z := acc_balance (account_at h a).

Lemma balances_of_set a x h b :
  balances_of (setBalance a x h) b = if decide (a = b) then ((balances_of h b).1, x) else balances_of h b.
Proof. unfold balances_of, setBalance. rewrite account_at_update. by case_decide. Qed.

Lemma balances_of_revert h a :
  balances_of (revertBalance h) a = if decide (a ∈ accessedAccountsBalances h)
    then ((balances_of h a).1, (balances_of h a).1) else balances_of h a.
Proof.
  unfold balances_of, revertBalance. change (account_at (with_accessed ?x _ _ _) a) with (account_at x a).
  rewrite account_at_on_accounts by done. by case_decide.
Qed.

(** [revertBalance] writes nothing else. *)
Lemma revertBalance_same h : same_but_balance h (revertBalance h).
Proof.
  split.
  - intros a. unfold revertBalance. change (account_at (with_accessed ?x _ _ _) a) with (account_at x a).
    rewrite account_at_on_accounts by done. by case_decide.
  - assert (Hr := rest_on_accounts (λ a, set_balance ((acc_balance a).1, (acc_balance a).1) a) (accessedAccountsBalances h) h).
    transitivity (host_rest (rest (on_accounts (λ a, set_balance ((acc_balance a).1, (acc_balance a).1) a) (accessedAccountsBalances h) h)));
      [done|by rewrite Hr].
Qed.

Section calls.
Context {V T : Type} {SV : SafeVariable V T} {DBI : RocksDB} {LS : LibSecp256k1} {BB : BoostBits} {KC : Keccak}
  {VM : EVMC} {BR : BoostResidue} {CT : ContractTypes (V := V)} {HO : HashOrder}.
Variables (chainOwner : list Z) (chainId : Z).
Abbreviation ST := (State (V := V)).

(** Nothing is pending, and the accounts of the call are committed and can pay. *)
Record callable (ci : ethCallInfo) (h : EVMHost) : Prop := {
  cl_settled : settled h;
  cl_hash : contractAddresses h !! currentTxHash h = None;
  cl_accessed : accessedAccountsBalances h = [];
  cl_from : (balances_of h (ci_from ci)).1 = (balances_of h (ci_from ci)).2;
  cl_to : (balances_of h (ci_to ci)).1 = (balances_of h (ci_to ci)).2;
  cl_value : 0 ≤ ci_value ci ≤ balance_at h (ci_from ci);
  cl_room : ci_value ci = 0 ∨ balance_at h (ci_from ci) ≤ umax 256 ∧ balance_at h (ci_to ci) + ci_value ci ≤ umax 256
}.

(** What a call leaves: the same accounts, and nothing pending. *)
Definition undone (s s' : ST) : Prop :=
  same_reads (evmHost_ s) (evmHost_ s') ∧ contractAddresses (evmHost_ s') = contractAddresses (evmHost_ s) ∧
  same_elsewhere s s' ∧ settled (evmHost_ s') ∧ accessedAccountsBalances (evmHost_ s') = [].

(** The transfer of a dry run marks the two accounts it writes. *)
Lemma dry_transfer ci (s : ST) (k : M ST evmc_result) r s' :
  callable ci (evmHost_ s) →
  ((if ci_value ci =? 0 then mret' tt
   else if decide (ci_to ci = zero_address) then mthrow Undefined
   else
     on_host (debit (ci_from ci) (ci_value ci)) ;;;
     on_host (credit (ci_to ci) (ci_value ci)) ;;;
     on_host (mmodify (λ h, access_balance (ci_to ci) (access_balance (ci_from ci) h)))) ;;; k) s = (r, s') →
  r ≠ Throw Undefined →
  ∃ ht, k (with_host s ht) = (r, s') ∧ same_but_balance (evmHost_ s) ht ∧ currentTxHash ht = currentTxHash (evmHost_ s) ∧
    ∀ a, (balances_of ht a).1 = (balances_of (evmHost_ s) a).1 ∧
      (a ∈ accessedAccountsBalances ht → (balances_of (evmHost_ s) a).1 = (balances_of (evmHost_ s) a).2) ∧
      (a ∉ accessedAccountsBalances ht → balances_of ht a = balances_of (evmHost_ s) a).
Proof.
  intros [Hs Hh Hacc Hfrom Hto Hv Hroom]. unfold mbind' at 1. destruct (Z.eqb_spec (ci_value ci) 0) as [E|Hne].
  - cbn [mret']. intros Hk _. exists (evmHost_ s). split; [by destruct s|]. split; [done|]. split; [done|].
    intros a. split_and!; try done. rewrite Hacc. by intros ?%not_elem_of_nil.
  - case_decide as Hz; [intros [= <- _]; done|]. destruct Hroom as [|[Hr1 Hr2]]; [lia|].
    unfold mbind' at 1, on_host at 1. rewrite debit_ok by lia. cbv beta iota. unfold mbind' at 1, on_host at 1.
    cbn [evmHost_ with_host]. set (h1 := setBalance _ _ _).
    assert (Hb1 : balance_at h1 (ci_to ci) + ci_value ci ≤ umax 256).
    { unfold h1. rewrite balance_at_set. case_decide; lia. }
    rewrite credit_ok by done. cbv beta iota. unfold on_host at 1. cbn [mmodify evmHost_ with_host]. set (h2 := setBalance _ _ h1).
    intros Hk _. exists (access_balance (ci_to ci) (access_balance (ci_from ci) h2)). split; [exact Hk|]. split; [|split; [done|]].
    + transitivity h1; [apply same_setBalance|]. transitivity h2; [apply same_setBalance|]. by apply same_accounts.
    + assert (Hl : accessedAccountsBalances (access_balance (ci_to ci) (access_balance (ci_from ci) h2)) = [ci_from ci; ci_to ci]).
      { cbn. by rewrite Hacc. }
      intros a. rewrite Hl. change (balances_of (access_balance _ _) a) with (balances_of h2 a).
      unfold h2, h1. rewrite !balances_of_set. split_and!.
      * by repeat case_decide.
      * intros [->|[->|?%not_elem_of_nil]%elem_of_cons]%elem_of_cons; done.
      * intros Hn. rewrite !decide_False; [done|..]; intros <-; apply Hn; [left|right; left].
Qed.

Lemma bounded_gas_small ci : ci_gasLimit (bounded_gas ci) < 2 ^ 63.
Proof. unfold bounded_gas, max_i64. zcase; cbn; lia. Qed.

Lemma dry_run_undone ci (s : ST) r s' :
  callable ci (evmHost_ s) → dry_run chainId ci s = (r, s') → r ≠ Throw Undefined → undone s s'.
Proof.
  intros Hcl Hrun Hr. unfold dry_run in Hrun.
  destruct (dry_transfer ci s _ r s' Hcl Hrun Hr) as (ht & Hk & Hsm & Hh & Hbal). clear Hrun.
  unfold mbind' at 1, mget at 1 in Hk. unfold mbind' at 1, mlift at 1 in Hk.
  cbn [storage_ with_host] in Hk.
  destruct (latest (storage_ s)) as [b|e] eqn:El; [|injection Hk as <- _; revert El; unfold latest; destruct (last _); congruence].
  unfold mbind' at 1, on_host at 1 in Hk. cbn [mmodify evmHost_ with_host] in Hk. set (s1 := with_host (with_host s ht) _) in Hk.
  assert (H1 : same_but_balance ht (evmHost_ s1)) by by apply same_accounts.
  assert (Hs1 : settled (evmHost_ s1)).
  { apply (same_settled ht); [done|]. by apply (same_settled _ _ Hsm), Hcl. }
  unfold mbind' at 1 in Hk. destruct (evm_execute (bounded_gas ci) s1) as [res s2] eqn:E.
  destruct (evm_execute_pending _ _ _ _ Hs1 E) as (h0 & H0 & Ha & Hh0 & Hac & Hp & He & _).
  destruct res as [res|e].
  2:{ injection Hk as <- _. exfalso. apply Hr. f_equal. revert E. unfold evm_execute. destruct (execute _ _) as [r0 h0'] eqn:Ex.
      intros [= -> _]. by eapply execute_throws; [apply bounded_gas_small|]. }
  unfold mbind' in Hk. unfold on_host in Hk. cbn [mmodify mret' evmHost_ with_host] in Hk. injection Hk as _ <-.
  destruct (revert_restores h0 (evmHost_ s2)) as (A1 & (A2 & A3 & A4 & A5 & A6) & A7).
  { by apply (same_settled _ _ H0). }
  { rewrite (same_rest _ _ H0 contractAddresses), (same_rest _ _ H1 contractAddresses), (same_rest _ _ Hsm contractAddresses) by done.
    rewrite Hh0. change (currentTxHash (evmHost_ s1)) with (currentTxHash ht). rewrite Hh. apply Hcl. }
  { done. }
  set (h2 := revertCode (revert (evmHost_ s2))) in *. cbn [evmHost_ with_host].
  assert (Hb0 : ∀ a, balances_of h2 a = balances_of ht a).
  { intros a. unfold balances_of. rewrite A5. by rewrite (account_at_accounts (evmHost_ s1)). }
  assert (Hacc : accessedAccountsBalances h2 = accessedAccountsBalances ht).
  { unfold h2. rewrite revert_settles. cbn. destruct (pd_accessed _ _ Hp) as [Hpa _]. rewrite Hpa.
    by rewrite Hac. }
  assert (Hsm1 : same_but_balance (evmHost_ s) h0) by (transitivity ht; [done|by transitivity (evmHost_ s1)]).
  assert (Hrb := revertBalance_same h2).
  assert (Hev2 : same_evm (evmHost_ s) (revertBalance h2)).
  { transitivity h0; [by apply same_but_balance_evm|]. transitivity h2; [by split_and!|by apply same_but_balance_evm]. }
  destruct Hev2 as (B1 & B2 & B3 & B4).
  split; [split_and!; try done|split; [done|split; [|split; [by apply (same_settled _ _ Hrb)|done]]]].
  - intros a. rewrite (same_nonce _ _ Hrb), A2. by apply (same_nonce _ _ Hsm1).
  - intros a. change (balances_of (revertBalance h2) a = balances_of (evmHost_ s) a).
    destruct (Hbal a) as (C1 & C2 & C3). rewrite balances_of_revert, Hacc, Hb0. case_decide as Hin; [|by apply C3].
    rewrite C1. specialize (C2 Hin). by destruct (balances_of (evmHost_ s) a); cbn in *; subst.
  - exact He.
Qed.

(** The contract manager's views leave the host alone. *)
Lemma view_undone ci (s : ST) r s' :
  on_contracts (callContract_view chainOwner chainId ci) s = (r, s') → evmHost_ s' = evmHost_ s ∧ same_elsewhere s s'.
Proof.
  unfold on_contracts. set (x := (contractManager_ s, _)).
  assert (Hst : (callContract_view chainOwner chainId ci x).2.2 = (evmHost_ s, processingPayable_ s)).
  { unfold callContract_view, on_manager, mthrow, mbind', mget. repeat case_decide; cbn; repeat case_match; done. }
  destruct (callContract_view _ _ _ x) as [r0 [cm [h flag]]]. cbn in Hst. injection Hst as -> ->. by intros [= _ <-].
Qed.

Lemma validate_undone ci (s : ST) r s' :
  on_contracts (validateCallContractWithTx chainOwner chainId ci) s = (r, s') → evmHost_ s' = evmHost_ s ∧ same_elsewhere s s'.
Proof.
  unfold on_contracts. set (x := (contractManager_ s, _)).
  assert (Hst : (validateCallContractWithTx chainOwner chainId ci x).2.2 = (evmHost_ s, processingPayable_ s)).
  { unfold validateCallContractWithTx, on_manager, mbind'. cbn. by repeat case_match. }
  destruct (validateCallContractWithTx _ _ _ x) as [r0 [cm [h flag]]]. cbn in Hst. injection Hst as -> ->. by intros [= _ <-].
Qed.

Lemma latest_seed_undone (s : ST) r s' : latest_seed s = (r, s') → evmHost_ s' = evmHost_ s ∧ same_elsewhere s s'.
Proof.
  unfold latest_seed, mbind', mget, mlift. destruct (latest (storage_ s)); intros [= _ <-]; done.
Qed.

Lemma undone_same ci (s s' : ST) : callable ci (evmHost_ s) → evmHost_ s' = evmHost_ s → same_elsewhere s s' → undone s s'.
Proof. intros [] Hh He. unfold undone. by rewrite Hh. Qed.

Lemma undone_trans (s1 s2 s3 : ST) : evmHost_ s2 = evmHost_ s1 → same_elsewhere s1 s2 → undone s2 s3 → undone s1 s3.
Proof. intros Hh He (A1 & A2 & A3 & A4). unfold undone. rewrite <- Hh. split; [done|]. split; [done|]. split; [by transitivity s2|done]. Qed.

Lemma seeded_dry_run ci (s : ST) {A} (k : evmc_result → M ST A) r s' :
  callable ci (evmHost_ s) → (∀ res s0, (k res s0).2 = s0) →
  (latest_seed ;;; (res <-- dry_run chainId ci;; k res)) s = (r, s') → r ≠ Throw Undefined → undone s s'.
Proof.
  intros Hcl Hk. unfold mbind' at 1. destruct (latest_seed s) as [r1 s1] eqn:E1.
  apply latest_seed_undone in E1 as [Hh He]. destruct r1 as [[]|e]; [|intros [= _ <-] _; by eapply undone_same].
  unfold mbind' at 1. destruct (dry_run chainId ci s1) as [r2 s2] eqn:E2. intros Hrun Hr.
  apply (undone_trans s s1); [done|done|]. rewrite <- Hh in Hcl.
  assert (Hu : r2 ≠ Throw Undefined) by (intros ->; injection Hrun as <- _; done).
  assert (H2 := dry_run_undone _ _ _ _ Hcl E2 Hu). destruct r2 as [res|e]; [|injection Hrun as _ <-; done].
  specialize (Hk res s2). rewrite Hrun in Hk. cbn in Hk. by subst.
Qed.

(** C12: An [eth_call] changes nothing that a transaction or another call can read, when its sender has the value it
    names, no balance overflows with it, and nothing is pending between transactions ([callable]): whether it succeeds,
    fails or throws, every balance, nonce, code, storage slot and contract address is what it was, and so are the
    mempool, the consensus and the chain, and again nothing is pending. Without the funds the statement is false
    ([ethCall_unfunded]). *)
Theorem ethCall_undone ci (s : ST) r s' :
  callable ci (evmHost_ s) → ethCall chainOwner chainId ci s = (r, s') → r ≠ Throw Undefined → undone s s'.
Proof.
  intros Hcl. unfold ethCall. unfold mbind' at 1, mget at 1. destruct (isContractAddress _ _).
  - unfold mbind' at 1. destruct (latest_seed s) as [r1 s1] eqn:E1. apply latest_seed_undone in E1 as [Hh He].
    destruct r1 as [[]|e]; [|intros [= _ <-] _; by eapply undone_same].
    intros Hrun _. apply view_undone in Hrun as [Hh2 He2]. eapply undone_same; [done|congruence|by transitivity s1].
  - destruct (_ || _); [|intros [= _ <-] _; by eapply undone_same].
    apply seeded_dry_run; [done|]. intros res s0. unfold mbind', mthrow_if. by destruct (negb _).
Qed.

(** Nor does an estimate of gas, on a C++ contract, on the EVM, or on both. *)
Theorem estimateGas_undone ci (s : ST) r s' :
  callable ci (evmHost_ s) → estimateGas chainOwner chainId ci s = (r, s') → r ≠ Throw Undefined → undone s s'.
Proof.
  intros Hcl. unfold estimateGas. unfold mbind' at 1, mget at 1. unfold mbind' at 1, mlift at 1.
  destruct (estimate_check s ci) as [[]|e]; cbn [negb]; [|intros [= _ <-] _; by eapply undone_same|intros [= _ <-] _; by eapply undone_same].
  set (dry := if isContractAddress _ _ then _ else _).
  assert (Hdry : ∀ r1 s1, dry s = (r1, s1) → evmHost_ s1 = evmHost_ s ∧ same_elsewhere s s1).
  { intros r1 s1. unfold dry. destruct (isContractAddress _ _); [|by intros [= _ <-]]. unfold mbind' at 1.
    destruct (latest_seed s) as [[[]|e] s2] eqn:E1; apply latest_seed_undone in E1 as [Hh He]; [|by intros [= _ <-]].
    unfold mbind' at 1. destruct (on_contracts _ s2) as [r2 s3] eqn:E2. apply validate_undone in E2 as [Hh2 He2].
    assert (evmHost_ s3 = evmHost_ s ∧ same_elsewhere s s3) by (split; [congruence|by transitivity s2]).
    destruct r2; by intros [= _ <-]. }
  unfold mbind' at 1. destruct (dry s) as [r1 s1] eqn:Ed. destruct (Hdry _ _ eq_refl) as [Hh He].
  destruct r1 as [[]|e]; [|intros [= _ <-] _; by eapply undone_same].
  unfold mbind' at 1, mget at 1. rewrite <- Hh in Hcl. intros Hrun Hr. apply (undone_trans s s1); [done|done|]. revert Hrun Hr.
  destruct (_ || _); [|intros [= _ <-] _; by eapply undone_same].
  apply seeded_dry_run; [done|]. intros res s0. unfold mbind', mthrow_if, mlift.
  destruct (_ <? _); [done|]. cbn [mret']. destruct (negb _); [done|]. cbn [mret']. by destruct (ustore 256 _).
Qed.

(** [ethCall] does not compare the value with the balance, and the subtraction is outside its
    [try] block: a call of an EVM contract with a value its sender does not have throws after the
    subtraction, and the balance that Boost does not specify stays in the live accounts. *)
Theorem ethCall_unfunded ci (s : ST) :
  isContractAddress (contractManager_ s) (ci_to ci) = false → isEvmContract (evmHost_ s) (ci_to ci) = true →
  ci_to ci ≠ zero_address → chain_ (storage_ s) ≠ [] → balance_at (evmHost_ s) (ci_from ci) < ci_value ci →
  0 ≤ balance_at (evmHost_ s) (ci_from ci) →
  ∃ s', ethCall chainOwner chainId ci s = (Throw RangeError, s') ∧
    balance_at (evmHost_ s') (ci_from ci) = sub_residue (balance_at (evmHost_ s) (ci_from ci)) (ci_value ci) ∧
    ∀ a, a ≠ ci_from ci → balance_at (evmHost_ s') a = balance_at (evmHost_ s) a.
Proof.
  intros Hcpp Hevm Hz Hch Hb Hb0. unfold ethCall. unfold mbind' at 1, mget at 1. rewrite Hcpp, Hevm. cbn [orb].
  assert (Hl : ∃ b, latest (storage_ s) = Ok b).
  { unfold latest. destruct (last (chain_ (storage_ s))) eqn:E; [by eexists|]. apply last_None in E. done. }
  destruct Hl as [b Hl]. set (s1 := set_seed (blockRandomness_ b) s).
  assert (Hseed : latest_seed s = (Ok tt, s1)) by (unfold latest_seed, mbind', mget, mlift; by rewrite Hl).
  assert (Hs1 : evmHost_ s1 = evmHost_ s) by done.
  exists (with_host s1 (setBalance (ci_from ci) (sub_residue (balance_at (evmHost_ s) (ci_from ci)) (ci_value ci)) (evmHost_ s))).
  split; [|split].
  - unfold mbind' at 1. rewrite Hseed. unfold mbind' at 1, dry_run. unfold mbind' at 1.
    destruct (Z.eqb_spec (ci_value ci) 0); [lia|]. rewrite decide_False by done. unfold mbind' at 1, on_host at 1.
    rewrite Hs1. unfold debit, checked_sub. by rewrite (proj2 (Z.leb_gt _ _)) by lia.
  - cbn [evmHost_ with_host]. by rewrite balance_at_set, decide_True.
  - intros a Ha. cbn [evmHost_ with_host]. by rewrite balance_at_set, decide_False by congruence.
Qed.
End calls.

(** ** The saved accounts *)

Section saved.
Context {DBI : RocksDB} {BB : BoostBits} {HO : HashOrder}.

Definition account_value (acc : EVMAccount) : list Z :=
  uint256ToBytes (acc_balance acc).2 ++ uint64ToBytes (acc_nonce acc).2.

Definition account_entry (p : list Z * EVMAccount) : Entry := (pfx_nativeAccounts ++ p.1, account_value p.2).

Lemma save_accounts_batch h d :
  save_accounts h d = putBatch d (mkBatch (map account_entry (in_order (accounts h))) []).
Proof. unfold save_accounts. by rewrite (foldl_push_back fst). Qed.

Lemma saved_account_lookup h d a :
  rdb_map (save_accounts h d) !! (pfx_nativeAccounts ++ a) =
  match accounts h !! a with Some acc => Some (account_value acc) | None => rdb_map d !! (pfx_nativeAccounts ++ a) end.
Proof.
  assert (Hp := in_order_perm (accounts h)).
  assert (Hnd : NoDup (map fst (map account_entry (in_order (accounts h))))).
  { rewrite map_map. replace (map _ _) with (app pfx_nativeAccounts <$> (in_order (accounts h)).*1) by (etransitivity; [apply map_map|done]).
    apply NoDup_fmap_2; [intros x y; apply app_inv_head|]. rewrite Hp. apply NoDup_fst_map_to_list. }
  rewrite save_accounts_batch, putBatch_lookup by done.
  assert (Hin : ∀ v, (pfx_nativeAccounts ++ a, v) ∈ map account_entry (in_order (accounts h)) ↔
    ∃ acc, accounts h !! a = Some acc ∧ v = account_value acc).
  { intros v. rewrite list_elem_of_In, in_map_iff. split.
    - intros ([b acc] & Hb & Hin). rewrite <- list_elem_of_In, Hp, elem_of_map_to_list in Hin. unfold account_entry in Hb. cbn [fst snd] in Hb.
      injection Hb as Hb <-. subst b. eauto.
    - intros (acc & Ha & ->). exists (a, acc). split; [done|]. rewrite <- list_elem_of_In, Hp. by apply elem_of_map_to_list. }
  destruct (accounts h !! a) as [acc|] eqn:E.
  - assert (Hl : list_to_map (M := gmap (list Z) (list Z)) (map account_entry (in_order (accounts h))) !! (pfx_nativeAccounts ++ a) = Some (account_value acc)).
    { apply elem_of_list_to_map_1; [done|]. apply Hin. eauto. }
    by rewrite Hl.
  - destruct (list_to_map _ !! _) as [v|] eqn:El; [|done]. apply elem_of_list_to_map_2, Hin in El as (acc & ? & _). congruence.
Qed.

Definition loaded (acc a : EVMAccount) : EVMAccount :=
  set_nonce ((acc_nonce acc).2, (acc_nonce acc).2) (set_balance ((acc_balance acc).2, (acc_balance acc).2) a).

Lemma load_account_value h a acc :
  length a = 20%nat → typed_account acc →
  load_account h (a, account_value acc) = Ok (update_account a (loaded acc) h).
Proof.
  intros Ha (_ & Hb & _ & Hn). unfold load_account, account_value. cbn [fst snd].
  assert (L1 : length (uint256ToBytes (acc_balance acc).2) = 32%nat) by apply uint256ToBytes_length.
  assert (L2 : length (uint64ToBytes (acc_nonce acc).2) = 8%nat) by by rewrite uint64ToBytes_encode, be_encode_length.
  rewrite (subspan_drop _ 0 32 (uint256ToBytes (acc_balance acc).2) (uint64ToBytes (acc_nonce acc).2)); [|lia|done|done].
  rewrite result_bind_Ok, uint256_bytes_roundtrip, result_bind_Ok by done. unfold subspan_from.
  rewrite length_app, L1, L2. change (32 <=? Z.of_nat (32 + 8)) with true. cbv iota. rewrite result_bind_Ok.
  change (Z.to_nat 32) with 32%nat. rewrite drop_app_length' by done.
  rewrite bytesToUint64_roundtrip, result_bind_Ok by done. unfold FixedBytes_of. by rewrite decide_True by done.
Qed.

(** The loop of the constructor over entries of distinct accounts. *)
Lemma load_loop (h0 : EVMHost) (m : gmap (list Z) EVMAccount) (l : list Entry) :
  map_Forall (λ a acc, length a = 20%nat ∧ typed_account acc) m → NoDup l.*1 →
  (∀ e, e ∈ l → ∃ acc, m !! e.1 = Some acc ∧ e.2 = account_value acc) →
  ∃ h, foldM load_account h0 l = Ok h ∧ rest h = rest h0 ∧
    ∀ a, account_at h a = if decide (a ∈ l.*1) then from_option (λ acc, loaded acc (account_at h0 a)) EVMAccount_new (m !! a) else account_at h0 a.
Proof.
  intros Hm. revert h0. induction l as [|[a v] l IH]; intros h0 Hnd Hin.
  - exists h0. split; [done|]. split; [done|]. intros b. by rewrite decide_False by apply not_elem_of_nil.
  - rewrite fmap_cons in Hnd. apply NoDup_cons in Hnd as [Ha Hnd]. destruct (Hin (a, v) ltac:(left)) as (acc & Hacc & Hv).
    cbn [fst snd] in *. subst v. destruct (Hm _ _ Hacc) as [Hl Ht].
    destruct (IH (update_account a (loaded acc) h0) Hnd) as (h & E & Hr & Hat); [intros e He; apply Hin; by right|].
    exists h. split; [cbn [foldM]; by rewrite load_account_value, result_bind_Ok|]. split; [by rewrite Hr|].
    intros b. rewrite Hat, account_at_update, fmap_cons. cbn [fst]. destruct (decide (a = b)) as [->|Hne].
    + rewrite decide_False by done. rewrite decide_True by left. by rewrite Hacc.
    + destruct (decide (b ∈ l.*1)); [by rewrite decide_True by by right|].
      by rewrite decide_False by (rewrite elem_of_cons; intros [?|?]; congruence).
Qed.

(** The entries of the prefix in [d] are of accounts of [h]. *)
Definition covers (h : EVMHost) (d : rdb) : Prop :=
  ∀ a, is_Some (rdb_map d !! (pfx_nativeAccounts ++ a)) → is_Some (accounts h !! a).

(** C7: A node that stops and starts again has the same balances and nonces. What the destructor
    saves is what the constructor loads, for every account, over what an earlier run saved, and with
    nothing of the genesis balances; the accounts have no uncommitted value. *)
Theorem accounts_persist genesisBalances h d h0 :
  map_Forall (λ a acc, length a = 20%nat ∧ typed_account acc) (accounts h) → accounts h ≠ ∅ → covers h d →
  accessedAccountsBalances h0 = [] → accessedAccountsNonces h0 = [] →
  ∃ h', load_accounts genesisBalances (save_accounts h d) h0 = Ok (save_accounts h d, h') ∧
    (∀ a acc, accounts h !! a = Some acc →
       balances_of h' a = (balance_at h a, balance_at h a) ∧ acc_nonce (account_at h' a) = (nonce_at h a, nonce_at h a)) ∧
    ∀ a, accounts h !! a = None → account_at h' a = account_at h0 a.
Proof.
  intros Hm Hne Hcov Hab Han. set (d' := save_accounts h d). set (es := getBatch d' pfx_nativeAccounts []).
  assert (Hes : ∀ a v, (a, v) ∈ es ↔ ∃ acc, accounts h !! a = Some acc ∧ v = account_value acc).
  { intros a v. unfold es. rewrite getBatch_spec. unfold d'. rewrite saved_account_lookup.
    destruct (accounts h !! a) as [acc|] eqn:E.
    - split; [intros [= <-]; eauto|]. by intros (acc' & [= <-] & ->).
    - split; [|by intros (? & ? & _)]. intros Hv. destruct (Hcov a) as [? ?]; [by eexists|congruence]. }
  assert (Hnd : NoDup es.*1).
  { apply NoDup_fmap_fst; [|apply getBatch_NoDup]. intros a v1 v2 H1%Hes H2%Hes.
    destruct H1 as (acc & H1 & ->), H2 as (acc' & H2 & ->). congruence. }
  destruct (load_loop h0 (accounts h) es Hm Hnd) as (h1 & E & Hr & Hat).
  { intros [a v] (acc & Ha & Hv)%Hes. eauto. }
  exists (commitNonce (commitBalance h1)).
  assert (Hacc : ∀ a, account_at (commitNonce (commitBalance h1)) a = account_at h1 a).
  { intros a. unfold commitNonce, commitBalance.
    rewrite (rest_proj accessedAccountsBalances h1 h0), Hab by done. cbn [on_accounts foldl accessedAccountsNonces with_accessed].
    rewrite (rest_proj accessedAccountsNonces h1 h0), Han by done. done. }
  split; [|split].
  - unfold load_accounts. fold es. destruct es as [|e es'] eqn:Ees.
    + exfalso. apply Hne, map_eq. intros a. rewrite lookup_empty. destruct (accounts h !! a) as [acc|] eqn:Ea; [|done].
      assert (Hin : (a, account_value acc) ∈ @nil Entry) by (apply Hes; eauto). by apply not_elem_of_nil in Hin.
    + cbv beta iota. by rewrite E.
  - intros a acc Ha. unfold balances_of. rewrite Hacc, Hat.
    rewrite decide_True by (apply list_elem_of_fmap; exists (a, account_value acc); split; [done|apply Hes; eauto]).
    assert (Hac : account_at h a = acc) by (unfold account_at; by rewrite Ha).
    unfold balance_at, nonce_at. by rewrite Hac, Ha.
  - intros a Ha. rewrite Hacc, Hat, decide_False; [done|]. intros ([a' v] & -> & (acc & Hin & _)%Hes)%list_elem_of_fmap.
    cbn in Ha. congruence.
Qed.
End saved.

(** ** Witnesses *)

Definition toy_view (to : list Z) (value : Z) : ethCallInfo :=
  mkCallInfo toy_sender to 100000 1 value (zero_bytes 4) [] [].

Abbreviation toy_ethCall := (@ethCall (SafeCell Z) Z cell_SafeVariable ref_db toy_secp boost_ref toy_hash toy_evm
  residue_ref toy_types order_ref toy_owner 8080).
Abbreviation toy_estimateGas := (@estimateGas (SafeCell Z) Z cell_SafeVariable ref_db toy_secp boost_ref toy_hash toy_evm
  residue_ref toy_types order_ref toy_owner 8080).

Lemma toy_callable to value :
  0 ≤ value ≤ 900000 → (balances_of toy_accounts to).1 = (balances_of toy_accounts to).2 →
  balance_at toy_accounts to ≤ 1000000 → callable (toy_view to value) toy_accounts.
Proof.
  intros Hv Ht Hto.
  assert (Hb : balance_at toy_accounts (ci_from (toy_view to value)) = 1000000) by by vm_compute.
  constructor; rewrite ?Hb; try done.
  - apply toy_accounts_settled.
  - unfold toy_view. cbn. lia.
  - right. unfold umax. cbn [ci_to ci_value toy_view]. lia.
Qed.

(** The contract calls another one, which writes its storage; the value moves and comes back. *)
Lemma ethCall_undone_witness :
  let p := toy_ethCall (toy_view (toy_addr 2) 10) (toy_chain_node toy_accounts ∅) in
  p.1 = Ok [] ∧ @undone (SafeCell Z) ref_db (toy_chain_node toy_accounts ∅) p.2.
Proof.
  split; [by vm_compute|].
  apply (@ethCall_undone (SafeCell Z) Z cell_SafeVariable ref_db toy_secp boost_ref toy_hash toy_evm residue_ref
    toy_types order_ref toy_owner 8080 (toy_view (toy_addr 2) 10) (toy_chain_node toy_accounts ∅)
    (toy_ethCall (toy_view (toy_addr 2) 10) (toy_chain_node toy_accounts ∅)).1).
  - apply toy_callable; [done|by vm_compute|by vm_compute].
  - exact (surjective_pairing _).
  - by vm_compute.
Defined.

Lemma estimateGas_undone_witness :
  let p := toy_estimateGas (toy_view (toy_addr 2) 10) (toy_chain_node toy_accounts ∅) in
  p.1 = Ok 21000 ∧ @undone (SafeCell Z) ref_db (toy_chain_node toy_accounts ∅) p.2.
Proof.
  split; [by vm_compute|].
  apply (@estimateGas_undone (SafeCell Z) Z cell_SafeVariable ref_db toy_secp boost_ref toy_hash toy_evm residue_ref
    toy_types order_ref toy_owner 8080 (toy_view (toy_addr 2) 10) (toy_chain_node toy_accounts ∅)
    (toy_estimateGas (toy_view (toy_addr 2) 10) (toy_chain_node toy_accounts ∅)).1).
  - apply toy_callable; [done|by vm_compute|by vm_compute].
  - exact (surjective_pairing _).
  - by vm_compute.
Defined.

Lemma ethCall_unfunded_witness :
  let ci := toy_view (toy_addr 2) 1000001 in
  let s := toy_chain_node toy_accounts ∅ in
  ∃ s', toy_ethCall ci s = (Throw RangeError, s') ∧
    balance_at (evmHost_ s') toy_sender = @sub_residue residue_ref (balance_at (evmHost_ s) toy_sender) 1000001 ∧
    ∀ a, a ≠ toy_sender → balance_at (evmHost_ s') a = balance_at (evmHost_ s) a.
Proof.
  apply (@ethCall_unfunded (SafeCell Z) Z cell_SafeVariable ref_db toy_secp boost_ref toy_hash toy_evm residue_ref
    toy_types order_ref toy_owner 8080 (toy_view (toy_addr 2) 1000001) (toy_chain_node toy_accounts ∅)); [by vm_compute..|done|by vm_compute|by vm_compute].
Defined.

(** What [selfdestruct] does to a host outlives the call: [revert] does not reset [shouldRevert], and the
    next transaction that calls an EVM contract is reverted, though its own call succeeds. *)
Definition toy_destroyer : EVMC.
Proof.
  refine {| evmc_execute msg code := match code with
    | 4 :: _ => VmOp (HSelfdestruct (recipient msg) (sender msg)) (λ _, VmDone (mkResult EVMC_SUCCESS (gas msg) []))
    | _ => VmDone (mkResult EVMC_SUCCESS (gas msg) []) end |}.
  intros msg [|[|p|p] code]; cbn; try done. repeat (destruct p as [p|p|]; cbn; try done).
Defined.

Definition toy_doomed : EVMHost :=
  with_accounts EVMHost_new {[ toy_addr 4 := with_code [4]; toy_addr 6 := with_code [6]; toy_sender := toy_rich 1000000 ]}.

Lemma view_reverts_next_transaction :
  let s := toy_chain_node toy_doomed ∅ in
  let p := @ethCall (SafeCell Z) Z cell_SafeVariable ref_db toy_secp boost_ref toy_hash toy_destroyer
    residue_ref toy_types order_ref toy_owner 8080 (toy_view (toy_addr 4) 0) s in
  let run s := (@processTransaction (SafeCell Z) Z cell_SafeVariable ref_db toy_secp boost_ref toy_hash toy_destroyer residue_ref
    toy_types order_ref toy_owner 8080 (toy_transaction (toy_addr 6) [] 10) (toy_word 7) 8 zero_address 2000 100000000 0 s).2 in
  p.1 = Ok [] ∧ balance_at (evmHost_ (run s)) (toy_addr 6) = 10 ∧ balance_at (evmHost_ (run p.2)) (toy_addr 6) = 0.
Proof. by vm_compute. Qed.

(** The sender has spent some of its balance since the genesis. *)
Lemma accounts_persist_witness :
  ∃ h', @load_accounts ref_db boost_ref [(toy_sender, 5)] (@save_accounts ref_db boost_ref order_ref toy_accounts (∅ : gmap _ _)) EVMHost_new =
      Ok (@save_accounts ref_db boost_ref order_ref toy_accounts (∅ : gmap _ _), h') ∧
    (∀ a acc, accounts toy_accounts !! a = Some acc →
       balances_of h' a = (balance_at toy_accounts a, balance_at toy_accounts a) ∧
       acc_nonce (account_at h' a) = (nonce_at toy_accounts a, nonce_at toy_accounts a)) ∧
    ∀ a, accounts toy_accounts !! a = None → account_at h' a = account_at EVMHost_new a.
Proof.
  apply (@accounts_persist ref_db boost_ref order_ref); [by_compute|by vm_compute| |done|done].
  intros a [v Hv]. change ((∅ : gmap (list Z) (list Z)) !! (pfx_nativeAccounts ++ a) = Some v) in Hv. by rewrite lookup_empty in Hv.
Defined.
