(* ===== verification/JsonRpcDecoding.v ===== *)
(** * JsonRpcDecoding: the requests of the node (src/net/http/jsonrpc/decoding.cpp, methods.h)

    What each method reads of a JSON-RPC request.  A decoder catches what it throws and throws a [DynamicException] of its own
    with the text; a request is read through a constant reference. *)

From S2P Require Import Prelude Bytes SizedInts Hashing Hex SafeBase Tx Abi ECDSA TxValidator Randomness Block DB Event Storage EvmHost ContractManager Regex JsonValue.

(** ** Methods *)

Inductive Methods :=
| m_invalid
| m_web3_clientVersion | m_web3_sha3 | m_net_version | m_net_listening | m_net_peerCount | m_eth_protocolVersion
| m_eth_getBlockByHash | m_eth_getBlockByNumber | m_eth_getBlockTransactionCountByHash | m_eth_getBlockTransactionCountByNumber
| m_eth_chainId | m_eth_syncing | m_eth_coinbase | m_eth_blockNumber | m_eth_call | m_eth_estimateGas | m_eth_gasPrice
| m_eth_getLogs | m_eth_getBalance | m_eth_getTransactionCount | m_eth_getCode | m_eth_sendTransaction | m_eth_sendRawTransaction
| m_eth_getTransactionByHash | m_eth_getTransactionByBlockHashAndIndex | m_eth_getTransactionByBlockNumberAndIndex
| m_eth_getTransactionReceipt.

#[export] Instance Methods_eq_dec : EqDecision Methods.
Proof. solve_decision. Defined.

Definition methodsLookupTable : list (string * Methods) := [
  ("web3_clientVersion", m_web3_clientVersion);
  ("web3_sha3", m_web3_sha3);
  ("net_version", m_net_version);
  ("net_listening", m_net_listening);
  ("net_peerCount", m_net_peerCount);
  ("eth_protocolVersion", m_eth_protocolVersion);
  ("eth_getBlockByHash", m_eth_getBlockByHash);
  ("eth_getBlockByNumber", m_eth_getBlockByNumber);
  ("eth_getBlockTransactionCountByHash", m_eth_getBlockTransactionCountByHash);
  ("eth_getBlockTransactionCountByNumber", m_eth_getBlockTransactionCountByNumber);
  ("eth_chainId", m_eth_chainId);
  ("eth_syncing", m_eth_syncing);
  ("eth_coinbase", m_eth_coinbase);
  ("eth_blockNumber", m_eth_blockNumber);
  ("eth_call", m_eth_call);
  ("eth_estimateGas", m_eth_estimateGas);
  ("eth_gasPrice", m_eth_gasPrice);
  ("eth_getLogs", m_eth_getLogs);
  ("eth_getBalance", m_eth_getBalance);
  ("eth_getTransactionCount", m_eth_getTransactionCount);
  ("eth_getCode", m_eth_getCode);
  ("eth_sendTransaction", m_eth_sendTransaction);
  ("eth_sendRawTransaction", m_eth_sendRawTransaction);
  ("eth_getTransactionByHash", m_eth_getTransactionByHash);
  ("eth_getTransactionByBlockHashAndIndex", m_eth_getTransactionByBlockHashAndIndex);
  ("eth_getTransactionByBlockNumberAndIndex", m_eth_getTransactionByBlockNumberAndIndex);
  ("eth_getTransactionReceipt", m_eth_getTransactionReceipt)]%string.

Definition invalid (text : string) : exn := DynamicException text.

Section decoding.
Context {ET : ExnText} {DBI : RocksDB} {LS : LibSecp256k1} {BB : BoostBits} {KC : Keccak}.

(** [catch (std::exception& e)]: the text of the exception after one that names the method. *)
Definition rethrow_as {A} (prefix : string) (r : result A) : result A :=
  match r with
  | Throw Undefined => Throw Undefined
  | Throw e => Throw (DynamicException (prefix ++ what e))
  | Ok a => Ok a
  end.
Definition decoding {A} (method : string) : result A → result A := rethrow_as ("Error while decoding " ++ method ++ ": ").

Definition checkJsonRPCSpec (request : jvalue) : result bool :=
  rethrow_as "Error while checking json RPC spec: " (
    if negb (js_contains request "jsonrpc") then Ok false
    else
      v ← js_index request "jsonrpc";
      version ← js_get_string v;
      if bool_decide (version ≠ string_bytes "2.0") then Ok false
      else if negb (js_contains request "method") then Ok false
      else if js_contains request "params" then
        params ← js_index request "params";
        Ok (is_object params || is_array params)
      else Ok true).

Definition getMethod (request : jvalue) : result Methods :=
  rethrow_as "Error while checking json RPC spec: " (
    v ← js_index request "method";
    method ← js_get_string v;
    match list_find (λ p, string_bytes p.1 = method) methodsLookupTable with
    | Some (_, (_, m)) => Ok m
    | None => Ok m_invalid
    end).

(** ** Parts *)

(** [request\["params"\].at(i).get<std::string>()]. *)
Definition param_string (request : jvalue) (i : nat) : result (list Z) :=
  params ← js_index request "params"; v ← js_at params i; js_get_string v.

(** The methods without parameters. *)
Definition no_params (method : string) (request : jvalue) : result unit :=
  decoding method (
    params ← js_index request "params";
    throw_if (negb (js_empty params)) (invalid (method ++ " does not need params"))).

Definition checked (filter : re) (s : list Z) (e : exn) : result unit := throw_if (negb (regex_match filter s)) e.

(** [uint64_t(Hex(s).getUint())] and [uint256_t(Hex(s).getUint())]. *)
Definition hex_uint64 (s : list Z) : result Z := h ← Hex_of s false; z ← getUint h; cast_uint 64 z.
Definition hex_uint256 (s : list Z) : result Z := h ← Hex_of s false; getUint h.

(** [Hash(Hex::toBytes(s))] and [Address(Hex::toBytes(s))]. *)
Definition hash_from_hex (s : list Z) : result (list Z) := b ← toBytes s; FixedBytes_of 32 b.
Definition address_of_hex (s : list Z) : result (list Z) := b ← toBytes s; FixedBytes_of 20 b.

(** The second parameter, when there are two. *)
Definition includes_txs (request : jvalue) : result bool :=
  params ← js_index request "params";
  if decide (js_size params = 2%nat) then v ← js_at params 1; js_get_bool v else Ok false.

Definition latest_height (storage : Storage) : result Z := b ← latest storage; Ok (nHeight_ b).

(** ** The decoders *)

Definition web3_clientVersion : jvalue → result unit := no_params "web3_clientVersion".
Definition net_version : jvalue → result unit := no_params "net_version".
Definition net_listening : jvalue → result unit := no_params "net_listening".
Definition net_peerCount : jvalue → result unit := no_params "net_peerCount".
Definition eth_protocolVersion : jvalue → result unit := no_params "eth_protocolVersion".
Definition eth_chainId : jvalue → result unit := no_params "eth_chainId".
Definition eth_syncing : jvalue → result unit := no_params "eth_syncing".
Definition eth_coinbase : jvalue → result unit := no_params "eth_coinbase".
Definition eth_blockNumber : jvalue → result unit := no_params "eth_blockNumber".
Definition eth_gasPrice : jvalue → result unit := no_params "eth_gasPrice".

Definition web3_sha3 (request : jvalue) : result (list Z) :=
  decoding "web3_sha3" (
    params ← js_index request "params";
    _ ← throw_if (negb (js_size params =? 1)%nat) (invalid "web3_sha3 needs 1 param");
    data ← param_string request 0;
    _ ← throw_if (negb (isValid data true)) (invalid "Invalid hex string");
    toBytes data).

Definition eth_getBlockByHash (request : jvalue) : result (list Z * bool) :=
  decoding "eth_getBlockByHash" (
    includeTxs ← includes_txs request;
    blockHash ← param_string request 0;
    _ ← checked hashFilter blockHash (invalid "Invalid block hash hex");
    h ← hash_from_hex blockHash;
    Ok (h, includeTxs)).

(** The height that a block parameter names. *)
Definition block_height (storage : Storage) (blockNum : list Z) (bad : exn) : result Z :=
  if bool_decide (blockNum = string_bytes "latest") then latest_height storage
  else if bool_decide (blockNum = string_bytes "earliest") then Ok 0
  else if bool_decide (blockNum = string_bytes "pending") then Throw (invalid "Pending block is not supported")
  else
    _ ← checked numFilter blockNum bad;
    hex_uint64 blockNum.

Definition eth_getBlockByNumber (request : jvalue) (storage : Storage) : result (Z * bool) :=
  decoding "eth_getBlockByNumber" (
    includeTxs ← includes_txs request;
    blockNum ← param_string request 0;
    height ← block_height storage blockNum (invalid "Invalid block hash hex");
    Ok (height, includeTxs)).

Definition eth_getBlockTransactionCountByHash (request : jvalue) : result (list Z) :=
  decoding "eth_getBlockTransactionCountByHash" (
    blockHash ← param_string request 0;
    _ ← checked hashFilter blockHash (invalid "Invalid block hash hex");
    hash_from_hex blockHash).

Definition eth_getBlockTransactionCountByNumber (request : jvalue) (storage : Storage) : result Z :=
  decoding "eth_getBlockTransactionCountByNumber" (
    blockNum ← param_string request 0;
    block_height storage blockNum (invalid "Invalid block hash hex")).

(** [if (block != "latest") ...] *)
Definition checked_block (block : list Z) : result unit :=
  if bool_decide (block = string_bytes "latest") then Ok tt else checked numFilter block (invalid "Invalid block number").

(** The call object of the request: the first of its parameters, or the parameters themselves. *)
Definition tx_object (request : jvalue) : result jvalue :=
  params ← js_index request "params";
  if is_array params then
    txObj ← js_at params 0;
    (if (1 <? js_size params)%nat then block ← param_string request 1; _ ← checked_block block; Ok txObj else Ok txObj)
  else if is_object params then Ok params
  else Throw (invalid "Invalid params").

(** An optional member that is a string; a member that is null is not there. *)
Definition optional_string {A} (txObj : jvalue) (key : string) (dflt : A) (f : list Z → result A) : result A :=
  if js_contains txObj key then
    v ← js_index txObj key;
    if is_null v then Ok dflt else s ← js_get_string v; f s
  else Ok dflt.

Definition checked_address (what_ : string) (s : list Z) : result (list Z) :=
  _ ← checked addFilter s (invalid ("Invalid " ++ what_ ++ " hex")); address_of_hex s.
Definition checked_u64 (what_ : string) (s : list Z) : result Z := _ ← checked numFilter s (invalid ("Invalid " ++ what_ ++ " hex")); hex_uint64 s.
Definition checked_u256 (what_ : string) (s : list Z) : result Z := _ ← checked numFilter s (invalid ("Invalid " ++ what_ ++ " hex")); hex_uint256 s.

(** The functor and the rest of the data of a call. *)
Definition call_parts (fullData : list Z) : list Z * list Z :=
  (if (4 <=? length fullData)%nat then take 4 fullData else zero_bytes 4, if (4 <? length fullData)%nat then drop 4 fullData else []).
Definition call_data_of (s : list Z) : result (list Z) := _ ← throw_if (negb (isValid s true)) (invalid "Invalid data hex"); toBytes s.

(** [gas], [gasPrice], [value] and [data], the same for the two methods. *)
Definition call_info (from to : list Z) (txObj : jvalue) : result ethCallInfo :=
  gas ← optional_string txObj "gas" 10000000 (checked_u64 "gas");
  gasPrice ← optional_string txObj "gasPrice" 0 (checked_u256 "gasPrice");
  value ← optional_string txObj "value" 0 (checked_u256 "value");
  fullData ← optional_string txObj "data" [] call_data_of;
  Ok (mkCallInfo from to gas gasPrice value (call_parts fullData).1 (call_parts fullData).2 fullData).

Definition eth_call (request : jvalue) : result ethCallInfo :=
  decoding "eth_call" (
    txObj ← tx_object request;
    from ← optional_string txObj "from" zero_address (checked_address "from address");
    '(v, txObj) ← js_access txObj "to";
    toAdd ← js_get_string v;
    to ← checked_address "to address" toAdd;
    call_info from to txObj).

Definition eth_estimateGas (request : jvalue) : result ethCallInfo :=
  decoding "eth_estimateGas" (
    txObj ← tx_object request;
    from ← optional_string txObj "from" zero_address (checked_address "from address");
    to ← optional_string txObj "to" zero_address (checked_address "to address");
    call_info from to txObj).

(** An address and a block, which is not used any further. *)
Definition address_and_block (method : string) (request : jvalue) : result (list Z) :=
  decoding method (
    address ← param_string request 0;
    block ← param_string request 1;
    _ ← checked_block block;
    checked_address "address" address).
Definition eth_getBalance : jvalue → result (list Z) := address_and_block "eth_getBalance".
Definition eth_getTransactionCount : jvalue → result (list Z) := address_and_block "eth_getTransactionCount".
Definition eth_getCode : jvalue → result (list Z) := address_and_block "eth_getCode".

Definition eth_getTransactionByHash (request : jvalue) : result (list Z) :=
  decoding "eth_getTransactionByHash" (
    hash ← param_string request 0;
    _ ← checked txHashFilter hash (invalid "Invalid hash hex");
    hash_from_hex hash).

Definition eth_getTransactionByBlockHashAndIndex (request : jvalue) : result (list Z * Z) :=
  decoding "eth_getTransactionByBlockHashAndIndex" (
    blockHash ← param_string request 0;
    index ← param_string request 1;
    _ ← checked txHashFilter blockHash (invalid "Invalid blockHash hex");
    _ ← checked numFilter index (invalid "Invalid index hex");
    h ← hash_from_hex blockHash;
    i ← hex_uint64 index;
    Ok (h, i)).

Definition eth_getTransactionByBlockNumberAndIndex (request : jvalue) (storage : Storage) : result (Z * Z) :=
  decoding "eth_getTransactionByBlockNumberAndIndex" (
    blockNum ← param_string request 0;
    index ← param_string request 1;
    _ ← checked numFilter index (invalid "Invalid index hex");
    if bool_decide (blockNum = string_bytes "latest") then
      height ← latest_height storage;
      i ← hex_uint64 index;
      Ok (height, i)
    else
      _ ← checked numFilter blockNum (invalid "Invalid blockNumber hex");
      height ← hex_uint64 blockNum;
      i ← hex_uint64 index;
      Ok (height, i)).

(** The text of the exception has the parameter in it. *)
Definition text_of (s : list Z) : string := String.string_of_list_ascii (map (λ c, Ascii.ascii_of_nat (Z.to_nat c)) s).
Definition eth_getTransactionReceipt (request : jvalue) : result (list Z) :=
  decoding "eth_getTransactionReceipt" (
    txHash ← param_string request 0;
    _ ← checked txHashFilter txHash (invalid ("Invalid Hex: " ++ text_of txHash));
    hash_from_hex txHash).

(** [fromBlock] and [toBlock]. *)
Definition log_block (storage : Storage) (logsObject : jvalue) (key : string) (dflt : Z) : result Z :=
  if js_contains logsObject key then
    v ← js_index logsObject key;
    s ← js_get_string v;
    block_height storage s (invalid "Invalid fromBlock hex")
  else Ok dflt.

(** The blocks that the logs are asked of; [getBlock] of an unknown hash is a null pointer, which is read. *)
Definition log_range (height : Z) (logsObject : jvalue) : M Storage (Z * Z) :=
  if js_contains logsObject "blockHash" then
    h <-- mlift (v ← js_index logsObject "blockHash"; s ← js_get_string v; _ ← checked hashFilter s (invalid "Invalid block hash hex"); hash_from_hex s);;
    block <-- getBlock h;;
    match block with
    | None => mthrow Undefined
    | Some b => mret' (nHeight_ b, nHeight_ b)
    end
  else
    storage <-- mget;;
    mlift (fromBlock ← log_block storage logsObject "fromBlock" height;
           toBlock ← log_block storage logsObject "toBlock" height;
           Ok (fromBlock, toBlock)).

Definition log_topics (logsObject : jvalue) : result (list (list Z)) :=
  if js_contains logsObject "topics" then
    v ← js_at_key logsObject "topics";
    _ ← throw_if (negb (is_array v)) (invalid "topics is not an array");
    topicsArray ← js_get_strings v;
    mapR (λ topic, _ ← checked hashFilter topic (invalid "Invalid topic hex"); hash_from_hex topic) topicsArray
  else Ok [].
Definition log_address (logsObject : jvalue) : result (list Z) :=
  if js_contains logsObject "address" then v ← js_index logsObject "address"; s ← js_get_string v; checked_address "address" s
  else Ok zero_address.

(** The heights are the ones of the contract globals when the request does not say. *)
Definition eth_getLogs (globals : ContractGlobals) (request : jvalue) : M Storage (Z * Z * list Z * list (list Z)) :=
  mtry (
    logsObject <-- mlift (params ← js_index request "params"; js_at params 0);;
    range <-- log_range (g_blockHeight_ globals) logsObject;;
    mlift (address ← log_address logsObject;
           topics ← log_topics logsObject;
           Ok (range.1, range.2, address, topics)))
  (λ r, mlift (decoding "eth_getLogs" r)).

(** The parser is given the chain id of the node, and does not use it. *)
Definition eth_sendRawTransaction (request : jvalue) : result TxBlock :=
  decoding "eth_sendRawTransaction" (
    txHex ← param_string request 0;
    _ ← throw_if (negb (isValid txHex true)) (invalid "Invalid transaction hex");
    bytes ← toBytes txHex;
    TxBlock_parse bytes).
End decoding.
