(* ===== verification/JsonRpcEncoding.v ===== *)
(** * JsonRpcEncoding: the answers of the node (src/net/http/jsonrpc/encoding.cpp)

    What each method answers, over the state of the node.  An answer is built member by member, the right-hand side of an
    assignment first; what an encoder does not catch leaves it.  The log and the standard output are not modelled. *)

From S2P Require Import Prelude Bytes SizedInts Hashing Hex ECDSA SafeBase Tx TxValidator Randomness Block P2PEncoding RdPoS Abi DB Event Storage EvmHost ContractManager State StateTx StateBlock P2PManager Regex JsonValue JsonRpcDecoding.

(** The options that the answers read; the chain id is a parameter of the state. *)
Record Options := mkOptions {
  web3clientVersion_ : list Z;
  majorSDKVersion_ : nat;
  minorSDKVersion_ : nat;
  patchSDKVersion_ : nat;
  opt_coinbase_ : list Z;
  eventBlockCap_ : Z;
  eventLogCap_ : nat
}.

Definition getSDKVersion (o : Options) : list Z :=
  string_bytes (digits (majorSDKVersion_ o) ++ "." ++ digits (minorSDKVersion_ o) ++ "." ++ digits (patchSDKVersion_ o)).

(** ** Parts *)

(** [x.hex(true)]. *)
Definition hex_js (b : list Z) : result jvalue := h ← fromBytes b true; Ok (JsString (hex_ h)).
(** [Hex::fromBytes(b, true).forRPC()]. *)
Definition rpc_hex (b : list Z) : result jvalue := h ← fromBytes b true; s ← forRPC h; Ok (JsString s).
Definition rpc_uint (n : Z) : result jvalue := rpc_hex (uintToBytes n).

(** [ret\[k1\]... = e;] one after the other. *)
Fixpoint sets (l : list (list string * result jvalue)) (ret : jvalue) : result jvalue :=
  match l with [] => Ok ret | (path, e) :: l => x ← e; ret ← js_set path x ret; sets l ret end.

Definition under (k : string) : list (string * result jvalue) → list (list string * result jvalue) := map (λ p, ([k; p.1], p.2)).
Definition members : list (string * result jvalue) → list (list string * result jvalue) := map (λ p, ([p.1], p.2)).

(** The two ways the version is written. *)
Definition version_string : result jvalue := Ok (js "2.0").
Definition version_number : result jvalue := Ok (JsFloat 2 1).

Definition answer_of (version result_ : result jvalue) : result jvalue := sets [(["jsonrpc"], version); (["result"], result_)] JsNull.
Definition error_members (code : Z) (message : string) : list (list string * result jvalue) :=
  under "error" [("code", Ok (JsInteger code)); ("message", Ok (js message))].

Section blocks.
Context {LS : LibSecp256k1} {BB : BoostBits} {KC : Keccak} {ET : ExnText}.

(** A transaction of [getBlockJson]. *)
Definition block_tx_json (tx : TxBlock) : result jvalue :=
  sets (members [
    ("type", Ok (js "0x0"));
    ("nonce", rpc_uint (nonce_ tx));
    ("to", hex_js (to_ tx));
    ("gas", rpc_uint (gasLimit_ tx));
    ("value", rpc_uint (value_ tx));
    ("input", rpc_hex (data_ tx));
    ("gasPrice", rpc_uint (maxFeePerGas_ tx));
    ("chainId", rpc_uint (chainId_ tx));
    ("v", rpc_uint (v_ tx));
    ("r", rpc_uint (r_ tx));
    ("s", rpc_uint (s_ tx))]) (JsObject []).

Fixpoint block_txs_json (includeTransactions : bool) (txs : list TxBlock) (l : jvalue) : result jvalue :=
  match txs with
  | [] => Ok l
  | tx :: txs =>
      x ← (if includeTransactions then block_tx_json tx else hex_js (hash_ tx));
      l ← js_push_back x l;
      block_txs_json includeTransactions txs l
  end.

Definition block_members (b : Block) (includeTransactions : bool) : list (string * result jvalue) := [
  ("hash", hex_js (block_hash_ b));
  ("parentHash", hex_js (prevBlockHash_ b));
  ("sha3Uncles", hex_js zero_hash);
  ("miner", hex_js (toAddress (validatorPubKey_ b)));
  ("stateRoot", hex_js zero_hash);
  ("transactionsRoot", hex_js (txMerkleRoot_ b));
  ("receiptsRoot", hex_js zero_hash);
  ("logsBloom", hex_js zero_hash);
  ("difficulty", Ok (js "0x1"));
  ("number", rpc_uint (nHeight_ b));
  ("gasLimit", rpc_uint (umax 64));
  ("gasUsed", rpc_uint 1000000000);
  ("timestamp", rpc_uint (timestamp_ b));
  ("extraData", Ok (js "0x0000000000000000000000000000000000000000000000000000000000000000"));
  ("mixHash", hex_js zero_hash);
  ("nonce", Ok (js "0x0000000000000000"));
  ("totalDifficulty", Ok (js "0x1"));
  ("baseFeePerGas", Ok (js "0x9502f900"));
  ("withdrawRoot", hex_js zero_hash);
  ("size", rpc_uint (Z.of_nat (length (serializeBlock b))));
  ("transactions", block_txs_json includeTransactions (txs_ b) (JsArray []));
  ("withdrawls", Ok (JsArray []));
  ("uncles", Ok (JsArray []))].

Definition getBlockJson (block : option Block) (includeTransactions : bool) : result jvalue :=
  let body :=
    match block with
    | None => answer_of version_number (Ok JsNull)
    | Some b => sets ((["jsonrpc"], version_number) :: under "result" (block_members b includeTransactions)) JsNull
    end in
  match body with
  | Ok ret => Ok ret
  | Throw Undefined => Throw Undefined
  | Throw e => sets ((["jsonrpc"], version_number) :: error_members (-32603) ("Internal error: " ++ what e)) JsNull
  end.

(** The members of a transaction that three methods answer. *)
Definition tx_members (tx : TxBlock) (transactionIndex : result jvalue) : list (string * result jvalue) := [
  ("from", hex_js (from_ tx));
  ("gas", rpc_uint (gasLimit_ tx));
  ("gasPrice", rpc_uint (maxFeePerGas_ tx));
  ("hash", hex_js (hash_ tx));
  ("input", rpc_hex (data_ tx));
  ("nonce", rpc_uint (nonce_ tx));
  ("to", hex_js (to_ tx));
  ("transactionIndex", transactionIndex);
  ("value", rpc_uint (value_ tx));
  ("v", rpc_uint (v_ tx));
  ("r", rpc_uint (r_ tx));
  ("s", rpc_uint (s_ tx))].

Definition mempool_tx_json (tx : TxBlock) : result jvalue :=
  sets ((["jsonrpc"], version_string) :: under "result"
    ([("blockHash", Ok JsNull); ("blockIndex", Ok JsNull)] ++ tx_members tx (Ok JsNull))) JsNull.

(** A transaction of the chain, or a null. *)
Definition tx_info_json (info : option TxInfo) : result jvalue :=
  match info with
  | Some (tx, blockHash, blockIndex, blockHeight) =>
      sets ((["jsonrpc"], version_string) :: under "result"
        ([("blockHash", hex_js blockHash); ("blockNumber", rpc_uint blockHeight)] ++ tx_members tx (rpc_uint blockIndex))) JsNull
  | None => answer_of version_string (Ok JsNull)
  end.
End blocks.

(** ** The methods *)

Section node.
Context {V T : Type} {SV : SafeVariable V T} {DBI : RocksDB} {LS : LibSecp256k1} {BB : BoostBits} {KC : Keccak}
  {VM : EVMC} {BR : BoostResidue} {CT : ContractTypes (V := V)} {HO : HashOrder} {NO : NodeOrder} {JS : Json} {ET : ExnText}.
Variables (chainOwner : list Z) (chainId : Z).
Variable options : Options.
Abbreviation MG := (Manager (V := V)).

Definition read_state {A} (f : State (V := V) → A) : M MG A := mgets (λ m, f (state_ m)).
Definition on_node_storage {A} (c : M Storage A) : M MG A := on_state (on_storage c).

(** [catch (std::exception& e) { ret\["error"\]... }] *)
Definition or_error (ret : jvalue) (body : M MG jvalue) : M MG jvalue :=
  mtry body (λ r, mlift
    match r with
    | Ok j => Ok j
    | Throw e => sets (error_members (-32000) ("Internal error: " ++ what e)) ret
    end).

Definition web3_clientVersion : result jvalue := answer_of version_string (Ok (JsString (web3clientVersion_ options))).
Definition web3_sha3 (data : list Z) : result jvalue := answer_of version_string (hex_js (sha3 data)).
Definition net_version : result jvalue := answer_of version_number (rpc_uint chainId).
Definition net_listening : result jvalue := answer_of version_number (Ok (JsBool true)).
Definition net_peerCount (m : MG) : result jvalue := answer_of version_number (rpc_uint (Z.of_nat (size (sessions_ m)))).
Definition eth_protocolVersion : result jvalue := answer_of version_number (Ok (JsString (getSDKVersion options))).
Definition eth_chainId : result jvalue := answer_of version_string (rpc_uint chainId).
Definition eth_syncing : result jvalue := answer_of version_string (Ok (JsBool false)).
Definition eth_coinbase : result jvalue := answer_of version_string (hex_js (opt_coinbase_ options)).
Definition eth_gasPrice : result jvalue := answer_of version_string (Ok (js "0x9502f900")).

Definition eth_getBlockByHash (blockInfo : list Z * bool) : M MG jvalue :=
  block <-- on_node_storage (getBlock blockInfo.1);; mlift (getBlockJson block blockInfo.2).
Definition eth_getBlockByNumber (blockInfo : Z * bool) : M MG jvalue :=
  block <-- on_node_storage (getBlock_height blockInfo.1);; mlift (getBlockJson block blockInfo.2).

(** The pointer is read after the test that it is null. *)
Definition block_count_json (block : option Block) : result jvalue :=
  match block with
  | None => Throw Undefined
  | Some b => answer_of version_string (rpc_uint (Z.of_nat (length (txs_ b))))
  end.
Definition eth_getBlockTransactionCountByHash (blockHash : list Z) : M MG jvalue :=
  block <-- on_node_storage (getBlock blockHash);; mlift (block_count_json block).
Definition eth_getBlockTransactionCountByNumber (blockNumber : Z) : M MG jvalue :=
  block <-- on_node_storage (getBlock_height blockNumber);; mlift (block_count_json block).

Definition eth_blockNumber : M MG jvalue :=
  sto <-- read_state storage_;;
  mlift (latestBlock ← latest sto; answer_of version_string (rpc_uint (nHeight_ latestBlock))).

Definition eth_call (callInfo : ethCallInfo) : M MG jvalue :=
  ret <-- mlift (sets [(["jsonrpc"], version_string)] JsNull);;
  or_error ret (
    output <-- on_state (ethCall chainOwner chainId callInfo);;
    mlift (sets [(["result"], hex_js output)] ret)).

Definition eth_estimateGas (callInfo : ethCallInfo) : M MG jvalue :=
  ret <-- mlift (sets [(["jsonrpc"], version_string)] JsNull);;
  or_error ret (
    gas <-- on_state (estimateGas chainOwner chainId callInfo);;
    mthrow_if (gas =? 0) (RuntimeError "Insufficient balance for tx.value() + gas") ;;;
    mlift (sets [(["result"], rpc_uint gas)] ret)).

(** [ret\["result"\].push_back(e.serializeForRPC())] for each event: the answer so far, and how the loop ends. *)
Fixpoint push_events (es : list Event) (ret : jvalue) : jvalue * result unit :=
  match es with
  | [] => (ret, Ok tt)
  | e :: es =>
      match js_access ret "result" with
      | Throw x => (ret, Throw x)
      | Ok (v, ret) =>
          match (s ← serializeForRPC e; v ← js_push_back (JsString s) v; js_set ["result"] v ret) with
          | Throw x => (ret, Throw x)
          | Ok ret => push_events es ret
          end
      end
  end.

Definition node_getEvents (info : Z * Z * list Z * list (list Z)) (s : State (V := V)) : result (list Event) :=
  let '(fromBlock, toBlock, address, topics) := info in
  getEvents (eventBlockCap_ options) (eventLogCap_ options) (storage_db (storage_ s)) (eventManager_ (contractManager_ s))
    fromBlock toBlock address topics.

Definition eth_getLogs (info : Z * Z * list Z * list (list Z)) : M MG jvalue :=
  events <-- read_state (node_getEvents info);;
  mlift (
    ret ← sets [(["jsonrpc"], version_string)] JsNull;
    let '(ret, end_) := match events with Ok es => push_events es ret | Throw e => (ret, Throw e) end in
    match end_ with
    | Ok _ => Ok ret
    | Throw Undefined => Throw Undefined
    | Throw e => sets (error_members (-32000) ("Internal error: " ++ what e)) ret
    end).

Definition eth_getBalance (address : list Z) : M MG jvalue :=
  balance <-- read_state (λ s, getNativeBalance s address);; mlift (answer_of version_string (rpc_uint balance)).
Definition eth_getTransactionCount (address : list Z) : M MG jvalue :=
  nonce <-- read_state (λ s, getNativeNonce s address);; mlift (answer_of version_string (rpc_uint nonce)).
Definition eth_getCode (address : list Z) : M MG jvalue :=
  code <-- on_state (getContractCode address);; mlift (answer_of version_string (rpc_hex code)).

(** What [TxInvalid] other than [NotInvalid] is answered with. *)
Definition invalid_message (txInvalid : TxInvalid) : string :=
  match txInvalid with InvalidNonce => "Invalid nonce" | InvalidBalance => "Invalid balance" | NotInvalid => "" end.

Definition eth_sendRawTransaction (tx : TxBlock) : M MG jvalue :=
  ret <-- mlift (sets [(["jsonrpc"], version_string)] JsNull);;
  txInvalid <-- on_state (addTx tx);;
  if decide (txInvalid = NotInvalid) then
    ret <-- mlift (sets [(["result"], hex_js (hash_ tx))] ret);;
    broadcastTxBlock tx ;;;
    mret' ret
  else mlift (sets (error_members (-32000) (invalid_message txInvalid)) ret).

Definition eth_getTransactionByHash (txHash : list Z) : M MG jvalue :=
  txOnMempool <-- read_state (λ s, getTxFromMempool s txHash);;
  match txOnMempool with
  | Some tx => mlift (mempool_tx_json tx)
  | None => txOnChain <-- on_node_storage (getTx txHash);; mlift (tx_info_json txOnChain)
  end.
Definition eth_getTransactionByBlockHashAndIndex (requestInfo : list Z * Z) : M MG jvalue :=
  txInfo <-- on_node_storage (getTxByBlockHashAndIndex requestInfo.1 requestInfo.2);; mlift (tx_info_json txInfo).
Definition eth_getTransactionByBlockNumberAndIndex (requestInfo : Z * Z) : M MG jvalue :=
  txInfo <-- on_node_storage (getTxByBlockNumberAndIndex requestInfo.1 requestInfo.2);; mlift (tx_info_json txInfo).

Definition receipt_members (tx : TxBlock) (blockHash : list Z) (txIndex blockHeight : Z) : list (string * result jvalue) := [
  ("transactionHash", hex_js (hash_ tx));
  ("transactionIndex", rpc_uint txIndex);
  ("blockHash", hex_js blockHash);
  ("blockNumber", rpc_uint blockHeight);
  ("from", hex_js (from_ tx));
  ("to", hex_js (to_ tx));
  ("cumulativeGasUsed", rpc_uint (gasLimit_ tx));
  ("effectiveGasUsed", rpc_uint (gasLimit_ tx));
  ("effectiveGasPrice", rpc_uint (maxFeePerGas_ tx));
  ("gasUsed", rpc_uint (gasLimit_ tx))].

(** The logs: the loop has no [try] around it. *)
Definition receipt_logs (events : result (list Event)) : result jvalue :=
  es ← events;
  logs ← mapR serializeForRPC es;
  Ok (JsArray (map JsString logs)).

Definition eth_getTransactionReceipt (txHash : list Z) : M MG jvalue :=
  txInfo <-- on_node_storage (getTx txHash);;
  match txInfo with
  | None => mlift (answer_of version_string (Ok JsNull))
  | Some (tx, blockHash, txIndex, blockHeight) =>
      ret <-- mlift (sets ((["jsonrpc"], version_string) :: under "result" (receipt_members tx blockHash txIndex blockHeight)) JsNull);;
      created <-- on_state (getEvmContractAddress (hash_ tx));;
      contractAddress <-- (if nonzero created then
                             again <-- on_state (getEvmContractAddress (hash_ tx));; mlift (hex_js again)
                           else mret' JsNull);;
      events <-- read_state (λ s, getEvents_tx (eventLogCap_ options) (storage_db (storage_ s))
                                    (eventManager_ (contractManager_ s)) txHash blockHeight txIndex);;
      mlift (sets (under "result" [
        ("contractAddress", Ok contractAddress);
        ("logs", Ok (JsArray []));
        ("logsBloom", hex_js zero_hash);
        ("type", Ok (js "0x00"));
        ("root", hex_js zero_hash);
        ("status", Ok (js "0x1"));
        ("logs", receipt_logs events)]) ret)
  end.
End node.

(** ** Quantities *)

(** The encoding of a number does not begin with a zero. *)
Lemma uintToBytes_leading n : 0 < n → in_uint 256 n → ∃ x b, uintToBytes n = x :: b ∧ 0 < x < 256 ∧ bytes_ok b.
Proof.
  intros Hn Hi. destruct (bytesRequired_spec n Hi) as (Hb & _ & Hge & _). destruct (Hge Hn) as [H1 Hlow].
  assert (Hl := uintToBytes_length n Hi). assert (Hok := uintToBytes_ok n ltac:(lia)). assert (Hd := be_decode_uintToBytes n Hi).
  destruct (uintToBytes n) as [|x b]; [cbn [length] in Hl; lia|]. apply Forall_cons in Hok as [Hx Hok]. exists x, b. split; [done|]. split; [|done].
  unfold is_byte in Hx. assert (x ≠ 0); [|lia]. intros ->.
  change (0 :: b) with ([0] ++ b) in Hd. rewrite be_decode_app in Hd. assert (Hbd := be_decode_bound b Hok). cbn [length] in Hl.
  replace (bytesRequired n - 1) with (Z.of_nat (length b)) in Hlow by lia. change (be_decode [0]) with 0 in Hd. lia.
Qed.

Lemma leading_digit_of k : 0 < k < 16 → leading_digit (digit k) = true ∧ (digit k =? chr_0) = false.
Proof. intros Hk. assert (H : 0 ≤ k < 16) by lia. nibble_cases k; try done; lia. Qed.
Lemma lower_digit_of k : 0 ≤ k < 16 → lower_digit (digit k) = true.
Proof. intros Hk. by nibble_cases k. Qed.
Lemma lower_digits_of ns : Forall (λ n, 0 ≤ n < 16) ns → forallb lower_digit (map digit ns) = true.
Proof. induction 1 as [|k ns Hk]; cbn; [done|]. by rewrite lower_digit_of. Qed.

(** The digits of a number without the zero in front. *)
Definition quantity_digits (x : Z) (b : list Z) : list Z :=
  (if x <? 16 then [digit x] else [digit (x / 16); digit (x mod 16)]) ++ map digit (nibbles b).

Lemma erase_zeros_quantity x b : 0 < x < 256 → erase_zeros (map digit (nibbles (x :: b))) = quantity_digits x b.
Proof.
  intros Hx. unfold quantity_digits. cbn [nibbles map concat app]. destruct (Z.ltb_spec x 16) as [Hs|Hs].
  - rewrite Z.div_small, Z.mod_small by lia. cbn. by rewrite (proj2 (leading_digit_of x ltac:(lia))).
  - assert (0 < x / 16 < 16) by (split; [apply Z.div_str_pos; lia|apply Z.div_lt_upper_bound; lia]).
    cbn. by rewrite (proj2 (leading_digit_of (x / 16) ltac:(lia))).
Qed.

Lemma forRPC_digits s strict : s ≠ [] → forRPC (mkHex ([chr_0; chr_x] ++ s) strict) = Ok ([48; 120] ++ erase_zeros s).
Proof. destruct s; [done|]. done. Qed.

Lemma rpc_hex_nonzero x b : 0 < x < 256 → bytes_ok b → rpc_hex (x :: b) = Ok (JsString ([48; 120] ++ quantity_digits x b)).
Proof.
  intros Hx Hb. unfold rpc_hex. rewrite fromBytes_string by (by constructor; [unfold is_byte; lia|]). rewrite result_bind_Ok, hex2_nibbles.
  rewrite (forRPC_digits (map digit (nibbles (x :: b)))) by done. by rewrite erase_zeros_quantity.
Qed.

Lemma quantity_digits_ok x b : 0 < x < 256 → bytes_ok b → is_quantity ([48; 120] ++ quantity_digits x b) = true.
Proof.
  intros Hx Hb. assert (Hn := lower_digits_of _ (nibbles_range _ Hb)). unfold quantity_digits. destruct (Z.ltb_spec x 16) as [Hs|Hs]; cbn.
  - by rewrite (proj1 (leading_digit_of x ltac:(lia))), Hn.
  - assert (0 < x / 16 < 16) by (split; [apply Z.div_str_pos; lia|apply Z.div_lt_upper_bound; lia]).
    rewrite (proj1 (leading_digit_of (x / 16) ltac:(lia))), (lower_digit_of (x mod 16)) by (apply Z.mod_pos_bound; lia). by rewrite Hn.
Qed.

(** Either way the digits are read, the bytes come back. *)
Lemma toBytes_quantity x b : 0 < x < 256 → bytes_ok b → toBytes (quantity_digits x b) = Ok (x :: b).
Proof.
  intros Hx Hb. assert (Hd := hexdigits_of _ Hb). unfold quantity_digits. destruct (Z.ltb_spec x 16) as [Hs|Hs].
  - assert (Hk := in_filter_digit x ltac:(lia)). destruct (hexdigit_spec _ _ Hk) as (Hf & Hi & _).
    unfold toBytes, view_has_0x. cbn [app]. change (read_at (digit x :: ?l) 0) with (Ok (digit x)). rewrite result_bind_Ok.
    rewrite (proj2 (leading_digit_of x ltac:(lia))), result_bind_Ok. rewrite find_none by (cbn [drop]; constructor; [done|]; by eapply hexdigits_filter).
    unfold digits_to_bytes. cbn [drop length]. rewrite (hexdigits_length _ _ Hd), Nat.odd_succ, <- Nat.negb_odd, even_not_odd. cbn [negb].
    rewrite (pairs_loop_hexdigits _ _ Hb Hd), result_bind_Ok, Hi, Z.mod_small by lia. done.
  - destruct (toBytes_hexdigits (map digit (nibbles (x :: b))) (x :: b)) as [H _]; [|done| |exact H].
    + constructor; [unfold is_byte; lia|done].
    + apply hexdigits_of. constructor; [unfold is_byte; lia|done].
Qed.

Lemma Hex_of_quantity x b : 0 < x < 256 → bytes_ok b → Hex_of ([48; 120] ++ quantity_digits x b) false = Ok (mkHex (quantity_digits x b) false).
Proof.
  intros Hx Hb. unfold Hex_of. change (string_has_0x ([48; 120] ++ _)) with (Ok true). rewrite !result_bind_Ok.
  change (drop 2 _) with (quantity_digits x b). assert (Hv : isValid (quantity_digits x b) false = true); [|by rewrite Hv].
  apply bool_decide_eq_true, find_none. cbn [drop]. unfold quantity_digits.
  assert (Hd : Forall (λ c, in_filter c = true) (map digit (nibbles b))) by (eapply hexdigits_filter; by apply hexdigits_of).
  assert (Hc : ∀ k, 0 ≤ k < 16 → in_filter (digit k) = true) by (intros k Hk; by nibble_cases k).
  destruct (Z.ltb_spec x 16); apply Forall_app; split; try done; repeat constructor; apply Hc; try lia.
  - split; [apply Z.div_pos; lia|apply Z.div_lt_upper_bound; lia].
  - apply Z.mod_pos_bound. lia.
Qed.

Lemma quantity_spec n :
  in_uint 256 n → 0 < n →
  ∃ q, rpc_uint n = Ok (JsString q) ∧ regex_match numFilter q = true ∧ hex_uint256 q = Ok n ∧ (n < 2 ^ 64 → hex_uint64 q = Ok n).
Proof.
  intros Hi Hn. destruct (uintToBytes_leading n Hn Hi) as (x & b & E & Hx & Hb). exists ([48; 120] ++ quantity_digits x b).
  unfold rpc_uint. rewrite E, rpc_hex_nonzero, numFilter_quantity, quantity_digits_ok by done.
  assert (Hu : hex_uint256 ([48; 120] ++ quantity_digits x b) = Ok n).
  { unfold hex_uint256. rewrite Hex_of_quantity by done. rewrite result_bind_Ok. unfold getUint. cbn [hex_]. rewrite toBytes_quantity, result_bind_Ok by done.
    rewrite <- E. destruct (bytesRequired_spec n Hi) as (H32 & _). assert (Hl := uintToBytes_length n Hi).
    destruct (Nat.ltb_spec 32 (length (uintToBytes n))); [lia|]. by rewrite be_decode_uintToBytes. }
  split_and!; [done..|]. intros H64. unfold hex_uint64, hex_uint256 in *. destruct (Hex_of _ false); [|done]. rewrite result_bind_Ok in *. rewrite Hu, result_bind_Ok.
  unfold cast_uint. cbn [native_width]. change (native_width 64) with true. cbv iota. unfold umax. destruct (Z.leb_spec n (2 ^ 64 - 1)); [done|lia].
Qed.

(** C34: A number that the node answers passes the filter of the requests and is read back; the zero passes it too, and reading
    it looks past the end of the digits. *)
Theorem quantity_roundtrip n :
  in_uint 256 n → 0 < n →
  ∃ q, rpc_uint n = Ok (JsString q) ∧ regex_match numFilter q = true ∧ hex_uint256 q = Ok n ∧ (n < 2 ^ 64 → hex_uint64 q = Ok n).
Proof. apply quantity_spec. Qed.

Lemma quantity_roundtrip_witness :
  ∃ q, rpc_uint 4660 = Ok (JsString q) ∧ regex_match numFilter q = true ∧ hex_uint256 q = Ok 4660 ∧ (4660 < 2 ^ 64 → hex_uint64 q = Ok 4660).
Proof. apply (quantity_roundtrip 4660); [split; vm_compute; done|lia]. Defined.

Lemma zero_quantity : rpc_uint 0 = Ok (js "0x0") ∧ regex_match numFilter (string_bytes "0x0") = true ∧ hex_uint64 (string_bytes "0x0") = Throw Undefined.
Proof. by vm_compute. Qed.
