(* ===== verification/HttpParser.v ===== *)
(** * HttpParser: requests to the node over HTTP (src/net/http/httpparser.cpp, httpparser.h)

    [parseJsonRpcRequest], which decodes the body of a request, runs the method and writes the answer, and [handle_request],
    which chooses the HTTP response.  Of a response the model keeps what the code decides: the status, the type of the content,
    the body, and whether the connection is kept. *)

From S2P Require Import Prelude Bytes SizedInts Hashing Hex ECDSA SafeBase Tx TxValidator Randomness Block P2PEncoding RdPoS Abi DB Event Storage EvmHost ContractManager State StateTx StateBlock P2PManager JsonValue JsonRpcDecoding JsonRpcEncoding.

Section parser.
Context {V T : Type} {SV : SafeVariable V T} {DBI : RocksDB} {LS : LibSecp256k1} {BB : BoostBits} {KC : Keccak}
  {VM : EVMC} {BR : BoostResidue} {CT : ContractTypes (V := V)} {HO : HashOrder} {NO : NodeOrder} {JS : Json} {ET : ExnText}
  {JT : JsonText}.
Variables (chainOwner : list Z) (chainId : Z).
Variable options : Options.
Abbreviation MG := (Manager (V := V)).

Definition method_not_found : result jvalue := sets (error_members (-32601) "Method not found") JsNull.

(** A method without parameters. *)
Definition plain (decoded : result unit) (ret : result jvalue) : M MG jvalue := mlift decoded ;;; mlift ret.
(** A method whose argument is decoded first. *)
Definition with_arg {A} (decoded : result A) (encode : A → M MG jvalue) : M MG jvalue := a <-- mlift decoded;; encode a.
(** The same for a decoder that looks at the storage. *)
Definition with_arg_sto {A} (decode : Storage → result A) (encode : A → M MG jvalue) : M MG jvalue :=
  sto <-- read_state storage_;; with_arg (decode sto) encode.

Definition run_method (m : Methods) (request : jvalue) : M MG jvalue :=
  match m with
  | m_invalid => mlift method_not_found
  | m_web3_clientVersion => plain (JsonRpcDecoding.web3_clientVersion request) (JsonRpcEncoding.web3_clientVersion options)
  | m_web3_sha3 => with_arg (JsonRpcDecoding.web3_sha3 request) (λ data, mlift (JsonRpcEncoding.web3_sha3 data))
  | m_net_version => plain (JsonRpcDecoding.net_version request) (JsonRpcEncoding.net_version chainId)
  | m_net_listening => plain (JsonRpcDecoding.net_listening request) JsonRpcEncoding.net_listening
  | m_net_peerCount => mlift (JsonRpcDecoding.net_peerCount request) ;;; p2p <-- mget;; mlift (JsonRpcEncoding.net_peerCount p2p)
  | m_eth_protocolVersion => plain (JsonRpcDecoding.eth_protocolVersion request) (JsonRpcEncoding.eth_protocolVersion options)
  | m_eth_getBlockByHash => with_arg (JsonRpcDecoding.eth_getBlockByHash request) JsonRpcEncoding.eth_getBlockByHash
  | m_eth_getBlockByNumber => with_arg_sto (JsonRpcDecoding.eth_getBlockByNumber request) JsonRpcEncoding.eth_getBlockByNumber
  | m_eth_getBlockTransactionCountByHash =>
      with_arg (JsonRpcDecoding.eth_getBlockTransactionCountByHash request) JsonRpcEncoding.eth_getBlockTransactionCountByHash
  | m_eth_getBlockTransactionCountByNumber =>
      with_arg_sto (JsonRpcDecoding.eth_getBlockTransactionCountByNumber request) JsonRpcEncoding.eth_getBlockTransactionCountByNumber
  | m_eth_chainId => plain (JsonRpcDecoding.eth_chainId request) (JsonRpcEncoding.eth_chainId chainId)
  | m_eth_syncing => plain (JsonRpcDecoding.eth_syncing request) JsonRpcEncoding.eth_syncing
  | m_eth_coinbase => plain (JsonRpcDecoding.eth_coinbase request) (JsonRpcEncoding.eth_coinbase options)
  | m_eth_blockNumber => mlift (JsonRpcDecoding.eth_blockNumber request) ;;; JsonRpcEncoding.eth_blockNumber
  | m_eth_call => with_arg (JsonRpcDecoding.eth_call request) (JsonRpcEncoding.eth_call chainOwner chainId)
  | m_eth_estimateGas => with_arg (JsonRpcDecoding.eth_estimateGas request) (JsonRpcEncoding.eth_estimateGas chainOwner chainId)
  | m_eth_gasPrice => plain (JsonRpcDecoding.eth_gasPrice request) JsonRpcEncoding.eth_gasPrice
  | m_eth_getLogs =>
      globals <-- read_state (λ s, globals_ (contractManager_ s));;
      info <-- on_node_storage (JsonRpcDecoding.eth_getLogs globals request);;
      JsonRpcEncoding.eth_getLogs options info
  | m_eth_getBalance => with_arg (JsonRpcDecoding.eth_getBalance request) JsonRpcEncoding.eth_getBalance
  | m_eth_getTransactionCount => with_arg (JsonRpcDecoding.eth_getTransactionCount request) JsonRpcEncoding.eth_getTransactionCount
  | m_eth_getCode => with_arg (JsonRpcDecoding.eth_getCode request) JsonRpcEncoding.eth_getCode
  | m_eth_sendTransaction => mlift method_not_found
  | m_eth_sendRawTransaction => with_arg (JsonRpcDecoding.eth_sendRawTransaction request) JsonRpcEncoding.eth_sendRawTransaction
  | m_eth_getTransactionByHash => with_arg (JsonRpcDecoding.eth_getTransactionByHash request) JsonRpcEncoding.eth_getTransactionByHash
  | m_eth_getTransactionByBlockHashAndIndex =>
      with_arg (JsonRpcDecoding.eth_getTransactionByBlockHashAndIndex request) JsonRpcEncoding.eth_getTransactionByBlockHashAndIndex
  | m_eth_getTransactionByBlockNumberAndIndex =>
      with_arg_sto (JsonRpcDecoding.eth_getTransactionByBlockNumberAndIndex request) JsonRpcEncoding.eth_getTransactionByBlockNumberAndIndex
  | m_eth_getTransactionReceipt =>
      with_arg (JsonRpcDecoding.eth_getTransactionReceipt request) (JsonRpcEncoding.eth_getTransactionReceipt options)
  end.

(** The member [id] of the answer: a request without one has it inserted as a null. *)
Definition answer_id (request : jvalue) : result jvalue :=
  '(id, _) ← js_access request "id";
  if is_string id then s ← js_get_string id; Ok (JsString s)
  else if is_number id then n ← js_get_uint64 id; Ok (JsUnsigned n)
  else if is_null id then Ok JsNull
  else Throw (invalid "Invalid id type").

(** The answer before it is written; [None] is a request that is not one of JSON-RPC 2.0. *)
Definition answer_request (body : list Z) : M MG (option jvalue) :=
  request <-- mlift (json_parse body);;
  ok <-- mlift (checkJsonRPCSpec request);;
  if negb ok then mret' None
  else
    m <-- mlift (getMethod request);;
    ret <-- run_method m request;;
    mlift (ret ← sets [(["id"], answer_id request)] ret; Ok (Some ret)).

Definition invalid_request : result jvalue :=
  sets (error_members (-32600) "Invalid request - does not conform to JSON-RPC 2.0 spec") JsNull.
Definition internal_error (e : exn) : result jvalue :=
  sets ([(["id"], Ok (JsUnsigned 0)); (["jsonrpc"], version_number)] ++ error_members (-32603) ("Internal error: " ++ what e)) JsNull.

(** The last [dump()] is outside the [try]; the one for an invalid request is inside. *)
Definition parseJsonRpcRequest (body : list Z) : M MG (list Z) :=
  mtry
    (ret <-- answer_request body;;
     match ret with
     | None => out <-- mlift (j ← invalid_request; json_dump j);; mret' (inl out)
     | Some ret => mret' (inr ret)
     end)
    (λ r, mlift
      match r with
      | Ok (inl out) => Ok out
      | Ok (inr ret) => json_dump ret
      | Throw e => j ← internal_error e; json_dump j
      end).

(** ** [handle_request] *)

Inductive verb := verb_post | verb_options | verb_other.

Record HttpRequest := mkHttpRequest {
  req_method : verb;
  req_target : list Z;
  req_body : list Z;
  req_keep_alive : bool
}.

Record HttpResponse := mkHttpResponse {
  res_status : Z;
  res_content_type : option string;
  res_body : list Z;
  res_keep_alive : bool
}.

Definition bad_request (req : HttpRequest) (why : string) : HttpResponse :=
  mkHttpResponse 400 (Some "text/html") (string_bytes why) (req_keep_alive req).

(** [target.find("..") != npos]. *)
Fixpoint has_dots (s : list Z) : bool :=
  match s with
  | a :: (b :: _) as rest => ((a =? 46) && (b =? 46)) || has_dots rest
  | _ => false
  end.

Definition legal_target (target : list Z) : bool :=
  match target with [] => false | c :: _ => (c =? 47) && negb (has_dots target) end.

Definition handle_request (req : HttpRequest) : M MG HttpResponse :=
  match req_method req with
  | verb_other => mret' (bad_request req "Unknown HTTP-method")
  | _ =>
      if negb (legal_target (req_target req)) then mret' (bad_request req "Illegal request-target")
      else
        match req_method req with
        | verb_options => mret' (mkHttpResponse 200 None [] (req_keep_alive req))
        | _ =>
            answer <-- parseJsonRpcRequest (req_body req);;
            mret' (mkHttpResponse 200 (Some "application/json") answer (req_keep_alive req))
        end
  end.
End parser.
