(* ===== verification/JsonRpcAnswers.v ===== *)
(** * JsonRpcAnswers: what a JSON-RPC request does (src/net/http/httpparser.cpp with decoding.cpp and encoding.cpp)

    The requests that only read leave the node alone; a raw transaction goes to the mempool and to the other nodes; the
    answer carries the identifier of the request. *)

From S2P Require Import Prelude Bytes SizedInts Hashing Hex ECDSA SafeBase SafeCell Tx TxValidator Randomness Block P2PEncoding RdPoS Abi DB Event Storage EvmHost ContractManager State StateTx StateBlock P2PManager P2PFlood Regex JsonValue JsonRpcDecoding JsonRpcEncoding HttpParser.

Section answers.
Context {V T : Type} {SV : SafeVariable V T} {DBI : RocksDB} {LS : LibSecp256k1} {BB : BoostBits} {KC : Keccak}
  {VM : EVMC} {BR : BoostResidue} {CT : ContractTypes (V := V)} {HO : HashOrder} {NO : NodeOrder} {JS : Json} {ET : ExnText}
  {JT : JsonText}.
Variables (chainOwner : list Z) (chainId : Z).
Variable options : Options.
Abbreviation MG := (Manager (V := V)).
Abbreviation ST := (State (V := V)).
Abbreviation rpc := (parseJsonRpcRequest (V := V) chainOwner chainId options).

(** ** Requests that read *)

(** The storage without its caches. *)
Definition uncached (sto : Storage) : Storage := with_cachedTxs (with_cachedBlocks sto ∅) ∅.

(** The parts of the node that a read leaves alone. *)
Definition node_core (m : MG) : (bool * gmap NodeID Z * gmap (list Z) Request * gmap Z Z * list (NodeID * Message)) *
    (gmap (list Z) TxBlock * rdPoS * Storage) :=
  ((started_ m, sessions_ m, requests_ m, broadcastedMessages_ m, sent_ m),
   (mempool_ (state_ m), rdpos_ (state_ m), uncached (storage_ (state_ m)))).
Definition quiet (m0 m : MG) : Prop := node_core m = node_core m0.

Definition state_core (s : ST) : gmap (list Z) TxBlock * rdPoS * Storage := (mempool_ s, rdpos_ s, uncached (storage_ s)).

Section reads.
Variable m0 : MG.

Lemma quiet_on_state {A} (c : M ST A) : (∀ s0, keeps (λ s, state_core s = s0) c) → keeps (quiet m0) (on_state c).
Proof.
  intros Hc m Hm. unfold on_state. specialize (Hc (state_core (state_ m)) (state_ m) eq_refl).
  destruct (c (state_ m)) as [r s]. cbn in *. unfold quiet, node_core, state_core in *. cbn. congruence.
Qed.

Lemma core_on_host {A} (c : M EVMHost A) s0 : keeps (λ s : ST, state_core s = s0) (on_host c).
Proof. intros s Hs. unfold on_host. by destruct (c (evmHost_ s)). Qed.

Lemma core_on_contracts {A} (c : M (ContractManager * (EVMHost * bool)) A) s0 : keeps (λ s : ST, state_core s = s0) (on_contracts c).
Proof. intros s Hs. unfold on_contracts. by destruct (c _) as [r [cm [h p]]]. Qed.

Lemma core_seed seed s0 : keeps (λ s : ST, state_core s = s0) (mmodify (set_seed seed)).
Proof. by apply keeps_modify. Qed.

Lemma core_evm_execute ci s0 : keeps (λ s : ST, state_core s = s0) (evm_execute ci).
Proof. intros s Hs. unfold evm_execute. repeat case_match; done. Qed.
#[local] Hint Resolve core_on_host core_on_contracts core_seed core_evm_execute : keeps.

Ltac core := repeat first [by auto with keeps | apply keeps_bind; [|intros ?] | case_match | case_decide].

Lemma core_latest_seed s0 : keeps (λ s : ST, state_core s = s0) latest_seed.
Proof. unfold latest_seed. core. Qed.
#[local] Hint Resolve core_latest_seed : keeps.
Lemma core_dry_run ci s0 : keeps (λ s : ST, state_core s = s0) (dry_run chainId ci).
Proof. unfold dry_run. core. Qed.
#[local] Hint Resolve core_dry_run : keeps.
Lemma core_ethCall ci s0 : keeps (λ s : ST, state_core s = s0) (ethCall chainOwner chainId ci).
Proof. unfold ethCall. core. Qed.
Lemma core_estimateGas ci s0 : keeps (λ s : ST, state_core s = s0) (estimateGas chainOwner chainId ci).
Proof. unfold estimateGas. core. Qed.
Lemma core_on_storage {A} (c : M Storage A) s0 :
  (∀ sto0, keeps (λ sto, uncached sto = sto0) c) → keeps (λ s : ST, state_core s = s0) (on_storage c).
Proof.
  intros Hc s Hs. unfold on_storage. specialize (Hc _ (storage_ s) eq_refl). destruct (c (storage_ s)) as [r sto].
  unfold state_core in *. cbn in *. congruence.
Qed.

Lemma uncached_blocks sto m : uncached (with_cachedBlocks sto m) = uncached sto.
Proof. done. Qed.
Lemma uncached_txs sto m : uncached (with_cachedTxs sto m) = uncached sto.
Proof. done. Qed.

(** Every read of the storage fills the caches at most. *)
Ltac storage_read := intros sto; repeat first [done | case_match | by cbn; congruence].

Lemma reads_getBlock h sto0 : keeps (λ sto, uncached sto = sto0) (getBlock h).
Proof. unfold getBlock, cache_block. storage_read. Qed.
Lemma reads_getBlock_height h sto0 : keeps (λ sto, uncached sto = sto0) (getBlock_height h).
Proof. unfold getBlock_height, cache_block. storage_read. Qed.
Lemma reads_getTx h sto0 : keeps (λ sto, uncached sto = sto0) (getTx h).
Proof. unfold getTx, cache_tx. storage_read. Qed.
Lemma reads_db_tx_of h i sto0 : keeps (λ sto, uncached sto = sto0) (db_tx_of h i).
Proof. unfold db_tx_of, cache_tx. storage_read. Qed.
Lemma reads_getTxByBlockHashAndIndex h i sto0 : keeps (λ sto, uncached sto = sto0) (getTxByBlockHashAndIndex h i).
Proof. unfold getTxByBlockHashAndIndex. intros sto Hs. case_match; try done. by apply reads_db_tx_of. Qed.
Lemma reads_getTxByBlockNumberAndIndex h i sto0 : keeps (λ sto, uncached sto = sto0) (getTxByBlockNumberAndIndex h i).
Proof. unfold getTxByBlockNumberAndIndex. intros sto Hs. repeat case_match; try done. by apply reads_db_tx_of. Qed.

Lemma quiet_storage {A} (c : M Storage A) : (∀ sto0, keeps (λ sto, uncached sto = sto0) c) → keeps (quiet m0) (on_node_storage c).
Proof. intros Hc. apply quiet_on_state. intros s0. by apply core_on_storage. Qed.

Lemma reads_log_range height logs sto0 : keeps (λ sto, uncached sto = sto0) (log_range height logs).
Proof. unfold log_range. assert (H := reads_getBlock). core. Qed.
#[local] Hint Resolve reads_log_range : keeps.
Lemma reads_eth_getLogs globals request sto0 : keeps (λ sto, uncached sto = sto0) (JsonRpcDecoding.eth_getLogs globals request).
Proof. unfold JsonRpcDecoding.eth_getLogs. apply keeps_mtry; core. Qed.

Lemma quiet_read_state {A} (f : ST → A) : keeps (quiet m0) (read_state f).
Proof. apply keeps_gets. Qed.
Lemma quiet_or_error ret body : keeps (quiet m0) body → keeps (quiet m0) (or_error ret body).
Proof. intros Hb. apply keeps_mtry; [done|]. intros r. apply keeps_lift. Qed.

#[local] Hint Resolve quiet_on_state quiet_storage quiet_read_state quiet_or_error core_ethCall core_estimateGas reads_getBlock reads_getBlock_height
  reads_getTx reads_getTxByBlockHashAndIndex reads_getTxByBlockNumberAndIndex reads_eth_getLogs : keeps.

Lemma quiet_getContractCode addr : keeps (quiet m0) (on_state (getContractCode addr)).
Proof. apply quiet_on_state. intros s0. unfold getContractCode. core. Qed.
Lemma quiet_getEvmContractAddress h : keeps (quiet m0) (on_state (getEvmContractAddress h)).
Proof. apply quiet_on_state. intros s0. unfold getEvmContractAddress. core. Qed.
#[local] Hint Resolve quiet_getContractCode quiet_getEvmContractAddress : keeps.

(** Only a raw transaction changes the sessions, the pools, the consensus, the chain or what has been sent. *)
Lemma quiet_method method request : method ≠ m_eth_sendRawTransaction → keeps (quiet m0) (run_method chainOwner chainId options method request).
Proof.
  intros Hm. destruct method; try done; cbn [run_method]; unfold plain, with_arg, with_arg_sto,
    JsonRpcEncoding.eth_getBlockByHash, JsonRpcEncoding.eth_getBlockByNumber, JsonRpcEncoding.eth_getBlockTransactionCountByHash,
    JsonRpcEncoding.eth_getBlockTransactionCountByNumber, JsonRpcEncoding.eth_blockNumber, JsonRpcEncoding.eth_call,
    JsonRpcEncoding.eth_estimateGas, JsonRpcEncoding.eth_getLogs, JsonRpcEncoding.eth_getBalance, JsonRpcEncoding.eth_getTransactionCount,
    JsonRpcEncoding.eth_getCode, JsonRpcEncoding.eth_getTransactionByHash, JsonRpcEncoding.eth_getTransactionByBlockHashAndIndex,
    JsonRpcEncoding.eth_getTransactionByBlockNumberAndIndex, JsonRpcEncoding.eth_getTransactionReceipt; core.
Qed.

Lemma quiet_answer body :
  (∀ request, json_parse body = Ok request → getMethod request ≠ Ok m_eth_sendRawTransaction) →
  keeps (quiet m0) (rpc body).
Proof.
  intros Hb. unfold parseJsonRpcRequest. apply keeps_mtry; [|intros r; apply keeps_lift]. apply keeps_bind; [|intros ?; core].
  unfold answer_request. apply keeps_lift_bind. intros request Hr. apply keeps_bind; [apply keeps_lift|]. intros ok. destruct ok; cbn [negb]; [|apply keeps_ret].
  apply keeps_lift_bind. intros method Hg. apply keeps_bind; [|intros ret; apply keeps_lift]. apply quiet_method. intros ->. by destruct (Hb _ Hr).
Qed.
End reads.

(** C22: Whatever is sent to the node over HTTP, unless it is a raw transaction, the sessions, the requests, the pools, the
    consensus and the chain of the node are the same afterwards, and nothing has been sent to another node. *)
Theorem queries_keep_node body (m : MG) :
  (∀ request, json_parse body = Ok request → getMethod request ≠ Ok m_eth_sendRawTransaction) →
  quiet m (rpc body m).2.
Proof. intros Hb. by apply quiet_answer. Qed.

(** ** Requests and their answers *)

(** A request with its four members, in any order and whatever else it has. *)
Definition request_of (request : jvalue) (method : string) (params id : jvalue) : Prop :=
  ∃ ms, request = JsObject ms ∧ jlookup (string_bytes "jsonrpc") ms = Some (js "2.0") ∧ jlookup (string_bytes "method") ms = Some (js method) ∧
    jlookup (string_bytes "params") ms = Some params ∧ jlookup (string_bytes "id") ms = Some id.

(** The identifiers that are answered as they are. *)
Definition plain_id (id : jvalue) : bool := match id with JsString _ | JsUnsigned _ | JsNull => true | _ => false end.

Lemma request_index request method params id key x :
  request_of request method params id →
  (key, x) ∈ [("jsonrpc", js "2.0"); ("method", js method); ("params", params); ("id", id)]%string →
  js_contains request key = true ∧ js_index request key = Ok x ∧ js_access request key = Ok (x, request).
Proof.
  intros (ms & -> & H1 & H2 & H3 & H4) Hin. unfold js_contains, js_index, js_access.
  assert (Hk : jlookup (string_bytes key) ms = Some x); [|by rewrite Hk].
  rewrite !elem_of_cons in Hin. destruct Hin as [[= -> ->]|[[= -> ->]|[[= -> ->]|[[= -> ->]|[]%not_elem_of_nil]]]]; done.
Qed.

#[local] Ltac member := by rewrite !elem_of_cons; auto.

Lemma param_string_at request method l id i x :
  request_of request method (JsArray l) id → l !! i = Some (JsString x) → param_string request i = Ok x.
Proof.
  intros Hr Hi. unfold param_string. destruct (request_index _ _ _ _ "params" (JsArray l) Hr) as (_ & -> & _); [member|].
  rewrite result_bind_Ok. cbn [js_at]. by rewrite Hi.
Qed.

Lemma answer_id_plain request method params id : request_of request method params id → plain_id id = true → answer_id request = Ok id.
Proof.
  intros Hr Hp. unfold answer_id. destruct (request_index _ _ _ _ "id" id Hr) as (_ & _ & ->); [member|].
  rewrite result_bind_Ok. by destruct id.
Qed.

(** What such a request runs. *)
Lemma answer_request_run body request method params id m (s : MG) :
  json_parse body = Ok request → request_of request method params id → is_object params || is_array params = true → plain_id id = true →
  list_find (λ p, string_bytes p.1 = string_bytes method) methodsLookupTable = Some m →
  answer_request chainOwner chainId options body s =
    (ret <-- run_method chainOwner chainId options m.2.2 request;; mlift (ret ← js_set ["id"] id ret; Ok (Some ret))) s.
Proof.
  intros Hp Hr Hk Hid Hm. unfold answer_request. unfold mbind' at 1, mlift at 1. rewrite Hp.
  assert (Hc : checkJsonRPCSpec request = Ok true).
  { unfold checkJsonRPCSpec.
    destruct (request_index _ _ _ _ "jsonrpc" (js "2.0") Hr) as (-> & -> & _); [member|].
    destruct (request_index _ _ _ _ "method" (js method) Hr) as (-> & _ & _); [member|].
    destruct (request_index _ _ _ _ "params" params Hr) as (-> & -> & _); [member|].
    cbn [negb]. rewrite !result_bind_Ok. cbn [js js_get_string]. rewrite !result_bind_Ok. rewrite bool_decide_eq_false_2 by (by intros H). cbn [negb].
    by rewrite Hk. }
  unfold mbind' at 1, mlift at 1. rewrite Hc. cbn [negb].
  assert (Hg : getMethod request = Ok m.2.2).
  { unfold getMethod. destruct (request_index _ _ _ _ "method" (js method) Hr) as (_ & -> & _); [member|]. rewrite result_bind_Ok.
    cbn [js js_get_string]. rewrite result_bind_Ok, Hm. by destruct m as [? [? ?]]. }
  unfold mbind' at 1, mlift at 1. rewrite Hg. unfold mbind'. destruct (run_method _ _ _ _ _ s) as [[ret|e] s']; [|done].
  unfold mlift. cbn [sets]. rewrite (answer_id_plain _ _ _ _ Hr Hid), result_bind_Ok. by destruct (js_set _ _ ret).
Qed.

(** The answer of a request whose method gives [ret]. *)
Lemma rpc_run body request method params id m ret (s s' : MG) :
  json_parse body = Ok request → request_of request method params id → is_object params || is_array params = true → plain_id id = true →
  list_find (λ p, string_bytes p.1 = string_bytes method) methodsLookupTable = Some m →
  run_method chainOwner chainId options m.2.2 request s = (Ok (JsObject ret), s') →
  rpc body s = (json_dump (JsObject (jinsert (string_bytes "id") id ret)), s').
Proof.
  intros Hp Hr Hk Hid Hm Hrun. unfold parseJsonRpcRequest, mtry. unfold mbind' at 1.
  rewrite (answer_request_run body request method params id m) by done. unfold mbind' at 1. by rewrite Hrun.
Qed.

(** A method that throws is answered with an error, and with the identifier 0. *)
Lemma rpc_failed body request method params id m e (s s' : MG) :
  json_parse body = Ok request → request_of request method params id → is_object params || is_array params = true → plain_id id = true →
  list_find (λ p, string_bytes p.1 = string_bytes method) methodsLookupTable = Some m →
  run_method chainOwner chainId options m.2.2 request s = (Throw e, s') → e ≠ Undefined →
  rpc body s = ((j ← internal_error e; json_dump j), s').
Proof.
  intros Hp Hr Hk Hid Hm Hrun He. unfold parseJsonRpcRequest, mtry. unfold mbind' at 1.
  rewrite (answer_request_run body request method params id m) by done. unfold mbind' at 1. rewrite Hrun. by destruct e.
Qed.

(** ** Raw transactions *)

Lemma isValid_hexs b : bytes_ok b → isValid (hexs b) true = true.
Proof.
  intros Hb. unfold hexs. change ([chr_0; chr_x] ++ ?l) with (chr_0 :: chr_x :: l). rewrite isValid_0x, hex2_nibbles.
  apply bool_decide_eq_true, find_none. cbn [drop]. eapply hexdigits_filter. by apply hexdigits_of.
Qed.

Lemma decode_raw request tx rest id :
  request_of request "eth_sendRawTransaction" (JsArray (JsString (hexs (tx_bytes tx)) :: rest)) id → tx_sendable tx → bytes_ok (tx_bytes tx) →
  JsonRpcDecoding.eth_sendRawTransaction request = Ok tx.
Proof.
  intros Hr (Ht & Hpa & Hs & _) Hb. unfold JsonRpcDecoding.eth_sendRawTransaction.
  rewrite (param_string_at _ _ _ _ 0 (hexs (tx_bytes tx)) Hr) by done. rewrite result_bind_Ok, isValid_hexs by done. cbn [negb throw_if].
  rewrite result_bind_Ok, toBytes_hexs by done. rewrite result_bind_Ok. unfold tx_bytes. by rewrite parse_serialize_aux.
Qed.

Lemma addTx_run tx (s : ST) txInvalid :
  validateTransaction s tx = Ok txInvalid →
  addTx tx s = (Ok txInvalid, if decide (txInvalid = NotInvalid) then with_pool s (insert_new (hash_ tx) tx (mempool_ s)) else s).
Proof. intros Hv. unfold addTx, mbind', mget, mlift. rewrite Hv. by destruct txInvalid. Qed.

(** What the node answers before the identifier is added. *)
Definition raw_answer (tx : TxBlock) (txInvalid : TxInvalid) : list (list Z * jvalue) :=
  if decide (txInvalid = NotInvalid) then [(string_bytes "jsonrpc", js "2.0"); (string_bytes "result", JsString (hexs (hash_ tx)))]
  else [(string_bytes "error", JsObject [(string_bytes "code", JsInteger (-32000)); (string_bytes "message", js (invalid_message txInvalid))]);
        (string_bytes "jsonrpc", js "2.0")].

(** The node after it has taken a transaction. *)
Definition raw_taken (tx : TxBlock) (m : MG) : MG :=
  let k := FNVHash (tx_bytes tx) in
  let message := P2PEncoding.mkMessage (raw Broadcasting (uint64ToBytes k) BroadcastTx (tx_bytes tx)) in
  with_sent (sent_ m ++ map (λ n, (n, message)) (getSessionsIDs_type NORMAL_NODE m))
    (with_broadcasted (<[k := broadcasted k m + 1]> (broadcastedMessages_ m))
      (with_state (with_pool (state_ m) (insert_new (hash_ tx) tx (mempool_ (state_ m)))) m)).

Lemma encode_raw tx (m : MG) txInvalid :
  bytes_ok (hash_ tx) → bytes_ok (tx_bytes tx) → validateTransaction (state_ m) tx = Ok txInvalid → started_ m = true →
  broadcasted (FNVHash (tx_bytes tx)) m ≤ 0 →
  JsonRpcEncoding.eth_sendRawTransaction tx m =
    (Ok (JsObject (raw_answer tx txInvalid)), if decide (txInvalid = NotInvalid) then raw_taken tx m else m).
Proof.
  intros Hh Hb Hv Hst Hbr. unfold JsonRpcEncoding.eth_sendRawTransaction, raw_answer. unfold mbind' at 1, mlift at 1.
  change (sets [(["jsonrpc"%string], version_string)] JsNull) with (Ok (JsObject [(string_bytes "jsonrpc", js "2.0")])). cbv iota beta.
  unfold mbind' at 1, on_state at 1. rewrite (addTx_run _ _ _ Hv). destruct (decide (txInvalid = NotInvalid)) as [->|Hne].
  - unfold mbind' at 1, mlift at 1. unfold hex_js. rewrite fromBytes_string by done. cbn [sets app hex_ result_bind mbind js_set].
    change (jinsert (string_bytes "result") ?x _) with [(string_bytes "jsonrpc", js "2.0"); (string_bytes "result", x)].
    unfold mbind' at 1. unfold broadcastTxBlock, mbind', mlift. unfold broadcastTx. rewrite broadcast_ok by (by vm_compute).
    change (TxBlock_rlpSerialize tx true) with (tx_bytes tx). rewrite broadcastMessage_raw; [done|done| |done].
    apply bytesToUint64_roundtrip, FNVHash_range, Hb.
  - unfold mlift. destruct m as [? ? ? ? st ?], txInvalid; done.
Qed.

(** C11: A transaction sent in its RLP form by a client is answered with its hash, is in the mempool of the node, and is on its way
    to every normal node there is a session with; if its nonce or its balance is wrong the answer says which, and the node is
    as it was.  Which chain the transaction was signed for makes no difference. *)
Theorem raw_transaction body request tx rest id (m : MG) txInvalid :
  json_parse body = Ok request →
  request_of request "eth_sendRawTransaction" (JsArray (JsString (hexs (tx_bytes tx)) :: rest)) id → plain_id id = true →
  tx_sendable tx → bytes_ok (tx_bytes tx) → validateTransaction (state_ m) tx = Ok txInvalid →
  started_ m = true → broadcasted (FNVHash (tx_bytes tx)) m ≤ 0 →
  rpc body m =
    (json_dump (JsObject (jinsert (string_bytes "id") id (raw_answer tx txInvalid))), if decide (txInvalid = NotInvalid) then raw_taken tx m else m).
Proof.
  intros Hp Hr Hid Hs Hb Hv Hst Hbr.
  assert (Hh : bytes_ok (hash_ tx)) by (destruct Hs as (_ & _ & (_ & _ & _ & ->) & _); exact (keccak_bytes _)).
  apply (rpc_run _ request "eth_sendRawTransaction" (JsArray (JsString (hexs (tx_bytes tx)) :: rest)) id (22%nat, ("eth_sendRawTransaction"%string, m_eth_sendRawTransaction))); try done.
  cbn [run_method snd]. unfold with_arg, mbind', mlift. rewrite (decode_raw _ _ _ _ Hr Hs Hb). by apply encode_raw.
Qed.

(** ** Identifiers *)

Lemma answer_request_inv body (m : MG) r m' :
  answer_request chainOwner chainId options body m = (Ok r, m') →
  match r with
  | None => m' = m
  | Some ret => ∃ request id ms, json_parse body = Ok request ∧ answer_id request = Ok id ∧ ret = JsObject ms ∧ jlookup (string_bytes "id") ms = Some id
  end.
Proof.
  unfold answer_request. unfold mbind' at 1, mlift at 1. destruct (json_parse body) as [request|] eqn:Hp; [|done].
  unfold mbind' at 1, mlift at 1. destruct (checkJsonRPCSpec request) as [[]|]; [|by intros [= <- <-]|done]. cbn [negb].
  unfold mbind' at 1, mlift at 1. destruct (getMethod request) as [method|]; [|done].
  unfold mbind' at 1. destruct (run_method _ _ _ method request m) as [[x|] m1]; [|done]. unfold mlift. cbn [sets].
  destruct (answer_id request) as [id|] eqn:Hid; [|done]. rewrite result_bind_Ok.
  destruct x as [| | | | | | |ms]; cbn [js_set mbind result_bind]; try done; intros [= <- _]; exists request, id; eexists; (split_and!; try done).
  by rewrite jlookup_insert, decide_True.
Qed.

(** An answer has the identifier of its request; a request that throws anything but undefined behaviour is answered with an
    error under the identifier 0, whatever its own was. *)
Theorem answers_identified body (m : MG) :
  match answer_request chainOwner chainId options body m with
  | (Ok (Some ret), m') =>
      rpc body m = (json_dump ret, m') ∧
      ∃ request id ms, json_parse body = Ok request ∧ answer_id request = Ok id ∧ ret = JsObject ms ∧ jlookup (string_bytes "id") ms = Some id
  | (Ok None, m') => (rpc body m).2 = m' ∧ m' = m
  | (Throw Undefined, m') => rpc body m = (Throw Undefined, m')
  | (Throw e, m') => ∃ ms, internal_error e = Ok (JsObject ms) ∧ jlookup (string_bytes "id") ms = Some (JsUnsigned 0) ∧
      rpc body m = (json_dump (JsObject ms), m')
  end.
Proof.
  assert (Hrpc : rpc body m = match answer_request chainOwner chainId options body m with
    | (Ok (Some ret), m') => (json_dump ret, m')
    | (Ok None, m') => ((rpc body m).1, m')
    | (Throw Undefined, m') => (Throw Undefined, m')
    | (Throw e, m') => (j ← internal_error e; json_dump j, m') end).
  { unfold parseJsonRpcRequest, mtry, mbind', mlift. destruct (answer_request _ _ _ body m) as [[[ret|]|e] m']; [done| |by destruct e].
    assert (Hj : ∃ j, invalid_request = Ok j) by (by eexists). destruct Hj as [j ->]. rewrite result_bind_Ok. by destruct (json_dump j) as [|[]]. }
  destruct (answer_request chainOwner chainId options body m) as [[[ret|]|e] m'] eqn:E.
  - apply answer_request_inv in E. by split.
  - apply answer_request_inv in E. split; [|done]. by rewrite Hrpc.
  - destruct e; try done; (eexists; split_and!; [done|done|done]).
Qed.

(** ** Requests without parameters *)

(** C39: JSON-RPC lets a request leave its parameters out, and [checkJsonRPCSpec] accepts one that does; every decoder then reads
    the member through a constant reference, and the program ends, whatever the method. *)
Theorem missing_params body ms method (m : MG) :
  json_parse body = Ok (JsObject ms) → jlookup (string_bytes "params") ms = None →
  checkJsonRPCSpec (JsObject ms) = Ok true → getMethod (JsObject ms) = Ok method → method ≠ m_invalid → method ≠ m_eth_sendTransaction →
  (rpc body m).1 = Throw Undefined.
Proof.
  intros Hp Hn Hc Hg H1 H2.
  assert (Hi : js_index (JsObject ms) "params" = Throw Undefined) by (unfold js_index; by rewrite Hn).
  assert (Hrun : (run_method chainOwner chainId options method (JsObject ms) m).1 = Throw Undefined).
  { destruct method; try done; unfold run_method, plain, with_arg, with_arg_sto, read_state, on_node_storage, on_state, on_storage,
      JsonRpcDecoding.web3_clientVersion, JsonRpcDecoding.net_version, JsonRpcDecoding.net_listening,
      JsonRpcDecoding.net_peerCount, JsonRpcDecoding.eth_protocolVersion, JsonRpcDecoding.eth_chainId,
      JsonRpcDecoding.eth_syncing, JsonRpcDecoding.eth_coinbase, JsonRpcDecoding.eth_blockNumber,
      JsonRpcDecoding.eth_gasPrice, JsonRpcDecoding.web3_sha3, JsonRpcDecoding.eth_getBlockByHash,
      JsonRpcDecoding.eth_getBlockByNumber, JsonRpcDecoding.eth_getBlockTransactionCountByHash,
      JsonRpcDecoding.eth_getBlockTransactionCountByNumber, JsonRpcDecoding.eth_call, JsonRpcDecoding.eth_estimateGas,
      JsonRpcDecoding.eth_getBalance, JsonRpcDecoding.eth_getTransactionCount, JsonRpcDecoding.eth_getCode,
      JsonRpcDecoding.eth_getTransactionByHash, JsonRpcDecoding.eth_getTransactionByBlockHashAndIndex,
      JsonRpcDecoding.eth_getTransactionByBlockNumberAndIndex, JsonRpcDecoding.eth_getTransactionReceipt,
      JsonRpcDecoding.eth_getLogs, JsonRpcDecoding.eth_sendRawTransaction,
      no_params, address_and_block, includes_txs, param_string, tx_object, decoding, rethrow_as, mtry, mbind', mlift, mgets; cbn -[js_index]; by rewrite ?Hi. }
  unfold parseJsonRpcRequest, mtry, answer_request, mbind', mlift. rewrite Hp, Hc. cbn [negb]. rewrite Hg.
  destruct (run_method _ _ _ method _ m) as [r m']. cbn in Hrun. by subst r.
Qed.

(** ** Balances *)

Lemma addFilter_hexs a : bytes_ok a → length a = 20%nat → regex_match addFilter (hexs a) = true.
Proof.
  intros Hb Hl. apply prefixed_rep. exists (map digit (nibbles a)). unfold hexs. rewrite hex2_nibbles. split; [done|].
  rewrite length_map, nibbles_length, Hl. split; [done|]. assert (Hn := nibbles_range _ Hb). induction Hn as [|n ns Hr _ IH]; [done|].
  cbn. rewrite IH, andb_true_r. by nibble_cases n.
Qed.

Lemma decode_balance request a id :
  request_of request "eth_getBalance" (JsArray [JsString (hexs a); js "latest"]) id → bytes_ok a → length a = 20%nat →
  JsonRpcDecoding.eth_getBalance request = Ok a.
Proof.
  intros Hr Hb Hl. unfold JsonRpcDecoding.eth_getBalance, address_and_block.
  rewrite (param_string_at _ _ _ _ 0 (hexs a) Hr), (param_string_at _ _ _ _ 1 (string_bytes "latest") Hr) by done.
  rewrite !result_bind_Ok. unfold checked_block. rewrite bool_decide_eq_true_2 by done. rewrite result_bind_Ok.
  unfold checked_address, checked. rewrite addFilter_hexs by done. cbn [negb throw_if]. rewrite result_bind_Ok. unfold address_of_hex.
  rewrite toBytes_hexs, result_bind_Ok by done. unfold FixedBytes_of. by rewrite decide_True.
Qed.

(** A client that asks for a balance is answered with the balance: the quantity in the answer reads back as the number the
    account has, and nothing of the node changes. *)
Theorem balance_answered body request a id (m : MG) :
  json_parse body = Ok request → request_of request "eth_getBalance" (JsArray [JsString (hexs a); js "latest"]) id → plain_id id = true →
  bytes_ok a → length a = 20%nat → in_uint 256 (getNativeBalance (state_ m) a) →
  ∃ q, rpc body m = (json_dump (JsObject [(string_bytes "id", id); (string_bytes "jsonrpc", js "2.0"); (string_bytes "result", JsString q)]), m) ∧
    if getNativeBalance (state_ m) a =? 0 then q = string_bytes "0x0" else hex_uint256 q = Ok (getNativeBalance (state_ m) a).
Proof.
  intros Hp Hr Hid Hb Hl Hu. set (n := getNativeBalance (state_ m) a) in *.
  assert (Hq : ∃ q, rpc_uint n = Ok (JsString q) ∧ if n =? 0 then q = string_bytes "0x0" else hex_uint256 q = Ok n).
  { destruct (Z.eqb_spec n 0) as [->|Hn]; [by exists (string_bytes "0x0")|].
    destruct (quantity_spec n Hu ltac:(unfold in_uint in Hu; lia)) as (q & Hq & _ & Hx & _). by exists q. }
  destruct Hq as (q & Hq & Hx). exists q. split; [|done].
  apply (rpc_run _ request "eth_getBalance" (JsArray [JsString (hexs a); js "latest"]) id (18%nat, ("eth_getBalance"%string, m_eth_getBalance)) [(string_bytes "jsonrpc", js "2.0"); (string_bytes "result", JsString q)]); try done.
  cbn [run_method snd]. unfold with_arg, mbind' at 1, mlift at 1. rewrite (decode_balance _ _ _ Hr Hb Hl).
  unfold JsonRpcEncoding.eth_getBalance, read_state, mgets, mbind', mlift. fold n. by rewrite Hq.
Qed.
End answers.

(** ** Witnesses *)

Definition toy_exn_text : ExnText := {| std_what _ := "std::exception"%string |}.

(** A text that stands for one request; the members of an answer that are strings are written after their names. *)
Definition toy_text (request : jvalue) : JsonText := {|
  json_parse _ := Ok request;
  json_dump j := match j with
    | JsObject ms => Ok (concat (map (λ p, p.1 ++ match p.2 with JsString s => s | _ => [] end) ms))
    | _ => Ok []
    end
|}.

Definition toy_options : Options := mkOptions (string_bytes "OrbiterSDK/cpp/linux_x86-64/0.2.0") 0 2 0 zero_address 2000 100.

(** The sender of [Tx.toy_tx] has what it needs. *)
Definition toy_funded : Manager (V := SafeCell Z) (DBI := ref_db) :=
  let h := with_accounts EVMHost_new {[ from_ Tx.toy_tx := set_nonce (7, 7) (set_balance (2 * 10 ^ 18, 2 * 10 ^ 18) EVMAccount_new) ]} in
  (registerSession toy_peer NORMAL_NODE (manager_start (manager_new (toy_chain_node h ∅)))).2.

Definition toy_params (method : string) (params : list jvalue) : jvalue :=
  JsObject [(string_bytes "id", JsUnsigned 3); (string_bytes "jsonrpc", js "2.0"); (string_bytes "method", js method);
            (string_bytes "params", JsArray params)].

(** The node is not of the chain 8080 that the transaction was signed for. *)
Abbreviation toy_rpc request := (@parseJsonRpcRequest (SafeCell Z) Z cell_SafeVariable ref_db toy_secp boost_ref toy_hash toy_evm residue_ref
  toy_types order_ref node_order_ref toy_json toy_exn_text (toy_text request) toy_owner 9999 toy_options).

Definition toy_raw_request : jvalue := toy_params "eth_sendRawTransaction" [JsString (hexs (tx_bytes Tx.toy_tx))].

Lemma raw_transaction_witness :
  mempool_ (state_ (toy_rpc toy_raw_request [] toy_funded).2) !! hash_ Tx.toy_tx = Some Tx.toy_tx ∧
  length (sent_ (toy_rpc toy_raw_request [] toy_funded).2) = 1%nat.
Proof.
  assert (E := @raw_transaction (SafeCell Z) Z cell_SafeVariable ref_db toy_secp boost_ref toy_hash toy_evm residue_ref toy_types order_ref
    node_order_ref toy_json toy_exn_text (toy_text toy_raw_request) toy_owner 9999 toy_options [] toy_raw_request Tx.toy_tx [] (JsUnsigned 3)
    toy_funded NotInvalid).
  rewrite E; [split; by vm_compute|done| |done|by_compute|by_compute|by vm_compute|done|by vm_compute].
  eexists. split; [done|]. by repeat split.
Defined.

Definition toy_balance_request : jvalue := toy_params "eth_getBalance" [JsString (hexs (from_ Tx.toy_tx)); js "latest"].

Lemma balance_answered_witness :
  ∃ q, (toy_rpc toy_balance_request [] toy_funded).2 = toy_funded ∧ hex_uint256 q = Ok (2 * 10 ^ 18).
Proof.
  destruct (@balance_answered (SafeCell Z) Z cell_SafeVariable ref_db toy_secp boost_ref toy_hash toy_evm residue_ref toy_types order_ref
    node_order_ref toy_json toy_exn_text (toy_text toy_balance_request) toy_owner 9999 toy_options [] toy_balance_request (from_ Tx.toy_tx) (JsUnsigned 3)
    toy_funded) as (q & E & Hq); [done| |done|by_compute|by vm_compute|by_compute|].
  - eexists. split; [done|]. by repeat split.
  - exists q. rewrite E. split; [done|exact Hq].
Defined.

Lemma queries_keep_node_witness : quiet toy_funded (toy_rpc toy_balance_request [] toy_funded).2.
Proof.
  apply (@queries_keep_node (SafeCell Z) Z cell_SafeVariable ref_db toy_secp boost_ref toy_hash toy_evm residue_ref toy_types order_ref
    node_order_ref toy_json toy_exn_text (toy_text toy_balance_request)).
  intros request [= <-]. by vm_compute.
Defined.

Definition toy_bare_request : list (list Z * jvalue) :=
  [(string_bytes "id", JsUnsigned 3); (string_bytes "jsonrpc", js "2.0"); (string_bytes "method", js "eth_blockNumber")].

Lemma missing_params_witness : (toy_rpc (JsObject toy_bare_request) [] toy_funded).1 = Throw Undefined.
Proof.
  apply (@missing_params (SafeCell Z) Z cell_SafeVariable ref_db toy_secp boost_ref toy_hash toy_evm residue_ref toy_types order_ref
    node_order_ref toy_json toy_exn_text (toy_text (JsObject toy_bare_request)) toy_owner 9999 toy_options [] toy_bare_request m_eth_blockNumber);
    [done|by vm_compute|by vm_compute|by vm_compute|done|done].
Defined.
