(* ===== verification/HttpSession.v ===== *)
(** * HttpSession: a connection of the HTTP server (src/net/http/httpsession.cpp)

    The queue of responses and the session that reads requests and writes responses: at most one read and one write are
    outstanding, and reading stops while the queue is full.  A step is the completion of a read or of a write.  Which responses
    end the connection ([need_eof()]) is Beast's. *)

From S2P Require Import Prelude Bytes SizedInts Hashing Hex ECDSA SafeBase SafeCell Tx TxValidator Randomness Block P2PEncoding RdPoS Abi DB Event Storage EvmHost ContractManager State StateTx StateBlock P2PManager P2PFlood JsonValue JsonRpcDecoding JsonRpcEncoding HttpParser JsonRpcAnswers.

Class Beast := { need_eof : HttpResponse → bool }.

Section session.
Context {V T : Type} {SV : SafeVariable V T} {DBI : RocksDB} {LS : LibSecp256k1} {BB : BoostBits} {KC : Keccak}
  {VM : EVMC} {BR : BoostResidue} {CT : ContractTypes (V := V)} {HO : HashOrder} {NO : NodeOrder} {JS : Json} {ET : ExnText}
  {JT : JsonText} {BE : Beast}.
Variables (chainOwner : list Z) (chainId : Z).
Variable options : Options.
Abbreviation MG := (Manager (V := V)).

(** [items_] is the queue; the flags are the outstanding operations; [closed_] is set by [do_close] and by what fails. *)
Record HTTPSession := mkSession {
  items_ : list HttpResponse;
  reading_ : bool;
  writing_ : bool;
  closed_ : bool;
  written_ : list HttpResponse;
  node_ : MG
}.

Definition limit_ : nat := 8.

Definition with_items (x : list HttpResponse) (s : HTTPSession) : HTTPSession :=
  mkSession x (reading_ s) (writing_ s) (closed_ s) (written_ s) (node_ s).
Definition with_reading (x : bool) (s : HTTPSession) : HTTPSession :=
  mkSession (items_ s) x (writing_ s) (closed_ s) (written_ s) (node_ s).
Definition with_writing (x : bool) (s : HTTPSession) : HTTPSession :=
  mkSession (items_ s) (reading_ s) x (closed_ s) (written_ s) (node_ s).
Definition with_written (x : list HttpResponse) (s : HTTPSession) : HTTPSession :=
  mkSession (items_ s) (reading_ s) (writing_ s) (closed_ s) x (node_ s).
Definition do_close (s : HTTPSession) : HTTPSession :=
  mkSession (items_ s) (reading_ s) (writing_ s) true (written_ s) (node_ s).
Definition on_node {A} (c : M MG A) : M HTTPSession A := λ s,
  let '(r, m) := c (node_ s) in (r, mkSession (items_ s) (reading_ s) (writing_ s) (closed_ s) (written_ s) m).

(** [HTTPQueue]. *)
Definition queue_full (s : HTTPSession) : bool := (limit_ <=? length (items_ s))%nat.

(** The queue is given a response: it is written at once if there is no other. *)
Definition queue_push (msg : HttpResponse) : M HTTPSession unit :=
  mmodify (λ s, with_items (items_ s ++ [msg]) s) ;;;
  mmodify (λ s, if (length (items_ s) =? 1)%nat then with_writing true s else s).

(** [BOOST_ASSERT(!items_.empty())], the first item erased, and the write of the next one. *)
Definition queue_on_write : M HTTPSession bool :=
  s <-- mget;;
  match items_ s with
  | [] => mthrow Undefined
  | _ :: rest =>
      mmodify (with_items rest) ;;;
      mmodify (λ s, match rest with [] => s | _ => with_writing true s end) ;;;
      mret' (queue_full s)
  end.

Definition do_read : M HTTPSession unit := mmodify (with_reading true).

(** How a read ends: the other side has closed, an error, or a request. *)
Inductive read_end := EndOfStream | ReadFailed | Received (req : HttpRequest).

Definition http_on_read (e : read_end) : M HTTPSession unit :=
  match e with
  | EndOfStream => mmodify do_close
  | ReadFailed => mmodify do_close
  | Received req =>
      response <-- on_node (handle_request chainOwner chainId options req);;
      queue_push response ;;;
      s <-- mget;;
      if negb (queue_full s) then do_read else mret' tt
  end.

(** How a write ends: what was written is the first of the queue. *)
Definition http_on_write (failed_ close : bool) : M HTTPSession unit :=
  if failed_ then mmodify do_close
  else if close then mmodify do_close
  else
    wasFull <-- queue_on_write;;
    if wasFull : bool then do_read else mret' tt.

Definition session_start (m : MG) : HTTPSession := mkSession [] true false false [] m.

(** ** Runs *)

(** The outstanding read completes, or the outstanding write does; the requests received so far. *)
Inductive runs (m : MG) : list HttpRequest → HTTPSession → Prop :=
| runs_start : runs m [] (session_start m)
| runs_request reqs s req s' :
    runs m reqs s → reading_ s = true →
    http_on_read (Received req) (with_reading false s) = (Ok tt, s') → runs m (reqs ++ [req]) s'
| runs_read_ends reqs s e :
    runs m reqs s → reading_ s = true → e = EndOfStream ∨ e = ReadFailed →
    runs m reqs (http_on_read e (with_reading false s)).2
| runs_written reqs s msg s' :
    runs m reqs s → writing_ s = true → head (items_ s) = Some msg →
    http_on_write false (need_eof msg) (with_written (written_ s ++ [msg]) (with_writing false s)) = (Ok tt, s') → runs m reqs s'
| runs_write_fails reqs s close :
    runs m reqs s → writing_ s = true → runs m reqs (http_on_write true close (with_writing false s)).2.

(** What the requests are answered with one after the other. *)
Fixpoint served (m : MG) (reqs : list HttpRequest) : result (list HttpResponse * MG) :=
  match reqs with
  | [] => Ok ([], m)
  | req :: reqs =>
      match handle_request chainOwner chainId options req m with
      | (Ok a, m) => '(l, m) ← served m reqs; Ok (a :: l, m)
      | (Throw e, _) => Throw e
      end
  end.

Lemma served_app m reqs req l m1 a m2 :
  served m reqs = Ok (l, m1) → handle_request chainOwner chainId options req m1 = (Ok a, m2) → served m (reqs ++ [req]) = Ok (l ++ [a], m2).
Proof.
  revert m l. induction reqs as [|r reqs IH]; intros m l; cbn [served app].
  - intros [= <- <-] ->. done.
  - destruct (handle_request _ _ _ r m) as [[x|] m3]; [|done]. destruct (served m3 reqs) as [[l1 m4]|] eqn:E; [|done].
    rewrite result_bind_Ok. intros [= <- <-] Hr. by rewrite (IH _ _ E Hr), result_bind_Ok.
Qed.

(** The queue is within its limit, an open session reads while there is room, and it writes while there is something to write;
    after a response that ends the connection, or a write that fails, nothing is written any more. *)
Definition session_inv (m : MG) (reqs : list HttpRequest) (s : HTTPSession) : Prop :=
  (length (items_ s) ≤ limit_)%nat ∧ (reading_ s = true → queue_full s = false) ∧ (closed_ s = false → reading_ s = negb (queue_full s)) ∧
  ∃ l, served m reqs = Ok (l, node_ s) ∧
    (writing_ s = bool_decide (items_ s ≠ []) ∧ l = written_ s ++ items_ s ∨
     closed_ s = true ∧ writing_ s = false ∧ items_ s ≠ [] ∧ written_ s `prefix_of` l).

Lemma full_spec s : queue_full s = false ↔ (length (items_ s) < 8)%nat.
Proof. apply Nat.leb_gt. Qed.

(** The three fields of the queue's operations. *)
Lemma request_run req s s' :
  http_on_read (Received req) s = (Ok tt, s') →
  ∃ a nd, handle_request chainOwner chainId options req (node_ s) = (Ok a, nd) ∧
    let n := (length (items_ s) + 1)%nat in
    s' = mkSession (items_ s ++ [a]) (if (n <? limit_)%nat then true else reading_ s) (if (n =? 1)%nat then true else writing_ s) (closed_ s) (written_ s) nd.
Proof.
  unfold http_on_read. unfold mbind' at 1, on_node at 1. destruct (handle_request _ _ _ req (node_ s)) as [[a|] nd]; [|done]. intros E. exists a, nd.
  split; [done|]. revert E. destruct s as [items rd wr cl wn nd0]. unfold mbind', queue_push, mmodify, mget, queue_full, do_read, mmodify, mret'.
  cbn -[limit_ Nat.leb Nat.ltb Nat.eqb Nat.add]. rewrite length_app. change (length [a]) with 1%nat. set (n := (length items + 1)%nat).
  destruct (Nat.eqb_spec n 1) as [E1|E1]; cbn -[limit_ Nat.leb Nat.ltb Nat.eqb Nat.add]; rewrite length_app; change (length [a]) with 1%nat; fold n;
    rewrite Nat.leb_antisym, negb_involutive; destruct (n <? limit_)%nat; by intros [= <-].
Qed.

Lemma inv_request m reqs s req s' :
  session_inv m reqs s → reading_ s = true → http_on_read (Received req) (with_reading false s) = (Ok tt, s') → session_inv m (reqs ++ [req]) s'.
Proof.
  intros (Hlen & Hroom & Hopen & l & Hl & Hcase) Hr (a & nd & Ha & ->)%request_run. specialize (Hroom Hr). apply full_spec in Hroom.
  destruct s as [items rd wr cl wn nd0]. unfold session_inv. cbn -[limit_ Nat.ltb] in *. rewrite length_app. cbn [length].
  split; [unfold limit_ in *; lia|]. split; [|split].
  - rewrite full_spec. cbn -[limit_ Nat.ltb]. rewrite length_app. cbn [length]. destruct (Nat.ltb_spec (length items + 1) limit_) as [E|E]; [by intros _|by intros].
  - intros _. unfold queue_full. cbn -[limit_ Nat.ltb]. rewrite length_app, Nat.leb_antisym, negb_involutive. cbn [length]. by destruct (_ <? _)%nat.
  - exists (l ++ [a]). split; [by eapply served_app|]. destruct Hcase as [[-> ->]|(-> & -> & Hne & Hp)].
    + left. rewrite <- app_assoc. split; [|done]. rewrite (bool_decide_eq_true_2 (items ++ [a] ≠ [])) by (by destruct items).
      destruct items as [|x items]; [done|]. cbn [length Nat.eqb Nat.add]. rewrite bool_decide_eq_true_2 by done. by destruct (_ =? _)%nat.
    + right. split_and!; [done| |by destruct items|by apply prefix_app_r]. destruct items; [done|]. cbn. by rewrite Nat.add_comm.
Qed.

Lemma inv_written m reqs s msg s' :
  session_inv m reqs s → writing_ s = true → head (items_ s) = Some msg →
  http_on_write false (need_eof msg) (with_written (written_ s ++ [msg]) (with_writing false s)) = (Ok tt, s') → session_inv m reqs s'.
Proof.
  intros (Hlen & Hroom & Hopen & l & Hl & Hcase) Hw Hh. destruct s as [items rd wr cl wn nd]. cbn -[limit_] in *. subst wr.
  destruct Hcase as [[_ ->]|(_ & ? & _)]; [|done]. destruct items as [|x items]; [done|]. injection Hh as ->.
  unfold http_on_write. destruct (need_eof msg).
  - intros [= <-]. unfold session_inv. cbn -[limit_]. split; [done|]. split; [done|]. split; [done|]. eexists. split; [done|]. right.
    split_and!; [done..|]. exists items. by rewrite <- app_assoc.
  - unfold mbind', queue_on_write, mget, mmodify, mret'. cbn -[limit_]. unfold queue_full at 1. cbn [items_ with_written with_writing]. intros E.
    assert (E' : s' = mkSession items (if (limit_ <=? S (length items))%nat then true else rd) (bool_decide (items ≠ [])) cl (wn ++ [msg]) nd).
    { revert E. unfold queue_full. cbn -[limit_]. destruct (limit_ <=? S (length items))%nat eqn:Ef; destruct items; cbn; by intros [= <-]. }
    subst s'. unfold session_inv. cbn -[limit_]. cbn [length] in Hlen. split; [lia|]. unfold queue_full in *. cbn -[limit_] in *. split; [|split].
    + intros _. apply Nat.leb_gt. lia.
    + intros Hc. specialize (Hopen Hc). rewrite (proj2 (Nat.leb_gt _ (length items))) by lia. destruct (limit_ <=? S (length items))%nat; [done|]. by rewrite Hopen.
    + eexists. split; [done|]. left. split; [done|]. by rewrite <- app_assoc.
Qed.

Lemma runs_inv m reqs s : runs m reqs s → session_inv m reqs s.
Proof.
  induction 1 as [|reqs s req s' _ IH Hr Hs|reqs s e _ IH Hr He|reqs s msg s' _ IH Hw Hh Hs|reqs s close _ IH Hw].
  - split; [cbn; lia|]. split; [done|]. split; [done|]. exists []. split; [done|]. by left.
  - by eapply inv_request.
  - destruct IH as (Hlen & Hroom & Hopen & l & Hl & Hcase). assert (E : (http_on_read e (with_reading false s)).2 = do_close (with_reading false s)) by (by destruct He as [-> | ->]).
    rewrite E. split; [done|]. split; [done|]. split; [done|]. exists l. split; [done|]. destruct Hcase as [?|(_ & ?)]; [by left|by right].
  - by eapply inv_written.
  - destruct IH as (Hlen & Hroom & Hopen & l & Hl & Hcase). split; [done|]. split; [done|]. split; [done|]. exists l. split; [done|]. right.
    cbn. split_and!; [done|done| |].
    + destruct Hcase as [[Hw' _]|(_ & ? & _)]; [|congruence]. intros E. rewrite Hw in Hw'. symmetry in Hw'. by apply bool_decide_eq_true in Hw'.
    + destruct Hcase as [[_ ->]|(_ & ? & _)]; [by apply prefix_app_r|congruence].
Qed.

(** C23: A session answers the requests it receives in the order it receives them, as if they had been handled one after the
    other: what it has written are their first responses; while it is open the rest is in the queue, which never has more than
    eight, and the session is reading unless the queue is full and writing unless it is empty, so it never waits for nothing. *)
Theorem session_in_order m reqs s :
  runs m reqs s →
  ∃ l, served m reqs = Ok (l, node_ s) ∧ written_ s `prefix_of` l ∧ (length (items_ s) ≤ 8)%nat ∧
    (closed_ s = false → l = written_ s ++ items_ s ∧ reading_ s = negb (queue_full s) ∧ writing_ s = bool_decide (items_ s ≠ [])).
Proof.
  intros (Hlen & _ & Hopen & l & Hl & Hcase)%runs_inv. exists l. split; [done|]. split_and!.
  - destruct Hcase as [[_ ->]|(_ & _ & _ & ?)]; [by apply prefix_app_r|done].
  - done.
  - intros Hc. specialize (Hopen Hc). destruct Hcase as [[? ?]|(? & _)]; [done|congruence].
Qed.
End session.

(** ** Witnesses *)

Definition toy_beast : Beast := {| need_eof r := negb (res_keep_alive r) |}.

Definition toy_post : HttpRequest := mkHttpRequest verb_post (string_bytes "/") [] true.
Definition toy_options_request : HttpRequest := mkHttpRequest verb_options (string_bytes "/") [] true.

Abbreviation toy_served := (@served (SafeCell Z) Z cell_SafeVariable ref_db toy_secp boost_ref toy_hash toy_evm residue_ref
  toy_types order_ref node_order_ref toy_json toy_exn_text (toy_text toy_balance_request) toy_owner 9999 toy_options).
Abbreviation toy_runs := (@runs (SafeCell Z) Z cell_SafeVariable ref_db toy_secp boost_ref toy_hash toy_evm residue_ref
  toy_types order_ref node_order_ref toy_json toy_exn_text (toy_text toy_balance_request) toy_beast toy_owner 9999 toy_options).
Abbreviation toy_on_read := (@http_on_read (SafeCell Z) Z cell_SafeVariable ref_db toy_secp boost_ref toy_hash toy_evm residue_ref
  toy_types order_ref node_order_ref toy_json toy_exn_text (toy_text toy_balance_request) toy_owner 9999 toy_options).

(** A request, a second one, and the first response. *)
Definition toy_asked := (toy_on_read (Received toy_options_request) (with_reading false (session_start toy_funded))).2.
Definition toy_asked_twice := (toy_on_read (Received toy_post) (with_reading false toy_asked)).2.
Definition toy_first : HttpResponse := mkHttpResponse 200 None [] true.
Definition toy_answered := (http_on_write false (@need_eof toy_beast toy_first) (with_written [toy_first] (with_writing false toy_asked_twice))).2.

Lemma toy_answered_runs : toy_runs toy_funded [toy_options_request; toy_post] toy_answered.
Proof.
  eapply (runs_written _ _ _ _ _ toy_asked_twice toy_first); [|by vm_compute|by vm_compute|by vm_compute].
  eapply (runs_request _ _ _ _ [toy_options_request] toy_asked toy_post); [|by vm_compute|by vm_compute].
  eapply (runs_request _ _ _ _ [] (session_start toy_funded) toy_options_request); [constructor|done|by vm_compute].
Qed.

Lemma session_in_order_witness :
  ∃ l, toy_served toy_funded [toy_options_request; toy_post] = Ok (l, node_ toy_answered) ∧ l = toy_first :: items_ toy_answered ∧
    length (items_ toy_answered) = 1%nat ∧ writing_ toy_answered = true.
Proof.
  destruct (@session_in_order (SafeCell Z) Z cell_SafeVariable ref_db toy_secp boost_ref toy_hash toy_evm residue_ref toy_types order_ref
    node_order_ref toy_json toy_exn_text (toy_text toy_balance_request) toy_beast toy_owner 9999 toy_options _ _ _ toy_answered_runs)
    as (l & Hl & _ & _ & Ho). exists l. destruct Ho as (-> & _ & Hw); [by vm_compute|]. split; [done|]. split; [by vm_compute|]. split; by vm_compute.
Defined.
